(* ===== verification/_CoqProject ===== *)
-Q . S2P
Prelude.v
VideoPacket.v
Crypto.v
VideoTransport.v
VideoRoundtrip.v
VideoSafety.v
RustStr.v
Common.v
PolicyModel.v
PolicyEngine.v
PolicyNarrowing.v
PolicyDecision.v
PolicyBuild.v
SessionState.v
Replay.v
Protocol.v
Verifier.v
Enrollment.v
AuditLog.v
Control.v
ClientReceiver.v
Capture.v
Streamer.v
EndToEnd.v
Relay.v
ClientSession.v
Input.v
Agent.v
Storage.v
ControlPlane.v
Authorization.v
AuditTrail.v
Unicode.v
Window.v
WinInput.v
Surface.v
Decoder.v
Renderer.v
CommandChannel.v
Pipeline.v
Runtime.v
RelayForward.v
RelayServer.v
Nv12.v
WinCodec.v
WinCapture.v
HostWorker.v
AgentIdentity.v
Devices.v
NativeWorker.v
NativeCalls.v
NativeThreads.v
RendererThread.v
Quic.v
Bootstrap.v
Launch.v
RelayStreams.v
RelayRun.v
AuditSinks.v
Cancellation.v
ControlServer.v
WindowThread.v
CursorHandles.v
RelayedStream.v
ConcurrentRequests.v
RelayReconnect.v
