(* ===== verification/Prelude.v ===== *)
(** * Nexus: a verification library for the Nexus remote-desktop platform

    Nexus is a remote-desktop system: a control plane decides who may do what on
    which device and signs short-lived capabilities; an agent on the host verifies
    them; host and client exchange encrypted video and input; relays forward what
    they cannot read; an audit log observes.  This library models the program's own
    logic, one file per component, as executable definitions translated from the
    Rust sources under [src/], and proves what makes each component correct and what
    the components guarantee together.

    ** Conventions

    A machine integer is a [Z] with its range as a hypothesis ([uint w]) where it
    matters; wrapping, saturating, checked and plain arithmetic are written out
    ([wrap], [saturating_add], [checked_add], [plain], the last depending on the
    [build]: debug builds panic, release builds wrap).  Bytes are [Byte.byte], Rust
    strings are [string]s of their UTF-8 bytes, [BTreeMap] and [HashMap] are [gmap].
    [Result] is [result]; a panic is the [None] of an [option].  A method on
    [&mut self] returns its result and the new state.  Clock readings are arguments;
    [Instant]s and [Duration]s are nanoseconds, [UnixTimestamp]s seconds.  Objects
    shared by [Arc] are cells of an explicit heap where sharing is visible
    (Relay.v).  Recursion is structural, on the data the code loops over; [chunks] takes
    fuel, the length of the slice, which its equations show to be enough, and
    [submit_inputs] (WinCodec.v) the length of its queue, with a lemma that more makes no
    difference.  Identifier newtypes are their strings.

    Code outside [src/] is a parameter, a class of operations beside a class of its
    documented laws, with a concrete instance that satisfies the laws: the AEAD,
    Ed25519, X25519 and HKDF (Crypto.v), the Protobuf encoders generated by prost
    (Protocol.v, Input.v), serde_json (Enrollment.v, Storage.v), BLAKE3 (AuditLog.v;
    only that its digests are 64 ASCII characters is assumed, security is stated up
    to collisions), the Media Foundation transforms and Direct3D devices (Decoder.v,
    Renderer.v, WinCodec.v, WinCapture.v).

    ** Files

    - Prelude.v: results, integers, big-endian bytes, lists, automation.
    - RustStr.v: the parts of Rust's string library the program uses (trimming,
      splitting, integer and IP address parsing).
    - Common.v: crates/nexus-common ([time.rs], [id.rs], [error.rs]).
    - VideoPacket.v: the datagram header, crates/nexus-protocol [video_packet.rs].
      The decoder accepts exactly the encodings.
    - Crypto.v: crates/nexus-crypto.  Nonces are never reused; sealing and opening
      are inverse, and the associated data determines the metadata.
    - VideoTransport.v: crates/nexus-transport [video.rs], the packetizer and the
      [VideoFrameReassembler] with its invariant.  VideoRoundtrip.v: fragments in
      any order and multiplicity reassemble to the frame, exactly when complete.
      VideoSafety.v: memory bounds and freshness under arbitrary packets.
    - PolicyModel.v, PolicyEngine.v, PolicyNarrowing.v: crates/nexus-policy
      ([action.rs], [model.rs], [engine.rs], [narrowing.rs]).  Selectors and IP
      ranges decide their denotations; narrowing is the order on capabilities.
      PolicyDecision.v: when [evaluate] allows, what it grants, why it denies.
      PolicyBuild.v: the builders, the orders they respect, and that a decision is
      monotone in all of its arguments.
    - SessionState.v: crates/nexus-session [state.rs], invariants over all runs.
    - Replay.v, Verifier.v, Enrollment.v: crates/nexus-auth.  The replay cache
      refines an abstract window; a capability is accepted exactly when its claims
      hold, and once; signatures cover every field.
    - Protocol.v: message validation, crates/nexus-protocol [lib.rs].
    - AuditLog.v: crates/nexus-audit.  Appended chains verify, and two chains with the
      same last hash are equal or their entries collide; broadcasting reaches all.
      AuditSinks.v: sinks shared by reference, and the builder of events.
    - Control.v: crates/nexus-transport [control.rs], framing.
    - Capture.v: crates/nexus-capture and the software encoder of
      crates/nexus-codec.
    - Streamer.v: the host's streamer (apps/nexus-desktop-host [streamer.rs]), a
      client of the interfaces of capture source and encoder (classes of Capture.v).
    - ClientReceiver.v: the client's receiver (apps/nexus-client [receiver.rs]):
      on a hostile network it publishes only authentic, fresh frames, each once.
    - EndToEnd.v: what the streamer sends is what the receiver publishes.
    - Relay.v: relay tokens and session pairing (apps/nexus-relay [token.rs],
      [session.rs]).
    - ClientSession.v: the client's session (apps/nexus-client [session.rs]); its
      lifecycle, and that claims it validates are accepted by relay and agent.
    - Input.v: input from the client's window to the host's handler
      (crates/nexus-input, apps/nexus-client [input.rs] and the sender of
      [receiver.rs], apps/nexus-desktop-host [input_handler.rs]).
    - Agent.v: the agent's session manager (apps/nexus-agent
      [session_manager.rs]).
    - Storage.v: the control plane's tables and transactions (apps/nexusd
      [storage/], migrations/); tokens are never used beyond their budget.
      ControlPlane.v: its state and request handlers ([state.rs], [routes.rs]).
      Authorization.v: what an enrollment and an authorized session consist of, and
      that agent, relay and client accept what is issued.  AuditTrail.v: chain and
      store agree over all sequences of requests, and the log reads back.
      ConcurrentRequests.v: the handlers as tasks that interleave at every access to the
      shared state and are dropped when their client goes away.
      ControlServer.v: the router in front of the handlers, the process
      ([main.rs], [server.rs]) and its shutdown.
      Devices.v: the list of an organization's devices against reading them one by one,
      and the configuration of the database ([config.rs]).
    - AgentIdentity.v: the agent's identity file and enrollment (apps/nexus-agent
      [identity.rs], [enroll.rs]), from the agent's key through the control plane's
      handler to the file it loads after a restart.
    - HostWorker.v: the host worker's loop (apps/nexus-desktop-host [worker.rs]) and its
      whole stream at the client: over a network that loses, repeats and reorders, the
      client shows the newest frame that arrived completely.
    - Unicode.v, Window.v: UTF-16 and UTF-8, and the client's window (apps/nexus-client
      [window.rs]) with its control queue, its channels and the Windows message loop.
    - Surface.v, Decoder.v, Renderer.v: decoded surfaces and their repacking
      ([decoder.rs]), the decoder worker, and the renderer's queue, pixel conversions and
      upload ([renderer.rs]); every frame handed to the transform is accounted for.
      CommandChannel.v: the channel of one place to the decoder and the renderer thread,
      with the pace of the worker as a schedule.
    - WindowThread.v: the native window's thread from the creation of the window to its
      return, and the state its window procedure reaches by a raw pointer.
    - NativeWorker.v: the lifecycle of a native thread (apps/nexus-client
      [native_worker.rs] and the encoder's), owner, reapers and worker interleaved.
      NativeCalls.v: enumerating, activating and describing the Media Foundation
      transforms and the video processor.  NativeThreads.v: the decoder and encoder
      threads from start to release.  RendererThread.v: the renderer's thread, its
      owner and its device.
    - Pipeline.v, Runtime.v: the native pipeline with its worker as interleaved steps and
      the client's event loop ([runtime.rs]): errors fail closed, reconnection ends and
      starts clean, input is sent only while authorised.  Cancellation.v: the flag and
      the notification that stop it.
    - Quic.v: transport limits and endpoints (crates/nexus-transport [quic.rs]).
      Bootstrap.v: the client's start from its environment ([runtime.rs], [main.rs]).
      Launch.v: from the control plane's answer to a connected client.
    - RelayForward.v, RelayServer.v: the relay's handshake, bridged streams and datagrams
      ([forwarder.rs]), and its connection tasks as interleaved steps over the session
      table and the waiting peers ([server.rs]).  RelayStreams.v: the accept loops and
      the datagram loops of a paired session.  RelayRun.v: TLS set-up, the accept loop of
      connections and the shutdown.  RelayReconnect.v: the endpoints of a
      session meet, part and meet again under every schedule of the other connections, if
      the first waits before the second presents its token.  RelayedStream.v: the host worker's stream through
      the relay to the client.
    - WinInput.v: input injection and cursor snapshots of platform/windows ([input.rs],
      [cursor.rs]).  CursorHandles.v: the handles a snapshot obtains and gives back.
    - Nv12.v, WinCodec.v: the Windows encoder ([codec.rs]): the conversion to NV12 and its
      round trip through the client's conversion, the accounting of asynchronous events
      and of the frames in flight, and the keyframes that are owed.
    - WinCapture.v: Windows capture ([capture.rs]): textures, the two sessions with their
      callbacks as interleaved events, and the source with its worker and reaper.

    ** What the theorems show

    Functional correctness end to end: the stream from encoder to decoder job
    (EndToEnd.v, HostWorker.v, RelayedStream.v), authorization from request to acceptance by agent, relay
    and client and on to a connected client (Authorization.v, Launch.v), enrollment
    (AgentIdentity.v), input from window to host
    and to the native records (Input.v, WinInput.v), colours (Nv12.v).  Safety against a
    hostile network and peers: authenticity, freshness and single use (ClientReceiver.v,
    Verifier.v, Crypto.v, Relay.v, RelayServer.v).  Invariants of every stateful worker
    over all interleavings of its events: queues, accounting of frames, resources closed
    once, threads joined (Decoder.v, Pipeline.v, WinCodec.v, WinCapture.v, NativeWorker.v,
    NativeThreads.v, RendererThread.v, WindowThread.v), and of the control plane over all
    interleavings of its requests (ConcurrentRequests.v).  Refinement of abstract
    specifications: the replay cache, the render slot, the owed keyframe, the relay's accept
    loop.  Termination and liveness: reconnection, acquisition of a frame, pairing
    and pairing again, the teardown of workers, windows and the relay, cancellation.
    Concrete examples show where the code does not do what it means to; each is named in
    the file of its component.

    Loops whose length the environment decides take that environment as a list: the turns
    of an acquisition, the polls of a worker, the steps of a scheduler.  The end of such a
    list means that the loop still runs, and is a value of its own; the theorems on
    termination say which lists are long enough.

    ** Not modelled

    What the libraries do inside: the QUIC protocol and TLS (quinn, rustls), HTTP parsing
    and serving (axum, reqwest), SQLite's engine, Media Foundation, Direct3D, GDI and the
    windowing system.  Their answers are arguments, their documented guarantees are named
    hypotheses or the rules of a step relation.  A request handler of nexusd is
    interrupted only where it waits for the store, the chain's lock or the sink; SQLite
    is modelled by what its statements do to the tables, with failures as arguments.  Locks
    are modelled by the atomicity of the operations they guard; poisoning is not.
    Atomic variables are sequentially consistent.  The relay's byte counters wrap as in a
    release build; the panic of a debug build after 2^64 bytes is left out.  In
    RelayServer.v a session delivers while its task forwards and ends in one step; the loops
    and tasks inside a session are those of RelayStreams.v.  The client's
    pump of window events and the drain of the window thread's commands work on the queue
    as it is when they start; what arrives meanwhile is seen by the next turn.  The policy
    engine that the control plane is started with allows every request, so that the denial
    branches of its handlers are modelled and not reached; when an engine denies is proved
    in PolicyDecision.v.  Logging, [Debug] formatting and the
    binaries that only log ([nexus-cli], [nexus-agent], [nexus-relay],
    [nexus-desktop-host], crates/nexus-observability) have no behaviour to model.  What is
    left of the sources besides is tests, accessors, wrappers that only call another
    function, stubs for other platforms and conversions that only change a type. *)

From Stdlib Require Export ZArith Lia Strings.Byte.
From stdpp Require Export base strings gmap tactics list.

#[global] Open Scope Z_scope.
Declare Scope nexus_scope.
Delimit Scope nexus_scope with nexus.

(** ** Results

    Rust's [Result<A, E>], with the error type first so that [result E] is a
    monad.  The do-notation of stdpp ([x ← e; k]) is the [?] operator. *)

Inductive result (E A : Type) : Type :=
  | Ok (a : A)
  | Err (e : E).
Arguments Ok {E A} a.
Arguments Err {E A} e.

#[global] Instance result_ret {E} : MRet (result E) := λ A a, Ok a.
#[global] Instance result_bind {E} : MBind (result E) := λ A B f r,
  match r with Ok a => f a | Err e => Err e end.
#[global] Instance result_fmap {E} : FMap (result E) := λ A B f r,
  match r with Ok a => Ok (f a) | Err e => Err e end.
#[global] Instance result_eq_dec {E A} `{!EqDecision E, !EqDecision A} :
  EqDecision (result E A).
Proof. solve_decision. Defined.

(** [Result::map_err] and [Option::ok_or]. *)
Definition map_err {E F A} (f : E → F) (r : result E A) : result F A :=
  match r with Ok a => Ok a | Err e => Err (f e) end.
Definition ok_or {E A} (o : option A) (e : E) : result E A :=
  match o with Some a => Ok a | None => Err e end.
(** [Result::ok] and [Result::is_ok]. *)
Definition is_ok {E A} (r : result E A) : bool :=
  match r with Ok _ => true | Err _ => false end.
Definition ok {E A} (r : result E A) : option A :=
  match r with Ok a => Some a | Err _ => None end.
(** [Option::is_some_and]. *)
Definition is_some_and {A} (o : option A) (p : A → bool) : bool :=
  match o with Some a => p a | None => false end.

(** A guard: [if b { return Err(e) }; k]. *)
Notation "'guard!' b 'else' e ;; k" :=
  (if b then Err e else k)
  (at level 100, b at level 99, e at level 99, k at level 200,
   right associativity, format "'[v' 'guard!'  b  'else'  e  ;; '/' k ']'") : nexus_scope.
#[global] Open Scope nexus_scope.

#[global] Instance Ok_inj {E A} : Inj (=) (=) (@Ok E A).
Proof. congruence. Qed.

Lemma result_bind_ok {E A B} (r : result E A) (f : A → result E B) b :
  (r ≫= f) = Ok b ↔ ∃ a, r = Ok a ∧ f a = Ok b.
Proof. destruct r; simpl; split; [eauto|intros (?&?&?); congruence|congruence|intros (?&?&?); congruence]. Qed.

Lemma map_err_ok {E F A} (f : E → F) (r : result E A) a :
  map_err f r = Ok a ↔ r = Ok a.
Proof. destruct r; simpl; split; congruence. Qed.

Lemma ok_or_ok {E A} (o : option A) (e : E) a : ok_or o e = Ok a ↔ o = Some a.
Proof. destruct o; simpl; split; congruence. Qed.

(** ** Machine integers

    A [w]-bit unsigned integer is a [Z] below [2 ^ w]; a signed one is a [Z]
    of the two's-complement range.  [usize] is the 64-bit type of the
    platforms the workspace targets. *)

Definition umax (w : Z) : Z := 2 ^ w - 1.
Definition uint (w z : Z) : Prop := 0 ≤ z < 2 ^ w.
Definition sint (w z : Z) : Prop := - 2 ^ (w - 1) ≤ z < 2 ^ (w - 1).
Definition wrap (w z : Z) : Z := z mod 2 ^ w.

#[global] Instance uint_dec w z : Decision (uint w z).
Proof. unfold uint. apply _. Defined.
#[global] Instance sint_dec w z : Decision (sint w z).
Proof. unfold sint. apply _. Defined.

Definition u64_max : Z := 18446744073709551615.
Definition u128_max : Z := 340282366920938463463374607431768211455.
Definition usize_max : Z := u64_max.

(** Saturating and checked operations of [u64]/[usize]/[u128]; [max] is the
    largest value of the type. *)
Definition saturating_add (max a b : Z) : Z := Z.min max (a + b).
Definition saturating_sub (a b : Z) : Z := Z.max 0 (a - b).
Definition saturating_mul (max a b : Z) : Z := Z.min max (a * b).
Definition checked_add (max a b : Z) : option Z :=
  if a + b <=? max then Some (a + b) else None.
Definition checked_sub (a b : Z) : option Z :=
  if b <=? a then Some (a - b) else None.
Definition checked_mul (max a b : Z) : option Z :=
  if a * b <=? max then Some (a * b) else None.

(** The plain operators [+], [-], [*] panic on overflow in a debug build and
    wrap in a release build.  A panic is [None]. *)
Inductive build := Debug | Release.
Definition plain (bld : build) (w z : Z) : option Z :=
  if decide (uint w z) then Some z
  else match bld with Debug => None | Release => Some (wrap w z) end.

Lemma plain_in_range bld w z : uint w z → plain bld w z = Some z.
Proof. intros. unfold plain. by rewrite decide_True. Qed.

Lemma wrap_small w z : uint w z → wrap w z = z.
Proof. unfold uint, wrap. intros. by apply Z.mod_small. Qed.

Lemma wrap_uint w z : 0 ≤ w → uint w (wrap w z).
Proof. intros. unfold uint, wrap. apply Z.mod_pos_bound. lia. Qed.

(** Bitwise or stays within the width; and the tests of flag bits. *)
Lemma lor_uint w a b : uint w a → uint w b → uint w (Z.lor a b).
Proof.
  unfold uint. intros [Ha Ha'] [Hb Hb'].
  assert (0 ≤ Z.lor a b) by (by apply Z.lor_nonneg). split; [done|].
  destruct (decide (Z.lor a b = 0)) as [->|Hne]; [lia|].
  apply Z.log2_lt_pow2; [lia|]. rewrite Z.log2_lor by done.
  assert (∀ x, 0 ≤ x < 2 ^ w → x = 0 ∨ Z.log2 x < w) as Hx.
  { intros x Hx. destruct (decide (x = 0)); [by left|right].
    apply Z.log2_lt_pow2; lia. }
  pose proof (Z.log2_nonneg a). pose proof (Z.log2_nonneg b).
  assert (Z.log2 0 = 0) as Hz by done.
  destruct (Hx a) as [Ea|]; [done| |]; (destruct (Hx b) as [Eb|]; [done| |]);
    rewrite ?Ea, ?Eb, ?Hz in *; try lia. by destruct Hne.
Qed.

Lemma land_lor_other f b m : Z.land b m = 0 → Z.land (Z.lor f b) m = Z.land f m.
Proof. intros E. by rewrite Z.land_lor_distr_l, E, Z.lor_0_r. Qed.

Lemma land_lor_same f b : b ≠ 0 → Z.land (Z.lor f b) b ≠ 0.
Proof.
  intros Hb. rewrite Z.land_lor_distr_l, Z.land_diag.
  intros [_ ?]%Z.lor_eq_0_iff. done.
Qed.

(** A flag bit that tests set is already or-ed in. *)
Lemma lor_flag_set f k : 0 ≤ k → Z.land f (2 ^ k) ≠ 0 → Z.lor f (2 ^ k) = f.
Proof.
  intros Hk Hne. assert (Z.testbit f k = true) as Ht.
  { destruct (Z.testbit f k) eqn:E; [done|]. destruct Hne. apply Z.bits_inj'.
    intros n Hn. rewrite Z.land_spec, Z.pow2_bits_eqb, Z.bits_0 by done.
    destruct (Z.eqb_spec k n); subst; [by rewrite E|by rewrite andb_false_r]. }
  apply Z.bits_inj'. intros n Hn. rewrite Z.lor_spec, Z.pow2_bits_eqb by done.
  destruct (Z.eqb_spec k n); subst; [by rewrite Ht|by rewrite orb_false_r].
Qed.

Lemma Forall_in {A} (P : A → Prop) l : Forall P l ↔ ∀ x, x ∈ l → P x.
Proof. rewrite List.Forall_forall. by setoid_rewrite list_elem_of_In. Qed.

(** ** Bytes and big-endian codecs *)

Abbreviation bytes := (list byte).

#[global] Instance byte_eq_dec : EqDecision byte := Byte.byte_eq_dec.

(** [u8] to its number, and a number truncated to a [u8] ([z as u8]). *)
Definition of_byte (b : byte) : Z := Z.of_N (Byte.to_N b).
Definition to_byte (z : Z) : byte :=
  default x00 (Byte.of_N (Z.to_N (z mod 256))).

Lemma of_byte_range b : 0 ≤ of_byte b < 256.
Proof. unfold of_byte. pose proof (Byte.to_N_bounded b). lia. Qed.

Lemma of_to_byte z : of_byte (to_byte z) = z mod 256.
Proof.
  unfold of_byte, to_byte.
  pose proof (Z.mod_pos_bound z 256 ltac:(lia)) as Hb.
  destruct (Byte.of_N (Z.to_N (z mod 256))) as [b|] eqn:E; simpl.
  - apply Byte.to_of_N in E. rewrite E. lia.
  - apply Byte.of_N_None_iff in E. lia.
Qed.

Lemma to_of_byte b : to_byte (of_byte b) = b.
Proof.
  unfold of_byte, to_byte. pose proof (Byte.to_N_bounded b).
  rewrite Z.mod_small, N2Z.id by lia. by rewrite Byte.of_to_N.
Qed.

Lemma of_byte_inj b c : of_byte b = of_byte c → b = c.
Proof. intros E. rewrite <-(to_of_byte b), <-(to_of_byte c). by rewrite E. Qed.

Lemma to_byte_inj z w :
  0 ≤ z < 256 → 0 ≤ w < 256 → to_byte z = to_byte w → z = w.
Proof.
  intros Hz Hw E. apply (f_equal of_byte) in E. rewrite !of_to_byte in E.
  by rewrite !Z.mod_small in E by lia.
Qed.

(** [to_be_bytes] of an [8 * n]-bit integer, and [from_be_bytes]. *)
Fixpoint to_be_bytes (n : nat) (z : Z) : bytes :=
  match n with
  | O => []
  | S m => to_byte (z / 256 ^ Z.of_nat m) :: to_be_bytes m z
  end.
Fixpoint from_be_bytes (l : bytes) : Z :=
  match l with
  | [] => 0
  | b :: l' => of_byte b * 256 ^ Z.of_nat (length l') + from_be_bytes l'
  end.

Lemma length_to_be_bytes n z : length (to_be_bytes n z) = n.
Proof. induction n; simpl; congruence. Qed.

Lemma from_be_bytes_bound l : 0 ≤ from_be_bytes l < 256 ^ Z.of_nat (length l).
Proof.
  induction l as [|b l IH]; cbn [from_be_bytes length]; [simpl; lia|].
  pose proof (of_byte_range b).
  rewrite Nat2Z.inj_succ, Z.pow_succ_r by lia. nia.
Qed.

Lemma from_to_be_bytes n z : from_be_bytes (to_be_bytes n z) = z mod 256 ^ Z.of_nat n.
Proof.
  induction n as [|n IH]; cbn [to_be_bytes from_be_bytes].
  { simpl. by rewrite Z.mod_1_r. }
  rewrite length_to_be_bytes, of_to_byte, IH.
  rewrite Nat2Z.inj_succ, Z.pow_succ_r by lia.
  assert (0 < 256 ^ Z.of_nat n) by lia.
  rewrite (Z.mul_comm 256), Z.rem_mul_r by lia. ring.
Qed.

Lemma to_from_be_bytes l : to_be_bytes (length l) (from_be_bytes l) = l.
Proof.
  assert (∀ n m z w, (n ≤ m)%nat →
    to_be_bytes n (z * 256 ^ Z.of_nat m + w) = to_be_bytes n w) as Hhi.
  { induction n as [|n IH]; intros m z w Hle; cbn [to_be_bytes]; [done|].
    rewrite IH by lia. f_equal. apply of_byte_inj. rewrite !of_to_byte.
    replace (Z.of_nat m) with (Z.of_nat n + (1 + (Z.of_nat m - Z.of_nat n - 1)))
      by lia.
    rewrite !Z.pow_add_r by lia.
    replace (z * (256 ^ Z.of_nat n *
      (256 ^ 1 * 256 ^ (Z.of_nat m - Z.of_nat n - 1))) + w)
      with (w + (z * 256 ^ (Z.of_nat m - Z.of_nat n - 1) * 256) * 256 ^ Z.of_nat n)
      by ring.
    rewrite Z.div_add by lia. by rewrite Z.mod_add by lia. }
  induction l as [|b l IH]; cbn [length to_be_bytes from_be_bytes]; [done|].
  rewrite (Hhi _ (length l)), IH by lia. f_equal.
  apply of_byte_inj. rewrite of_to_byte.
  pose proof (from_be_bytes_bound l). pose proof (of_byte_range b).
  rewrite Z.add_comm, Z.div_add, Z.div_small, Z.mod_small by lia. lia.
Qed.

Lemma from_to_be_bytes_small n z :
  0 ≤ z < 256 ^ Z.of_nat n → from_be_bytes (to_be_bytes n z) = z.
Proof. intros. rewrite from_to_be_bytes. by apply Z.mod_small. Qed.

Lemma to_be_bytes_inj n z w :
  0 ≤ z < 256 ^ Z.of_nat n → 0 ≤ w < 256 ^ Z.of_nat n →
  to_be_bytes n z = to_be_bytes n w → z = w.
Proof.
  intros Hz Hw E. rewrite <-(from_to_be_bytes_small n z), E by done.
  by apply from_to_be_bytes_small.
Qed.

Lemma to_be_bytes_from n l :
  length l = n → to_be_bytes n (from_be_bytes l) = l.
Proof. intros <-. apply to_from_be_bytes. Qed.

Lemma from_be_bytes_one b : from_be_bytes [b] = of_byte b.
Proof. cbn [from_be_bytes length]. rewrite Z.mul_1_r. lia. Qed.

#[global] Arguments to_be_bytes : simpl never.
#[global] Arguments from_be_bytes : simpl never.

(** A two-part encoding with a first part of known length is injective. *)
Lemma app_inj_length {A} (l1 l2 k1 k2 : list A) :
  length l1 = length l2 → l1 ++ k1 = l2 ++ k2 → l1 = l2 ∧ k1 = k2.
Proof. intros Hl E. by apply app_inj_1 in E. Qed.

(** ** Strings

    A Rust [str] is the [string] of its UTF-8 bytes, so [len], [as_bytes],
    [is_empty] and [==] are those of the byte sequence. *)

Definition as_bytes (s : string) : bytes := String.list_byte_of_string s.
Definition str_len (s : string) : Z := Z.of_nat (String.length s).
Definition str_is_empty (s : string) : bool :=
  match s with EmptyString => true | _ => false end.
Definition str_eqb (s t : string) : bool := bool_decide (s = t).
Definition len {A} (l : list A) : Z := Z.of_nat (length l).

Lemma as_bytes_inj s t : as_bytes s = as_bytes t → s = t.
Proof.
  unfold as_bytes. intros E.
  by rewrite <-(String.string_of_list_byte_of_string s),
    <-(String.string_of_list_byte_of_string t), E.
Qed.

Lemma len_as_bytes s : len (as_bytes s) = str_len s.
Proof.
  unfold len, str_len, as_bytes, String.list_byte_of_string. f_equal.
  rewrite length_map. induction s; simpl; congruence.
Qed.

Lemma str_is_empty_len s : str_is_empty s = (str_len s =? 0).
Proof. unfold str_len. by destruct s. Qed.

Lemma len_app {A} (l k : list A) : len (l ++ k) = len l + len k.
Proof. unfold len. rewrite length_app. lia. Qed.
Lemma len_nonneg {A} (l : list A) : 0 ≤ len l.
Proof. unfold len. lia. Qed.
Lemma len_cons {A} (x : A) l : len (x :: l) = 1 + len l.
Proof. unfold len. simpl length. lia. Qed.
Lemma len_nil {A} : len (@nil A) = 0.
Proof. done. Qed.
Lemma str_len_nonneg s : 0 ≤ str_len s.
Proof. unfold str_len. lia. Qed.

(** ** Slices: [chunks] and index ranges *)

Section chunks.
Context {A : Type}.
Implicit Types l : list A.

(** [slice::chunks(n)]: consecutive pieces of [n] elements, the last one
    possibly shorter.  The fuel is the slice length: every step consumes at
    least one element when [n > 0]. *)
Fixpoint chunks_fuel (fuel n : nat) l : list (list A) :=
  match fuel with
  | O => []
  | S fuel' =>
      match l with
      | [] => []
      | _ => take n l :: chunks_fuel fuel' n (drop n l)
      end
  end.
Definition chunks (n : nat) l : list (list A) := chunks_fuel (length l) n l.

Lemma chunks_fuel_enough n l f :
  (0 < n)%nat → (length l ≤ f)%nat → chunks_fuel f n l = chunks n l.
Proof.
  intros Hn. unfold chunks. revert l.
  induction f as [f IH] using lt_wf_ind. intros l Hf.
  destruct f as [|f]; destruct l as [|x l]; simpl in *; try lia; try done.
  destruct n as [|n]; [lia|]. simpl. f_equal.
  rewrite (IH f), (IH (length l)); rewrite ?length_drop; lia || done.
Qed.

Lemma chunks_nil n : chunks n ([] : list A) = [].
Proof. done. Qed.

Lemma chunks_step n l :
  (0 < n)%nat → l ≠ [] → chunks n l = take n l :: chunks n (drop n l).
Proof.
  intros Hn Hl. unfold chunks at 1. destruct l as [|x l]; [done|]. simpl.
  f_equal. apply chunks_fuel_enough; [done|].
  destruct n; [lia|]. simpl. rewrite length_drop. lia.
Qed.

Lemma chunks_ind n (P : list A → Prop) :
  (0 < n)%nat → P [] → (∀ l, l ≠ [] → P (drop n l) → P l) → ∀ l, P l.
Proof.
  intros Hn H0 Hs l. induction l as [l IH] using (induction_ltof1 _ length).
  destruct (decide (l = [])) as [->|Hl]; [done|]. apply Hs; [done|]. apply IH.
  unfold ltof. rewrite length_drop. destruct l; [done|]. simpl. lia.
Qed.

Lemma concat_chunks n l : (0 < n)%nat → concat (chunks n l) = l.
Proof.
  intros Hn. pattern l. apply (chunks_ind n); [done|done|clear l; intros l Hl IH].
  rewrite chunks_step by done. simpl. by rewrite IH, take_drop.
Qed.

Lemma chunks_lengths n l :
  (0 < n)%nat → Forall (λ c, 0 < length c ≤ n)%nat (chunks n l).
Proof.
  intros Hn. pattern l.
  apply (chunks_ind n); [done|constructor|clear l; intros l Hl IH].
  rewrite chunks_step by done. constructor; [|done].
  rewrite length_take. destruct l; [done|]. simpl. lia.
Qed.

(** The number of pieces is the length over [n], rounded up. *)
Lemma length_chunks n l :
  (0 < n)%nat → len (chunks n l) = (len l + Z.of_nat n - 1) / Z.of_nat n.
Proof.
  intros Hn. pattern l. apply (chunks_ind n); [done| |clear l; intros l Hl IH].
  { rewrite chunks_nil. unfold len. simpl length. symmetry. apply Z.div_small. lia. }
  rewrite chunks_step, len_cons, IH by done. unfold len in *.
  rewrite length_drop. destruct (decide (length l ≤ n)%nat) as [Hle|Hgt].
  - replace (length l - n)%nat with O by lia.
    assert (0 < length l)%nat by (destruct l; [done|cbn; lia]).
    rewrite (Z.div_small (Z.of_nat 0 + _ - 1)) by lia.
    apply (Z.div_unique_pos _ _ _ (Z.of_nat (length l) - 1)); lia.
  - replace (Z.of_nat (length l) + Z.of_nat n - 1)
      with ((Z.of_nat (length l - n) + Z.of_nat n - 1) + 1 * Z.of_nat n) by lia.
    rewrite Z.div_add by lia. lia.
Qed.

Lemma chunks_not_nil n l : (0 < n)%nat → l ≠ [] → chunks n l ≠ [].
Proof. intros. by rewrite chunks_step. Qed.

End chunks.

(** A vector of optional slots with every slot filled flattens to its values. *)
Lemma omap_id_fmap_Some {A} (l : list A) : omap id (Some <$> l) = l.
Proof. induction l; simpl; f_equal; done. Qed.

(** ** Automation *)

Create HintDb nexus.
Create Rewrite HintDb nexus.
#[export] Hint Resolve len_nonneg str_len_nonneg of_byte_range : nexus.
#[export] Hint Rewrite @len_app @len_cons @len_nil len_as_bytes
  length_to_be_bytes @length_app : nexus.

(** Splits the first [if]/[match] of a hypothesis (or of the goal) until only
    the branches that agree with the known result are left. *)
Ltac crush_match := repeat (case_match; simplify_eq/=).

(** Turns boolean connectives in hypotheses into propositional ones. *)
Ltac bool_hyps :=
  repeat match goal with
  | H : (_ || _) = false |- _ => apply orb_false_iff in H as [? ?]
  | H : (_ && _) = true |- _ => apply andb_true_iff in H as [? ?]
  | H : negb _ = true |- _ => apply negb_true_iff in H
  | H : negb _ = false |- _ => apply negb_false_iff in H
  | H : bool_decide _ = true |- _ => apply bool_decide_eq_true in H
  | H : bool_decide _ = false |- _ => apply bool_decide_eq_false in H
  | H : str_eqb _ _ = true |- _ => apply bool_decide_eq_true in H
  | H : str_eqb _ _ = false |- _ => apply bool_decide_eq_false in H
  end.

(** Normalises lengths and closes the remaining linear arithmetic. *)
Ltac len_lia :=
  autorewrite with nexus in *; unfold len, str_len in *;
  autorewrite with nexus in *; simpl length in *; lia.

(** Case analysis along a chain of string comparisons in [H]. *)
Ltac str_cases H :=
  repeat match type of H with
  | (if str_eqb ?a ?b then _ else _) = _ =>
      let E := fresh "E" in
      destruct (str_eqb a b) eqn:E;
      [apply bool_decide_eq_true in E; try rewrite E|clear E]
  end.
