(* ===== verification/VideoPacket.v ===== *)
(** * The video packet header (crates/nexus-protocol/src/video_packet.rs)

    The 30-byte big-endian wire header of every video datagram, its encoder
    and its decoder of hostile input.  The main result identifies the decoder
    with the inverse of the encoder: [decode] accepts exactly the buffers that
    start with an encoding, and returns what was encoded. *)

From S2P Require Import Prelude.

(** ** Constants *)

Definition HEADER_LEN : Z := 30.
Definition NONCE_SEQUENCE_OFFSET : Z := 20.
Definition CURRENT_VERSION : Z := 2.
Definition MAX_PAYLOAD_LEN : Z := 1200.

(** [pub mod flags] *)
Definition KEYFRAME : Z := 1.
Definition FRAME_START : Z := 2.
Definition FRAME_END : Z := 4.
Definition FEC : Z := 8.
Definition CONFIG : Z := 16.

(** ** Data *)

Record VideoPacketHeader := mkVideoPacketHeader {
  hdr_version : Z;         (* u8 *)
  hdr_flags : Z;           (* u8 *)
  hdr_stream_id : Z;       (* u16 *)
  hdr_frame_id : Z;        (* u32 *)
  hdr_packet_id : Z;       (* u16 *)
  hdr_packet_count : Z;    (* u16 *)
  hdr_timestamp_us : Z;    (* u64 *)
  hdr_nonce_sequence : Z;  (* u64 *)
  hdr_payload_len : Z      (* u16 *)
}.

#[global] Instance VideoPacketHeader_eq_dec : EqDecision VideoPacketHeader.
Proof. solve_decision. Defined.

Inductive VideoPacketError :=
  | UnsupportedVersion (expected actual : Z)
  | HeaderTooShort (got : Z)
  | PayloadTooShort (declared got : Z)
  | PayloadTooLarge (max actual : Z).

#[global] Instance VideoPacketError_eq_dec : EqDecision VideoPacketError.
Proof. solve_decision. Defined.

(** The fields are within the widths of their Rust types. *)
Definition header_ok (h : VideoPacketHeader) : Prop :=
  uint 8 (hdr_version h) ∧ uint 8 (hdr_flags h) ∧ uint 16 (hdr_stream_id h) ∧
  uint 32 (hdr_frame_id h) ∧ uint 16 (hdr_packet_id h) ∧
  uint 16 (hdr_packet_count h) ∧ uint 64 (hdr_timestamp_us h) ∧
  uint 64 (hdr_nonce_sequence h) ∧ uint 16 (hdr_payload_len h).

#[global] Instance header_ok_dec h : Decision (header_ok h).
Proof. unfold header_ok. apply _. Defined.

(** ** Encoding *)

(** The bytes the encoder appends for the header. *)
Definition header_bytes (h : VideoPacketHeader) : bytes :=
  [to_byte (hdr_version h)] ++ [to_byte (hdr_flags h)] ++
  to_be_bytes 2 (hdr_stream_id h) ++ to_be_bytes 4 (hdr_frame_id h) ++
  to_be_bytes 2 (hdr_packet_id h) ++ to_be_bytes 2 (hdr_packet_count h) ++
  to_be_bytes 8 (hdr_timestamp_us h) ++ to_be_bytes 8 (hdr_nonce_sequence h) ++
  to_be_bytes 2 (hdr_payload_len h).

(** [VideoPacketHeader::encode].  [None] is the panic of the [debug_assert!]
    on an oversized payload, which release builds do not check. *)
Definition VideoPacketHeader_encode (bld : build) (h : VideoPacketHeader)
    (payload out : bytes) : option bytes :=
  match bld, len payload <=? MAX_PAYLOAD_LEN with
  | Debug, false => None
  | _, _ => Some (out ++ header_bytes h ++ payload)
  end.

(** ** Decoding *)

(** [uN::from_be_bytes([buf[i], ..., buf[i + n - 1]])] *)
Definition be_at (buf : bytes) (i n : nat) : Z := from_be_bytes (take n (drop i buf)).

(** [VideoPacketHeader::decode] *)
Definition VideoPacketHeader_decode (buf : bytes) :
    result VideoPacketError (VideoPacketHeader * bytes) :=
  if len buf <? HEADER_LEN then Err (HeaderTooShort (len buf)) else
  let version := be_at buf 0 1 in
  if negb (version =? CURRENT_VERSION)
  then Err (UnsupportedVersion CURRENT_VERSION version) else
  let flags := be_at buf 1 1 in
  let stream_id := be_at buf 2 2 in
  let frame_id := be_at buf 4 4 in
  let packet_id := be_at buf 8 2 in
  let packet_count := be_at buf 10 2 in
  let timestamp_us := be_at buf 12 8 in
  let nonce_sequence := be_at buf 20 8 in
  let payload_len := be_at buf 28 2 in
  if MAX_PAYLOAD_LEN <? payload_len
  then Err (PayloadTooLarge MAX_PAYLOAD_LEN payload_len) else
  let payload_start := HEADER_LEN in
  let payload_end := payload_start + payload_len in
  if len buf <? payload_end
  then Err (PayloadTooShort payload_len (len buf - payload_start)) else
  Ok (mkVideoPacketHeader version flags stream_id frame_id packet_id
        packet_count timestamp_us nonce_sequence payload_len,
      take (Z.to_nat payload_len) (drop (Z.to_nat payload_start) buf)).

(** ** Lemmas *)

Lemma length_header_bytes h : length (header_bytes h) = 30%nat.
Proof. done. Qed.
#[export] Hint Rewrite length_header_bytes : nexus.

Lemma header_bytes_inj h k :
  header_ok h → header_ok k → header_bytes h = header_bytes k → h = k.
Proof.
  intros Hh Hk E. unfold header_bytes in E.
  repeat (apply app_inj_length in E as [? E]; [|by rewrite ?length_to_be_bytes]).
  destruct h, k; unfold header_ok, uint in *; simpl in *.
  repeat match goal with
  | H : [to_byte ?a] = [to_byte ?b] |- _ =>
      injection H as H; apply to_byte_inj in H; [|lia..]
  | H : to_be_bytes _ ?a = to_be_bytes _ ?b |- _ =>
      apply to_be_bytes_inj in H; [|simpl; lia..]
  end.
  congruence.
Qed.

Lemma be_at_uint buf i n : uint (8 * Z.of_nat n) (be_at buf i n).
Proof.
  unfold uint, be_at. rewrite Z.pow_mul_r by lia. change (2 ^ 8) with 256.
  pose proof (from_be_bytes_bound (take n (drop i buf))) as [? Hlt].
  split; [done|]. eapply Z.lt_le_trans; [exact Hlt|].
  apply Z.pow_le_mono_r; [lia|]. rewrite length_take. lia.
Qed.

(** The fields the decoder reads off a buffer. *)
Definition header_at (buf : bytes) : VideoPacketHeader :=
  mkVideoPacketHeader (be_at buf 0 1) (be_at buf 1 1) (be_at buf 2 2)
    (be_at buf 4 4) (be_at buf 8 2) (be_at buf 10 2) (be_at buf 12 8)
    (be_at buf 20 8) (be_at buf 28 2).

(** A buffer of at least [HEADER_LEN] bytes is the encoding of the fields the
    decoder reads, followed by the rest. *)
Lemma decode_fields buf :
  HEADER_LEN ≤ len buf →
  header_ok (header_at buf) ∧ buf = header_bytes (header_at buf) ++ drop 30 buf.
Proof.
  intros Hlen. unfold HEADER_LEN, len in Hlen.
  do 30 (destruct buf as [|? buf]; [simpl in Hlen; lia|]).
  split.
  - split_and!; apply be_at_uint.
  - unfold header_at, header_bytes, be_at; cbn [hdr_version hdr_flags hdr_stream_id
      hdr_frame_id hdr_packet_id hdr_packet_count hdr_timestamp_us
      hdr_nonce_sequence hdr_payload_len take drop].
    by rewrite !to_be_bytes_from, !from_be_bytes_one, !to_of_byte by done.
Qed.

Lemma header_at_bytes h buf rest :
  header_ok h → buf = header_bytes h ++ rest → header_at buf = h.
Proof.
  intros Hok Hbuf. destruct (decode_fields buf) as [Hok' E].
  { subst. unfold HEADER_LEN. len_lia. }
  apply header_bytes_inj; [done..|].
  rewrite Hbuf in E at 1. by apply app_inj_length in E as [-> _].
Qed.

(** The specification the decoder implements: a buffer is an encoding of a
    version-2 header whose length field is the payload's and is at most
    [MAX_PAYLOAD_LEN], with arbitrary trailing bytes. *)
Definition encodes (h : VideoPacketHeader) (p buf : bytes) : Prop :=
  ∃ rest, buf = header_bytes h ++ p ++ rest ∧ header_ok h ∧
    hdr_version h = CURRENT_VERSION ∧ hdr_payload_len h = len p ∧
    len p ≤ MAX_PAYLOAD_LEN.

Lemma decode_encodes buf h p :
  VideoPacketHeader_decode buf = Ok (h, p) → encodes h p buf.
Proof.
  unfold VideoPacketHeader_decode. intros H.
  destruct (len buf <? HEADER_LEN) eqn:Hlen; [done|].
  destruct (decode_fields buf) as [Hok E]; [lia|].
  pose proof (be_at_uint buf 28 2) as [Hpos _].
  assert (len (drop 30 buf) = len buf - 30) as Hd
    by (unfold len, HEADER_LEN in *; rewrite length_drop; lia).
  change (Z.to_nat HEADER_LEN) with 30%nat in H.
  crush_match; bool_hyps. unfold HEADER_LEN in *.
  exists (drop (Z.to_nat (be_at buf 28 2)) (drop 30 buf)).
  rewrite take_drop. split_and!; [done|done|cbn; lia|cbn|];
    unfold len in *; rewrite length_take; lia.
Qed.

Lemma encodes_decode buf h p :
  encodes h p buf → VideoPacketHeader_decode buf = Ok (h, p).
Proof.
  intros (rest & Hbuf & Hok & Hv & Hl & Hmax).
  pose proof (header_at_bytes h buf _ Hok Hbuf) as <-.
  pose proof (f_equal len Hbuf) as Hlen.
  rewrite !len_app in Hlen. change (len (header_bytes _)) with 30 in Hlen.
  pose proof (len_nonneg p). pose proof (len_nonneg rest).
  assert (take (Z.to_nat (len p)) (drop 30 buf) = p) as Hp.
  { rewrite Hbuf. change (drop 30 (header_bytes (header_at buf) ++ p ++ rest))
      with (p ++ rest). unfold len. by rewrite Nat2Z.id, take_app_length. }
  unfold VideoPacketHeader_decode, HEADER_LEN, MAX_PAYLOAD_LEN in *.
  cbn in Hv, Hl. rewrite Hlen, Hv, Hl.
  rewrite (proj2 (Z.ltb_ge _ 30)), Z.eqb_refl by lia. cbn [negb].
  rewrite (proj2 (Z.ltb_ge 1200 _)), (proj2 (Z.ltb_ge _ _)) by lia.
  change (Z.to_nat 30) with 30%nat. rewrite Hp. unfold header_at.
  by rewrite Hv, Hl.
Qed.

(** ** Properties *)

(** Round trip of the wire format, as the exact specification of the
    decoder of hostile input: [VideoPacketHeader_decode] accepts a buffer with
    a header and a payload if and only if the buffer starts with the encoding
    of that header (fields in range, version 2) followed by that payload, whose
    length the header declares and is at most 1200 bytes.  In particular what
    the encoder writes is decoded to what was encoded, in either build. *)
Theorem video_packet_decode_spec bld buf h p :
  (VideoPacketHeader_decode buf = Ok (h, p) ↔ encodes h p buf) ∧
  (∀ out, VideoPacketHeader_encode bld h p out = Some buf →
     header_ok h ∧ hdr_version h = CURRENT_VERSION ∧
     hdr_payload_len h = len p ∧ len p ≤ MAX_PAYLOAD_LEN →
     VideoPacketHeader_decode (drop (length out) buf) = Ok (h, p)).
Proof.
  split; [split; [apply decode_encodes|apply encodes_decode]|].
  intros out He (Hok & Hv & Hl & Hmax). apply encodes_decode. exists [].
  unfold VideoPacketHeader_encode in He. crush_match;
    by rewrite drop_app_length, app_nil_r.
Qed.
