(* ===== verification/Crypto.v ===== *)
(** * Cryptographic framing (crates/nexus-crypto/src/lib.rs)

    The nonce allocator, the authenticated metadata of an encoded frame and the
    sealing of frames.  The primitives themselves (ChaCha20-Poly1305, Ed25519,
    X25519, HKDF) are third-party crates: they are operations of the type
    classes [Aead], [Ed25519] and [KeyAgreement], and what the code relies on is
    the class of laws next to each. *)

From S2P Require Import Prelude.

(** ** Third-party primitives *)

(** The [chacha20poly1305] crate: [encrypt] and [decrypt] of a payload with
    associated data.  [None] is the crate's opaque error. *)
Class Aead := {
  aead_encrypt : bytes → bytes → bytes → bytes → option bytes;
  aead_decrypt : bytes → bytes → bytes → bytes → option bytes
}.

(** Documented behaviour of the AEAD: decryption under the same key, nonce and
    associated data inverts encryption, encryption is deterministic and its tag
    check makes decryption accept nothing else. *)
Class AeadLaws `{Aead} := {
  aead_decrypt_encrypt k n ad p c :
    aead_encrypt k n ad p = Some c → aead_decrypt k n ad c = Some p;
  aead_encrypt_decrypt k n ad p c :
    aead_decrypt k n ad c = Some p → aead_encrypt k n ad p = Some c
}.

(** The [ed25519-dalek] crate, on the encoded forms of keys and signatures:
    [ed_verify] parses the public key ([None] when it is no point) and checks. *)
Class Ed25519 := {
  ed_public : bytes → bytes;
  ed_sign : bytes → bytes → bytes;
  ed_key_valid : bytes → bool;
  ed_verify : bytes → bytes → bytes → bool
}.

Class Ed25519Laws `{Ed25519} := {
  ed_sign_length sk m : length (ed_sign sk m) = 64%nat;
  ed_public_length sk : length (ed_public sk) = 32%nat;
  ed_public_valid sk : ed_key_valid (ed_public sk) = true;
  ed_verify_sign sk m : ed_verify (ed_public sk) m (ed_sign sk m) = true
}.

(** The [x25519-dalek] and [hkdf] crates. *)
Class KeyAgreement := {
  diffie_hellman : bytes → bytes → bytes;
  hkdf_sha256 : bytes → bytes → bytes → option bytes
}.

(** ** Errors *)

Inductive SignatureError :=
  | Sig_InvalidSigningKey | Sig_InvalidVerifyingKey | Sig_InvalidSignature | Sig_VerificationFailed.
Inductive KeyDerivationError := KeyDerivation_InvalidSharedSecret | KeyDerivation_ExpansionFailed.
Inductive AeadError := Aead_EncryptionFailed | Aead_AuthenticationFailed.
Inductive NonceSequenceError := Nonce_Exhausted.
Inductive FrameSealError :=
  | SealNonce (e : NonceSequenceError)
  | SealAead (e : AeadError).

(** ** Nonces *)

(** [nonce_from_sequence]: the 32-bit domain, then the 64-bit sequence. *)
Definition nonce_from_sequence (domain sequence : Z) : bytes :=
  to_be_bytes 4 domain ++ to_be_bytes 8 sequence.

Record NonceSequence := mkNonceSequence {
  ns_domain : Z;      (* u32 *)
  ns_next : Z;        (* u64 *)
  ns_exhausted : bool
}.

Definition NonceSequence_new (domain : Z) : NonceSequence :=
  mkNonceSequence domain 0 false.

(** [NonceSequence::next_nonce]; the state is returned on every path. *)
Definition next_nonce (s : NonceSequence) :
    result NonceSequenceError bytes * NonceSequence :=
  if ns_exhausted s then (Err Nonce_Exhausted, s) else
  let sequence := ns_next s in
  let s' := if sequence =? u64_max
            then mkNonceSequence (ns_domain s) (ns_next s) true
            else mkNonceSequence (ns_domain s) (ns_next s + 1) (ns_exhausted s) in
  (Ok (nonce_from_sequence (ns_domain s) sequence), s').

(** ** Frame metadata *)

Record EncodedFrameMetadata := mkEncodedFrameMetadata {
  md_protocol_version : Z;  (* u32 *)
  md_channel : Z;           (* u32 *)
  md_frame_id : Z;          (* u32 *)
  md_codec_config_id : Z;   (* u32 *)
  md_timestamp_us : Z;      (* u64 *)
  md_keyframe : bool
}.

Definition metadata_ok (m : EncodedFrameMetadata) : Prop :=
  uint 32 (md_protocol_version m) ∧ uint 32 (md_channel m) ∧
  uint 32 (md_frame_id m) ∧ uint 32 (md_codec_config_id m) ∧
  uint 64 (md_timestamp_us m).

(** [EncodedFrameMetadata::aad] *)
Definition EncodedFrameMetadata_aad (m : EncodedFrameMetadata) : bytes :=
  to_be_bytes 4 (md_protocol_version m) ++ to_be_bytes 4 (md_channel m) ++
  to_be_bytes 4 (md_frame_id m) ++ to_be_bytes 4 (md_codec_config_id m) ++
  to_be_bytes 8 (md_timestamp_us m) ++ [to_byte (if md_keyframe m then 1 else 0)].

Record EncryptedFrame := mkEncryptedFrame {
  ef_nonce : bytes;
  ef_ciphertext : bytes
}.

(** ** Sealing *)

Section aead.
Context `{Aead}.

Definition seal_session_payload (key nonce associated_data plaintext : bytes) :
    result AeadError bytes :=
  ok_or (aead_encrypt key nonce associated_data plaintext) Aead_EncryptionFailed.

Definition open_session_payload (key nonce associated_data ciphertext : bytes) :
    result AeadError bytes :=
  ok_or (aead_decrypt key nonce associated_data ciphertext) Aead_AuthenticationFailed.

(** [seal_encoded_frame]: the nonce is consumed before encryption, whether or
    not encryption succeeds. *)
Definition seal_encoded_frame (key : bytes) (sequence : NonceSequence)
    (metadata : EncodedFrameMetadata) (plaintext : bytes) :
    result FrameSealError EncryptedFrame * NonceSequence :=
  match next_nonce sequence with
  | (Err e, sequence') => (Err (SealNonce e), sequence')
  | (Ok nonce, sequence') =>
      let aad := EncodedFrameMetadata_aad metadata in
      (ciphertext ← map_err SealAead (seal_session_payload key nonce aad plaintext);
       Ok (mkEncryptedFrame nonce ciphertext),
       sequence')
  end.

Definition open_encoded_frame (key : bytes) (metadata : EncodedFrameMetadata)
    (encrypted : EncryptedFrame) : result AeadError bytes :=
  let aad := EncodedFrameMetadata_aad metadata in
  open_session_payload key (ef_nonce encrypted) aad (ef_ciphertext encrypted).

End aead.

(** ** Session keys and signatures *)

Section keys.
Context `{KeyAgreement}.

(** The HKDF salt b"nexus/session-key/v1". *)
Definition session_key_salt : bytes := as_bytes "nexus/session-key/v1".

Definition derive_session_key (local_secret peer_public transcript_context : bytes) :
    result KeyDerivationError bytes :=
  let shared := diffie_hellman local_secret peer_public in
  if forallb (λ b, of_byte b =? 0) shared then Err KeyDerivation_InvalidSharedSecret else
  ok_or (hkdf_sha256 session_key_salt shared transcript_context) KeyDerivation_ExpansionFailed.

End keys.

Section signatures.
Context `{Ed25519}.

Definition sign_ed25519 (secret_key payload : bytes) : bytes :=
  ed_sign secret_key payload.

Definition verify_ed25519 (public_key payload signature : bytes) :
    result SignatureError () :=
  if negb (ed_key_valid public_key) then Err Sig_InvalidVerifyingKey else
  if ed_verify public_key payload signature then Ok tt else Err Sig_VerificationFailed.

Record SignedPayload := mkSignedPayload {
  sp_payload : bytes;
  sp_signature : bytes
}.

Definition SignedPayload_sign (secret_key payload : bytes) : SignedPayload :=
  mkSignedPayload payload (sign_ed25519 secret_key payload).

Definition SignedPayload_verify (s : SignedPayload) (public_key : bytes) :
    result SignatureError bytes :=
  _ ← verify_ed25519 public_key (sp_payload s) (sp_signature s);
  Ok (sp_payload s).

(** [DeviceKeypair] is its 32-byte seed. *)
Record DeviceKeypair := DeviceKeypair_from_seed { dk_seed : bytes }.
Definition DeviceKeypair_public_key (k : DeviceKeypair) : bytes := ed_public (dk_seed k).
Definition DeviceKeypair_sign (k : DeviceKeypair) (payload : bytes) : bytes :=
  ed_sign (dk_seed k) payload.
Definition DeviceKeypair_verify (k : DeviceKeypair) (payload signature : bytes) :
    result SignatureError () :=
  verify_ed25519 (DeviceKeypair_public_key k) payload signature.

End signatures.

(** ** Lemmas *)

Lemma length_nonce_from_sequence d n : length (nonce_from_sequence d n) = 12%nat.
Proof. done. Qed.

Lemma length_aad m : length (EncodedFrameMetadata_aad m) = 25%nat.
Proof. done. Qed.

Lemma nonce_from_sequence_inj d d' n n' :
  uint 32 d → uint 32 d' → uint 64 n → uint 64 n' →
  nonce_from_sequence d n = nonce_from_sequence d' n' → d = d' ∧ n = n'.
Proof.
  unfold nonce_from_sequence, uint. intros ???? E.
  apply app_inj_length in E as [E1 E2]; [|by rewrite !length_to_be_bytes].
  apply to_be_bytes_inj in E1; [|cbn; lia..].
  by apply to_be_bytes_inj in E2; [|cbn; lia..].
Qed.

(** The sequence a nonce carries ([u64::from_be_bytes(nonce[4..])]). *)
Lemma nonce_sequence_suffix d n :
  uint 64 n → from_be_bytes (drop 4 (nonce_from_sequence d n)) = n.
Proof.
  unfold uint. intros. change (drop 4 (nonce_from_sequence d n)) with (to_be_bytes 8 n).
  apply from_to_be_bytes_small. cbn. lia.
Qed.

Lemma aad_inj m m' :
  metadata_ok m → metadata_ok m' →
  EncodedFrameMetadata_aad m = EncodedFrameMetadata_aad m' → m = m'.
Proof.
  intros Hm Hm' E. unfold EncodedFrameMetadata_aad in E.
  repeat (apply app_inj_length in E as [? E]; [|by rewrite !length_to_be_bytes]).
  destruct m as [????? k], m' as [????? k']; unfold metadata_ok, uint in *; cbn in *.
  repeat match goal with
  | H : to_be_bytes _ _ = to_be_bytes _ _ |- _ =>
      apply to_be_bytes_inj in H; [|cbn; lia..]
  end.
  injection E as E. apply to_byte_inj in E; [|destruct k, k'; lia..].
  assert (k = k') as -> by (by destruct k, k'). congruence.
Qed.

(** The state after [i] allocations. *)
Definition nonces_taken (i : nat) (s : NonceSequence) : NonceSequence :=
  Nat.iter i (λ s, (next_nonce s).2) s.

Lemma nonces_taken_new d i :
  nonces_taken i (NonceSequence_new d) =
    if Z.of_nat i <? 2 ^ 64 then mkNonceSequence d (Z.of_nat i) false
    else mkNonceSequence d u64_max true.
Proof.
  induction i as [|i IH]; [done|].
  change (nonces_taken (S i) (NonceSequence_new d))
    with ((next_nonce (nonces_taken i (NonceSequence_new d))).2).
  rewrite IH, Nat2Z.inj_succ. unfold next_nonce, u64_max.
  destruct (Z.ltb_spec (Z.of_nat i) (2 ^ 64)); cbn [ns_exhausted ns_next ns_domain snd].
  - destruct (Z.eqb_spec (Z.of_nat i) 18446744073709551615).
    + rewrite (proj2 (Z.ltb_ge _ _)) by lia. cbn [snd]. by f_equal.
    + rewrite (proj2 (Z.ltb_lt _ _)) by lia. cbn [snd]. f_equal; lia.
  - by rewrite (proj2 (Z.ltb_ge _ _)) by lia.
Qed.

Lemma next_nonce_after d i :
  (next_nonce (nonces_taken i (NonceSequence_new d))).1 =
    if Z.of_nat i <? 2 ^ 64 then Ok (nonce_from_sequence d (Z.of_nat i))
    else Err Nonce_Exhausted.
Proof.
  rewrite nonces_taken_new. by destruct (Z.of_nat i <? 2 ^ 64).
Qed.

(** ** A concrete instance

    A toy AEAD and a toy signature scheme that satisfy the laws, used to show
    that the hypotheses of the theorems can hold. *)

Definition toy_tag (k n ad : bytes) : bytes := k ++ n ++ ad.
#[local] Definition toy_open (k n ad c : bytes) : option bytes :=
  let t := toy_tag k n ad in
  if decide (take (length t) c = t) then Some (drop (length t) c) else None.
Definition toy_aead : Aead := {|
  aead_encrypt k n ad p := Some (toy_tag k n ad ++ p);
  aead_decrypt := toy_open
|}.

Lemma toy_aead_laws : @AeadLaws toy_aead.
Proof.
  split; cbn; unfold toy_open; intros k n ad p c E.
  - injection E as <-. rewrite take_app_length, drop_app_length.
    by rewrite decide_True.
  - case_decide as Ht; [|done]. injection E as <-. f_equal.
    rewrite <-Ht at 1. by rewrite take_drop.
Qed.

Definition toy_ed25519 : Ed25519 := {|
  ed_public sk := replicate 32 (default x00 (head sk));
  ed_sign sk m := replicate 64 (default x00 (head sk));
  ed_key_valid _ := true;
  ed_verify pk m s := bool_decide (s = replicate 64 (default x00 (head pk)))
|}.

Lemma toy_ed25519_laws : @Ed25519Laws toy_ed25519.
Proof. split; intros; cbn; by rewrite ?length_replicate, ?bool_decide_eq_true. Qed.

(** ** Properties *)

(** C7. No AEAD nonce is ever reused: the [i]-th allocation of a fresh
    [NonceSequence] succeeds exactly for [i < 2^64] (then the allocator reports
    exhaustion for ever), and two successful allocations, of the same or of
    different allocators, return the same nonce only if the domain and the
    index are the same. *)
Theorem nonce_never_reused d d' i j :
  uint 32 d → uint 32 d' →
  (is_ok (next_nonce (nonces_taken i (NonceSequence_new d))).1 = true ↔
     Z.of_nat i < 2 ^ 64) ∧
  (∀ n, (next_nonce (nonces_taken i (NonceSequence_new d))).1 = Ok n →
        (next_nonce (nonces_taken j (NonceSequence_new d'))).1 = Ok n →
        d = d' ∧ i = j).
Proof.
  intros Hd Hd'. rewrite !next_nonce_after.
  destruct (Z.ltb_spec (Z.of_nat i) (2 ^ 64)); [|split; [split; [done|lia]|done]].
  split; [done|]. intros n <-%(inj Ok).
  destruct (Z.ltb_spec (Z.of_nat j) (2 ^ 64)); [|done].
  intros E%(inj Ok). symmetry in E.
  apply nonce_from_sequence_inj in E; unfold uint in *; lia.
Qed.

Lemma nonce_never_reused_witness :
  uint 32 1 ∧ uint 32 2 ∧ (∀ n,
    (next_nonce (nonces_taken 3 (NonceSequence_new 1))).1 = Ok n →
    (next_nonce (nonces_taken 3 (NonceSequence_new 2))).1 = Ok n → 1 = 2).
Proof.
  split; [by vm_compute|]. split; [by vm_compute|]. intros n H1 H2.
  by apply (nonce_never_reused 1 2 3 3 ltac:(by vm_compute) ltac:(by vm_compute))
    in H2 as [? _].
Defined.

(** Sealing and opening: a frame sealed under a key with some metadata opens
    to the plaintext under the same key and metadata, the nonce used is the
    allocator's next one, and the associated data that is authenticated
    determines every metadata field. *)
Theorem seal_open_roundtrip `{AeadLaws} key s metadata plaintext f s' :
  seal_encoded_frame key s metadata plaintext = (Ok f, s') →
  open_encoded_frame key metadata f = Ok plaintext ∧
  ef_nonce f = nonce_from_sequence (ns_domain s) (ns_next s) ∧
  (∀ metadata', metadata_ok metadata → metadata_ok metadata' →
     EncodedFrameMetadata_aad metadata' = EncodedFrameMetadata_aad metadata →
     metadata' = metadata).
Proof.
  unfold seal_encoded_frame, next_nonce, open_encoded_frame,
    open_session_payload, seal_session_payload.
  destruct (ns_exhausted s); cbn [fst snd]; [done|]. intros E.
  destruct (aead_encrypt _ _ _ _) as [c|] eqn:Hc; [|done]. simplify_eq/=.
  apply aead_decrypt_encrypt in Hc. rewrite Hc.
  split_and!; [done|done|]. intros. by apply aad_inj.
Qed.

Lemma seal_open_roundtrip_witness :
  ∃ f s', @seal_encoded_frame toy_aead [x01] (NonceSequence_new 1)
            (mkEncodedFrameMetadata 2 1 7 1 42 true) [x05; x06] = (Ok f, s') ∧
          @open_encoded_frame toy_aead [x01]
            (mkEncodedFrameMetadata 2 1 7 1 42 true) f = Ok [x05; x06].
Proof.
  eexists _, _. split; [reflexivity|].
  refine (proj1 (@seal_open_roundtrip toy_aead toy_aead_laws [x01]
    (NonceSequence_new 1) (mkEncodedFrameMetadata 2 1 7 1 42 true) [x05; x06] _ _ _)).
  reflexivity.
Defined.
