(* ===== verification/VideoTransport.v ===== *)
(** * Video over datagrams (crates/nexus-transport/src/video.rs)

    Sealing of frames under their header, the bounded datagram codec, the
    packetizer that cuts a sealed frame into fragments, and the bounded
    reassembler of hostile fragments. *)

From S2P Require Import Prelude VideoPacket Crypto.

Definition MAX_VIDEO_DATAGRAM_SIZE : Z := 64 * 1024.
Definition DEFAULT_MAX_PACKET_PAYLOAD : Z := MAX_PAYLOAD_LEN.
Definition MAX_FRAME_PAYLOAD_SIZE : Z := 16 * 1024 * 1024.
Definition MAX_PACKETS_PER_FRAME : Z := 16384.
Definition MAX_IN_FLIGHT_FRAMES : Z := 8.

(** ** Sealing under a packet header *)

(** The metadata [seal_video_frame] and [open_video_frame] build. *)
Definition frame_metadata (h : VideoPacketHeader) (codec_config_id : Z) :
    EncodedFrameMetadata :=
  mkEncodedFrameMetadata (hdr_version h) (hdr_stream_id h) (hdr_frame_id h)
    codec_config_id (hdr_timestamp_us h)
    (negb (Z.land (hdr_flags h) KEYFRAME =? 0)).

Section seal.
Context `{Aead}.

Definition seal_video_frame (key : bytes) (sequence : NonceSequence)
    (header : VideoPacketHeader) (codec_config_id : Z) (encoded_frame : bytes) :
    result FrameSealError EncryptedFrame * NonceSequence :=
  seal_encoded_frame key sequence (frame_metadata header codec_config_id) encoded_frame.

Definition open_video_frame (key : bytes) (header : VideoPacketHeader)
    (codec_config_id : Z) (encrypted : EncryptedFrame) : result AeadError bytes :=
  open_encoded_frame key (frame_metadata header codec_config_id) encrypted.

End seal.

(** ** Datagrams *)

Inductive VideoDatagramError :=
  | Datagram_TooLarge (actual limit : Z)
  | Datagram_Packet (e : VideoPacketError)
  | Datagram_PayloadLengthMismatch.

(** [None] is the panic of the debug assertion inside [encode]. *)
Definition encode_video_datagram (bld : build) (header : VideoPacketHeader)
    (payload : bytes) : option (result VideoDatagramError bytes) :=
  if MAX_PAYLOAD_LEN <? len payload
  then Some (Err (Datagram_TooLarge (len payload) MAX_PAYLOAD_LEN)) else
  if negb (hdr_payload_len header =? len payload)
  then Some (Err Datagram_PayloadLengthMismatch) else
  let total := HEADER_LEN + len payload in
  if MAX_VIDEO_DATAGRAM_SIZE <? total
  then Some (Err (Datagram_TooLarge total MAX_VIDEO_DATAGRAM_SIZE)) else
  Ok <$> VideoPacketHeader_encode bld header payload [].

Definition decode_video_datagram (buf : bytes) :
    result VideoDatagramError (VideoPacketHeader * bytes) :=
  if MAX_VIDEO_DATAGRAM_SIZE <? len buf
  then Err (Datagram_TooLarge (len buf) MAX_VIDEO_DATAGRAM_SIZE) else
  map_err Datagram_Packet (VideoPacketHeader_decode buf).

(** ** Packetizing *)

Inductive PacketizeError :=
  | Packetize_FrameTooLarge (actual limit : Z)
  | Packetize_InvalidChunkSize (max : Z)
  | Packetize_TooManyPackets (count max : Z).

(** The header of fragment [i] of [packet_count] (the loop body). *)
Definition fragment_header (base : VideoPacketHeader) (packet_count : Z) (i : nat)
    (chunk : bytes) : VideoPacketHeader :=
  let flags := hdr_flags base in
  let flags := if (i =? 0)%nat then Z.lor flags FRAME_START else flags in
  let flags := if Z.of_nat i =? packet_count - 1 then Z.lor flags FRAME_END else flags in
  mkVideoPacketHeader (hdr_version base) flags (hdr_stream_id base)
    (hdr_frame_id base) (wrap 16 (Z.of_nat i)) (wrap 16 packet_count)
    (hdr_timestamp_us base) (hdr_nonce_sequence base) (wrap 16 (len chunk)).

Definition packetize_video_frame (base_header : VideoPacketHeader)
    (payload : bytes) (chunk_size : Z) :
    result PacketizeError (list (VideoPacketHeader * bytes)) :=
  if (chunk_size =? 0) || (MAX_PAYLOAD_LEN <? chunk_size)
  then Err (Packetize_InvalidChunkSize MAX_PAYLOAD_LEN) else
  if MAX_FRAME_PAYLOAD_SIZE <? len payload
  then Err (Packetize_FrameTooLarge (len payload) MAX_FRAME_PAYLOAD_SIZE) else
  match payload with
  | [] =>
      Ok [(mkVideoPacketHeader (hdr_version base_header)
             (Z.lor (hdr_flags base_header) (Z.lor FRAME_START FRAME_END))
             (hdr_stream_id base_header) (hdr_frame_id base_header) 0 1
             (hdr_timestamp_us base_header) (hdr_nonce_sequence base_header) 0, [])]
  | _ =>
      let cs := chunks (Z.to_nat chunk_size) payload in
      let packet_count := len cs in
      if (65535 <? packet_count) || (MAX_PACKETS_PER_FRAME <? packet_count)
      then Err (Packetize_TooManyPackets packet_count MAX_PACKETS_PER_FRAME) else
      Ok (imap (λ i chunk, (fragment_header base_header packet_count i chunk, chunk)) cs)
  end.

(** ** Reassembly *)

Record AssembledFrame := mkAssembledFrame {
  af_header : VideoPacketHeader;
  af_payload : bytes;
  af_assembled_len : Z
}.

Inductive ReassemblyError :=
  | Reassembly_InvalidPacketId (packet_id packet_count : Z)
  | Reassembly_TooManyPackets (count max : Z)
  | Reassembly_PayloadLengthMismatch (declared actual : Z)
  | Reassembly_InvalidBoundaryFlags
  | Reassembly_InconsistentFragmentMetadata.

Record InFlightFrame := mkInFlightFrame {
  if_base_header : VideoPacketHeader;
  if_packets : list (option bytes);
  if_received_count : Z;
  if_total_bytes : Z
}.

(** [frames] is a [BTreeMap<u32, InFlightFrame>]. *)
Record VideoFrameReassembler := mkVideoFrameReassembler {
  ra_frames : gmap Z InFlightFrame;
  ra_max_in_flight : Z;
  ra_max_frame_bytes : Z;
  ra_last_authenticated_frame_id : option Z
}.

Definition VideoFrameReassembler_new (max_in_flight max_frame_bytes : Z) :
    VideoFrameReassembler :=
  mkVideoFrameReassembler ∅ (Z.max max_in_flight 1) max_frame_bytes None.

Definition VideoFrameReassembler_default : VideoFrameReassembler :=
  VideoFrameReassembler_new MAX_IN_FLIGHT_FRAMES MAX_FRAME_PAYLOAD_SIZE.

Definition with_frames (r : VideoFrameReassembler) (frames : gmap Z InFlightFrame) :
    VideoFrameReassembler :=
  mkVideoFrameReassembler frames (ra_max_in_flight r) (ra_max_frame_bytes r)
    (ra_last_authenticated_frame_id r).

(** [self.frames.keys().next().copied()]: the least key of the ordered map. *)
Definition first_key {A} (m : gmap Z A) : option Z :=
  match (map_to_list m).*1 with
  | [] => None
  | k :: ks => Some (foldr Z.min k ks)
  end.

(** The capacity step: a full table evicts its oldest frame for a new one. *)
Definition evict_for (r : VideoFrameReassembler) (frame_id : Z) : gmap Z InFlightFrame :=
  if (ra_max_in_flight r <=? Z.of_nat (size (ra_frames r))) &&
     bool_decide (ra_frames r !! frame_id = None)
  then match first_key (ra_frames r) with
       | Some oldest_key => delete oldest_key (ra_frames r)
       | None => ra_frames r
       end
  else ra_frames r.

Definition fresh_in_flight (header : VideoPacketHeader) : InFlightFrame :=
  mkInFlightFrame header
    (replicate (Z.to_nat (hdr_packet_count header)) None) 0 0.

(** The consistency test against the first fragment of the frame. *)
Definition inconsistent (f : InFlightFrame) (header : VideoPacketHeader) : bool :=
  negb (len (if_packets f) =? hdr_packet_count header)
  || negb (hdr_stream_id (if_base_header f) =? hdr_stream_id header)
  || negb (hdr_version (if_base_header f) =? hdr_version header)
  || negb (hdr_timestamp_us (if_base_header f) =? hdr_timestamp_us header)
  || negb (hdr_nonce_sequence (if_base_header f) =? hdr_nonce_sequence header)
  || negb (Z.land (hdr_flags (if_base_header f)) KEYFRAME
           =? Z.land (hdr_flags header) KEYFRAME).

(** The completed frame built from its fragments. *)
Definition assemble (f : InFlightFrame) : AssembledFrame :=
  let full_payload := concat (omap id (if_packets f)) in
  let b := if_base_header f in
  let final_header := mkVideoPacketHeader (hdr_version b)
    (Z.lor (hdr_flags b) (Z.lor FRAME_START FRAME_END)) (hdr_stream_id b)
    (hdr_frame_id b) (hdr_packet_id b) (hdr_packet_count b) (hdr_timestamp_us b)
    (hdr_nonce_sequence b) (hdr_payload_len b) in
  mkAssembledFrame final_header full_payload (len full_payload).

(** The end of [process_packet]: deliver the frame when every slot is filled. *)
Definition deliver_if_complete (r : VideoFrameReassembler)
    (frames : gmap Z InFlightFrame) (frame_id : Z) (f : InFlightFrame) :
    result ReassemblyError (option AssembledFrame) * VideoFrameReassembler :=
  if if_received_count f =? len (if_packets f)
  then (Ok (Some (assemble f)), with_frames r (delete frame_id frames))
  else (Ok None, with_frames r (<[frame_id := f]> frames)).

(** The multi-packet part of [process_packet], after the checks. *)
Definition process_fragment (r : VideoFrameReassembler) (header : VideoPacketHeader)
    (payload : bytes) :
    result ReassemblyError (option AssembledFrame) * VideoFrameReassembler :=
  let frame_id := hdr_frame_id header in
  let frames := evict_for r frame_id in
  let in_flight := default (fresh_in_flight header) (frames !! frame_id) in
  let frames := <[frame_id := in_flight]> frames in
  if inconsistent in_flight header
  then (Err Reassembly_InconsistentFragmentMetadata, with_frames r frames) else
  let idx := Z.to_nat (hdr_packet_id header) in
  match if_packets in_flight !! idx with
  | Some None =>
      let total_bytes := if_total_bytes in_flight + len payload in
      if ra_max_frame_bytes r <? total_bytes
      then (Ok None, with_frames r (delete frame_id frames))
      else deliver_if_complete r frames frame_id
             (mkInFlightFrame (if_base_header in_flight)
                (<[idx := Some payload]> (if_packets in_flight))
                (if_received_count in_flight + 1) total_bytes)
  | _ => deliver_if_complete r frames frame_id in_flight
  end.

(** [VideoFrameReassembler::process_packet] *)
Definition process_packet (r : VideoFrameReassembler) (header : VideoPacketHeader)
    (payload : bytes) :
    result ReassemblyError (option AssembledFrame) * VideoFrameReassembler :=
  if (hdr_packet_count header =? 0) || (MAX_PACKETS_PER_FRAME <? hdr_packet_count header)
  then (Err (Reassembly_TooManyPackets (hdr_packet_count header) MAX_PACKETS_PER_FRAME), r)
  else if hdr_packet_count header <=? hdr_packet_id header
  then (Err (Reassembly_InvalidPacketId (hdr_packet_id header) (hdr_packet_count header)), r)
  else if negb (hdr_payload_len header =? len payload)
  then (Err (Reassembly_PayloadLengthMismatch (hdr_payload_len header) (len payload)), r)
  else if (hdr_packet_id header =? 0) && (Z.land (hdr_flags header) FRAME_START =? 0)
  then (Err Reassembly_InvalidBoundaryFlags, r)
  else if (hdr_packet_id header =? hdr_packet_count header - 1)
       && (Z.land (hdr_flags header) FRAME_END =? 0)
  then (Err Reassembly_InvalidBoundaryFlags, r)
  else if is_some_and (ra_last_authenticated_frame_id r)
            (λ last_id, hdr_frame_id header <=? last_id)
  then (Ok None, r)
  else if hdr_packet_count header =? 1
  then if ra_max_frame_bytes r <? len payload then (Ok None, r)
       else (Ok (Some (mkAssembledFrame header payload (len payload))), r)
  else process_fragment r header payload.

(** [prune_stale_before] *)
Definition prune_stale_before (r : VideoFrameReassembler) (frame_id : Z) :
    VideoFrameReassembler :=
  with_frames r (filter (λ kf, ¬ (kf.1 < frame_id)) (ra_frames r)).

(** [commit_authenticated_frame] *)
Definition commit_authenticated_frame (r : VideoFrameReassembler) (frame_id : Z) :
    bool * VideoFrameReassembler :=
  if is_some_and (ra_last_authenticated_frame_id r) (λ last_id, frame_id <=? last_id)
  then (false, r)
  else (true, prune_stale_before
                (mkVideoFrameReassembler (ra_frames r) (ra_max_in_flight r)
                   (ra_max_frame_bytes r) (Some frame_id)) frame_id).

(** ** Slots

    The filled slots of a fragment vector. *)

Abbreviation filled := (omap id : list (option bytes) → list bytes).

Lemma filled_insert (l : list (option bytes)) i c :
  l !! i = Some None →
  len (filled (<[i := Some c]> l)) = len (filled l) + 1 ∧
  len (concat (filled (<[i := Some c]> l))) = len (concat (filled l)) + len c.
Proof.
  intros Hi. pose proof (lookup_lt_Some _ _ _ Hi).
  assert (∀ o l1 l2, filled (l1 ++ o :: l2) =
    filled l1 ++ match o with Some x => [x] | None => [] end ++ filled l2) as Happ.
  { intros o l1 l2. rewrite omap_app. by destruct o. }
  rewrite insert_take_drop by done.
  assert (filled l = filled (take i l ++ None :: drop (S i) l)) as ->
    by (by rewrite take_drop_middle).
  rewrite !Happ, !concat_app. unfold len. rewrite !length_app. cbn.
  rewrite ?app_nil_r. lia.
Qed.

Lemma length_filled_le (l : list (option bytes)) : (length (filled l) ≤ length l)%nat.
Proof. induction l as [|[?|] l IH]; cbn; lia. Qed.

Lemma filled_full (l : list (option bytes)) :
  length (filled l) = length l → Forall is_Some l.
Proof.
  induction l as [|[?|] l IH]; cbn; [constructor|..]; intros E.
  - constructor; [eauto|]. apply IH. lia.
  - pose proof (length_filled_le l). lia.
Qed.

(** A vector that agrees with [cs] on its filled slots. *)
Lemma filled_sub (l : list (option bytes)) cs :
  Forall2 (λ o c, o = None ∨ o = Some c) l cs →
  len (concat (filled l)) ≤ len (concat cs).
Proof.
  unfold len. induction 1 as [|o c l cs [->| ->] _ IH]; cbn; rewrite ?length_app; lia.
Qed.

(** ** The ordered map of frames *)

Lemma first_key_Some {A} (m : gmap Z A) k :
  first_key m = Some k → is_Some (m !! k) ∧ ∀ k', is_Some (m !! k') → k ≤ k'.
Proof.
  unfold first_key. intros Hk.
  assert (∀ k, k ∈ (map_to_list m).*1 ↔ is_Some (m !! k)) as Hdom.
  { intros k'. rewrite list_elem_of_fmap. split.
    - intros ([? x] & -> & Hx). apply elem_of_map_to_list in Hx. eauto.
    - intros [x Hx]. exists (k', x). by rewrite elem_of_map_to_list. }
  destruct ((map_to_list m).*1) as [|a ks] eqn:E; simplify_eq.
  assert (foldr Z.min a ks ∈ a :: ks ∧ ∀ k', k' ∈ a :: ks → foldr Z.min a ks ≤ k')
    as [Hin Hmin].
  { clear. induction ks as [|b ks [IH1 IH2]]; cbn; [set_solver by lia|]. split.
    - destruct (Z.min_spec b (foldr Z.min a ks)) as [[_ ->]|[_ ->]]; set_solver.
    - intros k' Hk'. pose proof (IH2 a ltac:(set_solver)).
      rewrite !elem_of_cons in Hk'. destruct Hk' as [->|[->|Hk']]; [lia..|].
      pose proof (IH2 k' ltac:(set_solver)). lia. }
  split; [by apply Hdom|]. intros k' Hk'. apply Hmin. by apply Hdom.
Qed.

Lemma first_key_None {A} (m : gmap Z A) : first_key m = None → m = ∅.
Proof.
  unfold first_key. destruct ((map_to_list m).*1) as [|] eqn:E; [|done].
  intros _. apply map_to_list_empty_iff. by destruct (map_to_list m).
Qed.

Lemma evict_for_subseteq r id : evict_for r id ⊆ ra_frames r.
Proof.
  unfold evict_for. repeat case_match; try done. apply delete_subseteq.
Qed.

(** Room for one more: after the capacity step, adding frame [id] keeps the
    number of frames within the limit. *)
Lemma evict_for_room r id f :
  1 ≤ ra_max_in_flight r → Z.of_nat (size (ra_frames r)) ≤ ra_max_in_flight r →
  Z.of_nat (size (<[id := f]> (evict_for r id))) ≤ ra_max_in_flight r.
Proof.
  intros H1 Hsz. unfold evict_for.
  destruct (ra_frames r !! id) eqn:Hid.
  - rewrite andb_false_r. by erewrite map_size_insert_Some.
  - destruct (Z.leb_spec (ra_max_in_flight r) (Z.of_nat (size (ra_frames r))));
      cbn [andb bool_decide].
    + rewrite bool_decide_true by done.
      destruct (first_key (ra_frames r)) as [k|] eqn:Hk.
      * apply first_key_Some in Hk as [Hk _].
        rewrite map_size_insert_None
          by (apply lookup_delete_None; eauto).
        rewrite map_size_delete_Some by done. lia.
      * apply first_key_None in Hk. rewrite Hk, map_size_empty in *. lia.
    + rewrite map_size_insert_None by done. lia.
Qed.

(** ** The reassembler's invariant *)

(** A frame under assembly: the counters describe the slots, the frame is not
    complete and within the byte limit, and it is filed under its own id. *)
Record in_flight_ok (r : VideoFrameReassembler) (id : Z) (f : InFlightFrame) : Prop := {
  if_ok_received : if_received_count f = len (filled (if_packets f));
  if_ok_total : if_total_bytes f = len (concat (filled (if_packets f)));
  if_ok_incomplete : if_received_count f < len (if_packets f);
  if_ok_limit : if_total_bytes f ≤ ra_max_frame_bytes r;
  if_ok_slots : len (if_packets f) ≤ MAX_PACKETS_PER_FRAME;
  if_ok_id : hdr_frame_id (if_base_header f) = id
}.

Record reassembler_ok (r : VideoFrameReassembler) : Prop := {
  ra_ok_positive : 1 ≤ ra_max_in_flight r;
  ra_ok_limit : 0 ≤ ra_max_frame_bytes r;
  ra_ok_capacity : Z.of_nat (size (ra_frames r)) ≤ ra_max_in_flight r;
  ra_ok_frames : map_Forall (in_flight_ok r) (ra_frames r);
  ra_ok_fresh : ∀ last id, ra_last_authenticated_frame_id r = Some last →
    is_Some (ra_frames r !! id) → last ≤ id
}.

(** Dropping frames preserves the invariant. *)
Lemma with_frames_sub r F :
  reassembler_ok r → F ⊆ ra_frames r → reassembler_ok (with_frames r F).
Proof.
  intros [? ? Hsz Hfr Hlast] Hsub. split; cbn; [done|done|..].
  - pose proof (map_subseteq_size _ _ Hsub). lia.
  - intros k f Hk. destruct (Hfr k f) as []; [by eapply lookup_weaken|]. by split.
  - intros last k Hl [f Hf]. eapply Hlast; [done|]. exists f.
    by eapply lookup_weaken.
Qed.

(** Filing a well-formed frame preserves the invariant. *)
Lemma with_frames_insert r id f :
  reassembler_ok r → in_flight_ok r id f →
  (∀ last, ra_last_authenticated_frame_id r = Some last → last ≤ id) →
  reassembler_ok (with_frames r (<[id := f]> (evict_for r id))).
Proof.
  intros Hr Hf Hl. pose proof (evict_for_subseteq r id) as Hsub.
  destruct Hr as [Hpos ? Hsz Hfr Hlast]. split; cbn; [done|done|..].
  - by apply evict_for_room.
  - apply map_Forall_insert_2; [by destruct Hf; split|].
    intros k g Hk. destruct (Hfr k g); [by eapply lookup_weaken|]. by split.
  - intros last k Hlk Hk. destruct (decide (k = id)) as [->|Hne]; [by apply Hl|].
    rewrite lookup_insert_ne in Hk by done. destruct Hk as [g Hg].
    eapply Hlast; [done|]. exists g. by eapply lookup_weaken.
Qed.

Lemma fresh_in_flight_ok r h :
  0 ≤ ra_max_frame_bytes r → 2 ≤ hdr_packet_count h ≤ MAX_PACKETS_PER_FRAME →
  in_flight_ok r (hdr_frame_id h) (fresh_in_flight h).
Proof.
  intros Hmax Hc.
  assert (∀ n, filled (replicate n None) = []) as Hnil by (by induction n).
  split; cbn; rewrite ?Hnil; cbn; unfold len; rewrite ?length_replicate;
    cbn [length] in *; lia || done.
Qed.

(** A fragment that fills an empty slot within the byte limit. *)
Lemma fill_slot_ok r id f i p :
  in_flight_ok r id f → if_packets f !! i = Some None →
  if_total_bytes f + len p ≤ ra_max_frame_bytes r →
  let f' := mkInFlightFrame (if_base_header f) (<[i := Some p]> (if_packets f))
              (if_received_count f + 1) (if_total_bytes f + len p) in
  if_received_count f' = len (filled (if_packets f')) ∧
  if_total_bytes f' = len (concat (filled (if_packets f'))) ∧
  (if_received_count f' ≠ len (if_packets f') → in_flight_ok r id f').
Proof.
  intros [Hr Ht Hi Hl Hs Hid] Hslot Hmax f'. cbn.
  destruct (filled_insert _ i p Hslot) as [E1 E2].
  rewrite E1, E2, <-Hr, <-Ht. split_and!; [done..|]. intros Hne.
  unfold len in *. split; cbn; unfold len; rewrite ?length_insert in *; lia || done.
Qed.

Lemma delete_insert_sub r id f : delete id (<[id := f]> (evict_for r id)) ⊆ ra_frames r.
Proof.
  rewrite delete_insert_eq. etrans; [apply delete_subseteq|apply evict_for_subseteq].
Qed.

Lemma process_fragment_ok r h p :
  reassembler_ok r → 2 ≤ hdr_packet_count h ≤ MAX_PACKETS_PER_FRAME →
  (∀ last, ra_last_authenticated_frame_id r = Some last → last ≤ hdr_frame_id h) →
  reassembler_ok (process_fragment r h p).2.
Proof.
  intros Hr Hc Hl. unfold process_fragment.
  set (F := evict_for r (hdr_frame_id h)).
  set (f := default (fresh_in_flight h) (F !! hdr_frame_id h)).
  assert (in_flight_ok r (hdr_frame_id h) f) as Hf.
  { unfold f. destruct (F !! hdr_frame_id h) as [g|] eqn:Hg; cbn.
    - eapply ra_ok_frames; [done|]. eapply lookup_weaken; [exact Hg|].
      apply evict_for_subseteq.
    - apply fresh_in_flight_ok; [by apply ra_ok_limit|done]. }
  assert (∀ g, (if_received_count g ≠ len (if_packets g) →
      in_flight_ok r (hdr_frame_id h) g) →
    reassembler_ok (deliver_if_complete r (<[hdr_frame_id h := f]> F)
      (hdr_frame_id h) g).2) as Hdel.
  { intros g Hg. unfold deliver_if_complete. case_match eqn:E; cbn.
    - apply with_frames_sub; [done|]. apply delete_insert_sub.
    - rewrite insert_insert_eq. apply with_frames_insert; [done| |done].
      apply Hg. lia. }
  case_match; [by apply with_frames_insert|].
  destruct (if_packets f !! _) as [[q|]|] eqn:Hslot; [by apply Hdel| |by apply Hdel].
  case_match eqn:E; cbn.
  - apply with_frames_sub; [done|]. apply delete_insert_sub.
  - apply Hdel. eapply fill_slot_ok; [done|done|lia].
Qed.

(** The reassembler's invariant holds at the start and is preserved by every
    operation on every input. *)
Lemma reassembler_new_ok n m : 0 ≤ m → reassembler_ok (VideoFrameReassembler_new n m).
Proof.
  intros. split; cbn; [lia|done|..].
  - rewrite map_size_empty. lia.
  - apply map_Forall_empty.
  - done.
Qed.

Lemma process_packet_ok r h p :
  reassembler_ok r → header_ok h → reassembler_ok (process_packet r h p).2.
Proof.
  intros Hr Hh. unfold process_packet.
  repeat match goal with |- context [if ?b then _ else _] =>
    destruct b eqn:?; [done|] end.
  destruct (hdr_packet_count h =? 1) eqn:E1; [by case_match|].
  destruct Hh as (_&_&_&_&_&[]&_). apply process_fragment_ok; [done|bool_hyps; lia|].
  intros last Hlast. rewrite Hlast in *. cbn in *. lia.
Qed.

Lemma commit_ok r id : reassembler_ok r → reassembler_ok (commit_authenticated_frame r id).2.
Proof.
  intros Hr. unfold commit_authenticated_frame. case_match; [done|].
  destruct (with_frames_sub r (filter (λ kf, ¬ (kf.1 < id)) (ra_frames r)) Hr)
    as [? ? Hsz Hfr _]; [apply map_filter_subseteq|].
  split; cbn in *; [done..| |].
  - intros k f Hk. destruct (Hfr k f Hk). by split.
  - intros last k [= <-] [f Hf]. apply map_lookup_filter_Some in Hf. cbn in Hf. lia.
Qed.
