(* ===== verification/VideoRoundtrip.v ===== *)
(** * Packetizing and reassembling a frame

    The fragments [packetize_video_frame] produces, described by [fragments],
    are put together again by the reassembler whatever the order in which they
    arrive and however often each is repeated. *)

From S2P Require Import Prelude VideoPacket Crypto VideoTransport.

(** ** What the packetizer produces *)

Record fragments (base : VideoPacketHeader) (payload : bytes)
    (packets : list (VideoPacketHeader * bytes)) : Prop := {
  fr_some : 1 ≤ len packets ≤ MAX_PACKETS_PER_FRAME;
  fr_concat : concat packets.*2 = payload;
  fr_each : ∀ i h c, packets !! i = Some (h, c) →
    hdr_packet_id h = Z.of_nat i ∧ hdr_packet_count h = len packets ∧
    hdr_payload_len h = len c ∧ len c ≤ MAX_PAYLOAD_LEN ∧
    hdr_version h = hdr_version base ∧ hdr_stream_id h = hdr_stream_id base ∧
    hdr_frame_id h = hdr_frame_id base ∧
    hdr_timestamp_us h = hdr_timestamp_us base ∧
    hdr_nonce_sequence h = hdr_nonce_sequence base;
  fr_flags : ∀ i h c, packets !! i = Some (h, c) →
    uint 8 (hdr_flags h) ∧
    Z.lor (hdr_flags h) (Z.lor FRAME_START FRAME_END) =
      Z.lor (hdr_flags base) (Z.lor FRAME_START FRAME_END) ∧
    Z.land (hdr_flags h) KEYFRAME = Z.land (hdr_flags base) KEYFRAME ∧
    (i = O → Z.land (hdr_flags h) FRAME_START ≠ 0) ∧
    (Z.of_nat i = len packets - 1 → Z.land (hdr_flags h) FRAME_END ≠ 0)
}.

Lemma fragment_flags base n i c :
  uint 8 (hdr_flags base) →
  let f := hdr_flags (fragment_header base n i c) in
  uint 8 f ∧
  Z.lor f (Z.lor FRAME_START FRAME_END) =
    Z.lor (hdr_flags base) (Z.lor FRAME_START FRAME_END) ∧
  Z.land f KEYFRAME = Z.land (hdr_flags base) KEYFRAME ∧
  (i = O → Z.land f FRAME_START ≠ 0) ∧
  (Z.of_nat i = n - 1 → Z.land f FRAME_END ≠ 0).
Proof.
  intros Hb. cbn. unfold KEYFRAME, FRAME_START, FRAME_END.
  destruct (Nat.eqb_spec i 0), (Z.eqb_spec (Z.of_nat i) (n - 1)); split_and!;
    try done; try (intros; lia); try (repeat apply lor_uint; done);
    rewrite <-?Z.lor_assoc; try done; rewrite ?land_lor_other by done; try done;
    intros _; rewrite ?Z.lor_assoc; rewrite ?land_lor_other by done;
    by apply land_lor_same.
Qed.

Lemma packetize_fragments base payload cs packets :
  header_ok base → 0 ≤ cs → packetize_video_frame base payload cs = Ok packets →
  fragments base payload packets.
Proof.
  intros Hok Hcs. assert (uint 8 (hdr_flags base)) as Hf by apply Hok.
  unfold packetize_video_frame. intros Hp.
  destruct ((cs =? 0) || _) eqn:Hc; [done|]. bool_hyps.
  destruct (MAX_FRAME_PAYLOAD_SIZE <? len payload); [done|].
  destruct (decide (payload = [])) as [->|Hne].
  { simplify_eq/=. split; cbn.
    - done.
    - done.
    - intros [|[]] h c [=]; subst; cbn. done.
    - intros [|[]] h c [=]; subst; cbn. unfold KEYFRAME, FRAME_START, FRAME_END.
      split_and!; [by apply lor_uint|by rewrite <-Z.lor_assoc|
        by rewrite land_lor_other|intros _|intros _].
      + rewrite Z.land_lor_distr_l. by intros [_ ?]%Z.lor_eq_0_iff.
      + rewrite Z.land_lor_distr_l. by intros [_ ?]%Z.lor_eq_0_iff. }
  destruct payload as [|b0 payload0] eqn:Epl; [done|]. rewrite <-Epl in *. clear Epl.
  set (k := Z.to_nat cs) in *. assert (0 < k)%nat as Hk by lia.
  destruct (_ || _) eqn:Hcount; [done|]. bool_hyps. apply (inj Ok) in Hp.
  assert (len packets = len (chunks k payload)) as Hlen
    by (subst; unfold len; by rewrite length_imap).
  assert (∀ i h c, packets !! i = Some (h, c) →
    chunks k payload !! i = Some c ∧ (length c ≤ k)%nat ∧
    h = fragment_header base (len packets) i c) as Hget.
  { intros i h c Hi. rewrite Hlen. rewrite <-Hp, list_lookup_imap in Hi.
    destruct (chunks k payload !! i) as [c'|] eqn:Ec; simplify_eq/=.
    split_and!; [done| |done].
    pose proof (chunks_lengths k payload Hk) as Hall.
    rewrite Forall_lookup in Hall. apply Hall in Ec. lia. }
  unfold MAX_PACKETS_PER_FRAME, MAX_PAYLOAD_LEN in *. split.
  - rewrite Hlen. split; [|unfold MAX_PACKETS_PER_FRAME; lia].
    destruct (chunks k payload) eqn:E; [by apply chunks_not_nil in E|].
    rewrite len_cons. unfold len. lia.
  - rewrite <-Hp. rewrite <-(concat_chunks k payload Hk) at 2. f_equal.
    apply list_eq. intros i. rewrite list_lookup_fmap, list_lookup_imap.
    by destruct (chunks k payload !! i).
  - intros i h c Hi. destruct (Hget i h c Hi) as (Hci & Hcl & ->). cbn.
    apply lookup_lt_Some in Hci. unfold len, MAX_PAYLOAD_LEN in *.
    rewrite !wrap_small by (unfold uint; lia). split_and!; done || lia.
  - intros i h c Hi. destruct (Hget i h c Hi) as (_ & _ & ->).
    by apply fragment_flags.
Qed.

(** ** Collecting the fragments of one frame *)

Section collect.
Context (base : VideoPacketHeader) (payload : bytes).
Context (packets : list (VideoPacketHeader * bytes)).
Context (Hfr : fragments base payload packets).

(** The frame under assembly holds exactly the fragments of [seen]. *)
Definition slots (f : InFlightFrame) (seen : list (VideoPacketHeader * bytes)) : Prop :=
  length (if_packets f) = length packets ∧
  (∃ p, p ∈ packets ∧ if_base_header f = p.1) ∧
  ∀ i p, packets !! i = Some p →
    if_packets f !! i = Some (if decide (p ∈ seen) then Some p.2 else None).

(** The reassembler has received exactly the fragments of [seen]. *)
Definition collecting (r : VideoFrameReassembler)
    (seen : list (VideoPacketHeader * bytes)) : Prop :=
  match ra_frames r !! hdr_frame_id base with
  | Some f => slots f seen
  | None => seen = []
  end.

Lemma fragment_unique i j p :
  packets !! i = Some p → packets !! j = Some p → i = j.
Proof.
  destruct p as [h c]. intros Hi Hj.
  apply (fr_each _ _ _ Hfr) in Hi as (Hi & _), Hj as (Hj & _). lia.
Qed.

Lemma slots_fresh p :
  p ∈ packets → slots (fresh_in_flight p.1) [].
Proof.
  intros Hp. destruct p as [h c].
  assert (∃ i, packets !! i = Some (h, c)) as [i Hi] by by apply list_elem_of_lookup.
  destruct (fr_each _ _ _ Hfr _ _ _ Hi) as (_ & Hn & _).
  assert (Z.to_nat (hdr_packet_count h) = length packets) as E
    by (rewrite Hn; unfold len; lia).
  split_and!; cbn.
  - by rewrite length_replicate.
  - by exists (h, c).
  - intros j q Hq. rewrite E. apply lookup_lt_Some in Hq.
    rewrite decide_False by set_solver. by apply lookup_replicate_2.
Qed.

(** Recording a new fragment. *)
Lemma slots_insert f seen i p n t :
  slots f seen → packets !! i = Some p →
  slots (mkInFlightFrame (if_base_header f) (<[i := Some p.2]> (if_packets f)) n t)
    (p :: seen).
Proof.
  intros (Hl & Hb & Hs) Hi. split_and!; cbn; [by rewrite length_insert|done|].
  intros j q Hj. destruct (decide (i = j)) as [<-|Hne].
  - replace q with p by congruence. rewrite decide_True by set_solver.
    apply list_lookup_insert_eq. apply lookup_lt_Some in Hi. lia.
  - rewrite list_lookup_insert_ne, (Hs j q Hj) by done.
    assert (p ≠ q) by (intros ->; by apply Hne; eapply fragment_unique).
    destruct (decide (q ∈ seen)); [rewrite decide_True by set_solver|
      rewrite decide_False by set_solver]; done.
Qed.

Lemma slots_repeat f seen p : slots f seen → p ∈ seen → slots f (p :: seen).
Proof.
  intros (Hl & Hb & Hs) Hp. split_and!; [done..|]. intros j q Hj.
  rewrite (Hs j q Hj). do 2 case_decide; set_solver.
Qed.

(** When every fragment has been seen, the slots spell the payload. *)
Lemma slots_complete f seen :
  slots f seen → packets ⊆ seen → filled (if_packets f) = packets.*2.
Proof.
  intros (Hl & _ & Hs) Hsub.
  assert (if_packets f = Some <$> packets.*2) as ->.
  { apply list_eq_same_length with (length packets);
      [by rewrite !length_fmap|done|].
    intros i x y Hi Hx Hy. rewrite !list_lookup_fmap in Hy.
    destruct (packets !! i) as [p|] eqn:Hp; simplify_eq/=.
    rewrite (Hs i p Hp), decide_True in Hx; [congruence|].
    apply Hsub. by eapply list_elem_of_lookup_2. }
  apply omap_id_fmap_Some.
Qed.

Lemma slots_incomplete f seen :
  slots f seen → len (filled (if_packets f)) = len (if_packets f) → packets ⊆ seen.
Proof.
  intros (Hl & _ & Hs) Hn. assert (Forall is_Some (if_packets f)) as Hall
    by (apply filled_full; unfold len in Hn; lia).
  intros p [i Hi]%list_elem_of_lookup. pose proof (Hs i p Hi) as Hsi.
  rewrite Forall_lookup in Hall. apply Hall in Hsi.
  destruct (decide (p ∈ seen)); [done|]. by destruct Hsi.
Qed.

Lemma slots_bytes f seen :
  slots f seen → len (concat (filled (if_packets f))) ≤ len payload.
Proof.
  intros (Hl & _ & Hs). rewrite <-(fr_concat _ _ _ Hfr). apply filled_sub.
  apply Forall2_same_length_lookup_2; [by rewrite length_fmap|].
  intros i o c Ho Hc. rewrite list_lookup_fmap in Hc.
  destruct (packets !! i) as [p|] eqn:Hp; simplify_eq/=.
  rewrite (Hs i p Hp) in Ho. case_decide; simplify_eq; auto.
Qed.

Lemma evict_for_self r id : evict_for r id !! id = ra_frames r !! id.
Proof.
  unfold evict_for. destruct (ra_frames r !! id) eqn:E.
  - by rewrite andb_false_r.
  - repeat case_match; try done. apply lookup_delete_None; auto.
Qed.

Lemma slots_consistent f seen p :
  slots f seen → p ∈ packets → inconsistent f p.1 = false.
Proof.
  intros (Hl & ([hb cb] & Hb & Hbase) & _) Hp. destruct p as [h c].
  apply list_elem_of_lookup in Hb as [j Hj], Hp as [i Hi].
  pose proof (fr_flags _ _ _ Hfr _ _ _ Hi) as (_ & _ & Hk & _).
  pose proof (fr_flags _ _ _ Hfr _ _ _ Hj) as (_ & _ & Hk' & _).
  destruct (fr_each _ _ _ Hfr _ _ _ Hi) as (? & ? & ? & ? & ? & ? & ? & ? & ?).
  destruct (fr_each _ _ _ Hfr _ _ _ Hj) as (? & ? & ? & ? & ? & ? & ? & ? & ?).
  unfold inconsistent. rewrite Hbase. cbn in *. unfold len in *.
  repeat (apply orb_false_iff; split); apply negb_false_iff, Z.eqb_eq; congruence.
Qed.

(** The checks of [process_packet] let every fragment through. *)
Lemma fragment_admitted r p :
  p ∈ packets → 2 ≤ len packets →
  is_some_and (ra_last_authenticated_frame_id r) (λ l, hdr_frame_id base <=? l) = false →
  process_packet r p.1 p.2 = process_fragment r p.1 p.2.
Proof.
  destruct p as [h c]. intros [i Hi]%list_elem_of_lookup Hn Hw.
  pose proof (fr_flags _ _ _ Hfr _ _ _ Hi) as (_ & _ & _ & Hst & Hen).
  destruct (fr_each _ _ _ Hfr _ _ _ Hi) as (Hid & Hc & Hpl & _ & _ & _ & Hfid & _ & _).
  pose proof (fr_some _ _ _ Hfr). apply lookup_lt_Some in Hi.
  cbn. unfold process_packet. rewrite Hfid, Hw, Hid, Hc, Hpl.
  unfold len in *.
  repeat match goal with |- (if ?b then _ else _) = _ =>
    replace b with false; [|symmetry] end; done || lia.
Qed.

(** What the assembled frame says: the payload, and a header that carries the
    metadata the sealing bound. *)
Definition delivers (f : AssembledFrame) : Prop :=
  af_payload f = payload ∧
  (∀ cc, frame_metadata (af_header f) cc = frame_metadata base cc) ∧
  hdr_nonce_sequence (af_header f) = hdr_nonce_sequence base ∧
  hdr_flags (af_header f) = Z.lor (hdr_flags base) (Z.lor FRAME_START FRAME_END).

Lemma assemble_delivers f seen :
  slots f seen → packets ⊆ seen → delivers (assemble f).
Proof.
  intros Hs Hsub. pose proof (slots_complete f seen Hs Hsub) as Hfull.
  destruct Hs as (_ & ([h c] & [i Hi]%list_elem_of_lookup & Hbase) & _).
  pose proof (fr_flags _ _ _ Hfr _ _ _ Hi) as (_ & Hse & Hk & _).
  destruct (fr_each _ _ _ Hfr _ _ _ Hi) as (? & ? & ? & ? & ? & ? & ? & ? & ?).
  unfold delivers, assemble, frame_metadata. cbn. rewrite Hbase, Hfull. cbn.
  split_and!; [apply (fr_concat _ _ _ Hfr)| |done|done].
  intros cc. f_equal; try done. by rewrite Hse, !land_lor_other.
Qed.

(** The end of [process_packet] once the fragment [p] is recorded in [g]. *)
Lemma deliver_collect r F g p seen :
  slots g (p :: seen) → if_received_count g = len (filled (if_packets g)) →
  ∃ r', (∃ F', r' = with_frames r F') ∧
    if decide (packets ⊆ p :: seen)
    then ∃ a, deliver_if_complete r F (hdr_frame_id base) g = (Ok (Some a), r') ∧ delivers a
    else deliver_if_complete r F (hdr_frame_id base) g = (Ok None, r') ∧
         collecting r' (p :: seen).
Proof.
  intros Hg Hcnt. unfold deliver_if_complete. case_decide as Hall.
  - assert (if_received_count g = len (if_packets g)) as ->.
    { rewrite Hcnt, (slots_complete _ _ Hg Hall). destruct Hg as [Hl _].
      unfold len. by rewrite length_fmap, Hl. }
    rewrite Z.eqb_refl. eexists. split; [by eexists|]. eexists. split; [done|].
    by eapply assemble_delivers.
  - case_match eqn:E; [destruct Hall; apply (slots_incomplete g); [done|lia]|].
    eexists. split; [by eexists|]. split; [done|].
    unfold collecting. cbn. by rewrite lookup_insert_eq.
Qed.

Lemma process_collect r seen p :
  reassembler_ok r → len payload ≤ ra_max_frame_bytes r → 2 ≤ len packets →
  is_some_and (ra_last_authenticated_frame_id r) (λ l, hdr_frame_id base <=? l) = false →
  collecting r seen → p ∈ packets →
  ∃ r', (∃ F, r' = with_frames r F) ∧
    if decide (packets ⊆ p :: seen)
    then ∃ f, process_packet r p.1 p.2 = (Ok (Some f), r') ∧ delivers f
    else process_packet r p.1 p.2 = (Ok None, r') ∧ collecting r' (p :: seen).
Proof.
  intros Hr Hmax Hn Hw Hcol Hp. rewrite fragment_admitted by done.
  pose proof Hp as [i Hi]%list_elem_of_lookup. destruct p as [h c].
  destruct (fr_each _ _ _ Hfr _ _ _ Hi) as (Hid & Hc & _ & _ & _ & _ & Hfid & _ & _).
  unfold process_fragment. cbn [fst snd]. rewrite Hfid, evict_for_self.
  set (f := default _ _). set (F := evict_for _ _).
  assert (slots f seen ∧ in_flight_ok r (hdr_frame_id base) f) as [Hf Hfok].
  { unfold f, collecting in *. destruct (ra_frames r !! _) as [g|] eqn:Hg; cbn.
    - split; [done|]. by eapply ra_ok_frames.
    - subst. split; [by apply (slots_fresh (h, c))|].
      rewrite <-Hfid. apply fresh_in_flight_ok; [by apply ra_ok_limit|].
      rewrite Hc. pose proof (fr_some _ _ _ Hfr). lia. }
  pose proof (slots_consistent f seen (h, c) Hf Hp) as Hcons. cbn in Hcons. rewrite Hcons.
  rewrite Hid, Nat2Z.id. destruct Hf as (? & ? & Hs). rewrite (Hs i (h, c) Hi).
  destruct (decide ((h, c) ∈ seen)).
  - apply deliver_collect; [by apply slots_repeat|apply Hfok].
  - pose proof (Hs i (h, c) Hi) as Hslot. rewrite decide_False in Hslot by done.
    assert (slots f seen) as Hf by done.
    pose proof (slots_insert f seen i (h, c) (if_received_count f + 1)
      (if_total_bytes f + len c) Hf Hi) as Hf'.
    destruct (filled_insert (if_packets f) i c Hslot) as [E1 E2].
    pose proof (slots_bytes _ _ Hf') as Hb. cbn in Hb.
    destruct Hfok as [Hrc Htb _ _ _ _]. rewrite <-Hrc in E1. rewrite <-Htb in E2.
    replace (_ <? _) with false by lia. apply deliver_collect; [done|]. cbn. lia.
Qed.

End collect.

(** ** Sequences of packets *)

(** [process_packet] on packets as they arrive. *)
Fixpoint feed (r : VideoFrameReassembler) (arrivals : list (VideoPacketHeader * bytes)) :
    list (result ReassemblyError (option AssembledFrame)) * VideoFrameReassembler :=
  match arrivals with
  | [] => ([], r)
  | p :: ps =>
      let (o, r1) := process_packet r p.1 p.2 in
      let (os, r2) := feed r1 ps in (o :: os, r2)
  end.

Lemma fragments_header_ok base payload packets h c :
  header_ok base → fragments base payload packets → (h, c) ∈ packets → header_ok h.
Proof.
  intros Hb Hfr [i Hi]%list_elem_of_lookup.
  destruct (fr_each _ _ _ Hfr _ _ _ Hi) as (E1&E2&E3&E4&E5&E6&E7&E8&E9).
  destruct (fr_flags _ _ _ Hfr _ _ _ Hi) as (E10&_).
  apply lookup_lt_Some in Hi. pose proof (fr_some _ _ _ Hfr) as Hs.
  unfold header_ok, MAX_PACKETS_PER_FRAME, MAX_PAYLOAD_LEN, uint, len in *.
  rewrite E1, E2, E3, E5, E6, E7, E8, E9. lia.
Qed.

Lemma feed_collect base payload packets seen arrived p r :
  header_ok base → fragments base payload packets → 2 ≤ len packets →
  reassembler_ok r → len payload ≤ ra_max_frame_bytes r →
  is_some_and (ra_last_authenticated_frame_id r) (λ l, hdr_frame_id base <=? l) = false →
  collecting base packets r seen →
  Forall (.∈ packets) arrived → p ∈ packets → p ∉ arrived → p ∉ seen →
  packets ⊆ p :: arrived ++ seen →
  ∃ f, (feed r (arrived ++ [p])).1 = replicate (length arrived) (Ok None) ++ [Ok (Some f)] ∧
       delivers base payload f.
Proof.
  intros Hb Hfr Hn. revert seen r.
  induction arrived as [|q qs IH]; intros seen r Hr Hmax Hw Hcol Hin Hp Hqs Hps Hsub; cbn.
  - destruct (process_collect base payload packets Hfr r seen p)
      as (r' & _ & Hstep); try done.
    rewrite decide_True in Hstep by done. destruct Hstep as (f & -> & Hf).
    by exists f.
  - apply Forall_cons_1 in Hin as [Hq Hin].
    destruct (process_collect base payload packets Hfr r seen q)
      as (r' & [F ->] & Hstep); try done.
    assert (¬ packets ⊆ q :: seen) as Hmiss by (intros Hs; apply Hs in Hp; set_solver).
    rewrite decide_False in Hstep by done. destruct Hstep as [Hstep Hcol'].
    destruct q as [hq cq]. cbn [fst snd] in *. rewrite Hstep.
    destruct (IH ((hq, cq) :: seen) (with_frames r F)) as (f & Hfeed & Hf); try done.
    + pose proof (process_packet_ok r hq cq Hr) as Hok. rewrite Hstep in Hok.
      apply Hok. by eapply fragments_header_ok.
    + set_solver.
    + set_solver.
    + set_solver.
    + exists f. split; [|done]. destruct (feed _ _) as [os r2]. cbn in *. by rewrite Hfeed.
Qed.

Lemma single_packet base payload packets p r :
  fragments base payload packets → len packets = 1 → p ∈ packets →
  len payload ≤ ra_max_frame_bytes r →
  is_some_and (ra_last_authenticated_frame_id r) (λ l, hdr_frame_id base <=? l) = false →
  packets = [p] ∧ ∃ f, process_packet r p.1 p.2 = (Ok (Some f), r) ∧ delivers base payload f.
Proof.
  intros Hfr H1 Hp Hmax Hw. destruct packets as [|q [|]]; [done| |unfold len in H1; cbn in H1; lia].
  assert (q = p) as -> by set_solver. split; [done|]. destruct p as [h c].
  pose proof (fr_concat _ _ _ Hfr) as Hc. cbn in Hc. rewrite app_nil_r in Hc. subst.
  destruct (fr_flags _ _ _ Hfr 0 h payload eq_refl) as (_ & Hse & Hk & Hst & Hen).
  destruct (fr_each _ _ _ Hfr 0 h payload eq_refl) as (E1&E2&E3&E4&E5&E6&E7&E8&E9).
  specialize (Hst eq_refl). specialize (Hen eq_refl).
  unfold process_packet. cbn. rewrite E7, Hw, E1, E2, E3. cbn.
  rewrite Z.eqb_refl. cbn. apply Z.eqb_neq in Hst, Hen. rewrite Hst, Hen.
  replace (ra_max_frame_bytes r <? _) with false by lia.
  apply Z.eqb_neq in Hst, Hen. eexists. split; [done|].
  unfold delivers, frame_metadata. cbn. rewrite E5, E6, E7, E8, Hk. split_and!; try done.
  rewrite <-Hse, Z.lor_assoc. symmetry.
  rewrite (lor_flag_set _ 1), (lor_flag_set _ 2) by done. done.
Qed.

Lemma reassemble_fragments base payload packets r arrived p :
  header_ok base → fragments base payload packets →
  reassembler_ok r → len payload ≤ ra_max_frame_bytes r →
  is_some_and (ra_last_authenticated_frame_id r) (λ l, hdr_frame_id base <=? l) = false →
  ra_frames r !! hdr_frame_id base = None →
  Forall (.∈ packets) arrived → p ∈ packets → p ∉ arrived →
  (∀ q, q ∈ packets → q = p ∨ q ∈ arrived) →
  ∃ f, (feed r (arrived ++ [p])).1 = replicate (length arrived) (Ok None) ++ [Ok (Some f)] ∧
       delivers base payload f.
Proof.
  intros Hb Hfr Hr Hmax Hw Hnone Hin Hp Hnew Hall.
  destruct (decide (len packets = 1)) as [H1|].
  - destruct (single_packet _ _ _ _ r Hfr H1 Hp Hmax Hw) as [-> (f & Hf & Hd)].
    destruct arrived as [|q qs].
    + exists f. cbn. by rewrite Hf.
    + apply Forall_cons_1 in Hin as [Hq _]. set_solver.
  - pose proof (fr_some _ _ _ Hfr).
    apply (feed_collect base payload packets []); try done; try lia; try set_solver.
    unfold collecting. by rewrite Hnone.
Qed.

(** C4. The packetizer and the reassembler are inverse over an unreliable
    network: whatever the order in which the fragments of a frame arrive and
    however often some of them are repeated, the reassembler delivers nothing
    until the last missing fragment [p] arrives, and then delivers exactly the
    payload, with the header metadata (version, stream, frame id, timestamp,
    keyframe bit, nonce sequence) the frame was packetized under. *)
Theorem reassemble_any_order base payload cs packets r arrived p :
  header_ok base → 0 ≤ cs → packetize_video_frame base payload cs = Ok packets →
  reassembler_ok r → len payload ≤ ra_max_frame_bytes r →
  is_some_and (ra_last_authenticated_frame_id r) (λ l, hdr_frame_id base <=? l) = false →
  ra_frames r !! hdr_frame_id base = None →
  Forall (.∈ packets) arrived → p ∈ packets → p ∉ arrived →
  (∀ q, q ∈ packets → q = p ∨ q ∈ arrived) →
  ∃ f, (feed r (arrived ++ [p])).1 = replicate (length arrived) (Ok None) ++ [Ok (Some f)] ∧
       delivers base payload f.
Proof.
  intros Hb Hcs Hpk. apply reassemble_fragments; [done|]. by eapply packetize_fragments.
Qed.

Definition sample_header : VideoPacketHeader :=
  mkVideoPacketHeader 1 KEYFRAME 7 42 0 0 1000 3 0.
Definition sample_payload : bytes := as_bytes "fragment by fragment".
Definition sample_packets : list (VideoPacketHeader * bytes) :=
  match packetize_video_frame sample_header sample_payload 8 with Ok ps => ps | Err _ => [] end.
Definition sample_packet (i : nat) : VideoPacketHeader * bytes :=
  nth i sample_packets (sample_header, []).

Lemma reassemble_any_order_witness :
  ∃ f, (feed VideoFrameReassembler_default
         [sample_packet 2; sample_packet 0; sample_packet 2; sample_packet 1]).1 =
       [Ok None; Ok None; Ok None; Ok (Some f)] ∧ delivers sample_header sample_payload f.
Proof.
  apply (reassemble_any_order sample_header sample_payload 8 sample_packets
    VideoFrameReassembler_default [sample_packet 2; sample_packet 0; sample_packet 2]
    (sample_packet 1)).
  - by vm_compute.
  - done.
  - by vm_compute.
  - by apply reassembler_new_ok.
  - by vm_compute.
  - done.
  - done.
  - repeat constructor; vm_compute; set_solver.
  - vm_compute; set_solver.
  - vm_compute; set_solver.
  - vm_compute; set_solver.
Defined.
