(* ===== verification/VideoSafety.v ===== *)
(** * Safety of the reassembler against hostile packets

    Any sequence of packets and commits: memory stays bounded, nothing stale is
    delivered, and only a commit moves the watermark. *)

From S2P Require Import Prelude VideoPacket VideoTransport.

(** The public mutating operations of the reassembler, in any order. *)
Inductive reassembler_op :=
  | OpPacket (header : VideoPacketHeader) (payload : bytes)
  | OpCommit (frame_id : Z).

Inductive reassembler_output :=
  | OutPacket (o : result ReassemblyError (option AssembledFrame))
  | OutCommit (frame_id : Z) (committed : bool).

Definition op_ok (o : reassembler_op) : Prop :=
  match o with OpPacket h _ => header_ok h | OpCommit _ => True end.

Definition reassembler_step (r : VideoFrameReassembler) (o : reassembler_op) :
    reassembler_output * VideoFrameReassembler :=
  match o with
  | OpPacket h p => prod_map OutPacket id (process_packet r h p)
  | OpCommit i => prod_map (OutCommit i) id (commit_authenticated_frame r i)
  end.

Fixpoint reassembler_run (r : VideoFrameReassembler) (ops : list reassembler_op) :
    list reassembler_output * VideoFrameReassembler :=
  match ops with
  | [] => ([], r)
  | o :: ops =>
      let (out, r1) := reassembler_step r o in
      let (outs, r2) := reassembler_run r1 ops in (out :: outs, r2)
  end.

(** Bytes held for incomplete frames. *)
Definition buffered_bytes (r : VideoFrameReassembler) : Z :=
  map_fold (λ _ f n, len (concat (filled (if_packets f))) + n) 0 (ra_frames r).

Lemma reassembler_step_ok r o :
  reassembler_ok r → op_ok o → reassembler_ok (reassembler_step r o).2.
Proof.
  destruct o as [h p|i]; cbn; intros Hr Ho.
  - destruct (process_packet r h p) eqn:E.
    pose proof (process_packet_ok r h p Hr Ho) as H. by rewrite E in H.
  - pose proof (commit_ok r i Hr) as H. by destruct (commit_authenticated_frame r i).
Qed.

Lemma reassembler_run_ok r ops :
  reassembler_ok r → Forall op_ok ops → reassembler_ok (reassembler_run r ops).2.
Proof.
  intros Hr Hops. revert r Hr. induction Hops as [|o ops Ho _ IH]; intros r Hr; [done|].
  cbn. pose proof (reassembler_step_ok r o Hr Ho) as Hs.
  destruct (reassembler_step r o) as [out r1]. specialize (IH r1 Hs).
  by destruct (reassembler_run r1 ops).
Qed.

Lemma buffered_bytes_bound r :
  reassembler_ok r →
  buffered_bytes r ≤ Z.of_nat (size (ra_frames r)) * ra_max_frame_bytes r.
Proof.
  intros [_ H0 _ Hfr _]. unfold buffered_bytes. revert Hfr.
  generalize (ra_frames r) as m. intros m.
  induction m as [|i f m Hi Hfi IH] using map_first_key_ind; intros Hm.
  - by rewrite map_fold_empty, map_size_empty.
  - rewrite map_fold_insert_first_key, map_size_insert_None by done.
    apply map_Forall_insert in Hm as [Hf Hm]; [|done]. specialize (IH Hm).
    destruct Hf as [_ Ht _ Hl _ _]. rewrite <-Ht. lia.
Qed.

(** The limits are never changed, and packets never move the watermark. *)
Lemma process_packet_frames_only r h p :
  ∃ F, (process_packet r h p).2 = with_frames r F.
Proof.
  assert (r = with_frames r (ra_frames r)) as Er by by destruct r.
  unfold process_packet, process_fragment, deliver_if_complete.
  repeat case_match; cbn; eauto.
Qed.

Lemma reassembler_step_limits r o :
  let r' := (reassembler_step r o).2 in
  ra_max_in_flight r' = ra_max_in_flight r ∧ ra_max_frame_bytes r' = ra_max_frame_bytes r.
Proof.
  destruct o as [h p|i]; cbn.
  - destruct (process_packet_frames_only r h p) as [F HF].
    destruct (process_packet r h p); cbn in *. by subst.
  - unfold commit_authenticated_frame. by case_match.
Qed.

Lemma reassembler_run_limits r ops :
  let r' := (reassembler_run r ops).2 in
  ra_max_in_flight r' = ra_max_in_flight r ∧ ra_max_frame_bytes r' = ra_max_frame_bytes r.
Proof.
  revert r. induction ops as [|o ops IH]; intros r; cbn; [done|].
  destruct (reassembler_step_limits r o) as [E1 E2].
  destruct (reassembler_step r o) as [out r1]. destruct (IH r1).
  destruct (reassembler_run r1 ops). cbn in *. split; congruence.
Qed.

(** ** What is delivered *)

(** Newer than the watermark. *)
Definition above (last : option Z) (id : Z) : Prop :=
  ∀ l, last = Some l → l < id.

Lemma above_spec last id : is_some_and last (λ l, id <=? l) = false ↔ above last id.
Proof.
  unfold above. destruct last as [l|]; cbn; [|by split].
  rewrite Z.leb_gt. split; [by intros ? ? [= <-]|auto].
Qed.

Lemma deliver_if_complete_id r F id g f r' :
  deliver_if_complete r F id g = (Ok (Some f), r') →
  hdr_frame_id (af_header f) = hdr_frame_id (if_base_header g) ∧
  af_payload f = concat (filled (if_packets g)) ∧ af_assembled_len f = len (af_payload f).
Proof. unfold deliver_if_complete. case_match; intros; by simplify_eq/=. Qed.

Lemma process_fragment_delivers r h p f r' :
  reassembler_ok r → 2 ≤ hdr_packet_count h ≤ MAX_PACKETS_PER_FRAME →
  process_fragment r h p = (Ok (Some f), r') →
  hdr_frame_id (af_header f) = hdr_frame_id h ∧
  len (af_payload f) ≤ ra_max_frame_bytes r ∧ af_assembled_len f = len (af_payload f).
Proof.
  intros Hr Hc. unfold process_fragment.
  set (F := evict_for r (hdr_frame_id h)).
  set (g := default (fresh_in_flight h) (F !! hdr_frame_id h)).
  assert (in_flight_ok r (hdr_frame_id h) g) as Hg.
  { unfold g. destruct (F !! hdr_frame_id h) eqn:E; cbn.
    - eapply ra_ok_frames; [done|]. eapply lookup_weaken; [exact E|].
      apply evict_for_subseteq.
    - apply fresh_in_flight_ok; [by apply ra_ok_limit|done]. }
  case_match; [done|].
  destruct (if_packets g !! _) as [[q|]|] eqn:Hslot; [| |];
    [intros (E1 & E2 & E3)%deliver_if_complete_id; rewrite E2|
    |intros (E1 & E2 & E3)%deliver_if_complete_id; rewrite E2].
  1,3: destruct Hg; split_and!; congruence || lia.
  case_match eqn:Hmax; [done|]. intros (E1 & E2 & E3)%deliver_if_complete_id.
  cbn in *. destruct (fill_slot_ok r _ g _ p Hg Hslot) as (_ & Ht & _); [lia|].
  cbn in Ht. rewrite E2. destruct Hg. split_and!; congruence || lia.
Qed.

Lemma process_packet_delivers r h p f r' :
  reassembler_ok r → header_ok h → process_packet r h p = (Ok (Some f), r') →
  hdr_frame_id (af_header f) = hdr_frame_id h ∧
  len (af_payload f) ≤ ra_max_frame_bytes r ∧ af_assembled_len f = len (af_payload f) ∧
  above (ra_last_authenticated_frame_id r) (hdr_frame_id h).
Proof.
  intros Hr Hh. unfold process_packet.
  repeat match goal with |- context [if ?b then (Err _, _) else _] =>
    destruct b eqn:?; [done|] end.
  destruct (is_some_and _ _) eqn:Hw; [done|]. apply above_spec in Hw.
  destruct (hdr_packet_count h =? 1) eqn:E1.
  - case_match; intros; simplify_eq/=. split_and!; done || lia.
  - destruct Hh as (_&_&_&_&_&[]&_). bool_hyps.
    intros (?&?&?)%process_fragment_delivers; [done|done|lia].
Qed.

(** What a step that outputs a frame or a successful commit implies. *)
Definition output_ok (r : VideoFrameReassembler) (out : reassembler_output) : Prop :=
  match out with
  | OutPacket (Ok (Some f)) =>
      above (ra_last_authenticated_frame_id r) (hdr_frame_id (af_header f)) ∧
      len (af_payload f) ≤ ra_max_frame_bytes r
  | OutCommit i true => above (ra_last_authenticated_frame_id r) i
  | OutPacket _ | OutCommit _ false => True
  end.

Lemma reassembler_step_output r o :
  reassembler_ok r → op_ok o → output_ok r (reassembler_step r o).1.
Proof.
  intros Hr. destruct o as [h p|i]; cbn; intros Ho.
  - destruct (process_packet r h p) as [[[f|]|e] r'] eqn:E; cbn; try done.
    apply process_packet_delivers in E as (-> & ? & _ & ?); done.
  - unfold commit_authenticated_frame. case_match eqn:E; cbn; [done|].
    by apply above_spec.
Qed.

(** The watermark only grows, and equals the last committed id. *)
Definition watermark_le (a b : option Z) : Prop := ∀ i, above b i → above a i.

Lemma reassembler_step_watermark r o :
  watermark_le (ra_last_authenticated_frame_id r)
    (ra_last_authenticated_frame_id (reassembler_step r o).2) ∧
  ∀ i, (reassembler_step r o).1 = OutCommit i true →
    ra_last_authenticated_frame_id (reassembler_step r o).2 = Some i.
Proof.
  destruct o as [h p|i]; cbn.
  - destruct (process_packet_frames_only r h p) as [F HF].
    destruct (process_packet r h p); cbn in *. subst. split; [by intros i|done].
  - unfold commit_authenticated_frame. case_match eqn:E; cbn; [by split; [intros ?|]|].
    apply above_spec in E. split; [|by intros ? [= <-]].
    intros j Hj l Hl. pose proof (E l Hl). pose proof (Hj i eq_refl). lia.
Qed.

Lemma reassembler_run_above r ops :
  reassembler_ok r → Forall op_ok ops →
  Forall (output_ok r) (reassembler_run r ops).1.
Proof.
  intros Hr Hops. revert r Hr. induction Hops as [|o ops Ho _ IH]; intros r Hr; cbn; [done|].
  pose proof (reassembler_step_ok r o Hr Ho) as Hs.
  pose proof (reassembler_step_output r o Hr Ho) as Hout.
  destruct (reassembler_step_watermark r o) as [Hwm _].
  destruct (reassembler_step_limits r o) as [_ Hlim].
  destruct (reassembler_step r o) as [out r1]. specialize (IH r1 Hs).
  destruct (reassembler_run r1 ops) as [outs r2]. cbn in *. constructor; [done|].
  eapply Forall_impl; [exact IH|]. intros [[[f|]|]|j []]; cbn; try done.
  - intros [? ?]. split; [by apply Hwm|congruence].
  - apply Hwm.
Qed.

Lemma reassembler_run_split r ops l1 out l2 :
  reassembler_ok r → Forall op_ok ops → (reassembler_run r ops).1 = l1 ++ out :: l2 →
  ∃ r' o ops', reassembler_ok r' ∧ op_ok o ∧ Forall op_ok ops' ∧
    (reassembler_step r' o).1 = out ∧
    l2 = (reassembler_run (reassembler_step r' o).2 ops').1.
Proof.
  intros Hr Hops. revert r l1 Hr. induction Hops as [|o ops Ho Hops IH]; intros r l1 Hr; cbn.
  - by destruct l1.
  - pose proof (reassembler_step_ok r o Hr Ho) as Hs.
    destruct (reassembler_step r o) as [out' r1] eqn:Estep.
    destruct (reassembler_run r1 ops) as [outs r2] eqn:Erun. cbn in *.
    destruct l1 as [|x l1]; intros [= -> E].
    + exists r, o, ops. rewrite Estep. cbn. by rewrite Erun.
    + apply (IH r1 l1 Hs). by rewrite Erun.
Qed.

(** C37. Whatever packets and commits arrive, in whatever order, a reassembler
    keeps its well-formedness invariant; it never tracks more frames than its
    limit, never buffers more than that many maximal frames, and no frame it
    delivers exceeds the frame limit. *)
Theorem reassembler_bounded n m ops :
  0 ≤ m → Forall op_ok ops →
  let '(outs, r) := reassembler_run (VideoFrameReassembler_new n m) ops in
  reassembler_ok r ∧
  Z.of_nat (size (ra_frames r)) ≤ Z.max n 1 ∧
  buffered_bytes r ≤ Z.max n 1 * m ∧
  ∀ f, OutPacket (Ok (Some f)) ∈ outs → len (af_payload f) ≤ m.
Proof.
  intros Hm Hops. pose proof (reassembler_new_ok n m Hm) as H0.
  pose proof (reassembler_run_ok _ ops H0 Hops) as Hok.
  pose proof (reassembler_run_above _ ops H0 Hops) as Houts.
  destruct (reassembler_run_limits (VideoFrameReassembler_new n m) ops) as [E1 E2].
  destruct (reassembler_run _ ops) as [outs r]. cbn in *.
  pose proof (buffered_bytes_bound r Hok). pose proof (ra_ok_capacity r Hok).
  rewrite E1, E2 in *. split_and!; [done|done|nia|].
  intros f Hf. rewrite Forall_in in Houts. by apply Houts in Hf as [_ ?].
Qed.

Definition sample_ops : list reassembler_op :=
  [OpPacket (mkVideoPacketHeader 1 2 0 9 0 2 0 0 1) [x01];
   OpPacket (mkVideoPacketHeader 1 6 0 5 0 1 0 0 1) [x02]; OpCommit 5;
   OpPacket (mkVideoPacketHeader 1 4 0 9 1 2 0 0 1) [x03]; OpCommit 9; OpCommit 7].

Lemma reassembler_bounded_witness :
  let '(outs, r) := reassembler_run (VideoFrameReassembler_new 4 1000) sample_ops in
  reassembler_ok r ∧ Z.of_nat (size (ra_frames r)) ≤ 4 ∧ buffered_bytes r ≤ 4 * 1000 ∧
  ∀ f, OutPacket (Ok (Some f)) ∈ outs → len (af_payload f) ≤ 1000.
Proof.
  apply (reassembler_bounded 4 1000 sample_ops); [done|].
  repeat constructor; by vm_compute.
Defined.

(** Freshness: once a frame id has been committed as authenticated, every
    frame delivered afterwards and every later successful commit has a strictly
    larger id; packets alone, forged ones included, never move the watermark. *)
Theorem reassembler_fresh n m ops outs1 i outs2 :
  0 ≤ m → Forall op_ok ops →
  (reassembler_run (VideoFrameReassembler_new n m) ops).1 =
    outs1 ++ OutCommit i true :: outs2 →
  (∀ f, OutPacket (Ok (Some f)) ∈ outs2 → i < hdr_frame_id (af_header f)) ∧
  (∀ j, OutCommit j true ∈ outs2 → i < j) ∧
  (∀ r h p, ra_last_authenticated_frame_id (process_packet r h p).2 =
     ra_last_authenticated_frame_id r).
Proof.
  intros Hm Hops Hrun. pose proof (reassembler_new_ok n m Hm) as H0.
  apply reassembler_run_split in Hrun as (r & o & ops' & Hr & Ho & Hops' & Hout & ->); try done.
  pose proof (reassembler_run_above _ ops' (reassembler_step_ok r o Hr Ho) Hops') as Habove.
  destruct (reassembler_step_watermark r o) as [_ Hw].
  rewrite (Forall_in (output_ok _)) in Habove. unfold output_ok in Habove.
  rewrite (Hw i Hout) in Habove. split_and!.
  - intros f Hf. apply Habove in Hf as [Hf _]. by apply Hf.
  - intros j Hj. apply Habove in Hj. by apply Hj.
  - intros r1 h p. by destruct (process_packet_frames_only r1 h p) as [F ->].
Qed.

Lemma reassembler_fresh_witness :
  Forall op_ok sample_ops ∧
  ∀ f, OutPacket (Ok (Some f)) ∈
    drop 3 (reassembler_run (VideoFrameReassembler_new 4 1000) sample_ops).1 →
    5 < hdr_frame_id (af_header f).
Proof.
  split; [repeat constructor; by vm_compute|].
  eapply (reassembler_fresh 4 1000 sample_ops _ 5); [done| |].
  - repeat constructor; by vm_compute.
  - vm_compute. by apply (f_equal (app [_; _])).
Defined.
