(* ===== verification/RustStr.v ===== *)
(** * Strings of the Rust standard library

    What the sources use of [str]: trimming, ASCII case, splitting, decimal
    integers and [IpAddr] parsing.  A [String] is its UTF-8 bytes, one [ascii]
    per byte. *)

From Stdlib Require Export Ascii.
From S2P Require Import Prelude.

Open Scope string_scope.
Open Scope list_scope.
Open Scope Z_scope.

(** The value of a byte of a string. *)
Definition code (c : ascii) : Z := Z.of_N (N_of_ascii c).

(** [String::from_utf8]: strings are the well-formed byte sequences of the Unicode
    standard (table 3-7). *)
Definition utf8_tail (b : byte) : bool := (128 <=? of_byte b) && (of_byte b <=? 191).
Definition utf8_second (first : Z) (b : byte) : bool :=
  ((if first =? 224 then 160 else if first =? 240 then 144 else 128) <=? of_byte b) &&
  (of_byte b <=? (if first =? 237 then 159 else if first =? 244 then 143 else 191)).
Fixpoint utf8_valid (l : bytes) : bool :=
  match l with
  | [] => true
  | b :: l1 =>
      let c := of_byte b in
      if c <=? 127 then utf8_valid l1 else
      match l1 with
      | [] => false
      | b2 :: l2 =>
          if (194 <=? c) && (c <=? 223) then utf8_tail b2 && utf8_valid l2 else
          match l2 with
          | [] => false
          | b3 :: l3 =>
              if (224 <=? c) && (c <=? 239)
              then utf8_second c b2 && utf8_tail b3 && utf8_valid l3 else
              match l3 with
              | [] => false
              | b4 :: l4 =>
                  (240 <=? c) && (c <=? 244) && utf8_second c b2 && utf8_tail b3 &&
                  utf8_tail b4 && utf8_valid l4
              end
          end
      end
  end.
Definition from_utf8 (l : bytes) : option string :=
  if utf8_valid l then Some (String.string_of_list_byte l) else None.

Definition is_ascii (s : string) : bool := forallb (λ b, of_byte b <=? 127) (as_bytes s).
Lemma from_utf8_ascii s : is_ascii s = true → from_utf8 (as_bytes s) = Some s.
Proof.
  intros Ha. unfold from_utf8, as_bytes. rewrite String.string_of_list_byte_of_string.
  fold (as_bytes s). unfold is_ascii in Ha.
  assert (utf8_valid (as_bytes s) = true) as ->; [|done].
  induction (as_bytes s) as [|b l IH]; [done|]. cbn in *.
  apply andb_true_iff in Ha as [-> Hl]. by apply IH.
Qed.

(** ** Trimming *)

(** The UTF-8 encodings of the characters of Unicode property [White_Space]. *)
Definition byte_string (l : list nat) : string :=
  fold_right (λ n s, String (ascii_of_nat n) s) "" l.
Definition white_space : list string := byte_string <$>
  [[9]; [10]; [11]; [12]; [13]; [32]; [194; 133]; [194; 160]; [225; 154; 128];
   [226; 128; 128]; [226; 128; 129]; [226; 128; 130]; [226; 128; 131];
   [226; 128; 132]; [226; 128; 133]; [226; 128; 134]; [226; 128; 135];
   [226; 128; 136]; [226; 128; 137]; [226; 128; 138]; [226; 128; 168];
   [226; 128; 169]; [226; 128; 175]; [226; 129; 159]; [227; 128; 128]]%nat.

(** [s] without its prefix [p]. *)
Fixpoint strip_prefix (p s : string) : option string :=
  match p, s with
  | "", _ => Some s
  | String a p, String b s => if Ascii.eqb a b then strip_prefix p s else None
  | String _ _, "" => None
  end.

Fixpoint string_rev_app (s acc : string) : string :=
  match s with "" => acc | String c s => string_rev_app s (String c acc) end.
Definition string_rev (s : string) : string := string_rev_app s "".

(** Strips any of [pats] from the front, as often as possible. *)
Fixpoint trim_front (pats : list string) (fuel : nat) (s : string) : string :=
  match fuel, omap (λ p, strip_prefix p s) pats with
  | S fuel, s' :: _ => trim_front pats fuel s'
  | _, _ => s
  end.

(** [str::trim] *)
Definition trim (s : string) : string :=
  let s := trim_front white_space (String.length s) s in
  string_rev (trim_front (string_rev <$> white_space) (String.length s) (string_rev s)).

(** ** ASCII case, removal and splitting *)

Definition ascii_lower (c : ascii) : ascii :=
  let n := code c in
  if (65 <=? n) && (n <=? 90) then ascii_of_N (Z.to_N (n + 32)) else c.

Fixpoint to_ascii_lowercase (s : string) : string :=
  match s with "" => "" | String c s => String (ascii_lower c) (to_ascii_lowercase s) end.

(** [s.replace(chars, "")] for a set of ASCII characters. *)
Fixpoint remove_chars (chars : list ascii) (s : string) : string :=
  match s with
  | "" => ""
  | String c s =>
      if bool_decide (c ∈ chars) then remove_chars chars s
      else String c (remove_chars chars s)
  end.

(** [str::split_once] at an ASCII character. *)
Fixpoint split_once (sep : ascii) (s : string) : option (string * string) :=
  match s with
  | "" => None
  | String c s =>
      if Ascii.eqb c sep then Some ("", s)
      else prod_map (String c) id <$> split_once sep s
  end.

(** [[&str]::join] *)
Fixpoint join (sep : string) (l : list string) : string :=
  match l with
  | [] => ""
  | [s] => s
  | s :: l => s +:+ sep +:+ join sep l
  end.

(** ** Integers *)

(** [char::to_digit] for a radix of at most 16. *)
Definition to_digit (radix : Z) (c : ascii) : option Z :=
  let n := code c in
  let d := if (48 <=? n) && (n <=? 57) then n - 48
           else if (97 <=? n) && (n <=? 102) then n - 87
           else if (65 <=? n) && (n <=? 70) then n - 55 else radix in
  if d <? radix then Some d else None.

Inductive IntErrorKind := IntErrorKind_Empty | IntErrorKind_InvalidDigit | IntErrorKind_PosOverflow.

(** The digit loop of [from_str_radix] with radix 10. *)
Fixpoint parse_digits (max acc : Z) (s : string) : result IntErrorKind Z :=
  match s with
  | "" => Ok acc
  | String c s =>
      match to_digit 10 c with
      | None => Err IntErrorKind_InvalidDigit
      | Some d =>
          match checked_mul max acc 10 with
          | None => Err IntErrorKind_PosOverflow
          | Some m =>
              match checked_add max m d with
              | None => Err IntErrorKind_PosOverflow
              | Some a => parse_digits max a s
              end
          end
      end
  end.

(** [str::parse] into an unsigned type whose largest value is [max]: a leading
    plus sign is accepted, a minus sign is not a digit. *)
Definition parse_uint (max : Z) (s : string) : result IntErrorKind Z :=
  match s with
  | "" => Err IntErrorKind_Empty
  | String c "" =>
      if Ascii.eqb c "+" || Ascii.eqb c "-" then Err IntErrorKind_InvalidDigit
      else parse_digits max 0 s
  | String c r => parse_digits max 0 (if Ascii.eqb c "+" then r else s)
  end.

(** The decimal digits [Display] writes; [fuel] bounds their number, and the
    bit length of the value is enough of it. *)
Fixpoint dec_digits (fuel : nat) (n : Z) (acc : string) : string :=
  match fuel with
  | O => acc
  | S fuel =>
      let acc := String (ascii_of_N (Z.to_N (48 + n mod 10))) acc in
      if n <? 10 then acc else dec_digits fuel (n / 10) acc
  end.
Definition to_dec (n : Z) : string := dec_digits (S (Z.to_nat (Z.log2 n))) n "".

(** ** IP addresses

    The recursive-descent parser behind [IpAddr::from_str]: each reader takes
    the remaining input and returns the value read with what is left, or
    [None] with the input untouched. *)

Inductive IpAddr := IpV4 (addr : Z) | IpV6 (addr : Z).
#[global] Instance IpAddr_eq_dec : EqDecision IpAddr.
Proof. solve_decision. Defined.

Definition reader A := string → option (A * string).

Definition read_given_char (c : ascii) : reader unit := λ s,
  match s with
  | String d s => if Ascii.eqb c d then Some (tt, s) else None
  | "" => None
  end.

(** The separator precedes every item but the first. *)
Definition read_separator {A} (sep : ascii) (index : nat) (inner : reader A) : reader A := λ s,
  match index with
  | O => inner s
  | S _ => '(_, s) ← read_given_char sep s; inner s
  end.

(** Digits of [radix] from the front, at most [max_digits]. *)
Fixpoint read_digits (radix : Z) (max_digits count : nat) (acc : Z) (s : string) :
    option (Z * nat * string) :=
  match s with
  | String c r =>
      match to_digit radix c with
      | Some d =>
          if (max_digits <? S count)%nat then None
          else read_digits radix max_digits (S count) (acc * radix + d) r
      | None => Some (acc, count, s)
      end
  | "" => Some (acc, count, s)
  end.

Definition read_number (radix : Z) (max_digits : nat) (allow_zero_prefix : bool)
    (max : Z) : reader Z := λ s,
  let has_leading_zero := match s with String c _ => Ascii.eqb c "0" | "" => false end in
  '(v, count, rest) ← read_digits radix max_digits 0 0 s;
  if (count =? 0)%nat then None
  else if negb allow_zero_prefix && has_leading_zero && (1 <? count)%nat then None
  else if v <=? max then Some (v, rest) else None.

(** [n] numbers separated by dots, folded big-endian. *)
Fixpoint read_octets (i n : nat) (acc : Z) : reader Z := λ s,
  match n with
  | O => Some (acc, s)
  | S n =>
      '(o, s) ← read_separator "." i (read_number 10 3 false 255) s;
      read_octets (S i) n (acc * 256 + o) s
  end.
Definition read_ipv4_addr : reader Z := read_octets 0 4 0.

(** [read_groups]: the groups read into a slice of [n] groups left, starting
    at group [i], with whether an embedded IPv4 address ended them. *)
Fixpoint read_groups (i n : nat) (acc : list Z) (s : string) : list Z * bool * string :=
  match n with
  | O => (acc, false, s)
  | S n' =>
      match (if (0 <? n')%nat then read_separator ":" i read_ipv4_addr s else None) with
      | Some (v4, rest) => (acc ++ [v4 / 65536; v4 mod 65536], true, rest)
      | None =>
          match read_separator ":" i (read_number 16 4 true 65535) s with
          | Some (g, rest) => read_groups (S i) n' (acc ++ [g]) rest
          | None => (acc, false, s)
          end
      end
  end.

Definition groups_value (groups : list Z) : Z :=
  fold_left (λ acc g, acc * 65536 + g) groups 0.

Definition read_ipv6_addr : reader Z := λ s,
  let '(head, head_ipv4, rest) := read_groups 0 8 [] s in
  if (length head =? 8)%nat then Some (groups_value head, rest)
  else if (head_ipv4 : bool) then None
  else
    '(_, rest) ← read_given_char ":" rest;
    '(_, rest) ← read_given_char ":" rest;
    let '(tail, _, rest) := read_groups 0 (8 - (length head + 1)) [] rest in
    Some (groups_value (head ++ replicate (8 - length head - length tail) 0 ++ tail), rest).

(** [IpAddr::from_str]: an IPv4 address, else an IPv6 address, to the end. *)
Definition parse_ip (s : string) : option IpAddr :=
  let r := match read_ipv4_addr s with
           | Some (v, rest) => Some (IpV4 v, rest)
           | None => prod_map IpV6 id <$> read_ipv6_addr s
           end in
  match r with Some (ip, "") => Some ip | _ => None end.

Example parse_ip_examples :
  parse_ip "192.168.1.10" = Some (IpV4 3232235786) ∧ parse_ip "192.168.01.10" = None ∧
  parse_ip "256.1.1.1" = None ∧ parse_ip "::" = Some (IpV6 0) ∧
  parse_ip "2001:db8::1" = Some (IpV6 42540766411282592856903984951653826561) ∧
  parse_ip "::ffff:10.0.0.1" = Some (IpV6 281470849515521) ∧ parse_ip "1::2::3" = None ∧
  parse_ip "1:2:3:4:5:6:7:8" = Some (IpV6 5192455318486707404433266433261576) ∧
  parse_ip "1:2:3:4:5:6:7::8" = None ∧ parse_ip "1.2.3.4 " = None.
Proof. by vm_compute. Qed.

(** ** Lemmas *)

Lemma string_app_cons c (a b : string) : String c a +:+ b = String c (a +:+ b).
Proof. done. Qed.

Lemma string_app_assoc (a b c : string) : (a +:+ b) +:+ c = a +:+ (b +:+ c).
Proof. induction a as [|x a IH]; [done|]. exact (f_equal (String x) IH). Qed.

Lemma string_rev_app_spec s acc :
  string_rev_app s acc = string_rev s +:+ acc.
Proof.
  unfold string_rev. revert acc. induction s as [|c s IH]; intros acc; cbn; [done|].
  rewrite IH, (IH (String c "")). by rewrite string_app_assoc.
Qed.

(** Printing then parsing a number. *)
Lemma dec_digits_app fuel n acc :
  dec_digits fuel n acc = dec_digits fuel n "" +:+ acc.
Proof.
  revert n acc. induction fuel as [|fuel IH]; intros n acc; cbn; [done|].
  case_match; [done|]. rewrite IH, (IH _ (String _ "")). by rewrite string_app_assoc.
Qed.

Lemma to_digit_dec d : 0 ≤ d < 10 → to_digit 10 (ascii_of_N (Z.to_N (48 + d))) = Some d.
Proof.
  intros Hd.
  assert (d = 0 ∨ d = 1 ∨ d = 2 ∨ d = 3 ∨ d = 4 ∨ d = 5 ∨ d = 6 ∨ d = 7 ∨ d = 8 ∨ d = 9)
    as Hc by lia.
  by repeat destruct Hc as [->|Hc]; [..|subst].
Qed.

Lemma parse_digits_app max acc s t :
  parse_digits max acc (s +:+ t) =
    (a ← parse_digits max acc s; parse_digits max a t).
Proof.
  revert acc. induction s as [|c s IH]; intros acc; [done|].
  rewrite string_app_cons. cbn. destruct (to_digit 10 c); [|done]. destruct (checked_mul _ _ _); [|done].
  destruct (checked_add _ _ _); [|done]. apply IH.
Qed.

Lemma parse_dec_digits max fuel n :
  0 ≤ n ≤ max → n < 2 ^ Z.of_nat fuel → parse_digits max 0 (dec_digits fuel n "") = Ok n.
Proof.
  revert n. induction fuel as [|fuel IH]; intros n Hn Hf.
  - cbn in *. f_equal. lia.
  - assert (0 ≤ n mod 10 < 10) as Hm by (apply Z.mod_pos_bound; lia).
    pose proof (Z.div_mod n 10 ltac:(lia)) as Hdiv.
    cbn. destruct (Z.ltb_spec n 10).
    + cbn. rewrite to_digit_dec by done. unfold checked_mul, checked_add. cbn.
      rewrite Z.mod_small by lia. rewrite !(proj2 (Z.leb_le _ _)) by lia. done.
    + rewrite dec_digits_app, parse_digits_app, IH; cbn.
      * rewrite to_digit_dec by done. unfold checked_mul, checked_add.
        rewrite (proj2 (Z.leb_le (n / 10 * 10) max)) by lia.
        rewrite (proj2 (Z.leb_le (_ + _) max)) by lia. f_equal. lia.
      * lia.
      * rewrite Nat2Z.inj_succ, Z.pow_succ_r in Hf by lia. lia.
Qed.

Lemma dec_digits_head fuel n c s :
  (0 < fuel)%nat → 0 ≤ n → dec_digits fuel n "" = String c s →
  Ascii.eqb c "+" = false ∧ Ascii.eqb c "-" = false.
Proof.
  assert (∀ d, 0 ≤ d < 10 → Ascii.eqb (ascii_of_N (Z.to_N (48 + d))) "+" = false ∧
    Ascii.eqb (ascii_of_N (Z.to_N (48 + d))) "-" = false) as Hd.
  { intros d Hd.
    assert (d = 0 ∨ d = 1 ∨ d = 2 ∨ d = 3 ∨ d = 4 ∨ d = 5 ∨ d = 6 ∨ d = 7 ∨ d = 8 ∨ d = 9)
      as Hc by lia. by repeat destruct Hc as [->|Hc]; [..|subst]. }
  intros Hf Hn.
  assert (∀ m, 0 ≤ m → 0 ≤ m mod 10 < 10) as Hmod by (intros; apply Z.mod_pos_bound; lia).
  cut (∀ acc, (∃ c' s', acc = String c' s' ∧ Ascii.eqb c' "+" = false ∧ Ascii.eqb c' "-" = false) ∨
    (0 < fuel)%nat → dec_digits fuel n acc = String c s →
    Ascii.eqb c "+" = false ∧ Ascii.eqb c "-" = false); [eauto|]. clear Hf.
  revert n Hn. induction fuel as [|fuel IH]; intros n Hn acc Hacc; cbn.
  - destruct Hacc as [(c' & s' & -> & ? & ?)|?]; [by intros [= <- _]|lia].
  - case_match; [intros [= <- _]; by apply Hd, Hmod|].
    apply IH; [by apply Z.div_pos|]. left. eexists _, _. split; [done|]. by apply Hd, Hmod.
Qed.

Lemma parse_to_dec max n : 0 ≤ n ≤ max → parse_uint max (to_dec n) = Ok n.
Proof.
  intros Hn. unfold to_dec.
  assert (n < 2 ^ Z.of_nat (S (Z.to_nat (Z.log2 n)))) as Hlt.
  { rewrite Nat2Z.inj_succ, Z2Nat.id by apply Z.log2_nonneg.
    destruct (decide (n = 0)) as [->|]; [done|]. apply Z.log2_spec. lia. }
  pose proof (parse_dec_digits max _ n Hn Hlt) as Hp.
  destruct (dec_digits _ n "") as [|c s] eqn:E.
  - exfalso. cbn in E. case_match; [done|]. rewrite dec_digits_app in E.
    by destruct (dec_digits _ _ _).
  - apply dec_digits_head in E as [E1 E2]; [|lia..].
    unfold parse_uint. rewrite E1, E2. cbn. by destruct s.
Qed.
