(* ===== verification/Common.v ===== *)
(** * Shared primitives (crates/nexus-common/src)

    Timestamps and clocks ([time.rs]), validated identifiers ([id.rs]) and the
    shared error codes ([error.rs]). *)

From S2P Require Import Prelude RustStr.

Open Scope string_scope.
Open Scope list_scope.
Open Scope Z_scope.

(** ** Timestamps ([time.rs])

    A [UnixTimestamp] is its [u64] of seconds; a [std::time::Duration] is its
    number of nanoseconds. *)

Definition UnixTimestamp_EPOCH : Z := 0.
Definition UnixTimestamp_MAX : Z := u64_max.

Definition Duration_from_secs (s : Z) : Z := s * 1000000000.
Definition Duration_from_millis (ms : Z) : Z := ms * 1000000.
Definition Duration_as_secs (d : Z) : Z := d / 1000000000.
Definition Duration_as_millis (d : Z) : Z := d / 1000000.

Definition timestamp_from_millis (millis : Z) : Z := millis / 1000.
Definition timestamp_from_micros (micros : Z) : Z := micros / 1000000.
Definition timestamp_as_millis (t : Z) : Z := saturating_mul u64_max t 1000.
Definition timestamp_as_micros (t : Z) : Z := saturating_mul u128_max t 1000000.
Definition timestamp_as_nanos (t : Z) : Z := saturating_mul u128_max t 1000000000.

Definition timestamp_saturating_add (t d : Z) : Z :=
  saturating_add u64_max t (Duration_as_secs d).
Definition timestamp_saturating_add_secs (t s : Z) : Z := saturating_add u64_max t s.
Definition timestamp_saturating_sub (t d : Z) : Z := saturating_sub t (Duration_as_secs d).
Definition timestamp_saturating_sub_secs (t s : Z) : Z := saturating_sub t s.
Definition timestamp_saturating_duration_since (t earlier : Z) : Z :=
  Duration_from_secs (saturating_sub t earlier).
Definition timestamp_checked_duration_since (t earlier : Z) : option Z :=
  if earlier <=? t then Some (Duration_from_secs (t - earlier)) else None.
Definition timestamp_checked_add (t d : Z) : option Z :=
  checked_add u64_max t (Duration_as_secs d).
Definition timestamp_checked_sub (t d : Z) : option Z := checked_sub t (Duration_as_secs d).

(** The operators [+], [-] on timestamps use the plain [u64] operators. *)
Definition timestamp_add (bld : build) (t d : Z) : option Z :=
  plain bld 64 (t + Duration_as_secs d).
Definition timestamp_sub (bld : build) (t d : Z) : option Z :=
  plain bld 64 (t - Duration_as_secs d).
Definition timestamp_sub_timestamp (bld : build) (t u : Z) : option Z :=
  Duration_from_secs <$> plain bld 64 (t - u).

(** [Display] and [FromStr]. *)
Definition timestamp_display (t : Z) : string := to_dec t.
Definition timestamp_from_str (s : string) : result IntErrorKind Z := parse_uint u64_max s.

(** A [SystemTime] is its number of nanoseconds after the epoch, negative before it.  The
    addition panics beyond the last second [max] that the platform can represent. *)
Definition timestamp_try_from_system (time : Z) : option Z :=
  if 0 <=? time then Some (Duration_as_secs time) else None.
Definition timestamp_to_system (max t : Z) : option Z :=
  if t <=? max then Some (UnixTimestamp_EPOCH + Duration_from_secs t) else None.

(** ** Clocks *)

(** The trait [Clock], with its provided method. *)
Class Clock (T : Type) := {
  clock_now : T → Z;
  clock_now_millis : T → Z
}.

(** The system clock sees the time since the epoch in nanoseconds, or that the
    host's clock is before the epoch ([Err] of [duration_since]). *)
Record SystemClock := mkSystemClock { sc_since_epoch : option Z }.
#[global] Instance SystemClock_clock : Clock SystemClock := {
  clock_now c := match sc_since_epoch c with
                 | Some d => Duration_as_secs d | None => UnixTimestamp_EPOCH end;
  clock_now_millis c := match sc_since_epoch c with
                        | Some d => Z.min (Duration_as_millis d) u64_max | None => 0 end
}.

Record MockClock := mkMockClock { mc_now_millis : Z }.
Definition MockClock_new (initial : Z) : MockClock := mkMockClock (timestamp_as_millis initial).
Definition MockClock_from_secs (secs : Z) : MockClock := MockClock_new secs.
Definition MockClock_from_millis (millis : Z) : MockClock := mkMockClock millis.
Definition MockClock_advance (c : MockClock) (d : Z) : MockClock :=
  let delta := Z.min (Duration_as_millis d) u64_max in
  mkMockClock (saturating_add u64_max (mc_now_millis c) delta).
Definition MockClock_advance_secs (c : MockClock) (secs : Z) : MockClock :=
  MockClock_advance c (Duration_from_secs secs).
Definition MockClock_advance_millis (c : MockClock) (millis : Z) : MockClock :=
  MockClock_advance c (Duration_from_millis millis).
Definition MockClock_set (c : MockClock) (t : Z) : MockClock :=
  mkMockClock (timestamp_as_millis t).
Definition MockClock_set_millis (c : MockClock) (millis : Z) : MockClock := mkMockClock millis.
#[global] Instance MockClock_clock : Clock MockClock := {
  clock_now c := timestamp_from_millis (mc_now_millis c);
  clock_now_millis c := mc_now_millis c
}.

(** ** Identifiers ([id.rs]) *)

Definition MAX_ID_LEN : Z := 128.

Inductive IdError :=
  | Id_Empty
  | Id_TooLong (max actual : Z)
  | Id_InvalidCharacter (c offset : Z).

(** The code point of the character a well-formed UTF-8 string starts with. *)
Definition first_char (s : string) : Z :=
  let b i := match String.get i s with Some c => code c | None => 0 end in
  let tail i := Z.land (b i) 63 in
  if b 0%nat <? 128 then b 0%nat
  else if b 0%nat <? 224 then Z.land (b 0%nat) 31 * 64 + tail 1%nat
  else if b 0%nat <? 240
       then Z.land (b 0%nat) 15 * 4096 + tail 1%nat * 64 + tail 2%nat
  else Z.land (b 0%nat) 7 * 262144 + tail 1%nat * 4096 + tail 2%nat * 64 + tail 3%nat.

(** [c.is_ascii() && !c.is_ascii_control()] for the first byte of a character. *)
Definition printable (c : ascii) : bool := (32 <=? code c) && (code c <? 127).

(** The loop over [char_indices]: every character before the first offending
    one is ASCII, hence one byte long. *)
Fixpoint check_chars (offset : Z) (s : string) : result IdError unit :=
  match s with
  | "" => Ok tt
  | String c r =>
      if printable c then check_chars (offset + 1) r
      else Err (Id_InvalidCharacter (first_char s) offset)
  end.

Definition validate_id (s : string) : result IdError unit :=
  if str_is_empty s then Err Id_Empty else
  if MAX_ID_LEN <? str_len s then Err (Id_TooLong MAX_ID_LEN (str_len s)) else
  check_chars 0 s.

(** [$name::new] of [define_id!]: the newtypes share one representation, a
    validated string. *)
Definition Id_new (s : string) : result IdError string := _ ← validate_id s; Ok s.
(** The two halves of serde; [None] is a value that is not a string, and the error of the
    format carries the one of the identifier. *)
Definition Id_serialize (id : string) : string := id.
Definition Id_deserialize (value : option string) : result (option IdError) string :=
  match value with None => Err None | Some s => map_err Some (Id_new s) end.

(** ** Error codes ([error.rs]) *)

Inductive ErrorCode :=
  | Code_Unauthenticated | Code_PermissionDenied | Code_NotFound | Code_AlreadyExists
  | Code_InvalidArgument | Code_DeadlineExceeded | Code_Conflict
  | Code_ResourceExhausted | Code_Internal | Code_Unavailable | Code_NotSupported.
#[global] Instance ErrorCode_eq_dec : EqDecision ErrorCode.
Proof. solve_decision. Defined.

Definition ErrorCode_as_str (c : ErrorCode) : string :=
  match c with
  | Code_Unauthenticated => "unauthenticated"
  | Code_PermissionDenied => "permission_denied"
  | Code_NotFound => "not_found"
  | Code_AlreadyExists => "already_exists"
  | Code_InvalidArgument => "invalid_argument"
  | Code_DeadlineExceeded => "deadline_exceeded"
  | Code_Conflict => "conflict"
  | Code_ResourceExhausted => "resource_exhausted"
  | Code_Internal => "internal"
  | Code_Unavailable => "unavailable"
  | Code_NotSupported => "not_supported"
  end.

(** [ParseErrorCodeError] carries the input. *)
Definition normalize_code (s : string) : string :=
  remove_chars ["_"; "-"]%char (to_ascii_lowercase (trim s)).

Definition ErrorCode_from_str (s : string) : result string ErrorCode :=
  let normalized := normalize_code s in
  if str_eqb normalized "unauthenticated" then Ok Code_Unauthenticated else
  if str_eqb normalized "permissiondenied" then Ok Code_PermissionDenied else
  if str_eqb normalized "notfound" then Ok Code_NotFound else
  if str_eqb normalized "alreadyexists" then Ok Code_AlreadyExists else
  if str_eqb normalized "invalidargument" then Ok Code_InvalidArgument else
  if str_eqb normalized "deadlineexceeded" then Ok Code_DeadlineExceeded else
  if str_eqb normalized "conflict" then Ok Code_Conflict else
  if str_eqb normalized "resourceexhausted" then Ok Code_ResourceExhausted else
  if str_eqb normalized "internal" then Ok Code_Internal else
  if str_eqb normalized "unavailable" then Ok Code_Unavailable else
  if str_eqb normalized "notsupported" then Ok Code_NotSupported else
  Err s.

Record CommonError := mkCommonError { ce_code : ErrorCode; ce_message : string }.
Definition CommonError_new (code : ErrorCode) (message : string) : CommonError :=
  mkCommonError code message.
(** [Display], derived from the format ["{code}: {message}"]. *)
Definition CommonError_display (e : CommonError) : string :=
  ErrorCode_as_str (ce_code e) +:+ ": " +:+ ce_message e.

(** The kinds of [std::io::Error] the conversion distinguishes. *)
Inductive IoErrorKind :=
  | Io_NotFound | Io_PermissionDenied | Io_AlreadyExists | Io_InvalidInput
  | Io_InvalidData | Io_TimedOut | Io_ConnectionRefused | Io_ConnectionReset
  | Io_ConnectionAborted | Io_NotConnected | Io_AddrInUse | Io_AddrNotAvailable
  | Io_BrokenPipe | Io_Unsupported | Io_Other.

Definition CommonError_from_io (kind : IoErrorKind) (text : string) : CommonError :=
  let code := match kind with
    | Io_NotFound => Code_NotFound
    | Io_PermissionDenied => Code_PermissionDenied
    | Io_AlreadyExists => Code_AlreadyExists
    | Io_InvalidInput | Io_InvalidData => Code_InvalidArgument
    | Io_TimedOut => Code_DeadlineExceeded
    | Io_ConnectionRefused | Io_ConnectionReset | Io_ConnectionAborted
    | Io_NotConnected | Io_AddrInUse | Io_AddrNotAvailable
    | Io_BrokenPipe => Code_Unavailable
    | Io_Unsupported => Code_NotSupported
    | Io_Other => Code_Internal
    end in
  CommonError_new code text.

(** ** Theorems *)

Lemma duration_secs s : Duration_as_secs (Duration_from_secs s) = s.
Proof. unfold Duration_as_secs, Duration_from_secs. by rewrite Z.div_mul. Qed.

(** Timestamp arithmetic: where the result is representable the plain,
    checked and saturating additions and subtractions agree in every build;
    where it is not, the checked form answers [None], the saturating form the
    bound, and the plain operators panic in debug builds.  [checked_sub] undoes
    [checked_add], and a duration between timestamps leads back to the later. *)
Theorem timestamp_arithmetic bld t d u :
  uint 64 t → 0 ≤ d → uint 64 u →
  (if decide (uint 64 (t + Duration_as_secs d))
   then timestamp_add bld t d = timestamp_checked_add t d ∧
        timestamp_checked_add t d = Some (timestamp_saturating_add t d) ∧
        (timestamp_checked_add t d ≫= λ s, timestamp_checked_sub s d) = Some t
   else timestamp_add Debug t d = None ∧ timestamp_checked_add t d = None ∧
        timestamp_saturating_add t d = UnixTimestamp_MAX) ∧
  (if decide (uint 64 (t - Duration_as_secs d))
   then timestamp_sub bld t d = timestamp_checked_sub t d ∧
        timestamp_checked_sub t d = Some (timestamp_saturating_sub t d)
   else timestamp_sub Debug t d = None ∧ timestamp_checked_sub t d = None ∧
        timestamp_saturating_sub t d = UnixTimestamp_EPOCH) ∧
  (∀ e, timestamp_checked_duration_since t u = Some e →
     u ≤ t ∧ timestamp_saturating_duration_since t u = e ∧
     timestamp_checked_add u e = Some t ∧ timestamp_sub_timestamp bld t u = Some e) ∧
  (timestamp_checked_duration_since t u = None →
     t < u ∧ timestamp_saturating_duration_since t u = 0).
Proof.
  intros [Ht0 Ht] Hd [Hu0 Hu].
  assert (0 ≤ Duration_as_secs d) as Hs by (by apply Z.div_pos).
  unfold timestamp_add, timestamp_sub, timestamp_checked_add, timestamp_checked_sub,
    timestamp_saturating_add, timestamp_saturating_sub, timestamp_checked_duration_since,
    timestamp_saturating_duration_since, timestamp_sub_timestamp, plain, checked_add,
    checked_sub, saturating_add, saturating_sub, UnixTimestamp_MAX, UnixTimestamp_EPOCH,
    u64_max, uint in *. change (2 ^ 64) with 18446744073709551616 in *.
  split_and!.
  - repeat case_decide; repeat case_match; cbn; try lia; split_and!; try lia; f_equal; try lia.
    case_match; [f_equal|]; lia.
  - repeat case_decide; repeat case_match; try lia; split_and!; try lia; f_equal; lia.
  - intros e. case_match eqn:E; [|done]. intros [= <-]. rewrite duration_secs.
    split_and!; [lia|f_equal; lia|case_match; [f_equal|]; lia|].
    rewrite decide_True by lia. done.
  - case_match eqn:E; [done|]. intros _. split; [lia|]. unfold Duration_from_secs. lia.
Qed.

Lemma timestamp_arithmetic_witness :
  timestamp_checked_add 5 (Duration_from_secs 7) = Some 12 ∧
  timestamp_checked_duration_since 12 5 = Some (Duration_from_secs 7) ∧
  timestamp_saturating_duration_since 12 5 = Duration_from_secs 7.
Proof.
  destruct (timestamp_arithmetic Debug 12 (Duration_from_secs 7) 5) as (_ & _ & H & _);
    [done|by vm_compute|done|].
  destruct (H (Duration_from_secs 7)) as (_ & H1 & H2 & _); [by vm_compute|].
  split; [exact H2|split; [by vm_compute|exact H1]].
Defined.

(** Printing a timestamp and parsing it back gives the timestamp. *)
Theorem timestamp_display_parse t :
  uint 64 t → timestamp_from_str (timestamp_display t) = Ok t.
Proof.
  unfold uint. intros. apply parse_to_dec. unfold u64_max.
  change (2 ^ 64) with 18446744073709551616 in *. lia.
Qed.

Lemma timestamp_display_parse_witness :
  timestamp_from_str (timestamp_display 1700000000) = Ok 1700000000.
Proof. by apply timestamp_display_parse. Defined.

(** The bytes of an identifier. *)
Definition bytes_of (s : string) : list ascii := String.list_ascii_of_string s.

Lemma check_chars_spec offset s :
  match check_chars offset s with
  | Ok _ => Forall printable (bytes_of s)
  | Err e => ∃ pre c post, bytes_of s = pre ++ c :: post ∧
      Forall printable pre ∧ printable c = false ∧
      ∃ r, bytes_of r = c :: post ∧ e = Id_InvalidCharacter (first_char r) (offset + len pre)
  end.
Proof.
  revert offset. induction s as [|c s IH]; intros offset; [by constructor|].
  cbn. destruct (printable c) eqn:E; cbn.
  - specialize (IH (offset + 1)). destruct (check_chars (offset + 1) s) as [_|e].
    + constructor; [by rewrite E|done].
    + destruct IH as (pre & d & post & Hs & Hpre & Hd & r & Hr & ->).
      exists (c :: pre), d, post. unfold bytes_of in *. cbn. rewrite Hs. split_and!; try done.
      * constructor; [by rewrite E|done].
      * exists r. split; [done|]. rewrite len_cons. f_equal. lia.
  - exists [], c, (bytes_of s). split_and!; try done. exists (String c s).
    split; [done|]. f_equal. unfold len. cbn. lia.
Qed.

(** Identifier validation: an identifier is accepted exactly when it has
    between 1 and 128 bytes, all of them printable ASCII; the error names the
    violated rule, and for a bad character the first one, with its offset. *)
Theorem validate_id_spec s :
  match Id_new s with
  | Ok id => id = s ∧ 1 ≤ str_len s ≤ 128 ∧ Forall printable (bytes_of s)
  | Err Id_Empty => s = ""
  | Err (Id_TooLong max actual) => max = 128 ∧ actual = str_len s ∧ 128 < str_len s
  | Err (Id_InvalidCharacter c offset) =>
      ∃ pre b post, bytes_of s = pre ++ b :: post ∧ Forall printable pre ∧
        printable b = false ∧ offset = len pre ∧
        ∃ r, bytes_of r = b :: post ∧ c = first_char r
  end.
Proof.
  unfold Id_new, validate_id. rewrite str_is_empty_len. unfold MAX_ID_LEN.
  assert (0 ≤ str_len s) by (unfold str_len; lia).
  destruct (Z.eqb_spec (str_len s) 0) as [E|E]; cbn; [by destruct s|].
  destruct (Z.ltb_spec 128 (str_len s)); cbn; [done|].
  pose proof (check_chars_spec 0 s) as Hc. destruct (check_chars 0 s) as [u|e]; cbn.
  - split_and!; done || lia.
  - destruct Hc as (pre & b & post & ? & ? & ? & r & ? & ->).
    exists pre, b, post. split_and!; try done. by exists r.
Qed.

(** Error codes: [as_str] followed by [from_str] gives the code back, and
    a string parses to a code exactly when it is the code's name up to
    surrounding white space, ASCII case, underscores and hyphens; any other
    string is returned in the error. *)
Theorem error_code_from_str_spec s c :
  ErrorCode_from_str (ErrorCode_as_str c) = Ok c ∧
  (ErrorCode_from_str s = Ok c ↔
     normalize_code s = normalize_code (ErrorCode_as_str c)) ∧
  (∀ t, ErrorCode_from_str s = Err t → t = s).
Proof.
  split; [by destruct c|]. unfold ErrorCode_from_str. split.
  - split.
    + intros Hs. str_cases Hs; by simplify_eq.
    + intros ->. by destruct c.
  - intros t. repeat (case_match; [done|]). by intros [= <-].
Qed.

(** Through the system's time and back a timestamp is itself, as far as the platform
    reaches; beyond, the conversion panics.  The way back loses less than a second. *)
Lemma timestamp_system_round_trip max t :
  0 ≤ t →
  (timestamp_to_system max t = None ↔ max < t) ∧
  (∀ time, timestamp_to_system max t = Some time → timestamp_try_from_system time = Some t) ∧
  (∀ time u, timestamp_try_from_system time = Some u → u ≤ max →
     ∃ time', timestamp_to_system max u = Some time' ∧ 0 ≤ time - time' < Duration_from_secs 1).
Proof.
  intros Ht. unfold timestamp_to_system, timestamp_try_from_system, Duration_from_secs, Duration_as_secs, UnixTimestamp_EPOCH.
  split_and!.
  - destruct (Z.leb_spec t max); split; intros; (done || lia).
  - intros time. destruct (Z.leb_spec t max); [|done]. intros [= <-]. rewrite Z.add_0_l.
    destruct (Z.leb_spec 0 (t * 1000000000)); [|lia]. by rewrite Z.div_mul by lia.
  - intros time u. destruct (Z.leb_spec 0 time); [|done]. intros [= <-] Hm.
    destruct (Z.leb_spec (time / 1000000000) max); [|lia]. eexists. split; [done|].
    pose proof (Z.div_mod time 1000000000 ltac:(lia)). pose proof (Z.mod_pos_bound time 1000000000 ltac:(lia)). lia.
Qed.

(** Deserializing accepts exactly the identifiers that serializing writes. *)
Lemma id_deserialize_spec v id :
  Id_deserialize v = Ok id ↔ Id_new id = Ok id ∧ v = Some (Id_serialize id).
Proof.
  unfold Id_deserialize, Id_serialize, Id_new. split.
  - destruct v as [s|]; [|done]. destruct (validate_id s) as [[]|] eqn:E; cbn; [|done]. intros [= <-]. by rewrite E.
  - intros [E ->]. by rewrite E.
Qed.
