(* ===== verification/PolicyModel.v ===== *)
(** * The policy model (crates/nexus-policy/src/action.rs, model.rs)

    Actions and action sets, device label selectors, the ABAC conditions of a
    role, the session restrictions derived from them, and roles. *)

From S2P Require Import Prelude RustStr.

Open Scope string_scope.
Open Scope list_scope.
Open Scope Z_scope.

(** ** Actions *)

Inductive Action :=
  | DesktopView | DesktopControl | ClipboardRead | ClipboardWrite | FileUpload
  | FileDownload | AudioListen | AudioSend | SessionRecord | SessionRequest
  | SessionApprove.

Definition Action_ALL : list Action :=
  [DesktopView; DesktopControl; ClipboardRead; ClipboardWrite; FileUpload; FileDownload;
   AudioListen; AudioSend; SessionRecord; SessionRequest; SessionApprove].

#[global] Instance Action_eq_dec : EqDecision Action.
Proof. solve_decision. Defined.

Definition Action_as_str (a : Action) : string :=
  match a with
  | DesktopView => "desktop.view"
  | DesktopControl => "desktop.control"
  | ClipboardRead => "clipboard.read"
  | ClipboardWrite => "clipboard.write"
  | FileUpload => "file.upload"
  | FileDownload => "file.download"
  | AudioListen => "audio.listen"
  | AudioSend => "audio.send"
  | SessionRecord => "session.record"
  | SessionRequest => "session.request"
  | SessionApprove => "session.approve"
  end.

(** [ActionParseError] carries the input. *)
Definition Action_from_str (s : string) : result string Action :=
  if str_eqb s "desktop.view" then Ok DesktopView else
  if str_eqb s "desktop.control" then Ok DesktopControl else
  if str_eqb s "clipboard.read" then Ok ClipboardRead else
  if str_eqb s "clipboard.write" then Ok ClipboardWrite else
  if str_eqb s "file.upload" then Ok FileUpload else
  if str_eqb s "file.download" then Ok FileDownload else
  if str_eqb s "audio.listen" then Ok AudioListen else
  if str_eqb s "audio.send" then Ok AudioSend else
  if str_eqb s "session.record" then Ok SessionRecord else
  if str_eqb s "session.request" then Ok SessionRequest else
  if str_eqb s "session.approve" then Ok SessionApprove else
  Err s.

Lemma Action_from_as_str a : Action_from_str (Action_as_str a) = Ok a.
Proof. by destruct a. Qed.

(** The discriminant, which is also the derived order. *)
Definition Action_discriminant (a : Action) : nat :=
  match a with
  | DesktopView => 0 | DesktopControl => 1 | ClipboardRead => 2 | ClipboardWrite => 3
  | FileUpload => 4 | FileDownload => 5 | AudioListen => 6 | AudioSend => 7
  | SessionRecord => 8 | SessionRequest => 9 | SessionApprove => 10
  end%nat.
#[global] Program Instance Action_countable : Countable Action :=
  inj_countable' Action_discriminant (λ n, nth n Action_ALL DesktopView) _.
Next Obligation. by intros []. Qed.

(** ** Action sets ([ActionSet] wraps a [BTreeSet<Action>]) *)

Abbreviation ActionSet := (gset Action).

Definition ActionSet_new : ActionSet := ∅.
Definition ActionSet_all : ActionSet := list_to_set Action_ALL.
Definition ActionSet_insert (s : ActionSet) (a : Action) : bool * ActionSet :=
  (bool_decide (a ∉ s), {[a]} ∪ s).
Definition ActionSet_remove (s : ActionSet) (a : Action) : bool * ActionSet :=
  (bool_decide (a ∈ s), s ∖ {[a]}).
Definition ActionSet_contains (s : ActionSet) (a : Action) : bool := bool_decide (a ∈ s).
Definition ActionSet_is_subset (s t : ActionSet) : bool := bool_decide (s ⊆ t).
Definition ActionSet_is_superset (s t : ActionSet) : bool := bool_decide (t ⊆ s).
Definition ActionSet_len (s : ActionSet) : Z := Z.of_nat (size s).
Definition ActionSet_is_empty (s : ActionSet) : bool := bool_decide (s = ∅).
(** The order of the set is the declaration order of the variants. *)
Definition ActionSet_iter (s : ActionSet) : list Action :=
  filter (λ a, a ∈ s) Action_ALL.
Definition ActionSet_from_iter (l : list Action) : ActionSet := list_to_set l.
Definition ActionSet_union (s t : ActionSet) : ActionSet :=
  ActionSet_from_iter (ActionSet_iter (s ∪ t)).
Definition ActionSet_intersection (s t : ActionSet) : ActionSet :=
  ActionSet_from_iter (ActionSet_iter (s ∩ t)).
Definition ActionSet_difference (s t : ActionSet) : ActionSet :=
  ActionSet_from_iter (ActionSet_iter (s ∖ t)).

Lemma Action_ALL_complete a : a ∈ Action_ALL.
Proof. unfold Action_ALL. destruct a; set_solver. Qed.

Lemma from_iter_iter (s : ActionSet) : ActionSet_from_iter (ActionSet_iter s) = s.
Proof.
  unfold ActionSet_from_iter, ActionSet_iter. apply set_eq. intros a.
  rewrite elem_of_list_to_set, list_elem_of_filter.
  pose proof (Action_ALL_complete a). naive_solver.
Qed.

Lemma ActionSet_union_eq s t : ActionSet_union s t = s ∪ t.
Proof. apply from_iter_iter. Qed.
Lemma ActionSet_difference_eq s t : ActionSet_difference s t = s ∖ t.
Proof. apply from_iter_iter. Qed.

(** ** Device label selectors *)

Abbreviation labels := (gmap string string).

Inductive DeviceLabelSelector :=
  | Selector_Wildcard
  | Selector_Exact (key value : string)
  | Selector_MatchAll (labels : labels).

Definition DeviceLabelSelector_new (key value : string) : DeviceLabelSelector :=
  if str_eqb key "*" && str_eqb value "*" then Selector_Wildcard
  else Selector_Exact key value.

(** One key-value pattern against the labels of a device. *)
Definition pair_matches (key value : string) (l : labels) : bool :=
  if str_eqb key "*" && str_eqb value "*" then true
  else if str_eqb value "*" then bool_decide (is_Some (l !! key))
  else if str_eqb key "*" then existsb (λ kv, str_eqb kv.2 value) (map_to_list l)
  else bool_decide (l !! key = Some value).

Definition DeviceLabelSelector_matches (sel : DeviceLabelSelector) (l : labels) : bool :=
  match sel with
  | Selector_Wildcard => true
  | Selector_Exact key value => pair_matches key value l
  | Selector_MatchAll sl => forallb (λ kv, pair_matches kv.1 kv.2 l) (map_to_list sl)
  end.

(** ** Conditions, restrictions and roles *)

Definition DEFAULT_MAX_DURATION_SECONDS : Z := 3600.

Record PolicyConditions := mkPolicyConditions {
  pc_require_mfa : bool;
  pc_managed_client_device : bool;
  pc_clipboard_enabled : bool;
  pc_file_transfer_enabled : bool;
  pc_audio_enabled : bool;
  pc_max_duration_seconds : option Z;
  pc_max_resolution_width : option Z;
  pc_max_resolution_height : option Z;
  pc_allowed_ip_ranges : list string
}.

Definition PolicyConditions_default : PolicyConditions :=
  mkPolicyConditions false false true true true None None None [].

Definition PolicyConditions_max_resolution (c : PolicyConditions) : option (Z * Z) :=
  match pc_max_resolution_width c, pc_max_resolution_height c with
  | Some w, Some h => Some (w, h)
  | _, _ => None
  end.

Record SessionRestrictions := mkSessionRestrictions {
  sr_clipboard_enabled : bool;
  sr_file_transfer_enabled : bool;
  sr_audio_enabled : bool;
  sr_max_duration_seconds : Z;
  sr_max_resolution : option (Z * Z)
}.
#[global] Instance SessionRestrictions_eq_dec : EqDecision SessionRestrictions.
Proof. solve_decision. Defined.

Definition SessionRestrictions_default : SessionRestrictions :=
  mkSessionRestrictions true true true DEFAULT_MAX_DURATION_SECONDS None.

Definition SessionRestrictions_from_conditions (c : PolicyConditions)
    (default_duration_seconds : Z) : SessionRestrictions :=
  let max_duration := match pc_max_duration_seconds c with
                      | Some d => d | None => default_duration_seconds end in
  mkSessionRestrictions (pc_clipboard_enabled c) (pc_file_transfer_enabled c)
    (pc_audio_enabled c) max_duration (PolicyConditions_max_resolution c).

Record Role := mkRole {
  role_name : string;
  role_allowed_actions : ActionSet;
  role_device_label_selectors : list DeviceLabelSelector;
  role_conditions : PolicyConditions
}.

Definition Role_new (name : string) : Role :=
  mkRole name ActionSet_new [] PolicyConditions_default.
Definition Role_with_actions (r : Role) (actions : list Action) : Role :=
  mkRole (role_name r) (ActionSet_from_iter actions) (role_device_label_selectors r)
    (role_conditions r).
Definition Role_with_label_selector (r : Role) (sel : DeviceLabelSelector) : Role :=
  mkRole (role_name r) (role_allowed_actions r) (role_device_label_selectors r ++ [sel])
    (role_conditions r).
Definition Role_with_conditions (r : Role) (c : PolicyConditions) : Role :=
  mkRole (role_name r) (role_allowed_actions r) (role_device_label_selectors r) c.

Definition Role_allows_action (r : Role) (a : Action) : bool :=
  ActionSet_contains (role_allowed_actions r) a.

Definition Role_matches_device (r : Role) (l : labels) : bool :=
  match role_device_label_selectors r with
  | [] => true
  | sels => existsb (λ sel, DeviceLabelSelector_matches sel l) sels
  end.

(** ** What the selectors mean *)

(** A pattern matches when some label of the device fits it, [*] standing for
    anything; the all-wildcard pattern also matches a device with no labels. *)
Definition fits (pattern s : string) : Prop := pattern = "*" ∨ pattern = s.

Definition pair_denotes (key value : string) (l : labels) : Prop :=
  (key = "*" ∧ value = "*") ∨ ∃ k v, l !! k = Some v ∧ fits key k ∧ fits value v.

Definition selector_denotes (sel : DeviceLabelSelector) (l : labels) : Prop :=
  match sel with
  | Selector_Wildcard => True
  | Selector_Exact key value => pair_denotes key value l
  | Selector_MatchAll sl => map_Forall (λ key value, pair_denotes key value l) sl
  end.

Lemma pair_matches_spec key value l :
  pair_matches key value l = true ↔ pair_denotes key value l.
Proof.
  unfold pair_matches, pair_denotes, str_eqb, fits.
  destruct (bool_decide_reflect (key = "*")) as [->|Hk],
    (bool_decide_reflect (value = "*")) as [->|Hv]; cbn.
  - naive_solver.
  - rewrite existsb_exists. split.
    + intros ([k v] & Hin & Hv'%bool_decide_eq_true). cbn in *. subst.
      apply list_elem_of_In, elem_of_map_to_list in Hin. right. eauto 10.
    + intros [[_ ?]|(k & v & Hl & _ & [?|<-])]; [done..|].
      exists (k, value). cbn. rewrite bool_decide_true by done. split; [|done].
      by apply list_elem_of_In, elem_of_map_to_list.
  - rewrite bool_decide_eq_true. split.
    + intros [v ?]. right. eauto 10.
    + intros [[? _]|(k & v & Hl & [?|<-] & _)]; done || eauto.
  - rewrite bool_decide_eq_true. naive_solver.
Qed.

Lemma forallb_map_to_list {A} (P : string → A → bool) (m : gmap string A) :
  forallb (λ kv, P kv.1 kv.2) (map_to_list m) = true ↔ map_Forall (λ k v, P k v = true) m.
Proof.
  rewrite forallb_forall, map_Forall_to_list, Forall_in.
  setoid_rewrite <-list_elem_of_In. split; intros H kv Hkv; specialize (H kv Hkv);
    by destruct kv.
Qed.

Lemma selector_matches_spec sel l :
  DeviceLabelSelector_matches sel l = true ↔ selector_denotes sel l.
Proof.
  destruct sel as [|key value|sl]; cbn; [done|apply pair_matches_spec|].
  rewrite (forallb_map_to_list (λ k v, pair_matches k v l)).
  split; intros H k v Hkv; apply pair_matches_spec, (H k v Hkv).
Qed.

(** A role with no selectors applies everywhere, another where one of its
    selectors does. *)
Lemma role_matches_device_spec r l :
  Role_matches_device r l = true ↔
    role_device_label_selectors r = [] ∨
    ∃ sel, sel ∈ role_device_label_selectors r ∧ selector_denotes sel l.
Proof.
  unfold Role_matches_device.
  assert (existsb (λ sel, DeviceLabelSelector_matches sel l)
    (role_device_label_selectors r) = true ↔
    ∃ sel, sel ∈ role_device_label_selectors r ∧ selector_denotes sel l) as E.
  { rewrite existsb_exists. setoid_rewrite <-list_elem_of_In.
    by setoid_rewrite selector_matches_spec. }
  destruct (role_device_label_selectors r) eqn:Hs.
  - split; [by left|done].
  - rewrite E. split; [by right|]. intros [?|?]; done.
Qed.

(** Device selectors: the matcher decides exactly the denotation, in
    which a star stands for any key or any value of a label of the device, and
    a [MatchAll] selector asks for every one of its pairs; the selector built
    by [new] from two stars is the wildcard. *)
Theorem device_label_selector_matches_spec sel l key value :
  (DeviceLabelSelector_matches sel l = true ↔ selector_denotes sel l) ∧
  (DeviceLabelSelector_matches (DeviceLabelSelector_new key value) l = true ↔
     pair_denotes key value l).
Proof.
  split; [apply selector_matches_spec|]. rewrite <-pair_matches_spec.
  unfold DeviceLabelSelector_new.
  destruct (str_eqb key "*" && str_eqb value "*") eqn:E; [|done].
  unfold pair_matches. by rewrite E.
Qed.

(** Action names: printing then parsing gives the action back, and only
    the canonical name of an action parses to it. *)
Theorem action_from_str_spec s a :
  (Action_from_str s = Ok a ↔ s = Action_as_str a) ∧
  (∀ t, Action_from_str s = Err t → t = s ∧ ∀ b, s ≠ Action_as_str b).
Proof.
  split.
  - split; [|intros ->; apply Action_from_as_str].
    unfold Action_from_str. intros Hs. str_cases Hs; by simplify_eq.
  - intros t Ht. split; [|intros b ->; by rewrite Action_from_as_str in Ht].
    unfold Action_from_str in Ht. str_cases Ht; by simplify_eq.
Qed.
