(* ===== verification/PolicyEngine.v ===== *)
(** * The policy engine (crates/nexus-policy/src/engine.rs)

    IP ranges, the contexts of a request, and [PolicyEngine::evaluate]: control
    exclusivity, role lookup, action, device and attribute checks, and the
    union of the roles that pass. *)

From S2P Require Import Prelude RustStr PolicyModel.

Open Scope string_scope.
Open Scope list_scope.
Open Scope Z_scope.

(** ** IP ranges *)

(** [!0 << (w - prefix)] at width [w]. *)
Definition prefix_mask (w prefix : Z) : Z := wrap w (Z.shiftl (2 ^ w - 1) (w - prefix)).

(** The comparison under the mask, for an address family of [w] bits. *)
Definition in_prefix (w client net prefix : Z) : bool :=
  if w <? prefix then false
  else if prefix =? 0 then true
  else Z.land client (prefix_mask w prefix) =? Z.land net (prefix_mask w prefix).

Definition ip_matches_range (ip : IpAddr) (range_str : string) : bool :=
  let range_str := trim range_str in
  match split_once "/" range_str with
  | Some (cidr_ip_str, prefix_str) =>
      match parse_uint 255 prefix_str with
      | Err _ => false
      | Ok prefix =>
          match ip, parse_ip cidr_ip_str with
          | IpV4 client, Some (IpV4 net) => in_prefix 32 client net prefix
          | IpV6 client, Some (IpV6 net) => in_prefix 128 client net prefix
          | _, _ => false
          end
      end
  | None =>
      match parse_ip range_str with
      | Some exact_ip => bool_decide (ip = exact_ip)
      | None => false
      end
  end.

(** ** Contexts and decisions *)

Record SubjectContext := mkSubjectContext {
  sub_user_id : string;
  sub_roles : list string;
  sub_mfa_authenticated : bool;
  sub_client_device_managed : bool;
  sub_client_ip : option IpAddr
}.

Record ActiveSessionSummary := mkActiveSessionSummary {
  act_session_id : string;
  act_target_device_id : string;
  act_granted_actions : ActionSet;
  act_is_active : bool
}.

Record ResourceContext := mkResourceContext {
  res_target_device_id : string;
  res_device_labels : labels;
  res_active_sessions_on_device : list ActiveSessionSummary
}.

Inductive DenialReason :=
  | Denial_NoMatchingRole
  | Denial_ActionNotAllowed
  | Denial_DeviceNotMatched
  | Denial_MfaRequired
  | Denial_ManagedClientDeviceRequired
  | Denial_IpAddressNotAllowed
  | Denial_ConcurrentControlConflict (active_session_id : string).

Inductive EvaluationDecision :=
  | Allowed (granted_actions : ActionSet) (restrictions : SessionRestrictions)
      (matched_role : string)
  | Denied (reason : DenialReason).

(** ** The engine *)

Record PolicyEngine := mkPolicyEngine { pe_roles : gmap string Role }.

Definition PolicyEngine_add_role (e : PolicyEngine) (role : Role) : PolicyEngine :=
  mkPolicyEngine (<[role_name role := role]> (pe_roles e)).
Definition PolicyEngine_new (roles : list Role) : PolicyEngine :=
  fold_left PolicyEngine_add_role roles (mkPolicyEngine ∅).
Definition PolicyEngine_get_role (e : PolicyEngine) (name : string) : option Role :=
  pe_roles e !! name.

Definition evaluate_role_abac (role : Role) (subject : SubjectContext) :
    result DenialReason unit :=
  let c := role_conditions role in
  if pc_require_mfa c && negb (sub_mfa_authenticated subject)
  then Err Denial_MfaRequired else
  if pc_managed_client_device c && negb (sub_client_device_managed subject)
  then Err Denial_ManagedClientDeviceRequired else
  match pc_allowed_ip_ranges c with
  | [] => Ok tt
  | ranges =>
      match sub_client_ip subject with
      | Some ip =>
          if negb (existsb (ip_matches_range ip) ranges)
          then Err Denial_IpAddressNotAllowed else Ok tt
      | None => Err Denial_IpAddressNotAllowed
      end
  end.

(** The loop of step 5: the roles that pass, and the first failure. *)
Fixpoint abac_loop (subject : SubjectContext) (roles : list Role)
    (matching : list Role) (first_failure : option DenialReason) :
    list Role * option DenialReason :=
  match roles with
  | [] => (matching, first_failure)
  | role :: roles =>
      match evaluate_role_abac role subject with
      | Ok _ => abac_loop subject roles (matching ++ [role]) first_failure
      | Err reason =>
          abac_loop subject roles matching
            (match first_failure with None => Some reason | _ => first_failure end)
      end
  end.

(** [Iterator::max] *)
Definition iter_max (l : list Z) : option Z :=
  match l with [] => None | x :: l => Some (fold_left Z.max l x) end.

Definition role_duration (r : Role) : Z :=
  default DEFAULT_MAX_DURATION_SECONDS (pc_max_duration_seconds (role_conditions r)).

(** The effective restrictions of several matching roles. *)
Definition merged_restrictions (roles : list Role) : SessionRestrictions :=
  let cond f := existsb (λ r, f (role_conditions r)) roles in
  let max_duration := default DEFAULT_MAX_DURATION_SECONDS (iter_max (role_duration <$> roles)) in
  let has_unrestricted_res := existsb (λ r,
    bool_decide (PolicyConditions_max_resolution (role_conditions r) = None)) roles in
  let max_resolution :=
    if has_unrestricted_res then None
    else
      let max_w := iter_max (omap (λ r, pc_max_resolution_width (role_conditions r)) roles) in
      let max_h := iter_max (omap (λ r, pc_max_resolution_height (role_conditions r)) roles) in
      match max_w, max_h with
      | Some w, Some h => Some (w, h)
      | _, _ => None
      end in
  mkSessionRestrictions (cond pc_clipboard_enabled) (cond pc_file_transfer_enabled)
    (cond pc_audio_enabled) max_duration max_resolution.

(** Step 6: the decision for the roles that pass every check. *)
Definition grant (matching_roles : list Role) : EvaluationDecision :=
  match matching_roles with
  | [role] =>
      Allowed (role_allowed_actions role)
        (SessionRestrictions_from_conditions (role_conditions role)
           DEFAULT_MAX_DURATION_SECONDS)
        (role_name role)
  | _ =>
      Allowed
        (fold_left (λ acc r, ActionSet_union acc (role_allowed_actions r))
           matching_roles ActionSet_new)
        (merged_restrictions matching_roles)
        (join "," (role_name <$> matching_roles))
  end.

(** Step 1: the first active session that holds control. *)
Definition control_holder (resource : ResourceContext) : option string :=
  act_session_id <$> head (filter
    (λ s, act_is_active s && ActionSet_contains (act_granted_actions s) DesktopControl)
    (res_active_sessions_on_device resource)).

Definition evaluate (engine : PolicyEngine) (subject : SubjectContext)
    (resource : ResourceContext) (requested_action : Action) : EvaluationDecision :=
  match (if bool_decide (requested_action = DesktopControl)
         then control_holder resource else None) with
  | Some id => Denied (Denial_ConcurrentControlConflict id)
  | None =>
      let assigned_roles := omap (λ name, pe_roles engine !! name) (sub_roles subject) in
      if (length assigned_roles =? 0)%nat then Denied Denial_NoMatchingRole else
      let action_roles := filter (λ r, Role_allows_action r requested_action) assigned_roles in
      if (length action_roles =? 0)%nat then Denied Denial_ActionNotAllowed else
      let device_roles :=
        filter (λ r, Role_matches_device r (res_device_labels resource)) action_roles in
      if (length device_roles =? 0)%nat then Denied Denial_DeviceNotMatched else
      let '(matching_roles, first_abac_failure) := abac_loop subject device_roles [] None in
      if (length matching_roles =? 0)%nat
      then Denied (default Denial_NoMatchingRole first_abac_failure)
      else grant matching_roles
  end.

(** ** What an IP range means *)

Lemma uint_testbit_high w x n : 0 ≤ w → uint w x → w ≤ n → Z.testbit x n = false.
Proof.
  unfold uint. intros Hw Hx Hn. rewrite <-(Z.mod_small x (2 ^ w)) by lia.
  apply Z.mod_pow2_bits_high. lia.
Qed.

(** Masking keeps the high [prefix] bits. *)
Lemma land_prefix_mask w x prefix :
  0 ≤ prefix ≤ w → uint w x →
  Z.land x (prefix_mask w prefix) = x / 2 ^ (w - prefix) * 2 ^ (w - prefix).
Proof.
  intros Hp Hx. rewrite <-Z.shiftl_mul_pow2, <-Z.shiftr_div_pow2 by lia.
  apply Z.bits_inj'. intros n Hn. unfold prefix_mask, wrap.
  rewrite Z.land_spec, Z.shiftl_spec by lia.
  destruct (Z.le_gt_cases w n).
  - rewrite (uint_testbit_high w x n) by (done || lia). cbn.
    rewrite Z.shiftr_spec by lia. rewrite Z.sub_add.
    by rewrite (uint_testbit_high w x n) by (done || lia).
  - rewrite Z.mod_pow2_bits_low by lia. rewrite Z.shiftl_spec by lia.
    replace (2 ^ w - 1) with (Z.ones w) by (rewrite Z.ones_equiv; lia).
    destruct (Z.le_gt_cases (w - prefix) n).
    + rewrite Z.ones_spec_low, andb_true_r, Z.shiftr_spec by lia. f_equal. lia.
    + rewrite (Z.testbit_neg_r (Z.ones w)), (Z.testbit_neg_r (Z.shiftr x _)) by lia.
      apply andb_false_r.
Qed.

Lemma in_prefix_spec w client net prefix :
  0 < w → uint w client → uint w net → 0 ≤ prefix →
  in_prefix w client net prefix = true ↔
    prefix ≤ w ∧ client / 2 ^ (w - prefix) = net / 2 ^ (w - prefix).
Proof.
  intros Hw Hc Hn Hp. unfold in_prefix.
  destruct (Z.ltb_spec w prefix); [split; [done|lia]|].
  destruct (Z.eqb_spec prefix 0) as [->|Hne].
  - rewrite Z.sub_0_r. unfold uint in *. by rewrite !Z.div_small by lia.
  - rewrite Z.eqb_eq, !land_prefix_mask by (done || lia).
    assert (0 < 2 ^ (w - prefix)) by lia. rewrite Z.mul_cancel_r by lia. naive_solver.
Qed.

(** The width of an address family, and the value of an address. *)
Definition ip_width (ip : IpAddr) : Z := match ip with IpV4 _ => 32 | IpV6 _ => 128 end.
Definition ip_value (ip : IpAddr) : Z := match ip with IpV4 v | IpV6 v => v end.
Definition ip_ok (ip : IpAddr) : Prop := uint (ip_width ip) (ip_value ip).

(** Bounds of the readers. *)
Lemma read_number_bound radix n z max s v rest :
  0 ≤ max → 0 ≤ radix → read_number radix n z max s = Some (v, rest) → 0 ≤ v ≤ max.
Proof.
  intros Hmax Hr. unfold read_number.
  assert (∀ c acc s v c' rest, 0 ≤ acc →
    read_digits radix n c acc s = Some (v, c', rest) → 0 ≤ v) as Hd.
  { clear -Hr. intros c acc s. revert c acc.
    induction s as [|a s IH]; cbn; intros c acc v c' rest Hacc; [by intros [= <- _ _]|].
    unfold to_digit. repeat case_match; intros; simplify_eq; try done.
    all: eapply IH; [|done]; lia. }
  destruct (read_digits _ _ _ _ _) as [[[v' c] rest']|] eqn:E; cbn; [|done].
  apply Hd in E; [|done]. repeat case_match; intros; simplify_eq; lia.
Qed.

Lemma read_separator_some {A} sep i (inner : reader A) s r :
  read_separator sep i inner s = Some r → ∃ s', inner s' = Some r.
Proof.
  unfold read_separator. destruct i; [eauto|].
  destruct (read_given_char sep s) as [[]|]; cbn; [eauto|done].
Qed.

Lemma read_octets_bound i n acc k s v rest :
  0 ≤ acc < 256 ^ k → 0 ≤ k → read_octets i n acc s = Some (v, rest) →
  0 ≤ v < 256 ^ (k + Z.of_nat n).
Proof.
  revert i acc k s. induction n as [|n IH]; intros i acc k s Hacc Hk; cbn.
  - rewrite Z.add_0_r. by intros [= <- <-].
  - destruct (read_separator _ _ _ s) as [[o s']|] eqn:E; cbn; [|done].
    apply read_separator_some in E as [s'' E]. apply read_number_bound in E; [|lia..].
    intros H%(IH _ _ (k + 1)); [|rewrite Z.pow_add_r by lia; lia|lia].
    replace (k + Z.of_nat (S n)) with (k + 1 + Z.of_nat n) by lia. done.
Qed.

Lemma read_ipv4_bound s v rest : read_ipv4_addr s = Some (v, rest) → uint 32 v.
Proof. intros H%(read_octets_bound 0 4 0 0 s v rest); [exact H|lia..]. Qed.

Lemma read_groups_bound i n acc s gs b rest :
  Forall (uint 16) acc → read_groups i n acc s = (gs, b, rest) →
  Forall (uint 16) gs ∧ (length acc ≤ length gs ≤ length acc + n)%nat.
Proof.
  revert i acc s. induction n as [|n IH]; intros i acc s Hacc; cbn.
  - intros [= <- _ _]. split; [done|lia].
  - destruct (if (0 <? n)%nat then _ else _) as [[v4 r4]|] eqn:E4.
    + intros ?; simplify_eq. destruct (Nat.ltb_spec 0 n); [|done].
      apply read_separator_some in E4 as [s' Hv]. apply read_ipv4_bound in Hv.
      rewrite length_app. cbn. split; [|lia].
      apply Forall_app. split; [done|]. unfold uint in *. change (2^32) with (65536*65536) in Hv.
      pose proof (Z.mod_pos_bound v4 65536).
      constructor; [split; [apply Z.div_pos|apply Z.div_lt_upper_bound]; lia|].
      constructor; [lia|done].
    + destruct (read_separator _ _ (read_number _ _ _ _) s) as [[g r]|] eqn:E.
      * apply read_separator_some in E as [s' E]. apply read_number_bound in E; [|lia..].
        intros [Hg Hl]%IH.
        -- rewrite length_app in Hl. cbn in Hl. split; [done|lia].
        -- apply Forall_app. split; [done|]. repeat constructor; unfold uint; lia.
      * intros [= <- _ _]. split; [done|lia].
Qed.

Lemma groups_value_bound gs :
  Forall (uint 16) gs → 0 ≤ groups_value gs < 65536 ^ Z.of_nat (length gs).
Proof.
  intros Hg. unfold groups_value.
  assert (∀ acc k, 0 ≤ k → 0 ≤ acc < 65536 ^ k →
    0 ≤ fold_left (λ acc g, acc * 65536 + g) gs acc < 65536 ^ (k + Z.of_nat (length gs)))
    as Hgen; [|by apply (Hgen 0 0)].
  induction Hg as [|g gs Hgb _ IH]; intros acc k Hk Hacc; cbn [fold_left length].
  - by rewrite Z.add_0_r.
  - replace (k + Z.of_nat (S (length gs))) with (k + 1 + Z.of_nat (length gs)) by lia.
    apply IH; [lia|]. unfold uint in Hgb. rewrite Z.pow_add_r by lia. lia.
Qed.

Lemma read_ipv6_bound s v rest : read_ipv6_addr s = Some (v, rest) → uint 128 v.
Proof.
  unfold read_ipv6_addr. destruct (read_groups 0 8 [] s) as [[h b] r] eqn:Eh.
  apply read_groups_bound in Eh as [Hh Hlh]; [|by constructor].
  destruct (Nat.eqb_spec (length h) 8) as [E8|E8].
  - intros [= <- _]. apply groups_value_bound in Hh. by rewrite E8 in Hh.
  - case_match; [done|]. destruct (read_given_char _ _) as [[? r1]|]; cbn; [|done].
    destruct (read_given_char _ r1) as [[? r2]|]; cbn; [|done].
    destruct (read_groups 0 _ [] r2) as [[t b'] r3] eqn:Et.
    apply read_groups_bound in Et as [Ht Hlt]; [|by constructor].
    intros [= <- _]. cbn in *. set (gs := h ++ _).
    assert (length gs = 8%nat) as El
      by (unfold gs; rewrite !length_app, length_replicate; lia).
    assert (Forall (uint 16) gs) as Hgs.
    { unfold gs. rewrite !Forall_app. split_and!; [done| |done]. by apply Forall_replicate. }
    apply groups_value_bound in Hgs. by rewrite El in Hgs.
Qed.

Lemma parse_ip_ok s ip : parse_ip s = Some ip → ip_ok ip.
Proof.
  unfold parse_ip. destruct (read_ipv4_addr s) as [[v r]|] eqn:E4.
  - destruct r; [|done]. intros [= <-]. by eapply read_ipv4_bound.
  - destruct (read_ipv6_addr s) as [[v r]|] eqn:E6; [|done].
    cbn. destruct r; [|done]. intros [= <-]. by eapply read_ipv6_bound.
Qed.

Lemma parse_uint_nonneg max s n : 0 ≤ max → parse_uint max s = Ok n → 0 ≤ n ≤ max.
Proof.
  intros Hmax. assert (∀ s acc, 0 ≤ acc ≤ max → parse_digits max acc s = Ok n → 0 ≤ n ≤ max) as Hd.
  { clear -Hmax. induction s as [|c s IH]; intros acc Hacc; cbn; [by intros [= <-]|].
    assert (∀ d, to_digit 10 c = Some d → 0 ≤ d) as Hdig.
    { intros d. unfold to_digit. repeat case_match; intros; simplify_eq; lia. }
    destruct (to_digit 10 c) as [d|]; [|done]. specialize (Hdig d eq_refl).
    unfold checked_mul, checked_add.
    destruct (Z.leb_spec (acc * 10) max); [|done].
    destruct (Z.leb_spec (acc * 10 + d) max); [|done]. apply IH. lia. }
  unfold parse_uint. destruct s as [|c [|c' s]]; [done| |].
  - case_match; [done|]. by apply Hd.
  - by apply Hd.
Qed.

(** IP ranges: a client address is in a range exactly when the trimmed
    range is that address, or is [net/n] with [net] an address of the same
    family, [n] at most its width, and the two addresses agree on their first
    [n] bits.  Malformed addresses and prefixes match nothing. *)
Theorem ip_matches_range_spec ip range :
  ip_ok ip →
  ip_matches_range ip range = true ↔
  match split_once "/" (trim range) with
  | Some (addr, len) =>
      ∃ net n, parse_ip addr = Some net ∧ parse_uint 255 len = Ok n ∧
        ip_width net = ip_width ip ∧ n ≤ ip_width ip ∧
        ip_value ip / 2 ^ (ip_width ip - n) = ip_value net / 2 ^ (ip_width ip - n)
  | None => parse_ip (trim range) = Some ip
  end.
Proof.
  intros Hip. unfold ip_matches_range. destruct (split_once "/" (trim range)) as [[a p]|].
  - destruct (parse_uint 255 p) as [n|] eqn:En; [|naive_solver].
    apply parse_uint_nonneg in En; [|done].
    destruct (parse_ip a) as [net|] eqn:Ea.
    2:{ split; [by destruct ip|]. intros (? & ? & ? & _). done. }
    apply parse_ip_ok in Ea. unfold ip_ok in *.
    destruct ip as [c|c], net as [m|m]; cbn in *; try naive_solver.
    all: rewrite in_prefix_spec by (done || lia); naive_solver.
  - destruct (parse_ip (trim range)) as [x|]; [|naive_solver].
    rewrite bool_decide_eq_true. naive_solver.
Qed.

Lemma ip_matches_range_spec_witness :
  ip_matches_range (IpV4 3232235786) " 192.168.0.0/16 " = true.
Proof.
  apply ip_matches_range_spec; [done|].
  exists (IpV4 3232235520), 16. by vm_compute.
Defined.
