(* ===== verification/PolicyNarrowing.v ===== *)
(** * Dynamic policy narrowing (crates/nexus-policy/src/narrowing.rs)

    The validator of policy updates pushed to a running session. *)

From S2P Require Import Prelude PolicyModel.

Open Scope string_scope.
Open Scope Z_scope.

Inductive NarrowingError :=
  | Narrowing_ActionEscalationAttempted (unauthorized_actions : ActionSet)
  | Narrowing_RestrictionWidened (reason : string).

Definition validate_policy_narrowing (original_actions proposed_actions : ActionSet)
    (original proposed : SessionRestrictions) : result NarrowingError SessionRestrictions :=
  if negb (ActionSet_is_subset proposed_actions original_actions)
  then Err (Narrowing_ActionEscalationAttempted
              (ActionSet_difference proposed_actions original_actions)) else
  if negb (sr_clipboard_enabled original) && sr_clipboard_enabled proposed
  then Err (Narrowing_RestrictionWidened
              "cannot enable clipboard if originally disabled") else
  if negb (sr_file_transfer_enabled original) && sr_file_transfer_enabled proposed
  then Err (Narrowing_RestrictionWidened
              "cannot enable file transfer if originally disabled") else
  if negb (sr_audio_enabled original) && sr_audio_enabled proposed
  then Err (Narrowing_RestrictionWidened "cannot enable audio if originally disabled") else
  if sr_max_duration_seconds original <? sr_max_duration_seconds proposed
  then Err (Narrowing_RestrictionWidened "cannot extend max session duration") else
  match sr_max_resolution original, sr_max_resolution proposed with
  | Some _, None =>
      Err (Narrowing_RestrictionWidened "cannot remove max resolution constraint")
  | Some (orig_w, orig_h), Some (prop_w, prop_h) =>
      if (orig_w <? prop_w) || (orig_h <? prop_h)
      then Err (Narrowing_RestrictionWidened
                  "cannot increase max resolution width or height")
      else Ok proposed
  | None, _ => Ok proposed
  end.

(** ** Narrowing as an order *)

(** What a session may do under restrictions [r]. *)
Inductive capability :=
  | UseClipboard | TransferFiles | StreamAudio
  | RunFor (seconds : Z)
  | Display (width height : Z).

Definition permits (r : SessionRestrictions) (c : capability) : Prop :=
  match c with
  | UseClipboard => sr_clipboard_enabled r = true
  | TransferFiles => sr_file_transfer_enabled r = true
  | StreamAudio => sr_audio_enabled r = true
  | RunFor s => s ≤ sr_max_duration_seconds r
  | Display w h =>
      match sr_max_resolution r with Some (mw, mh) => w ≤ mw ∧ h ≤ mh | None => True end
  end.

(** [narrows proposed original]: every capability proposed is already held. *)
Definition narrows (proposed original : ActionSet * SessionRestrictions) : Prop :=
  proposed.1 ⊆ original.1 ∧ ∀ c, permits proposed.2 c → permits original.2 c.

#[global] Instance narrows_preorder : PreOrder narrows.
Proof.
  split.
  - intros [a r]. split; [done|auto].
  - intros [a r] [b s] [c t] [H1 H2] [H3 H4]. split; [set_solver|auto].
Qed.

Lemma narrowing_ok_iff oa pa o p :
  validate_policy_narrowing oa pa o p = Ok p ↔ narrows (pa, p) (oa, o).
Proof.
  unfold validate_policy_narrowing, ActionSet_is_subset. split.
  - intros H. destruct (bool_decide_reflect (pa ⊆ oa)) as [Hsub|]; [|done]. cbn in H.
    split; [done|]. cbn.
    destruct o as [oc oft oau od ores], p as [pc pf pau pd pres]; cbn in *.
    destruct oc, pc; try done; destruct oft, pf; try done; destruct oau, pau; try done;
      cbn in H; (destruct (Z.ltb_spec od pd); [done|]); intros []; cbn; try done; try lia.
    all: destruct ores as [[ow oh]|], pres as [[pw ph]|]; try done.
    all: destruct (Z.ltb_spec ow pw), (Z.ltb_spec oh ph); try done; lia.
  - intros [Hsub H]. cbn in *. rewrite bool_decide_true by done. cbn.
    pose proof (H UseClipboard) as H1. pose proof (H TransferFiles) as H2.
    pose proof (H StreamAudio) as H3. pose proof (H (RunFor (sr_max_duration_seconds p))) as H4.
    assert (∀ w h, permits p (Display w h) → permits o (Display w h)) as H5 by auto.
    destruct o as [oc oft oau od ores], p as [pc pf pau pd pres]; cbn in *.
    replace (negb oc && pc) with false by (destruct oc, pc; naive_solver).
    replace (negb oft && pf) with false by (destruct oft, pf; naive_solver).
    replace (negb oau && pau) with false by (destruct oau, pau; naive_solver).
    destruct (Z.ltb_spec od pd); [lia|].
    destruct ores as [[ow oh]|]; [|done]. destruct pres as [[pw ph]|].
    + destruct (H5 pw ph); [lia|]. destruct (Z.ltb_spec ow pw), (Z.ltb_spec oh ph); lia || done.
    + destruct (H5 (ow + 1) oh); [done|]. lia.
Qed.

Lemma narrowing_ok_same oa pa o p r :
  validate_policy_narrowing oa pa o p = Ok r → r = p.
Proof.
  unfold validate_policy_narrowing. repeat case_match; intros; by simplify_eq.
Qed.

(** Narrowing: an update is accepted, unchanged, exactly when every
    action and every capability it allows was allowed before, so accepted
    updates never escalate, and a chain of accepted updates never grants
    anything the first capability did not; an escalation is reported with
    exactly the actions that were not held. *)
Theorem policy_narrowing_sound_complete oa pa qa o p q :
  ((∃ r, validate_policy_narrowing oa pa o p = Ok r ∧ r = p) ↔ narrows (pa, p) (oa, o)) ∧
  (∀ r, validate_policy_narrowing oa pa o p = Ok r →
     validate_policy_narrowing pa qa p q = Ok q → validate_policy_narrowing oa qa o q = Ok q) ∧
  (∀ u, validate_policy_narrowing oa pa o p = Err (Narrowing_ActionEscalationAttempted u) →
     u ≠ ∅ ∧ u = pa ∖ oa).
Proof.
  split_and!.
  - rewrite <-narrowing_ok_iff. naive_solver.
  - intros r Hr. pose proof (narrowing_ok_same _ _ _ _ _ Hr) as ->. revert Hr.
    rewrite !narrowing_ok_iff. intros. by etrans.
  - intros u. unfold validate_policy_narrowing, ActionSet_is_subset.
    destruct (bool_decide_reflect (pa ⊆ oa)) as [|Hn]; cbn [negb].
    + intros H. repeat case_match; simplify_eq.
    + intros [= <-]. rewrite ActionSet_difference_eq. split; [|done].
      intros E. apply Hn. intros a Ha. destruct (decide (a ∈ oa)); [done|].
      assert (a ∈ pa ∖ oa) as Hin by set_solver. rewrite E in Hin. set_solver.
Qed.
