(* ===== verification/PolicyDecision.v ===== *)
(** * What the policy engine decides

    [evaluate] against a declarative reading: which roles of the subject
    authorise a request, what the decision grants, and which reason a denial
    gives. *)

From S2P Require Import Prelude RustStr PolicyModel PolicyEngine PolicyNarrowing.

Open Scope string_scope.
Open Scope list_scope.
Open Scope Z_scope.

(** ** The declarative reading *)

Definition abac_ok (role : Role) (subject : SubjectContext) : Prop :=
  let c := role_conditions role in
  (pc_require_mfa c = true → sub_mfa_authenticated subject = true) ∧
  (pc_managed_client_device c = true → sub_client_device_managed subject = true) ∧
  (pc_allowed_ip_ranges c = [] ∨
   ∃ ip range, sub_client_ip subject = Some ip ∧ range ∈ pc_allowed_ip_ranges c ∧
     ip_matches_range ip range = true).

Definition role_applies (role : Role) (l : labels) : Prop :=
  role_device_label_selectors role = [] ∨
  ∃ sel, sel ∈ role_device_label_selectors role ∧ selector_denotes sel l.

(** A role assigned to the subject that authorises [action] on the device. *)
Definition authorises (engine : PolicyEngine) (subject : SubjectContext)
    (resource : ResourceContext) (action : Action) (role : Role) : Prop :=
  (∃ name, name ∈ sub_roles subject ∧ pe_roles engine !! name = Some role) ∧
  action ∈ role_allowed_actions role ∧
  role_applies role (res_device_labels resource) ∧ abac_ok role subject.

(** Another active session controls the device. *)
Definition controlled (resource : ResourceContext) (id : string) : Prop :=
  ∃ s, s ∈ res_active_sessions_on_device resource ∧ act_session_id s = id ∧
    act_is_active s = true ∧ DesktopControl ∈ act_granted_actions s.

(** ** The stages of [evaluate] *)

Definition assigned engine subject : list Role :=
  omap (λ name, pe_roles engine !! name) (sub_roles subject).
Definition capable engine subject action : list Role :=
  filter (λ r, Role_allows_action r action) (assigned engine subject).
Definition applicable engine subject resource action : list Role :=
  filter (λ r, Role_matches_device r (res_device_labels resource))
    (capable engine subject action).
Definition eligible engine subject resource action : list Role :=
  filter (λ r, is_ok (evaluate_role_abac r subject))
    (applicable engine subject resource action).

(** The first error of a list of checks. *)
Definition first_err {A E B} (f : A → result E B) (l : list A) : option E :=
  head (omap (λ a, match f a with Err e => Some e | Ok _ => None end) l).

Lemma abac_loop_spec subject roles matching failure :
  abac_loop subject roles matching failure =
    (matching ++ filter (λ r, is_ok (evaluate_role_abac r subject)) roles,
     match failure with
     | Some _ => failure
     | None => first_err (λ r, evaluate_role_abac r subject) roles
     end).
Proof.
  revert matching failure. induction roles as [|r roles IH]; intros matching failure.
  - cbn. rewrite app_nil_r. by destruct failure.
  - rewrite filter_cons. cbn [abac_loop]. unfold first_err in *. cbn [omap list_omap].
    destruct (evaluate_role_abac r subject) as [u|e] eqn:E; cbn; rewrite IH.
    + rewrite <-(assoc_L (++)). by destruct failure.
    + by destruct failure.
Qed.

(** [evaluate] as a cascade over the stages. *)
Lemma evaluate_stages engine subject resource action :
  evaluate engine subject resource action =
  match (if bool_decide (action = DesktopControl) then control_holder resource else None) with
  | Some id => Denied (Denial_ConcurrentControlConflict id)
  | None =>
      if decide (assigned engine subject = []) then Denied Denial_NoMatchingRole else
      if decide (capable engine subject action = []) then Denied Denial_ActionNotAllowed else
      if decide (applicable engine subject resource action = [])
      then Denied Denial_DeviceNotMatched else
      if decide (eligible engine subject resource action = [])
      then Denied (default Denial_NoMatchingRole
        (first_err (λ r, evaluate_role_abac r subject) (applicable engine subject resource action)))
      else grant (eligible engine subject resource action)
  end.
Proof.
  assert (∀ (l : list Role) (d e : EvaluationDecision),
    (if (length l =? 0)%nat then d else e) = if decide (l = []) then d else e) as Hif.
  { by intros []. }
  unfold evaluate. destruct (if bool_decide _ then _ else _); [done|]. cbn zeta.
  rewrite abac_loop_spec. cbn [app fst snd]. rewrite !Hif. done.
Qed.

Lemma existsb_in {A} (f : A → bool) l : existsb f l = true ↔ ∃ x, x ∈ l ∧ f x = true.
Proof. rewrite existsb_exists. by setoid_rewrite <-list_elem_of_In. Qed.

Lemma abac_ok_spec role subject :
  is_ok (evaluate_role_abac role subject) = true ↔ abac_ok role subject.
Proof.
  unfold evaluate_role_abac, abac_ok.
  set (c := role_conditions role).
  assert (is_ok (match pc_allowed_ip_ranges c with
    | [] => Ok tt
    | ranges =>
        match sub_client_ip subject with
        | Some ip => if negb (existsb (ip_matches_range ip) ranges)
                     then Err Denial_IpAddressNotAllowed else Ok tt
        | None => Err Denial_IpAddressNotAllowed
        end
    end) = true ↔ (pc_allowed_ip_ranges c = [] ∨
     ∃ ip range, sub_client_ip subject = Some ip ∧ range ∈ pc_allowed_ip_ranges c ∧
       ip_matches_range ip range = true)) as Hip.
  { destruct (pc_allowed_ip_ranges c) as [|range ranges]; [naive_solver|].
    destruct (sub_client_ip subject) as [ip|]; [|naive_solver].
    pose proof (existsb_in (ip_matches_range ip) (range :: ranges)).
    destruct (existsb (ip_matches_range ip) (range :: ranges)); cbn; naive_solver. }
  destruct (pc_require_mfa c), (sub_mfa_authenticated subject),
    (pc_managed_client_device c), (sub_client_device_managed subject); cbn;
    rewrite ?Hip; naive_solver.
Qed.

Lemma eligible_spec engine subject resource action role :
  role ∈ eligible engine subject resource action ↔
    authorises engine subject resource action role.
Proof.
  unfold eligible, applicable, capable, assigned, authorises, role_applies.
  rewrite !list_elem_of_filter, list_elem_of_omap, !Is_true_true, abac_ok_spec,
    role_matches_device_spec.
  unfold Role_allows_action, ActionSet_contains. rewrite bool_decide_eq_true. naive_solver.
Qed.

Lemma control_holder_spec resource id :
  control_holder resource = Some id → controlled resource id.
Proof.
  unfold control_holder. set (l := filter _ _). intros H.
  destruct l as [|s l'] eqn:E; [done|]. cbn in H. injection H as <-.
  assert (s ∈ l) as Hs by (rewrite E; set_solver).
  apply list_elem_of_filter in Hs as [Hs Hin]. apply Is_true_true, andb_true_iff in Hs as [Ha Hc].
  exists s. apply bool_decide_eq_true in Hc. done.
Qed.

Lemma control_holder_none resource :
  control_holder resource = None ↔ ∀ id, ¬ controlled resource id.
Proof.
  split.
  - unfold control_holder. set (l := filter _ _). intros H id (s & Hin & _ & Ha & Hc).
    assert (s ∈ l) as Hs.
    { apply list_elem_of_filter. split; [|done]. rewrite Ha. cbn. by apply bool_decide_pack. }
    destruct l; [set_solver|done].
  - intros H. destruct (control_holder resource) as [id|] eqn:E; [|done].
    by apply control_holder_spec, H in E.
Qed.

(** ** What is granted *)

Lemma iter_max_spec l m : iter_max l = Some m → m ∈ l ∧ ∀ x, x ∈ l → x ≤ m.
Proof.
  destruct l as [|a l]; [done|]. cbn. intros [= <-]. revert a.
  induction l as [|b l IH]; intros a; cbn; [set_solver by lia|].
  destruct (IH (Z.max a b)) as [Hin Hle]. split.
  - destruct (Z.max_spec a b) as [[_ E]|[_ E]]; rewrite E in *; set_solver.
  - intros x Hx. pose proof (Hle (Z.max a b) ltac:(set_solver)).
    rewrite !elem_of_cons in Hx. destruct Hx as [->|[->|Hx]]; [lia..|].
    apply Hle. set_solver.
Qed.

Lemma iter_max_none l : iter_max l = None ↔ l = [].
Proof. by destruct l. Qed.

Definition union_actions (roles : list Role) : ActionSet := ⋃ (role_allowed_actions <$> roles).

Lemma fold_union roles acc :
  fold_left (λ acc r, ActionSet_union acc (role_allowed_actions r)) roles acc =
    acc ∪ union_actions roles.
Proof.
  revert acc. induction roles as [|r roles IH]; intros acc; cbn [fold_left].
  - unfold union_actions. cbn. by rewrite (right_id_L ∅ (∪)).
  - rewrite IH, ActionSet_union_eq. unfold union_actions. rewrite fmap_cons. cbn.
    by rewrite (assoc_L (∪)).
Qed.

(** The shortcut for a single role computes the general merge. *)
Lemma grant_merged roles :
  roles ≠ [] →
  grant roles = Allowed (union_actions roles) (merged_restrictions roles)
                  (join "," (role_name <$> roles)).
Proof.
  intros Hne. destruct roles as [|r [|r' roles]]; [done| |].
  - cbn. unfold union_actions, merged_restrictions, SessionRestrictions_from_conditions,
      role_duration, PolicyConditions_max_resolution. cbn. rewrite !orb_false_r. f_equal.
    + by rewrite (right_id_L ∅ (∪)).
    + destruct (pc_max_resolution_width _), (pc_max_resolution_height _); cbn;
        f_equal; by destruct (pc_max_duration_seconds _).
  - unfold grant. rewrite fold_union. unfold ActionSet_new. by rewrite (left_id_L ∅ (∪)).
Qed.

(** The merged restrictions are the loosest among the roles: a feature is
    enabled when a role enables it, the duration is the longest, and a
    resolution limit remains only when every role has one, each side then being
    the largest of the roles. *)
Record loosest (roles : list Role) (sr : SessionRestrictions) : Prop := {
  lo_clipboard : sr_clipboard_enabled sr = true ↔
    ∃ r, r ∈ roles ∧ pc_clipboard_enabled (role_conditions r) = true;
  lo_file_transfer : sr_file_transfer_enabled sr = true ↔
    ∃ r, r ∈ roles ∧ pc_file_transfer_enabled (role_conditions r) = true;
  lo_audio : sr_audio_enabled sr = true ↔
    ∃ r, r ∈ roles ∧ pc_audio_enabled (role_conditions r) = true;
  lo_duration_max : ∀ r, r ∈ roles → role_duration r ≤ sr_max_duration_seconds sr;
  lo_duration_some : ∃ r, r ∈ roles ∧ role_duration r = sr_max_duration_seconds sr;
  lo_unlimited : sr_max_resolution sr = None ↔
    ∃ r, r ∈ roles ∧ PolicyConditions_max_resolution (role_conditions r) = None;
  lo_resolution : ∀ w h, sr_max_resolution sr = Some (w, h) →
    (∀ r, r ∈ roles → ∃ rw rh,
       PolicyConditions_max_resolution (role_conditions r) = Some (rw, rh) ∧ rw ≤ w ∧ rh ≤ h) ∧
    (∃ r, r ∈ roles ∧ pc_max_resolution_width (role_conditions r) = Some w) ∧
    (∃ r, r ∈ roles ∧ pc_max_resolution_height (role_conditions r) = Some h)
}.

Lemma max_resolution_some c :
  PolicyConditions_max_resolution c ≠ None →
  ∃ w h, PolicyConditions_max_resolution c = Some (w, h) ∧
    pc_max_resolution_width c = Some w ∧ pc_max_resolution_height c = Some h.
Proof.
  unfold PolicyConditions_max_resolution.
  destruct (pc_max_resolution_width c), (pc_max_resolution_height c); naive_solver.
Qed.

(** The largest value of a field every role has. *)
Lemma omap_max_spec {A} (f : A → option Z) l :
  l ≠ [] → (∀ x, x ∈ l → is_Some (f x)) →
  ∃ m, iter_max (omap f l) = Some m ∧ (∃ x, x ∈ l ∧ f x = Some m) ∧
    ∀ x v, x ∈ l → f x = Some v → v ≤ m.
Proof.
  intros Hne Hall. destruct (iter_max (omap f l)) as [m|] eqn:E.
  - exists m. apply iter_max_spec in E as [Hin Hle]. rewrite list_elem_of_omap in Hin.
    split_and!; [done|done|]. intros x v Hx Hv. apply Hle, list_elem_of_omap. eauto.
  - apply iter_max_none in E. destruct l as [|x l]; [done|].
    destruct (Hall x) as [v Hv]; [set_solver|]. cbn in E. by rewrite Hv in E.
Qed.

Lemma merged_loosest roles : roles ≠ [] → loosest roles (merged_restrictions roles).
Proof.
  intros Hne.
  set (unl := existsb (λ r,
    bool_decide (PolicyConditions_max_resolution (role_conditions r) = None)) roles).
  assert (unl = true ↔ ∃ r, r ∈ roles ∧
    PolicyConditions_max_resolution (role_conditions r) = None) as Hunl.
  { unfold unl. rewrite existsb_in. by setoid_rewrite bool_decide_eq_true. }
  destruct (omap_max_spec (λ r, Some (role_duration r)) roles Hne) as (m & Em & Hm & Hmax);
    [eauto|].
  assert (iter_max (role_duration <$> roles) = Some m) as Em'.
  { rewrite <-Em. by f_equal. }
  split; cbn; rewrite ?existsb_in, ?Em'; try done; cbn.
  - intros r Hr. by eapply Hmax.
  - destruct Hm as (r & ? & ?). exists r. naive_solver.
  - fold unl. rewrite <-Hunl. destruct unl eqn:Eu; [done|]. split; [|done].
    assert (∀ r, r ∈ roles → ∃ w h, pc_max_resolution_width (role_conditions r) = Some w ∧
      pc_max_resolution_height (role_conditions r) = Some h) as Hall.
    { intros r Hr. destruct (max_resolution_some (role_conditions r)) as (w & h & _ & ?); [|eauto].
      intros Hn. naive_solver. }
    destruct (omap_max_spec (λ r, pc_max_resolution_width (role_conditions r)) roles Hne)
      as (w & -> & _); [naive_solver|].
    destruct (omap_max_spec (λ r, pc_max_resolution_height (role_conditions r)) roles Hne)
      as (h & -> & _); [naive_solver|]. done.
  - intros w h. fold unl. destruct unl eqn:Eu; [done|].
    assert (∀ r, r ∈ roles → ∃ w h,
      PolicyConditions_max_resolution (role_conditions r) = Some (w, h) ∧
      pc_max_resolution_width (role_conditions r) = Some w ∧
      pc_max_resolution_height (role_conditions r) = Some h) as Hall.
    { intros r Hr. apply max_resolution_some. intros Hn. naive_solver. }
    destruct (omap_max_spec (λ r, pc_max_resolution_width (role_conditions r)) roles Hne)
      as (w' & -> & Hw & Hwm); [naive_solver|].
    destruct (omap_max_spec (λ r, pc_max_resolution_height (role_conditions r)) roles Hne)
      as (h' & -> & Hh & Hhm); [naive_solver|].
    intros [= <- <-]. split_and!; [|done|done].
    intros r Hr. destruct (Hall r Hr) as (rw & rh & E & E1 & E2). eauto 10.
Qed.

(** ** The decision *)

Lemma evaluate_denied_or_granted engine subject resource action :
  let blocked := action = DesktopControl ∧ ∃ id, controlled resource id in
  let roles := eligible engine subject resource action in
  (blocked ∨ roles = [] → ∃ reason, evaluate engine subject resource action = Denied reason) ∧
  (¬ blocked → roles ≠ [] → evaluate engine subject resource action =
     Allowed (union_actions roles) (merged_restrictions roles)
       (join "," (role_name <$> roles))).
Proof.
  intros blocked roles. rewrite evaluate_stages. fold roles. split.
  - intros Hb. destruct (bool_decide_reflect (action = DesktopControl)) as [->|Hne].
    + destruct (control_holder resource) eqn:E; [eauto|].
      rewrite control_holder_none in E.
      destruct Hb as [[_ [id Hid]]|Hr]; [by apply E in Hid|]. repeat case_decide; eauto; done.
    + destruct Hb as [[? _]|Hr]; [done|]. repeat case_decide; eauto; done.
  - intros Hnb Hr.
    replace (if bool_decide (action = DesktopControl) then control_holder resource else None)
      with (None : option string); cycle 1.
    { case_bool_decide; [|done]. symmetry. apply control_holder_none. intros id Hid.
      apply Hnb. split; [done|eauto]. }
    assert (∀ l : list Role, l = [] → roles ⊆ l → False) as Hsub.
    { intros l -> Hs. destruct roles as [|r rs]; [done|].
      apply (not_elem_of_nil r), Hs. set_solver. }
    rewrite !decide_False, grant_merged; [done..|done| | |].
    + intros E. apply (Hsub _ E). intros r. unfold roles, eligible.
      rewrite list_elem_of_filter. tauto.
    + intros E. apply (Hsub _ E). intros r. unfold roles, eligible, applicable.
      rewrite !list_elem_of_filter. tauto.
    + intros E. apply (Hsub _ E). intros r. unfold roles, eligible, applicable, capable.
      rewrite !list_elem_of_filter. tauto.
Qed.

Lemma evaluate_allowed_roles engine subject resource action g r m :
  evaluate engine subject resource action = Allowed g r m →
  let roles := eligible engine subject resource action in
  ¬ (action = DesktopControl ∧ ∃ id, controlled resource id) ∧ roles ≠ [] ∧
  g = union_actions roles ∧ r = merged_restrictions roles ∧ m = join "," (role_name <$> roles).
Proof.
  intros E roles.
  destruct (evaluate_denied_or_granted engine subject resource action) as [Hden Hgr].
  assert (¬ (action = DesktopControl ∧ ∃ id, controlled resource id)) as Hnb.
  { intros Hb. destruct Hden as [reason Hd]; [by left|congruence]. }
  assert (roles ≠ []) as Hne.
  { intros Hr. destruct Hden as [reason Hd]; [by right|congruence]. }
  rewrite (Hgr Hnb Hne) in E. by injection E as <- <- <-.
Qed.

Lemma eligible_nonempty engine subject resource action :
  eligible engine subject resource action ≠ [] ↔
    ∃ role, authorises engine subject resource action role.
Proof.
  split.
  - intros Hne. destruct (eligible _ _ _ _) as [|role l] eqn:E; [done|].
    exists role. apply eligible_spec. rewrite E. set_solver.
  - intros [role Hr]. apply eligible_spec in Hr. intros E. rewrite E in Hr. set_solver.
Qed.

Lemma elem_of_union_actions a roles :
  a ∈ union_actions roles ↔ ∃ role, role ∈ roles ∧ a ∈ role_allowed_actions role.
Proof.
  unfold union_actions. rewrite elem_of_union_list. setoid_rewrite list_elem_of_fmap.
  naive_solver.
Qed.

(** C3. A request is allowed exactly when no other active session holds
    control of the device (if control is what is requested) and one of the
    subject's roles is known to the engine, allows the action, applies to the
    device and has its MFA, managed-device and IP conditions met. *)
Theorem evaluate_allowed_iff engine subject resource action :
  (∃ g r m, evaluate engine subject resource action = Allowed g r m) ↔
    ¬ (action = DesktopControl ∧ ∃ id, controlled resource id) ∧
    ∃ role, authorises engine subject resource action role.
Proof.
  rewrite <-eligible_nonempty. split.
  - intros (g & r & m & E). by apply evaluate_allowed_roles in E as (? & ? & _).
  - intros [Hnb Hne]. destruct (evaluate_denied_or_granted engine subject resource action)
      as [_ Hgr]. eauto.
Qed.

(** What an allowed request grants: the requested action and exactly the
    actions of the roles that authorise it, under the loosest of their
    restrictions, in the name of those roles. *)
Theorem evaluate_grants engine subject resource action g r m :
  evaluate engine subject resource action = Allowed g r m →
  action ∈ g ∧
  ∃ roles, (∀ role, role ∈ roles ↔ authorises engine subject resource action role) ∧
    (∀ a, a ∈ g ↔ ∃ role, role ∈ roles ∧ a ∈ role_allowed_actions role) ∧
    loosest roles r ∧ m = join "," (role_name <$> roles).
Proof.
  intros (_ & Hne & -> & -> & ->)%evaluate_allowed_roles.
  set (roles := eligible engine subject resource action) in *. split.
  - apply eligible_nonempty in Hne as [role Hr]. apply elem_of_union_actions.
    exists role. split; [by apply eligible_spec|apply Hr].
  - exists roles. split_and!; [apply eligible_spec|intros a; apply elem_of_union_actions| |done].
    by apply merged_loosest.
Qed.

Definition sample_role : Role :=
  Role_with_label_selector (Role_with_actions (Role_new "helpdesk") [DesktopView; DesktopControl])
    (DeviceLabelSelector_new "env" "*").
Definition sample_engine : PolicyEngine := PolicyEngine_new [sample_role].
Definition sample_subject : SubjectContext :=
  mkSubjectContext "alice" ["helpdesk"] true true None.
Definition sample_resource : ResourceContext :=
  mkResourceContext "device-1" {["env" := "prod"]}
    [mkActiveSessionSummary "session-1" "device-1" {[DesktopView; DesktopControl]} true].

Lemma evaluate_grants_witness :
  DesktopView ∈ (({[DesktopView; DesktopControl]} : ActionSet)).
Proof.
  apply (evaluate_grants sample_engine sample_subject sample_resource DesktopView
    {[DesktopView; DesktopControl]} SessionRestrictions_default "helpdesk").
  vm_compute. reflexivity.
Defined.

(** Control exclusivity guards the request for control only: viewing a device
    that another session controls grants the whole role, control included. *)
Example view_request_grants_control :
  evaluate sample_engine sample_subject sample_resource DesktopControl =
    Denied (Denial_ConcurrentControlConflict "session-1") ∧
  evaluate sample_engine sample_subject sample_resource DesktopView =
    Allowed {[DesktopView; DesktopControl]} SessionRestrictions_default "helpdesk".
Proof. split; vm_compute; reflexivity. Qed.

(** ** Denials *)

(** The roles of the subject the engine knows. *)
Definition assigned_role engine subject role : Prop :=
  ∃ name, name ∈ sub_roles subject ∧ pe_roles engine !! name = Some role.

(** An assigned role that allows the action on the device, conditions aside. *)
Definition candidate engine subject resource action role : Prop :=
  assigned_role engine subject role ∧ action ∈ role_allowed_actions role ∧
  role_applies role (res_device_labels resource).

Lemma elem_of_assigned engine subject role :
  role ∈ assigned engine subject ↔ assigned_role engine subject role.
Proof. apply list_elem_of_omap. Qed.

Lemma elem_of_capable engine subject action role :
  role ∈ capable engine subject action ↔
    assigned_role engine subject role ∧ action ∈ role_allowed_actions role.
Proof.
  unfold capable, Role_allows_action, ActionSet_contains.
  rewrite list_elem_of_filter, Is_true_true, bool_decide_eq_true, elem_of_assigned. tauto.
Qed.

Lemma elem_of_applicable engine subject resource action role :
  role ∈ applicable engine subject resource action ↔
    candidate engine subject resource action role.
Proof.
  unfold applicable, candidate, role_applies.
  rewrite list_elem_of_filter, Is_true_true, elem_of_capable, role_matches_device_spec. tauto.
Qed.

Lemma nonempty_elem {A} (l : list A) : l ≠ [] → ∃ x, x ∈ l.
Proof. destruct l; [done|]. intros _. eexists. by left. Qed.

Lemma first_err_in {A E B} (f : A → result E B) l e :
  first_err f l = Some e → ∃ a, a ∈ l ∧ f a = Err e.
Proof.
  unfold first_err. intros H. destruct (omap _ l) as [|x xs] eqn:Eo; [done|].
  cbn in H. injection H as ->.
  assert (e ∈ omap (λ a, match f a with Err e => Some e | Ok _ => None end) l) as Hin
    by (rewrite Eo; set_solver).
  apply list_elem_of_omap in Hin as (a & ? & Ha). exists a. split; [done|].
  by destruct (f a); simplify_eq.
Qed.

Lemma first_err_none {A E B} (f : A → result E B) l :
  first_err f l = None → ∀ a, a ∈ l → is_ok (f a) = true.
Proof.
  intros H a Ha. destruct (f a) as [b|e] eqn:Ef; [done|]. exfalso.
  unfold first_err in H. destruct (omap _ l) as [|x xs] eqn:Eo; [|done].
  assert (e ∈ ([] : list E)) as Hin; [|set_solver]. rewrite <-Eo, list_elem_of_omap.
  exists a. by rewrite Ef.
Qed.

(** What each reason says of the request. *)
Definition reason_holds engine subject resource action (reason : DenialReason) : Prop :=
  match reason with
  | Denial_ConcurrentControlConflict id =>
      action = DesktopControl ∧ controlled resource id
  | Denial_NoMatchingRole => ∀ role, ¬ assigned_role engine subject role
  | Denial_ActionNotAllowed =>
      (∃ role, assigned_role engine subject role) ∧
      ∀ role, assigned_role engine subject role → action ∉ role_allowed_actions role
  | Denial_DeviceNotMatched =>
      (∃ role, assigned_role engine subject role ∧ action ∈ role_allowed_actions role) ∧
      ∀ role, ¬ candidate engine subject resource action role
  | Denial_MfaRequired =>
      ∃ role, candidate engine subject resource action role ∧
        pc_require_mfa (role_conditions role) = true ∧ sub_mfa_authenticated subject = false
  | Denial_ManagedClientDeviceRequired =>
      ∃ role, candidate engine subject resource action role ∧
        pc_managed_client_device (role_conditions role) = true ∧
        sub_client_device_managed subject = false
  | Denial_IpAddressNotAllowed =>
      ∃ role, candidate engine subject resource action role ∧
        pc_allowed_ip_ranges (role_conditions role) ≠ [] ∧
        ∀ ip range, sub_client_ip subject = Some ip →
          range ∈ pc_allowed_ip_ranges (role_conditions role) →
          ip_matches_range ip range = false
  end.

Lemma abac_failure_holds engine subject resource action role e :
  candidate engine subject resource action role →
  evaluate_role_abac role subject = Err e →
  reason_holds engine subject resource action e.
Proof.
  intros Hc. unfold evaluate_role_abac.
  destruct (pc_require_mfa _ && _) eqn:E1.
  { intros [= <-]. bool_hyps. exists role. auto. }
  destruct (pc_managed_client_device _ && _) eqn:E2.
  { intros [= <-]. bool_hyps. exists role. auto. }
  destruct (pc_allowed_ip_ranges (role_conditions role)) as [|x l] eqn:El; [done|].
  rewrite <-El. destruct (sub_client_ip subject) as [ip|] eqn:Eip.
  - destruct (existsb _ _) eqn:Ex; [done|]. intros [= <-]. exists role.
    split_and!; [done|by rewrite El|]. intros ip' range [= <-]%(eq_trans (eq_sym Eip)) Hr.
    destruct (ip_matches_range ip range) eqn:Em; [|done].
    assert (existsb (ip_matches_range ip) (pc_allowed_ip_ranges (role_conditions role)) = true)
      by (apply existsb_in; eauto). congruence.
  - intros [= <-]. exists role. split_and!; [done|by rewrite El|congruence].
Qed.

(** Denials tell the truth: the reason of a denied request holds of the
    request, and the reasons are tried in the order conflict, role, action,
    device, conditions, each implying that the earlier checks passed. *)
Theorem evaluate_denied_reason engine subject resource action reason :
  evaluate engine subject resource action = Denied reason →
  reason_holds engine subject resource action reason.
Proof.
  rewrite evaluate_stages. intros H.
  destruct (if bool_decide _ then _ else _) as [id|] eqn:Ec.
  { injection H as <-. case_bool_decide; [|done]. split; [done|]. by apply control_holder_spec. }
  destruct (decide (assigned engine subject = [])) as [Ea|Ea].
  { injection H as <-. intros role Hr. apply elem_of_assigned in Hr. rewrite Ea in Hr. set_solver. }
  destruct (decide (capable engine subject action = [])) as [Eb|Eb].
  { injection H as <-. split.
    - apply nonempty_elem in Ea as [role Hr]. exists role. by apply elem_of_assigned.
    - intros role Hr Hact. assert (role ∈ capable engine subject action) as Hin
        by by apply elem_of_capable. rewrite Eb in Hin. set_solver. }
  destruct (decide (applicable engine subject resource action = [])) as [Ed|Ed].
  { injection H as <-. split.
    - apply nonempty_elem in Eb as [role Hr]. exists role. by apply elem_of_capable.
    - intros role Hr. apply elem_of_applicable in Hr. rewrite Ed in Hr. set_solver. }
  destruct (decide (eligible engine subject resource action = [])) as [Ee|Ee].
  - injection H as <-. destruct (first_err _ _) as [e|] eqn:Ef; cbn.
    + apply first_err_in in Ef as (role & Hr & Hf). eapply abac_failure_holds; [|exact Hf].
      by apply elem_of_applicable.
    + exfalso. apply nonempty_elem in Ed as [role Hr].
      apply (first_err_none _ _ Ef) in Hr as Hok.
      assert (role ∈ eligible engine subject resource action) as Hin
        by (apply list_elem_of_filter; split; [by apply Is_true_true|done]).
      rewrite Ee in Hin. set_solver.
  - by rewrite grant_merged in H.
Qed.

Lemma evaluate_denied_reason_witness :
  reason_holds sample_engine sample_subject sample_resource DesktopControl
    (Denial_ConcurrentControlConflict "session-1").
Proof. apply evaluate_denied_reason. vm_compute. reflexivity. Defined.

