(* ===== verification/PolicyBuild.v ===== *)
(** * Building policies and requests (crates/nexus-policy/src/model.rs, engine.rs, action.rs)

    The builders of selectors, conditions, roles, subjects, resources and engines, the
    conversions of action sets and the accessors of a decision; and how the builders move
    the decisions of the engine. *)

From S2P Require Import Prelude RustStr PolicyModel PolicyEngine PolicyNarrowing PolicyDecision.

Open Scope string_scope.
Open Scope list_scope.
Open Scope Z_scope.

(** ** Action sets *)

Definition ActionSet_clear (_ : ActionSet) : ActionSet := ∅.
Definition ActionSet_extend (s : ActionSet) (l : list Action) : ActionSet :=
  fold_left (λ s a, snd (ActionSet_insert s a)) l s.

(** ** Selectors *)

Definition DeviceLabelSelector_wildcard : DeviceLabelSelector := Selector_Wildcard.
Definition DeviceLabelSelector_exact (key value : string) : DeviceLabelSelector := Selector_Exact key value.
(** Of two pairs with a key the later one stays in the map. *)
Definition DeviceLabelSelector_match_all (labels : list (string * string)) : DeviceLabelSelector :=
  Selector_MatchAll (fold_left (λ m '(k, v), <[k := v]> m) labels ∅).
Definition selector_from_pair (kv : string * string) : DeviceLabelSelector :=
  DeviceLabelSelector_new (fst kv) (snd kv).
Definition selector_from_map (labels : labels) : DeviceLabelSelector := Selector_MatchAll labels.

(** ** Conditions *)

Definition with_require_mfa (c : PolicyConditions) (b : bool) : PolicyConditions :=
  mkPolicyConditions b (pc_managed_client_device c) (pc_clipboard_enabled c) (pc_file_transfer_enabled c)
    (pc_audio_enabled c) (pc_max_duration_seconds c) (pc_max_resolution_width c)
    (pc_max_resolution_height c) (pc_allowed_ip_ranges c).
Definition with_managed_client_device (c : PolicyConditions) (b : bool) : PolicyConditions :=
  mkPolicyConditions (pc_require_mfa c) b (pc_clipboard_enabled c) (pc_file_transfer_enabled c)
    (pc_audio_enabled c) (pc_max_duration_seconds c) (pc_max_resolution_width c)
    (pc_max_resolution_height c) (pc_allowed_ip_ranges c).
Definition with_clipboard_enabled (c : PolicyConditions) (b : bool) : PolicyConditions :=
  mkPolicyConditions (pc_require_mfa c) (pc_managed_client_device c) b (pc_file_transfer_enabled c)
    (pc_audio_enabled c) (pc_max_duration_seconds c) (pc_max_resolution_width c)
    (pc_max_resolution_height c) (pc_allowed_ip_ranges c).
Definition with_file_transfer_enabled (c : PolicyConditions) (b : bool) : PolicyConditions :=
  mkPolicyConditions (pc_require_mfa c) (pc_managed_client_device c) (pc_clipboard_enabled c) b
    (pc_audio_enabled c) (pc_max_duration_seconds c) (pc_max_resolution_width c)
    (pc_max_resolution_height c) (pc_allowed_ip_ranges c).
Definition with_audio_enabled (c : PolicyConditions) (b : bool) : PolicyConditions :=
  mkPolicyConditions (pc_require_mfa c) (pc_managed_client_device c) (pc_clipboard_enabled c)
    (pc_file_transfer_enabled c) b (pc_max_duration_seconds c) (pc_max_resolution_width c)
    (pc_max_resolution_height c) (pc_allowed_ip_ranges c).
Definition with_max_duration_seconds (c : PolicyConditions) (d : option Z) : PolicyConditions :=
  mkPolicyConditions (pc_require_mfa c) (pc_managed_client_device c) (pc_clipboard_enabled c)
    (pc_file_transfer_enabled c) (pc_audio_enabled c) d (pc_max_resolution_width c)
    (pc_max_resolution_height c) (pc_allowed_ip_ranges c).
Definition with_max_resolution (c : PolicyConditions) (width height : option Z) : PolicyConditions :=
  mkPolicyConditions (pc_require_mfa c) (pc_managed_client_device c) (pc_clipboard_enabled c)
    (pc_file_transfer_enabled c) (pc_audio_enabled c) (pc_max_duration_seconds c) width height
    (pc_allowed_ip_ranges c).
Definition with_allowed_ip_ranges (c : PolicyConditions) (ranges : list string) : PolicyConditions :=
  mkPolicyConditions (pc_require_mfa c) (pc_managed_client_device c) (pc_clipboard_enabled c)
    (pc_file_transfer_enabled c) (pc_audio_enabled c) (pc_max_duration_seconds c)
    (pc_max_resolution_width c) (pc_max_resolution_height c) ranges.
Definition with_allowed_ip_range (c : PolicyConditions) (range : string) : PolicyConditions :=
  with_allowed_ip_ranges c (pc_allowed_ip_ranges c ++ [range]).

(** ** Roles *)

Definition Role_with_action (r : Role) (a : Action) : Role :=
  mkRole (role_name r) (snd (ActionSet_insert (role_allowed_actions r) a)) (role_device_label_selectors r)
    (role_conditions r).
Definition Role_with_label_selectors (r : Role) (sels : list DeviceLabelSelector) : Role :=
  mkRole (role_name r) (role_allowed_actions r) (role_device_label_selectors r ++ sels) (role_conditions r).

(** ** Requests *)

Definition SubjectContext_new (user_id : string) : SubjectContext := mkSubjectContext user_id [] false false None.
Definition with_role (s : SubjectContext) (role : string) : SubjectContext :=
  mkSubjectContext (sub_user_id s) (sub_roles s ++ [role]) (sub_mfa_authenticated s)
    (sub_client_device_managed s) (sub_client_ip s).
Definition with_roles (s : SubjectContext) (roles : list string) : SubjectContext :=
  mkSubjectContext (sub_user_id s) (sub_roles s ++ roles) (sub_mfa_authenticated s)
    (sub_client_device_managed s) (sub_client_ip s).
Definition with_mfa (s : SubjectContext) (b : bool) : SubjectContext :=
  mkSubjectContext (sub_user_id s) (sub_roles s) b (sub_client_device_managed s) (sub_client_ip s).
Definition with_client_device_managed (s : SubjectContext) (b : bool) : SubjectContext :=
  mkSubjectContext (sub_user_id s) (sub_roles s) (sub_mfa_authenticated s) b (sub_client_ip s).
Definition with_client_ip (s : SubjectContext) (ip : option IpAddr) : SubjectContext :=
  mkSubjectContext (sub_user_id s) (sub_roles s) (sub_mfa_authenticated s) (sub_client_device_managed s) ip.

Definition ActiveSessionSummary_new (session_id target_device_id : string) (granted : list Action)
    (is_active : bool) : ActiveSessionSummary :=
  mkActiveSessionSummary session_id target_device_id (ActionSet_from_iter granted) is_active.

Definition ResourceContext_new (target_device_id : string) : ResourceContext :=
  mkResourceContext target_device_id ∅ [].
Definition with_label (r : ResourceContext) (key value : string) : ResourceContext :=
  mkResourceContext (res_target_device_id r) (<[key := value]> (res_device_labels r))
    (res_active_sessions_on_device r).
Definition with_labels (r : ResourceContext) (l : list (string * string)) : ResourceContext :=
  fold_left (λ r '(k, v), with_label r k v) l r.
Definition with_active_session (r : ResourceContext) (s : ActiveSessionSummary) : ResourceContext :=
  mkResourceContext (res_target_device_id r) (res_device_labels r) (res_active_sessions_on_device r ++ [s]).
Definition with_active_sessions (r : ResourceContext) (l : list ActiveSessionSummary) : ResourceContext :=
  mkResourceContext (res_target_device_id r) (res_device_labels r) (res_active_sessions_on_device r ++ l).

(** ** Decisions *)

Definition is_allowed (d : EvaluationDecision) : bool := match d with Allowed _ _ _ => true | Denied _ => false end.
Definition is_denied (d : EvaluationDecision) : bool := match d with Denied _ => true | _ => false end.
Definition denial_reason (d : EvaluationDecision) : option DenialReason :=
  match d with Denied r => Some r | _ => None end.
Definition decision_granted_actions (d : EvaluationDecision) : option ActionSet :=
  match d with Allowed g _ _ => Some g | _ => None end.
Definition decision_restrictions (d : EvaluationDecision) : option SessionRestrictions :=
  match d with Allowed _ r _ => Some r | _ => None end.
Definition matched_role (d : EvaluationDecision) : option string :=
  match d with Allowed _ _ m => Some m | _ => None end.

(** ** Engines *)

Definition PolicyEngine_with_role (e : PolicyEngine) (role : Role) : PolicyEngine := PolicyEngine_add_role e role.
Definition role_count (e : PolicyEngine) : Z := Z.of_nat (size (pe_roles e)).

(** ** How requests and policies order *)

(** [s'] carries at least the evidence of [s]. *)
Record stronger (s s' : SubjectContext) : Prop := {
  st_roles : sub_roles s ⊆ sub_roles s';
  st_mfa : sub_mfa_authenticated s = true → sub_mfa_authenticated s' = true;
  st_managed : sub_client_device_managed s = true → sub_client_device_managed s' = true;
  st_ip : sub_client_ip s = None ∨ sub_client_ip s' = sub_client_ip s
}.
(** [r'] is the same device, controlled at most when [r] is. *)
Record freer (r r' : ResourceContext) : Prop := {
  fr_labels : res_device_labels r' = res_device_labels r;
  fr_control : ∀ id, controlled r' id → ∃ id', controlled r id'
}.
(** [r] demands at least what [r'] does and gives at most what [r'] gives. *)
Record tighter (r r' : Role) : Prop := {
  ti_actions : role_allowed_actions r ⊆ role_allowed_actions r';
  ti_applies : ∀ l, role_applies r l → role_applies r' l;
  ti_abac : ∀ s, abac_ok r s → abac_ok r' s;
  ti_clipboard : pc_clipboard_enabled (role_conditions r) = true → pc_clipboard_enabled (role_conditions r') = true;
  ti_file_transfer :
    pc_file_transfer_enabled (role_conditions r) = true → pc_file_transfer_enabled (role_conditions r') = true;
  ti_audio : pc_audio_enabled (role_conditions r) = true → pc_audio_enabled (role_conditions r') = true;
  ti_duration : role_duration r ≤ role_duration r';
  ti_resolution : ∀ w' h', PolicyConditions_max_resolution (role_conditions r') = Some (w', h') →
    ∃ w h, PolicyConditions_max_resolution (role_conditions r) = Some (w, h) ∧ w ≤ w' ∧ h ≤ h'
}.
(** Every role of [e] is, under its name, a tightening of one of [e']. *)
Definition narrower (e e' : PolicyEngine) : Prop :=
  ∀ name role, pe_roles e !! name = Some role → ∃ role', pe_roles e' !! name = Some role' ∧ tighter role role'.

#[global] Instance stronger_preorder : PreOrder stronger.
Proof.
  split.
  - intros s. split; auto.
  - intros s1 s2 s3 [? ? ? H1] [? ? ? H2]. split; [set_solver|auto..|].
    destruct H1 as [H1|H1], H2 as [H2|H2]; [by left|by left|left; congruence|right; congruence].
Qed.
#[global] Instance freer_preorder : PreOrder freer.
Proof.
  split.
  - intros r. split; eauto.
  - intros r1 r2 r3 [L1 C1] [L2 C2]. split; [congruence|]. intros id [id' H]%C2. by apply (C1 id').
Qed.
#[global] Instance tighter_preorder : PreOrder tighter.
Proof.
  split.
  - intros r. split; auto; [lia|]. intros w h E. exists w, h. split_and!; [done|lia..].
  - intros r1 r2 r3 [] [HA HL HB HC HF HU HD HR]. split; auto; [set_solver|lia|].
    intros w h (w2 & h2 & (w1 & h1 & ? & ? & ?)%ti_resolution0 & ? & ?)%HR. exists w1, h1. split_and!; [done|lia..].
Qed.
#[global] Instance narrower_preorder : PreOrder narrower.
Proof.
  split.
  - intros e name role E. by exists role.
  - intros e1 e2 e3 H1 H2 name role (role2 & (role3 & E3 & T3)%H2 & T2)%H1. exists role3. split; [done|by etrans].
Qed.

(** The loosest restrictions of roles that tighten others narrow theirs. *)
Lemma loosest_narrows roles roles' r r' :
  (∀ x, x ∈ roles → ∃ x', x' ∈ roles' ∧ tighter x x') → loosest roles r → loosest roles' r' →
  narrows (union_actions roles, r) (union_actions roles', r').
Proof.
  intros Hsub L L'. split; cbn.
  { intros a. rewrite !elem_of_union_actions. intros (x & (x' & Hx' & T)%Hsub & Ha). exists x'.
    split; [done|by apply T]. }
  intros [| | |s|w h]; cbn.
  - rewrite (lo_clipboard _ _ L), (lo_clipboard _ _ L'). intros (x & (x' & ? & T)%Hsub & ?).
    exists x'. split; [done|by apply T].
  - rewrite (lo_file_transfer _ _ L), (lo_file_transfer _ _ L'). intros (x & (x' & ? & T)%Hsub & ?).
    exists x'. split; [done|by apply T].
  - rewrite (lo_audio _ _ L), (lo_audio _ _ L'). intros (x & (x' & ? & T)%Hsub & ?).
    exists x'. split; [done|by apply T].
  - destruct (lo_duration_some _ _ L) as (x & (x' & Hx' & T)%Hsub & Ex).
    pose proof (lo_duration_max _ _ L' x' Hx'). pose proof (ti_duration _ _ T). lia.
  - intros Hd. destruct (sr_max_resolution r') as [[w' h']|] eqn:E'; [|done].
    apply (lo_resolution _ _ L') in E' as (Hall & _ & _).
    assert (∀ x, x ∈ roles → ∃ xw xh, PolicyConditions_max_resolution (role_conditions x) = Some (xw, xh) ∧
      xw ≤ w' ∧ xh ≤ h') as Hx.
    { intros x (x' & Hx' & T)%Hsub. destruct (Hall x' Hx') as (? & ? & E & ? & ?).
      apply (ti_resolution _ _ T) in E as (xw & xh & ? & ? & ?). exists xw, xh. split_and!; [done|lia..]. }
    destruct (sr_max_resolution r) as [[w0 h0]|] eqn:E.
    + apply (lo_resolution _ _ L) in E as (_ & (x & (xw & xh & Ex & ? & ?)%Hx & Ew) & (y & (yw & yh & Ey & ? & ?)%Hx & Eh)).
      unfold PolicyConditions_max_resolution in *. repeat case_match; simplify_eq; lia.
    + apply (lo_unlimited _ _ L) in E as (x & (xw & xh & Ex & _)%Hx & E). congruence.
Qed.

Lemma authorises_wider e e' s s' r r' action role :
  narrower e e' → stronger s s' → freer r r' → authorises e s r action role →
  ∃ role', authorises e' s' r' action role' ∧ tighter role role'.
Proof.
  intros He [Hr Hm Hd Hi] [Hl _] ((name & Hn & (role' & Hlk & T)%He) & Ha & Hap & Hab).
  exists role'. split; [|done]. split_and!.
  - exists name. split; [by apply Hr|done].
  - by apply T.
  - rewrite Hl. by apply T.
  - apply (ti_abac _ _ T) in Hab as (A1 & A2 & A3). split_and!; [auto..|].
    destruct A3 as [?|(ip & range & E & ? & ?)]; [by left|]. right. exists ip, range.
    split_and!; [|done..]. destruct Hi as [Hi|Hi]; congruence.
Qed.

(** C35. The decision is monotone in all it depends on. Under a policy that demands no more and
    gives no less, a subject with at least the evidence, asking for a device that is not
    more controlled, is decided no worse: what was allowed stays allowed, and what was
    granted is a narrowing of what is granted now, which the narrowing validator accepts. *)
Theorem evaluate_monotone e e' s s' r r' action g rs m :
  narrower e e' → stronger s s' → freer r r' → evaluate e s r action = Allowed g rs m →
  ∃ g' rs' m', evaluate e' s' r' action = Allowed g' rs' m' ∧ validate_policy_narrowing g' g rs' rs = Ok rs.
Proof.
  intros He Hs Hr (Hnb & Hne & -> & -> & _)%evaluate_allowed_roles.
  set (R := eligible e s r action) in *. set (R' := eligible e' s' r' action).
  assert (∀ x, x ∈ R → ∃ x', x' ∈ R' ∧ tighter x x') as HR.
  { intros role (role' & ? & ?)%eligible_spec%(authorises_wider e e' s s' r r'); [|done..].
    exists role'. split; [by apply eligible_spec|done]. }
  assert (R' ≠ []) as Hne'.
  { apply nonempty_elem in Hne as [x Hx]. destruct (HR x Hx) as (x' & Hx' & _). intros E. rewrite E in Hx'. set_solver. }
  assert (¬ (action = DesktopControl ∧ ∃ id, controlled r' id)) as Hnb'.
  { intros [-> [id Hid]]. apply Hnb. split; [done|]. by eapply fr_control. }
  destruct (evaluate_denied_or_granted e' s' r' action) as [_ Hgr].
  eexists _, _, _. split; [by apply Hgr|]. apply narrowing_ok_iff.
  by apply loosest_narrows; [|apply merged_loosest..].
Qed.

(** ** The builders, by the direction they move a decision in *)

Create HintDb policy.

(** Settles what a builder leaves alone. *)
Ltac unchanged := unfold role_duration; cbn; auto; try done; try lia; eauto with lia.

Lemma with_roles_stronger s roles : stronger s (with_roles s roles).
Proof. split; cbn; [set_solver|auto..]. Qed.
Lemma with_role_stronger s role : stronger s (with_role s role).
Proof. apply (with_roles_stronger s [role]). Qed.
Lemma with_mfa_stronger s : stronger s (with_mfa s true).
Proof. split; cbn; auto. Qed.
Lemma with_client_device_managed_stronger s : stronger s (with_client_device_managed s true).
Proof. split; cbn; auto. Qed.
Lemma with_client_ip_stronger s ip : stronger (with_client_ip s None) (with_client_ip s ip).
Proof. split; cbn; auto. Qed.
Lemma with_active_sessions_freer r l : freer (with_active_sessions r l) r.
Proof. split; [done|]. intros id (s & Hs & H). exists id, s. split; [|done]. cbn. set_solver. Qed.
Lemma with_active_session_freer r s : freer (with_active_session r s) r.
Proof. apply (with_active_sessions_freer r [s]). Qed.

Lemma Role_with_action_looser r a : tighter r (Role_with_action r a).
Proof. split; unchanged. set_solver. Qed.
(** Selectors are alternatives, so that more of them let a role apply to more devices; but
    the first one of a role restricts it, since a role without any applies everywhere. *)
Lemma Role_with_label_selectors_looser r sels :
  role_device_label_selectors r ≠ [] → tighter r (Role_with_label_selectors r sels).
Proof.
  intros Hne. split; unchanged. intros l [?|(sel & Hs & ?)]; [done|].
  right. exists sel. cbn. set_solver.
Qed.
Lemma Role_with_label_selectors_tighter r sels :
  role_device_label_selectors r = [] → tighter (Role_with_label_selectors r sels) r.
Proof. intros Hne. split; unchanged. intros l _. by left. Qed.

(** What the conditions of a role do to it. *)
Section conditions.
Context (r : Role).
Local Abbreviation having f := (Role_with_conditions r (f (role_conditions r))).

Lemma with_require_mfa_tighter : tighter (having (λ c, with_require_mfa c true)) r.
Proof. split; unchanged. intros s (H & ? & ?). split_and!; cbn in *; auto. Qed.
Lemma with_managed_client_device_tighter : tighter (having (λ c, with_managed_client_device c true)) r.
Proof. split; unchanged. intros s (? & H & ?). split_and!; cbn in *; auto. Qed.
Lemma with_clipboard_tighter : tighter (having (λ c, with_clipboard_enabled c false)) r.
Proof. split; unchanged. Qed.
Lemma with_file_transfer_tighter : tighter (having (λ c, with_file_transfer_enabled c false)) r.
Proof. split; unchanged. Qed.
Lemma with_audio_tighter : tighter (having (λ c, with_audio_enabled c false)) r.
Proof. split; unchanged. Qed.
Lemma with_max_duration_tighter d :
  d ≤ role_duration r → tighter (having (λ c, with_max_duration_seconds c (Some d))) r.
Proof. intros. split; unchanged. Qed.
(** One limited side does not limit anything: the pair is what tightens. *)
Lemma with_max_resolution_tighter w h :
  (∀ w' h', PolicyConditions_max_resolution (role_conditions r) = Some (w', h') → w ≤ w' ∧ h ≤ h') →
  tighter (having (λ c, with_max_resolution c (Some w) (Some h))) r.
Proof. intros H. split; unchanged. Qed.
(** As with selectors, the first range restricts and further ones admit more. *)
Lemma with_allowed_ip_range_tighter range :
  pc_allowed_ip_ranges (role_conditions r) = [] → tighter (having (λ c, with_allowed_ip_range c range)) r.
Proof. intros E. split; unchanged. intros s (? & ? & _). split_and!; auto. Qed.
Lemma with_allowed_ip_range_looser range :
  pc_allowed_ip_ranges (role_conditions r) ≠ [] → tighter r (having (λ c, with_allowed_ip_range c range)).
Proof.
  intros E. split; unchanged.
  intros s (? & ? & [?|(ip & x & ? & ? & ?)]); [done|]. split_and!; cbn; [done..|].
  right. exists ip, x. set_solver.
Qed.
End conditions.

(** A width limit alone is dropped: the role stays unlimited. *)
Example width_limit_alone_ignored :
  PolicyConditions_max_resolution (with_max_resolution PolicyConditions_default (Some 1280) None) = None.
Proof. reflexivity. Qed.

(** Adding a role under a new name, or a looser one under a name that is taken, widens the
    policy. *)
Lemma PolicyEngine_with_role_wider e role :
  (∀ old, PolicyEngine_get_role e (role_name role) = Some old → tighter old role) →
  narrower e (PolicyEngine_with_role e role).
Proof.
  intros H name x Hx. cbn. destruct (decide (role_name role = name)) as [<-|Hne].
  - exists role. rewrite lookup_insert_eq. split; [done|by apply H].
  - exists x. rewrite lookup_insert_ne by done. by split.
Qed.

#[export] Hint Resolve with_roles_stronger with_role_stronger with_mfa_stronger
  with_client_device_managed_stronger with_client_ip_stronger with_active_sessions_freer
  with_active_session_freer Role_with_action_looser with_require_mfa_tighter
  with_managed_client_device_tighter with_clipboard_tighter with_file_transfer_tighter
  with_audio_tighter : policy.

(** A policy that also asks for a managed device, and a subject who has one. *)
Lemma evaluate_monotone_witness :
  let strict := PolicyEngine_new [Role_with_conditions sample_role
    (with_managed_client_device (role_conditions sample_role) true)] in
  let bob := with_client_device_managed (with_role (SubjectContext_new "bob") "helpdesk") true in
  let device := with_label (ResourceContext_new "device-1") "env" "prod" in
  ∃ g' rs' m', evaluate sample_engine (with_mfa bob true) device DesktopView = Allowed g' rs' m' ∧
    validate_policy_narrowing g' {[DesktopView; DesktopControl]} rs' SessionRestrictions_default =
      Ok SessionRestrictions_default.
Proof.
  intros strict bob device.
  apply (evaluate_monotone strict sample_engine bob (with_mfa bob true) device device DesktopView
    {[DesktopView; DesktopControl]} SessionRestrictions_default "helpdesk").
  - intros name role H. cbn in H. apply lookup_insert_Some in H as [[<- <-]|[_ H]]; [|by rewrite lookup_empty in H].
    exists sample_role. split; [reflexivity|auto with policy].
  - auto with policy.
  - reflexivity.
  - vm_compute. reflexivity.
Defined.
