(* ===== verification/SessionState.v ===== *)
(** * The session state machine (crates/nexus-session/src/state.rs)

    [Instant]s and [Duration]s are nanoseconds. *)

From S2P Require Import Prelude.

Open Scope Z_scope.

Definition DEFAULT_RECONNECT_WINDOW : Z := 60 * 1000000000.

Inductive SessionIdError := SessionId_InvalidLength.
Definition SessionId_new (value : string) : result SessionIdError string :=
  if str_is_empty value || (128 <? str_len value) then Err SessionId_InvalidLength
  else Ok value.

Inductive SessionPolicyError := Policy_ZeroReconnectWindow | Policy_ZeroSessionDuration.

(** The field of [ReconnectPolicy], [window], and of [SessionDurationPolicy],
    [max_duration]. *)
Definition ReconnectPolicy_new (window : Z) : result SessionPolicyError Z :=
  if window =? 0 then Err Policy_ZeroReconnectWindow else Ok window.
Definition SessionDurationPolicy_new (max_duration : Z) : result SessionPolicyError Z :=
  if max_duration =? 0 then Err Policy_ZeroSessionDuration else Ok max_duration.

Inductive SessionState :=
  | Requested | Authorized | Connecting | Established | Active | Disconnected
  | Ended | StDenied | Expired | Failed | Revoked.
#[global] Instance SessionState_eq_dec : EqDecision SessionState.
Proof. solve_decision. Defined.

Definition can_transition_to (s next : SessionState) : bool :=
  match s, next with
  | Requested, (Authorized | StDenied | Expired | Failed) => true
  | Authorized, (Connecting | StDenied | Expired | Revoked) => true
  | Connecting, (Established | Failed | Expired | Revoked) => true
  | Established, (Active | Failed | Revoked) => true
  | Active, (Disconnected | Revoked | Ended | Expired) => true
  | Disconnected, (Connecting | Ended) => true
  | _, _ => false
  end.

Record SessionStateMachine := mkSessionStateMachine {
  sm_state : SessionState;
  sm_reconnect_deadline : option Z;
  sm_established_at : option Z;
  sm_max_duration : option Z
}.

Definition SessionStateMachine_new : SessionStateMachine :=
  mkSessionStateMachine Requested None None None.

(** [InvalidTransition { from, to }] *)
Abbreviation InvalidTransition := (SessionState * SessionState)%type.

Definition transition (m : SessionStateMachine) (next : SessionState) :
    result InvalidTransition unit * SessionStateMachine :=
  if bool_decide (next = sm_state m) || can_transition_to (sm_state m) next
  then (Ok tt, mkSessionStateMachine next
          (if bool_decide (next ≠ Disconnected) then None else sm_reconnect_deadline m)
          (sm_established_at m) (sm_max_duration m))
  else (Err (sm_state m, next), m).

Definition mark_disconnected (m : SessionStateMachine) (window now : Z) :
    result InvalidTransition unit * SessionStateMachine :=
  match transition m Disconnected with
  | (Err e, m) => (Err e, m)
  | (Ok _, m) => (Ok tt, mkSessionStateMachine (sm_state m) (Some (now + window))
                    (sm_established_at m) (sm_max_duration m))
  end.

Definition reconnect_allowed (m : SessionStateMachine) (now : Z) : bool :=
  bool_decide (sm_state m = Disconnected) &&
  is_some_and (sm_reconnect_deadline m) (λ deadline, now <=? deadline).

Definition mark_established_at (m : SessionStateMachine) (now max_duration : Z) :
    result InvalidTransition unit * SessionStateMachine :=
  match transition m Established with
  | (Err e, m) => (Err e, m)
  | (Ok _, m) =>
      (Ok tt, match sm_established_at m with
              | None => mkSessionStateMachine (sm_state m) (sm_reconnect_deadline m)
                          (Some now) (Some max_duration)
              | Some _ => m
              end)
  end.

Definition duration_expired (m : SessionStateMachine) (now : Z) : bool :=
  match sm_state m with
  | Established | Active =>
      match sm_established_at m, sm_max_duration m with
      | Some at_, Some max => max <=? saturating_sub now at_
      | _, _ => false
      end
  | _ => false
  end.

(** [Session] delegates to its machine. *)
Record Session := mkSession { sess_id : string; sess_machine : SessionStateMachine }.
Definition Session_new (id : string) : Session := mkSession id SessionStateMachine_new.
Definition Session_transition (s : Session) (next : SessionState) :
    result InvalidTransition unit * Session :=
  prod_map id (mkSession (sess_id s)) (transition (sess_machine s) next).
Definition Session_mark_disconnected (s : Session) (window now : Z) :
    result InvalidTransition unit * Session :=
  prod_map id (mkSession (sess_id s)) (mark_disconnected (sess_machine s) window now).
Definition Session_mark_established_at (s : Session) (now max_duration : Z) :
    result InvalidTransition unit * Session :=
  prod_map id (mkSession (sess_id s)) (mark_established_at (sess_machine s) now max_duration).

(** ** Runs *)

(** The operations a session offers, in any order and at any time; the state
    they lead to is remembered in [visited]. *)
Inductive machine_step : SessionStateMachine * list SessionState →
    SessionStateMachine * list SessionState → Prop :=
  | step_transition m vs next m' :
      transition m next = (Ok tt, m') →
      machine_step (m, vs) (m', vs ++ [sm_state m'])
  | step_disconnected m vs window now m' :
      0 < window → mark_disconnected m window now = (Ok tt, m') →
      machine_step (m, vs) (m', vs ++ [sm_state m'])
  | step_established m vs now max m' :
      0 < max → mark_established_at m now max = (Ok tt, m') →
      machine_step (m, vs) (m', vs ++ [sm_state m']).

Definition reachable (m : SessionStateMachine) (visited : list SessionState) : Prop :=
  rtc machine_step (SessionStateMachine_new, [Requested]) (m, visited).

(** Every step follows the table, or stays. *)
Lemma transition_inv m next m' :
  transition m next = (Ok tt, m') →
  sm_state m' = next ∧ (next = sm_state m ∨ can_transition_to (sm_state m) next = true) ∧
  sm_established_at m' = sm_established_at m ∧ sm_max_duration m' = sm_max_duration m ∧
  sm_reconnect_deadline m' =
    (if bool_decide (next ≠ Disconnected) then None else sm_reconnect_deadline m).
Proof.
  unfold transition. destruct (_ || _) eqn:E; intros ?; simplify_eq/=.
  apply orb_true_iff in E. rewrite bool_decide_eq_true in E. done.
Qed.

Lemma mark_disconnected_inv m w now m' :
  mark_disconnected m w now = (Ok tt, m') →
  sm_state m' = Disconnected ∧ (sm_state m = Disconnected ∨ sm_state m = Active) ∧
  sm_established_at m' = sm_established_at m ∧ sm_max_duration m' = sm_max_duration m ∧
  sm_reconnect_deadline m' = Some (now + w).
Proof.
  unfold mark_disconnected. destruct (transition m Disconnected) as [[[]|e] m1] eqn:E; [|done].
  apply transition_inv in E as (? & Hs & ? & ? & _). intros ?; simplify_eq/=.
  split_and!; try done. destruct Hs as [->|Hs]; [by left|].
  destruct (sm_state m); try done. by right.
Qed.

Lemma mark_established_inv m now max m' :
  mark_established_at m now max = (Ok tt, m') →
  sm_state m' = Established ∧ (sm_state m = Established ∨ sm_state m = Connecting) ∧
  sm_established_at m' = Some (default now (sm_established_at m)) ∧
  sm_max_duration m' = match sm_established_at m with
                       | Some _ => sm_max_duration m | None => Some max end ∧
  sm_reconnect_deadline m' = None.
Proof.
  unfold mark_established_at. destruct (transition m Established) as [[[]|e] m1] eqn:E; [|done].
  apply transition_inv in E as (? & Hs & E1 & E2 & E3). cbn in E3. intros ?; simplify_eq/=.
  assert (sm_state m = Established ∨ sm_state m = Connecting) as Hm.
  { destruct Hs as [->|Hs]; [by left|]. destruct (sm_state m); try done. by right. }
  rewrite <-E1. destruct (sm_established_at m1) eqn:Ea; cbn; split_and!; congruence.
Qed.

(** ** The life of a session *)

(** The states that must have come before a state, in order. *)
Definition prerequisites (s : SessionState) : list SessionState :=
  match s with
  | Requested | StDenied => [Requested]
  | Authorized => [Requested; Authorized]
  | Connecting => [Requested; Authorized; Connecting]
  | Established => [Requested; Authorized; Connecting; Established]
  | Active | Disconnected | Ended =>
      [Requested; Authorized; Connecting; Established; Active]
  | Expired | Failed => [Requested]
  | Revoked => [Requested; Authorized]
  end.

Definition is_terminal (s : SessionState) : bool :=
  match s with Ended | StDenied | Expired | Failed | Revoked => true | _ => false end.

Lemma terminal_stuck s next : is_terminal s = true → can_transition_to s next = false.
Proof. by destruct s. Qed.

Lemma table_prerequisites s next :
  can_transition_to s next = true →
  prerequisites next `sublist_of` prerequisites s ++ [next].
Proof.
  destruct s, next; try done; intros _; cbn;
    repeat (first [apply sublist_skip|apply sublist_cons|constructor]).
Qed.

(** The invariant of runs. *)
Record machine_ok (m : SessionStateMachine) (visited : list SessionState) : Prop := {
  mo_path : prerequisites (sm_state m) `sublist_of` visited;
  mo_last : last visited = Some (sm_state m);
  mo_deadline : is_Some (sm_reconnect_deadline m) → sm_state m = Disconnected;
  mo_duration : is_Some (sm_established_at m) ↔ is_Some (sm_max_duration m);
  mo_positive : ∀ d, sm_max_duration m = Some d → 0 < d
}.

Lemma path_extend visited s next :
  prerequisites s `sublist_of` visited → (next = s ∨ can_transition_to s next = true) →
  prerequisites next `sublist_of` visited ++ [next].
Proof.
  intros Hp [->|Ht].
  - etrans; [exact Hp|]. by apply sublist_inserts_r.
  - etrans; [by apply table_prerequisites|]. by apply sublist_app.
Qed.

Lemma machine_step_ok m vs m' vs' :
  machine_ok m vs → machine_step (m, vs) (m', vs') → machine_ok m' vs'.
Proof.
  intros [Hp Hl Hd Hdur Hpos] Hstep. inversion Hstep as [? ? ? ? Ht|? ? ? ? ? ? Ht|? ? ? ? ? ? Ht]; subst.
  - apply transition_inv in Ht as (Hs & Hcase & E1 & E2 & E3). subst.
    split; rewrite ?last_snoc, ?E1, ?E2, ?E3; try done.
    + by eapply path_extend.
    + case_bool_decide; [by intros []|]. intros _. by destruct (decide (sm_state m' = Disconnected)).
  - apply mark_disconnected_inv in Ht as (Hs & Hcase & E1 & E2 & E3).
    split; rewrite ?last_snoc, ?E1, ?E2, ?E3, ?Hs; try done.
    eapply path_extend; [done|]. destruct Hcase as [->| ->]; auto.
  - apply mark_established_inv in Ht as (Hs & Hcase & E1 & E2 & E3).
    split; rewrite ?last_snoc, ?E1, ?E2, ?E3, ?Hs; try done.
    + eapply path_extend; [done|]. destruct Hcase as [->| ->]; auto.
    + destruct (sm_established_at m); cbn; [|by split; eauto]. rewrite <-Hdur. by split; eauto.
    + intros d. destruct (sm_established_at m); [apply Hpos|]. by intros [= <-].
Qed.

Lemma reachable_ok m vs : reachable m vs → machine_ok m vs.
Proof.
  unfold reachable. intros Hr.
  remember (SessionStateMachine_new, [Requested]) as start eqn:Es.
  remember (m, vs) as final eqn:Ef.
  assert (machine_ok start.1 start.2) as H0.
  { subst. split; cbn; try done; try (by intros []). }
  clear Es. revert m vs Ef. induction Hr as [[m0 v0]|[m0 v0] [m1 v1] z Hs Hr IH];
    intros m vs Ef; [by simplify_eq/=|].
  eapply IH; [by eapply machine_step_ok|exact Ef].
Qed.

(** Steps never forget when the session was established, nor its limit. *)
Lemma machine_step_clock m vs m' vs' at_ :
  machine_step (m, vs) (m', vs') → sm_established_at m = Some at_ →
  sm_established_at m' = Some at_ ∧ sm_max_duration m' = sm_max_duration m.
Proof.
  intros Hstep Ha. inversion Hstep as [? ? ? ? Ht|? ? ? ? ? ? Ht|? ? ? ? ? ? Ht]; subst.
  - apply transition_inv in Ht as (_ & _ & -> & -> & _). done.
  - apply mark_disconnected_inv in Ht as (_ & _ & -> & -> & _). done.
  - apply mark_established_inv in Ht as (_ & _ & -> & -> & _). by rewrite Ha.
Qed.

Lemma rtc_clock m vs m' vs' at_ :
  rtc machine_step (m, vs) (m', vs') → sm_established_at m = Some at_ →
  sm_established_at m' = Some at_ ∧ sm_max_duration m' = sm_max_duration m.
Proof.
  intros Hr. remember (m, vs) as s eqn:Es. remember (m', vs') as t eqn:Et.
  revert m vs Es. induction Hr as [|s [m1 v1] t Hs Hr IH]; intros m vs -> Ha.
  - by simplify_eq.
  - eapply machine_step_clock in Hs as [Ha1 Hm1]; [|done].
    destruct (IH Et m1 v1 eq_refl Ha1) as [? ?]. split; congruence.
Qed.

Lemma rtc_terminal m vs m' vs' :
  rtc machine_step (m, vs) (m', vs') → is_terminal (sm_state m) = true →
  sm_state m' = sm_state m.
Proof.
  intros Hr. remember (m, vs) as s eqn:Es. remember (m', vs') as t eqn:Et.
  revert m vs Es. induction Hr as [|s [m1 v1] t Hs Hr IH]; intros m vs -> Ht.
  - by simplify_eq.
  - assert (sm_state m1 = sm_state m) as E1.
    { inversion Hs as [? ? ? ? H1|? ? ? ? ? ? H1|? ? ? ? ? ? H1]; subst.
      - apply transition_inv in H1 as (<- & [->|Hc] & _); [done|].
        by rewrite terminal_stuck in Hc.
      - apply mark_disconnected_inv in H1 as (_ & [E|E] & _); by rewrite E in Ht.
      - apply mark_established_inv in H1 as (_ & [E|E] & _); by rewrite E in Ht. }
    rewrite <-E1. eapply IH; [done|done|congruence].
Qed.

(** The life of a session: however its operations are called, the states
    a session has gone through contain, in order, every state its current one
    presupposes, so that an active session was requested, authorized, connected
    and established before; a reconnect deadline exists only while
    disconnected; and a session that ended, was denied, expired, failed or was
    revoked stays so. *)
Theorem session_lifecycle m visited m' visited' :
  reachable m visited → rtc machine_step (m, visited) (m', visited') →
  prerequisites (sm_state m) `sublist_of` visited ∧ last visited = Some (sm_state m) ∧
  (is_Some (sm_reconnect_deadline m) → sm_state m = Disconnected) ∧
  (is_terminal (sm_state m) = true → sm_state m' = sm_state m).
Proof.
  intros Hr Hrtc. destruct (reachable_ok _ _ Hr) as [Hp Hl Hd _ _].
  split_and!; [done..|]. by eapply rtc_terminal.
Qed.

Definition sample_machine : SessionStateMachine :=
  mkSessionStateMachine Revoked None None None.
Lemma sample_reachable : reachable sample_machine [Requested; Authorized; Revoked].
Proof.
  unfold reachable.
  eapply rtc_l; [by apply (step_transition _ [Requested] Authorized)|].
  eapply rtc_l; [by apply (step_transition _ [Requested; Authorized] Revoked)|]. done.
Defined.

Lemma session_lifecycle_witness :
  prerequisites Revoked `sublist_of` [Requested; Authorized; Revoked].
Proof.
  apply (session_lifecycle sample_machine [Requested; Authorized; Revoked] sample_machine
    [Requested; Authorized; Revoked]); [exact sample_reachable|apply rtc_refl].
Defined.

(** The duration limit survives reconnects: once established, a session
    keeps its establishment time and limit whatever happens next, and whenever
    it is established or active it is reported expired exactly from the limit
    after that time on. *)
Theorem session_duration_limit m vs m' vs' at_ d now :
  reachable m vs → sm_established_at m = Some at_ → sm_max_duration m = Some d →
  rtc machine_step (m, vs) (m', vs') →
  sm_established_at m' = Some at_ ∧ sm_max_duration m' = Some d ∧ 0 < d ∧
  (duration_expired m' now = true ↔
     (sm_state m' = Established ∨ sm_state m' = Active) ∧ at_ + d ≤ now).
Proof.
  intros Hr Ha Hd Hrtc. pose proof (reachable_ok _ _ Hr) as Hok.
  apply (rtc_clock _ _ _ _ at_) in Hrtc as [Ha' Hd']; [|done]. rewrite Hd in Hd'.
  assert (0 < d) by by apply (mo_positive _ _ Hok). split_and!; try done.
  unfold duration_expired, saturating_sub. rewrite Ha', Hd'.
  destruct (sm_state m'); try naive_solver; rewrite Z.leb_le; naive_solver lia.
Qed.

Definition established_run : SessionStateMachine * list SessionState :=
  (mkSessionStateMachine Established None (Some 100) (Some 50),
   [Requested; Authorized; Connecting; Established]).
Lemma session_duration_limit_witness :
  duration_expired established_run.1 150 = true ↔
    (sm_state established_run.1 = Established ∨ sm_state established_run.1 = Active) ∧
    100 + 50 ≤ 150.
Proof.
  eapply (session_duration_limit established_run.1 established_run.2 established_run.1
    established_run.2 100 50 150); [|done|done|apply rtc_refl].
  unfold reachable, established_run.
  eapply rtc_l; [by apply (step_transition _ [Requested] Authorized)|].
  eapply rtc_l; [by apply (step_transition _ [Requested; Authorized] Connecting)|].
  eapply rtc_l; [by apply (step_established _ [Requested; Authorized; Connecting] 100 50)|].
  done.
Defined.

(** Marking a disconnected session disconnected again moves its deadline. *)
Example repeated_disconnect_extends_window :
  let m := mkSessionStateMachine Disconnected (Some 60) None None in
  mark_disconnected m 60 59 = (Ok tt, mkSessionStateMachine Disconnected (Some 119) None None).
Proof. reflexivity. Qed.
