(* ===== verification/Replay.v ===== *)
(** * The nonce replay cache (crates/nexus-auth/src/replay.rs)

    [Instant]s and [Duration]s are nanoseconds. *)

From S2P Require Import Prelude.

#[global] Program Instance byte_countable : Countable byte :=
  inj_countable' (λ b, Byte.to_N b) (λ n, default x00 (Byte.of_N n)) _.
Next Obligation. intros b. simpl. by rewrite Byte.of_to_N. Qed.

Record NonceReplayCache := mkNonceReplayCache {
  rc_entries : gmap bytes Z;
  rc_ttl : Z;
  rc_capacity : Z
}.

Definition NonceReplayCache_new (ttl capacity : Z) : NonceReplayCache :=
  mkNonceReplayCache ∅ ttl (Z.max capacity 1).

Definition NonceReplayCache_prune (c : NonceReplayCache) (now : Z) : NonceReplayCache :=
  mkNonceReplayCache
    (filter (λ kv, saturating_sub now kv.2 < rc_ttl c) (rc_entries c))
    (rc_ttl c) (rc_capacity c).

Definition NonceReplayCache_accept (c : NonceReplayCache) (nonce : bytes) (now : Z) :
    bool * NonceReplayCache :=
  let c := NonceReplayCache_prune c now in
  if bool_decide (is_Some (rc_entries c !! nonce)) then (false, c) else
  if rc_capacity c <=? Z.of_nat (size (rc_entries c)) then (false, c) else
  (true, mkNonceReplayCache (<[nonce := now]> (rc_entries c)) (rc_ttl c) (rc_capacity c)).

(** What a cache accepts: a nonce it did not record within its window, while there is room
    for it among those it did. *)
Lemma accept_true_iff c nonce now :
  (NonceReplayCache_accept c nonce now).1 = true ↔
    (∀ t, rc_entries c !! nonce = Some t → rc_ttl c ≤ saturating_sub now t) ∧
    Z.of_nat (size (filter (λ kv, saturating_sub now kv.2 < rc_ttl c) (rc_entries c))) < rc_capacity c.
Proof.
  unfold NonceReplayCache_accept. cbn.
  assert (is_Some (filter (λ kv, saturating_sub now kv.2 < rc_ttl c) (rc_entries c) !! nonce) ↔
    ¬ ∀ t, rc_entries c !! nonce = Some t → rc_ttl c ≤ saturating_sub now t) as Hin.
  { split.
    - intros [t [Ht Hl]%map_lookup_filter_Some] Hn. specialize (Hn t Ht). cbn in Hl. lia.
    - intros Hn. destruct (rc_entries c !! nonce) as [t|] eqn:E; [|by destruct Hn].
      exists t. apply map_lookup_filter_Some. split; [done|]. cbn.
      destruct (Z.lt_ge_cases (saturating_sub now t) (rc_ttl c)); [done|]. destruct Hn. by intros ? [= <-]. }
  case_bool_decide as Hb.
  - apply Hin in Hb. split; [done|tauto].
  - destruct (Z.leb_spec (rc_capacity c)
      (Z.of_nat (size (filter (λ kv, saturating_sub now kv.2 < rc_ttl c) (rc_entries c))))); cbn; [lia|].
    split; [|done]. intros _. split; [|done]. intros t Ht.
    destruct (Z.lt_ge_cases (saturating_sub now t) (rc_ttl c)); [|done]. destruct Hb. exists t.
    by apply map_lookup_filter_Some.
Qed.

(** ** The abstract window

    The specification remembers every accepted nonce with its time and looks
    at those younger than [ttl]. *)

Section window.
Context (ttl capacity : Z).

Definition recent (log : list (bytes * Z)) (now : Z) : list (bytes * Z) :=
  filter (λ e, now - e.2 < ttl) log.

Definition window_accepts (log : list (bytes * Z)) (nonce : bytes) (now : Z) : bool :=
  bool_decide (nonce ∉ (recent log now).*1) && (len (recent log now) <? capacity).

Definition window_step (log : list (bytes * Z)) (nonce : bytes) (now : Z) :
    list (bytes * Z) :=
  if window_accepts log nonce now then log ++ [(nonce, now)] else log.

(** The cache holds the recent part of the log as of its last use at [last]. *)
Record refines (c : NonceReplayCache) (log : list (bytes * Z)) (last : Z) : Prop := {
  rf_ttl : rc_ttl c = ttl;
  rf_capacity : rc_capacity c = capacity;
  rf_entries : rc_entries c = list_to_map (recent log last);
  rf_nodup : NoDup (recent log last).*1;
  rf_past : Forall (λ e, e.2 ≤ last) log
}.

Lemma recent_sub log last now : last ≤ now → recent log now = recent (recent log last) now.
Proof.
  intros Hle. unfold recent. rewrite list_filter_filter. apply list_filter_iff.
  intros [n t]. cbn. lia.
Qed.

Lemma NoDup_recent log last now :
  last ≤ now → NoDup (recent log last).*1 → NoDup (recent log now).*1.
Proof.
  intros Hle Hnd. rewrite (recent_sub log last now) by done.
  eapply sublist_NoDup; [exact Hnd|]. apply fmap_sublist, sublist_filter.
Qed.

Lemma prune_refines c log last now :
  refines c log last → last ≤ now → refines (NonceReplayCache_prune c now) log now.
Proof.
  intros [Ht Hc He Hnd Hp] Hle. split; cbn; try done.
  - assert (NoDup (recent log now).*1) as Hnd' by by eapply NoDup_recent.
    apply map_eq. intros n. apply option_eq. intros t.
    rewrite map_lookup_filter_Some, He, <-!elem_of_list_to_map by done.
    unfold recent. rewrite !list_elem_of_filter. cbn. rewrite Ht.
    rewrite Forall_in in Hp. unfold saturating_sub.
    split; intros H; destruct_and!; assert (t ≤ last) by (by apply (Hp (n, t)));
      split_and!; done || lia.
  - by eapply NoDup_recent.
  - eapply Forall_impl; [exact Hp|]. cbn. lia.
Qed.

Lemma recent_snoc log n t :
  0 < ttl → recent (log ++ [(n, t)]) t = recent log t ++ [(n, t)].
Proof.
  intros. unfold recent. rewrite filter_app, filter_cons, decide_True; [done|cbn; lia].
Qed.

Lemma accept_refines c log last nonce now :
  0 < ttl → refines c log last → last ≤ now →
  (NonceReplayCache_accept c nonce now).1 = window_accepts log nonce now ∧
  refines (NonceReplayCache_accept c nonce now).2 (window_step log nonce now) now.
Proof.
  intros Httl Href Hle. pose proof (prune_refines _ _ _ _ Href Hle) as Hpr.
  unfold NonceReplayCache_accept, window_step, window_accepts.
  set (c1 := NonceReplayCache_prune c now) in *. clearbody c1. destruct Hpr as [Ht Hc He Hnd Hp].
  assert (is_Some (rc_entries c1 !! nonce) ↔ nonce ∈ (recent log now).*1) as Hin.
  { rewrite He. split.
    - intros [t Hn]. apply elem_of_list_to_map in Hn; [|done].
      apply list_elem_of_fmap. by exists (nonce, t).
    - intros Hn. destruct (list_to_map (recent log now) !! nonce) eqn:E; [eauto|].
      by apply not_elem_of_list_to_map in E. }
  assert (Z.of_nat (size (rc_entries c1)) = len (recent log now)) as Hsz.
  { rewrite He, map_size_list_to_map by done. done. }
  rewrite Hsz, Hc. destruct (bool_decide_reflect (is_Some (rc_entries c1 !! nonce))) as [Hs|Hs].
  - rewrite bool_decide_false by (rewrite Hin in Hs; auto). cbn. split; [done|by split].
  - rewrite Hin in Hs. rewrite bool_decide_true by done. cbn.
    destruct (Z.leb_spec capacity (len (recent log now))).
    + rewrite (proj2 (Z.ltb_ge _ _)) by lia. split; [done|by split].
    + rewrite (proj2 (Z.ltb_lt _ _)) by lia. split; [done|].
      split; cbn; try done; rewrite ?recent_snoc by done.
      * rewrite He, list_to_map_snoc; [done|exact Hs].
      * rewrite fmap_app. apply NoDup_app. split_and!; [done| |apply NoDup_singleton].
        intros x Hx. cbn. rewrite list_elem_of_singleton. by intros ->.
      * apply Forall_app. split; [done|]. by repeat constructor.
Qed.
End window.

(** ** Sequences of calls *)

Fixpoint accept_all (c : NonceReplayCache) (calls : list (bytes * Z)) :
    list bool * NonceReplayCache :=
  match calls with
  | [] => ([], c)
  | (nonce, now) :: calls =>
      let (b, c) := NonceReplayCache_accept c nonce now in
      let (bs, c) := accept_all c calls in (b :: bs, c)
  end.

Fixpoint window_all (ttl capacity : Z) (log calls : list (bytes * Z)) :
    list bool * list (bytes * Z) :=
  match calls with
  | [] => ([], log)
  | (nonce, now) :: calls =>
      let b := window_accepts ttl capacity log nonce now in
      let (bs, log) := window_all ttl capacity (window_step ttl capacity log nonce now) calls in
      (b :: bs, log)
  end.

(** Calls in the order of time. *)
Fixpoint in_order (last : Z) (calls : list (bytes * Z)) : Prop :=
  match calls with
  | [] => True
  | (_, now) :: calls => last ≤ now ∧ in_order now calls
  end.

Lemma accept_all_refines ttl capacity c log last calls :
  0 < ttl → refines ttl capacity c log last → in_order last calls →
  (accept_all c calls).1 = (window_all ttl capacity log calls).1 ∧
  ∃ last', refines ttl capacity (accept_all c calls).2 (window_all ttl capacity log calls).2 last'.
Proof.
  intros Httl. revert c log last. induction calls as [|[n t] calls IH];
    intros c log last Href Hord; cbn; [eauto|]. destruct Hord as [Hle Hord].
  destruct (accept_refines ttl capacity c log last n t Httl Href Hle) as [E1 E2].
  destruct (NonceReplayCache_accept c n t) as [b c1]. cbn in *. subst.
  destruct (IH c1 _ t E2 Hord) as [E3 E4].
  destruct (accept_all c1 calls) as [bs c2].
  destruct (window_all _ _ _ calls) as [bs' log']. cbn in *. by rewrite E3.
Qed.

Lemma window_step_grows ttl capacity log nonce now : log ⊆ window_step ttl capacity log nonce now.
Proof. unfold window_step. case_match; set_solver. Qed.

Lemma window_later ttl capacity log calls n ti j tj :
  (n, ti) ∈ log → calls !! j = Some (n, tj) →
  (window_all ttl capacity log calls).1 !! j = Some true → ttl ≤ tj - ti.
Proof.
  revert log j. induction calls as [|[m t] calls IH]; intros log j Hlog Hj; [done|].
  cbn. destruct (window_all ttl capacity _ calls) as [bs log'] eqn:E. destruct j as [|j]; cbn in *.
  - simplify_eq. intros [= Hacc]. unfold window_accepts in Hacc. bool_hyps.
    destruct (Z.lt_ge_cases (tj - ti) ttl); [|lia]. exfalso.
    match goal with H : n ∉ _ |- _ => apply H end.
    apply list_elem_of_fmap. exists (n, ti). split; [done|].
    apply list_elem_of_filter. done.
  - intros Hb. eapply (IH (window_step ttl capacity log m t) j); [|done|by rewrite E].
    by apply window_step_grows.
Qed.

Lemma window_no_reuse ttl capacity log calls i j n ti tj :
  (i < j)%nat → calls !! i = Some (n, ti) → calls !! j = Some (n, tj) →
  (window_all ttl capacity log calls).1 !! i = Some true →
  (window_all ttl capacity log calls).1 !! j = Some true → ttl ≤ tj - ti.
Proof.
  revert log i j. induction calls as [|[m t] calls IH]; intros log i j Hij Hi Hj; [done|].
  cbn. destruct (window_all ttl capacity _ calls) as [bs log'] eqn:E.
  destruct j as [|j]; [lia|]. destruct i as [|i]; cbn in *.
  - simplify_eq. intros [= Hacc] Hb. eapply window_later; [|exact Hj|by rewrite E].
    unfold window_step. rewrite Hacc. set_solver.
  - intros Hbi Hbj. eapply (IH _ i j); [lia|done|done|by rewrite E|by rewrite E].
Qed.

Lemma accept_size c nonce now :
  Z.of_nat (size (rc_entries c)) ≤ rc_capacity c →
  Z.of_nat (size (rc_entries (NonceReplayCache_accept c nonce now).2)) ≤ rc_capacity c ∧
  rc_capacity (NonceReplayCache_accept c nonce now).2 = rc_capacity c.
Proof.
  intros Hs. unfold NonceReplayCache_accept.
  assert (Z.of_nat (size (rc_entries (NonceReplayCache_prune c now))) ≤ rc_capacity c).
  { pose proof (map_subseteq_size _ _ (map_filter_subseteq
      (λ kv, saturating_sub now kv.2 < rc_ttl c) (rc_entries c))). cbn. lia. }
  repeat case_match; cbn in *; try done. split; [|done]. bool_hyps.
  rewrite map_size_insert_None; [lia|]. by apply eq_None_not_Some.
Qed.

Lemma accept_all_size c calls :
  Z.of_nat (size (rc_entries c)) ≤ rc_capacity c →
  Z.of_nat (size (rc_entries (accept_all c calls).2)) ≤ rc_capacity c.
Proof.
  revert c. induction calls as [|[n t] calls IH]; intros c Hs; cbn; [done|].
  destruct (accept_size c n t Hs) as [H1 H2].
  destruct (NonceReplayCache_accept c n t) as [b c1]. cbn in *. rewrite <-H2.
  specialize (IH c1). destruct (accept_all c1 calls). cbn in *. apply IH. lia.
Qed.

(** Replay protection: on calls in the order of time the cache answers
    exactly as the abstract window that remembers every accepted nonce, so a
    nonce is never accepted twice within the window's length; and whatever the
    calls, it never holds more nonces than its capacity. *)
Theorem replay_cache_window ttl capacity calls last :
  0 < ttl → in_order last calls →
  let outs := (accept_all (NonceReplayCache_new ttl capacity) calls).1 in
  outs = (window_all ttl (Z.max capacity 1) [] calls).1 ∧
  Z.of_nat (size (rc_entries (accept_all (NonceReplayCache_new ttl capacity) calls).2)) ≤
    Z.max capacity 1 ∧
  ∀ i j n ti tj, (i < j)%nat → calls !! i = Some (n, ti) → calls !! j = Some (n, tj) →
    outs !! i = Some true → outs !! j = Some true → ttl ≤ tj - ti.
Proof.
  intros Httl Hord outs.
  destruct (accept_all_refines ttl (Z.max capacity 1) (NonceReplayCache_new ttl capacity) []
    last calls Httl) as [E _]; [by split; constructor|done|].
  split_and!; [done| |].
  - apply accept_all_size. cbn. rewrite map_size_empty. lia.
  - intros i j n ti tj Hij Hi Hj. unfold outs. rewrite E. by eapply window_no_reuse.
Qed.

Definition sample_calls : list (bytes * Z) :=
  [([x01], 0); ([x01], 5); ([x02], 6); ([x01], 10); ([x03], 11)].

Lemma replay_cache_window_witness :
  (accept_all (NonceReplayCache_new 10 2) sample_calls).1 =
    (window_all 10 2 [] sample_calls).1 ∧
  (window_all 10 2 [] sample_calls).1 = [true; false; true; true; false].
Proof.
  split; [|by vm_compute].
  eapply (replay_cache_window 10 2 sample_calls 0); [done|]. cbn. lia.
Defined.
