(* ===== verification/Protocol.v ===== *)
(** * Control messages (crates/nexus-protocol/src/lib.rs, proto/nexus.proto)

    The messages and their validation.  The Protobuf encoder is generated code:
    it is the class [Prost] of an encoder with its decoder. *)

From S2P Require Import Prelude.

Open Scope Z_scope.

Definition CURRENT_PROTOCOL_VERSION : Z := 1.
Definition MAX_SESSION_ID_LEN : Z := 128.
Definition MAX_DEVICE_ID_LEN : Z := 128.
Definition MAX_CAPABILITY_LEN : Z := 16 * 1024.
Definition MAX_EPHEMERAL_KEY_LEN : Z := 128.
Definition MAX_CAPABILITY_PERMISSIONS : Z := 32.
Definition MAX_NONCE_LEN : Z := 64.

(** A generated message: [encode] to bytes and [decode] from them ([None] is
    the decoder's error).  The law is Protobuf's documented round trip. *)
Class Prost (M : Type) := {
  prost_encode : M → bytes;
  prost_decode : bytes → option M
}.
Class ProstLaws (M : Type) `{Prost M} := {
  prost_decode_encode m : prost_decode (prost_encode m) = Some m
}.

(** ** Cursor shapes and monitors *)

Record CursorShape := mkCursorShape {
  cs_id : Z; cs_width : Z; cs_height : Z; cs_hotspot_x : Z; cs_hotspot_y : Z;
  cs_pixel_format : Z; cs_data : bytes
}.
Inductive CursorShapeError :=
  | Cursor_InvalidDimensions | Cursor_InvalidHotspot
  | Cursor_DataTooLarge (max : Z) | Cursor_InvalidPayloadLength.

Definition CursorShape_MAX_DATA_LEN : Z := 1024 * 1024.

Definition CursorShape_validate (c : CursorShape) : result CursorShapeError unit :=
  if (cs_width c =? 0) || (cs_height c =? 0) then Err Cursor_InvalidDimensions else
  if (cs_width c <=? cs_hotspot_x c) || (cs_height c <=? cs_hotspot_y c)
  then Err Cursor_InvalidHotspot else
  if CursorShape_MAX_DATA_LEN <? len (cs_data c)
  then Err (Cursor_DataTooLarge CursorShape_MAX_DATA_LEN) else
  if (cs_pixel_format c =? 1) &&
     negb (len (cs_data c) =?
           saturating_mul usize_max (saturating_mul usize_max (cs_width c) (cs_height c)) 4)
  then Err Cursor_InvalidPayloadLength else
  Ok tt.

(** An [f32] is its IEEE-754 bits. *)
Definition f32_is_finite (b : Z) : bool := negb (Z.land (Z.shiftr b 23) 255 =? 255).
(** [x <= 0.0] and [x > 100.0] of a finite [x]: the sign bit, and the order of
    the bits of non-negative floats; 100.0 is 0x42C80000. *)
Definition f32_le_zero (b : Z) : bool := Z.testbit b 31 || (b =? 0).
Definition f32_gt_100 (b : Z) : bool := negb (Z.testbit b 31) && (1120403456 <? b).

Record MonitorInfo := mkMonitorInfo {
  mi_id : Z; mi_origin_x : Z; mi_origin_y : Z; mi_width : Z; mi_height : Z; mi_scale : Z
}.
Inductive MonitorInfoError :=
  | Monitor_InvalidDimensions | Monitor_InvalidScale | Monitor_ScaleTooLarge.

Definition MonitorInfo_validate (m : MonitorInfo) : result MonitorInfoError unit :=
  if (mi_width m =? 0) || (mi_height m =? 0) then Err Monitor_InvalidDimensions else
  if negb (f32_is_finite (mi_scale m)) || f32_le_zero (mi_scale m)
  then Err Monitor_InvalidScale else
  if f32_gt_100 (mi_scale m) then Err Monitor_ScaleTooLarge else
  Ok tt.

(** ** Session hello *)

Record SessionHello := mkSessionHello {
  sh_protocol_version : Z; sh_session_id : string; sh_device_id : string;
  sh_capability : bytes; sh_ephemeral_public_key : bytes
}.
Inductive SessionHelloError :=
  | Hello_UnsupportedVersion (expected actual : Z)
  | Hello_InvalidSessionId (max : Z) | Hello_InvalidDeviceId (max : Z)
  | Hello_CapabilityTooLarge (max : Z) | Hello_EphemeralKeyTooLarge (max : Z).

Definition SessionHello_validate (h : SessionHello) : result SessionHelloError unit :=
  if negb (sh_protocol_version h =? CURRENT_PROTOCOL_VERSION)
  then Err (Hello_UnsupportedVersion CURRENT_PROTOCOL_VERSION (sh_protocol_version h)) else
  if str_is_empty (sh_session_id h) || (MAX_SESSION_ID_LEN <? str_len (sh_session_id h))
  then Err (Hello_InvalidSessionId MAX_SESSION_ID_LEN) else
  if str_is_empty (sh_device_id h) || (MAX_DEVICE_ID_LEN <? str_len (sh_device_id h))
  then Err (Hello_InvalidDeviceId MAX_DEVICE_ID_LEN) else
  if MAX_CAPABILITY_LEN <? len (sh_capability h)
  then Err (Hello_CapabilityTooLarge MAX_CAPABILITY_LEN) else
  if MAX_EPHEMERAL_KEY_LEN <? len (sh_ephemeral_public_key h)
  then Err (Hello_EphemeralKeyTooLarge MAX_EPHEMERAL_KEY_LEN) else
  Ok tt.

(** ** Session capabilities *)

Record SessionCapability := mkSessionCapability {
  cap_version : Z; cap_issuer : string; cap_session_id : string;
  cap_subject_user_id : string; cap_client_device_id : string;
  cap_target_device_id : string; cap_permissions : list string;
  cap_restrictions : bytes; cap_not_before : Z; cap_expires_at : Z; cap_nonce : bytes;
  cap_agent_min_protocol : Z; cap_agent_max_protocol : Z;
  cap_client_ephemeral_public_key : bytes; cap_signature : bytes
}.
Inductive SessionCapabilityError :=
  | Capability_UnsupportedVersion | Capability_InvalidIdentity
  | Capability_InvalidValidityWindow | Capability_TooManyPermissions
  | Capability_InvalidNonce | Capability_InvalidProtocolRange.

Definition identity_bad (value : string) : bool :=
  str_is_empty value || (MAX_SESSION_ID_LEN <? str_len value).

Definition SessionCapability_validate (c : SessionCapability) :
    result SessionCapabilityError unit :=
  if negb (cap_version c =? 1) then Err Capability_UnsupportedVersion else
  if existsb identity_bad
       [cap_issuer c; cap_session_id c; cap_subject_user_id c; cap_client_device_id c;
        cap_target_device_id c]
  then Err Capability_InvalidIdentity else
  if cap_expires_at c <=? cap_not_before c then Err Capability_InvalidValidityWindow else
  if (len (cap_permissions c) =? 0) ||
     (MAX_CAPABILITY_PERMISSIONS <? len (cap_permissions c))
  then Err Capability_TooManyPermissions else
  if (len (cap_nonce c) =? 0) || (MAX_NONCE_LEN <? len (cap_nonce c))
  then Err Capability_InvalidNonce else
  if cap_agent_max_protocol c <? cap_agent_min_protocol c
  then Err Capability_InvalidProtocolRange else
  Ok tt.

(** The capability with its signature emptied. *)
Definition unsigned_capability (c : SessionCapability) : SessionCapability :=
  mkSessionCapability (cap_version c) (cap_issuer c) (cap_session_id c)
    (cap_subject_user_id c) (cap_client_device_id c) (cap_target_device_id c)
    (cap_permissions c) (cap_restrictions c) (cap_not_before c) (cap_expires_at c)
    (cap_nonce c) (cap_agent_min_protocol c) (cap_agent_max_protocol c)
    (cap_client_ephemeral_public_key c) [].

Definition SessionCapability_signing_bytes `{Prost SessionCapability}
    (c : SessionCapability) : bytes := prost_encode (unsigned_capability c).

(** ** An encoder that satisfies the law

    Any countable type has a self-inverse encoding; it shows that the law of
    [Prost] can hold. *)

Fixpoint pos_to_bytes (p : positive) : bytes :=
  match p with
  | xH => [] | xO p => x00 :: pos_to_bytes p | xI p => x01 :: pos_to_bytes p
  end.
Fixpoint bytes_to_pos (l : bytes) : positive :=
  match l with
  | [] => xH
  | x00 :: l => xO (bytes_to_pos l)
  | _ :: l => xI (bytes_to_pos l)
  end.

Definition countable_prost (M : Type) `{Countable M} : Prost M := {|
  prost_encode m := pos_to_bytes (encode m);
  prost_decode l := decode (bytes_to_pos l)
|}.

Lemma countable_prost_laws (M : Type) `{Countable M} :
  @ProstLaws M (countable_prost M).
Proof.
  constructor. intros m. cbn.
  assert (∀ p, bytes_to_pos (pos_to_bytes p) = p) as -> by (by induction p; cbn; f_equal).
  apply decode_encode.
Qed.

#[global] Instance SessionCapability_eq_dec : EqDecision SessionCapability.
Proof. solve_decision. Defined.

#[global] Program Instance SessionCapability_countable : Countable SessionCapability :=
  inj_countable'
    (λ c, (((cap_version c, cap_issuer c, cap_session_id c, cap_subject_user_id c,
            cap_client_device_id c), (cap_target_device_id c, cap_permissions c,
            of_byte <$> cap_restrictions c, cap_not_before c, cap_expires_at c)),
           (of_byte <$> cap_nonce c, cap_agent_min_protocol c, cap_agent_max_protocol c,
            of_byte <$> cap_client_ephemeral_public_key c, of_byte <$> cap_signature c)))
    (λ t, let '(((a, b, c, d, e), (f, g, h, i, j)), (k, l, m, n, o)) := t in
          mkSessionCapability a b c d e f g (to_byte <$> h) i j (to_byte <$> k) l m
            (to_byte <$> n) (to_byte <$> o)) _.
Next Obligation.
  assert (∀ l : bytes, to_byte <$> (of_byte <$> l) = l) as Hb.
  { intros l. induction l as [|b l IH]; [done|]. rewrite !fmap_cons, to_of_byte. by f_equal. }
  intros []. cbn [cap_version cap_issuer cap_session_id cap_subject_user_id
    cap_client_device_id cap_target_device_id cap_permissions cap_restrictions cap_not_before
    cap_expires_at cap_nonce cap_agent_min_protocol cap_agent_max_protocol
    cap_client_ephemeral_public_key cap_signature]. by rewrite !Hb.
Qed.
