(* ===== verification/Verifier.v ===== *)
(** * The capability verifier (crates/nexus-auth/src/verifier.rs)

    Schema, device binding, validity window, protocol range, replay defence and
    signature, in the order of the code.  Times of day are seconds; [Instant]s
    are nanoseconds. *)

From S2P Require Import Prelude Crypto Protocol Replay.

Open Scope string_scope.
Open Scope list_scope.
Open Scope Z_scope.

Inductive CapabilityVerificationError :=
  | Verify_Expired (expired_at current_time : Z)
  | Verify_NotYetActive (not_before current_time : Z)
  | Verify_InvalidSignature (message : string)
  | Verify_ReplayDetected
  | Verify_ProtocolRangeViolation (negotiated min max : Z)
  | Verify_TargetDeviceMismatch (expected actual : string)
  | Verify_ClientDeviceMismatch (expected actual : string)
  | Verify_ProtocolValidation (message : string).

(** [Display] of [SessionCapabilityError]. *)
Definition capability_error_display (e : SessionCapabilityError) : string :=
  match e with
  | Capability_UnsupportedVersion => "capability version must be 1"
  | Capability_InvalidIdentity => "capability identity field is empty or too long"
  | Capability_InvalidValidityWindow => "capability must have not_before before expires_at"
  | Capability_TooManyPermissions => "capability has too many permissions"
  | Capability_InvalidNonce => "capability nonce is empty or too long"
  | Capability_InvalidProtocolRange => "agent protocol range is invalid"
  end.

Record CapabilityVerifier := mkCapabilityVerifier {
  cv_verifying_key : bytes;
  cv_replay_cache : NonceReplayCache;
  cv_target_device_id : option string
}.

Definition CapabilityVerifier_new (key : bytes) (replay_ttl replay_capacity : Z) :
    CapabilityVerifier :=
  mkCapabilityVerifier key (NonceReplayCache_new replay_ttl replay_capacity) None.
Definition with_target_device_id (v : CapabilityVerifier) (id : string) : CapabilityVerifier :=
  mkCapabilityVerifier (cv_verifying_key v) (cv_replay_cache v) (Some id).

Section verify.
Context `{Ed25519, Prost SessionCapability}.
(** The text of the signature crate's error. *)
Context (dalek_error : string).

(** Steps 1 to 4, which do not touch the verifier. *)
Definition check_claims (target : option string) (cap : SessionCapability)
    (negotiated now : Z) : result CapabilityVerificationError unit :=
  match SessionCapability_validate cap with
  | Err e => Err (Verify_ProtocolValidation (capability_error_display e))
  | Ok _ =>
      match (match target with
             | Some expected =>
                 if negb (str_eqb (cap_target_device_id cap) expected)
                 then Some (Verify_TargetDeviceMismatch expected (cap_target_device_id cap))
                 else None
             | None => None
             end) with
      | Some e => Err e
      | None =>
          if now <? cap_not_before cap
          then Err (Verify_NotYetActive (cap_not_before cap) now) else
          if cap_expires_at cap <? now
          then Err (Verify_Expired (cap_expires_at cap) now) else
          if (negotiated <? cap_agent_min_protocol cap) ||
             (cap_agent_max_protocol cap <? negotiated)
          then Err (Verify_ProtocolRangeViolation negotiated (cap_agent_min_protocol cap)
                      (cap_agent_max_protocol cap)) else
          Ok tt
      end
  end.

(** Step 6. *)
Definition check_signature (key : bytes) (cap : SessionCapability) :
    result CapabilityVerificationError unit :=
  let raw_bytes := prost_encode (unsigned_capability cap) in
  if negb (len (cap_signature cap) =? 64)
  then Err (Verify_InvalidSignature "signature must be 64 bytes") else
  if ed_verify key raw_bytes (cap_signature cap) then Ok tt
  else Err (Verify_InvalidSignature dalek_error).

(** [CapabilityVerifier::verify] *)
Definition CapabilityVerifier_verify (v : CapabilityVerifier) (cap : SessionCapability)
    (negotiated_protocol now instant_now : Z) :
    result CapabilityVerificationError unit * CapabilityVerifier :=
  match check_claims (cv_target_device_id v) cap negotiated_protocol now with
  | Err e => (Err e, v)
  | Ok _ =>
      let (accepted, cache) :=
        NonceReplayCache_accept (cv_replay_cache v) (cap_nonce cap) instant_now in
      let v := mkCapabilityVerifier (cv_verifying_key v) cache (cv_target_device_id v) in
      if negb accepted then (Err Verify_ReplayDetected, v)
      else (check_signature (cv_verifying_key v) cap, v)
  end.

(** ** What a verified capability is *)

(** The limits of the schema. *)
Record well_formed (cap : SessionCapability) : Prop := {
  wf_version : cap_version cap = 1;
  wf_identity : Forall (λ s, 1 ≤ str_len s ≤ 128)
    [cap_issuer cap; cap_session_id cap; cap_subject_user_id cap;
     cap_client_device_id cap; cap_target_device_id cap];
  wf_window : cap_not_before cap < cap_expires_at cap;
  wf_permissions : 1 ≤ len (cap_permissions cap) ≤ 32;
  wf_nonce : 1 ≤ len (cap_nonce cap) ≤ 64;
  wf_protocol : cap_agent_min_protocol cap ≤ cap_agent_max_protocol cap
}.

Lemma identity_bad_spec s : identity_bad s = false ↔ 1 ≤ str_len s ≤ 128.
Proof.
  unfold identity_bad, MAX_SESSION_ID_LEN. rewrite str_is_empty_len.
  assert (0 ≤ str_len s) by (unfold str_len; lia). lia.
Qed.

Lemma existsb_false {A} (f : A → bool) l : existsb f l = false ↔ Forall (λ x, f x = false) l.
Proof.
  induction l as [|x l IH]; cbn; [by split; [constructor|]|].
  rewrite orb_false_iff, Forall_cons, IH. done.
Qed.

Lemma capability_validate_spec cap :
  is_ok (SessionCapability_validate cap) = true ↔ well_formed cap.
Proof.
  unfold SessionCapability_validate.
  assert (existsb identity_bad [cap_issuer cap; cap_session_id cap; cap_subject_user_id cap;
     cap_client_device_id cap; cap_target_device_id cap] = false ↔
    Forall (λ s, 1 ≤ str_len s ≤ 128) [cap_issuer cap; cap_session_id cap;
     cap_subject_user_id cap; cap_client_device_id cap; cap_target_device_id cap]) as Hid.
  { rewrite existsb_false. apply Forall_iff. intros s. apply identity_bad_spec. }
  pose proof (Nat2Z.is_nonneg (length (cap_permissions cap))).
  pose proof (Nat2Z.is_nonneg (length (cap_nonce cap))).
  unfold MAX_CAPABILITY_PERMISSIONS, MAX_NONCE_LEN, len in *.
  split.
  - intros Hok. repeat (case_match; [done|]). bool_hyps.
    split; unfold len; try lia; by apply Hid.
  - intros [? Hf ? ? ? ?]. apply Hid in Hf. rewrite Hf. unfold len in *.
    repeat match goal with |- context [if ?b then _ else _] =>
      replace b with false by lia end. done.
Qed.

(** What the control plane's capability must satisfy here and now. *)
Record claims_hold (target : option string) (cap : SessionCapability)
    (negotiated now : Z) : Prop := {
  ch_schema : well_formed cap;
  ch_target : ∀ expected, target = Some expected → cap_target_device_id cap = expected;
  ch_time : cap_not_before cap ≤ now ≤ cap_expires_at cap;
  ch_protocol : cap_agent_min_protocol cap ≤ negotiated ≤ cap_agent_max_protocol cap
}.

Lemma check_claims_spec target cap negotiated now :
  is_ok (check_claims target cap negotiated now) = true ↔
    claims_hold target cap negotiated now.
Proof.
  unfold check_claims.
  pose proof (capability_validate_spec cap) as Hv.
  destruct (SessionCapability_validate cap) as [u|e]; cbn in *.
  - assert (well_formed cap) as Hwf by by apply Hv.
    destruct (match target with Some _ => _ | None => None end) as [e|] eqn:Et.
    + split; [done|]. intros [_ Ht _ _]. exfalso. destruct target as [ex|]; [|done].
      rewrite (Ht ex eq_refl) in Et. unfold str_eqb in Et.
      by rewrite bool_decide_true in Et.
    + assert (∀ expected, target = Some expected → cap_target_device_id cap = expected) as Ht.
      { intros ex ->. case_match eqn:E; [done|]. by bool_hyps. }
      split.
      * intros Hok. repeat (case_match; [done|]). bool_hyps. split; done || lia.
      * intros [_ _ ? ?]. repeat match goal with |- context [if ?b then _ else _] =>
          replace b with false by lia end. done.
  - split; [done|]. intros [Hwf _ _ _]. by apply Hv in Hwf.
Qed.

Lemma verify_ok_iff v cap negotiated now instant :
  (CapabilityVerifier_verify v cap negotiated now instant).1 = Ok tt ↔
    claims_hold (cv_target_device_id v) cap negotiated now ∧
    (NonceReplayCache_accept (cv_replay_cache v) (cap_nonce cap) instant).1 = true ∧
    len (cap_signature cap) = 64 ∧
    ed_verify (cv_verifying_key v) (SessionCapability_signing_bytes cap) (cap_signature cap) = true.
Proof.
  unfold CapabilityVerifier_verify, check_signature, SessionCapability_signing_bytes.
  rewrite <-check_claims_spec. destruct (check_claims _ _ _ _) as [[]|e]; cbn; [|naive_solver].
  destruct (NonceReplayCache_accept _ _ _) as [[] cache]; cbn; [|naive_solver].
  destruct (Z.eqb_spec (len (cap_signature cap)) 64); cbn; [|naive_solver].
  destruct (ed_verify _ _ _); naive_solver.
Qed.

(** The verifier's key and device never change. *)
Lemma verify_frame v cap negotiated now instant :
  let v' := (CapabilityVerifier_verify v cap negotiated now instant).2 in
  cv_verifying_key v' = cv_verifying_key v ∧ cv_target_device_id v' = cv_target_device_id v.
Proof.
  unfold CapabilityVerifier_verify. destruct (check_claims _ _ _ _); [|done].
  destruct (NonceReplayCache_accept _ _ _) as [[] ?]; done.
Qed.

(** ** Sequences of verifications *)

Record attempt := mkAttempt {
  at_capability : SessionCapability; at_negotiated : Z; at_now : Z; at_instant : Z
}.

Fixpoint verify_all (v : CapabilityVerifier) (attempts : list attempt) :
    list (result CapabilityVerificationError unit) :=
  match attempts with
  | [] => []
  | a :: attempts =>
      let (o, v) := CapabilityVerifier_verify v (at_capability a) (at_negotiated a)
                      (at_now a) (at_instant a) in
      o :: verify_all v attempts
  end.

Fixpoint instants_from (last : Z) (attempts : list attempt) : Prop :=
  match attempts with
  | [] => True
  | a :: attempts => last ≤ at_instant a ∧ instants_from (at_instant a) attempts
  end.

(** The outcomes after which the nonce is used up: it is recorded before the signature is
    checked. *)
Definition consumes (o : result CapabilityVerificationError unit) : bool :=
  match o with Ok _ | Err (Verify_InvalidSignature _) => true | _ => false end.
(** The nonces that a sequence of verifications used up, with their times. *)
Definition consumed (run : list (attempt * result CapabilityVerificationError unit)) : list (bytes * Z) :=
  omap (λ '(a, o), if consumes o then Some (cap_nonce (at_capability a), at_instant a) else None) run.
#[local] Arguments consumed : simpl never.
Lemma consumed_cons p run : consumed (p :: run) = consumed [p] ++ consumed run.
Proof. destruct p as [a o]. unfold consumed. cbn. by destruct (consumes o). Qed.

Definition signed_by (key : bytes) (cap : SessionCapability) : Prop :=
  len (cap_signature cap) = 64 ∧
  ed_verify key (SessionCapability_signing_bytes cap) (cap_signature cap) = true.

(** One verification against the abstract replay window. *)
Lemma verify_step ttl capacity v log last a :
  0 < ttl → refines ttl capacity (cv_replay_cache v) log last → last ≤ at_instant a →
  let r := CapabilityVerifier_verify v (at_capability a) (at_negotiated a) (at_now a) (at_instant a) in
  let claims := claims_hold (cv_target_device_id v) (at_capability a) (at_negotiated a) (at_now a) in
  let fresh := window_accepts ttl capacity log (cap_nonce (at_capability a)) (at_instant a) in
  (r.1 = Ok tt ↔ claims ∧ fresh = true ∧ signed_by (cv_verifying_key v) (at_capability a)) ∧
  (r.1 = Err Verify_ReplayDetected ↔ claims ∧ fresh = false) ∧
  ∃ last', last' ≤ at_instant a ∧
    refines ttl capacity (cv_replay_cache r.2) (log ++ consumed [(a, r.1)]) last'.
Proof.
  intros Httl Href Hle r claims fresh.
  destruct (accept_refines ttl capacity (cv_replay_cache v) log last
    (cap_nonce (at_capability a)) (at_instant a) Httl Href Hle) as [E1 E2].
  unfold window_step in E2. fold fresh in E1, E2. split.
  { unfold r, claims, signed_by. rewrite verify_ok_iff, E1. done. }
  pose proof (check_claims_spec (cv_target_device_id v) (at_capability a) (at_negotiated a) (at_now a)) as Hc.
  fold claims in Hc. unfold r, CapabilityVerifier_verify.
  destruct (check_claims _ _ _ _) as [[]|e] eqn:Ec; cbn in Hc.
  - destruct (NonceReplayCache_accept _ _ _) as [[] c]; cbn in E1, E2; rewrite <-E1 in *;
      cbn [negb fst snd cv_verifying_key cv_replay_cache].
    + assert (consumed [(a, check_signature (cv_verifying_key v) (at_capability a))] =
        [(cap_nonce (at_capability a), at_instant a)]) as ->
        by (unfold check_signature; by repeat case_match).
      split; [|by exists (at_instant a)]. unfold check_signature. repeat case_match; split; naive_solver.
    + change (consumed [(a, Err Verify_ReplayDetected)]) with (@nil (bytes * Z)).
      rewrite (right_id_L [] (++)). split; [naive_solver|by exists (at_instant a)].
  - cbn [fst snd]. assert (consumed [(a, Err e)] = []) as ->.
    { unfold check_claims in Ec. repeat case_match; by simplify_eq/=. }
    rewrite (right_id_L [] (++)). split; [|by exists last].
    split; [|intros [Hcl _]; by apply Hc in Hcl]. intros [= ->].
    exfalso. unfold check_claims in Ec. repeat case_match; by simplify_eq/=.
Qed.

Lemma verify_window ttl capacity v log last a :
  0 < ttl → refines ttl capacity (cv_replay_cache v) log last → last ≤ at_instant a →
  let r := CapabilityVerifier_verify v (at_capability a) (at_negotiated a)
             (at_now a) (at_instant a) in
  ∃ log' last', log ⊆ log' ∧ last' ≤ at_instant a ∧
    refines ttl capacity (cv_replay_cache r.2) log' last' ∧
    (r.1 = Ok tt → (cap_nonce (at_capability a), at_instant a) ∈ log' ∧
       ∀ t, (cap_nonce (at_capability a), t) ∈ log → ttl ≤ at_instant a - t).
Proof.
  intros Httl Href Hle r.
  destruct (verify_step ttl capacity v log last a Httl Href Hle) as (Hok & _ & last' & Hl & Href').
  fold r in Hok, Href'. exists (log ++ consumed [(a, r.1)]), last'. split_and!; [set_solver|done|done|].
  intros E. rewrite E. split; [unfold consumed; cbn; set_solver|]. apply Hok in E as (_ & Hacc & _).
  intros t Ht. unfold window_accepts in Hacc. bool_hyps.
  destruct (Z.lt_ge_cases (at_instant a - t) ttl); [exfalso|lia].
  match goal with H : _ ∉ _ |- _ => apply H end. apply list_elem_of_fmap.
  eexists (_, t). split; [done|]. by apply list_elem_of_filter.
Qed.

Lemma verify_all_later ttl capacity v log last attempts n t j a :
  0 < ttl → refines ttl capacity (cv_replay_cache v) log last → instants_from last attempts →
  (n, t) ∈ log → attempts !! j = Some a → cap_nonce (at_capability a) = n →
  verify_all v attempts !! j = Some (Ok tt) → ttl ≤ at_instant a - t.
Proof.
  intros Httl. revert v log last j. induction attempts as [|b attempts IH];
    intros v log last j Href Hord Hlog Hj Hn; [done|]. destruct Hord as [Hle Hord].
  cbn. destruct (verify_window ttl capacity v log last b Httl Href Hle)
    as (log' & last' & Hsub & Hle' & Href' & Hok).
  destruct (CapabilityVerifier_verify v _ _ _ _) as [o v']. cbn in *.
  destruct j as [|j]; cbn in *.
  - intros [= ->]. simplify_eq. by apply Hok.
  - apply (IH v' log' last'); [done| |by apply Hsub|done|done].
    destruct attempts as [|c cs]; cbn in *; [done|]. split; [lia|apply Hord].
Qed.

Lemma verify_all_spaced ttl capacity v log last attempts i j a b :
  0 < ttl → refines ttl capacity (cv_replay_cache v) log last → instants_from last attempts →
  (i < j)%nat → attempts !! i = Some a → attempts !! j = Some b →
  cap_nonce (at_capability a) = cap_nonce (at_capability b) →
  verify_all v attempts !! i = Some (Ok tt) → verify_all v attempts !! j = Some (Ok tt) →
  ttl ≤ at_instant b - at_instant a.
Proof.
  intros Httl. revert v log last i j. induction attempts as [|c attempts IH];
    intros v log last i j Href Hord Hij Hi Hj Hn; [done|]. destruct Hord as [Hle Hord].
  cbn. destruct (verify_window ttl capacity v log last c Httl Href Hle)
    as (log' & last' & Hsub & Hle' & Href' & Hok).
  destruct (CapabilityVerifier_verify v _ _ _ _) as [o v']. cbn in *.
  assert (instants_from last' attempts) as Hord'.
  { destruct attempts as [|d ds]; cbn in *; [done|]. split; [lia|apply Hord]. }
  destruct j as [|j]; [lia|]. destruct i as [|i]; cbn in *.
  - intros [= ->] Hvj. simplify_eq. destruct (Hok eq_refl) as [Hin _].
    by eapply verify_all_later.
  - intros Hvi Hvj. eapply (IH v' log' last' i j); eauto; lia.
Qed.

(** The [j]-th outcome of a run, by the outcomes before it. *)
Lemma verify_all_outcome ttl capacity v log last attempts j a :
  0 < ttl → refines ttl capacity (cv_replay_cache v) log last → instants_from last attempts →
  attempts !! j = Some a →
  let outs := verify_all v attempts in
  let claims := claims_hold (cv_target_device_id v) (at_capability a) (at_negotiated a) (at_now a) in
  let fresh := window_accepts ttl capacity (log ++ consumed (take j (zip attempts outs)))
    (cap_nonce (at_capability a)) (at_instant a) in
  (outs !! j = Some (Ok tt) ↔ claims ∧ fresh = true ∧ signed_by (cv_verifying_key v) (at_capability a)) ∧
  (outs !! j = Some (Err Verify_ReplayDetected) ↔ claims ∧ fresh = false).
Proof.
  intros Httl. revert v log last j. induction attempts as [|b attempts IH];
    intros v log last j Href Hord Hj; [done|]. destruct Hord as [Hle Hord].
  destruct (verify_step ttl capacity v log last b Httl Href Hle) as (Hok & Hrep & last' & Hl & Href').
  pose proof (verify_frame v (at_capability b) (at_negotiated b) (at_now b) (at_instant b)) as [Ek Et].
  cbn [verify_all]. destruct (CapabilityVerifier_verify v _ _ _ _) as [o v'] eqn:E. cbn in Hok, Hrep, Href', Ek, Et.
  destruct j as [|j]; cbn in *.
  - simplify_eq. change (consumed []) with (@nil (bytes * Z)). rewrite (right_id_L [] (++)), <-Hok, <-Hrep. split; split; congruence.
  - rewrite <-Ek, <-Et.
    rewrite consumed_cons, (assoc_L (++)).
    eapply IH; [exact Href'| |done]. destruct attempts; cbn in *; [done|]. split; [lia|apply Hord].
Qed.

(** Every success of a run is a success of some verifier with the same key and
    device. *)
Lemma verify_all_ok v attempts i a :
  attempts !! i = Some a → verify_all v attempts !! i = Some (Ok tt) →
  claims_hold (cv_target_device_id v) (at_capability a) (at_negotiated a) (at_now a) ∧
  len (cap_signature (at_capability a)) = 64 ∧
  ed_verify (cv_verifying_key v) (SessionCapability_signing_bytes (at_capability a))
    (cap_signature (at_capability a)) = true.
Proof.
  revert v i. induction attempts as [|b attempts IH]; intros v i Hi; [done|]. cbn.
  pose proof (verify_frame v (at_capability b) (at_negotiated b) (at_now b) (at_instant b)) as Hfr.
  pose proof (verify_ok_iff v (at_capability b) (at_negotiated b) (at_now b) (at_instant b)) as Hok.
  destruct (CapabilityVerifier_verify v _ _ _ _) as [o v']. cbn in *.
  destruct Hfr as [E1 E2]. destruct i as [|i]; cbn in *.
  - intros [= ->]. simplify_eq. destruct (proj1 Hok eq_refl) as (? & _ & ? & ?). done.
  - rewrite <-E1, <-E2. by apply IH.
Qed.
End verify.

(** C5. The outcome of every verification in a run, in the order of the monotonic clock.
    A capability is accepted exactly when its claims hold (it is well formed, names this
    device, and is within its validity window and protocol range), no earlier attempt
    used up its nonce less than the replay window ago, fewer nonces than the capacity were
    used up in that time, and its signature of 64 bytes is the control plane's over all
    its other fields.  An attempt whose claims hold is answered as a replay exactly when
    its nonce is not fresh.  An attempt uses its nonce up when it is accepted or fails only
    by its signature. *)
Theorem capability_verified_iff `{Ed25519, Prost SessionCapability} err key ttl capacity target
    attempts j cap negotiated now instant start :
  0 < ttl → instants_from start attempts → attempts !! j = Some (mkAttempt cap negotiated now instant) →
  let outs := verify_all err (with_target_device_id (CapabilityVerifier_new key ttl capacity) target) attempts in
  let used := consumed (take j (zip attempts outs)) in
  let fresh := (∀ t, (cap_nonce cap, t) ∈ used → ttl ≤ instant - t) ∧
               len (filter (λ e, instant - e.2 < ttl) used) < Z.max capacity 1 in
  (outs !! j = Some (Ok tt) ↔
     claims_hold (Some target) cap negotiated now ∧ fresh ∧ len (cap_signature cap) = 64 ∧
     ed_verify key (prost_encode (mkSessionCapability (cap_version cap) (cap_issuer cap) (cap_session_id cap)
       (cap_subject_user_id cap) (cap_client_device_id cap) (cap_target_device_id cap) (cap_permissions cap)
       (cap_restrictions cap) (cap_not_before cap) (cap_expires_at cap) (cap_nonce cap)
       (cap_agent_min_protocol cap) (cap_agent_max_protocol cap) (cap_client_ephemeral_public_key cap) []))
       (cap_signature cap) = true) ∧
  (outs !! j = Some (Err Verify_ReplayDetected) ↔ claims_hold (Some target) cap negotiated now ∧ ¬ fresh).
Proof.
  intros Httl Hord Hj outs used fresh.
  assert (fresh ↔ window_accepts ttl (Z.max capacity 1) ([] ++ used) (cap_nonce cap) instant = true) as Hf.
  { unfold fresh, window_accepts, recent. cbn [app].
    rewrite andb_true_iff, bool_decide_eq_true, Z.ltb_lt, list_elem_of_fmap. apply and_iff_compat_r. split.
    - intros Hn ([n t] & En & [Hr Hin]%list_elem_of_filter). cbn in En, Hr. subst n. specialize (Hn t Hin). lia.
    - intros Hn t Ht. destruct (Z.lt_ge_cases (instant - t) ttl); [exfalso|lia]. apply Hn.
      exists (cap_nonce cap, t). split; [done|]. by apply list_elem_of_filter. }
  destruct (verify_all_outcome err ttl (Z.max capacity 1)
    (with_target_device_id (CapabilityVerifier_new key ttl capacity) target) [] start attempts j _
    Httl ltac:(by split; constructor) Hord Hj) as [Hok Hrep].
  fold outs used in Hok, Hrep. cbn [at_capability at_negotiated at_now at_instant] in Hok, Hrep. split.
  - rewrite Hok, Hf. done.
  - rewrite Hrep, Hf, not_true_iff_false. done.
Qed.

(** C6. One-time use: over any sequence of verifications in the order of the monotonic
    clock, two attempts with the same nonce are accepted only if the replay window lies
    between them, whatever capabilities carry the nonce.  Where the instants advance with
    the time of day: if the window is longer than the time from the first capability's
    start to the second one's end, end second included, never both are accepted; if it is
    just as long, as the agent's window is for the capabilities the control plane issues,
    only when the first was accepted in its first and the second in its last second. *)
Theorem capability_single_use `{Ed25519, Prost SessionCapability} err key ttl capacity target
    attempts i j a b start :
  0 < ttl → instants_from start attempts → (i < j)%nat →
  attempts !! i = Some a → attempts !! j = Some b →
  cap_nonce (at_capability a) = cap_nonce (at_capability b) →
  let v := with_target_device_id (CapabilityVerifier_new key ttl capacity) target in
  let start := cap_not_before (at_capability a) in
  let stop := cap_expires_at (at_capability b) in
  verify_all err v attempts !! i = Some (Ok tt) → verify_all err v attempts !! j = Some (Ok tt) →
  ttl ≤ at_instant b - at_instant a ∧
  (at_instant b - at_instant a < (at_now b - at_now a + 1) * 1000000000 →
   ttl < (stop - start + 1) * 1000000000 ∧
   ((stop - start) * 1000000000 ≤ ttl → at_now a = start ∧ at_now b = stop)).
Proof.
  intros Httl Hord Hij Hi Hj Hn v s0 s1 Hvi Hvj.
  destruct (verify_all_ok err v attempts i a Hi Hvi) as ([_ _ Hta _] & _).
  destruct (verify_all_ok err v attempts j b Hj Hvj) as ([_ _ Htb _] & _).
  assert (ttl ≤ at_instant b - at_instant a).
  { eapply (verify_all_spaced err ttl (Z.max capacity 1) v [] start); eauto. by split; constructor. }
  unfold s0, s1. split; [done|]. intros Hclk. lia.
Qed.

(** ** A concrete verifier *)

Definition sample_capability (sig : bytes) : SessionCapability :=
  mkSessionCapability 1 "cp" "s1" "alice" "client-1" "agent-1" ["desktop.view"] []
    100 220 [x07] 1 1 [] sig.
Definition sample_verifier (ttl : Z) : CapabilityVerifier :=
  with_target_device_id (CapabilityVerifier_new (replicate 32 x09) ttl 16) "agent-1".
Definition good_sig : bytes := replicate 64 x09.
Definition toy_verify_all :=
  @verify_all toy_ed25519 (countable_prost SessionCapability) "signature error".

(** A capability is accepted, a copy within the window is a replay. *)
Definition replay_attempts : list attempt :=
  [mkAttempt (sample_capability good_sig) 1 100 0; mkAttempt (sample_capability good_sig) 1 150 50000000000].
Lemma capability_verified_iff_witness :
  toy_verify_all (sample_verifier 120000000000) replay_attempts !! 1%nat = Some (Err Verify_ReplayDetected).
Proof.
  refine (proj2 (proj2 (@capability_verified_iff toy_ed25519 (countable_prost SessionCapability) "signature error"
    (replicate 32 x09) 120000000000 16 "agent-1" replay_attempts 1 (sample_capability good_sig) 1 150 50000000000 0
    _ _ _)) _); [lia|cbn; lia|reflexivity|]. split.
  - apply check_claims_spec. reflexivity.
  - intros [Hn _]. assert (120000000000 ≤ 50000000000 - 0) as Hle; [apply Hn|lia].
    vm_compute. left.
Defined.

(** The agent's window: the two acceptances are in the first and the last second. *)
Lemma capability_single_use_witness :
  let attempts := [mkAttempt (sample_capability good_sig) 1 100 0;
                   mkAttempt (sample_capability good_sig) 1 220 120000000000] in
  toy_verify_all (sample_verifier 120000000000) attempts = [Ok tt; Ok tt] ∧
  120000000000 ≤ 120000000000 - 0 ∧ 120000000000 < (220 - 100 + 1) * 1000000000.
Proof.
  intros attempts. split; [by vm_compute|].
  destruct (@capability_single_use toy_ed25519 (countable_prost SessionCapability)
    "signature error" (replicate 32 x09) 120000000000 16 "agent-1" attempts 0 1 _ _ 0 eq_refl
    ltac:(cbn; lia) ltac:(lia) eq_refl eq_refl eq_refl ltac:(by vm_compute) ltac:(by vm_compute)) as [Hg Hr].
  split; [exact Hg|]. apply Hr. cbn. lia.
Defined.

(** With a window as long as the validity, as the agent configures it, the same
    capability is accepted again in its last second, which the inclusive expiry
    test still admits. *)
Example replay_accepted_in_last_second :
  toy_verify_all (sample_verifier 120000000000)
    [mkAttempt (sample_capability good_sig) 1 100 0;
     mkAttempt (sample_capability good_sig) 1 220 120000000000] = [Ok tt; Ok tt].
Proof. by vm_compute. Qed.

(** The nonce is consumed before the signature is checked, so an unsigned copy
    of a capability makes the genuine one be rejected as a replay. *)
Example unsigned_copy_burns_nonce :
  toy_verify_all (sample_verifier 120000000000)
    [mkAttempt (sample_capability []) 1 100 0;
     mkAttempt (sample_capability good_sig) 1 101 1000000000] =
  [Err (Verify_InvalidSignature "signature must be 64 bytes"); Err Verify_ReplayDetected].
Proof. by vm_compute. Qed.
