(* ===== verification/Enrollment.v ===== *)
(** * Enrollment tokens and device credentials
      (crates/nexus-auth/src/enrollment.rs, credential.rs)

    Canonical payloads are serialized by [serde_json], a third-party crate: it
    is the class [SerdeJson] of a serializer, whose documented behaviour is that
    distinct values of a type have distinct texts. *)

From S2P Require Import Prelude Crypto Protocol.

Open Scope string_scope.
Open Scope list_scope.
Open Scope Z_scope.

(** [serde_json::to_vec]; [Err] carries the error's text. *)
Class SerdeJson (A : Type) := json_to_vec : A → result string bytes.
Class SerdeJsonLaws (A : Type) `{SerdeJson A} :=
  json_to_vec_inj : ∀ a b t, json_to_vec a = Ok t → json_to_vec b = Ok t → a = b.

(** ** Enrollment tokens *)

Inductive DeviceType := Device_Host | Device_Client | Device_Relay.
Definition DeviceType_as_str (d : DeviceType) : string :=
  match d with Device_Host => "host" | Device_Client => "client" | Device_Relay => "relay" end.

Lemma DeviceType_as_str_inj d e : DeviceType_as_str d = DeviceType_as_str e → d = e.
Proof. by destruct d, e. Qed.

Inductive EnrollmentTokenError :=
  | Token_Expired (expired_at current_time : Z)
  | Token_NotYetActive (not_before current_time : Z)
  | Token_InvalidSignature (message : string)
  | Token_MissingField (name : string)
  | Token_Serialization (message : string).

Record EnrollmentToken := mkEnrollmentToken {
  tok_token_id : string;
  tok_organization_id : string;
  tok_device_type : DeviceType;
  tok_not_before : Z;
  tok_expires_at : Z;
  tok_max_uses : Z;
  tok_signature : bytes
}.

(** [CanonicalEnrollmentPayload], in the order of its fields. *)
Record CanonicalEnrollmentPayload := mkCanonicalEnrollmentPayload {
  cep_token_id : string; cep_organization_id : string; cep_device_type : string;
  cep_not_before : Z; cep_expires_at : Z; cep_max_uses : Z
}.

Definition token_payload (t : EnrollmentToken) : CanonicalEnrollmentPayload :=
  mkCanonicalEnrollmentPayload (tok_token_id t) (tok_organization_id t)
    (DeviceType_as_str (tok_device_type t)) (tok_not_before t) (tok_expires_at t)
    (tok_max_uses t).

Definition token_with_signature (t : EnrollmentToken) (sig : bytes) : EnrollmentToken :=
  mkEnrollmentToken (tok_token_id t) (tok_organization_id t) (tok_device_type t)
    (tok_not_before t) (tok_expires_at t) (tok_max_uses t) sig.

Section token.
Context `{Ed25519, SerdeJson CanonicalEnrollmentPayload}.
Context (dalek_error : string).

Definition EnrollmentToken_signing_bytes (t : EnrollmentToken) :
    result EnrollmentTokenError bytes :=
  map_err Token_Serialization (json_to_vec (token_payload t)).

(** [sign] updates the token only when serialization succeeds. *)
Definition EnrollmentToken_sign (t : EnrollmentToken) (signing_key : bytes) :
    result EnrollmentTokenError unit * EnrollmentToken :=
  match EnrollmentToken_signing_bytes t with
  | Err e => (Err e, t)
  | Ok b => (Ok tt, token_with_signature t (ed_sign signing_key b))
  end.

Definition EnrollmentToken_verify (t : EnrollmentToken) (verifying_key : bytes) (now : Z) :
    result EnrollmentTokenError unit :=
  if now <? tok_not_before t then Err (Token_NotYetActive (tok_not_before t) now) else
  if tok_expires_at t <? now then Err (Token_Expired (tok_expires_at t) now) else
  if negb (len (tok_signature t) =? 64)
  then Err (Token_InvalidSignature "signature length must be 64 bytes") else
  b ← EnrollmentToken_signing_bytes t;
  if ed_verify verifying_key b (tok_signature t) then Ok tt
  else Err (Token_InvalidSignature dalek_error).
End token.

(** The builder. *)
Record EnrollmentTokenBuilder := mkEnrollmentTokenBuilder {
  tb_token_id : option string; tb_organization_id : option string;
  tb_device_type : option DeviceType; tb_not_before : option Z;
  tb_expires_at : option Z; tb_max_uses : option Z
}.
Definition EnrollmentTokenBuilder_build (b : EnrollmentTokenBuilder) :
    result EnrollmentTokenError EnrollmentToken :=
  token_id ← ok_or (tb_token_id b) (Token_MissingField "token_id");
  organization_id ← ok_or (tb_organization_id b) (Token_MissingField "organization_id");
  device_type ← ok_or (tb_device_type b) (Token_MissingField "device_type");
  let not_before := default 0 (tb_not_before b) in
  expires_at ← ok_or (tb_expires_at b) (Token_MissingField "expires_at");
  let max_uses := default 1 (tb_max_uses b) in
  Ok (mkEnrollmentToken token_id organization_id device_type not_before expires_at max_uses []).

(** ** Registration requests *)

Inductive DeviceCredentialError :=
  | Cred_Expired (expired_at current_time : Z)
  | Cred_NotYetActive (not_before current_time : Z)
  | Cred_InvalidSignature (message : string)
  | Cred_InvalidProofOfPossession (message : string)
  | Cred_Enrollment (e : EnrollmentTokenError)
  | Cred_MissingField (name : string)
  | Cred_Serialization (message : string).

Record DeviceRegistrationRequest := mkDeviceRegistrationRequest {
  req_enrollment_token : EnrollmentToken;
  req_device_public_key : bytes;
  req_os : string;
  req_architecture : string;
  req_hostname : string;
  req_agent_version : string;
  req_requested_at : Z;
  req_proof_signature : bytes
}.

Definition proof_bytes (r : DeviceRegistrationRequest) : bytes :=
  as_bytes (tok_token_id (req_enrollment_token r)) ++ to_be_bytes 8 (req_requested_at r).

Section proof.
Context `{Ed25519}.
Context (dalek_error : string).

Definition sign_proof (r : DeviceRegistrationRequest) (device_key : bytes) :
    DeviceRegistrationRequest :=
  mkDeviceRegistrationRequest (req_enrollment_token r) (req_device_public_key r) (req_os r)
    (req_architecture r) (req_hostname r) (req_agent_version r) (req_requested_at r)
    (ed_sign device_key (proof_bytes r)).

Definition verify_proof (r : DeviceRegistrationRequest) : result DeviceCredentialError unit :=
  if negb (len (req_device_public_key r) =? 32)
  then Err (Cred_InvalidProofOfPossession "device public key must be 32 bytes") else
  if negb (ed_key_valid (req_device_public_key r))
  then Err (Cred_InvalidProofOfPossession ("invalid public key encoding: " +:+ dalek_error)) else
  if negb (len (req_proof_signature r) =? 64)
  then Err (Cred_InvalidProofOfPossession "proof signature must be 64 bytes") else
  if ed_verify (req_device_public_key r) (proof_bytes r) (req_proof_signature r) then Ok tt
  else Err (Cred_InvalidProofOfPossession dalek_error).
End proof.

(** ** Device credentials *)

Record DeviceCredential := mkDeviceCredential {
  cred_device_id : string;
  cred_organization_id : string;
  cred_public_key : bytes;
  cred_device_type : DeviceType;
  cred_os : string;
  cred_architecture : string;
  cred_capabilities : list string;
  cred_issued_at : Z;
  cred_expires_at : Z;
  cred_signature : bytes
}.

Record CanonicalCredentialPayload := mkCanonicalCredentialPayload {
  ccp_device_id : string; ccp_organization_id : string; ccp_public_key : bytes;
  ccp_device_type : string; ccp_os : string; ccp_architecture : string;
  ccp_capabilities : list string; ccp_issued_at : Z; ccp_expires_at : Z
}.

Definition credential_payload (c : DeviceCredential) : CanonicalCredentialPayload :=
  mkCanonicalCredentialPayload (cred_device_id c) (cred_organization_id c)
    (cred_public_key c) (DeviceType_as_str (cred_device_type c)) (cred_os c)
    (cred_architecture c) (cred_capabilities c) (cred_issued_at c) (cred_expires_at c).

Definition credential_with_signature (c : DeviceCredential) (sig : bytes) : DeviceCredential :=
  mkDeviceCredential (cred_device_id c) (cred_organization_id c) (cred_public_key c)
    (cred_device_type c) (cred_os c) (cred_architecture c) (cred_capabilities c)
    (cred_issued_at c) (cred_expires_at c) sig.

Section credential.
Context `{Ed25519, SerdeJson CanonicalCredentialPayload}.
Context (dalek_error : string).

Definition DeviceCredential_signing_bytes (c : DeviceCredential) :
    result DeviceCredentialError bytes :=
  map_err Cred_Serialization (json_to_vec (credential_payload c)).

Definition DeviceCredential_sign (c : DeviceCredential) (cp_signing_key : bytes) :
    result DeviceCredentialError unit * DeviceCredential :=
  match DeviceCredential_signing_bytes c with
  | Err e => (Err e, c)
  | Ok b => (Ok tt, credential_with_signature c (ed_sign cp_signing_key b))
  end.

Definition DeviceCredential_verify (c : DeviceCredential) (cp_verifying_key : bytes) (now : Z) :
    result DeviceCredentialError unit :=
  if now <? cred_issued_at c then Err (Cred_NotYetActive (cred_issued_at c) now) else
  if cred_expires_at c <? now then Err (Cred_Expired (cred_expires_at c) now) else
  if negb (len (cred_signature c) =? 64)
  then Err (Cred_InvalidSignature "signature length must be 64 bytes") else
  b ← DeviceCredential_signing_bytes c;
  if ed_verify cp_verifying_key b (cred_signature c) then Ok tt
  else Err (Cred_InvalidSignature dalek_error).
End credential.

Record DeviceCredentialBuilder := mkDeviceCredentialBuilder {
  cb_device_id : option string; cb_organization_id : option string;
  cb_public_key : option bytes; cb_device_type : option DeviceType;
  cb_os : option string; cb_architecture : option string;
  cb_capabilities : list string; cb_issued_at : option Z; cb_expires_at : option Z
}.
Definition DeviceCredentialBuilder_build (b : DeviceCredentialBuilder) :
    result DeviceCredentialError DeviceCredential :=
  device_id ← ok_or (cb_device_id b) (Cred_MissingField "device_id");
  organization_id ← ok_or (cb_organization_id b) (Cred_MissingField "organization_id");
  public_key ← ok_or (cb_public_key b) (Cred_MissingField "public_key");
  device_type ← ok_or (cb_device_type b) (Cred_MissingField "device_type");
  let os := default "windows" (cb_os b) in
  let architecture := default "x86_64" (cb_architecture b) in
  let issued_at := default 0 (cb_issued_at b) in
  expires_at ← ok_or (cb_expires_at b) (Cred_MissingField "expires_at");
  Ok (mkDeviceCredential device_id organization_id public_key device_type os architecture
        (cb_capabilities b) issued_at expires_at []).

(** ** Theorems *)

Lemma proof_bytes_inj r s :
  uint 64 (req_requested_at r) → uint 64 (req_requested_at s) →
  proof_bytes r = proof_bytes s →
  tok_token_id (req_enrollment_token r) = tok_token_id (req_enrollment_token s) ∧
  req_requested_at r = req_requested_at s.
Proof.
  unfold proof_bytes. intros Hr Hs E.
  assert (length (as_bytes (tok_token_id (req_enrollment_token r))) =
          length (as_bytes (tok_token_id (req_enrollment_token s)))) as Hl.
  { apply (f_equal length) in E. rewrite !length_app, !length_to_be_bytes in E. lia. }
  apply app_inj_length in E as [E1 E2]; [|done].
  split; [by apply as_bytes_inj|]. by apply to_be_bytes_inj in E2.
Qed.

Section laws.
Context `{Ed25519Laws}.
Context (err : string).

Lemma verify_proof_sign_proof r sk :
  req_device_public_key r = ed_public sk → verify_proof err (sign_proof r sk) = Ok tt.
Proof.
  intros Hk. unfold verify_proof, sign_proof. cbn. rewrite Hk. unfold len.
  rewrite ed_public_length, ed_sign_length, ed_public_valid. cbn.
  change (proof_bytes _) with (proof_bytes r). by rewrite ed_verify_sign.
Qed.

Lemma credential_sign_verify `{SerdeJson CanonicalCredentialPayload} c sk c' now :
  DeviceCredential_sign c sk = (Ok tt, c') →
  DeviceCredential_verify err c' (ed_public sk) now = Ok tt ↔
    cred_issued_at c ≤ now ≤ cred_expires_at c.
Proof.
  unfold DeviceCredential_sign. destruct (DeviceCredential_signing_bytes c) as [b|] eqn:Ec; [|done].
  intros [= <-]. unfold DeviceCredential_verify. cbn. unfold len. rewrite ed_sign_length.
  change (DeviceCredential_signing_bytes _) with (DeviceCredential_signing_bytes c).
  rewrite Ec. cbn. rewrite ed_verify_sign.
  destruct (Z.ltb_spec now (cred_issued_at c)), (Z.ltb_spec (cred_expires_at c) now);
    split; done || lia.
Qed.
End laws.

(** Enrollment: a token or credential the control plane signed verifies
    under its public key exactly during its validity period, ends included; a
    verified one has a 64-byte signature that covers the canonical payload, and
    payloads with the same signed bytes agree on every field but the signature.
    A registration request signed by the device proves possession, and its
    proof covers the token id and the request time. *)
Theorem enrollment_sign_verify `{Ed25519Laws} `{SerdeJsonLaws CanonicalEnrollmentPayload}
    `{SerdeJsonLaws CanonicalCredentialPayload} err sk t t' u c c' d now :
  EnrollmentToken_sign t sk = (Ok tt, t') → DeviceCredential_sign c sk = (Ok tt, c') →
  (EnrollmentToken_verify err t' (ed_public sk) now = Ok tt ↔
     tok_not_before t ≤ now ≤ tok_expires_at t) ∧
  (DeviceCredential_verify err c' (ed_public sk) now = Ok tt ↔
     cred_issued_at c ≤ now ≤ cred_expires_at c) ∧
  (∀ b, EnrollmentToken_signing_bytes t = Ok b → EnrollmentToken_signing_bytes u = Ok b →
     u = token_with_signature t (tok_signature u)) ∧
  (∀ b, DeviceCredential_signing_bytes c = Ok b → DeviceCredential_signing_bytes d = Ok b →
     d = credential_with_signature c (cred_signature d)) ∧
  (∀ r, req_device_public_key r = ed_public sk → verify_proof err (sign_proof r sk) = Ok tt).
Proof.
  intros Ht Hc. pose proof (credential_sign_verify err c sk c' now Hc) as Hcv.
  unfold EnrollmentToken_sign, DeviceCredential_sign in *.
  destruct (EnrollmentToken_signing_bytes t) as [bt|] eqn:Et; [|done]. injection Ht as <-.
  destruct (DeviceCredential_signing_bytes c) as [bc|] eqn:Ec; [|done]. injection Hc as <-.
  split_and!.
  - unfold EnrollmentToken_verify. cbn. unfold len. rewrite ed_sign_length.
    change (EnrollmentToken_signing_bytes _) with (EnrollmentToken_signing_bytes t).
    rewrite Et. cbn. rewrite ed_verify_sign.
    destruct (Z.ltb_spec now (tok_not_before t)), (Z.ltb_spec (tok_expires_at t) now);
      split; done || lia.
  - exact Hcv.
  - intros b [= <-]. unfold EnrollmentToken_signing_bytes in *. rewrite map_err_ok in *.
    intros Eu. pose proof (json_to_vec_inj _ _ _ Et Eu) as E.
    destruct t, u. unfold token_payload, token_with_signature in *. cbn in *. simplify_eq.
    f_equal. by apply DeviceType_as_str_inj.
  - intros b [= <-]. unfold DeviceCredential_signing_bytes in *. rewrite map_err_ok in *.
    intros Ed. pose proof (json_to_vec_inj _ _ _ Ec Ed) as E.
    destruct c, d. unfold credential_payload, credential_with_signature in *. cbn in *.
    injection E as ? ? ? ?%DeviceType_as_str_inj ? ? ? ? ?. by subst.
  - intros r. by apply verify_proof_sign_proof.
Qed.

(** ** A serializer that satisfies the law *)

Definition countable_json (A : Type) `{Countable A} : SerdeJson A :=
  λ a, Ok (prost_encode (Prost := countable_prost A) a).

Lemma countable_json_laws (A : Type) `{Countable A} : @SerdeJsonLaws A (countable_json A).
Proof.
  intros a b t Ha Hb. pose proof (countable_prost_laws A) as L.
  assert (prost_encode (Prost := countable_prost A) a = t) as Ea by exact (inj Ok _ _ Ha).
  assert (prost_encode (Prost := countable_prost A) b = t) as Eb by exact (inj Ok _ _ Hb).
  pose proof (@prost_decode_encode A (countable_prost A) L a) as Da.
  pose proof (@prost_decode_encode A (countable_prost A) L b) as Db.
  rewrite Ea in Da. rewrite Eb in Db. congruence.
Qed.

#[global] Instance CanonicalEnrollmentPayload_eq_dec : EqDecision CanonicalEnrollmentPayload.
Proof. solve_decision. Defined.
#[global] Program Instance CanonicalEnrollmentPayload_countable :
    Countable CanonicalEnrollmentPayload :=
  inj_countable'
    (λ p, (cep_token_id p, cep_organization_id p, cep_device_type p, cep_not_before p,
           cep_expires_at p, cep_max_uses p))
    (λ t, let '(a, b, c, d, e, f) := t in mkCanonicalEnrollmentPayload a b c d e f) _.
Next Obligation. by intros []. Qed.

#[global] Instance CanonicalCredentialPayload_eq_dec : EqDecision CanonicalCredentialPayload.
Proof. solve_decision. Defined.
#[global] Program Instance CanonicalCredentialPayload_countable :
    Countable CanonicalCredentialPayload :=
  inj_countable'
    (λ p, ((ccp_device_id p, ccp_organization_id p, of_byte <$> ccp_public_key p,
            ccp_device_type p, ccp_os p),
           (ccp_architecture p, ccp_capabilities p, ccp_issued_at p, ccp_expires_at p)))
    (λ t, let '((a, b, c, d, e), (f, g, h, i)) := t in
          mkCanonicalCredentialPayload a b (to_byte <$> c) d e f g h i) _.
Next Obligation.
  intros []. cbn [ccp_device_id ccp_organization_id ccp_public_key ccp_device_type ccp_os
    ccp_architecture ccp_capabilities ccp_issued_at ccp_expires_at].
  assert (∀ l : bytes, to_byte <$> (of_byte <$> l) = l) as ->; [|done].
  intros l. induction l as [|b l IH]; [done|]. rewrite !fmap_cons, to_of_byte. by f_equal.
Qed.

Definition sample_token : EnrollmentToken :=
  mkEnrollmentToken "tok-1" "org-1" Device_Host 10 20 1 [].
Definition sample_credential : DeviceCredential :=
  mkDeviceCredential "dev-1" "org-1" [x01; x02] Device_Host "windows" "x86_64" [] 10 20 [].

Lemma enrollment_sign_verify_witness :
  ∃ t', @EnrollmentToken_sign toy_ed25519 (countable_json _) sample_token [x05] = (Ok tt, t') ∧
  (@EnrollmentToken_verify toy_ed25519 (countable_json _) "signature error" t'
     (@ed_public toy_ed25519 [x05]) 20 = Ok tt ↔ 10 ≤ 20 ≤ 20).
Proof.
  eexists. split; [reflexivity|].
  eapply (@enrollment_sign_verify toy_ed25519 toy_ed25519_laws (countable_json _)
    (countable_json_laws _) (countable_json _) (countable_json_laws _) "signature error" [x05]
    sample_token _ sample_token sample_credential _ sample_credential 20); reflexivity.
Defined.
