(* ===== verification/AuditLog.v ===== *)
(** * The audit log (crates/nexus-audit/src)

    Events ([event.rs]), the hash chain ([chain.rs]) and the sinks ([sink.rs]).
    BLAKE3 is a third-party crate: it is the class [Blake3] of a hash with its
    hex rendering.  [serde_json::Value], the type of an event's metadata, is a
    type parameter. *)

From S2P Require Import Prelude RustStr Crypto Protocol Enrollment.

Open Scope string_scope.
Open Scope list_scope.
Open Scope Z_scope.

(** ** Event types *)

Inductive AuditEventType :=
  | Ev_UserLogin | Ev_UserMfa | Ev_DeviceEnroll | Ev_DeviceRevoke | Ev_SessionRequest
  | Ev_SessionAuthorize | Ev_SessionDeny | Ev_SessionStart | Ev_SessionDisconnect
  | Ev_SessionEnd | Ev_ClipboardRead | Ev_ClipboardWrite | Ev_FileUpload | Ev_FileDownload
  | Ev_AccessRequest | Ev_AccessApprove | Ev_PolicyUpdate.
#[global] Instance AuditEventType_eq_dec : EqDecision AuditEventType.
Proof. solve_decision. Defined.

Definition AuditEventType_ALL : list AuditEventType :=
  [Ev_UserLogin; Ev_UserMfa; Ev_DeviceEnroll; Ev_DeviceRevoke; Ev_SessionRequest;
   Ev_SessionAuthorize; Ev_SessionDeny; Ev_SessionStart; Ev_SessionDisconnect;
   Ev_SessionEnd; Ev_ClipboardRead; Ev_ClipboardWrite; Ev_FileUpload; Ev_FileDownload;
   Ev_AccessRequest; Ev_AccessApprove; Ev_PolicyUpdate].

Definition AuditEventType_as_str (t : AuditEventType) : string :=
  match t with
  | Ev_UserLogin => "user.login"
  | Ev_UserMfa => "user.mfa"
  | Ev_DeviceEnroll => "device.enroll"
  | Ev_DeviceRevoke => "device.revoke"
  | Ev_SessionRequest => "session.request"
  | Ev_SessionAuthorize => "session.authorize"
  | Ev_SessionDeny => "session.deny"
  | Ev_SessionStart => "session.start"
  | Ev_SessionDisconnect => "session.disconnect"
  | Ev_SessionEnd => "session.end"
  | Ev_ClipboardRead => "clipboard.read"
  | Ev_ClipboardWrite => "clipboard.write"
  | Ev_FileUpload => "file.upload"
  | Ev_FileDownload => "file.download"
  | Ev_AccessRequest => "access.request"
  | Ev_AccessApprove => "access.approve"
  | Ev_PolicyUpdate => "policy.update"
  end.

(** [EventParseError] carries the input. *)
Definition AuditEventType_from_str (s : string) : result string AuditEventType :=
  if str_eqb s "user.login" then Ok Ev_UserLogin else
  if str_eqb s "user.mfa" then Ok Ev_UserMfa else
  if str_eqb s "device.enroll" then Ok Ev_DeviceEnroll else
  if str_eqb s "device.revoke" then Ok Ev_DeviceRevoke else
  if str_eqb s "session.request" then Ok Ev_SessionRequest else
  if str_eqb s "session.authorize" then Ok Ev_SessionAuthorize else
  if str_eqb s "session.deny" then Ok Ev_SessionDeny else
  if str_eqb s "session.start" then Ok Ev_SessionStart else
  if str_eqb s "session.disconnect" then Ok Ev_SessionDisconnect else
  if str_eqb s "session.end" then Ok Ev_SessionEnd else
  if str_eqb s "clipboard.read" then Ok Ev_ClipboardRead else
  if str_eqb s "clipboard.write" then Ok Ev_ClipboardWrite else
  if str_eqb s "file.upload" then Ok Ev_FileUpload else
  if str_eqb s "file.download" then Ok Ev_FileDownload else
  if str_eqb s "access.request" then Ok Ev_AccessRequest else
  if str_eqb s "access.approve" then Ok Ev_AccessApprove else
  if str_eqb s "policy.update" then Ok Ev_PolicyUpdate else
  Err s.

(** ** Events *)

Section event.
Context {Value : Type}.

Record AuditEvent := mkAuditEvent {
  ev_event_id : string;
  ev_timestamp : Z;
  ev_organization_id : string;
  ev_user_id : option string;
  ev_device_id : option string;
  ev_session_id : option string;
  ev_event_type : AuditEventType;
  ev_metadata : Value
}.

Record AuditEventBuilder := mkAuditEventBuilder {
  eb_event_id : option string; eb_timestamp : option Z; eb_organization_id : option string;
  eb_user_id : option string; eb_device_id : option string; eb_session_id : option string;
  eb_event_type : option AuditEventType; eb_metadata : option Value
}.

(** [Value::Null] *)
Context (Null : Value).

Definition AuditEvent_new (event_id : string) (timestamp : Z) (organization_id : string)
    (event_type : AuditEventType) : AuditEvent :=
  mkAuditEvent event_id timestamp organization_id None None None event_type Null.

(** [Err] carries the name of the missing field. *)
Definition AuditEventBuilder_build (b : AuditEventBuilder) : result string AuditEvent :=
  event_id ← ok_or (eb_event_id b) "event_id";
  timestamp ← ok_or (eb_timestamp b) "timestamp";
  organization_id ← ok_or (eb_organization_id b) "organization_id";
  event_type ← ok_or (eb_event_type b) "event_type";
  Ok (mkAuditEvent event_id timestamp organization_id (eb_user_id b) (eb_device_id b)
        (eb_session_id b) event_type (default Null (eb_metadata b))).
End event.
Arguments AuditEvent : clear implicits.
Arguments AuditEventBuilder : clear implicits.

(** ** The chain *)

(** [blake3::Hasher] over the concatenation of its updates, rendered in hex. *)
Class Blake3 := blake3_hex : bytes → string.
Class Blake3Ascii `{Blake3} := blake3_hex_ascii : ∀ m, is_ascii (blake3_hex m) = true.
Class Blake3Laws `{Blake3} := blake3_hex_length : ∀ m, str_len (blake3_hex m) = 64.

Definition GENESIS_HASH : string :=
  "0000000000000000000000000000000000000000000000000000000000000000".

Inductive ChainVerificationError :=
  | Chain_NonMonotonicSequence (expected actual : Z)
  | Chain_HashMismatch (sequence : Z) (expected actual : string)
  | Chain_PreviousHashMismatch (sequence : Z) (expected actual : string)
  | Chain_SerializationError (message : string).

Section chain.
Context {Value : Type} `{Blake3, SerdeJson (AuditEvent Value)}.

Record ChainedAuditEvent := mkChainedAuditEvent {
  ch_sequence : Z;
  ch_event : AuditEvent Value;
  ch_previous_hash : string;
  ch_hash : string
}.

(** What is hashed. *)
Definition hash_input (sequence : Z) (canonical_bytes : bytes) (previous_hash : string) : bytes :=
  to_be_bytes 8 sequence ++ canonical_bytes ++ as_bytes previous_hash.
Definition compute_hash (sequence : Z) (canonical_bytes : bytes) (previous_hash : string) :
    string := blake3_hex (hash_input sequence canonical_bytes previous_hash).

Definition AuditEvent_canonical_bytes (e : AuditEvent Value) : result string bytes :=
  json_to_vec e.

Definition compute_event_hash (sequence : Z) (event : AuditEvent Value)
    (previous_hash : string) : result ChainVerificationError string :=
  canonical_bytes ← map_err Chain_SerializationError (AuditEvent_canonical_bytes event);
  Ok (compute_hash sequence canonical_bytes previous_hash).

Record AuditChain := mkAuditChain {
  ac_genesis_seed : string;
  ac_last_hash : string;
  ac_sequence : Z;
  ac_events : list ChainedAuditEvent
}.

Definition AuditChain_new (genesis_seed : option string) : AuditChain :=
  let initial := default GENESIS_HASH genesis_seed in
  mkAuditChain initial initial 0 [].

(** [AuditChain::append].  The counter counts the events held in memory, so
    its increment stays far below [u64::MAX]. *)
Definition AuditChain_append (c : AuditChain) (event : AuditEvent Value) :
    result ChainVerificationError ChainedAuditEvent * AuditChain :=
  let next_seq := ac_sequence c + 1 in
  let prev_hash := ac_last_hash c in
  match compute_event_hash next_seq event prev_hash with
  | Err e => (Err e, c)
  | Ok hash =>
      let chained := mkChainedAuditEvent next_seq event prev_hash hash in
      (Ok chained,
       mkAuditChain (ac_genesis_seed c) hash next_seq (ac_events c ++ [chained]))
  end.

(** The loop of [verify_chain] from index [i], where [expected_prev] is the
    genesis hash or the recorded hash of the event before. *)
Fixpoint verify_from (i : Z) (expected_prev : string) (events : list ChainedAuditEvent) :
    result ChainVerificationError unit :=
  match events with
  | [] => Ok tt
  | chained :: events =>
      let expected_seq := i + 1 in
      if negb (ch_sequence chained =? expected_seq)
      then Err (Chain_NonMonotonicSequence expected_seq (ch_sequence chained)) else
      if negb (str_eqb (ch_previous_hash chained) expected_prev)
      then Err (Chain_PreviousHashMismatch (ch_sequence chained) expected_prev
                  (ch_previous_hash chained)) else
      match compute_event_hash (ch_sequence chained) (ch_event chained)
              (ch_previous_hash chained) with
      | Err e => Err e
      | Ok recomputed_hash =>
          if negb (str_eqb (ch_hash chained) recomputed_hash)
          then Err (Chain_HashMismatch (ch_sequence chained) recomputed_hash (ch_hash chained))
          else verify_from (i + 1) (ch_hash chained) events
      end
  end.

Definition verify_chain (events : list ChainedAuditEvent) (genesis_seed : option string) :
    result ChainVerificationError unit :=
  verify_from 0 (default GENESIS_HASH genesis_seed) events.

(** ** Valid chains *)

(** A chain that continues [prev] at index [i]: sequence numbers count up, each
    event points at the hash before it and carries its own. *)
Inductive valid_from : Z → string → list ChainedAuditEvent → Prop :=
  | valid_nil i prev : valid_from i prev []
  | valid_cons i prev event hash events :
      compute_event_hash (i + 1) event prev = Ok hash →
      valid_from (i + 1) hash events →
      valid_from i prev (mkChainedAuditEvent (i + 1) event prev hash :: events).

(** The hash a chain ends with. *)
Definition final_hash (prev : string) (events : list ChainedAuditEvent) : string :=
  match last events with Some e => ch_hash e | None => prev end.

Lemma final_hash_cons prev e es : final_hash prev (e :: es) = final_hash (ch_hash e) es.
Proof.
  unfold final_hash. destruct es as [|f es]; [done|]. rewrite last_cons_cons.
  destruct (last (f :: es)) eqn:E; [done|]. by apply last_None in E.
Qed.

Lemma final_hash_snoc prev es e : final_hash prev (es ++ [e]) = ch_hash e.
Proof. unfold final_hash. by rewrite last_snoc. Qed.

Lemma verify_from_spec i prev events :
  verify_from i prev events = Ok tt ↔ valid_from i prev events.
Proof.
  split.
  - revert i prev. induction events as [|[s e p h] events IH]; intros i prev; cbn; [by constructor|].
    destruct (Z.eqb_spec s (i + 1)) as [->|]; cbn; [|done].
    unfold str_eqb. destruct (bool_decide_reflect (p = prev)) as [->|]; cbn; [|done].
    destruct (compute_event_hash _ _ _) as [hash|] eqn:Eh; cbn; [|done].
    destruct (bool_decide_reflect (h = hash)) as [->|]; cbn; [|done].
    intros Hv. constructor; [done|]. by apply IH.
  - induction 1 as [|i prev e h es Hh Hv IH]; cbn; [done|].
    rewrite Z.eqb_refl. unfold str_eqb. rewrite bool_decide_true by done. cbn.
    rewrite Hh. by rewrite bool_decide_true.
Qed.

Lemma valid_from_snoc i prev events event hash :
  valid_from i prev events →
  compute_event_hash (i + len events + 1) event (final_hash prev events) = Ok hash →
  valid_from i prev (events ++
    [mkChainedAuditEvent (i + len events + 1) event (final_hash prev events) hash]).
Proof.
  induction 1 as [i prev|i prev e h es Hh Hv IH].
  - unfold len, final_hash. cbn. rewrite Z.add_0_r. intros. constructor; [done|constructor].
  - rewrite final_hash_cons, len_cons. cbn [ch_hash]. intros He. constructor; [done|].
    replace (i + (1 + len es) + 1) with (i + 1 + len es + 1) in * by lia. by apply IH.
Qed.

(** ** Appending *)

Record chain_ok (c : AuditChain) : Prop := {
  co_valid : valid_from 0 (ac_genesis_seed c) (ac_events c);
  co_sequence : ac_sequence c = len (ac_events c);
  co_last : ac_last_hash c = final_hash (ac_genesis_seed c) (ac_events c)
}.

Lemma chain_new_ok seed : chain_ok (AuditChain_new seed).
Proof. split; [constructor|done..]. Qed.

Lemma chain_append_ok c e : chain_ok c → chain_ok (AuditChain_append c e).2.
Proof.
  intros [Hv Hs Hl]. unfold AuditChain_append.
  destruct (compute_event_hash _ _ _) as [hash|] eqn:Eh; cbn; [|by split].
  rewrite Hs, Hl in Eh. split; cbn.
  - rewrite Hs, Hl. by apply valid_from_snoc.
  - rewrite Hs, len_app. unfold len. cbn. lia.
  - by rewrite final_hash_snoc.
Qed.

Definition append_all (c : AuditChain) (events : list (AuditEvent Value)) : AuditChain :=
  fold_left (λ c e, (AuditChain_append c e).2) events c.

Lemma append_all_ok c events :
  chain_ok c → chain_ok (append_all c events) ∧
  ac_genesis_seed (append_all c events) = ac_genesis_seed c.
Proof.
  revert c. induction events as [|e events IH]; intros c Hc; [done|].
  destruct (IH (AuditChain_append c e).2) as [? E]; [by apply chain_append_ok|].
  split; [done|]. change (append_all c (e :: events)) with
    (append_all (AuditChain_append c e).2 events). rewrite E. unfold AuditChain_append. by destruct (compute_event_hash _ _ _).
Qed.

(** ** Tampering *)

(** What was hashed for an entry of a log. *)
Definition hashed (e : ChainedAuditEvent) (input : bytes) : Prop :=
  ∃ c, json_to_vec (ch_event e) = Ok c ∧ input = hash_input (ch_sequence e) c (ch_previous_hash e).
(** An entry of one log and an entry of the other were hashed from different inputs to the
    same hash. *)
Definition collide (es fs : list ChainedAuditEvent) : Prop :=
  ∃ e f x y, e ∈ es ∧ f ∈ fs ∧ hashed e x ∧ hashed f y ∧ x ≠ y ∧ blake3_hex x = blake3_hex y.

Lemma collide_cons e f es fs : collide es fs → collide (e :: es) (f :: fs).
Proof. intros (x & y & b & c & Hx & Hy & ?). exists x, y, b, c. split_and?; (by right) || naive_solver. Qed.

Lemma hash_input_inj i j c d p q :
  uint 64 i → uint 64 j → str_len p = str_len q →
  hash_input i c p = hash_input j d q → i = j ∧ c = d ∧ p = q.
Proof.
  intros Hi Hj Hl E. unfold hash_input in E.
  apply app_inj_length in E as [E1 E]; [|by rewrite !length_to_be_bytes].
  assert (length c = length d) as Hcd.
  { apply (f_equal length) in E. rewrite !length_app in E.
    rewrite <-!len_as_bytes in Hl. unfold len in Hl. lia. }
  apply app_inj_length in E as [E2 E3]; [|done].
  split_and!; [by apply to_be_bytes_inj in E1|done|by apply as_bytes_inj].
Qed.

Lemma event_hash_inv i e p h :
  compute_event_hash i e p = Ok h → ∃ c, json_to_vec e = Ok c ∧ h = compute_hash i c p.
Proof.
  unfold compute_event_hash, AuditEvent_canonical_bytes.
  destruct (json_to_vec e) as [c|]; cbn; [|done]. intros [= <-]. by exists c.
Qed.

Context `{!Blake3Laws, !SerdeJsonLaws (AuditEvent Value)}.

Lemma chains_agree i p q es fs :
  0 ≤ i → i + len es < 2 ^ 64 → str_len p = str_len q → length es = length fs →
  valid_from i p es → valid_from i q fs → final_hash p es = final_hash q fs →
  collide es fs ∨ p = q ∧ es = fs.
Proof.
  intros Hi Hlt Hpq Hlen Hes. revert q fs Hpq Hlen Hlt Hi.
  induction Hes as [i p|i p e h es Hh Hes IH]; intros q fs Hpq Hlen Hlt Hi Hfs Hfin.
  - destruct fs; [|done]. right. cbn in Hfin. done.
  - destruct Hfs as [|i q f k fs Hk Hfs]; [done|]. rewrite !final_hash_cons in Hfin. cbn in Hfin.
    rewrite len_cons in Hlt. pose proof (Nat2Z.is_nonneg (length es)). unfold len in *.
    destruct (event_hash_inv _ _ _ _ Hh) as (c & Ec & ->).
    destruct (event_hash_inv _ _ _ _ Hk) as (d & Ed & ->).
    destruct (IH (compute_hash (i + 1) d q) fs) as [?|[Eh ->]];
      [unfold compute_hash; by rewrite !blake3_hex_length|by injection Hlen|lia|lia|done|done|
       left; by apply collide_cons|].
    destruct (decide (hash_input (i + 1) c p = hash_input (i + 1) d q)) as [E|Hne]; [right|left].
    + apply hash_input_inj in E as (_ & -> & ->); [|unfold uint; lia..|done].
      split; [done|]. by rewrite (json_to_vec_inj _ _ _ Ec Ed).
    + eexists _, _, _, _. split_and!; [apply list_elem_of_here|apply list_elem_of_here|..| |exact Eh];
        [by exists c|by exists d|done].
Qed.

(** The last entry of a valid log. *)
Lemma valid_from_last i p es x :
  valid_from i p (es ++ [x]) →
  ch_sequence x = i + len es + 1 ∧ ∃ b, hashed x b ∧ ch_hash x = blake3_hex b.
Proof.
  revert i p. induction es as [|y es IH]; intros i p Hv; inversion Hv as [|? ? ? ? ? Hh Hv']; subst.
  - apply event_hash_inv in Hh as (c & Hc & ->). cbn. split; [unfold len; cbn; lia|].
    eexists. split; [by exists c|done].
  - destruct (IH _ _ Hv') as [-> Hb]. split; [rewrite len_cons; lia|done].
Qed.
End chain.
Arguments ChainedAuditEvent : clear implicits.
Arguments AuditChain : clear implicits.

(** The audit chain: whatever events are appended, in whatever number and
    with whatever serialization failures in between, the chain verifies under
    its genesis seed, its counter is the number of events, and its last hash is
    that of its last event; and verification accepts exactly the valid chains. *)
Theorem audit_chain_append_verifies {Value} `{Blake3, SerdeJson (AuditEvent Value)}
    seed (events : list (AuditEvent Value)) (log : list (ChainedAuditEvent Value)) :
  let c := append_all (AuditChain_new seed) events in
  verify_chain (ac_events c) seed = Ok tt ∧ ac_sequence c = len (ac_events c) ∧
  ac_last_hash c = final_hash (default GENESIS_HASH seed) (ac_events c) ∧
  (verify_chain log seed = Ok tt ↔ valid_from 0 (default GENESIS_HASH seed) log).
Proof.
  intros c. destruct (append_all_ok (AuditChain_new seed) events) as [[Hv Hs Hl] Hg];
    [apply chain_new_ok|]. fold c in Hv, Hs, Hl, Hg. rewrite Hg in *. cbn in Hv, Hl.
  split_and!; [by apply verify_from_spec|done|done|apply verify_from_spec].
Qed.

(** C34. Tamper evidence: two logs that verify under the same genesis seed and
    end with the same hash are the same log, event by event, or an entry of the one and an
    entry of the other were hashed from different bytes to the same hash.  Altering,
    inserting, dropping or reordering events of a log therefore changes its last hash,
    makes verification fail, or takes a collision with an entry of the log itself. *)
Theorem audit_chain_tamper_evident {Value} `{Blake3Laws, !SerdeJson (AuditEvent Value),
    !SerdeJsonLaws (AuditEvent Value)} seed (es fs : list (ChainedAuditEvent Value)) x y :
  len es < 2 ^ 64 - 1 → len fs < 2 ^ 64 - 1 →
  verify_chain (es ++ [x]) seed = Ok tt → verify_chain (fs ++ [y]) seed = Ok tt →
  ch_hash x = ch_hash y → collide (es ++ [x]) (fs ++ [y]) ∨ es ++ [x] = fs ++ [y].
Proof.
  unfold verify_chain. rewrite !verify_from_spec. intros Hle Hlf Hx Hy Hh.
  destruct (decide (length es = length fs)) as [Hl|Hl].
  - destruct (chains_agree 0 (default GENESIS_HASH seed) (default GENESIS_HASH seed)
      (es ++ [x]) (fs ++ [y])) as [?|[_ ?]]; try done; try (by auto).
    + rewrite len_app. unfold len in *. cbn. lia.
    + rewrite !length_app. cbn. lia.
    + by rewrite !final_hash_snoc.
  - destruct (valid_from_last _ _ _ _ Hx) as (Sx & b & Hb & Ex).
    destruct (valid_from_last _ _ _ _ Hy) as (Sy & b' & Hb' & Ey).
    left. exists x, y, b, b'. split_and!; [set_solver|set_solver|done|done| |congruence].
    destruct Hb as (c & _ & ->), Hb' as (d & _ & ->). unfold hash_input. intros E.
    apply app_inj_length in E as [E _]; [|by rewrite !length_to_be_bytes].
    rewrite Sx, Sy in E. unfold len in *. apply to_be_bytes_inj in E; cbn; lia.
Qed.

(** ** Concrete instances *)

Lemma AuditEventType_from_as_str t : AuditEventType_from_str (AuditEventType_as_str t) = Ok t.
Proof. by destruct t. Qed.

#[global] Program Instance AuditEventType_countable : Countable AuditEventType :=
  inj_countable' AuditEventType_as_str
    (λ s, match AuditEventType_from_str s with Ok t => t | Err _ => Ev_UserLogin end) _.
Next Obligation. by intros []. Qed.
#[global] Instance AuditEvent_eq_dec `{EqDecision V} : EqDecision (AuditEvent V).
Proof. solve_decision. Defined.
#[global] Program Instance AuditEvent_countable `{Countable V} : Countable (AuditEvent V) :=
  inj_countable'
    (λ e, (ev_event_id e, ev_timestamp e, ev_organization_id e, ev_user_id e, ev_device_id e,
           ev_session_id e, ev_event_type e, ev_metadata e))
    (λ t, let '(a, b, c, d, e, f, g, h) := t in mkAuditEvent a b c d e f g h) _.
Next Obligation. by intros ? ? ? []. Qed.

(** A checksum in place of BLAKE3. *)
Definition toy_blake3 : Blake3 := λ m,
  let c := ascii_of_N (Z.to_N (48 + fold_right Z.add 0 (of_byte <$> m) mod 10)) in
  fold_right String "" (replicate 64 c).
Lemma toy_blake3_laws : @Blake3Laws toy_blake3.
Proof. by intros m. Qed.

Lemma toy_blake3_ascii : @Blake3Ascii toy_blake3.
Proof.
  intros m. unfold blake3_hex, toy_blake3.
  pose proof (Z.mod_pos_bound (fold_right Z.add 0 (of_byte <$> m)) 10).
  generalize dependent (fold_right Z.add 0 (of_byte <$> m) mod 10). intros d Hd.
  assert (d = 0 ∨ d = 1 ∨ d = 2 ∨ d = 3 ∨ d = 4 ∨ d = 5 ∨ d = 6 ∨ d = 7 ∨ d = 8 ∨ d = 9)
    as Hcases by lia.
  by repeat destruct Hcases as [->|Hcases]; subst.
Qed.

Definition sample_event (id : string) : AuditEvent unit :=
  AuditEvent_new tt id 5 "org" Ev_UserLogin.
Definition sample_chain : AuditChain unit :=
  @append_all _ toy_blake3 (countable_json _) (AuditChain_new None)
    [sample_event "a"; sample_event "b"].

(** Two different logs that the checksum does not tell apart: the theorem names the
    collision. *)
Definition other_chain : AuditChain unit :=
  @append_all _ toy_blake3 (countable_json _) (AuditChain_new None)
    [sample_event "b"; sample_event "a"].
Lemma audit_chain_tamper_evident_witness :
  @collide unit toy_blake3 (countable_json _) (ac_events sample_chain) (ac_events other_chain).
Proof.
  assert (∃ es x fs y, ac_events sample_chain = es ++ [x] ∧ ac_events other_chain = fs ++ [y] ∧
    len es = 1 ∧ len fs = 1 ∧ ch_hash x = ch_hash y) as (es & x & fs & y & E & F & Hl & Hm & Hh).
  { eexists [_], _, [_], _. split_and!; vm_compute; reflexivity. }
  destruct (@audit_chain_tamper_evident unit toy_blake3 toy_blake3_laws (countable_json _)
    (countable_json_laws _) None es fs x y) as [Hc|Heq]; [lia|lia|rewrite <-E; by vm_compute|
    rewrite <-F; by vm_compute|exact Hh|rewrite E, F; exact Hc|].
  exfalso. rewrite <-E, <-F in Heq. vm_compute in Heq. discriminate Heq.
Defined.

(** ** Sinks *)

Inductive SinkError :=
  | Sink_IoError (message : string) | Sink_ChannelClosed
  | Sink_StorageError (message : string) | Sink_Custom (message : string).

(** The trait [AuditSink]: what recording and flushing do to a sink. *)
Class AuditSink (Event S : Type) := {
  sink_record : S → Event → result SinkError unit * S;
  sink_flush : S → result SinkError unit * S
}.

(** [MemoryAuditSink] *)
Section memory.
Context {Event : Type}.
Record MemoryAuditSink := mkMemoryAuditSink { mem_events : list Event }.
Definition MemoryAuditSink_new : MemoryAuditSink := mkMemoryAuditSink [].
Definition MemoryAuditSink_clear (s : MemoryAuditSink) : MemoryAuditSink := mkMemoryAuditSink [].
#[global] Instance MemoryAuditSink_sink : AuditSink Event MemoryAuditSink := {
  sink_record s e := (Ok tt, mkMemoryAuditSink (mem_events s ++ [e]));
  sink_flush s := (Ok tt, s)
}.
End memory.
Arguments MemoryAuditSink : clear implicits.

(** The loop of [BroadcastAuditSink]: every child is asked, the first error is
    kept. *)
Fixpoint broadcast {S} (op : S → result SinkError unit * S) (sinks : list S)
    (first_error : option SinkError) : option SinkError * list S :=
  match sinks with
  | [] => (first_error, [])
  | sink :: sinks =>
      let (r, sink) := op sink in
      let first_error := match r, first_error with
                         | Err err, None => Some err
                         | _, _ => first_error
                         end in
      let (fe, sinks) := broadcast op sinks first_error in (fe, sink :: sinks)
  end.

Record BroadcastAuditSink S := mkBroadcastAuditSink { bc_sinks : list S }.
Arguments mkBroadcastAuditSink {S}.
Arguments bc_sinks {S}.
Definition BroadcastAuditSink_add_sink {S} (b : BroadcastAuditSink S) (s : S) :
    BroadcastAuditSink S := mkBroadcastAuditSink (bc_sinks b ++ [s]).
#[global] Instance BroadcastAuditSink_sink {Event S} `{AuditSink Event S} :
    AuditSink Event (BroadcastAuditSink S) := {
  sink_record b e :=
    let (fe, sinks) := broadcast (λ s, sink_record s e) (bc_sinks b) None in
    (match fe with Some err => Err err | None => Ok tt end, mkBroadcastAuditSink sinks);
  sink_flush b :=
    let (fe, sinks) := broadcast sink_flush (bc_sinks b) None in
    (match fe with Some err => Err err | None => Ok tt end, mkBroadcastAuditSink sinks)
}.

Lemma broadcast_spec {S} (op : S → result SinkError unit * S) sinks fe :
  broadcast op sinks fe =
    (match fe with
     | Some _ => fe
     | None => head (omap (λ s, match (op s).1 with Err e => Some e | Ok _ => None end) sinks)
     end, (λ s, (op s).2) <$> sinks).
Proof.
  revert fe. induction sinks as [|s sinks IH]; intros fe; cbn; [by destruct fe|].
  destruct (op s) as [[u|e] s'] eqn:E; cbn; rewrite IH; by destruct fe.
Qed.

(** Broadcasting: recording an event offers it to every child sink, each
    exactly once and in order, whichever of them fail; the call fails exactly
    when a child fails, with the first child's error.  Flushing likewise. *)
Theorem broadcast_reaches_all {Event S} `{AuditSink Event S} (b : BroadcastAuditSink S) (e : Event) :
  bc_sinks (sink_record b e).2 = (λ s, (sink_record s e).2) <$> bc_sinks b ∧
  ((sink_record b e).1 = Ok tt ↔ Forall (λ s, (sink_record s e).1 = Ok tt) (bc_sinks b)) ∧
  (∀ err, (sink_record b e).1 = Err err →
     ∃ pre s post, bc_sinks b = pre ++ s :: post ∧ (sink_record s e).1 = Err err ∧
       Forall (λ s, (sink_record s e).1 = Ok tt) pre) ∧
  bc_sinks (sink_flush (Event := Event) b).2 =
    (λ s, (sink_flush (Event := Event) s).2) <$> bc_sinks b.
Proof.
  cbn. rewrite !broadcast_spec. cbn. split_and!; [done| | |done].
  - induction (bc_sinks b) as [|s l IH]; cbn; [by split; [constructor|]|].
    rewrite Forall_cons. destruct (sink_record s e) as [[[]|err] s'] eqn:E; cbn; [|naive_solver].
    rewrite IH. naive_solver.
  - intros err. induction (bc_sinks b) as [|s l IH]; cbn; [done|].
    destruct (sink_record s e) as [[[]|err'] s'] eqn:E; cbn.
    + intros (pre & x & post & -> & Hx & Hpre)%IH. exists (s :: pre), x, post.
      split_and!; [done|done|]. constructor; [by rewrite E|done].
    + intros [= ->]. exists [], s, l. by rewrite E.
Qed.

(** Audit event types: a string parses to a type exactly when it is its
    canonical name, and every type has one. *)
Theorem audit_event_type_from_str_spec s t :
  (AuditEventType_from_str s = Ok t ↔ s = AuditEventType_as_str t) ∧ t ∈ AuditEventType_ALL.
Proof.
  split; [|unfold AuditEventType_ALL; destruct t; set_solver].
  split; [|intros ->; apply AuditEventType_from_as_str].
  unfold AuditEventType_from_str. intros Hs. str_cases Hs; by simplify_eq.
Qed.
