(* ===== verification/Control.v ===== *)
(** * Framed control messages (crates/nexus-transport/src/control.rs) *)

From S2P Require Import Prelude Protocol.

Open Scope Z_scope.

Definition MAX_CONTROL_MESSAGE_SIZE : Z := 64 * 1024.
Definition CONTROL_FRAME_PREFIX_SIZE : Z := 4.
Definition CONTROL_KIND_PREFIX_SIZE : Z := 1.

Inductive ControlMessageKind := Kind_CursorPosition | Kind_CursorShape.
Definition kind_to_u8 (k : ControlMessageKind) : Z :=
  match k with Kind_CursorPosition => 1 | Kind_CursorShape => 2 end.

(** [Decode] carries the decoder's error, which the model leaves out. *)
Inductive ControlMessageError :=
  | Control_TooLarge (actual limit : Z)
  | Control_Decode
  | Control_TruncatedFrame
  | Control_UnknownKind (kind : Z).

Definition kind_try_from (value : Z) : result ControlMessageError ControlMessageKind :=
  if value =? 1 then Ok Kind_CursorPosition else
  if value =? 2 then Ok Kind_CursorShape else
  Err (Control_UnknownKind value).

Section control.
Context {M : Type} `{Prost M}.

Definition encode_control (message : M) : result ControlMessageError bytes :=
  let size := len (prost_encode message) in
  if MAX_CONTROL_MESSAGE_SIZE <? size
  then Err (Control_TooLarge size MAX_CONTROL_MESSAGE_SIZE)
  else Ok (prost_encode message).

Definition decode_control (b : bytes) : result ControlMessageError M :=
  if MAX_CONTROL_MESSAGE_SIZE <? len b
  then Err (Control_TooLarge (len b) MAX_CONTROL_MESSAGE_SIZE)
  else ok_or (prost_decode b) Control_Decode.

Definition encode_framed_control (message : M) : result ControlMessageError bytes :=
  payload ← encode_control message;
  Ok (to_be_bytes 4 (len payload) ++ payload).

Definition decode_framed_control (b : bytes) : result ControlMessageError M :=
  if len b <? CONTROL_FRAME_PREFIX_SIZE then Err Control_TruncatedFrame else
  let declared := from_be_bytes (take 4 b) in
  if MAX_CONTROL_MESSAGE_SIZE <? declared
  then Err (Control_TooLarge declared MAX_CONTROL_MESSAGE_SIZE) else
  if negb (len b =? CONTROL_FRAME_PREFIX_SIZE + declared) then Err Control_TruncatedFrame else
  decode_control (drop 4 b).

Definition encode_framed_control_envelope (kind : ControlMessageKind) (message : M) :
    result ControlMessageError bytes :=
  payload ← encode_control message;
  match checked_add usize_max CONTROL_KIND_PREFIX_SIZE (len payload) with
  | None => Err (Control_TooLarge usize_max MAX_CONTROL_MESSAGE_SIZE)
  | Some declared =>
      if MAX_CONTROL_MESSAGE_SIZE <? declared
      then Err (Control_TooLarge declared MAX_CONTROL_MESSAGE_SIZE)
      else Ok (to_be_bytes 4 (wrap 32 declared) ++ [to_byte (kind_to_u8 kind)] ++ payload)
  end.
End control.

Definition decode_framed_control_envelope (b : bytes) :
    result ControlMessageError (ControlMessageKind * bytes) :=
  if len b <? CONTROL_FRAME_PREFIX_SIZE + CONTROL_KIND_PREFIX_SIZE
  then Err Control_TruncatedFrame else
  let declared := from_be_bytes (take 4 b) in
  if MAX_CONTROL_MESSAGE_SIZE <? declared
  then Err (Control_TooLarge declared MAX_CONTROL_MESSAGE_SIZE) else
  if negb (len b =? CONTROL_FRAME_PREFIX_SIZE + declared) ||
     (declared <? CONTROL_KIND_PREFIX_SIZE)
  then Err Control_TruncatedFrame else
  match drop 4 b with
  | k :: payload => kind ← kind_try_from (of_byte k); Ok (kind, payload)
  | [] => Err Control_TruncatedFrame
  end.

(** ** Round trips *)

(** A frame: a 32-bit big-endian length and that many bytes. *)
Definition framed (payload b : bytes) : Prop :=
  b = to_be_bytes 4 (len payload) ++ payload ∧ len payload ≤ MAX_CONTROL_MESSAGE_SIZE.

Lemma framed_inv b declared :
  4 ≤ len b → declared = from_be_bytes (take 4 b) → declared ≤ MAX_CONTROL_MESSAGE_SIZE →
  len b = 4 + declared → framed (drop 4 b) b.
Proof.
  intros Hl Hd Hmax Hlen. split; [|unfold len in *; rewrite length_drop; lia].
  assert (length (take 4 b) = 4%nat) as H4 by (unfold len in Hl; rewrite length_take; lia).
  replace (len (drop 4 b)) with declared by (unfold len in *; rewrite length_drop; lia).
  rewrite <-(take_drop 4 b) at 1. f_equal. subst. symmetry. by apply to_be_bytes_from.
Qed.

Lemma framed_fields payload b :
  framed payload b →
  take 4 b = to_be_bytes 4 (len payload) ∧ drop 4 b = payload ∧
  from_be_bytes (take 4 b) = len payload ∧ len b = 4 + len payload.
Proof.
  intros [-> Hmax]. unfold MAX_CONTROL_MESSAGE_SIZE in Hmax.
  assert (length (to_be_bytes 4 (len payload)) = 4%nat) as H4 by apply length_to_be_bytes.
  assert (take 4 (to_be_bytes 4 (len payload) ++ payload) = to_be_bytes 4 (len payload)) as ->.
  { rewrite <-H4 at 1. apply take_app_length. }
  split_and!; [done| | |].
  - rewrite <-H4 at 1. apply drop_app_length.
  - apply from_to_be_bytes_small. unfold len in *. cbn. lia.
  - rewrite len_app. unfold len in *. rewrite H4. lia.
Qed.

Lemma decode_framed_spec {M} `{Prost M} b m :
  decode_framed_control b = Ok m ↔ ∃ payload, framed payload b ∧ prost_decode payload = Some m.
Proof.
  unfold decode_framed_control, CONTROL_FRAME_PREFIX_SIZE. split.
  - destruct (Z.ltb_spec (len b) 4); [done|]. case_match eqn:E1; [done|].
    case_match eqn:E2; [done|]. bool_hyps. intros Hd. exists (drop 4 b).
    split; [eapply framed_inv; done || lia|].
    unfold decode_control in Hd. case_match; [done|]. by apply ok_or_ok in Hd.
  - intros (payload & Hf & Hm). destruct (framed_fields _ _ Hf) as (_ & Hd & Hn & Hl).
    destruct Hf as [_ Hmax]. rewrite Hn, Hl, Hd. pose proof (Nat2Z.is_nonneg (length payload)).
    unfold len in *.
    rewrite (proj2 (Z.ltb_ge _ _)), (proj2 (Z.ltb_ge MAX_CONTROL_MESSAGE_SIZE _)),
      Z.eqb_refl by lia. cbn. unfold decode_control, len.
    rewrite (proj2 (Z.ltb_ge _ _)) by lia. by apply ok_or_ok.
Qed.

Lemma kind_round_trip k : kind_try_from (of_byte (to_byte (kind_to_u8 k))) = Ok k.
Proof. by destruct k. Qed.

Lemma decode_envelope_spec b k payload :
  decode_framed_control_envelope b = Ok (k, payload) ↔
    framed (to_byte (kind_to_u8 k) :: payload) b.
Proof.
  unfold decode_framed_control_envelope, CONTROL_FRAME_PREFIX_SIZE, CONTROL_KIND_PREFIX_SIZE.
  split.
  - destruct (Z.ltb_spec (len b) (4 + 1)); [done|]. case_match eqn:E1; [done|].
    case_match eqn:E2; [done|]. bool_hyps.
    assert (framed (drop 4 b) b) as Hf by (eapply framed_inv; done || lia).
    destruct (drop 4 b) as [|x p] eqn:Ed; [done|]. unfold kind_try_from.
    destruct (Z.eqb_spec (of_byte x) 1); [|destruct (Z.eqb_spec (of_byte x) 2); [|done]];
      cbn; intros [= <- <-]; cbn; replace (to_byte _) with x; try done;
      by rewrite <-(to_of_byte x); f_equal.
  - intros Hf. destruct (framed_fields _ _ Hf) as (_ & Hd & Hn & Hl).
    destruct Hf as [_ Hmax]. rewrite Hn, Hl, Hd. rewrite len_cons in *.
    pose proof (Nat2Z.is_nonneg (length payload)). unfold len in *.
    rewrite (proj2 (Z.ltb_ge _ (4 + 1))), (proj2 (Z.ltb_ge MAX_CONTROL_MESSAGE_SIZE _)),
      Z.eqb_refl, (proj2 (Z.ltb_ge _ 1)) by lia. cbn [negb orb].
    by rewrite kind_round_trip.
Qed.

(** Control framing: the framed decoder accepts exactly a 32-bit length
    followed by that many bytes, at most 64 KiB, that decode to the message; an
    encoded message decodes to itself; and the envelope decoder gives back
    exactly the kind and the payload the envelope encoder framed, for every
    input it accepts. *)
Theorem framed_control_round_trip {M} `{ProstLaws M} (m : M) (b payload : bytes) k :
  (decode_framed_control b = Ok m ↔ ∃ p, framed p b ∧ prost_decode p = Some m) ∧
  (encode_framed_control m = Ok b → decode_framed_control b = Ok m) ∧
  (decode_framed_control_envelope b = Ok (k, payload) ↔
     framed (to_byte (kind_to_u8 k) :: payload) b) ∧
  (encode_framed_control_envelope k m = Ok b →
     decode_framed_control_envelope b = Ok (k, prost_encode m) ∧
     decode_control (prost_encode m) = Ok m).
Proof.
  split_and!; [apply decode_framed_spec| |apply decode_envelope_spec|].
  - unfold encode_framed_control, encode_control. case_match eqn:E; cbn; [done|].
    intros [= <-]. apply decode_framed_spec. exists (prost_encode m).
    split; [split; [done|lia]|apply prost_decode_encode].
  - unfold encode_framed_control_envelope, encode_control.
    destruct (Z.ltb_spec MAX_CONTROL_MESSAGE_SIZE (len (prost_encode m))); cbn; [done|].
    unfold checked_add, CONTROL_KIND_PREFIX_SIZE, MAX_CONTROL_MESSAGE_SIZE, usize_max, u64_max in *.
    pose proof (Nat2Z.is_nonneg (length (prost_encode m))).
    rewrite (proj2 (Z.leb_le _ _)) by (unfold len in *; lia).
    destruct (Z.ltb_spec (64 * 1024) (1 + len (prost_encode m))); [done|].
    intros [= <-]. split.
    + apply decode_envelope_spec. unfold framed, MAX_CONTROL_MESSAGE_SIZE. rewrite len_cons.
      split; [|lia]. rewrite wrap_small by (unfold uint, len in *; lia). done.
    + unfold decode_control, MAX_CONTROL_MESSAGE_SIZE.
      rewrite (proj2 (Z.ltb_ge _ _)) by lia. by rewrite prost_decode_encode.
Qed.

Lemma framed_control_round_trip_witness :
  ∃ b, @encode_framed_control Z (countable_prost Z) 77 = Ok b ∧
    @decode_framed_control Z (countable_prost Z) b = Ok 77.
Proof.
  eexists. split; [reflexivity|].
  eapply (@framed_control_round_trip Z (countable_prost Z) (countable_prost_laws Z) 77 _ []
    Kind_CursorShape). reflexivity.
Defined.
