(* ===== verification/ClientReceiver.v ===== *)
(** * The client's video receiver (apps/nexus-client/src/receiver.rs)

    Hostile datagrams are decoded, reassembled, authenticated and checked for
    nonce replay before a frame is published in the depth-one slot. *)

From Stdlib Require Import Sorting.Sorted.
From S2P Require Import Prelude VideoPacket Crypto VideoTransport VideoSafety Protocol Control.

Open Scope Z_scope.

(** ** The nonce replay window *)

Definition NONCE_REPLAY_WINDOW : Z := 4096.

Record NonceReplayWindow := mkNonceReplayWindow {
  rw_highest_sequence : option Z;
  rw_accepted_sequences : gset Z
}.
Definition NonceReplayWindow_default : NonceReplayWindow := mkNonceReplayWindow None ∅.

(** The subtractions of the source are guarded by its comparisons. *)
Definition commit_authenticated (w : NonceReplayWindow) (sequence : Z) :
    bool * NonceReplayWindow :=
  if bool_decide (sequence ∈ rw_accepted_sequences w) then (false, w) else
  if is_some_and (rw_highest_sequence w)
       (λ highest, (sequence <=? highest) && (NONCE_REPLAY_WINDOW <=? highest - sequence))
  then (false, w) else
  let highest := match rw_highest_sequence w with
                 | None => sequence | Some known => Z.max known sequence end in
  (true, mkNonceReplayWindow (Some highest)
           (filter (λ accepted, highest - accepted < NONCE_REPLAY_WINDOW)
              ({[sequence]} ∪ rw_accepted_sequences w))).

(** ** The receiver *)

Definition CODEC_CONFIG_ID : Z := 1.

Record DecodedFrameJob := mkDecodedFrameJob {
  job_frame_id : Z;
  job_timestamp_us : Z;
  job_keyframe : bool;
  job_access_unit : bytes
}.

Record CursorPosition := mkCursorPosition {
  cp_x : Z; cp_y : Z; cp_visible : bool; cp_shape_id : Z
}.
Inductive ClientControlEvent :=
  | Event_CursorPosition (c : CursorPosition)
  | Event_CursorShape (c : CursorShape).

Inductive ClientReceiverError :=
  | Receiver_Datagram (e : VideoDatagramError)
  | Receiver_TrailingDatagramBytes
  | Receiver_Reassembly (e : ReassemblyError)
  | Receiver_Authentication (e : AeadError)
  | Receiver_NonceReplay
  | Receiver_Control (e : ControlMessageError)
  | Receiver_CursorMonitor (e : MonitorInfoError)
  | Receiver_CursorMonitorUnavailable
  | Receiver_CursorOutOfBounds
  | Receiver_CursorShape (e : CursorShapeError).

Record ClientReceiver := mkClientReceiver {
  rx_frame_key : bytes;
  rx_nonce_domain : Z;
  rx_reassembler : VideoFrameReassembler;
  rx_nonce_replay_window : NonceReplayWindow;
  rx_latest_frame : option DecodedFrameJob;
  rx_cursor_monitor : option MonitorInfo
}.

Definition ClientReceiver_new (frame_key : bytes) (nonce_domain : Z) : ClientReceiver :=
  mkClientReceiver frame_key nonce_domain VideoFrameReassembler_default
    NonceReplayWindow_default None None.

Definition rx_with (rx : ClientReceiver) (r : VideoFrameReassembler) (w : NonceReplayWindow)
    (latest : option DecodedFrameJob) : ClientReceiver :=
  mkClientReceiver (rx_frame_key rx) (rx_nonce_domain rx) r w latest (rx_cursor_monitor rx).

Section receive.
Context `{Aead}.

(** Decrypting an assembled frame under its header. *)
Definition open_assembled (rx : ClientReceiver) (assembled : AssembledFrame) :
    result AeadError bytes :=
  open_encoded_frame (rx_frame_key rx)
    (mkEncodedFrameMetadata (hdr_version (af_header assembled))
       (hdr_stream_id (af_header assembled)) (hdr_frame_id (af_header assembled))
       CODEC_CONFIG_ID (hdr_timestamp_us (af_header assembled))
       (negb (Z.land (hdr_flags (af_header assembled)) KEYFRAME =? 0)))
    (mkEncryptedFrame
       (nonce_from_sequence (rx_nonce_domain rx) (hdr_nonce_sequence (af_header assembled)))
       (af_payload assembled)).

(** The end of [accept_datagram], for a reassembled frame. *)
Definition accept_assembled (rx : ClientReceiver) (r : VideoFrameReassembler)
    (assembled : AssembledFrame) : result ClientReceiverError unit * ClientReceiver :=
  let h := af_header assembled in
  match open_assembled rx assembled with
  | Err e =>
      (Err (Receiver_Authentication e),
       rx_with rx r (rx_nonce_replay_window rx) (rx_latest_frame rx))
  | Ok access_unit =>
      let (fresh, w) := commit_authenticated (rx_nonce_replay_window rx) (hdr_nonce_sequence h) in
      if negb fresh
      then (Err Receiver_NonceReplay, rx_with rx r w (rx_latest_frame rx))
      else
        let (committed, r) := commit_authenticated_frame r (hdr_frame_id h) in
        if negb committed then (Ok tt, rx_with rx r w (rx_latest_frame rx))
        else (Ok tt, rx_with rx r w (Some (mkDecodedFrameJob (hdr_frame_id h)
                (hdr_timestamp_us h) (negb (Z.land (hdr_flags h) KEYFRAME =? 0)) access_unit)))
  end.

(** [ClientReceiver::accept_datagram] *)
Definition accept_datagram (rx : ClientReceiver) (b : bytes) :
    result ClientReceiverError unit * ClientReceiver :=
  match decode_video_datagram b with
  | Err e => (Err (Receiver_Datagram e), rx)
  | Ok (header, payload) =>
      if negb (len b =? HEADER_LEN + len payload)
      then (Err Receiver_TrailingDatagramBytes, rx) else
      match process_packet (rx_reassembler rx) header payload with
      | (Err e, r) =>
          (Err (Receiver_Reassembly e),
           rx_with rx r (rx_nonce_replay_window rx) (rx_latest_frame rx))
      | (Ok None, r) =>
          (Ok tt, rx_with rx r (rx_nonce_replay_window rx) (rx_latest_frame rx))
      | (Ok (Some assembled), r) => accept_assembled rx r assembled
      end
  end.

Definition drain_latest_frame (rx : ClientReceiver) : option DecodedFrameJob * ClientReceiver :=
  (rx_latest_frame rx,
   rx_with rx (rx_reassembler rx) (rx_nonce_replay_window rx) None).
End receive.

(** ** Cursor control *)

Definition set_cursor_monitor (rx : ClientReceiver) (monitor : MonitorInfo) :
    result ClientReceiverError unit * ClientReceiver :=
  match MonitorInfo_validate monitor with
  | Err e => (Err (Receiver_CursorMonitor e), rx)
  | Ok _ => (Ok tt, mkClientReceiver (rx_frame_key rx) (rx_nonce_domain rx)
               (rx_reassembler rx) (rx_nonce_replay_window rx) (rx_latest_frame rx)
               (Some monitor))
  end.

(** The sums are of [i32] and [u32] values in [i64], so they do not overflow. *)
Definition validate_cursor_position (rx : ClientReceiver) (cursor : CursorPosition) :
    result ClientReceiverError CursorPosition :=
  match rx_cursor_monitor rx with
  | None => Err Receiver_CursorMonitorUnavailable
  | Some monitor =>
      let x_end := mi_origin_x monitor + mi_width monitor in
      let y_end := mi_origin_y monitor + mi_height monitor in
      if (cp_x cursor <? mi_origin_x monitor) || (x_end <=? cp_x cursor) ||
         (cp_y cursor <? mi_origin_y monitor) || (y_end <=? cp_y cursor)
      then Err Receiver_CursorOutOfBounds else Ok cursor
  end.

Section cursor.
Context `{Prost CursorPosition, Prost CursorShape}.

Definition accept_control (rx : ClientReceiver) (b : bytes) :
    result ClientReceiverError CursorPosition :=
  cursor ← map_err Receiver_Control (decode_framed_control b);
  validate_cursor_position rx cursor.

Definition accept_control_datagram (rx : ClientReceiver) (b : bytes) :
    result ClientReceiverError ClientControlEvent :=
  '(kind, payload) ← map_err Receiver_Control (decode_framed_control_envelope b);
  match kind with
  | Kind_CursorPosition =>
      cursor ← map_err Receiver_Control (decode_control payload);
      Event_CursorPosition <$> validate_cursor_position rx cursor
  | Kind_CursorShape =>
      shape ← map_err Receiver_Control (decode_control payload);
      _ ← map_err Receiver_CursorShape (CursorShape_validate shape);
      Ok (Event_CursorShape shape)
  end.
End cursor.

(** ** The replay window against the set of all accepted sequences *)

(** Specification: a sequence is accepted when it was never accepted before and
    is less than the window behind every accepted one. *)
Definition window_fresh (log : list Z) (s : Z) : Prop :=
  (s ∉ log) ∧ (∀ a, a ∈ log → a - s < NONCE_REPLAY_WINDOW).

Record window_ok (w : NonceReplayWindow) (log : list Z) : Prop := {
  wo_highest : match rw_highest_sequence w with
               | None => log = []
               | Some h => h ∈ log ∧ ∀ a, a ∈ log → a ≤ h
               end;
  wo_accepted : ∀ a, a ∈ rw_accepted_sequences w ↔
    a ∈ log ∧ ∀ b, b ∈ log → b - a < NONCE_REPLAY_WINDOW
}.

Lemma window_default_ok : window_ok NonceReplayWindow_default [].
Proof. split; [done|]. set_solver. Qed.

Lemma commit_authenticated_ok w log s :
  window_ok w log →
  ((commit_authenticated w s).1 = true ↔ window_fresh log s) ∧
  window_ok (commit_authenticated w s).2
    (if (commit_authenticated w s).1 then log ++ [s] else log).
Proof.
  intros [Hh Ha]. unfold commit_authenticated, NONCE_REPLAY_WINDOW in *.
  destruct (bool_decide_reflect (s ∈ rw_accepted_sequences w)) as [Hs|Hs]; cbn.
  { split; [|by split]. split; [done|]. intros [Hn _]. apply Ha in Hs. naive_solver. }
  destruct (is_some_and _ _) eqn:Ew; cbn.
  { split; [|by split]. split; [done|]. intros [_ Hn].
    destruct (rw_highest_sequence w) as [h|]; [|done]. cbn in Ew. bool_hyps.
    specialize (Hn h (proj1 Hh)). unfold NONCE_REPLAY_WINDOW in Hn. lia. }
  assert (window_fresh log s) as Hf.
  { destruct (rw_highest_sequence w) as [h|]; cbn in Ew.
    - assert (∀ a, a ∈ log → a - s < NONCE_REPLAY_WINDOW) as Hwin.
      { intros a Hin. apply Hh in Hin. apply andb_false_iff in Ew.
        unfold NONCE_REPLAY_WINDOW. lia. }
      split; [|done]. intros Hin. apply Hs, Ha. done.
    - subst. split; [set_solver|]. intros a Hin. set_solver. }
  split; [done|]. destruct Hf as [Hn Hwin].
  set (hi := match rw_highest_sequence w with Some known => Z.max known s | None => s end).
  assert (hi ∈ log ++ [s] ∧ ∀ a, a ∈ log ++ [s] → a ≤ hi) as [Hi1 Hi2].
  { unfold hi. destruct (rw_highest_sequence w) as [h|].
    - destruct Hh as [Hin Hle]. split.
      + destruct (Z.max_spec h s) as [[_ ->]|[_ ->]]; set_solver.
      + intros a Hin'. apply elem_of_app in Hin' as [Hin'|Hin'];
          [apply Hle in Hin'; lia|]. apply list_elem_of_singleton in Hin'. lia.
    - subst. split; [set_solver|]. intros a Hin'. apply list_elem_of_singleton in Hin'. lia. }
  split; cbn; [done|]. intros a. rewrite elem_of_filter, elem_of_union, elem_of_singleton, Ha.
  rewrite elem_of_app, list_elem_of_singleton. unfold NONCE_REPLAY_WINDOW in *. split.
  - intros [Hlt Hor]. split; [naive_solver|]. intros b Hb.
    apply Hi2 in Hb. lia.
  - intros [Hin Hall]. split; [by apply Hall|]. destruct Hin as [Hin| ->]; [right|by left].
    split; [done|]. intros b Hb. apply Hall. set_solver.
Qed.

(** Sequences of commits: [true] exactly on fresh sequences. *)
Fixpoint commit_all (w : NonceReplayWindow) (seqs : list Z) : list bool * NonceReplayWindow :=
  match seqs with
  | [] => ([], w)
  | s :: seqs =>
      let (b, w) := commit_authenticated w s in
      let (bs, w) := commit_all w seqs in (b :: bs, w)
  end.

Fixpoint accepted_of (seqs : list Z) (bs : list bool) : list Z :=
  match seqs, bs with
  | s :: seqs, true :: bs => s :: accepted_of seqs bs
  | _ :: seqs, false :: bs => accepted_of seqs bs
  | _, _ => []
  end.

Lemma commit_all_ok w log seqs :
  window_ok w log → NoDup log →
  let '(bs, w') := commit_all w seqs in
  window_ok w' (log ++ accepted_of seqs bs) ∧ NoDup (log ++ accepted_of seqs bs).
Proof.
  revert w log. induction seqs as [|s seqs IH]; intros w log Hw Hnd; cbn.
  - by rewrite app_nil_r.
  - destruct (commit_authenticated_ok w log s Hw) as [Hf Hw'].
    destruct (commit_authenticated w s) as [b w1]. cbn in *.
    assert (NoDup (if b then log ++ [s] else log)) as Hnd'.
    { destruct b; [|done]. apply NoDup_app. split_and!; [done| |apply NoDup_singleton].
      destruct (proj1 Hf eq_refl) as [Hn _]. intros x Hx.
      rewrite list_elem_of_singleton. by intros ->. }
    specialize (IH w1 _ Hw' Hnd'). destruct (commit_all w1 seqs) as [bs w2].
    destruct b; cbn; [|done]. by rewrite <-(assoc_L (++)) in IH.
Qed.

Lemma window_size w log :
  window_ok w log → (size (rw_accepted_sequences w) ≤ 4096)%nat.
Proof.
  intros [Hh Ha]. destruct (rw_highest_sequence w) as [h|].
  - assert (rw_accepted_sequences w ⊆ list_to_set (seqZ (h - 4095) 4096)) as Hsub.
    { intros a (Hin & Hall)%Ha. rewrite elem_of_list_to_set, elem_of_seqZ.
      destruct Hh as [Hh1 Hh2]. specialize (Hall h Hh1). apply Hh2 in Hin.
      unfold NONCE_REPLAY_WINDOW in Hall. lia. }
    apply subseteq_size in Hsub. rewrite size_list_to_set in Hsub by apply NoDup_seqZ.
    by rewrite length_seqZ in Hsub.
  - assert (rw_accepted_sequences w = ∅) as ->; [|by rewrite size_empty; lia].
    apply set_eq. intros a. rewrite Ha. subst. set_solver.
Qed.

Lemma commit_all_fresh w log seqs i s :
  window_ok w log → seqs !! i = Some s →
  (commit_all w seqs).1 !! i = Some true ↔
    window_fresh (log ++ accepted_of (take i seqs) (take i (commit_all w seqs).1)) s.
Proof.
  revert w log i. induction seqs as [|x seqs IH]; intros w log i Hw Hi; [done|]. cbn.
  destruct (commit_authenticated_ok w log x Hw) as [Hf Hw'].
  destruct (commit_authenticated w x) as [b w1]. cbn in *.
  destruct i as [|i]; cbn in *.
  - injection Hi as ->. destruct (commit_all w1 seqs) as [bs w2]. cbn.
    rewrite app_nil_r, <-Hf. split; [by intros [= ->]|by intros ->].
  - specialize (IH w1 _ i Hw' Hi). destruct (commit_all w1 seqs) as [bs w2]. cbn in *.
    rewrite IH. destruct b; [|done]. by rewrite <-(assoc_L (++)).
Qed.

(** The frame nonce window: a sequence is accepted exactly when it was
    not accepted before and lies less than 4096 behind every accepted one, so
    no sequence is ever accepted twice, although only the last 4096 values are
    remembered. *)
Theorem nonce_window_accepts_once seqs :
  let '(bs, w) := commit_all NonceReplayWindow_default seqs in
  NoDup (accepted_of seqs bs) ∧
  (size (rw_accepted_sequences w) ≤ 4096)%nat ∧
  ∀ i s, seqs !! i = Some s →
    (bs !! i = Some true ↔ window_fresh (accepted_of (take i seqs) (take i bs)) s).
Proof.
  pose proof (commit_all_ok _ _ seqs window_default_ok (NoDup_nil_2 (A := Z))) as Hok.
  pose proof (λ i s, commit_all_fresh _ _ seqs i s window_default_ok) as Hfr.
  destruct (commit_all NonceReplayWindow_default seqs) as [bs w]. cbn in *.
  destruct Hok as [Hw Hnd]. split_and!; [done|by eapply window_size|done].
Qed.

(** ** What the receiver publishes *)

Section publish.
Context `{Aead}.

Record receiver_ok (rx : ClientReceiver) (log : list Z) : Prop := {
  ro_reassembler : reassembler_ok (rx_reassembler rx);
  ro_window : window_ok (rx_nonce_replay_window rx) log
}.

(** A publication: the job, the frame's nonce sequence and the ciphertext it
    was decrypted from under the receiver's key and the frame's metadata. *)
Definition authentic (key : bytes) (domain : Z) (job : DecodedFrameJob) (s : Z) : Prop :=
  ∃ version stream ciphertext,
    aead_decrypt key (nonce_from_sequence domain s)
      (EncodedFrameMetadata_aad (mkEncodedFrameMetadata version stream (job_frame_id job)
         CODEC_CONFIG_ID (job_timestamp_us job) (job_keyframe job)))
      ciphertext = Some (job_access_unit job).

Record publication (rx : ClientReceiver) (job : DecodedFrameJob) (s : Z) : Prop := {
  pb_authentic : authentic (rx_frame_key rx) (rx_nonce_domain rx) job s;
  pb_newer : above (ra_last_authenticated_frame_id (rx_reassembler rx)) (job_frame_id job)
}.

(** What one datagram does: nothing but bookkeeping, or a publication with a
    fresh nonce, or the recording of a fresh nonce of a stale frame. *)
Definition outcome (rx rx' : ClientReceiver) (log log' : list Z)
    (published : option (DecodedFrameJob * Z)) : Prop :=
  match published with
  | Some (job, s) =>
      publication rx job s ∧ window_fresh log s ∧ log' = log ++ [s] ∧
      rx_latest_frame rx' = Some job ∧
      ra_last_authenticated_frame_id (rx_reassembler rx') = Some (job_frame_id job)
  | None =>
      (log' = log ∨ ∃ s, window_fresh log s ∧ log' = log ++ [s]) ∧
      rx_latest_frame rx' = rx_latest_frame rx ∧
      ra_last_authenticated_frame_id (rx_reassembler rx') =
        ra_last_authenticated_frame_id (rx_reassembler rx)
  end.

Lemma accept_assembled_outcome rx r log assembled :
  receiver_ok rx log → reassembler_ok r →
  ra_last_authenticated_frame_id r = ra_last_authenticated_frame_id (rx_reassembler rx) →
  ∃ log' published,
    receiver_ok (accept_assembled rx r assembled).2 log' ∧
    outcome rx (accept_assembled rx r assembled).2 log log' published.
Proof.
  intros [_ Hw] Hr Hlast. unfold accept_assembled.
  destruct (open_assembled rx assembled) as [unit_|e] eqn:Eo; cbn;
    [|exists log, None; split; [by split|]; by split_and!; [left|..]].
  destruct (commit_authenticated_ok _ _ (hdr_nonce_sequence (af_header assembled)) Hw) as [Hf Hw'].
  destruct (commit_authenticated _ _) as [[] w]; cbn in *;
    [|exists log, None; split; [by split|]; by split_and!; [left|..]].
  pose proof (commit_ok r (hdr_frame_id (af_header assembled)) Hr) as Hr'.
  unfold commit_authenticated_frame in *.
  destruct (is_some_and _ _) eqn:Es; cbn in *.
  - exists (log ++ [hdr_nonce_sequence (af_header assembled)]), None.
    split; [by split|]. split_and!; [right; eexists; split; [by apply Hf|done]|done|done].
  - eexists (log ++ [hdr_nonce_sequence (af_header assembled)]), (Some (_, _)).
    split; [by split|]. cbn. split_and!; [|by apply Hf|done|done|done]. split; cbn.
    + unfold open_assembled, open_encoded_frame, open_session_payload in Eo. cbn in Eo.
      destruct (aead_decrypt _ _ _ _) as [p|] eqn:Ed; cbn in Eo; [|done].
      injection Eo as ->. by eexists _, _, _.
    + rewrite <-Hlast. by apply above_spec.
Qed.

Lemma rx_with_same rx r w l :
  rx_frame_key (rx_with rx r w l) = rx_frame_key rx ∧
  rx_nonce_domain (rx_with rx r w l) = rx_nonce_domain rx.
Proof. done. Qed.

Lemma accept_datagram_keys rx b :
  rx_frame_key (accept_datagram rx b).2 = rx_frame_key rx ∧
  rx_nonce_domain (accept_datagram rx b).2 = rx_nonce_domain rx.
Proof.
  unfold accept_datagram, accept_assembled. repeat case_match; done.
Qed.

Lemma accept_datagram_outcome rx log b :
  receiver_ok rx log →
  ∃ log' published,
    receiver_ok (accept_datagram rx b).2 log' ∧
    outcome rx (accept_datagram rx b).2 log log' published.
Proof.
  intros Hrx. unfold accept_datagram.
  assert (outcome rx rx log log None) as Hnop by (split_and!; [by left|done|done]).
  destruct (decode_video_datagram b) as [[h p]|e] eqn:Ed; [|by exists log, None].
  case_match; [by exists log, None|].
  assert (header_ok h) as Hh.
  { unfold decode_video_datagram in Ed. case_match; [done|]. rewrite map_err_ok in Ed.
    apply decode_encodes in Ed as (? & _ & ? & _). done. }
  pose proof (process_packet_ok _ h p (ro_reassembler _ _ Hrx) Hh) as Hr.
  destruct (process_packet_frames_only (rx_reassembler rx) h p) as [F HF].
  destruct (process_packet (rx_reassembler rx) h p) as [[[a|]|e] r]; cbn in *.
  - apply accept_assembled_outcome; [done|done|by subst].
  - exists log, None. split; [split; [done|apply Hrx]|]. by split_and!; [left| |subst].
  - exists log, None. split; [split; [done|apply Hrx]|]. by split_and!; [left| |subst].
Qed.

(** ** Sequences of datagrams *)

Definition receive_all (rx : ClientReceiver) (ds : list bytes) : ClientReceiver :=
  fold_left (λ rx b, (accept_datagram rx b).2) ds rx.

(** The publications of a run: one entry per datagram, [Some] when the slot was
    refilled. *)
Record run_of (rx : ClientReceiver) (ds : list bytes)
    (pubs : list (option (DecodedFrameJob * Z))) : Prop := {
  run_length : length pubs = length ds;
  run_latest : ∀ i p, pubs !! i = Some p →
    rx_latest_frame (receive_all rx (take (S i) ds)) =
      match p with
      | Some (job, _) => Some job
      | None => rx_latest_frame (receive_all rx (take i ds))
      end;
  run_increasing : StronglySorted Z.lt ((λ p, job_frame_id p.1) <$> omap id pubs);
  run_nonces : NoDup ((omap id pubs).*2);
  run_authentic : Forall (λ p, authentic (rx_frame_key rx) (rx_nonce_domain rx) p.1 p.2)
    (omap id pubs)
}.

Lemma receive_all_run rx log ds :
  receiver_ok rx log →
  ∃ pubs, run_of rx ds pubs ∧
    Forall (λ p, above (ra_last_authenticated_frame_id (rx_reassembler rx)) (job_frame_id p.1) ∧
      p.2 ∉ log) (omap id pubs).
Proof.
  revert rx log. induction ds as [|b ds IH]; intros rx log Hrx.
  { exists []. split; [|constructor]. split; try done; constructor. }
  destruct (accept_datagram_outcome rx log b Hrx) as (log' & p & Hrx' & Hout).
  destruct (accept_datagram_keys rx b) as [Ek Edom].
  destruct (IH _ _ Hrx') as (pubs & [Hlen Hlat Hinc Hnd Hau] & Hnew).
  set (rx' := (accept_datagram rx b).2) in *.
  exists (p :: pubs). cbn in Hout.
  assert (∀ i q, (p :: pubs) !! i = Some q →
    rx_latest_frame (receive_all rx (take (S i) (b :: ds))) =
      match q with Some (job, _) => Some job
      | None => rx_latest_frame (receive_all rx (take i (b :: ds))) end) as Hl.
  { intros [|i] q Hq; cbn in *.
    - injection Hq as ->. change (receive_all rx [b]) with rx'.
      destruct q as [[job s]|]; [by destruct Hout as (_ & _ & _ & ? & _)|by destruct Hout as (_ & ? & _)].
    - apply (Hlat i q Hq). }
  rewrite Ek, Edom in Hau. rewrite Forall_in in Hnew.
  destruct p as [[job s]|]; cbn in *.
  - destruct Hout as ([Hauth Habove] & [Hfresh _] & -> & _ & Hwm). rewrite Hwm in Hnew. split.
    + split; cbn; [lia|done| | |by constructor].
      * constructor; [done|]. apply Forall_fmap, Forall_in. intros q Hq. cbn.
        by apply (proj1 (Hnew q Hq)).
      * constructor; [|done]. intros Hin. apply list_elem_of_fmap in Hin as (q & -> & Hq).
        apply Hnew in Hq as [_ Hq]. set_solver.
    + constructor; [done|]. apply Forall_in. intros q Hq. destruct (Hnew q Hq) as [H1 H2].
      split; [|set_solver]. intros l Hl'. pose proof (Habove l Hl'). pose proof (H1 _ eq_refl). lia.
  - destruct Hout as (Hlog & _ & Hwm). rewrite Hwm in Hnew. split.
    + split; cbn; [lia|done..].
    + apply Forall_in. intros q Hq. destruct (Hnew q Hq) as [H1 H2]. split; [done|].
      destruct Hlog as [->|(s & _ & ->)]; set_solver.
Qed.
End publish.

Lemma receiver_new_ok key domain : receiver_ok (ClientReceiver_new key domain) [].
Proof.
  split; cbn; [by apply reassembler_new_ok|apply window_default_ok].
Qed.

(** C2. The receiver on a hostile network: whatever datagrams arrive, every
    frame that reaches the handoff slot was decrypted under the session's key,
    the channel's nonce domain and exactly the metadata it is published with;
    the ids of published frames strictly increase, no nonce sequence is
    published twice, and the slot changes for no other reason. *)
Theorem receiver_publishes_authentic `{Aead} key domain ds :
  ∃ pubs, run_of (ClientReceiver_new key domain) ds pubs.
Proof.
  destruct (receive_all_run (ClientReceiver_new key domain) [] ds (receiver_new_ok key domain))
    as (pubs & Hrun & _). by exists pubs.
Qed.
