(* ===== verification/Capture.v ===== *)
(** * Capture and encoding (crates/nexus-capture/src, crates/nexus-codec/src)

    Frames and their validation ([frame.rs]), the depth-one queue
    ([latest_queue.rs]), the synthetic source ([synthetic.rs]), the encoder
    contract ([types.rs]) and the software encoder ([software.rs]). *)

From S2P Require Import Prelude.

Open Scope Z_scope.

(** ** Frames *)

Inductive CaptureError :=
  | Capture_InvalidDimensions | Capture_FrameSizeOverflow
  | Capture_InvalidBgraPayload (actual expected : Z).
Inductive PixelFormat := Pixel_Native | Pixel_Bgra8.

Record CapturedFrame := mkCapturedFrame {
  fr_frame_id : Z;      (* u64 *)
  fr_timestamp_us : Z;  (* u64 *)
  fr_width : Z;         (* u32 *)
  fr_height : Z;        (* u32 *)
  fr_format : PixelFormat;
  fr_data : bytes
}.

Definition expected_bgra_len (width height : Z) : result CaptureError Z :=
  pixels ← ok_or (checked_mul usize_max width height) Capture_FrameSizeOverflow;
  ok_or (checked_mul usize_max pixels 4) Capture_FrameSizeOverflow.

Definition CapturedFrame_validate (f : CapturedFrame) : result CaptureError unit :=
  if (fr_width f =? 0) || (fr_height f =? 0) then Err Capture_InvalidDimensions else
  match fr_format f with
  | Pixel_Bgra8 =>
      expected ← expected_bgra_len (fr_width f) (fr_height f);
      if negb (len (fr_data f) =? expected)
      then Err (Capture_InvalidBgraPayload (len (fr_data f)) expected) else Ok tt
  | Pixel_Native => Ok tt
  end.

Definition CapturedFrame_new_bgra (frame_id timestamp_us width height : Z) (data : bytes) :
    result CaptureError CapturedFrame :=
  let frame := mkCapturedFrame frame_id timestamp_us width height Pixel_Bgra8 data in
  _ ← CapturedFrame_validate frame; Ok frame.

(** The trait [CaptureSource]; [E] is its associated error type. *)
Class CaptureSource (C E : Type) := capture_next_frame : C → result E CapturedFrame * C.

(** ** The depth-one queue *)

Record LatestFrameQueue (T : Type) := mkLatestFrameQueue { lq_slot : option T; lq_dropped : Z }.
Arguments mkLatestFrameQueue {T}.
Arguments lq_slot {T}.
Arguments lq_dropped {T}.

Definition LatestFrameQueue_new {T} : LatestFrameQueue T := mkLatestFrameQueue None 0.
(** The dropped counter would need [2^64] frames to overflow. *)
Definition LatestFrameQueue_replace {T} (q : LatestFrameQueue T) (frame : T) :
    LatestFrameQueue T :=
  mkLatestFrameQueue (Some frame)
    (match lq_slot q with Some _ => lq_dropped q + 1 | None => lq_dropped q end).
Definition LatestFrameQueue_take {T} (q : LatestFrameQueue T) : option T * LatestFrameQueue T :=
  (lq_slot q, mkLatestFrameQueue None (lq_dropped q)).

(** ** The synthetic source *)

Record SyntheticCaptureSource := mkSyntheticCaptureSource {
  syn_width : Z; syn_height : Z; syn_fps : Z; syn_frame_count : Z
}.
Definition SyntheticCaptureSource_new (width height fps : Z) : SyntheticCaptureSource :=
  mkSyntheticCaptureSource width height (Z.max fps 1) 0.

(** One pixel: blue, green, red, alpha. *)
Definition bgra_pixel (shift x y : Z) : bytes :=
  [to_byte (x + shift); to_byte (y + shift); to_byte (x + y + shift); to_byte 255].

Definition generate_bgra_pattern (s : SyntheticCaptureSource) (frame_id : Z) : bytes :=
  let shift := frame_id mod 256 in
  concat ((λ y, concat ((λ x, bgra_pixel shift x y) <$> seqZ 0 (syn_width s)))
            <$> seqZ 0 (syn_height s)).

(** The associated error is [Infallible]. *)
#[global] Instance SyntheticCaptureSource_source :
    CaptureSource SyntheticCaptureSource Empty_set := λ s,
  let frame_count := syn_frame_count s + 1 in
  let s := mkSyntheticCaptureSource (syn_width s) (syn_height s) (syn_fps s) frame_count in
  (Ok (mkCapturedFrame frame_count
         (saturating_sub frame_count 1 * 1000000 / syn_fps s) (syn_width s) (syn_height s)
         Pixel_Bgra8 (generate_bgra_pattern s frame_count)), s).

(** ** Encoders *)

Inductive CodecKind := Codec_H264.
Inductive CodecError :=
  | Codec_InvalidDimensions | Codec_InvalidRateOrBitrate | Codec_FrameDimensionsMismatch
  | Codec_NotConfigured | Codec_InvalidFrame | Codec_BackendUnavailable
  | Codec_BackendLost | Codec_OutputPending.

Record EncoderConfig := mkEncoderConfig {
  ec_codec : CodecKind; ec_width : Z; ec_height : Z; ec_max_fps : Z; ec_bitrate_bps : Z
}.
Definition EncoderConfig_validate (c : EncoderConfig) : result CodecError EncoderConfig :=
  if (ec_width c =? 0) || (ec_height c =? 0) || (ec_max_fps c =? 0) || (ec_bitrate_bps c =? 0)
  then Err (if (ec_width c =? 0) || (ec_height c =? 0)
            then Codec_InvalidDimensions else Codec_InvalidRateOrBitrate)
  else Ok c.

Record EncodedFrame := mkEncodedFrame {
  enc_frame_id : Z; enc_timestamp_us : Z; enc_keyframe : bool; enc_data : bytes
}.

(** The trait [VideoEncoder]. *)
Class VideoEncoder (V : Type) := {
  encoder_configure : V → EncoderConfig → result CodecError unit * V;
  encoder_encode : V → CapturedFrame → result CodecError EncodedFrame * V;
  encoder_request_keyframe : V → result CodecError unit * V;
  encoder_reconfigure : V → EncoderConfig → result CodecError unit * V
}.

(** ** The software encoder *)

Definition DEFAULT_KEYFRAME_INTERVAL : Z := 60.
Definition NAL_START_CODE : bytes := [x00; x00; x00; x01].

Record SoftwareFallbackEncoder := mkSoftwareFallbackEncoder {
  sw_config : option EncoderConfig;
  sw_keyframe_interval : Z;
  sw_frame_count : Z;
  sw_force_keyframe : bool
}.
Definition SoftwareFallbackEncoder_with_keyframe_interval (interval : Z) :
    SoftwareFallbackEncoder := mkSoftwareFallbackEncoder None interval 0 true.
Definition SoftwareFallbackEncoder_new : SoftwareFallbackEncoder :=
  SoftwareFallbackEncoder_with_keyframe_interval DEFAULT_KEYFRAME_INTERVAL.

(** SPS, PPS and IDR units for a keyframe, one non-IDR unit otherwise. *)
Definition annex_b_prefix (config : EncoderConfig) (is_keyframe : bool) : bytes :=
  if is_keyframe
  then NAL_START_CODE ++ [x67] ++ to_be_bytes 4 (ec_width config) ++
       to_be_bytes 4 (ec_height config) ++ to_be_bytes 4 (ec_max_fps config) ++
       NAL_START_CODE ++ [x68] ++ [x01] ++ NAL_START_CODE ++ [x65]
  else NAL_START_CODE ++ [x41].
Definition build_annex_b_payload (config : EncoderConfig) (is_keyframe : bool)
    (frame_data : bytes) : bytes := annex_b_prefix config is_keyframe ++ frame_data.

Definition software_configure (e : SoftwareFallbackEncoder) (config : EncoderConfig) :
    result CodecError unit * SoftwareFallbackEncoder :=
  match EncoderConfig_validate config with
  | Err err => (Err err, e)
  | Ok validated =>
      (Ok tt, mkSoftwareFallbackEncoder (Some validated) (sw_keyframe_interval e) 0 true)
  end.

Definition software_encode (e : SoftwareFallbackEncoder) (frame : CapturedFrame) :
    result CodecError EncodedFrame * SoftwareFallbackEncoder :=
  match sw_config e with
  | None => (Err Codec_NotConfigured, e)
  | Some config =>
      if negb (fr_width frame =? ec_width config) || negb (fr_height frame =? ec_height config)
      then (Err Codec_FrameDimensionsMismatch, e) else
      let is_keyframe := sw_force_keyframe e ||
        ((0 <? sw_keyframe_interval e) && (sw_frame_count e mod sw_keyframe_interval e =? 0)) in
      (Ok (mkEncodedFrame (fr_frame_id frame) (fr_timestamp_us frame) is_keyframe
             (build_annex_b_payload config is_keyframe (fr_data frame))),
       mkSoftwareFallbackEncoder (sw_config e) (sw_keyframe_interval e)
         (sw_frame_count e + 1) false)
  end.

Definition software_request_keyframe (e : SoftwareFallbackEncoder) :
    result CodecError unit * SoftwareFallbackEncoder :=
  (Ok tt, mkSoftwareFallbackEncoder (sw_config e) (sw_keyframe_interval e)
            (sw_frame_count e) true).

Definition software_reconfigure (e : SoftwareFallbackEncoder) (config : EncoderConfig) :
    result CodecError unit * SoftwareFallbackEncoder :=
  match EncoderConfig_validate config with
  | Err err => (Err err, e)
  | Ok validated =>
      (Ok tt, mkSoftwareFallbackEncoder (Some validated) (sw_keyframe_interval e)
                (sw_frame_count e) true)
  end.

#[global] Instance SoftwareFallbackEncoder_encoder : VideoEncoder SoftwareFallbackEncoder := {
  encoder_configure := software_configure;
  encoder_encode := software_encode;
  encoder_request_keyframe := software_request_keyframe;
  encoder_reconfigure := software_reconfigure
}.

(** ** The queue keeps the newest frame *)

Definition queue_all {T} (q : LatestFrameQueue T) (frames : list T) : LatestFrameQueue T :=
  fold_left LatestFrameQueue_replace frames q.

Lemma queue_all_spec {T} (q : LatestFrameQueue T) frames :
  lq_slot (queue_all q frames) =
    (match last frames with Some f => Some f | None => lq_slot q end) ∧
  lq_dropped (queue_all q frames) =
    lq_dropped q + len frames -
      (match lq_slot q, frames with None, _ :: _ => 1 | _, _ => 0 end).
Proof.
  revert q. induction frames as [|f frames IH]; intros q.
  - split; [done|]. cbn. unfold len. cbn. destruct (lq_slot q); lia.
  - change (queue_all q (f :: frames)) with (queue_all (LatestFrameQueue_replace q f) frames).
    destruct (IH (LatestFrameQueue_replace q f)) as [-> ->]. rewrite len_cons. split.
    + destruct frames as [|g frames]; [done|]. rewrite last_cons_cons.
      destruct (last (g :: frames)) eqn:E; [done|]. by apply last_None in E.
    + cbn. destruct (lq_slot q), frames; unfold len; cbn; lia.
Qed.

(** ** Frames of the synthetic source *)

Lemma len_concat_const {A} (n : Z) (ls : list (list A)) :
  Forall (λ l, len l = n) ls → len (concat ls) = len ls * n.
Proof.
  induction 1 as [|l ls Hl _ IH]; [done|]. cbn [concat]. rewrite len_app, len_cons, Hl, IH. lia.
Qed.

Lemma len_pattern s id :
  0 ≤ syn_width s → 0 ≤ syn_height s →
  len (generate_bgra_pattern s id) = syn_height s * (syn_width s * 4).
Proof.
  intros Hw Hh. unfold generate_bgra_pattern.
  assert (∀ n, 0 ≤ n → len (seqZ 0 n) = n) as Hseq
    by (intros; unfold len; rewrite length_seqZ; lia).
  rewrite (len_concat_const (syn_width s * 4)).
  - unfold len at 1. rewrite length_fmap. fold (len (seqZ 0 (syn_height s))). by rewrite Hseq.
  - apply Forall_fmap, Forall_in. intros y _. cbn.
    rewrite (len_concat_const 4).
    + unfold len at 1. rewrite length_fmap. fold (len (seqZ 0 (syn_width s))). by rewrite Hseq.
    + by apply Forall_fmap, Forall_in.
Qed.

Lemma synthetic_frame_valid s :
  1 ≤ syn_width s → 1 ≤ syn_height s → syn_width s * syn_height s * 4 ≤ usize_max →
  ∃ f s', capture_next_frame s = (Ok f, s') ∧ CapturedFrame_validate f = Ok tt ∧
    fr_frame_id f = syn_frame_count s + 1 ∧ fr_width f = syn_width s ∧
    fr_height f = syn_height s ∧
    s' = mkSyntheticCaptureSource (syn_width s) (syn_height s) (syn_fps s) (syn_frame_count s + 1).
Proof.
  intros Hw Hh Hmax. eexists _, _. split; [reflexivity|]. split_and!; try done.
  unfold CapturedFrame_validate. cbn.
  rewrite (proj2 (Z.eqb_neq _ _)), (proj2 (Z.eqb_neq (syn_height s) 0)) by lia. cbn.
  unfold expected_bgra_len, checked_mul.
  rewrite (proj2 (Z.leb_le _ usize_max)) by lia. cbn.
  rewrite (proj2 (Z.leb_le _ usize_max)) by lia. cbn.
  rewrite len_pattern by (cbn; lia). cbn.
  rewrite (proj2 (Z.eqb_eq _ _)) by lia. done.
Qed.

(** ** The keyframe cadence *)

Fixpoint encode_all {V} `{VideoEncoder V} (e : V) (frames : list CapturedFrame) :
    list (result CodecError EncodedFrame) :=
  match frames with
  | [] => []
  | f :: frames => let (o, e) := encoder_encode e f in o :: encode_all e frames
  end.

Lemma software_encode_all c k n (force : bool) frames i f :
  0 < k → 0 ≤ n → (force = true → n mod k = 0) →
  Forall (λ f, fr_width f = ec_width c ∧ fr_height f = ec_height c) frames →
  frames !! i = Some f →
  encode_all (mkSoftwareFallbackEncoder (Some c) k n force) frames !! i =
    Some (Ok (mkEncodedFrame (fr_frame_id f) (fr_timestamp_us f)
      ((n + Z.of_nat i) mod k =? 0)
      (build_annex_b_payload c ((n + Z.of_nat i) mod k =? 0) (fr_data f)))).
Proof.
  intros Hk. revert n force i. induction frames as [|g frames IH];
    intros n force i Hn Hforce Hdims Hi; [done|].
  apply Forall_cons_1 in Hdims as [[Hw Hh] Hdims]. cbn. unfold software_encode. cbn.
  rewrite Hw, Hh, !Z.eqb_refl. cbn. rewrite (proj2 (Z.ltb_lt 0 k)) by done. cbn.
  destruct i as [|i]; cbn in *.
  - injection Hi as ->. rewrite Z.add_0_r.
    replace (force || (n mod k =? 0)) with (n mod k =? 0); [done|].
    destruct force; [|done]. cbn. rewrite Hforce by done. done.
  - replace (n + Z.of_nat (S i)) with (n + 1 + Z.of_nat i) by lia.
    apply (IH (n + 1) false i); [lia|done|done|done].
Qed.

(** The software encoder: after a successful configuration every frame of
    the configured size is encoded, with its own id and timestamp, to the unit
    headers followed by exactly its pixels, and precisely each frame whose
    number since the configuration is a multiple of the interval is a keyframe,
    the first one included. *)
Theorem software_encoder_cadence e c e' k frames i f :
  0 < k → sw_keyframe_interval e = k → encoder_configure e c = (Ok tt, e') →
  Forall (λ f, fr_width f = ec_width c ∧ fr_height f = ec_height c) frames →
  frames !! i = Some f →
  encode_all e' frames !! i = Some (Ok (mkEncodedFrame (fr_frame_id f) (fr_timestamp_us f)
    (Z.of_nat i mod k =? 0) (build_annex_b_payload c (Z.of_nat i mod k =? 0) (fr_data f)))).
Proof.
  intros Hk Hint Hconf Hdims Hi. cbn in Hconf. unfold software_configure, EncoderConfig_validate in Hconf.
  destruct (_ || _ || _ || _); [done|]. injection Hconf as <-. rewrite Hint.
  rewrite (software_encode_all c k 0 true frames i f); [done|done|done| |done|done].
  by rewrite Z.mod_0_l by lia.
Qed.

Lemma software_encoder_cadence_witness :
  let c := mkEncoderConfig Codec_H264 2 1 30 4000000 in
  let e := SoftwareFallbackEncoder_with_keyframe_interval 2 in
  let frame id := mkCapturedFrame id id 2 1 Pixel_Bgra8 [x01; x02] in
  encode_all (software_configure e c).2 [frame 1; frame 2; frame 3] !! 2%nat =
    Some (Ok (mkEncodedFrame 3 3 true (build_annex_b_payload c true [x01; x02]))).
Proof.
  intros c e frame.
  apply (software_encoder_cadence e c (software_configure e c).2 2
    [frame 1; frame 2; frame 3] 2 (frame 3)); try done.
  repeat constructor.
Defined.
