(* ===== verification/Streamer.v ===== *)
(** * The host's video streamer (apps/nexus-desktop-host/src/streamer.rs)

    Capture, encode, seal, packetize and encode datagrams. *)

From S2P Require Import Prelude VideoPacket Crypto VideoTransport Capture.

Open Scope Z_scope.

Inductive StreamerError :=
  | Streamer_Capture (message : string)
  | Streamer_Codec (e : CodecError)
  | Streamer_Seal (e : FrameSealError)
  | Streamer_Packetize (e : PacketizeError)
  | Streamer_Datagram (e : VideoDatagramError)
  | Streamer_FrameIdOutOfRange (frame_id : Z)
  | Streamer_ChannelClosed.

(** [stream_id] is a [u8] that is widened to the header's [u16]; what is proved holds for
    every [u16]. *)
Record HostVideoStreamer (C : Type) := mkHostVideoStreamer {
  hs_capture : C;
  hs_encoder : SoftwareFallbackEncoder;
  hs_queue : LatestFrameQueue CapturedFrame;
  hs_aead_key : bytes;
  hs_nonce_seq : NonceSequence;
  hs_codec_config_id : Z;
  hs_stream_id : Z
}.
Arguments mkHostVideoStreamer {C}.
Arguments hs_capture {C}.
Arguments hs_encoder {C}.
Arguments hs_queue {C}.
Arguments hs_aead_key {C}.
Arguments hs_nonce_seq {C}.
Arguments hs_codec_config_id {C}.
Arguments hs_stream_id {C}.

Definition HostVideoStreamer_new {C} (capture : C) (aead_key : bytes) (width height : Z) :
    result StreamerError (HostVideoStreamer C) :=
  let encoder_config := mkEncoderConfig Codec_H264 width height 30 4000000 in
  match encoder_configure SoftwareFallbackEncoder_new encoder_config with
  | (Err e, _) => Err (Streamer_Codec e)
  | (Ok _, encoder) =>
      Ok (mkHostVideoStreamer capture encoder LatestFrameQueue_new aead_key
            (NonceSequence_new 1) 1 1)
  end.

Definition hs_with_nonce {C} (s : HostVideoStreamer C) (n : NonceSequence) :
    HostVideoStreamer C :=
  mkHostVideoStreamer (hs_capture s) (hs_encoder s) (hs_queue s) (hs_aead_key s) n
    (hs_codec_config_id s) (hs_stream_id s).

(** The base header of an encoded frame, before its nonce is known. *)
Definition base_header {C} (s : HostVideoStreamer C) (encoded : EncodedFrame)
    (nonce_sequence : Z) : VideoPacketHeader :=
  mkVideoPacketHeader CURRENT_VERSION (if enc_keyframe encoded then KEYFRAME else 0)
    (hs_stream_id s) (enc_frame_id encoded) 0 1 (enc_timestamp_us encoded) nonce_sequence 0.

(** The loop that encodes the packets; [None] is a panic. *)
Fixpoint encode_datagrams (bld : build) (packets : list (VideoPacketHeader * bytes)) :
    option (result StreamerError (list bytes)) :=
  match packets with
  | [] => Some (Ok [])
  | (header, payload) :: packets =>
      match encode_video_datagram bld header payload with
      | None => None
      | Some (Err e) => Some (Err (Streamer_Datagram e))
      | Some (Ok d) =>
          match encode_datagrams bld packets with
          | Some (Ok ds) => Some (Ok (d :: ds))
          | r => r
          end
      end
  end.

Section stream.
Context `{Aead} {C : Type}.

Definition packetize_encoded_frame (bld : build) (s : HostVideoStreamer C)
    (encoded : EncodedFrame) : option (result StreamerError (list bytes)) * HostVideoStreamer C :=
  if negb (enc_frame_id encoded <=? 4294967295)
  then (Some (Err (Streamer_FrameIdOutOfRange (enc_frame_id encoded))), s) else
  let (sealed, nonce_seq) :=
    seal_video_frame (hs_aead_key s) (hs_nonce_seq s) (base_header s encoded 0)
      (hs_codec_config_id s) (enc_data encoded) in
  let s := hs_with_nonce s nonce_seq in
  match sealed with
  | Err e => (Some (Err (Streamer_Seal e)), s)
  | Ok encrypted_frame =>
      let nonce_sequence := from_be_bytes (drop 4 (ef_nonce encrypted_frame)) in
      match packetize_video_frame (base_header s encoded nonce_sequence)
              (ef_ciphertext encrypted_frame) 1200 with
      | Err e => (Some (Err (Streamer_Packetize e)), s)
      | Ok packets => (encode_datagrams bld packets, s)
      end
  end.

Definition packetize_encode_result (bld : build) (s : HostVideoStreamer C)
    (encoded : result CodecError EncodedFrame) :
    option (result StreamerError (list bytes)) * HostVideoStreamer C :=
  match encoded with
  | Ok encoded => packetize_encoded_frame bld s encoded
  | Err Codec_OutputPending => (Some (Ok []), s)
  | Err error => (Some (Err (Streamer_Codec error)), s)
  end.

(** [process_next_frame]; [text] renders the capture source's error. *)
Definition process_next_frame {E} `{CaptureSource C E} (text : E → string) (bld : build)
    (s : HostVideoStreamer C) :
    option (result StreamerError (list bytes)) * HostVideoStreamer C :=
  let (captured, capture) := capture_next_frame (hs_capture s) in
  let with_parts encoder queue :=
    mkHostVideoStreamer capture encoder queue (hs_aead_key s) (hs_nonce_seq s)
      (hs_codec_config_id s) (hs_stream_id s) in
  match captured with
  | Err e => (Some (Err (Streamer_Capture (text e))), with_parts (hs_encoder s) (hs_queue s))
  | Ok frame =>
      let (latest, queue) := LatestFrameQueue_take (LatestFrameQueue_replace (hs_queue s) frame) in
      match latest with
      | None => (Some (Ok []), with_parts (hs_encoder s) queue)
      | Some latest =>
          let (encoded, encoder) := encoder_encode (hs_encoder s) latest in
          packetize_encode_result bld (with_parts encoder queue) encoded
      end
  end.

Definition HostVideoStreamer_request_keyframe (s : HostVideoStreamer C) :
    result StreamerError unit * HostVideoStreamer C :=
  let (r, encoder) := encoder_request_keyframe (hs_encoder s) in
  (map_err Streamer_Codec r,
   mkHostVideoStreamer (hs_capture s) encoder (hs_queue s) (hs_aead_key s) (hs_nonce_seq s)
     (hs_codec_config_id s) (hs_stream_id s)).
End stream.
