(* ===== verification/EndToEnd.v ===== *)
(** * From the host's encoder to the client's decoder

    The datagrams the streamer makes of an encoded frame, delivered in any
    order and with any repetitions, make the receiver publish that frame. *)

From S2P Require Import Prelude VideoPacket Crypto VideoTransport VideoRoundtrip VideoSafety Protocol Control Capture Streamer ClientReceiver.

Open Scope Z_scope.

(** The datagram of a packet. *)
Definition wire (p : VideoPacketHeader * bytes) : bytes := header_bytes p.1 ++ p.2.

Section wire.
Context (base : VideoPacketHeader) (payload : bytes).
Context (packets : list (VideoPacketHeader * bytes)).
Context (Hbase : header_ok base) (Hversion : hdr_version base = CURRENT_VERSION).
Context (Hfr : fragments base payload packets).

Lemma packet_facts p :
  p ∈ packets → header_ok p.1 ∧ hdr_version p.1 = CURRENT_VERSION ∧
  hdr_payload_len p.1 = len p.2 ∧ len p.2 ≤ MAX_PAYLOAD_LEN.
Proof.
  destruct p as [h c]. intros Hp. split; [by eapply fragments_header_ok|].
  apply list_elem_of_lookup in Hp as [i Hi].
  destruct (fr_each _ _ _ Hfr _ _ _ Hi) as (_&_&?&?&E&_). cbn. by rewrite E.
Qed.

Lemma len_wire p : len (wire p) = HEADER_LEN + len p.2.
Proof. unfold wire. rewrite len_app. done. Qed.

Lemma encode_wire bld p :
  p ∈ packets → encode_video_datagram bld p.1 p.2 = Some (Ok (wire p)).
Proof.
  intros (_ & _ & Hl & Hmax)%packet_facts.
  unfold encode_video_datagram, VideoPacketHeader_encode, MAX_VIDEO_DATAGRAM_SIZE, HEADER_LEN,
    MAX_PAYLOAD_LEN in *.
  rewrite (proj2 (Z.ltb_ge 1200 _)), Hl, Z.eqb_refl, (proj2 (Z.ltb_ge (64 * 1024) _)),
    (proj2 (Z.leb_le _ 1200)) by lia. by destruct bld.
Qed.

Lemma decode_wire p : p ∈ packets → decode_video_datagram (wire p) = Ok p.
Proof.
  intros Hp. destruct (packet_facts p Hp) as (Hok & Hv & Hl & Hmax).
  unfold decode_video_datagram, MAX_VIDEO_DATAGRAM_SIZE. rewrite len_wire.
  unfold HEADER_LEN, MAX_PAYLOAD_LEN in *. rewrite (proj2 (Z.ltb_ge _ _)) by lia.
  rewrite (encodes_decode _ p.1 p.2); [by destruct p|].
  exists []. rewrite app_nil_r. done.
Qed.

Lemma encode_datagrams_wire bld ps :
  Forall (.∈ packets) ps → encode_datagrams bld ps = Some (Ok (wire <$> ps)).
Proof.
  induction 1 as [|[h c] ps Hp _ IH]; [done|]. cbn.
  pose proof (encode_wire bld (h, c) Hp) as E. cbn in E. by rewrite E, IH.
Qed.

Lemma wire_inj p q : p ∈ packets → q ∈ packets → wire p = wire q → p = q.
Proof.
  intros Hp Hq E. apply (f_equal decode_video_datagram) in E.
  rewrite !decode_wire in E by done. congruence.
Qed.

(** ** The receiver on these datagrams *)

Context `{Aead}.

Lemma accept_wire rx p :
  p ∈ packets →
  accept_datagram rx (wire p) =
    match process_packet (rx_reassembler rx) p.1 p.2 with
    | (Err e, r) => (Err (Receiver_Reassembly e),
                     rx_with rx r (rx_nonce_replay_window rx) (rx_latest_frame rx))
    | (Ok None, r) => (Ok tt, rx_with rx r (rx_nonce_replay_window rx) (rx_latest_frame rx))
    | (Ok (Some a), r) => accept_assembled rx r a
    end.
Proof.
  intros Hp. unfold accept_datagram. rewrite decode_wire by done.
  destruct p as [h c]. rewrite len_wire. cbn [fst snd]. by rewrite Z.eqb_refl.
Qed.

Lemma feed_app r ps qs :
  feed r (ps ++ qs) =
    ((feed r ps).1 ++ (feed (feed r ps).2 qs).1, (feed (feed r ps).2 qs).2).
Proof.
  revert r. induction ps as [|p ps IH]; intros r; cbn.
  - by destruct (feed r qs).
  - destruct (process_packet r p.1 p.2) as [o r1]. rewrite IH.
    by destruct (feed r1 ps) as [os r2].
Qed.

Lemma length_feed r ps : length (feed r ps).1 = length ps.
Proof.
  revert r. induction ps as [|p ps IH]; intros r; cbn; [done|].
  destruct (process_packet r p.1 p.2) as [o r1]. specialize (IH r1).
  destruct (feed r1 ps). cbn in *. by f_equal.
Qed.

Lemma feed_watermark r ps :
  ra_last_authenticated_frame_id (feed r ps).2 = ra_last_authenticated_frame_id r.
Proof.
  revert r. induction ps as [|p ps IH]; intros r; cbn; [done|].
  destruct (process_packet_frames_only r p.1 p.2) as [F HF].
  destruct (process_packet r p.1 p.2) as [o r1]. cbn in HF. subst.
  specialize (IH (with_frames r F)). by destruct (feed _ ps).
Qed.

(** While the frame is incomplete only the reassembler changes. *)
Lemma receive_pending rx ps :
  Forall (.∈ packets) ps →
  (feed (rx_reassembler rx) ps).1 = replicate (length ps) (Ok None) →
  receive_all rx (wire <$> ps) =
    rx_with rx (feed (rx_reassembler rx) ps).2 (rx_nonce_replay_window rx) (rx_latest_frame rx).
Proof.
  intros Hps. revert rx. induction Hps as [|p ps Hp _ IH]; intros rx; [by destruct rx|].
  change (receive_all rx (wire <$> p :: ps)) with
    (receive_all (accept_datagram rx (wire p)).2 (wire <$> ps)).
  rewrite accept_wire by done. cbn [feed]. intros Hf.
  destruct (process_packet (rx_reassembler rx) p.1 p.2) as [o r1].
  specialize (IH (rx_with rx r1 (rx_nonce_replay_window rx) (rx_latest_frame rx))).
  cbn in IH. destruct (feed r1 ps) as [os r2]. cbn in *. injection Hf as -> Hos.
  cbn. by apply IH.
Qed.
End wire.

(** ** The streamer's frames *)

(** What the types of the source guarantee of a streamer and of a frame. *)
Record streamer_ok {C} (s : HostVideoStreamer C) : Prop := {
  so_stream : uint 16 (hs_stream_id s);
  so_next : uint 64 (ns_next (hs_nonce_seq s))
}.
Record encoded_ok (e : EncodedFrame) : Prop := {
  eo_frame_id : 0 ≤ enc_frame_id e;
  eo_timestamp : uint 64 (enc_timestamp_us e)
}.

Lemma base_header_ok {C} (s : HostVideoStreamer C) e n :
  streamer_ok s → encoded_ok e → enc_frame_id e ≤ 4294967295 → uint 64 n →
  header_ok (base_header s e n).
Proof.
  intros [Hs _] [Hf Ht] Hle Hn. unfold base_header, header_ok, KEYFRAME, CURRENT_VERSION, uint in *.
  cbn. destruct (enc_keyframe e); lia.
Qed.

(** What sealing produces. *)
Lemma seal_inv `{Aead} key seq h cc data f seq' :
  seal_video_frame key seq h cc data = (Ok f, seq') →
  ef_nonce f = nonce_from_sequence (ns_domain seq) (ns_next seq) ∧
  aead_encrypt key (ef_nonce f) (EncodedFrameMetadata_aad (frame_metadata h cc)) data =
    Some (ef_ciphertext f).
Proof.
  unfold seal_video_frame, seal_encoded_frame, next_nonce, seal_session_payload.
  destruct (ns_exhausted seq); [done|].
  destruct (aead_encrypt _ _ _ _) as [c|] eqn:E; cbn; [|done]. intros [= <- _]. done.
Qed.

(** A streamer's success: the sealed frame cut into packets. *)
Lemma packetize_encoded_inv `{Aead} {C} bld (s : HostVideoStreamer C) e ds s' :
  streamer_ok s → encoded_ok e → packetize_encoded_frame bld s e = (Some (Ok ds), s') →
  ∃ ciphertext packets,
    let n := ns_next (hs_nonce_seq s) in
    let base := base_header s e n in
    header_ok base ∧ fragments base ciphertext packets ∧ ds = wire <$> packets ∧
    len ciphertext ≤ MAX_FRAME_PAYLOAD_SIZE ∧
    aead_encrypt (hs_aead_key s) (nonce_from_sequence (ns_domain (hs_nonce_seq s)) n)
      (EncodedFrameMetadata_aad (frame_metadata base (hs_codec_config_id s))) (enc_data e) =
      Some ciphertext.
Proof.
  intros Hs He. unfold packetize_encoded_frame.
  destruct (Z.leb_spec (enc_frame_id e) 4294967295) as [Hle|]; cbn [negb]; [|done].
  destruct (seal_video_frame _ _ _ _ _) as [[f|] seq'] eqn:Eseal; [|done].
  apply seal_inv in Eseal as [En Ec]. rewrite En.
  rewrite nonce_sequence_suffix by apply Hs.
  change (base_header (hs_with_nonce s seq') e) with (base_header s e).
  destruct (packetize_video_frame _ _ _) as [packets|] eqn:Ep; [|done].
  pose proof (base_header_ok s e _ Hs He Hle (so_next _ Hs)) as Hb.
  pose proof (packetize_fragments _ _ 1200 _ Hb ltac:(done) Ep) as Hfr.
  rewrite (encode_datagrams_wire _ _ packets Hb eq_refl Hfr) by (by apply Forall_in).
  intros [= <- _]. exists (ef_ciphertext f), packets. cbn zeta. rewrite En in Ec.
  split_and!; [done|done|done| |done].
  unfold packetize_video_frame in Ep. case_match; [done|].
  destruct (Z.ltb_spec MAX_FRAME_PAYLOAD_SIZE (len (ef_ciphertext f))); [done|lia].
Qed.

(** The receiver's decryption of a frame that carries the base header's
    metadata. *)
Lemma open_delivered `{AeadLaws} rx key cc base ciphertext data f :
  rx_frame_key rx = key → cc = CODEC_CONFIG_ID → delivers base ciphertext f →
  aead_encrypt key (nonce_from_sequence (rx_nonce_domain rx) (hdr_nonce_sequence base))
    (EncodedFrameMetadata_aad (frame_metadata base cc)) data = Some ciphertext →
  open_assembled rx f = Ok data.
Proof.
  intros Hk -> (Hp & Hm & Hn & _) Henc.
  unfold open_assembled, open_encoded_frame, open_session_payload. cbn.
  rewrite Hk, Hn, Hp.
  change (mkEncodedFrameMetadata _ _ _ _ _ _) with (frame_metadata (af_header f) CODEC_CONFIG_ID).
  rewrite Hm. by apply aead_decrypt_encrypt in Henc as ->.
Qed.

(** The last missing fragment publishes the frame. *)
Lemma accept_last `{AeadLaws} rx r log f base key ciphertext data :
  window_ok (rx_nonce_replay_window rx) log → rx_frame_key rx = key →
  delivers base ciphertext f →
  ra_last_authenticated_frame_id r = ra_last_authenticated_frame_id (rx_reassembler rx) →
  above (ra_last_authenticated_frame_id (rx_reassembler rx)) (hdr_frame_id base) →
  window_fresh log (hdr_nonce_sequence base) →
  aead_encrypt key (nonce_from_sequence (rx_nonce_domain rx) (hdr_nonce_sequence base))
    (EncodedFrameMetadata_aad (frame_metadata base CODEC_CONFIG_ID)) data = Some ciphertext →
  rx_latest_frame (accept_assembled rx r f).2 =
    Some (mkDecodedFrameJob (hdr_frame_id base) (hdr_timestamp_us base)
            (negb (Z.land (hdr_flags base) KEYFRAME =? 0)) data).
Proof.
  intros Hrx Hk Hd Hlast Habove Hfresh Henc. unfold accept_assembled.
  rewrite (open_delivered rx key CODEC_CONFIG_ID base ciphertext data f) by done.
  destruct Hd as (_ & Hm & Hn & _). specialize (Hm 0). unfold frame_metadata in Hm.
  injection Hm as _ _ Hid Hts Hkf. rewrite Hn, Hid, Hts, Hkf.
  destruct (commit_authenticated_ok _ _ (hdr_nonce_sequence base) Hrx) as [Hc _].
  destruct (commit_authenticated _ _) as [b w]. cbn in Hc.
  destruct Hc as [_ ->]; [|done]. cbn. unfold commit_authenticated_frame. rewrite Hlast.
  apply above_spec in Habove. by rewrite Habove.
Qed.

(** Arrived datagrams come from packets. *)
Lemma arrivals_packets (packets : list (VideoPacketHeader * bytes)) (arrived : list bytes) :
  Forall (.∈ wire <$> packets) arrived →
  ∃ ps, arrived = wire <$> ps ∧ Forall (.∈ packets) ps.
Proof.
  induction 1 as [|x xs Hx _ (ps & -> & Hps)]; [by exists []|].
  apply list_elem_of_fmap in Hx as (p & -> & Hp). exists (p :: ps). by split; [|constructor].
Qed.

(** C1. End to end: when the streamer turns an encoded frame into datagrams,
    a receiver with the same key and nonce domain, to which the frame is new,
    publishes nothing of it until the last missing datagram arrives, in
    whatever order and with whatever repetitions they come, and then publishes
    exactly that frame: its id, timestamp, keyframe mark and bytes. *)
Theorem stream_end_to_end `{AeadLaws} {C} bld (s s' : HostVideoStreamer C) e datagrams rx log
    arrived d :
  streamer_ok s → encoded_ok e → hs_codec_config_id s = CODEC_CONFIG_ID →
  packetize_encoded_frame bld s e = (Some (Ok datagrams), s') →
  receiver_ok rx log → rx_frame_key rx = hs_aead_key s →
  rx_nonce_domain rx = ns_domain (hs_nonce_seq s) →
  ra_max_frame_bytes (rx_reassembler rx) = MAX_FRAME_PAYLOAD_SIZE →
  ra_frames (rx_reassembler rx) !! enc_frame_id e = None →
  above (ra_last_authenticated_frame_id (rx_reassembler rx)) (enc_frame_id e) →
  window_fresh log (ns_next (hs_nonce_seq s)) →
  Forall (.∈ datagrams) arrived → d ∈ datagrams → d ∉ arrived →
  (∀ x, x ∈ datagrams → x = d ∨ x ∈ arrived) →
  rx_latest_frame (receive_all rx arrived) = rx_latest_frame rx ∧
  rx_latest_frame (receive_all rx (arrived ++ [d])) =
    Some (mkDecodedFrameJob (enc_frame_id e) (enc_timestamp_us e) (enc_keyframe e) (enc_data e)).
Proof.
  intros Hs He Hcc Hpk Hrx Hkey Hdom Hmax Hnone Habove Hfresh Harr Hd Hnew Hall.
  destruct (packetize_encoded_inv bld s e _ _ Hs He Hpk)
    as (ct & packets & Hb & Hfr & -> & Hct & Henc). cbn zeta in *.
  set (base := base_header s e (ns_next (hs_nonce_seq s))) in *.
  destruct (arrivals_packets _ _ Harr) as (ps & -> & Hps).
  apply list_elem_of_fmap in Hd as (p & -> & Hp).
  assert (p ∉ ps) as Hpn by (intros Hin; apply Hnew; by apply list_elem_of_fmap_2).
  destruct (reassemble_fragments base ct packets (rx_reassembler rx) ps p) as (f & Hfeed & Hdel);
    try done; [apply Hrx|by rewrite Hmax|by apply above_spec| |].
  { intros q Hq. destruct (Hall (wire q)) as [E|Hin]; [by apply list_elem_of_fmap_2| |].
    - left. by apply (wire_inj base ct packets Hb eq_refl Hfr).
    - right. apply list_elem_of_fmap in Hin as (q' & E & Hq'). rewrite Forall_in in Hps.
      by rewrite (wire_inj base ct packets Hb eq_refl Hfr q q' Hq (Hps q' Hq') E). }
  rewrite feed_app in Hfeed. cbn [fst] in Hfeed.
  apply app_inj_1 in Hfeed as [Hpend Hlast]; [|by rewrite length_feed, length_replicate].
  pose proof (receive_pending base ct packets Hb eq_refl Hfr rx ps Hps Hpend) as Hrecv.
  split; [by rewrite Hrecv|]. unfold receive_all. rewrite fold_left_app.
  fold (receive_all rx (wire <$> ps)). cbn [fold_left]. rewrite Hrecv.
  rewrite (accept_wire base ct packets Hb eq_refl Hfr) by done. cbn [rx_reassembler rx_with].
  cbn [feed] in Hlast. destruct (process_packet (feed _ ps).2 p.1 p.2) as [o r] eqn:Eo.
  cbn in Hlast. injection Hlast as ->.
  destruct (process_packet_frames_only (feed (rx_reassembler rx) ps).2 p.1 p.2) as [F HF].
  rewrite Eo in HF. cbn in HF. subst r.
  rewrite (accept_last _ _ log f base (hs_aead_key s) ct (enc_data e)); cbn; try done.
  - by destruct (enc_keyframe e).
  - apply Hrx.
  - by rewrite feed_watermark.
  - by rewrite Hdom, <-Hcc.
Qed.

Definition sample_streamer : HostVideoStreamer unit :=
  mkHostVideoStreamer tt SoftwareFallbackEncoder_new LatestFrameQueue_new [x09]
    (NonceSequence_new 1) 1 1.
Definition sample_frame : EncodedFrame := mkEncodedFrame 5 1000 true (replicate 1300 x0a).
Definition sample_datagrams : list bytes :=
  match (@packetize_encoded_frame toy_aead _ Release sample_streamer sample_frame).1 with
  | Some (Ok ds) => ds | _ => [] end.
Definition sample_datagram (i : nat) : bytes := nth i sample_datagrams [].

Lemma sample_datagrams_two : sample_datagrams = [sample_datagram 0; sample_datagram 1].
Proof. vm_compute. reflexivity. Qed.
Lemma sample_datagrams_differ : sample_datagram 0 ≠ sample_datagram 1.
Proof. apply (bool_decide_unpack _). vm_compute. exact I. Qed.
Lemma sample_packetized :
  @packetize_encoded_frame toy_aead _ Release sample_streamer sample_frame =
    (Some (Ok sample_datagrams),
     (@packetize_encoded_frame toy_aead _ Release sample_streamer sample_frame).2).
Proof. vm_compute. reflexivity. Qed.

Lemma stream_end_to_end_witness :
  rx_latest_frame (@receive_all toy_aead (ClientReceiver_new [x09] 1)
    ([sample_datagram 1; sample_datagram 1] ++ [sample_datagram 0])) =
    Some (mkDecodedFrameJob 5 1000 true (replicate 1300 x0a)).
Proof.
  eapply (@stream_end_to_end toy_aead toy_aead_laws unit Release sample_streamer
    (@packetize_encoded_frame toy_aead _ Release sample_streamer sample_frame).2
    sample_frame sample_datagrams (ClientReceiver_new [x09] 1) []);
    [done|done|done|exact sample_packetized|apply receiver_new_ok|done|done|done|done|done|..];
    pose proof sample_datagrams_differ as Ed; rewrite ?sample_datagrams_two;
    revert Ed; generalize (sample_datagram 0), (sample_datagram 1); intros d0 d1 Ed.
  - split; [set_solver|]. intros a Ha. set_solver.
  - repeat constructor; set_solver.
  - set_solver.
  - set_solver.
  - set_solver.
Defined.
