(* ===== verification/Relay.v ===== *)
(** * Relay tokens and session pairing (apps/nexus-relay/src/token.rs, session.rs) *)

From S2P Require Import Prelude Crypto Common.

Open Scope string_scope.
Open Scope list_scope.
Open Scope Z_scope.

Inductive EndpointRole := Role_Client | Role_Host.
#[global] Instance EndpointRole_eq_dec : EqDecision EndpointRole.
Proof. solve_decision. Defined.
Definition EndpointRole_peer (r : EndpointRole) : EndpointRole :=
  match r with Role_Client => Role_Host | Role_Host => Role_Client end.

(** ** Tokens *)

Record RelayToken := mkRelayToken {
  rt_session_id : string;
  rt_relay_id : string;
  rt_client_device_id : string;
  rt_target_device_id : string;
  rt_role : EndpointRole;
  rt_expires_at : Z;
  rt_signature : bytes
}.

Inductive RelayTokenError :=
  | Relay_InvalidSignature | Relay_Expired | Relay_WrongRelay | Relay_SignatureLength
  | Relay_InvalidRelayId | Relay_MissingField (name : string) | Relay_FieldTooLong (name : string).

(** [b"nexus-relay-token/v1\0"] *)
Definition token_domain : bytes := as_bytes "nexus-relay-token/v1" ++ [x00].

(** The nested function [put]: a 16-bit length and the bytes. *)
Definition put (s : string) : bytes := to_be_bytes 2 (wrap 16 (str_len s)) ++ as_bytes s.

Definition RelayToken_signing_bytes (t : RelayToken) : bytes :=
  token_domain ++ put (rt_session_id t) ++ put (rt_relay_id t) ++
  put (rt_client_device_id t) ++ put (rt_target_device_id t) ++
  [match rt_role t with Role_Client => x00 | Role_Host => x01 end] ++
  to_be_bytes 8 (rt_expires_at t).

Definition token_signed (t : RelayToken) (sig : bytes) : RelayToken :=
  mkRelayToken (rt_session_id t) (rt_relay_id t) (rt_client_device_id t)
    (rt_target_device_id t) (rt_role t) (rt_expires_at t) sig.

Record RelayTokenBuilder := mkRelayTokenBuilder {
  rb_session_id : option string; rb_relay_id : option string;
  rb_client_device_id : option string; rb_target_device_id : option string;
  rb_role : option EndpointRole; rb_expires_at : option Z
}.
Definition RelayTokenBuilder_build (b : RelayTokenBuilder) : result RelayTokenError RelayToken :=
  session_id ← ok_or (rb_session_id b) (Relay_MissingField "session_id");
  id ← ok_or (rb_relay_id b) (Relay_MissingField "relay_id");
  if str_is_empty id then Err Relay_InvalidRelayId else
  if 65535 <? str_len id then Err (Relay_FieldTooLong "relay_id") else
  client_device_id ← ok_or (rb_client_device_id b) (Relay_MissingField "client_device_id");
  target_device_id ← ok_or (rb_target_device_id b) (Relay_MissingField "target_device_id");
  role ← ok_or (rb_role b) (Relay_MissingField "role");
  expires_at ← ok_or (rb_expires_at b) (Relay_MissingField "expires_at");
  Ok (mkRelayToken session_id id client_device_id target_device_id role expires_at []).

Record RelayTokenVerifier := mkRelayTokenVerifier { rv_key : bytes; rv_relay_id : string }.

Section token.
Context `{Ed25519}.
Definition RelayToken_sign (t : RelayToken) (key : bytes) : RelayToken :=
  token_signed t (ed_sign key (RelayToken_signing_bytes t)).

Definition RelayTokenVerifier_verify (v : RelayTokenVerifier) (t : RelayToken) (now : Z) :
    result RelayTokenError unit :=
  if negb (str_eqb (rt_relay_id t) (rv_relay_id v)) then Err Relay_WrongRelay else
  if rt_expires_at t <=? now then Err Relay_Expired else
  if negb (len (rt_signature t) =? 64) then Err Relay_SignatureLength else
  if ed_verify (rv_key v) (RelayToken_signing_bytes t) (rt_signature t) then Ok tt
  else Err Relay_InvalidSignature.
End token.

(** The identifiers of a token are validated ids; the builder bounds the relay
    id. *)
Record token_ok (t : RelayToken) : Prop := {
  to_session : 1 ≤ str_len (rt_session_id t) ≤ 128;
  to_relay : 1 ≤ str_len (rt_relay_id t) ≤ 65535;
  to_client : 1 ≤ str_len (rt_client_device_id t) ≤ 128;
  to_target : 1 ≤ str_len (rt_target_device_id t) ≤ 128;
  to_expiry : uint 64 (rt_expires_at t)
}.

Lemma put_app_inj s t r q :
  str_len s < 65536 → str_len t < 65536 → put s ++ r = put t ++ q → s = t ∧ r = q.
Proof.
  intros Hs Ht E. unfold put in E. rewrite <-!(assoc_L (++)) in E.
  apply app_inj_length in E as [E1 E2]; [|by rewrite !length_to_be_bytes].
  assert (∀ u : string, 0 ≤ str_len u) as Hpos by (intros; unfold str_len; lia).
  pose proof (Hpos s). pose proof (Hpos t).
  rewrite !wrap_small in E1 by (unfold uint; lia).
  apply to_be_bytes_inj in E1; [|cbn; lia..].
  assert (length (as_bytes s) = length (as_bytes t)) as Hl.
  { pose proof (len_as_bytes s). pose proof (len_as_bytes t). unfold len in *. lia. }
  apply app_inj_length in E2 as [E2 E3]; [|done]. split; [by apply as_bytes_inj|done].
Qed.

Lemma signing_bytes_inj t u :
  token_ok t → token_ok u → RelayToken_signing_bytes t = RelayToken_signing_bytes u →
  u = token_signed t (rt_signature u).
Proof.
  intros [? ? ? ? He] [? ? ? ? He'] E. unfold RelayToken_signing_bytes in E.
  apply app_inj_length in E as [_ E]; [|done].
  apply put_app_inj in E as [E1 E]; [|lia..]. apply put_app_inj in E as [E2 E]; [|lia..].
  apply put_app_inj in E as [E3 E]; [|lia..]. apply put_app_inj in E as [E4 E]; [|lia..].
  apply app_inj_length in E as [E5 E]; [|done].
  apply to_be_bytes_inj in E; [|by unfold uint in He..].
  destruct t as [? ? ? ? r ? ?], u as [? ? ? ? r' ? ?]. unfold token_signed. cbn in *.
  subst. f_equal. by destruct r, r'.
Qed.

(** A relay token signed by the control plane verifies at a relay exactly
    when it names that relay and has not expired; a token is accepted only with a
    64-byte signature that covers its signing bytes; and two tokens with the same
    signing bytes agree on the session, the relay, both devices, the role and the
    expiry: the signature covers every field. *)
Theorem relay_token_authority `{Ed25519Laws} sk v t u now :
  token_ok t → token_ok u → rv_key v = ed_public sk →
  (RelayTokenVerifier_verify v (RelayToken_sign t sk) now = Ok tt ↔
     rt_relay_id t = rv_relay_id v ∧ now < rt_expires_at t) ∧
  (RelayTokenVerifier_verify v u now = Ok tt →
     len (rt_signature u) = 64 ∧
     ed_verify (ed_public sk) (RelayToken_signing_bytes u) (rt_signature u) = true) ∧
  (RelayToken_signing_bytes u = RelayToken_signing_bytes t →
     u = token_signed t (rt_signature u)).
Proof.
  intros Ht Hu Hk. split_and!.
  - unfold RelayTokenVerifier_verify, RelayToken_sign. cbn [rt_relay_id rt_expires_at rt_signature token_signed].
    unfold len. rewrite ed_sign_length, Hk.
    change (RelayToken_signing_bytes (token_signed t _)) with (RelayToken_signing_bytes t).
    rewrite ed_verify_sign. cbn.
    unfold str_eqb. case_bool_decide; cbn; [|naive_solver].
    destruct (Z.leb_spec (rt_expires_at t) now); naive_solver lia.
  - unfold RelayTokenVerifier_verify. rewrite <-Hk.
    destruct (negb (str_eqb _ _)); [done|]. destruct (_ <=? _); [done|].
    destruct (Z.eqb_spec (len (rt_signature u)) 64); [|done]. cbn.
    by destruct (ed_verify _ _ _).
  - intros E. by apply signing_bytes_inj.
Qed.

Definition sample_relay_token : RelayToken :=
  mkRelayToken "s-1" "relay-eu" "cli-1" "host-1" Role_Host 1000 [].
Definition sample_relay_verifier : RelayTokenVerifier :=
  mkRelayTokenVerifier (@ed_public toy_ed25519 [x05]) "relay-eu".

Lemma relay_token_authority_witness :
  @RelayTokenVerifier_verify toy_ed25519 sample_relay_verifier
    (@RelayToken_sign toy_ed25519 sample_relay_token [x05]) 999 = Ok tt.
Proof.
  assert (token_ok sample_relay_token) as Hok by (split; cbv; intuition discriminate).
  destruct (@relay_token_authority toy_ed25519 toy_ed25519_laws [x05] sample_relay_verifier
    sample_relay_token sample_relay_token 999 Hok Hok eq_refl) as [Hiff _].
  apply Hiff. split; [reflexivity|cbn; lia].
Defined.

(** ** Session pairing *)

Inductive SessionPairingError :=
  | Pairing_RoleAlreadyConnected | Pairing_IdentityMismatch | Pairing_Expired.

Record RelayMetrics := mkRelayMetrics {
  rm_client_to_host_bytes : Z; rm_host_to_client_bytes : Z;
  rm_client_to_host_packets : Z; rm_host_to_client_packets : Z
}.
Definition RelayMetrics_default : RelayMetrics := mkRelayMetrics 0 0 0 0.

(** The struct with its two locks opened: [state] is the three flags. *)
Record RelaySession := mkRelaySession {
  rs_session_id : string;
  rs_client_device_id : string;
  rs_target_device_id : string;
  rs_client : bool;
  rs_host : bool;
  rs_terminated : bool;
  rs_metrics : RelayMetrics
}.

Definition RelaySession_new (t : RelayToken) : RelaySession :=
  mkRelaySession (rt_session_id t) (rt_client_device_id t) (rt_target_device_id t)
    false false false RelayMetrics_default.

(** [u64] addition as compiled for release: it wraps. *)
Definition RelaySession_record_forward (s : RelaySession) (role : EndpointRole) (n : Z) :
    RelaySession :=
  let m := rs_metrics s in
  mkRelaySession (rs_session_id s) (rs_client_device_id s) (rs_target_device_id s)
    (rs_client s) (rs_host s) (rs_terminated s)
    match role with
    | Role_Client =>
        mkRelayMetrics (wrap 64 (rm_client_to_host_bytes m + n)) (rm_host_to_client_bytes m)
          (wrap 64 (rm_client_to_host_packets m + 1)) (rm_host_to_client_packets m)
    | Role_Host =>
        mkRelayMetrics (rm_client_to_host_bytes m) (wrap 64 (rm_host_to_client_bytes m + n))
          (rm_client_to_host_packets m) (wrap 64 (rm_host_to_client_packets m + 1))
    end.

Definition RelaySession_snapshot (s : RelaySession) : RelayMetrics := rs_metrics s.

Definition RelaySession_terminate (s : RelaySession) : RelaySession :=
  mkRelaySession (rs_session_id s) (rs_client_device_id s) (rs_target_device_id s)
    (rs_client s) (rs_host s) true (rs_metrics s).

(** Setting the slot of a role. *)
Definition slot (s : RelaySession) (role : EndpointRole) : bool :=
  match role with Role_Client => rs_client s | Role_Host => rs_host s end.
Definition fill_slot (role : EndpointRole) (s : RelaySession) : RelaySession :=
  mkRelaySession (rs_session_id s) (rs_client_device_id s) (rs_target_device_id s)
    (match role with Role_Client => true | Role_Host => rs_client s end)
    (match role with Role_Client => rs_host s | Role_Host => true end)
    (rs_terminated s) (rs_metrics s).

(** Sessions are shared ([Arc]): [tb_heap] holds every session ever made, a
    handle is its index, and the table maps an identifier to a handle.  A handle
    outlives the removal of its entry. *)
Record RelaySessionTable := mkRelaySessionTable {
  tb_sessions : gmap string nat;
  tb_heap : list RelaySession
}.
Definition RelaySessionTable_new : RelaySessionTable := mkRelaySessionTable ∅ [].
Definition active_session_count (tb : RelaySessionTable) : nat := size (tb_sessions tb).
Definition get_session (tb : RelaySessionTable) (sid : string) : option nat :=
  tb_sessions tb !! sid.
Definition remove_session (tb : RelaySessionTable) (sid : string) : RelaySessionTable :=
  mkRelaySessionTable (delete sid (tb_sessions tb)) (tb_heap tb).
(** A method of a session, called through a handle. *)
Definition with_handle (tb : RelaySessionTable) (h : nat) (f : RelaySession → RelaySession) :
    RelaySessionTable :=
  mkRelaySessionTable (tb_sessions tb) (alter f h (tb_heap tb)).

(** [entry(..).or_insert_with(..).clone()] *)
Definition entry_or_insert (tb : RelaySessionTable) (t : RelayToken) : nat * RelaySessionTable :=
  match tb_sessions tb !! rt_session_id t with
  | Some h => (h, tb)
  | None =>
      let h := length (tb_heap tb) in
      (h, mkRelaySessionTable (<[rt_session_id t := h]> (tb_sessions tb))
            (tb_heap tb ++ [RelaySession_new t]))
  end.

(** A handle always points into the heap ([table_ok] below), so the default is
    never used. *)
Definition deref (tb : RelaySessionTable) (t : RelayToken) (h : nat) : RelaySession :=
  default (RelaySession_new t) (tb_heap tb !! h).

Definition register_or_join (tb : RelaySessionTable) (t : RelayToken) (now : Z) :
    result SessionPairingError (nat * bool) * RelaySessionTable :=
  if rt_expires_at t <=? now then (Err Pairing_Expired, tb) else
  let '(h, tb) := entry_or_insert tb t in
  let s := deref tb t h in
  if negb (str_eqb (rs_client_device_id s) (rt_client_device_id t)) ||
     negb (str_eqb (rs_target_device_id s) (rt_target_device_id t))
  then (Err Pairing_IdentityMismatch, tb) else
  if slot s (rt_role t) then (Err Pairing_RoleAlreadyConnected, tb) else
  let s' := fill_slot (rt_role t) s in
  (Ok (h, rs_client s' && rs_host s'), with_handle tb h (fill_slot (rt_role t))).

(** ** Runs of the table *)

(** What the endpoints of the relay saw: accepted joins and removals, newest
    first. *)
Inductive relay_event := Joined (t : RelayToken) | Removed (sid : string).

Inductive relay_step : RelaySessionTable * list relay_event →
    RelaySessionTable * list relay_event → Prop :=
  | relay_join tb log t now h paired tb' :
      register_or_join tb t now = (Ok (h, paired), tb') →
      relay_step (tb, log) (tb', Joined t :: log)
  | relay_refuse tb log t now e tb' :
      register_or_join tb t now = (Err e, tb') → relay_step (tb, log) (tb', log)
  | relay_remove tb log sid :
      relay_step (tb, log) (remove_session tb sid, Removed sid :: log)
  | relay_forward tb log h role n :
      relay_step (tb, log) (with_handle tb h (λ s, RelaySession_record_forward s role n), log)
  | relay_terminate tb log h :
      relay_step (tb, log) (with_handle tb h RelaySession_terminate, log).

Definition relay_reachable (tb : RelaySessionTable) (log : list relay_event) : Prop :=
  rtc relay_step (RelaySessionTable_new, []) (tb, log).

(** The joins accepted for a session since it was last removed. *)
Fixpoint joins (sid : string) (log : list relay_event) : list RelayToken :=
  match log with
  | [] => []
  | Joined t :: log => if str_eqb (rt_session_id t) sid then t :: joins sid log else joins sid log
  | Removed i :: log => if str_eqb i sid then [] else joins sid log
  end.

(** A session agrees with the joins accepted for it. *)
Record pairing_ok (sid : string) (s : RelaySession) (js : list RelayToken) : Prop := {
  po_id : rs_session_id s = sid;
  po_nonempty : js ≠ [];
  po_identity : Forall (λ t, rt_client_device_id t = rs_client_device_id s ∧
                             rt_target_device_id t = rs_target_device_id s) js;
  po_once : NoDup (rt_role <$> js);
  po_slot role : slot s role = true ↔ role ∈ (rt_role <$> js)
}.

Definition table_ok (tb : RelaySessionTable) (log : list relay_event) : Prop :=
  ∀ sid, match tb_sessions tb !! sid with
         | None => joins sid log = []
         | Some h => ∃ s, tb_heap tb !! h = Some s ∧ pairing_ok sid s (joins sid log)
         end.

(** What [register_or_join] looks at: the session the token would join. *)
Definition joinable (tb : RelaySessionTable) (t : RelayToken) : RelaySession :=
  match tb_sessions tb !! rt_session_id t with
  | Some h => default (RelaySession_new t) (tb_heap tb !! h)
  | None => RelaySession_new t
  end.

Definition pairing_verdict (s : RelaySession) (t : RelayToken) (now : Z) :
    result SessionPairingError bool :=
  if rt_expires_at t <=? now then Err Pairing_Expired else
  if bool_decide (rt_client_device_id t = rs_client_device_id s ∧
                  rt_target_device_id t = rs_target_device_id s)
  then if slot s (rt_role t) then Err Pairing_RoleAlreadyConnected
       else Ok (slot s (EndpointRole_peer (rt_role t)))
  else Err Pairing_IdentityMismatch.

Lemma deref_entry tb t h tb1 : entry_or_insert tb t = (h, tb1) → deref tb1 t h = joinable tb t.
Proof.
  unfold entry_or_insert, joinable, deref. destruct (_ !! _) as [h'|] eqn:E; intros ?; simplify_eq/=.
  - done.
  - by rewrite lookup_app_r, Nat.sub_diag by lia.
Qed.

Lemma register_or_join_verdict tb t now :
  (prod_map (λ r, match r with Ok (_, paired) => Ok paired | Err e => Err e end) id
     (register_or_join tb t now)).1 = pairing_verdict (joinable tb t) t now.
Proof.
  unfold register_or_join, pairing_verdict. destruct (_ <=? _); [done|].
  destruct (entry_or_insert tb t) as [h tb1] eqn:E. rewrite (deref_entry _ _ _ _ E).
  unfold str_eqb. repeat case_bool_decide; cbn; try (exfalso; naive_solver); try done.
  destruct (joinable tb t) as [? ? ? c k ? ?], (rt_role t), c, k; done.
Qed.

(** Effects: a refused join leaves every existing entry and session alone. *)
Lemma register_or_join_refused tb t now e tb' log :
  table_ok tb log → register_or_join tb t now = (Err e, tb') → tb' = tb.
Proof.
  intros Hok. unfold register_or_join, entry_or_insert. destruct (_ <=? _); [naive_solver|].
  destruct (_ !! _) as [h|] eqn:E; cbn.
  - destruct (_ || _); [naive_solver|]. destruct (slot _ _); naive_solver.
  - unfold deref. cbn. rewrite lookup_app_r, Nat.sub_diag by lia. cbn.
    unfold str_eqb. rewrite !bool_decide_true by done. cbn.
    destruct (rt_role t); discriminate.
Qed.

Lemma table_ok_handle tb log sid h :
  table_ok tb log → tb_sessions tb !! sid = Some h →
  ∃ s, tb_heap tb !! h = Some s ∧ pairing_ok sid s (joins sid log).
Proof. intros Hok E. specialize (Hok sid). by rewrite E in Hok. Qed.

Lemma register_or_join_effect tb log t now h p tb' :
  table_ok tb log → register_or_join tb t now = (Ok (h, p), tb') →
  tb_sessions tb' = <[rt_session_id t := h]> (tb_sessions tb) ∧
  tb_heap tb' !! h = Some (fill_slot (rt_role t) (joinable tb t)) ∧
  (∀ sid' h', sid' ≠ rt_session_id t → tb_sessions tb !! sid' = Some h' →
     tb_heap tb' !! h' = tb_heap tb !! h').
Proof.
  intros Hok. unfold register_or_join, entry_or_insert, joinable. destruct (_ <=? _); [done|].
  destruct (tb_sessions tb !! rt_session_id t) as [h0|] eqn:E; cbn.
  - destruct (_ || _); [done|]. destruct (slot _ _); [done|]. intros [= -> _ <-]. cbn.
    destruct (table_ok_handle _ _ _ _ Hok E) as (s & Hs & Hp). split_and!.
    + by rewrite insert_id.
    + by rewrite list_lookup_alter_eq, Hs.
    + intros sid' h' Hne E'. apply list_lookup_alter_ne. intros ->.
      destruct (table_ok_handle _ _ _ _ Hok E') as (s' & Hs' & Hp').
      apply Hne. rewrite <-(po_id _ _ _ Hp), <-(po_id _ _ _ Hp'). congruence.
  - destruct (_ || _); [done|]. destruct (slot _ _); [done|]. intros [= <- _ <-]. cbn.
    split_and!; [done|..].
    + by rewrite list_lookup_alter_eq, lookup_app_r, Nat.sub_diag by lia.
    + intros sid' h' _ E'. destruct (table_ok_handle _ _ _ _ Hok E') as (s' & Hs' & _).
      pose proof (lookup_lt_Some _ _ _ Hs'). rewrite list_lookup_alter_ne by lia.
      by rewrite lookup_app_l.
Qed.

Lemma joinable_ok tb log t :
  table_ok tb log →
  let s := joinable tb t in let js := joins (rt_session_id t) log in
  (js = [] ∧ s = RelaySession_new t) ∨ pairing_ok (rt_session_id t) s js.
Proof.
  intros Hok. unfold joinable. specialize (Hok (rt_session_id t)).
  destruct (_ !! _) as [h|]; [|by left]. destruct Hok as (s & -> & Hp). by right.
Qed.

Lemma slot_fill s r r' : slot (fill_slot r s) r' = bool_decide (r' = r) || slot s r'.
Proof. by destruct r, r'. Qed.

Lemma pairing_ok_join s t js p now :
  (js = [] ∧ s = RelaySession_new t) ∨ pairing_ok (rt_session_id t) s js →
  pairing_verdict s t now = Ok p →
  pairing_ok (rt_session_id t) (fill_slot (rt_role t) s) (t :: js).
Proof.
  unfold pairing_verdict. intros Hs. destruct (_ <=? _); [done|].
  case_bool_decide as Hid; [|done]. destruct (slot s (rt_role t)) eqn:Esl; [done|]. intros _.
  destruct Hs as [[-> ->]|[Hi Hn Ha Ho Hsl]].
  - split; [done|done|by repeat constructor|apply NoDup_singleton|].
    intros r. rewrite slot_fill, orb_true_iff, bool_decide_eq_true. cbn [fmap list_fmap].
    rewrite list_elem_of_singleton. destruct r; cbn; naive_solver.
  - split; [done|done|by constructor|..].
    + rewrite fmap_cons. apply NoDup_cons. split; [|done]. rewrite <-Hsl. congruence.
    + intros r. rewrite slot_fill, orb_true_iff, bool_decide_eq_true, Hsl, fmap_cons.
      by rewrite elem_of_cons.
Qed.

Lemma joins_joined sid t log :
  joins sid (Joined t :: log) = if bool_decide (rt_session_id t = sid) then t :: joins sid log
                                else joins sid log.
Proof. done. Qed.

Lemma table_ok_join tb log t now h p tb' :
  table_ok tb log → register_or_join tb t now = (Ok (h, p), tb') →
  table_ok tb' (Joined t :: log).
Proof.
  intros Hok Hj. destruct (register_or_join_effect _ _ _ _ _ _ _ Hok Hj) as (Es & Eh & Eo).
  pose proof (register_or_join_verdict tb t now) as Hv. rewrite Hj in Hv. cbn in Hv.
  intros sid. rewrite Es, joins_joined. case_bool_decide as Hc.
  - subst. rewrite lookup_insert_eq. eexists. split; [exact Eh|].
    eapply pairing_ok_join; [by apply joinable_ok|done].
  - rewrite lookup_insert_ne by done. specialize (Hok sid).
    destruct (tb_sessions tb !! sid) as [h'|] eqn:E; [|done].
    by rewrite (Eo _ _ (not_eq_sym Hc) E).
Qed.

Lemma table_ok_remove tb log sid :
  table_ok tb log → table_ok (remove_session tb sid) (Removed sid :: log).
Proof.
  intros Hok i. cbn. unfold str_eqb. case_bool_decide as Hc.
  - subst. by rewrite lookup_delete_eq.
  - rewrite lookup_delete_ne by done. apply Hok.
Qed.

(** A session method that keeps the identities and the slots. *)
Lemma table_ok_handle_method tb log h f :
  (∀ s, rs_session_id (f s) = rs_session_id s ∧ rs_client_device_id (f s) = rs_client_device_id s ∧
        rs_target_device_id (f s) = rs_target_device_id s ∧ ∀ r, slot (f s) r = slot s r) →
  table_ok tb log → table_ok (with_handle tb h f) log.
Proof.
  intros Hf Hok sid. specialize (Hok sid). cbn.
  destruct (tb_sessions tb !! sid) as [h'|]; [|done]. destruct Hok as (s & Hs & [Hi Hn Ha Ho Hsl]).
  destruct (decide (h = h')) as [->|Hne].
  - rewrite list_lookup_alter_eq, Hs. exists (f s). split; [done|].
    destruct (Hf s) as (E1 & E2 & E3 & E4).
    split; [congruence|done|by rewrite E2, E3|done|]. intros r. by rewrite E4.
  - rewrite list_lookup_alter_ne by done. by exists s.
Qed.

Lemma relay_step_ok st st' :
  relay_step st st' → table_ok st.1 st.2 → table_ok st'.1 st'.2.
Proof.
  intros Hs Hok. destruct Hs; cbn in *.
  - by eapply table_ok_join.
  - assert (tb' = tb) as -> by (by eapply register_or_join_refused). done.
  - by apply table_ok_remove.
  - apply table_ok_handle_method; [|done]. intros s. by destruct s, role.
  - apply table_ok_handle_method; [|done]. intros s. by destruct s.
Qed.

Lemma relay_reachable_ok tb log : relay_reachable tb log → table_ok tb log.
Proof.
  intros Hr. change (table_ok (tb, log).1 (tb, log).2). unfold relay_reachable in Hr.
  assert (table_ok (RelaySessionTable_new, @nil relay_event).1
    (RelaySessionTable_new, @nil relay_event).2) as H0.
  { intros sid. cbn. by rewrite lookup_empty. }
  revert H0. induction Hr; [done|]. eauto using relay_step_ok.
Qed.

Definition same_devices (t t1 : RelayToken) : Prop :=
  rt_client_device_id t1 = rt_client_device_id t ∧ rt_target_device_id t1 = rt_target_device_id t.

(** C10. Pairing at the relay.  Whatever joins, refusals, removals, forwards and
    terminations happened, and whatever stale handles were used: the joins
    accepted for a session since it was last removed are at most one per role,
    and all name the same client and target device.  The next join is decided by
    them alone: it is refused if the token is expired, if it names other devices,
    or if its role is taken, in this order; otherwise it is accepted, and reported
    as paired exactly if the peer role joined before. *)
Theorem relay_pairing tb log t now :
  relay_reachable tb log →
  let js := joins (rt_session_id t) log in
  NoDup (rt_role <$> js) ∧
  (∀ t1 t2, t1 ∈ js → t2 ∈ js → same_devices t1 t2) ∧
  match (register_or_join tb t now).1 with
  | Err Pairing_Expired => rt_expires_at t ≤ now
  | Err Pairing_IdentityMismatch => now < rt_expires_at t ∧
      ∃ t1, t1 ∈ js ∧ ¬ same_devices t t1
  | Err Pairing_RoleAlreadyConnected => now < rt_expires_at t ∧ Forall (same_devices t) js ∧
      rt_role t ∈ (rt_role <$> js)
  | Ok (_, paired) => now < rt_expires_at t ∧ Forall (same_devices t) js ∧
      ¬ (rt_role t ∈ (rt_role <$> js)) ∧
      (paired = true ↔ EndpointRole_peer (rt_role t) ∈ (rt_role <$> js))
  end.
Proof.
  intros Hr. pose proof (relay_reachable_ok _ _ Hr) as Hok.
  pose proof (register_or_join_verdict tb t now) as Hv.
  pose proof (joinable_ok tb log t Hok) as Hj. cbn in Hj |- *.
  generalize dependent (joinable tb t). generalize (joins (rt_session_id t) log).
  intros js s Hv Hj. split_and!.
  - destruct Hj as [[-> _]|[]]; [apply NoDup_nil_2|done].
  - intros t1 t2 H1 H2. destruct Hj as [[-> _]|[_ _ Ha _ _]]; [by apply not_elem_of_nil in H1|].
    rewrite Forall_forall in Ha. destruct (Ha t1 H1), (Ha t2 H2). split; congruence.
  - assert (∀ r, slot s r = true ↔ r ∈ (rt_role <$> js)) as Hsl.
    { destruct Hj as [[-> ->]|[]]; [|done]. intros []; cbn; rewrite elem_of_nil; done. }
    destruct (register_or_join tb t now) as [r tb']. cbn in *. subst.
    unfold pairing_verdict in Hv. destruct (Z.leb_spec (rt_expires_at t) now).
    { destruct r as [[]|[]]; by simplify_eq. }
    case_bool_decide as Hid.
    + assert (Forall (same_devices t) js) as Hsame.
      { destruct Hj as [[-> _]|[_ _ Ha _ _]]; [constructor|]. eapply Forall_impl; [exact Ha|].
        intros t1 [E1 E2]. destruct Hid. split; congruence. }
      destruct (slot s (rt_role t)) eqn:Es; destruct r as [[h p]|[]]; simplify_eq; rewrite <-!Hsl, Es.
      * done.
      * split_and!; done.
    + destruct r as [[]|[]]; simplify_eq. split; [done|].
      destruct Hj as [[-> ->]|[_ Hn Ha _ _]]; [by destruct Hid|].
      destruct js as [|t1 js]; [done|]. exists t1. split; [by left|].
      apply Forall_cons_1 in Ha as [[E1 E2] _]. intros [E3 E4]. apply Hid. split; congruence.
Qed.

Lemma relay_pairing_witness :
  ∃ h, (register_or_join (register_or_join RelaySessionTable_new sample_relay_token 10).2
    (mkRelayToken "s-1" "relay-eu" "cli-1" "host-1" Role_Client 1000 []) 11).1 = Ok (h, true) ∧
  NoDup (rt_role <$> joins "s-1" [Joined sample_relay_token]).
Proof.
  exists 0%nat. split; [reflexivity|].
  apply (relay_pairing (register_or_join RelaySessionTable_new sample_relay_token 10).2
    [Joined sample_relay_token]
    (mkRelayToken "s-1" "relay-eu" "cli-1" "host-1" Role_Client 1000 []) 11).
  eapply rtc_l; [|apply rtc_refl]. eapply (relay_join _ [] _ 10 0 false). reflexivity.
Defined.
