(* ===== verification/ClientSession.v ===== *)
(** * The client's session (apps/nexus-client/src/session.rs)

    The client keeps a signed capability and a signed relay token, validates
    both on every connection attempt, and follows a small state machine bounded
    by a reconnect window and a maximal duration.  Timestamps are seconds,
    durations nanoseconds.  The clock the session owns is only handed out; every
    operation takes the time as an argument. *)

From S2P Require Import Prelude Crypto Common Protocol SessionState Replay Verifier Relay.

Open Scope string_scope.
Open Scope list_scope.
Open Scope Z_scope.

Definition DEFAULT_MAX_SESSION_DURATION : Z := Duration_from_secs (30 * 60).

Inductive ClientState :=
  | Client_Disconnected | Client_Connecting | Client_Connected | Client_Reconnecting
  | Client_Expired.
#[global] Instance ClientState_eq_dec : EqDecision ClientState.
Proof. solve_decision. Defined.

Record RelayTokenMetadata := mkRelayTokenMetadata {
  rmd_relay_id : string;
  rmd_session_id : string;
  rmd_client_device_id : string;
  rmd_target_device_id : string;
  rmd_expires_at : Z;
  rmd_signature : bytes
}.

(** The loop over the four fields, then the role byte and the expiry. *)
Definition RelayTokenMetadata_signing_bytes (m : RelayTokenMetadata) : bytes :=
  foldl (λ out value, out ++ to_be_bytes 2 (wrap 16 (str_len value)) ++ as_bytes value)
    (as_bytes "nexus-relay-token/v1" ++ [x00])
    [rmd_session_id m; rmd_relay_id m; rmd_client_device_id m; rmd_target_device_id m] ++
  [x00] ++ to_be_bytes 8 (rmd_expires_at m).
Arguments RelayTokenMetadata_signing_bytes : simpl never.

Record ClientVerification := mkClientVerification {
  ver_capability_key : bytes;
  ver_relay_key : bytes;
  ver_relay_id : string
}.

Record SessionPolicy := mkSessionPolicy { sp_max_duration : Z; sp_reconnect_window : Z }.
Definition SessionPolicy_new (max_duration reconnect_window : Z) :
    result SessionPolicyError SessionPolicy :=
  _ ← SessionDurationPolicy_new max_duration;
  _ ← ReconnectPolicy_new reconnect_window;
  Ok (mkSessionPolicy max_duration reconnect_window).

Inductive ClientError :=
  | ClientErr_Expired
  | ClientErr_InvalidTransition (from to : ClientState)
  | ClientErr_IdentityMismatch
  | ClientErr_CapabilityNotActive
  | ClientErr_CapabilityExpired
  | ClientErr_RelayTokenExpired
  | ClientErr_ReconnectWindowElapsed
  | ClientErr_InvalidCapabilitySignature
  | ClientErr_InvalidRelaySignature
  | ClientErr_PermissionDenied (permission : string).

Record ClientSession := mkClientSession {
  cs_capability : SessionCapability;
  cs_relay_token : RelayTokenMetadata;
  cs_state : ClientState;
  cs_reconnect_deadline : option Z;
  cs_established_at : option Z;
  cs_max_duration : Z;
  cs_reconnect_window : Z;
  cs_verification : ClientVerification
}.

(** The assignments to the three mutable fields. *)
Definition cs_set (s : ClientSession) (state : ClientState) (deadline established : option Z) :
    ClientSession :=
  mkClientSession (cs_capability s) (cs_relay_token s) state deadline established
    (cs_max_duration s) (cs_reconnect_window s) (cs_verification s).
Definition cs_set_state (s : ClientSession) (state : ClientState) : ClientSession :=
  cs_set s state (cs_reconnect_deadline s) (cs_established_at s).

(** [ClientSession::new]; [None] is the panic of [expect] on a policy that was
    not made by [SessionPolicy::new]. *)
Definition ClientSession_new (capability : SessionCapability) (relay_token : RelayTokenMetadata)
    (policy : SessionPolicy) (verification : ClientVerification) : option ClientSession :=
  match SessionDurationPolicy_new (sp_max_duration policy),
        ReconnectPolicy_new (sp_reconnect_window policy) with
  | Ok max, Ok window =>
      Some (mkClientSession capability relay_token Client_Disconnected None None max window
              verification)
  | _, _ => None
  end.

Definition has_permission (s : ClientSession) (permission : string) : bool :=
  existsb (λ granted, str_eqb granted permission) (cap_permissions (cs_capability s)).
Definition can_view (s : ClientSession) : bool := has_permission s "desktop.view".
Definition can_control (s : ClientSession) : bool := has_permission s "desktop.control".
Definition require_permission (s : ClientSession) (permission : string) :
    result ClientError unit :=
  if has_permission s permission then Ok tt else Err (ClientErr_PermissionDenied permission).
Definition require_view (s : ClientSession) : result ClientError unit :=
  if can_view s then Ok tt else Err (ClientErr_PermissionDenied "desktop.view").
Definition require_control (s : ClientSession) : result ClientError unit :=
  if can_control s then Ok tt else Err (ClientErr_PermissionDenied "desktop.control").

Definition session_duration_expired (s : ClientSession) (now : Z) : bool :=
  is_some_and (cs_established_at s)
    (λ at_, cs_max_duration s <=? timestamp_saturating_duration_since now at_).

Definition can_reconnect (s : ClientSession) (now : Z) : bool :=
  bool_decide (cs_state s = Client_Reconnecting) &&
  is_some_and (cs_reconnect_deadline s) (λ deadline, now <=? deadline) &&
  negb (session_duration_expired s now).

Definition validate_identity (s : ClientSession) : result ClientError unit :=
  if negb (str_eqb (cap_session_id (cs_capability s)) (rmd_session_id (cs_relay_token s))) ||
     negb (str_eqb (cap_client_device_id (cs_capability s))
             (rmd_client_device_id (cs_relay_token s))) ||
     negb (str_eqb (cap_target_device_id (cs_capability s))
             (rmd_target_device_id (cs_relay_token s)))
  then Err ClientErr_IdentityMismatch else Ok tt.

(** An operation on the session. *)
Abbreviation client_result := (result ClientError unit * ClientSession)%type.

Section operations.
Context `{Ed25519} `{Prost SessionCapability}.

Definition validate_claims (s : ClientSession) (now : Z) : result ClientError unit :=
  let cap := cs_capability s in
  let tok := cs_relay_token s in
  let ver := cs_verification s in
  _ ← validate_identity s;
  _ ← map_err (λ _, ClientErr_IdentityMismatch) (SessionCapability_validate cap);
  if now <? cap_not_before cap then Err ClientErr_CapabilityNotActive else
  if cap_expires_at cap <=? now then Err ClientErr_CapabilityExpired else
  if rmd_expires_at tok <=? now then Err ClientErr_RelayTokenExpired else
  if negb (len (cap_signature cap) =? 64) then Err ClientErr_InvalidCapabilitySignature else
  if negb (ed_verify (ver_capability_key ver) (SessionCapability_signing_bytes cap)
             (cap_signature cap))
  then Err ClientErr_InvalidCapabilitySignature else
  if negb (str_eqb (rmd_relay_id tok) (ver_relay_id ver)) ||
     negb (len (rmd_signature tok) =? 64)
  then Err ClientErr_InvalidRelaySignature else
  if negb (ed_verify (ver_relay_key ver) (RelayTokenMetadata_signing_bytes tok)
             (rmd_signature tok))
  then Err ClientErr_InvalidRelaySignature else
  Ok tt.

Definition ensure_active (s : ClientSession) (now : Z) : client_result :=
  if bool_decide (cs_state s = Client_Expired) then (Err ClientErr_Expired, s) else
  if bool_decide (cs_state s ≠ Client_Connected)
  then (Err (ClientErr_InvalidTransition (cs_state s) Client_Connected), s) else
  match validate_claims s now with
  | Err e => (Err e, s)
  | Ok _ =>
      if session_duration_expired s now
      then (Err ClientErr_Expired, cs_set s Client_Expired None (cs_established_at s))
      else (Ok tt, s)
  end.

Definition begin_connect (s : ClientSession) (now : Z) : client_result :=
  if bool_decide (cs_state s = Client_Expired) then (Err ClientErr_Expired, s) else
  if bool_decide (cs_state s = Client_Reconnecting) && negb (can_reconnect s now)
  then (Err ClientErr_ReconnectWindowElapsed, cs_set_state s Client_Expired) else
  if bool_decide (cs_state s ≠ Client_Reconnecting) &&
     bool_decide (cs_state s ≠ Client_Disconnected)
  then (Err (ClientErr_InvalidTransition (cs_state s) Client_Connecting), s) else
  match validate_claims s now with
  | Err e => (Err e, s)
  | Ok _ => (Ok tt, cs_set_state s Client_Connecting)
  end.

Definition connected (s : ClientSession) (now : Z) : client_result :=
  if bool_decide (cs_state s = Client_Expired) then (Err ClientErr_Expired, s) else
  if bool_decide (cs_state s ≠ Client_Connecting)
  then (Err (ClientErr_InvalidTransition (cs_state s) Client_Connected), s) else
  if bool_decide (is_Some (cs_established_at s)) &&
     is_some_and (cs_reconnect_deadline s) (λ deadline, deadline <? now)
  then (Err ClientErr_ReconnectWindowElapsed, cs_set_state s Client_Expired) else
  match validate_claims s now with
  | Err e => (Err e, s)
  | Ok _ =>
      if is_some_and (cs_established_at s) (λ _, session_duration_expired s now)
      then (Err ClientErr_Expired, cs_set_state s Client_Expired)
      else (Ok tt, cs_set s Client_Connected None
                     (Some (match cs_established_at s with None => now | Some at_ => at_ end)))
  end.

Definition reconnect_attempt_failed (s : ClientSession) (now : Z) : client_result :=
  if bool_decide (cs_state s ≠ Client_Connecting)
  then (Err (ClientErr_InvalidTransition (cs_state s) Client_Reconnecting), s) else
  if session_duration_expired s now
  then (Err ClientErr_Expired, cs_set s Client_Expired None (cs_established_at s)) else
  match cs_reconnect_deadline s with
  | None => (Err ClientErr_ReconnectWindowElapsed, cs_set_state s Client_Expired)
  | Some deadline =>
      if deadline <? now
      then (Err ClientErr_ReconnectWindowElapsed,
            cs_set s Client_Expired None (cs_established_at s))
      else (Ok tt, cs_set_state s Client_Reconnecting)
  end.

Definition transport_lost (s : ClientSession) (now : Z) : client_result :=
  if bool_decide (cs_state s = Client_Expired) then (Err ClientErr_Expired, s) else
  if bool_decide (cs_state s ≠ Client_Connected)
  then (Err (ClientErr_InvalidTransition (cs_state s) Client_Reconnecting), s) else
  if session_duration_expired s now
  then (Err ClientErr_Expired, cs_set_state s Client_Expired)
  else (Ok tt, cs_set s Client_Reconnecting
                 (Some (timestamp_saturating_add now (cs_reconnect_window s)))
                 (cs_established_at s)).

Definition expire (s : ClientSession) : client_result :=
  if bool_decide (cs_state s = Client_Expired) then (Err ClientErr_Expired, s)
  else (Ok tt, cs_set s Client_Expired None (cs_established_at s)).
End operations.

(** ** What validated claims guarantee *)

(** The relay token the client holds, as the relay sees it. *)
Definition client_relay_token (m : RelayTokenMetadata) : RelayToken :=
  mkRelayToken (rmd_session_id m) (rmd_relay_id m) (rmd_client_device_id m)
    (rmd_target_device_id m) Role_Client (rmd_expires_at m) (rmd_signature m).

Lemma metadata_signing_bytes m :
  RelayTokenMetadata_signing_bytes m = RelayToken_signing_bytes (client_relay_token m).
Proof.
  unfold RelayTokenMetadata_signing_bytes, RelayToken_signing_bytes, put, token_domain.
  cbn [foldl client_relay_token rt_session_id rt_relay_id rt_client_device_id
    rt_target_device_id rt_role rt_expires_at].
  by rewrite <-!(assoc_L (++)).
Qed.

Section claims.
Context `{Ed25519} `{Prost SessionCapability}.

Record claims_valid (s : ClientSession) (now : Z) : Prop := {
  cv_schema : well_formed (cs_capability s);
  cv_session : rmd_session_id (cs_relay_token s) = cap_session_id (cs_capability s);
  cv_client : rmd_client_device_id (cs_relay_token s) = cap_client_device_id (cs_capability s);
  cv_target : rmd_target_device_id (cs_relay_token s) = cap_target_device_id (cs_capability s);
  cv_time : cap_not_before (cs_capability s) ≤ now < cap_expires_at (cs_capability s);
  cv_relay_time : now < rmd_expires_at (cs_relay_token s);
  cv_cap_length : len (cap_signature (cs_capability s)) = 64;
  cv_cap_signature : ed_verify (ver_capability_key (cs_verification s))
    (SessionCapability_signing_bytes (cs_capability s)) (cap_signature (cs_capability s)) = true;
  cv_relay_id : rmd_relay_id (cs_relay_token s) = ver_relay_id (cs_verification s);
  cv_relay_length : len (rmd_signature (cs_relay_token s)) = 64;
  cv_relay_signature : ed_verify (ver_relay_key (cs_verification s))
    (RelayTokenMetadata_signing_bytes (cs_relay_token s)) (rmd_signature (cs_relay_token s)) = true
}.

Lemma validate_identity_spec s :
  validate_identity s = Ok tt ↔
    rmd_session_id (cs_relay_token s) = cap_session_id (cs_capability s) ∧
    rmd_client_device_id (cs_relay_token s) = cap_client_device_id (cs_capability s) ∧
    rmd_target_device_id (cs_relay_token s) = cap_target_device_id (cs_capability s).
Proof.
  unfold validate_identity, str_eqb. repeat case_bool_decide; cbn; naive_solver.
Qed.

Lemma validate_claims_spec s now : validate_claims s now = Ok tt ↔ claims_valid s now.
Proof.
  unfold validate_claims. pose proof (validate_identity_spec s) as Hid.
  pose proof (capability_validate_spec (cs_capability s)) as Hcap.
  destruct (validate_identity s) as [[]|]; cbn; [|split; [done|intros []; naive_solver]].
  destruct (SessionCapability_validate _) as [[]|]; cbn in *; [|split; [done|intros []; naive_solver]].
  pose proof (proj1 Hid eq_refl) as (? & ? & ?). pose proof (proj1 Hcap eq_refl).
  split.
  - intros Hok. repeat (case_match; [done|]). bool_hyps. split; done || lia.
  - intros [_ _ _ _ ? ? ? Hs1 Hr ? Hs2]. unfold str_eqb.
    rewrite Hs1, Hs2, Hr, bool_decide_true by done.
    repeat match goal with |- context [if ?b then _ else _] =>
      replace b with false by (cbn; lia) end. done.
Qed.
End claims.

(** What the client checks is what its peers check: when the client's claims
    validate, a relay that trusts the same key and carries the expected name
    accepts the relay token at that moment as a client's, and the target agent,
    trusting the same capability key, accepts the capability for any negotiated
    version in its range exactly if its nonce is new.  The client's own copy of
    the relay token's signing bytes is the relay's. *)
Theorem client_claims_accepted_by_peers `{Ed25519} `{Prost SessionCapability} dalek_text s now v a
    negotiated instant :
  validate_claims s now = Ok tt →
  v = mkRelayTokenVerifier (ver_relay_key (cs_verification s))
        (ver_relay_id (cs_verification s)) →
  cv_verifying_key a = ver_capability_key (cs_verification s) →
  cv_target_device_id a = Some (rmd_target_device_id (cs_relay_token s)) →
  cap_agent_min_protocol (cs_capability s) ≤ negotiated
    ≤ cap_agent_max_protocol (cs_capability s) →
  RelayTokenVerifier_verify v (client_relay_token (cs_relay_token s)) now = Ok tt ∧
  ((CapabilityVerifier_verify dalek_text a (cs_capability s) negotiated now instant).1 = Ok tt ↔
   (NonceReplayCache_accept (cv_replay_cache a) (cap_nonce (cs_capability s)) instant).1 = true).
Proof.
  intros [? ? ? Ht ? ? ? ? Hr ? Hs]%validate_claims_spec -> Hk Ha Hn. split.
  - unfold RelayTokenVerifier_verify, str_eqb. cbn [client_relay_token rt_relay_id
      rt_expires_at rt_signature rv_relay_id rv_key].
    rewrite <-metadata_signing_bytes, Hs, bool_decide_true by done. cbn.
    by replace (_ <=? _) with false by lia; replace (_ =? _) with true by lia.
  - rewrite verify_ok_iff, Hk. split; [naive_solver|]. intros ?. split; [|done].
    split; try done; [|lia]. rewrite Ha, Ht. by intros ? [= <-].
Qed.

Definition sample_client_token : RelayTokenMetadata :=
  mkRelayTokenMetadata "relay-eu" "s1" "client-1" "agent-1" 500 good_sig.
Definition sample_client_session : ClientSession :=
  mkClientSession (sample_capability good_sig) sample_client_token Client_Disconnected None None
    (Duration_from_secs 60) (Duration_from_secs 30)
    (mkClientVerification (replicate 32 x09) (replicate 32 x09) "relay-eu").

Lemma client_claims_accepted_by_peers_witness :
  @validate_claims toy_ed25519 (countable_prost SessionCapability) sample_client_session 150 = Ok tt ∧
  @RelayTokenVerifier_verify toy_ed25519 (mkRelayTokenVerifier (replicate 32 x09) "relay-eu")
    (client_relay_token sample_client_token) 150 = Ok tt.
Proof.
  assert (@validate_claims toy_ed25519 (countable_prost SessionCapability)
    sample_client_session 150 = Ok tt) as Hv by (vm_compute; reflexivity).
  split; [exact Hv|].
  eapply (@client_claims_accepted_by_peers toy_ed25519 (countable_prost SessionCapability)
    "signature error" sample_client_session 150 _ (sample_verifier 120000000000) 1 0 Hv);
    [reflexivity..|cbn; lia].
Defined.

(** ** Runs of a client session *)

Section runs.
Context `{Ed25519} `{Prost SessionCapability}.

(** A call of an operation, whatever it returns; the ghost component is the time
    of the last loss of the transport that was accepted. *)
Inductive client_step : ClientSession * option Z → ClientSession * option Z → Prop :=
  | client_ensure s lost now : client_step (s, lost) ((ensure_active s now).2, lost)
  | client_begin s lost now : client_step (s, lost) ((begin_connect s now).2, lost)
  | client_connected s lost now : client_step (s, lost) ((connected s now).2, lost)
  | client_failed s lost now : client_step (s, lost) ((reconnect_attempt_failed s now).2, lost)
  | client_lost s lost now :
      client_step (s, lost)
        ((transport_lost s now).2, if is_ok (transport_lost s now).1 then Some now else lost)
  | client_expire s lost : client_step (s, lost) ((expire s).2, lost).

(** The invariant: a session is reconnecting only after it was established and
    lost, and its deadline is then the last loss plus the window. *)
Record client_ok (s : ClientSession) (lost : option Z) : Prop := {
  co_deadline d : cs_reconnect_deadline s = Some d →
    is_Some (cs_established_at s) ∧
    ∃ t, lost = Some t ∧ d = timestamp_saturating_add t (cs_reconnect_window s);
  co_fresh : cs_established_at s = None →
    cs_state s ≠ Client_Connected ∧ cs_state s ≠ Client_Reconnecting;
  co_reconnect : cs_state s = Client_Reconnecting → is_Some (cs_reconnect_deadline s);
  co_connecting : cs_state s = Client_Connecting → is_Some (cs_established_at s) →
    is_Some (cs_reconnect_deadline s);
  co_connected : cs_state s = Client_Connected → cs_reconnect_deadline s = None;
  co_initial : cs_state s = Client_Disconnected → cs_established_at s = None
}.

(** What never changes, and what is only set once. *)
Record client_extends (s s' : ClientSession) : Prop := {
  ce_capability : cs_capability s' = cs_capability s;
  ce_token : cs_relay_token s' = cs_relay_token s;
  ce_verification : cs_verification s' = cs_verification s;
  ce_limits : cs_max_duration s' = cs_max_duration s ∧
              cs_reconnect_window s' = cs_reconnect_window s;
  ce_established at_ : cs_established_at s = Some at_ → cs_established_at s' = Some at_;
  ce_expired : cs_state s = Client_Expired → cs_state s' = Client_Expired
}.

#[global] Instance client_extends_preorder : PreOrder client_extends.
Proof.
  split.
  - by intros s; split.
  - intros s1 s2 s3 [? ? ? [? ?] ? ?] [? ? ? [? ?] ? ?]. split; try congruence; auto.
    split; congruence.
Qed.

Ltac client_cases :=
  unfold ensure_active, begin_connect, connected, reconnect_attempt_failed, transport_lost,
    expire in *; repeat case_match; bool_hyps; cbn in *;
  repeat match goal with H : ¬ (_ ≠ _) |- _ => apply dec_stable in H end.

Lemma client_step_extends st st' : client_step st st' → client_extends st.1 st'.1.
Proof. destruct 1; client_cases; split; cbn; try done; congruence. Qed.

Lemma client_step_ok st st' :
  client_step st st' → client_ok st.1 st.2 → client_ok st'.1 st'.2.
Proof.
  intros Hstep [Hd Hf Hr Hc Hn Hi]. destruct Hstep; client_cases;
    (split; cbn in *; try done; try congruence; eauto).
  - intros _ [at_ Ha]. destruct (cs_state s); try done; [|by apply Hr].
    by rewrite Hi in Ha.
  - intros Ha. destruct (Hd z) as [[] _]; congruence.
  - intros d [= <-]. split; [|by eexists].
    destruct (cs_established_at s) eqn:Ea; [done|]. by destruct Hf.
  - intros Ha. by destruct (Hf Ha).
Qed.

Lemma rtc_client_ok st st' :
  rtc client_step st st' → client_ok st.1 st.2 →
  client_ok st'.1 st'.2 ∧ client_extends st.1 st'.1.
Proof.
  induction 1 as [|st1 st2 st3 Hs _ IH]; intros Hok; [done|].
  destruct IH as [? ?]; [by eapply client_step_ok|].
  split; [done|]. etrans; [by apply client_step_extends|done].
Qed.

Lemma client_new_ok cap tok pol ver s :
  ClientSession_new cap tok pol ver = Some s → client_ok s None.
Proof. unfold ClientSession_new. repeat case_match; intros; simplify_eq. by split. Qed.

Lemma connected_inv s lost now s' :
  client_ok s lost → connected s now = (Ok tt, s') →
  cs_state s = Client_Connecting ∧ claims_valid s now ∧
  s' = cs_set s Client_Connected None (Some (default now (cs_established_at s))) ∧
  ∀ at_, cs_established_at s = Some at_ →
    timestamp_saturating_duration_since now at_ < cs_max_duration s ∧
    ∃ t, lost = Some t ∧ now ≤ timestamp_saturating_add t (cs_reconnect_window s).
Proof.
  intros Hok. unfold connected. case_bool_decide as E1; [done|].
  case_bool_decide as E2; [done|].
  destruct (bool_decide (is_Some _) && _) eqn:E3; [done|].
  destruct (validate_claims s now) as [[]|] eqn:Ev; [|done].
  apply validate_claims_spec in Ev.
  destruct (is_some_and (cs_established_at s) _) eqn:E4; [done|]. intros [= <-].
  split_and!; [done..|]. intros at_ Ha.
  unfold session_duration_expired in E4. rewrite Ha in E3, E4. cbn in E3, E4.
  split; [lia|].
  destruct (co_connecting _ _ Hok E2) as [d Hd]; [by eexists|].
  destruct (co_deadline _ _ Hok d Hd) as [_ (t & -> & ->)].
  rewrite Hd in E3. cbn in E3. exists t. split; [done|lia].
Qed.

Lemma ensure_active_inv s lost now s' :
  client_ok s lost → ensure_active s now = (Ok tt, s') →
  s' = s ∧ cs_state s = Client_Connected ∧ claims_valid s now ∧
  ∃ at_, cs_established_at s = Some at_ ∧
    timestamp_saturating_duration_since now at_ < cs_max_duration s.
Proof.
  intros Hok. unfold ensure_active. case_bool_decide as E1; [done|].
  case_bool_decide as E2; [done|].
  destruct (validate_claims s now) as [[]|] eqn:Ev; [|done].
  apply validate_claims_spec in Ev.
  destruct (session_duration_expired s now) eqn:E4; [done|]. intros [= <-].
  split_and!; [done..|]. destruct (cs_established_at s) as [at_|] eqn:Ha.
  - exists at_. split; [done|]. unfold session_duration_expired in E4. rewrite Ha in E4.
    cbn in E4. lia.
  - by destruct (co_fresh _ _ Hok Ha).
Qed.
End runs.

(** C8. The client's lifecycle, over any sequence of calls with any results on a
    new session.  Once expired a session stays expired and every operation fails.
    The claims, keys and limits never change, and the time of establishment is set
    once.  [connected] succeeds only from the connecting state with valid claims,
    and, when the session was established before, only before its maximal duration
    has passed since then and not later than the window after the last accepted
    loss of the transport, however many attempts failed in between.
    [ensure_active] succeeds only on a connected, established session with valid
    claims and time left, and changes nothing. *)
Theorem client_session_lifecycle `{Ed25519} `{Prost SessionCapability} cap tok pol ver s0 s lost
    now :
  ClientSession_new cap tok pol ver = Some s0 → rtc client_step (s0, None) (s, lost) →
  client_extends s0 s ∧
  (∀ s' lost', rtc client_step (s, lost) (s', lost') → client_extends s s') ∧
  (cs_state s = Client_Expired →
     Forall (λ r : client_result, is_ok r.1 = false ∧ r.2 = s)
       [ensure_active s now; begin_connect s now; connected s now;
        reconnect_attempt_failed s now; transport_lost s now; expire s]) ∧
  (∀ s', connected s now = (Ok tt, s') →
     cs_state s = Client_Connecting ∧ claims_valid s now ∧
     s' = cs_set s Client_Connected None (Some (default now (cs_established_at s))) ∧
     ∀ at_, cs_established_at s = Some at_ →
       timestamp_saturating_duration_since now at_ < cs_max_duration s ∧
       ∃ t, lost = Some t ∧ now ≤ timestamp_saturating_add t (cs_reconnect_window s)) ∧
  (∀ s', ensure_active s now = (Ok tt, s') →
     s' = s ∧ cs_state s = Client_Connected ∧ claims_valid s now ∧
     ∃ at_, cs_established_at s = Some at_ ∧
       timestamp_saturating_duration_since now at_ < cs_max_duration s).
Proof.
  intros Hnew Hrun. destruct (rtc_client_ok _ _ Hrun) as [Hok Hext]; [by eapply client_new_ok|].
  cbn in Hok, Hext. split_and!; [done|..].
  - intros s' lost' Hrun'. apply (rtc_client_ok _ _ Hrun' Hok).
  - intros He. unfold ensure_active, begin_connect, connected, reconnect_attempt_failed,
      transport_lost, expire. rewrite He. by repeat constructor.
  - intros s'. by apply connected_inv.
  - intros s'. by apply (ensure_active_inv s lost).
Qed.

Definition sample_policy : SessionPolicy :=
  mkSessionPolicy (Duration_from_secs 60) (Duration_from_secs 30).
Definition sample_connecting : ClientSession := cs_set_state sample_client_session Client_Connecting.

Lemma client_session_lifecycle_witness :
  @claims_valid toy_ed25519 (countable_prost SessionCapability) sample_connecting 151.
Proof.
  destruct (@client_session_lifecycle toy_ed25519 (countable_prost SessionCapability)
    (sample_capability good_sig) sample_client_token sample_policy
    (mkClientVerification (replicate 32 x09) (replicate 32 x09) "relay-eu")
    sample_client_session sample_connecting None 151) as (_ & _ & _ & Hc & _).
  - reflexivity.
  - eapply rtc_l; [|apply rtc_refl].
    replace sample_connecting with (@begin_connect toy_ed25519 (countable_prost SessionCapability)
      sample_client_session 150).2 by (vm_compute; reflexivity).
    constructor.
  - eapply (Hc (cs_set sample_connecting Client_Connected None (Some 151))).
    vm_compute. reflexivity.
Defined.
