(* ===== verification/Input.v ===== *)
(** * Remote input

    Semantic input events (crates/nexus-input/src/events.rs), their encoding by
    the client (apps/nexus-client/src/receiver.rs, [ClientInputSender]), the
    client's bounded and rate-limited controller (apps/nexus-client/src/input.rs)
    and the host's handler (apps/nexus-desktop-host/src/input_handler.rs).
    Instants are nanoseconds of a monotonic clock; [i32] and [u32] fields are
    integers in range. *)

From S2P Require Import Prelude Protocol Control.

Open Scope Z_scope.

(** ** Events *)

(** [Modifiers] is its [u8]; [bits] widens it. *)
Definition Modifiers_from_bits (bits : Z) : Z := Z.land bits 15.

Inductive MouseButton := Button_Left | Button_Middle | Button_Right | Button_Back | Button_Forward.
Inductive KeyAction := Key_Down | Key_Up.
#[global] Instance KeyAction_eq_dec : EqDecision KeyAction.
Proof. solve_decision. Defined.

Inductive InputEvent :=
  | Input_Key (physical_code logical_code : Z) (action : KeyAction) (modifiers : Z)
  | Input_Text (text : string)
  | Input_MouseMove (x y : Z)
  | Input_MouseButton (button : MouseButton) (pressed : bool)
  | Input_MouseWheel (delta_x delta_y : Z).

Inductive InputError :=
  | Input_TextTooLong (max_bytes : Z) | Input_InvalidPhysicalKeyCode | Input_WheelDeltaOutOfRange.

Definition MAX_TEXT_BYTES : Z := 4096.

Definition wheel_in_range (d : Z) : bool := (-120000 <=? d) && (d <=? 120000).

Definition InputEvent_validate (e : InputEvent) : result InputError unit :=
  match e with
  | Input_Text text =>
      if MAX_TEXT_BYTES <? str_len text then Err (Input_TextTooLong MAX_TEXT_BYTES) else Ok tt
  | Input_Key physical_code _ _ _ =>
      if 65535 <? physical_code then Err Input_InvalidPhysicalKeyCode else Ok tt
  | Input_MouseWheel delta_x delta_y =>
      if negb (wheel_in_range delta_x) || negb (wheel_in_range delta_y)
      then Err Input_WheelDeltaOutOfRange else Ok tt
  | _ => Ok tt
  end.

(** ** Messages *)

Record KeyEvent := mkKeyEvent {
  key_physical_code : Z; key_logical_code : Z; key_pressed : bool; key_modifiers : Z }.
Record TextInput := mkTextInput { text_text : string }.
Record MouseMove := mkMouseMove { move_x : Z; move_y : Z }.
Record ProtoMouseButton := mkProtoMouseButton { button_button : Z; button_pressed : bool }.
Record MouseWheel := mkMouseWheel { wheel_delta_x : Z; wheel_delta_y : Z }.

(** The generated codecs of the five messages. *)
Class InputProst := {
  prost_key :: Prost KeyEvent;
  prost_text :: Prost TextInput;
  prost_move :: Prost MouseMove;
  prost_button :: Prost ProtoMouseButton;
  prost_wheel :: Prost MouseWheel
}.
Class InputProstLaws `{InputProst} := {
  prost_key_laws :: ProstLaws KeyEvent;
  prost_text_laws :: ProstLaws TextInput;
  prost_move_laws :: ProstLaws MouseMove;
  prost_button_laws :: ProstLaws ProtoMouseButton;
  prost_wheel_laws :: ProstLaws MouseWheel
}.

(** ** The client's encoder *)

Inductive ClientInputError :=
  | ClientInput_Input (e : InputError)
  | ClientInput_ControlTooLarge (actual limit : Z).

Definition button_code (b : MouseButton) : Z :=
  match b with
  | Button_Left => 0 | Button_Right => 1 | Button_Middle => 2 | Button_Back => 3
  | Button_Forward => 4
  end.

(** [None] is the [unreachable!] of the match on the other errors. *)
Definition ClientInputSender_frame {M} `{Prost M} (message : M) :
    option (result ClientInputError bytes) :=
  match encode_framed_control message with
  | Ok b => Some (Ok b)
  | Err (Control_TooLarge actual limit) => Some (Err (ClientInput_ControlTooLarge actual limit))
  | Err (Control_Decode | Control_TruncatedFrame | Control_UnknownKind _) => None
  end.

(** ** The host's handler *)

(** [events_received] is an atomic counter, which wraps; [hh_trace] is what
    [dispatch_event] logs. *)
Record HostInputHandler := mkHostInputHandler {
  hh_events_received : Z;
  hh_trace : list InputEvent
}.
Definition HostInputHandler_new : HostInputHandler := mkHostInputHandler 0 [].

Definition dispatch_event (h : HostInputHandler) (e : InputEvent) : HostInputHandler :=
  mkHostInputHandler (wrap 64 (hh_events_received h + 1)) (hh_trace h ++ [e]).

(** [InputHandlerError]: the decoder's error; [InvalidData] is never made. *)
Inductive InputHandlerError := Handler_Decode | Handler_InvalidData (what : string).
Abbreviation handler_result := (result InputHandlerError unit * HostInputHandler)%type.

(** ** Encoding and handling *)

Section sender.
Context `{InputProst}.

Definition ClientInputSender_encode (e : InputEvent) : option (result ClientInputError bytes) :=
  match InputEvent_validate e with
  | Err err => Some (Err (ClientInput_Input err))
  | Ok _ =>
      match e with
      | Input_Key physical_code logical_code action modifiers =>
          ClientInputSender_frame (mkKeyEvent physical_code logical_code
            (bool_decide (action = Key_Down)) modifiers)
      | Input_Text text => ClientInputSender_frame (mkTextInput text)
      | Input_MouseMove x y => ClientInputSender_frame (mkMouseMove x y)
      | Input_MouseButton button pressed =>
          ClientInputSender_frame (mkProtoMouseButton (button_code button) pressed)
      | Input_MouseWheel delta_x delta_y =>
          ClientInputSender_frame (mkMouseWheel delta_x delta_y)
      end
  end.

Definition handle_key_event (h : HostInputHandler) (b : bytes) : handler_result :=
  match prost_decode (M := KeyEvent) b with
  | None => (Err Handler_Decode, h)
  | Some p => (Ok tt, dispatch_event h
      (Input_Key (key_physical_code p) (key_logical_code p)
         (if key_pressed p then Key_Down else Key_Up) (Modifiers_from_bits (key_modifiers p))))
  end.
Definition handle_mouse_move (h : HostInputHandler) (b : bytes) : handler_result :=
  match prost_decode (M := MouseMove) b with
  | None => (Err Handler_Decode, h)
  | Some p => (Ok tt, dispatch_event h (Input_MouseMove (move_x p) (move_y p)))
  end.
Definition button_of_code (code : Z) : MouseButton :=
  if code =? 0 then Button_Left else if code =? 1 then Button_Right else
  if code =? 2 then Button_Middle else if code =? 3 then Button_Back else
  if code =? 4 then Button_Forward else Button_Left.
Definition handle_mouse_button (h : HostInputHandler) (b : bytes) : handler_result :=
  match prost_decode (M := ProtoMouseButton) b with
  | None => (Err Handler_Decode, h)
  | Some p => (Ok tt, dispatch_event h
      (Input_MouseButton (button_of_code (button_button p)) (button_pressed p)))
  end.
Definition handle_mouse_wheel (h : HostInputHandler) (b : bytes) : handler_result :=
  match prost_decode (M := MouseWheel) b with
  | None => (Err Handler_Decode, h)
  | Some p => (Ok tt, dispatch_event h (Input_MouseWheel (wheel_delta_x p) (wheel_delta_y p)))
  end.
Definition handle_text_input (h : HostInputHandler) (b : bytes) : handler_result :=
  match prost_decode (M := TextInput) b with
  | None => (Err Handler_Decode, h)
  | Some p => (Ok tt, dispatch_event h (Input_Text (text_text p)))
  end.
End sender.

(** ** The client's controller *)

Definition DEFAULT_INPUT_QUEUE_CAPACITY : Z := 64.
Definition DEFAULT_INPUT_RATE_PER_SECOND : Z := 240.
Definition MAX_INPUT_RATE_PER_SECOND : Z := 4096.
Definition MAX_INPUT_QUEUE_CAPACITY : Z := 1024.
Definition MAX_INPUT_CONTROL_BYTES : Z := 64 * 1024.

(** The error kinds of the platform layer (platform/windows/src/error.rs). *)
Inductive BackendErrorKind :=
  | UnsupportedPlatform | UnsupportedApi | PermissionDenied | InvalidConfiguration
  | InitializationFailed | Timeout | DeviceLost | FrameUnavailable | InvalidFrame
  | InvalidInput | InvalidCursorDimensions | HotspotOutOfBounds | CursorPayloadLength
  | NativeFailure | Stopped.
#[global] Instance BackendErrorKind_eq_dec : EqDecision BackendErrorKind.
Proof. solve_decision. Defined.
(** A [BackendError] is its kind. *)
Abbreviation BackendResult := (result BackendErrorKind).

Inductive InputControllerError :=
  | Controller_NotFocused | Controller_Shutdown | Controller_RateLimited | Controller_QueueFull
  | Controller_InvalidQueueCapacity | Controller_InvalidRateLimit | Controller_PayloadTooLarge
  | Controller_InvalidMonitor (e : MonitorInfoError)
  | Controller_InvalidCursor (e : BackendErrorKind)
  | Controller_Encode (e : ClientInputError).

Record InputController := mkInputController {
  ic_monitor : MonitorInfo;
  ic_focused : bool;
  ic_shutdown : bool;
  ic_queue : list bytes;
  ic_queue_capacity : Z;
  ic_max_events_per_second : Z;
  ic_recent_events : list Z
}.

Definition ic_with (c : InputController) (focused shutdown : bool) (queue : list bytes)
    (recent : list Z) : InputController :=
  mkInputController (ic_monitor c) focused shutdown queue (ic_queue_capacity c)
    (ic_max_events_per_second c) recent.

Definition InputController_with_limits (monitor : MonitorInfo)
    (max_events_per_second queue_capacity : Z) : result InputControllerError InputController :=
  _ ← map_err Controller_InvalidMonitor (MonitorInfo_validate monitor);
  if (queue_capacity =? 0) || (MAX_INPUT_QUEUE_CAPACITY <? queue_capacity)
  then Err Controller_InvalidQueueCapacity else
  if (max_events_per_second =? 0) || (MAX_INPUT_RATE_PER_SECOND <? max_events_per_second)
  then Err Controller_InvalidRateLimit else
  Ok (mkInputController monitor false false [] queue_capacity max_events_per_second []).

Definition InputController_new (monitor : MonitorInfo) :
    result InputControllerError InputController :=
  InputController_with_limits monitor DEFAULT_INPUT_RATE_PER_SECOND DEFAULT_INPUT_QUEUE_CAPACITY.

Definition set_focused (c : InputController) (focused : bool) : InputController :=
  if ic_shutdown c then c
  else ic_with c focused (ic_shutdown c) (ic_queue c) (ic_recent_events c).
Definition is_focused (c : InputController) : bool := ic_focused c && negb (ic_shutdown c).
(** [expire]; [shutdown] is the same. *)
Definition InputController_expire (c : InputController) : InputController :=
  ic_with c false true [] (ic_recent_events c).
Definition clear_pending (c : InputController) : InputController :=
  ic_with c (ic_focused c) (ic_shutdown c) [] [].
Definition try_next_control (c : InputController) : option bytes * InputController :=
  match ic_queue c with
  | [] => (None, c)
  | b :: queue => (Some b, ic_with c (ic_focused c) (ic_shutdown c) queue (ic_recent_events c))
  end.

(** Events of the native window (apps/nexus-client/src/window.rs). *)
Inductive WindowEvent :=
  | Window_FocusChanged (focused : bool) | Window_Focused (focused : bool)
  | Window_Resized (width height : Z) | Window_Closed | Window_Input (input : InputEvent)
  | Window_RenderRequested | Window_RenderRejected.

(** [i64::clamp], which panics ([None]) when the bounds are crossed, and the
    cast [as i32]. *)
Definition i64_clamp (x lo hi : Z) : option Z :=
  if hi <? lo then None else Some (Z.min (Z.max x lo) hi).
Definition as_i32 (x : Z) : Z := (x + 2 ^ 31) mod 2 ^ 32 - 2 ^ 31.

Definition clamp_to_monitor (input : InputEvent) (monitor : MonitorInfo) : option InputEvent :=
  let max_x := mi_origin_x monitor + mi_width monitor - 1 in
  let max_y := mi_origin_y monitor + mi_height monitor - 1 in
  match input with
  | Input_MouseMove x y =>
      x' ← i64_clamp x (mi_origin_x monitor) max_x;
      y' ← i64_clamp y (mi_origin_y monitor) max_y;
      Some (Input_MouseMove (as_i32 x') (as_i32 y'))
  | other => Some other
  end.

(** The loop that forgets the events at least a second old. *)
Fixpoint drop_expired (now : Z) (recent : list Z) : list Z :=
  match recent with
  | timestamp :: rest =>
      if 1000000000 <=? saturating_sub now timestamp then drop_expired now rest else recent
  | [] => []
  end.

Section controller.
Context `{InputProst}.

(** [now] is the clock read by the call; [None] is a panic. *)
Definition enqueue_input (c : InputController) (input : InputEvent) (now : Z) :
    option (result InputControllerError unit * InputController) :=
  if negb (ic_focused c) then Some (Err Controller_NotFocused, c) else
  if ic_queue_capacity c <=? len (ic_queue c) then Some (Err Controller_QueueFull, c) else
  let recent := drop_expired now (ic_recent_events c) in
  let c := ic_with c (ic_focused c) (ic_shutdown c) (ic_queue c) recent in
  if ic_max_events_per_second c <=? len recent then Some (Err Controller_RateLimited, c) else
  bounded ← clamp_to_monitor input (ic_monitor c);
  r ← ClientInputSender_encode bounded;
  match r with
  | Err e => Some (Err (Controller_Encode e), c)
  | Ok encoded =>
      if MAX_INPUT_CONTROL_BYTES <? len encoded then Some (Err Controller_PayloadTooLarge, c)
      else Some (Ok tt, ic_with c (ic_focused c) (ic_shutdown c) (ic_queue c ++ [encoded])
                          (recent ++ [now]))
  end.

Definition handle_window_event (c : InputController) (event : WindowEvent) (now : Z) :
    option (result InputControllerError unit * InputController) :=
  if ic_shutdown c then Some (Err Controller_Shutdown, c) else
  match event with
  | Window_FocusChanged focused | Window_Focused focused => Some (Ok tt, set_focused c focused)
  | Window_Closed => Some (Ok tt, InputController_expire c)
  | Window_Input input => enqueue_input c input now
  | Window_Resized _ _ | Window_RenderRequested | Window_RenderRejected => Some (Ok tt, c)
  end.
End controller.

(** ** What arrives at the host *)

(** The host's handler for the message an event is sent as. *)
Definition host_handle `{InputProst} (e : InputEvent) :
    HostInputHandler → bytes → handler_result :=
  match e with
  | Input_Key _ _ _ _ => handle_key_event
  | Input_Text _ => handle_text_input
  | Input_MouseMove _ _ => handle_mouse_move
  | Input_MouseButton _ _ => handle_mouse_button
  | Input_MouseWheel _ _ => handle_mouse_wheel
  end.

(** Events as the types allow them: modifiers are made by the constants and
    [from_bits]. *)
Definition event_typed (e : InputEvent) : Prop :=
  match e with
  | Input_Key p l _ m => uint 32 p ∧ uint 32 l ∧ uint 4 m
  | Input_Text _ => True
  | Input_MouseMove x y => -2 ^ 31 ≤ x < 2 ^ 31 ∧ -2 ^ 31 ≤ y < 2 ^ 31
  | Input_MouseButton _ _ => True
  | Input_MouseWheel x y => -2 ^ 31 ≤ x < 2 ^ 31 ∧ -2 ^ 31 ≤ y < 2 ^ 31
  end.

Lemma modifiers_from_bits m : uint 4 m → Modifiers_from_bits m = m.
Proof.
  unfold Modifiers_from_bits, uint. intros ?. change 15 with (Z.ones 4).
  rewrite Z.land_ones by lia. by apply Z.mod_small.
Qed.

Lemma sender_frame_ok {M} `{Prost M} (m : M) :
  ClientInputSender_frame m =
    Some (if MAX_CONTROL_MESSAGE_SIZE <? len (prost_encode m)
          then Err (ClientInput_ControlTooLarge (len (prost_encode m)) MAX_CONTROL_MESSAGE_SIZE)
          else Ok (to_be_bytes 4 (len (prost_encode m)) ++ prost_encode m)).
Proof.
  unfold ClientInputSender_frame, encode_framed_control, encode_control.
  by destruct (_ <? _).
Qed.

(** C36. Input end to end.  Every event has a message body that the host's handler of
    that message takes, whatever it handled before: the counter goes up by one, and the
    event it dispatches is exactly the one that was sent.  The client's encoder never
    reaches its unreachable branch; it refuses exactly the events the validator refuses,
    with the validator's error, and of the others exactly those whose body is over 64 KiB,
    with that body's length; for all others it produces the body behind its length in
    four big-endian bytes. *)
Theorem input_reaches_host `{InputProstLaws} (e : InputEvent) (h : HostInputHandler) :
  event_typed e →
  ∃ body,
    host_handle e h body =
      (Ok tt, mkHostInputHandler (wrap 64 (hh_events_received h + 1)) (hh_trace h ++ [e])) ∧
    ClientInputSender_encode e = Some
      match InputEvent_validate e with
      | Err err => Err (ClientInput_Input err)
      | Ok _ => if decide (65536 < len body) then Err (ClientInput_ControlTooLarge (len body) 65536)
                else Ok (to_be_bytes 4 (len body) ++ body)
      end.
Proof.
  intros Ht.
  assert (∀ M (P : Prost M) (m : M), InputEvent_validate e = Ok tt →
    ClientInputSender_frame m = Some
      match InputEvent_validate e with
      | Err err => Err (ClientInput_Input err)
      | Ok _ => if decide (65536 < len (prost_encode m))
                then Err (ClientInput_ControlTooLarge (len (prost_encode m)) 65536)
                else Ok (to_be_bytes 4 (len (prost_encode m)) ++ prost_encode m)
      end) as Hf.
  { intros M P m ->. rewrite sender_frame_ok. change MAX_CONTROL_MESSAGE_SIZE with 65536.
    by destruct (Z.ltb_spec 65536 (len (prost_encode m))); case_decide; try lia. }
  destruct e; cbn [host_handle]; eexists;
    unfold handle_key_event, handle_text_input, handle_mouse_move, handle_mouse_button,
      handle_mouse_wheel; (split; [rewrite prost_decode_encode; cbn|
      unfold ClientInputSender_encode; destruct (InputEvent_validate _) as [[]|err] eqn:Ev;
      [by apply Hf|done]]).
  - cbn in Ht. rewrite modifiers_from_bits by apply Ht. by destruct action.
  - done.
  - done.
  - by destruct button.
  - done.
Qed.

(** ** Codecs that satisfy the laws *)

#[global] Instance KeyEvent_eq_dec : EqDecision KeyEvent. Proof. solve_decision. Defined.
#[global] Instance TextInput_eq_dec : EqDecision TextInput. Proof. solve_decision. Defined.
#[global] Instance MouseMove_eq_dec : EqDecision MouseMove. Proof. solve_decision. Defined.
#[global] Instance ProtoMouseButton_eq_dec : EqDecision ProtoMouseButton.
Proof. solve_decision. Defined.
#[global] Instance MouseWheel_eq_dec : EqDecision MouseWheel. Proof. solve_decision. Defined.

#[global] Instance KeyEvent_countable : Countable KeyEvent.
Proof.
  by refine (inj_countable' (λ k, (key_physical_code k, key_logical_code k, key_pressed k,
    key_modifiers k)) (λ '(a, b, c, d), mkKeyEvent a b c d) _); intros [].
Defined.
#[global] Instance TextInput_countable : Countable TextInput.
Proof. by refine (inj_countable' text_text mkTextInput _); intros []. Defined.
#[global] Instance MouseMove_countable : Countable MouseMove.
Proof.
  by refine (inj_countable' (λ m, (move_x m, move_y m)) (λ '(x, y), mkMouseMove x y) _); intros [].
Defined.
#[global] Instance ProtoMouseButton_countable : Countable ProtoMouseButton.
Proof.
  by refine (inj_countable' (λ m, (button_button m, button_pressed m))
    (λ '(x, y), mkProtoMouseButton x y) _); intros [].
Defined.
#[global] Instance MouseWheel_countable : Countable MouseWheel.
Proof.
  by refine (inj_countable' (λ m, (wheel_delta_x m, wheel_delta_y m))
    (λ '(x, y), mkMouseWheel x y) _); intros [].
Defined.

Definition countable_input : InputProst := {|
  prost_key := countable_prost KeyEvent;
  prost_text := countable_prost TextInput;
  prost_move := countable_prost MouseMove;
  prost_button := countable_prost ProtoMouseButton;
  prost_wheel := countable_prost MouseWheel
|}.
Lemma countable_input_laws : @InputProstLaws countable_input.
Proof. split; apply countable_prost_laws. Qed.

Lemma input_reaches_host_witness :
  ∃ body,
    @ClientInputSender_encode countable_input (Input_Key 30 65 Key_Down 3) =
      Some (Ok (to_be_bytes 4 (len body) ++ body)) ∧
    @host_handle countable_input (Input_Key 30 65 Key_Down 3) HostInputHandler_new body =
      (Ok tt, mkHostInputHandler 1 [Input_Key 30 65 Key_Down 3]).
Proof.
  assert (event_typed (Input_Key 30 65 Key_Down 3)) as Ht by (cbv; intuition discriminate).
  destruct (@input_reaches_host countable_input countable_input_laws
    (Input_Key 30 65 Key_Down 3) HostInputHandler_new Ht) as (body & Hh & He).
  assert (match @ClientInputSender_encode countable_input (Input_Key 30 65 Key_Down 3) with
          | Some (Ok _) => true | _ => false end = true) as Hok by (vm_compute; reflexivity).
  exists body. split; [|exact Hh].
  rewrite He in Hok |- *. cbn in Hok |- *.
  destruct (decide (65536 < len body)); [discriminate Hok|reflexivity].
Defined.

(** ** Runs of the controller *)

Section runs.
Context `{InputProst}.

(** Time-ordered calls.  The ghost state is the times at which inputs were
    accepted since pending input was last cleared, and the latest clock reading. *)
Definition controller_state : Type := InputController * list Z * Z.

Definition window_typed (e : WindowEvent) : Prop :=
  match e with Window_Input i => event_typed i | _ => True end.
Definition accepted_at (e : WindowEvent) (r : result InputControllerError unit) (now : Z) :
    list Z :=
  match e, r with Window_Input _, Ok _ => [now] | _, _ => [] end.

Inductive controller_step : controller_state → controller_state → Prop :=
  | controller_event c acc clk e now r c' :
      clk ≤ now → window_typed e → handle_window_event c e now = Some (r, c') →
      controller_step (c, acc, clk) (c', acc ++ accepted_at e r now, now)
  | controller_take c acc clk : controller_step (c, acc, clk) ((try_next_control c).2, acc, clk)
  | controller_focus c acc clk b : controller_step (c, acc, clk) (set_focused c b, acc, clk)
  | controller_expire c acc clk :
      controller_step (c, acc, clk) (InputController_expire c, acc, clk)
  | controller_clear c acc clk : controller_step (c, acc, clk) (clear_pending c, [], clk).

(** How many inputs were accepted in the second that ends at [t]. *)
Definition in_second (t : Z) (acc : list Z) : list Z :=
  filter (λ a, t - 1000000000 < a ≤ t) acc.

Definition monitor_typed (m : MonitorInfo) : Prop :=
  -2 ^ 31 ≤ mi_origin_x m < 2 ^ 31 ∧ -2 ^ 31 ≤ mi_origin_y m < 2 ^ 31 ∧
  0 < mi_width m < 2 ^ 32 ∧ 0 < mi_height m < 2 ^ 32.

(** A queued control is a valid event, on the monitor if it moves the mouse. *)
Definition on_monitor (m : MonitorInfo) (e : InputEvent) : Prop :=
  match e with
  | Input_MouseMove x y => mi_origin_x m ≤ x < mi_origin_x m + mi_width m ∧
                           mi_origin_y m ≤ y < mi_origin_y m + mi_height m
  | _ => True
  end.
Definition queued_ok (m : MonitorInfo) (b : bytes) : Prop :=
  ∃ e, event_typed e ∧ on_monitor m e ∧ ClientInputSender_encode e = Some (Ok b).

Record controller_ok (c : InputController) (acc : list Z) (clk : Z) : Prop := {
  ct_monitor : monitor_typed (ic_monitor c);
  ct_capacity : len (ic_queue c) ≤ ic_queue_capacity c;
  ct_queue : Forall (queued_ok (ic_monitor c)) (ic_queue c);
  ct_shutdown : ic_shutdown c = true → ic_queue c = [] ∧ ic_focused c = false;
  ct_rate t : len (in_second t acc) ≤ ic_max_events_per_second c;
  ct_recent : ∃ old, acc = old ++ ic_recent_events c ∧ Forall (λ a, a ≤ clk - 1000000000) old;
  ct_clock : Forall (λ a, a ≤ clk) acc
}.

Lemma as_i32_id x : -2 ^ 31 ≤ x < 2 ^ 31 → as_i32 x = x.
Proof. intros ?. unfold as_i32. rewrite Z.mod_small; lia. Qed.

Lemma clamp_spec x o w :
  -2 ^ 31 ≤ x < 2 ^ 31 → -2 ^ 31 ≤ o < 2 ^ 31 → 0 < w →
  ∃ x', i64_clamp x o (o + w - 1) = Some x' ∧ -2 ^ 31 ≤ as_i32 x' < 2 ^ 31 ∧
    o ≤ as_i32 x' < o + w.
Proof.
  intros Hx Ho Hw. unfold i64_clamp. destruct (Z.ltb_spec (o + w - 1) o); [lia|].
  eexists. split; [done|]. rewrite as_i32_id; lia.
Qed.

(** Clamping never panics, never wraps, and lands on the monitor. *)
Lemma clamp_to_monitor_ok m e :
  monitor_typed m → event_typed e →
  ∃ e', clamp_to_monitor e m = Some e' ∧ event_typed e' ∧ on_monitor m e'.
Proof.
  intros (Hx & Hy & Hw & Hh) He. destruct e as [| |x y| |]; try (by eexists).
  destruct He as [He1 He2].
  destruct (clamp_spec x (mi_origin_x m) (mi_width m)) as (x' & Ex & ? & ?); [done|done|lia|].
  destruct (clamp_spec y (mi_origin_y m) (mi_height m)) as (y' & Ey & ? & ?); [done|done|lia|].
  unfold clamp_to_monitor. rewrite Ex, Ey. eexists. split; [done|]. done.
Qed.

Lemma encode_total e : is_Some (ClientInputSender_encode e).
Proof.
  unfold ClientInputSender_encode. destruct (InputEvent_validate e); [|done].
  destruct e; rewrite sender_frame_ok; done.
Qed.

Lemma drop_expired_spec now recent :
  ∃ old, recent = old ++ drop_expired now recent ∧ Forall (λ a, a ≤ now - 1000000000) old.
Proof.
  induction recent as [|t recent (old & E & Hold)]; [by exists []|]. cbn [drop_expired].
  destruct (Z.leb_spec 1000000000 (saturating_sub now t)); [|by exists []].
  exists (t :: old). split; [cbn; congruence|]. constructor; [|done].
  unfold saturating_sub in *. lia.
Qed.

Lemma in_second_app t l k : in_second t (l ++ k) = in_second t l ++ in_second t k.
Proof. apply filter_app. Qed.

Lemma in_second_old t l clk :
  clk ≤ t → Forall (λ a, a ≤ clk - 1000000000) l → in_second t l = [].
Proof.
  intros Ht Hl. unfold in_second. induction Hl as [|a l Ha Hl IH]; [done|].
  rewrite filter_cons_False; [done|lia].
Qed.

Lemma len_in_second t l : len (in_second t l) ≤ len l.
Proof. unfold in_second, len. pose proof (length_filter (λ a, t - 1000000000 < a ≤ t) l). lia. Qed.

(** Accepting one more input keeps the rate in every second. *)
Lemma rate_accept acc old recent now rate t :
  acc = old ++ recent → Forall (λ a, a ≤ now - 1000000000) old → Forall (λ a, a ≤ now) acc →
  len recent < rate → len (in_second t acc) ≤ rate →
  len (in_second t (acc ++ [now])) ≤ rate.
Proof.
  intros -> Hold Hclk Hlen Hrate. rewrite in_second_app.
  destruct (Z.le_gt_cases now t) as [Ht|Ht].
  - rewrite in_second_app, (in_second_old t old now) by done. cbn [app].
    pose proof (len_in_second t recent). pose proof (len_in_second t [now]).
    unfold len in *. rewrite length_app. cbn [length] in *. lia.
  - assert (in_second t [now] = []) as ->.
    { unfold in_second. rewrite filter_cons_False; [done|lia]. }
    by rewrite app_nil_r.
Qed.

(** The fields a run never changes. *)
Definition same_limits (c c' : InputController) : Prop :=
  ic_monitor c' = ic_monitor c ∧ ic_queue_capacity c' = ic_queue_capacity c ∧
  ic_max_events_per_second c' = ic_max_events_per_second c.

(** Time passes, and events that are out of the last second are forgotten. *)
Lemma controller_ok_drop c acc clk now :
  controller_ok c acc clk → clk ≤ now →
  controller_ok (ic_with c (ic_focused c) (ic_shutdown c) (ic_queue c)
    (drop_expired now (ic_recent_events c))) acc now.
Proof.
  intros [Hm Hc Hq Hs Hr (old & E & Hold) Hclk] Hnow.
  destruct (drop_expired_spec now (ic_recent_events c)) as (old' & E' & Hold').
  split; try done; cbn.
  - exists (old ++ old'). rewrite E, <-(assoc_L (++)), <-E'. split; [done|].
    apply Forall_app. split; [|done]. eapply Forall_impl; [exact Hold|]. cbn. lia.
  - eapply Forall_impl; [exact Hclk|]. cbn. lia.
Qed.

Lemma controller_ok_tick c acc clk now :
  controller_ok c acc clk → clk ≤ now → controller_ok c acc now.
Proof.
  intros [Hm Hc Hq Hs Hr (old & E & Hold) Hclk] Hnow. split; try done.
  - exists old. split; [done|]. eapply Forall_impl; [exact Hold|]. cbn. lia.
  - eapply Forall_impl; [exact Hclk|]. cbn. lia.
Qed.

Lemma controller_ok_push c acc now b :
  controller_ok c acc now → ic_shutdown c = false → queued_ok (ic_monitor c) b →
  len (ic_queue c) < ic_queue_capacity c →
  len (ic_recent_events c) < ic_max_events_per_second c →
  controller_ok (ic_with c (ic_focused c) (ic_shutdown c) (ic_queue c ++ [b])
    (ic_recent_events c ++ [now])) (acc ++ [now]) now.
Proof.
  intros [Hm Hc Hq Hs Hr (old & E & Hold) Hclk] Hd Hb Hlen Hrecent. split; cbn; try done.
  - unfold len in *. rewrite length_app. cbn. lia.
  - apply Forall_app. split; [done|]. by constructor.
  - congruence.
  - intros t. by eapply rate_accept.
  - exists old. rewrite E, <-(assoc_L (++)). done.
  - apply Forall_app. split; [done|]. constructor; [lia|constructor].
Qed.

(** An input queued: the window has the focus, and the encoding of the clamped
    event is appended. *)
Definition queues_input (c : InputController) (e : InputEvent) (c' : InputController) : Prop :=
  is_focused c = true ∧ ∃ e' b, clamp_to_monitor e (ic_monitor c) = Some e' ∧
    ClientInputSender_encode e' = Some (Ok b) ∧ ic_queue c' = ic_queue c ++ [b].

(** [enqueue_input] never panics, keeps the invariant, and an accepted input was
    given to a focused window and is queued as the encoding of the clamped event. *)
Lemma enqueue_input_ok c acc clk e now :
  controller_ok c acc clk → clk ≤ now → event_typed e → ic_shutdown c = false →
  ∃ r c', enqueue_input c e now = Some (r, c') ∧ same_limits c c' ∧
    controller_ok c' (acc ++ accepted_at (Window_Input e) r now) now ∧
    (r = Ok tt → queues_input c e c').
Proof.
  intros Hok Hnow He Hs. unfold enqueue_input.
  assert (∀ err c', same_limits c c' → controller_ok c' acc now →
    ∃ r c'', Some (Err err, c') = Some (r, c'') ∧ same_limits c c'' ∧
      controller_ok c'' (acc ++ accepted_at (Window_Input e) r now) now ∧
      (r = Ok tt → queues_input c e c'')) as Herr.
  { intros err c' ? ?. exists (Err err), c'. cbn. rewrite app_nil_r. done. }
  pose proof (controller_ok_tick _ _ _ _ Hok Hnow) as Hok1.
  pose proof (controller_ok_drop _ _ _ _ Hok Hnow) as Hok2.
  destruct (ic_focused c) eqn:Ef; cbn [negb]; [|by apply Herr].
  destruct (Z.leb_spec (ic_queue_capacity c) (len (ic_queue c))); [by apply Herr|].
  set (c1 := ic_with c _ _ _ _) in *.
  destruct (Z.leb_spec (ic_max_events_per_second c1) (len (drop_expired now (ic_recent_events c))));
    [by apply Herr|].
  destruct (clamp_to_monitor_ok (ic_monitor c) e (ct_monitor _ _ _ Hok) He) as (e' & Ec & ? & ?).
  change (ic_monitor c1) with (ic_monitor c). rewrite Ec.
  destruct (encode_total e') as [[b|err] Ee]; cbn [mbind option_bind]; rewrite Ee;
    cbn [mbind option_bind]; [|by apply Herr].
  destruct (_ <? _); [by apply Herr|].
  eexists _, _. split; [done|]. split; [done|]. split.
  - cbn [accepted_at]. apply (controller_ok_push c1); try done. by exists e'.
  - intros _. unfold queues_input, is_focused. rewrite Ef, Hs. split; [done|]. by exists e', b.
Qed.

Lemma handle_window_event_ok c acc clk e now :
  controller_ok c acc clk → clk ≤ now → window_typed e →
  ∃ r c', handle_window_event c e now = Some (r, c') ∧ same_limits c c' ∧
    controller_ok c' (acc ++ accepted_at e r now) now ∧
    (∀ i, e = Window_Input i → r = Ok tt → queues_input c i c').
Proof.
  intros Hok Hnow He. pose proof (controller_ok_tick _ _ _ _ Hok Hnow) as Hok1.
  unfold handle_window_event. destruct (ic_shutdown c) eqn:Es.
  { eexists _, _. split; [done|]. split; [done|]. split; [|done].
    destruct e; cbn; by rewrite app_nil_r. }
  destruct e as [f|f|w h| |i| |].
  5: { destruct (enqueue_input_ok c acc clk i now) as (r & c' & -> & ? & ? & Hr); try done.
       exists r, c'. split_and!; try done. by intros i' [= <-]. }
  all: eexists _, _; split; [done|]; cbn [accepted_at]; rewrite app_nil_r;
    (split; [try done|split; [try done|done]]).
  1,3: unfold set_focused; by rewrite Es.
  1,2: unfold set_focused; rewrite Es; destruct Hok1; split; try done; cbn; congruence.
  destruct Hok1 as [? ? ? ? ? ? ?]. split; try done; cbn.
  unfold len in *. cbn. lia.
Qed.

Definition controller_inv (c0 : InputController) (st : controller_state) : Prop :=
  let '(c, acc, clk) := st in controller_ok c acc clk ∧ same_limits c0 c.

Lemma controller_step_ok c0 st st' :
  controller_step st st' → controller_inv c0 st → 0 ≤ ic_queue_capacity c0 →
  0 ≤ ic_max_events_per_second c0 → controller_inv c0 st'.
Proof.
  intros Hstep Hinv Hcap Hrate. destruct Hstep as [c acc clk e now r c' Hnow He Hh|c acc clk|
    c acc clk b|c acc clk|c acc clk]; destruct Hinv as [Hok Hl]; cbn [controller_inv].
  - destruct (handle_window_event_ok _ _ _ _ _ Hok Hnow He) as (r1 & c1 & E & Hl1 & Hok1 & _).
    rewrite Hh in E. simplify_eq. split; [done|]. unfold same_limits in *. naive_solver congruence.
  - unfold try_next_control. destruct (ic_queue c) as [|b q] eqn:Eq; [done|]. split; [|done].
    destruct Hok as [Hm Hc Hq Hs ? ? ?]. rewrite Eq in Hc, Hq. inversion Hq; subst.
    split; try done; cbn; [unfold len in *; cbn in *; lia|].
    intros Hsd. destruct (Hs Hsd). congruence.
  - unfold set_focused. destruct (ic_shutdown c) eqn:Es; [done|]. split; [|done].
    destruct Hok. split; try done; cbn; congruence.
  - split; [|done]. destruct Hok as [Hm Hc Hq Hs Hr Hre Hclk]. split; try done; cbn.
    unfold len in *. cbn. lia.
  - split; [|done]. destruct Hok as [Hm Hc Hq Hs Hr Hre Hclk].
    destruct Hl as (E1 & E2 & E3). split; try done; cbn.
    + unfold len. cbn. lia.
    + intros Hsd. by destruct (Hs Hsd).
    + intros t. unfold len. cbn. lia.
    + by exists [].
Qed.

Lemma rtc_controller_inv c0 st st' :
  rtc controller_step st st' → controller_inv c0 st → 0 ≤ ic_queue_capacity c0 →
  0 ≤ ic_max_events_per_second c0 → controller_inv c0 st'.
Proof. induction 1; eauto using controller_step_ok. Qed.

Lemma with_limits_ok monitor rate cap c clk :
  monitor_typed monitor → 0 ≤ rate → 0 ≤ cap →
  InputController_with_limits monitor rate cap = Ok c →
  controller_ok c [] clk ∧ ic_monitor c = monitor ∧ ic_queue_capacity c = cap ∧
  ic_max_events_per_second c = rate ∧ 1 ≤ cap ≤ 1024 ∧ 1 ≤ rate ≤ 4096.
Proof.
  intros Hm Hrate Hcap. unfold InputController_with_limits.
  destruct (MonitorInfo_validate monitor) as [[]|]; cbn; [|done].
  unfold MAX_INPUT_QUEUE_CAPACITY, MAX_INPUT_RATE_PER_SECOND.
  destruct (_ || _) eqn:E1; [done|]. destruct ((rate =? 0) || _) eqn:E2; [done|].
  intros [= <-]. bool_hyps. split_and!; try done; cbn; try lia.
  split; try done. by exists [].
Qed.
End runs.

(** The input controller, over any time-ordered sequence of window events,
    focus changes, dequeues, clearings and shutdowns on a new controller: at most
    [cap] controls are pending; in no second are more than [rate] inputs accepted
    (counting from the last clearing for a lost transport); every pending control
    is the frame of a valid event, with mouse positions on the monitor; after
    shutdown nothing is pending.  Handling an event never panics, and an accepted
    input was given to a focused, running controller, which appends exactly the
    frame of that event clamped to the monitor. *)
Theorem input_controller_bounds `{InputProst} monitor rate cap c0 c acc clk0 clk :
  monitor_typed monitor → 0 ≤ rate → 0 ≤ cap →
  InputController_with_limits monitor rate cap = Ok c0 →
  rtc controller_step (c0, [], clk0) (c, acc, clk) →
  len (ic_queue c) ≤ cap ≤ 1024 ∧ rate ≤ 4096 ∧
  (∀ t, len (in_second t acc) ≤ rate) ∧
  Forall (queued_ok monitor) (ic_queue c) ∧
  (ic_shutdown c = true → ic_queue c = [] ∧ ic_focused c = false) ∧
  (∀ e now, clk ≤ now → window_typed e →
     ∃ r c', handle_window_event c e now = Some (r, c') ∧
       ∀ i, e = Window_Input i → r = Ok tt → queues_input c i c').
Proof.
  intros Hm Hrate Hcap Hnew Hrun.
  destruct (with_limits_ok _ _ _ _ clk0 Hm Hrate Hcap Hnew) as (Hok0 & Em & Ec & Er & ? & ?).
  assert (controller_inv c0 (c, acc, clk)) as [Hok (Em' & Ec' & Er')].
  { eapply rtc_controller_inv; [exact Hrun|done|lia|lia]. }
  pose proof Hok as [? Hc Hq Hs Hr ? ?]. rewrite Em', Em in Hq.
  split_and!; try done; try lia.
  - intros t. rewrite <-Er, <-Er'. apply Hr.
  - intros e now Hnow He.
    destruct (handle_window_event_ok c acc clk e now) as (r & c' & ? & _ & _ & ?);
      [done..|]. by exists r, c'.
Qed.

Definition sample_monitor : MonitorInfo := mkMonitorInfo 1 (-100) 0 1920 1080 1065353216.
Definition sample_controller : InputController :=
  mkInputController sample_monitor false false [] 64 240 [].

Lemma input_controller_bounds_witness :
  ∃ r c', @handle_window_event countable_input (set_focused sample_controller true)
    (Window_Input (Input_MouseMove 5000 20)) 5 = Some (r, c').
Proof.
  assert (monitor_typed sample_monitor) as Hm by (cbv; intuition discriminate).
  destruct (@input_controller_bounds countable_input sample_monitor 240 64 sample_controller
    (set_focused sample_controller true) [] 0 0 Hm) as (_ & _ & _ & _ & _ & Hh);
    [lia|lia|reflexivity|eapply rtc_l; [apply controller_focus|apply rtc_refl]|].
  destruct (Hh (Window_Input (Input_MouseMove 5000 20)) 5) as (r & c' & E & _);
    [lia|cbn; lia|].
  exists r, c'. exact E.
Defined.
