(* ===== verification/Agent.v ===== *)
(** * The host agent's session manager (apps/nexus-agent/src/session_manager.rs)

    The agent verifies the capability of a connecting client and registers the
    session.  The two clocks the code reads ([SystemClock.now()] in seconds,
    [Instant::now()] in nanoseconds) are arguments. *)

From S2P Require Import Prelude Crypto Common SessionState Replay Protocol Verifier.

Open Scope list_scope.
Open Scope Z_scope.

(** [Protocol] carries a text made of the identifier error; it is that error. *)
Inductive SessionHandlerError :=
  | Agent_Capability (e : CapabilityVerificationError)
  | Agent_SessionAlreadyActive (session_id : string)
  | Agent_SessionNotFound (session_id : string)
  | Agent_Protocol (e : IdError).

Record HostSession := mkHostSession {
  hs_session_id : string;
  hs_capability : SessionCapability;
  hs_negotiated_protocol : Z;
  hs_established_at : Z;
  hs_state : SessionState
}.

Record AgentSessionManager := mkAgentSessionManager {
  am_verifying_key : bytes;
  am_target_device_id : string;
  am_verifier : CapabilityVerifier;
  am_active_sessions : gmap string HostSession
}.

Definition AgentSessionManager_new (key : bytes) (target_device_id : string) :
    AgentSessionManager :=
  mkAgentSessionManager key target_device_id
    (with_target_device_id (CapabilityVerifier_new key (Duration_from_secs 120) 10000)
       target_device_id) ∅.

Definition am_with (m : AgentSessionManager) (v : CapabilityVerifier)
    (sessions : gmap string HostSession) : AgentSessionManager :=
  mkAgentSessionManager (am_verifying_key m) (am_target_device_id m) v sessions.

Definition agent_session_count (m : AgentSessionManager) : nat := size (am_active_sessions m).

Definition terminate_session (m : AgentSessionManager) (session_id : string) :
    result SessionHandlerError HostSession * AgentSessionManager :=
  match am_active_sessions m !! session_id with
  | Some s => (Ok s, am_with m (am_verifier m) (delete session_id (am_active_sessions m)))
  | None => (Err (Agent_SessionNotFound session_id), m)
  end.

Section agent.
Context `{Ed25519, Prost SessionCapability}.
Context (dalek_error : string).

Definition verify_and_accept_session (m : AgentSessionManager) (cap : SessionCapability)
    (negotiated_protocol now inst_now : Z) :
    result SessionHandlerError HostSession * AgentSessionManager :=
  match CapabilityVerifier_verify dalek_error (am_verifier m) cap negotiated_protocol now
          inst_now with
  | (Err e, v) => (Err (Agent_Capability e), am_with m v (am_active_sessions m))
  | (Ok _, v) =>
      let m := am_with m v (am_active_sessions m) in
      match Id_new (cap_session_id cap) with
      | Err e => (Err (Agent_Protocol e), m)
      | Ok session_id =>
          match am_active_sessions m !! session_id with
          | Some _ => (Err (Agent_SessionAlreadyActive session_id), m)
          | None =>
              let host_session := mkHostSession session_id cap negotiated_protocol now Active in
              (Ok host_session,
               am_with m v (<[session_id := host_session]> (am_active_sessions m)))
          end
      end
  end.

(** ** Runs *)

(** Calls in the order of the monotonic clock, with any results.  The ghost
    state records the nonce and the instant of every accepted session, and the
    last instant. *)
Definition agent_state : Type := AgentSessionManager * list (bytes * Z) * Z.

Definition accepted_nonce (r : result SessionHandlerError HostSession) (inst : Z) :
    list (bytes * Z) :=
  match r with Ok s => [(cap_nonce (hs_capability s), inst)] | Err _ => [] end.

Inductive agent_step : agent_state → agent_state → Prop :=
  | agent_accept m log last cap negotiated now inst r m' :
      last ≤ inst → verify_and_accept_session m cap negotiated now inst = (r, m') →
      agent_step (m, log, last) (m', accepted_nonce r inst ++ log, inst)
  | agent_terminate m log last sid :
      agent_step (m, log, last) ((terminate_session m sid).2, log, last).

(** A registered session: its capability was valid for this device, at the time
    it was established and under the negotiated version, and signed. *)
Record session_authorised (key : bytes) (target id : string) (s : HostSession) : Prop := {
  sa_id : hs_session_id s = id ∧ cap_session_id (hs_capability s) = id;
  sa_state : hs_state s = Active;
  sa_claims : claims_hold (Some target) (hs_capability s) (hs_negotiated_protocol s)
                (hs_established_at s);
  sa_length : len (cap_signature (hs_capability s)) = 64;
  sa_signature : ed_verify key (SessionCapability_signing_bytes (hs_capability s))
                   (cap_signature (hs_capability s)) = true
}.

Definition AGENT_WINDOW : Z := Duration_from_secs 120.

Record agent_ok (key : bytes) (target : string) (m : AgentSessionManager)
    (log : list (bytes * Z)) (last : Z) : Prop := {
  ao_key : cv_verifying_key (am_verifier m) = key;
  ao_target : cv_target_device_id (am_verifier m) = Some target;
  ao_sessions id s : am_active_sessions m !! id = Some s → session_authorised key target id s;
  ao_window : ∃ window last', log ⊆ window ∧ last' ≤ last ∧
    refines AGENT_WINDOW 10000 (cv_replay_cache (am_verifier m)) window last'
}.

Lemma agent_new_ok key target last :
  agent_ok key target (AgentSessionManager_new key target) [] last.
Proof. split; [done|done|done|]. exists [], last. split_and!; try done. by split; constructor. Qed.

(** What a call decides, and that an accepted nonce was not accepted within the
    window. *)
Lemma accept_step_ok key target m log last cap negotiated now inst r m' :
  agent_ok key target m log last → last ≤ inst →
  verify_and_accept_session m cap negotiated now inst = (r, m') →
  agent_ok key target m' (accepted_nonce r inst ++ log) inst ∧
  match r with
  | Ok s => s = mkHostSession (cap_session_id cap) cap negotiated now Active ∧
      am_active_sessions m !! cap_session_id cap = None ∧
      am_active_sessions m' = <[cap_session_id cap := s]> (am_active_sessions m) ∧
      session_authorised key target (cap_session_id cap) s ∧
      ∀ t, (cap_nonce cap, t) ∈ log → AGENT_WINDOW ≤ inst - t
  | Err _ => am_active_sessions m' = am_active_sessions m
  end.
Proof.
  intros [Hk Ht Hs (w & last' & Hsub & Hl & Href)] Hle. unfold verify_and_accept_session.
  destruct (verify_window dalek_error AGENT_WINDOW 10000 (am_verifier m) w last'
    (mkAttempt cap negotiated now inst)) as (w' & l' & Hw & Hl' & Href' & Hnew); [done|done|cbn; lia|].
  pose proof (verify_frame dalek_error (am_verifier m) cap negotiated now inst) as [Ek Et].
  pose proof (verify_ok_iff dalek_error (am_verifier m) cap negotiated now inst) as Hiff.
  cbn [at_capability at_negotiated at_now at_instant] in *.
  destruct (CapabilityVerifier_verify _ _ _ _ _ _) as [o v]. cbn [fst snd] in *.
  assert (∀ log' sessions, log' ⊆ w' →
    (∀ id s, sessions !! id = Some s → session_authorised key target id s) →
    agent_ok key target (am_with m v sessions) log' inst) as Hok.
  { intros log' sessions Hlog' Hsess. split; cbn; [congruence|congruence|done|].
    exists w', l'. done. }
  assert (agent_ok key target (am_with m v (am_active_sessions m)) log inst) as Hrej
    by (apply Hok; [by etrans|done]).
  destruct o as [[]|e]; [|by intros [= <- <-]].
  destruct (proj1 Hiff eq_refl) as (Hclaims & _ & Hlen & Hsig).
  destruct (Hnew eq_refl) as [Hin Hspaced].
  destruct (Id_new (cap_session_id cap)) as [sid|] eqn:Eid; [|by intros [= <- <-]].
  assert (sid = cap_session_id cap) as ->.
  { unfold Id_new in Eid. destruct (validate_id _); cbn in Eid; congruence. }
  cbn [am_active_sessions am_with]. destruct (am_active_sessions m !! _) eqn:El;
    intros [= <- <-]; [done|].
  assert (session_authorised key target (cap_session_id cap)
    (mkHostSession (cap_session_id cap) cap negotiated now Active)) as Hauth.
  { split; cbn; [done|done| |done|by rewrite <-Hk]. by rewrite <-Ht. }
  split; [apply Hok|]; cbn.
  - intros x [->|Hx]%elem_of_cons; [done|]. apply Hw, Hsub, Hx.
  - intros id s. destruct (decide (id = cap_session_id cap)) as [->|Hne].
    + rewrite lookup_insert_eq. by intros [= <-].
    + rewrite lookup_insert_ne by done. apply Hs.
  - split_and!; try done. intros t Hin'. apply Hspaced, Hsub, Hin'.
Qed.

Lemma terminate_step_ok key target m log last sid :
  agent_ok key target m log last → agent_ok key target (terminate_session m sid).2 log last.
Proof.
  intros [Hk Ht Hs Hw]. unfold terminate_session.
  destruct (am_active_sessions m !! sid) eqn:E; [|by split]. split; cbn; try done.
  intros id s [_ ?]%lookup_delete_Some. by apply Hs.
Qed.

Lemma agent_run_ok key target st st' :
  rtc agent_step st st' → agent_ok key target st.1.1 st.1.2 st.2 →
  agent_ok key target st'.1.1 st'.1.2 st'.2.
Proof.
  induction 1 as [|st1 st2 st3 Hstep _ IH]; [done|]. intros Hok. apply IH.
  destruct Hstep; cbn in *; [by eapply accept_step_ok|by apply terminate_step_ok].
Qed.
End agent.

(** C9. The agent admits only authorised sessions.  After any calls, in the
    order of the monotonic clock and with any outcomes: every registered session
    is active under its capability's own session id, and its capability was well
    formed, for this device, within its validity and protocol range when the
    session was established, and signed by the control plane.  A call registers a
    session only under an id that is not registered, with a nonce that no session
    was accepted with in the preceding 120 seconds; a refused call leaves the
    registered sessions as they were; termination removes exactly the session it
    returns. *)
Theorem agent_sessions_authorised `{Ed25519, Prost SessionCapability} err key target start m log
    last cap negotiated now inst sid :
  rtc (agent_step err) (AgentSessionManager_new key target, [], start) (m, log, last) →
  last ≤ inst →
  (∀ id s, am_active_sessions m !! id = Some s → session_authorised key target id s) ∧
  (let '(r, m') := verify_and_accept_session err m cap negotiated now inst in
   match r with
   | Ok s => s = mkHostSession (cap_session_id cap) cap negotiated now Active ∧
       am_active_sessions m !! cap_session_id cap = None ∧
       am_active_sessions m' = <[cap_session_id cap := s]> (am_active_sessions m) ∧
       session_authorised key target (cap_session_id cap) s ∧
       ∀ t, (cap_nonce cap, t) ∈ log → 120 * 1000000000 ≤ inst - t
   | Err _ => am_active_sessions m' = am_active_sessions m
   end) ∧
  match terminate_session m sid with
  | (Ok s, m') => am_active_sessions m !! sid = Some s ∧
      am_active_sessions m' = delete sid (am_active_sessions m)
  | (Err _, m') => am_active_sessions m !! sid = None ∧ m' = m
  end.
Proof.
  intros Hrun Hle.
  assert (agent_ok key target m log last) as Hok.
  { apply (agent_run_ok err key target _ _ Hrun). apply agent_new_ok. }
  split_and!.
  - apply (ao_sessions _ _ _ _ _ Hok).
  - destruct (verify_and_accept_session err m cap negotiated now inst) as [r m'] eqn:E.
    by apply (accept_step_ok err key target m log last cap negotiated now inst r m').
  - unfold terminate_session. by destruct (am_active_sessions m !! sid).
Qed.

Lemma agent_sessions_authorised_witness :
  let m0 := AgentSessionManager_new (replicate 32 x09) "agent-1" in
  let step := @verify_and_accept_session toy_ed25519 (countable_prost SessionCapability) "" in
  ∃ s m1, step m0 (sample_capability good_sig) 1 100 0 = (Ok s, m1) ∧
    @session_authorised toy_ed25519 (countable_prost SessionCapability) (replicate 32 x09)
      "agent-1" "s1" s.
Proof.
  intros m0 step.
  destruct (@agent_sessions_authorised toy_ed25519 (countable_prost SessionCapability) ""
    (replicate 32 x09) "agent-1" 0 m0 [] 0 (sample_capability good_sig) 1 100 0 "s1")
    as (_ & Hstep & _); [apply rtc_refl|lia|].
  assert (is_ok (step m0 (sample_capability good_sig) 1 100 0).1 = true) as Hs
    by (vm_compute; reflexivity).
  unfold step in *.
  destruct (verify_and_accept_session "" m0 (sample_capability good_sig) 1 100 0) as [[s|e] m1];
    [|discriminate Hs].
  exists s, m1. split; [reflexivity|apply Hstep].
Defined.
