(* ===== verification/Storage.v ===== *)
(** * The control plane's store
      (apps/nexusd/src/storage/, migrations/0001_control_plane_foundation.sql)

    The tables of the schema, with their primary and foreign keys, and one
    function per operation.  Every operation that writes runs in one transaction:
    it is a computation on the tables whose result is kept only when it succeeds,
    so an error leaves the tables as they were.  Where the database itself can
    fail, and how, is the argument [fault].  Columns the program never writes are
    left out. *)

From stdpp Require Import sorting.
From S2P Require Import Prelude RustStr Common Crypto Protocol Enrollment AuditLog.

Open Scope string_scope.
Open Scope list_scope.
Open Scope Z_scope.

(** [serde_json::from_slice] beside [to_vec]: reading back what was written. *)
Class SerdeJsonDe (A : Type) := json_from_slice : bytes → result string A.
Class SerdeJsonDeLaws (A : Type) `{SerdeJson A, SerdeJsonDe A} :=
  json_from_to : ∀ a t, json_to_vec a = Ok t → json_from_slice t = Ok a.

(** ** Tables *)

Record TokenRow := mkTokenRow {
  tr_organization_id : string; tr_token_json : bytes; tr_not_before : Z; tr_expires_at : Z;
  tr_max_uses : Z; tr_uses_count : Z
}.
Record DeviceRow := mkDeviceRow {
  dr_organization_id : string; dr_hostname : string; dr_os : string; dr_os_version : string;
  dr_architecture : string; dr_agent_version : string; dr_public_key : bytes;
  dr_status : string; dr_capabilities_json : bytes; dr_created_at : Z
}.
Record CredentialRow := mkCredentialRow {
  cr_organization_id : string; cr_credential_json : bytes; cr_issued_at : Z; cr_expires_at : Z;
  cr_public_key : bytes
}.
Record SessionRow := mkSessionRow {
  sr_organization_id : string; sr_user_id : string; sr_client_device_id : string;
  sr_target_device_id : string; sr_status : string; sr_connection_mode : string;
  sr_relay_id : string; sr_created_at : Z; sr_policy_snapshot_json : bytes
}.
Record AuditRow := mkAuditRow {
  ar_organization_id : string; ar_user_id : option string; ar_device_id : option string;
  ar_session_id : option string; ar_event_type : string; ar_sequence : Z;
  ar_event_json : bytes; ar_previous_hash : bytes; ar_hash : bytes; ar_timestamp : Z
}.

Record Db := mkDb {
  db_organizations : gmap string Z;
  db_tokens : gmap string TokenRow;
  db_devices : gmap string DeviceRow;
  db_credentials : gmap string CredentialRow;
  db_sessions : gmap string SessionRow;
  db_audit_events : gmap string AuditRow
}.
Definition Db_empty : Db := mkDb ∅ ∅ ∅ ∅ ∅ ∅.

Inductive StorageError :=
  | Storage_UnsupportedDriver (driver : string)
  | Storage_InvalidConfig (what : string)
  | Storage_Database
  | Storage_Migration
  | Storage_CorruptRow (what : string)
  | Storage_Serialization (e : string).

(** How the database fails during a transaction: at its start, with a busy lock
    at the update, or at the commit. *)
Inductive db_fault := Db_works | Db_fails_at_start | Db_busy | Db_fails_at_commit.
#[global] Instance db_fault_eq_dec : EqDecision db_fault.
Proof. solve_decision. Defined.

Definition transaction {E A} (db : Db) (body : result E (A * Db)) : result E A * Db :=
  match body with Ok (a, db') => (Ok a, db') | Err e => (Err e, db) end.

(** [i64::try_from] of a [u64], and [u64::try_from] of an [i64]. *)
Definition to_i64 (what : string) (x : Z) : result StorageError Z :=
  if x <=? 9223372036854775807 then Ok x else Err (Storage_CorruptRow what).
Definition from_i64 (what : string) (x : Z) : result StorageError Z :=
  if 0 <=? x then Ok x else Err (Storage_CorruptRow what).
(** [u32::try_from] of an [i64]. *)
Definition to_u32 (what : string) (x : Z) : result StorageError Z :=
  if (0 <=? x) && (x <=? 4294967295) then Ok x else Err (Storage_CorruptRow what).

(** ** Statements *)

(** [INSERT INTO organizations ... ON CONFLICT(id) DO NOTHING] *)
Definition insert_organization (db : Db) (id : string) (created_at : Z) : Db :=
  match db_organizations db !! id with
  | Some _ => db
  | None => mkDb (<[id := created_at]> (db_organizations db)) (db_tokens db) (db_devices db)
              (db_credentials db) (db_sessions db) (db_audit_events db)
  end.

Definition references_ok {A} (m : gmap string A) (key : string) : bool :=
  bool_decide (is_Some (m !! key)).
Definition references_opt {A} (m : gmap string A) (key : option string) : bool :=
  match key with Some k => references_ok m k | None => true end.

(** [INSERT OR REPLACE INTO enrollment_tokens] *)
Definition replace_token (db : Db) (id : string) (row : TokenRow) : result StorageError Db :=
  if references_ok (db_organizations db) (tr_organization_id row)
  then Ok (mkDb (db_organizations db) (<[id := row]> (db_tokens db)) (db_devices db)
             (db_credentials db) (db_sessions db) (db_audit_events db))
  else Err Storage_Database.

(** [UPDATE enrollment_tokens SET uses_count = uses_count + 1 WHERE token_id = ?
    AND uses_count < max_uses AND expires_at >= ?]: the rows affected. *)
Definition consume_token (db : Db) (id : string) (now : Z) : Z * Db :=
  match db_tokens db !! id with
  | Some row =>
      if (tr_uses_count row <? tr_max_uses row) && (now <=? tr_expires_at row)
      then (1, mkDb (db_organizations db)
                 (<[id := mkTokenRow (tr_organization_id row) (tr_token_json row)
                            (tr_not_before row) (tr_expires_at row) (tr_max_uses row)
                            (tr_uses_count row + 1)]> (db_tokens db))
                 (db_devices db) (db_credentials db) (db_sessions db) (db_audit_events db))
      else (0, db)
  | None => (0, db)
  end.

(** Plain inserts fail on a duplicate primary key or a dangling reference. *)
Definition insert_device_row (db : Db) (id : string) (row : DeviceRow) :
    result StorageError Db :=
  if references_ok (db_devices db) id ||
     negb (references_ok (db_organizations db) (dr_organization_id row))
  then Err Storage_Database
  else Ok (mkDb (db_organizations db) (db_tokens db) (<[id := row]> (db_devices db))
             (db_credentials db) (db_sessions db) (db_audit_events db)).
Definition insert_credential_row (db : Db) (id : string) (row : CredentialRow) :
    result StorageError Db :=
  if references_ok (db_credentials db) id || negb (references_ok (db_devices db) id) ||
     negb (references_ok (db_organizations db) (cr_organization_id row))
  then Err Storage_Database
  else Ok (mkDb (db_organizations db) (db_tokens db) (db_devices db)
             (<[id := row]> (db_credentials db)) (db_sessions db) (db_audit_events db)).
Definition insert_session_row (db : Db) (id : string) (row : SessionRow) :
    result StorageError Db :=
  if references_ok (db_sessions db) id ||
     negb (references_ok (db_devices db) (sr_target_device_id row)) ||
     negb (references_ok (db_organizations db) (sr_organization_id row))
  then Err Storage_Database
  else Ok (mkDb (db_organizations db) (db_tokens db) (db_devices db) (db_credentials db)
             (<[id := row]> (db_sessions db)) (db_audit_events db)).
Definition insert_audit_row (db : Db) (id : string) (row : AuditRow) : result StorageError Db :=
  if references_ok (db_audit_events db) id ||
     negb (references_ok (db_organizations db) (ar_organization_id row)) ||
     negb (references_opt (db_devices db) (ar_device_id row)) ||
     negb (references_opt (db_sessions db) (ar_session_id row))
  then Err Storage_Database
  else Ok (mkDb (db_organizations db) (db_tokens db) (db_devices db) (db_credentials db)
             (db_sessions db) (<[id := row]> (db_audit_events db))).

(** ** Devices and enrollment *)

Record RegisteredDevice := mkRegisteredDevice {
  rd_credential : DeviceCredential; rd_hostname : string; rd_agent_version : string;
  rd_enrolled_at : Z; rd_is_active : bool
}.

Inductive EnrollmentError :=
  | Enrollment_NotFound (token_id : string)
  | Enrollment_Expired (expired_at current_time : Z)
  | Enrollment_NotYetActive (not_before current_time : Z)
  | Enrollment_Exhausted (token_id : string) (uses_count max_uses : Z)
  | Enrollment_Storage (e : StorageError).

Definition check_fault {E} (fault at_ : db_fault) (e : E) : result E unit :=
  if bool_decide (fault = at_) then Err e else Ok tt.

Section enrollment.
Context `{SerdeJson EnrollmentToken, SerdeJsonDe EnrollmentToken}.
Context `{SerdeJson DeviceCredential, SerdeJsonDe DeviceCredential}.
Context `{SerdeJson (list string), SerdeJsonDe (list string)}.

Definition store_enrollment_token (db : Db) (token : EnrollmentToken) (fault : db_fault) :
    result StorageError unit * Db :=
  transaction db (
    json ← map_err Storage_Serialization (json_to_vec token);
    _ ← check_fault fault Db_fails_at_start Storage_Database;
    not_before ← to_i64 "not_before" (tok_not_before token);
    let db := insert_organization db (tok_organization_id token) not_before in
    expires_at ← to_i64 "expires_at" (tok_expires_at token);
    db ← replace_token db (tok_token_id token)
           (mkTokenRow (tok_organization_id token) json not_before expires_at
              (tok_max_uses token) 0);
    _ ← check_fault fault Db_fails_at_commit Storage_Database;
    Ok (tt, db)).

(** The text of the deserializer's error is left out of [CorruptRow]. *)
Definition read_token (row : TokenRow) :
    result StorageError (EnrollmentToken * Z * Z * Z * Z) :=
  token ← map_err (λ _, Storage_CorruptRow "token_json") (json_from_slice (tr_token_json row));
  not_before ← from_i64 "not_before" (tr_not_before row);
  expires_at ← from_i64 "expires_at" (tr_expires_at row);
  uses ← to_u32 "uses_count" (tr_uses_count row);
  max ← to_u32 "max_uses" (tr_max_uses row);
  Ok (token, not_before, expires_at, uses, max).

(** The inserts at the end of the transaction. *)
Definition register_device (db : Db) (device : RegisteredDevice) : result StorageError Db :=
  let cred := rd_credential device in
  cred_json ← map_err Storage_Serialization (json_to_vec cred);
  enrolled_at ← to_i64 "enrolled_at" (rd_enrolled_at device);
  let db := insert_organization db (cred_organization_id cred) enrolled_at in
  capabilities ← map_err Storage_Serialization (json_to_vec (cred_capabilities cred));
  db ← insert_device_row db (cred_device_id cred)
         (mkDeviceRow (cred_organization_id cred) (rd_hostname device) (cred_os cred) ""
            (cred_architecture cred) (rd_agent_version device) (cred_public_key cred)
            (if rd_is_active device then "active" else "revoked") capabilities enrolled_at);
  issued_at ← to_i64 "issued_at" (cred_issued_at cred);
  expires_at ← to_i64 "expires_at" (cred_expires_at cred);
  insert_credential_row db (cred_device_id cred)
    (mkCredentialRow (cred_organization_id cred) cred_json issued_at expires_at
       (cred_public_key cred)).

Definition enroll_device (db : Db) (token_id : string) (now : Z) (device : RegisteredDevice)
    (fault : db_fault) : result EnrollmentError EnrollmentToken * Db :=
  transaction db (
    _ ← check_fault fault Db_fails_at_start (Enrollment_Storage Storage_Database);
    row ← ok_or (db_tokens db !! token_id) (Enrollment_NotFound token_id);
    '(token, not_before, expires_at, uses, max) ← map_err Enrollment_Storage (read_token row);
    if now <? not_before then Err (Enrollment_NotYetActive not_before now) else
    if expires_at <? now then Err (Enrollment_Expired expires_at now) else
    if max <=? uses then Err (Enrollment_Exhausted token_id uses max) else
    current_time ← map_err Enrollment_Storage (to_i64 "current_time" now);
    _ ← check_fault fault Db_busy (Enrollment_Exhausted token_id uses max);
    let (rows_affected, db) := consume_token db token_id current_time in
    if negb (rows_affected =? 1) then Err (Enrollment_Exhausted token_id uses max) else
    if negb (str_eqb (cred_organization_id (rd_credential device)) (tok_organization_id token))
    then Err (Enrollment_Storage (Storage_CorruptRow "organization_id mismatch")) else
    db ← map_err Enrollment_Storage (register_device db device);
    _ ← check_fault fault Db_fails_at_commit (Enrollment_Storage Storage_Database);
    Ok (token, db)).

(** [device_from_row] of the join of [devices] and [device_credentials]. *)
Definition device_from_row (id : string) (d : DeviceRow) (c : CredentialRow) :
    result StorageError RegisteredDevice :=
  device_id ← map_err (λ _, Storage_CorruptRow "device_id") (Id_new id);
  organization_id ← map_err (λ _, Storage_CorruptRow "organization_id")
                      (Id_new (dr_organization_id d));
  credential ← map_err (λ _, Storage_CorruptRow "credential_json")
                 (json_from_slice (cr_credential_json c));
  if negb (str_eqb (cred_device_id credential) device_id)
  then Err (Storage_CorruptRow "credential.device_id") else
  if negb (str_eqb (cred_organization_id credential) organization_id)
  then Err (Storage_CorruptRow "credential.organization_id") else
  enrolled_at ← from_i64 "created_at" (dr_created_at d);
  is_active ← (if str_eqb (dr_status d) "active" then Ok true else
               if str_eqb (dr_status d) "revoked" then Ok false else
               Err (Storage_CorruptRow "status"));
  Ok (mkRegisteredDevice credential (dr_hostname d) (dr_agent_version d) enrolled_at is_active).

Definition get_device (db : Db) (device_id : string) (fault : db_fault) :
    result StorageError (option RegisteredDevice) :=
  _ ← check_fault fault Db_fails_at_start Storage_Database;
  match db_devices db !! device_id, db_credentials db !! device_id with
  | Some d, Some c => Some <$> device_from_row device_id d c
  | _, _ => Ok None
  end.
End enrollment.

(** ** Sessions and audit events *)

Record AuthorizedSessionRecord := mkAuthorizedSessionRecord {
  as_session_id : string; as_organization_id : string; as_user_id : string;
  as_client_device_id : string; as_target_device_id : string; as_relay_id : string;
  as_permissions : list string; as_created_at : Z; as_status : string
}.

Section sessions.
Context `{SerdeJson (list string), SerdeJsonDe (list string)}.

Definition insert_authorized_session (db : Db) (r : AuthorizedSessionRecord)
    (fault : db_fault) : result StorageError unit * Db :=
  if negb (str_eqb (as_status r) "authorized")
  then (Err (Storage_CorruptRow "session status must be authorized"), db) else
  transaction db (
    policy ← map_err Storage_Serialization (json_to_vec (as_permissions r));
    _ ← check_fault fault Db_fails_at_start Storage_Database;
    created_at ← to_i64 "created_at" (as_created_at r);
    let db := insert_organization db (as_organization_id r) created_at in
    db ← insert_session_row db (as_session_id r)
           (mkSessionRow (as_organization_id r) (as_user_id r) (as_client_device_id r)
              (as_target_device_id r) "authorized" "relay" (as_relay_id r) created_at policy);
    _ ← check_fault fault Db_fails_at_commit Storage_Database;
    Ok (tt, db)).

Definition get_session_record (db : Db) (session_id : string) (fault : db_fault) :
    result StorageError (option AuthorizedSessionRecord) :=
  _ ← check_fault fault Db_fails_at_start Storage_Database;
  match db_sessions db !! session_id with
  | None => Ok None
  | Some r =>
      sid ← map_err (λ _, Storage_CorruptRow "id") (Id_new session_id);
      org ← map_err (λ _, Storage_CorruptRow "organization_id") (Id_new (sr_organization_id r));
      user ← map_err (λ _, Storage_CorruptRow "user_id") (Id_new (sr_user_id r));
      client ← map_err (λ _, Storage_CorruptRow "client_device_id")
                 (Id_new (sr_client_device_id r));
      target ← map_err (λ _, Storage_CorruptRow "target_device_id")
                 (Id_new (sr_target_device_id r));
      if negb (str_eqb (sr_status r) "authorized") then Err (Storage_CorruptRow "status") else
      if negb (str_eqb (sr_connection_mode r) "relay")
      then Err (Storage_CorruptRow "connection_mode") else
      created_at ← from_i64 "created_at" (sr_created_at r);
      permissions ← map_err (λ _, Storage_CorruptRow "permissions")
                      (json_from_slice (sr_policy_snapshot_json r));
      Ok (Some (mkAuthorizedSessionRecord sid org user client target (sr_relay_id r)
                  permissions created_at (sr_status r)))
  end.
End sessions.

Section audit.
Context {Value : Type} `{SerdeJson (AuditEvent Value)}.

(** [canonical_json] is [canonical_bytes] as text. *)
Definition insert_audit_event (db : Db) (chained : ChainedAuditEvent Value)
    (fault : db_fault) : result StorageError unit * Db :=
  let event := ch_event chained in
  transaction db (
    json ← map_err Storage_Serialization (AuditEvent_canonical_bytes event);
    _ ← check_fault fault Db_fails_at_start Storage_Database;
    timestamp ← to_i64 "timestamp" (ev_timestamp event);
    let db := insert_organization db (ev_organization_id event) timestamp in
    sequence ← to_i64 "sequence" (ch_sequence chained);
    db ← insert_audit_row db (ev_event_id event)
           (mkAuditRow (ev_organization_id event) (ev_user_id event) (ev_device_id event)
              (ev_session_id event) (AuditEventType_as_str (ev_event_type event)) sequence json
              (as_bytes (ch_previous_hash chained)) (as_bytes (ch_hash chained)) timestamp);
    _ ← check_fault fault Db_fails_at_commit Storage_Database;
    Ok (tt, db)).

(** A row of [list_audit_events]; the text of an error of the database or of the
    deserializer is left out. *)
Definition audit_event_from_row `{SerdeJsonDe (AuditEvent Value)} (organization_id id : string)
    (r : AuditRow) : result StorageError (ChainedAuditEvent Value) :=
  seq ← from_i64 "sequence" (ar_sequence r);
  event ← map_err (λ _, Storage_CorruptRow "event_json") (json_from_slice (ar_event_json r));
  if negb (str_eqb (ev_event_id event) id) ||
     negb (str_eqb (ev_organization_id event) organization_id)
  then Err (Storage_CorruptRow "event columns inconsistent") else
  stored_ts ← from_i64 "timestamp" (ar_timestamp r);
  if negb (ev_timestamp event =? stored_ts) ||
     negb (str_eqb (ev_organization_id event) organization_id)
  then Err (Storage_CorruptRow "timestamp/organization_id") else
  if negb (bool_decide (ar_user_id r = ev_user_id event))
  then Err (Storage_CorruptRow "user_id") else
  if negb (bool_decide (ar_device_id r = ev_device_id event))
  then Err (Storage_CorruptRow "device_id") else
  if negb (bool_decide (ar_session_id r = ev_session_id event))
  then Err (Storage_CorruptRow "session_id") else
  et ← map_err (λ _, Storage_CorruptRow "event_type") (AuditEventType_from_str (ar_event_type r));
  if negb (bool_decide (ev_event_type event = et))
  then Err (Storage_CorruptRow "event_type") else
  prev ← ok_or (from_utf8 (ar_previous_hash r)) (Storage_CorruptRow "previous_hash");
  hash ← ok_or (from_utf8 (ar_hash r)) (Storage_CorruptRow "hash");
  Ok (mkChainedAuditEvent seq event prev hash).

(** [SELECT * FROM audit_events WHERE organization_id = ? ORDER BY sequence]; rows
    with the same sequence number come in an order the statement leaves open. *)
Definition row_le (a b : string * AuditRow) : Prop := ar_sequence a.2 ≤ ar_sequence b.2.
#[global] Instance row_le_dec : RelDecision row_le := λ a b, Z_le_dec _ _.
Definition select_audit_rows (db : Db) (organization_id : string) : list (string * AuditRow) :=
  merge_sort row_le
    (filter (λ r, ar_organization_id r.2 = organization_id) (map_to_list (db_audit_events db))).
Definition list_audit_events `{SerdeJsonDe (AuditEvent Value)} (db : Db)
    (organization_id : string) (fault : db_fault) :
    result StorageError (list (ChainedAuditEvent Value)) :=
  _ ← check_fault fault Db_fails_at_start Storage_Database;
  mapM (λ r, audit_event_from_row organization_id r.1 r.2) (select_audit_rows db organization_id).
End audit.

(** ** Transactions *)

Lemma transaction_ok {E A} (db db' : Db) (body : result E (A * Db)) (a : A) :
  transaction db body = (Ok a, db') → body = Ok (a, db').
Proof. unfold transaction. destruct body as [[]|]; naive_solver. Qed.
Lemma transaction_err {E A} (db db' : Db) (body : result E (A * Db)) e :
  transaction db body = (Err e, db') → body = Err e ∧ db' = db.
Proof. unfold transaction. destruct body as [[]|]; naive_solver. Qed.

Lemma check_fault_ok {E} fault at_ (e : E) u :
  check_fault fault at_ e = Ok u → fault ≠ at_.
Proof. unfold check_fault. by case_bool_decide. Qed.

(** Peels the [?]s off a computation that succeeded. *)
Ltac unbind H :=
  cbv zeta in H;
  repeat match type of H with
  | (_ ≫= _) = Ok _ =>
      let a := fresh "a" in let E := fresh "E" in
      apply result_bind_ok in H as (a & E & H)
  | (let '(_, _) := ?p in _) = Ok _ => destruct p eqn:?
  | (if ?b then Err _ else _) = Ok _ =>
      let E := fresh "E" in destruct b eqn:E; [discriminate H|]
  end.

Lemma to_i64_ok what x y : to_i64 what x = Ok y ↔ y = x ∧ x < 2 ^ 63.
Proof. unfold to_i64. destruct (Z.leb_spec x 9223372036854775807); naive_solver lia. Qed.
Lemma from_i64_ok what x y : from_i64 what x = Ok y ↔ y = x ∧ 0 ≤ x.
Proof. unfold from_i64. destruct (Z.leb_spec 0 x); naive_solver lia. Qed.
Lemma to_u32_ok what x y : to_u32 what x = Ok y ↔ y = x ∧ uint 32 x.
Proof.
  unfold to_u32, uint. destruct (Z.leb_spec 0 x), (Z.leb_spec x 4294967295); cbn;
    naive_solver lia.
Qed.

Lemma insert_organization_frame db id t :
  let db' := insert_organization db id t in
  db_tokens db' = db_tokens db ∧ db_devices db' = db_devices db ∧
  db_credentials db' = db_credentials db ∧ db_sessions db' = db_sessions db ∧
  db_audit_events db' = db_audit_events db ∧
  references_ok (db_organizations db') id = true.
Proof.
  unfold insert_organization, references_ok. destruct (_ !! _) eqn:E; cbn; split_and!; try done.
  - by rewrite bool_decide_eq_true, E.
  - by rewrite bool_decide_eq_true, lookup_insert_eq.
Qed.

(** ** Enrollment *)

Section enrollment_facts.
Context `{SerdeJson EnrollmentToken, SerdeJsonDe EnrollmentToken}.
Context `{SerdeJson DeviceCredential, SerdeJsonDe DeviceCredential}.
Context `{SerdeJson (list string), SerdeJsonDe (list string)}.

(** A registered device: it was not there before, and its two rows are. *)
Lemma register_device_ok db device db' :
  let cred := rd_credential device in let id := cred_device_id cred in
  register_device db device = Ok db' →
  db_devices db !! id = None ∧ db_credentials db !! id = None ∧
  db_tokens db' = db_tokens db ∧ db_sessions db' = db_sessions db ∧
  db_audit_events db' = db_audit_events db ∧
  ∃ cred_json capabilities,
    json_to_vec cred = Ok cred_json ∧
    db_devices db' = <[id := mkDeviceRow (cred_organization_id cred) (rd_hostname device)
      (cred_os cred) "" (cred_architecture cred) (rd_agent_version device)
      (cred_public_key cred) (if rd_is_active device then "active" else "revoked")
      capabilities (rd_enrolled_at device)]> (db_devices db) ∧
    db_credentials db' = <[id := mkCredentialRow (cred_organization_id cred) cred_json
      (cred_issued_at cred) (cred_expires_at cred) (cred_public_key cred)]> (db_credentials db).
Proof.
  intros cred id Hr. unfold register_device in Hr. fold cred id in Hr. unbind Hr.
  destruct (insert_organization_frame db (cred_organization_id cred) a0)
    as (F1 & F2 & F3 & F4 & F5 & _).
  rewrite map_err_ok in E. apply to_i64_ok in E0 as [-> _], E3 as [-> _], E4 as [-> _].
  unfold insert_device_row in E2. rewrite F2 in E2. unfold insert_credential_row in Hr.
  destruct (references_ok (db_devices db) id) eqn:Ed; [done|]. destruct (negb _); [done|].
  injection E2 as <-. cbn in Hr. rewrite F3 in Hr.
  destruct (references_ok (db_credentials db) id) eqn:Ec; [done|]. destruct (_ || _); [done|].
  injection Hr as <-. cbn. unfold references_ok in Ed, Ec. bool_hyps.
  rewrite F1, F4, F5, <-!eq_None_not_Some in *.
  split_and!; try done. by eexists _, _.
Qed.

(** What a successful enrollment found and did. *)
Lemma enroll_device_ok db token_id now device fault token db' :
  enroll_device db token_id now device fault = (Ok token, db') →
  ∃ row, db_tokens db !! token_id = Some row ∧
    json_from_slice (tr_token_json row) = Ok token ∧
    tr_not_before row ≤ now ≤ tr_expires_at row ∧ 0 ≤ tr_uses_count row < tr_max_uses row ∧
    cred_organization_id (rd_credential device) = tok_organization_id token ∧
    db_tokens db' = <[token_id := mkTokenRow (tr_organization_id row) (tr_token_json row)
      (tr_not_before row) (tr_expires_at row) (tr_max_uses row) (tr_uses_count row + 1)]>
      (db_tokens db) ∧
    ∃ db1, db_devices db1 = db_devices db ∧
      (db_sessions db1 = db_sessions db ∧ db_audit_events db1 = db_audit_events db) ∧
      register_device db1 device = Ok db'.
Proof.
  intros Ht%transaction_ok. apply result_bind_ok in Ht as (? & _ & Ht).
  apply result_bind_ok in Ht as (row & Erow & Ht). apply ok_or_ok in Erow.
  apply result_bind_ok in Ht as ([[[[tok nb] ex] uses] max] & Eread & Ht).
  rewrite map_err_ok in Eread. unfold read_token in Eread. unbind Eread.
  rewrite map_err_ok in E. injection Eread as -> -> -> -> ->. unbind Ht.
  rewrite map_err_ok in E7.
  apply from_i64_ok in E0 as [-> _], E1 as [-> _].
  apply to_u32_ok in E2 as [-> [? _]], E3 as [-> _]. apply to_i64_ok in E7 as [-> _].
  rewrite map_err_ok in E11. injection Ht as -> ->. bool_hyps.
  unfold consume_token in Heqp. rewrite Erow in Heqp.
  destruct (_ && _); injection Heqp as <- <-; [|done].
  pose proof (register_device_ok _ _ _ E11) as (_ & _ & Et & _). cbn in Et.
  exists row. split_and!; try done; try lia. eexists. split_and!; [| | |exact E11]; done.
Qed.

Lemma store_enrollment_token_ok db token fault db' :
  store_enrollment_token db token fault = (Ok tt, db') →
  ∃ json, json_to_vec token = Ok json ∧
    db_tokens db' = <[tok_token_id token := mkTokenRow (tok_organization_id token) json
      (tok_not_before token) (tok_expires_at token) (tok_max_uses token) 0]> (db_tokens db) ∧
    db_devices db' = db_devices db ∧ db_audit_events db' = db_audit_events db.
Proof.
  intros Ht%transaction_ok. unbind Ht. rewrite map_err_ok in E.
  apply to_i64_ok in E1 as [-> _], E2 as [-> _]. injection Ht as <-.
  unfold replace_token in E3. destruct (references_ok _ _); [|done]. injection E3 as <-.
  destruct (insert_organization_frame db (tok_organization_id token) (tok_not_before token))
    as (F1 & F2 & _ & _ & F3 & _). cbn. rewrite F1, F2, F3. by exists a.
Qed.

(** A device that was just registered is read back as it was given. *)
Lemma get_registered `{!SerdeJsonDeLaws DeviceCredential} db device db' :
  register_device db device = Ok db' →
  Id_new (cred_device_id (rd_credential device)) = Ok (cred_device_id (rd_credential device)) →
  Id_new (cred_organization_id (rd_credential device)) =
    Ok (cred_organization_id (rd_credential device)) →
  0 ≤ rd_enrolled_at device →
  get_device db' (cred_device_id (rd_credential device)) Db_works = Ok (Some device).
Proof.
  intros Hr Hid Horg He.
  apply register_device_ok in Hr as (_ & _ & _ & _ & _ & j & caps & Hj & Ed & Ec).
  unfold get_device. rewrite Ed, Ec, !lookup_insert_eq. cbn [check_fault].
  unfold check_fault. rewrite bool_decide_false by done. cbn [mbind result_bind].
  unfold device_from_row. cbn [dr_organization_id cr_credential_json dr_created_at dr_status
    dr_hostname dr_agent_version].
  rewrite Hid, Horg, (json_from_to _ _ Hj). cbn [mbind result_bind map_err].
  unfold str_eqb. rewrite !bool_decide_true by done. cbn [negb].
  rewrite (proj2 (from_i64_ok _ _ _) (conj eq_refl He)). cbn [mbind result_bind].
  by destruct device as [? ? ? ? []].
Qed.
End enrollment_facts.

(** ** Runs of the store *)

(** What happened to tokens, newest first. *)
Inductive enrollment_event := Stored (token_id : string) | Enrolled (token_id device_id : string).

(** The devices enrolled with a token since it was last stored. *)
Fixpoint enrolled (token_id : string) (log : list enrollment_event) : list string :=
  match log with
  | [] => []
  | Stored t :: log => if str_eqb t token_id then [] else enrolled token_id log
  | Enrolled t d :: log =>
      if str_eqb t token_id then d :: enrolled token_id log else enrolled token_id log
  end.
Definition enrolled_devices (log : list enrollment_event) : list string :=
  omap (λ e, match e with Enrolled _ d => Some d | Stored _ => None end) log.

Section runs.
Context `{SerdeJson EnrollmentToken, SerdeJsonDe EnrollmentToken}.
Context `{SerdeJson DeviceCredential, SerdeJsonDe DeviceCredential}.
Context `{SerdeJson (list string), SerdeJsonDe (list string)}.
Context {Value : Type} `{SerdeJson (AuditEvent Value)}.

(** Operations with any outcome; [max_uses] is a [u32]. *)
Inductive store_step : Db * list enrollment_event → Db * list enrollment_event → Prop :=
  | store_token db log token fault r db' :
      uint 32 (tok_max_uses token) → store_enrollment_token db token fault = (r, db') →
      store_step (db, log) (db', if is_ok r then Stored (tok_token_id token) :: log else log)
  | store_enroll db log token_id now device fault r db' :
      enroll_device db token_id now device fault = (r, db') →
      store_step (db, log) (db',
        if is_ok r then Enrolled token_id (cred_device_id (rd_credential device)) :: log else log)
  | store_session db log record fault r db' :
      insert_authorized_session db record fault = (r, db') → store_step (db, log) (db', log)
  | store_audit db log (event : ChainedAuditEvent Value) fault r db' :
      insert_audit_event db event fault = (r, db') → store_step (db, log) (db', log).

Record store_ok (db : Db) (log : list enrollment_event) : Prop := {
  so_budget id row : db_tokens db !! id = Some row →
    tr_uses_count row = len (enrolled id log) ∧ tr_uses_count row ≤ tr_max_uses row;
  so_known id : db_tokens db !! id = None → enrolled id log = [];
  so_devices id : id ∈ enrolled_devices log → is_Some (db_devices db !! id);
  so_once : NoDup (enrolled_devices log)
}.

Lemma session_frame db record fault r db' :
  insert_authorized_session db record fault = (r, db') →
  db_tokens db' = db_tokens db ∧ db_devices db' = db_devices db ∧
  db_audit_events db' = db_audit_events db.
Proof.
  unfold insert_authorized_session. destruct (negb _); [naive_solver|]. destruct r as [[]|].
  - intros Ht%transaction_ok. unbind Ht. injection Ht as <-.
    unfold insert_session_row in E2. destruct (_ || _); [done|]. injection E2 as <-.
    by destruct (insert_organization_frame db (as_organization_id record) a1)
      as (? & ? & _ & _ & ? & _).
  - intros [_ ->]%transaction_err. done.
Qed.

Lemma audit_frame db (event : ChainedAuditEvent Value) fault r db' :
  insert_audit_event db event fault = (r, db') →
  db_tokens db' = db_tokens db ∧ db_devices db' = db_devices db.
Proof.
  unfold insert_audit_event. destruct r as [[]|].
  - intros Ht%transaction_ok. unbind Ht. injection Ht as <-.
    unfold insert_audit_row in E3. destruct (_ || _); [done|]. injection E3 as <-.
    by destruct (insert_organization_frame db (ev_organization_id (ch_event event)) a1)
      as (? & ? & _).
  - intros [_ ->]%transaction_err. done.
Qed.

Lemma store_ok_frame db log db' :
  store_ok db log → db_tokens db' = db_tokens db → db_devices db' = db_devices db →
  store_ok db' log.
Proof. intros [] E1 E2. by split; rewrite ?E1, ?E2. Qed.

Lemma store_ok_stored db log token fault db' :
  store_ok db log → 0 ≤ tok_max_uses token →
  store_enrollment_token db token fault = (Ok tt, db') →
  store_ok db' (Stored (tok_token_id token) :: log).
Proof.
  intros [Hb Hk Hd Ho] Hmax (json & _ & Et & Ed & _)%store_enrollment_token_ok.
  split; rewrite ?Et, ?Ed; try done.
  - intros id row. cbn [enrolled]. unfold str_eqb. case_bool_decide as Ei.
    + subst. rewrite lookup_insert_eq. by intros [= <-].
    + rewrite lookup_insert_ne by done. apply Hb.
  - intros id. cbn [enrolled]. unfold str_eqb. case_bool_decide as Ei; [done|].
    rewrite lookup_insert_ne by done. apply Hk.
Qed.

Lemma store_ok_enrolled db log token_id now device fault token db' :
  store_ok db log → enroll_device db token_id now device fault = (Ok token, db') →
  store_ok db' (Enrolled token_id (cred_device_id (rd_credential device)) :: log).
Proof.
  intros [Hb Hk Hd Ho] (row & Er & _ & _ & Hu & _ & Et & db1 & Ed1 & _ & Hreg)%enroll_device_ok.
  apply register_device_ok in Hreg as (Hnew & _ & _ & _ & _ & j & c & _ & Ed & _).
  rewrite Ed1 in Hnew, Ed. split.
  - intros id row'. rewrite Et. cbn [enrolled]. unfold str_eqb. case_bool_decide as Ei.
    + subst. rewrite lookup_insert_eq. intros [= <-]. cbn. destruct (Hb _ _ Er) as [E1 _].
      rewrite len_cons. lia.
    + rewrite lookup_insert_ne by done. apply Hb.
  - intros id. rewrite Et. cbn [enrolled]. unfold str_eqb. case_bool_decide as Ei.
    + subst. by rewrite lookup_insert_eq.
    + rewrite lookup_insert_ne by done. apply Hk.
  - intros id. rewrite Ed. cbn. intros [->|Hin]%elem_of_cons; [by rewrite lookup_insert_eq|].
    apply lookup_insert_is_Some'. right. by apply Hd.
  - cbn. apply NoDup_cons. split; [|done]. intros Hin%Hd. rewrite Hnew in Hin. by destruct Hin.
Qed.

Lemma store_step_ok st st' : store_step st st' → store_ok st.1 st.2 → store_ok st'.1 st'.2.
Proof.
  intros Hstep Hok. destruct Hstep as [db log token fault r db' Hm Hs|db log tid now dev fault r db' Hs|
    db log rec fault r db' Hs|db log ev fault r db' Hs]; cbn in *.
  - destruct r as [[]|e]; cbn; [|by apply transaction_err in Hs as [_ ->]].
    eapply store_ok_stored; [done|by destruct Hm|done].
  - destruct r as [token|e]; cbn; [|by apply transaction_err in Hs as [_ ->]].
    by eapply store_ok_enrolled.
  - apply session_frame in Hs as (? & ? & _). by eapply store_ok_frame.
  - apply audit_frame in Hs as [? ?]. by eapply store_ok_frame.
Qed.

(** Devices and sessions are never removed or overwritten. *)
Record grows (db db' : Db) : Prop := {
  gr_devices : db_devices db ⊆ db_devices db';
  gr_sessions : db_sessions db ⊆ db_sessions db'
}.
#[export] Instance grows_preorder : PreOrder grows.
Proof. split; [by split|]. intros ??? [] []. split; by etrans. Qed.

Lemma session_ok db record fault db' :
  insert_authorized_session db record fault = (Ok tt, db') →
  db_sessions db ⊆ db_sessions db' ∧ is_Some (db_sessions db' !! as_session_id record) ∧
  is_Some (db_devices db' !! as_target_device_id record).
Proof.
  unfold insert_authorized_session. destruct (negb _); [done|].
  intros Ht%transaction_ok. unbind Ht. injection Ht as <-.
  destruct (insert_organization_frame db (as_organization_id record) a1) as (_ & F2 & _ & F4 & _).
  unfold insert_session_row in E2. destruct (_ || _) eqn:Eb; [done|]. injection E2 as <-. cbn in *.
  apply orb_false_elim in Eb as [[Es Ed]%orb_false_elim _].
  unfold references_ok in Es, Ed. apply bool_decide_eq_false, eq_None_not_Some in Es.
  apply negb_false_iff, bool_decide_eq_true in Ed. rewrite F2 in Ed. rewrite F4 in *.
  split_and!; [by apply insert_subseteq|by rewrite lookup_insert_eq|by rewrite F2].
Qed.
Lemma store_step_grows st st' : store_step st st' → grows st.1 st'.1.
Proof.
  intros [db log token fault r db' _ Hs|db log tid now dev fault r db' Hs|
    db log rec fault r db' Hs|db log ev fault r db' Hs]; cbn.
  - destruct r as [[]|e]; [|by apply transaction_err in Hs as [_ ->]].
    split; [by apply store_enrollment_token_ok in Hs as (_ & _ & _ & -> & _)|].
    apply transaction_ok in Hs. unbind Hs. injection Hs as <-. unfold replace_token in E3.
    destruct (references_ok _ _); [|done]. injection E3 as <-. cbn.
    by destruct (insert_organization_frame db (tok_organization_id token) a1) as (_ & _ & _ & -> & _).
  - destruct r as [token|e]; [|by apply transaction_err in Hs as [_ ->]].
    apply enroll_device_ok in Hs as (_ & _ & _ & _ & _ & _ & _ & db1 & Ed & [Es _] & Hreg).
    apply register_device_ok in Hreg as (Hn & _ & _ & Es' & _ & j & c & _ & Ed' & _).
    split; [rewrite Ed', Ed; rewrite Ed in Hn; by apply insert_subseteq|by rewrite Es', Es].
  - pose proof Hs as (_ & Ed & _)%session_frame. split; [by rewrite Ed|].
    destruct r as [[]|e]; [by apply session_ok in Hs as []|].
    unfold insert_authorized_session in Hs. destruct (negb _); [by injection Hs as _ <-|].
    by apply transaction_err in Hs as [_ ->].
  - pose proof Hs as (_ & Ed)%audit_frame. split; [by rewrite Ed|].
    unfold insert_audit_event in Hs. destruct r as [[]|e]; [|by apply transaction_err in Hs as [_ ->]].
    apply transaction_ok in Hs. unbind Hs. injection Hs as <-. unfold insert_audit_row in E3.
    destruct (_ || _); [done|]. injection E3 as <-. cbn.
    by destruct (insert_organization_frame db (ev_organization_id (ch_event ev)) a1) as (_ & _ & _ & -> & _).
Qed.

Lemma store_run_ok db log : rtc store_step (Db_empty, []) (db, log) → store_ok db log.
Proof.
  intros Hr. change (store_ok (db, log).1 (db, log).2).
  assert (store_ok (Db_empty, @nil enrollment_event).1 (Db_empty, @nil enrollment_event).2) as H0'.
  { split; cbn; [done|done|by intros id Hin%not_elem_of_nil|apply NoDup_nil_2]. }
  revert H0'. induction Hr; [done|]. eauto using store_step_ok.
Qed.
End runs.

(** C33. The enrollment budget.  After any operations with any database faults,
    the use counter of a token is the number of devices enrolled with it since it
    was stored, never more than its limit, and no device was enrolled twice.  An
    enrollment succeeds only for a stored token within its validity and with uses
    left, for a device of the token's organization that was not registered, and the
    device is then read back as it was given; a failed one changes nothing. *)
Theorem enrollment_budget `{SerdeJson EnrollmentToken, SerdeJsonDe EnrollmentToken}
    `{SerdeJsonDeLaws DeviceCredential} `{SerdeJson (list string), SerdeJsonDe (list string)}
    {Value} `{SerdeJson (AuditEvent Value)} db log token_id now device fault :
  rtc (store_step (Value := Value)) (Db_empty, []) (db, log) →
  (∀ id row, db_tokens db !! id = Some row →
     tr_uses_count row = len (enrolled id log) ∧ tr_uses_count row ≤ tr_max_uses row) ∧
  NoDup (enrolled_devices log) ∧
  match enroll_device db token_id now device fault with
  | (Ok token, db') =>
      let cred := rd_credential device in
      (∃ row, db_tokens db !! token_id = Some row ∧
         json_from_slice (tr_token_json row) = Ok token ∧
         tr_not_before row ≤ now ≤ tr_expires_at row ∧
         len (enrolled token_id log) < tr_max_uses row) ∧
      cred_organization_id cred = tok_organization_id token ∧
      db_devices db !! cred_device_id cred = None ∧
      (Id_new (cred_device_id cred) = Ok (cred_device_id cred) →
       Id_new (cred_organization_id cred) = Ok (cred_organization_id cred) →
       0 ≤ rd_enrolled_at device →
       get_device db' (cred_device_id cred) Db_works = Ok (Some device))
  | (Err _, db') => db' = db
  end.
Proof.
  intros Hrun. destruct (store_run_ok _ _ Hrun) as [Hb _ _ Ho].
  split; [|split; [done|]].
  - exact Hb.
  - destruct (enroll_device _ _ _ _ _) as [[token|e] db'] eqn:E;
      [|by apply transaction_err in E as [_ ->]].
    apply enroll_device_ok in E as (row & Er & Ej & Ht & Hu & Horg & _ & db1 & Ed & _ & Hreg).
    pose proof (register_device_ok _ _ _ Hreg) as (Hnew & _). rewrite Ed in Hnew.
    destruct (Hb _ _ Er) as [E1 _].
    split_and!; [|done|done|by apply (get_registered db1)].
    exists row. split_and!; try done; lia.
Qed.

(** ** Codecs that satisfy the laws *)

#[global] Instance DeviceType_eq_dec : EqDecision DeviceType.
Proof. solve_decision. Defined.
#[global] Instance DeviceType_countable : Countable DeviceType.
Proof.
  by refine (inj_countable' DeviceType_as_str (λ s, if str_eqb s "host" then Device_Host else
    if str_eqb s "client" then Device_Client else Device_Relay) _); intros [].
Defined.
#[global] Instance EnrollmentToken_eq_dec : EqDecision EnrollmentToken.
Proof. solve_decision. Defined.
#[global] Instance DeviceCredential_eq_dec : EqDecision DeviceCredential.
Proof. solve_decision. Defined.

Lemma to_of_bytes (l : bytes) : to_byte <$> (of_byte <$> l) = l.
Proof. induction l as [|b l IH]; [done|]. rewrite !fmap_cons, to_of_byte. by f_equal. Qed.

#[global] Program Instance EnrollmentToken_countable : Countable EnrollmentToken :=
  inj_countable' (λ t, (tok_token_id t, tok_organization_id t, tok_device_type t,
      tok_not_before t, tok_expires_at t, tok_max_uses t, of_byte <$> tok_signature t))
    (λ '(a, b, c, d, e, f, g), mkEnrollmentToken a b c d e f (to_byte <$> g)) _.
Next Obligation. intros []. cbn. by rewrite to_of_bytes. Qed.
#[global] Program Instance DeviceCredential_countable : Countable DeviceCredential :=
  inj_countable' (λ c, (cred_device_id c, cred_organization_id c, of_byte <$> cred_public_key c,
      cred_device_type c, cred_os c, (cred_architecture c, cred_capabilities c,
      cred_issued_at c, cred_expires_at c, of_byte <$> cred_signature c)))
    (λ '(a, b, c, d, e, (f, g, h, i, j)),
       mkDeviceCredential a b (to_byte <$> c) d e f g h i (to_byte <$> j)) _.
Next Obligation. intros []. cbn. by rewrite !to_of_bytes. Qed.

Definition countable_json_de (A : Type) `{Countable A} : SerdeJsonDe A := λ b,
  match prost_decode (Prost := countable_prost A) b with Some a => Ok a | None => Err "" end.

Lemma countable_json_de_laws (A : Type) `{Countable A} :
  @SerdeJsonDeLaws A (countable_json A) (countable_json_de A).
Proof.
  intros a t Ha. assert (prost_encode (Prost := countable_prost A) a = t) as <-
    by exact (inj Ok _ _ Ha).
  unfold json_from_slice, countable_json_de.
  by rewrite (@prost_decode_encode A (countable_prost A) (countable_prost_laws A) a).
Qed.

Definition toy_store :=
  @store_enrollment_token (countable_json EnrollmentToken).
Definition toy_enroll :=
  @enroll_device (countable_json_de EnrollmentToken) (countable_json DeviceCredential)
    (countable_json (list string)).
Definition sample_device : RegisteredDevice :=
  mkRegisteredDevice sample_credential "host-a" "0.1.0" 15 true.

Lemma enrollment_budget_witness :
  ∃ db token db', toy_store Db_empty sample_token Db_works = (Ok tt, db) ∧
    toy_enroll db "tok-1" 15 sample_device Db_works = (Ok token, db') ∧
    db_devices db !! "dev-1" = None.
Proof.
  destruct (toy_store Db_empty sample_token Db_works) as [r db] eqn:Es.
  assert (r = Ok tt) as ->.
  { change r with (r, db).1. rewrite <-Es. vm_compute. reflexivity. }
  assert (is_ok (toy_enroll (toy_store Db_empty sample_token Db_works).2 "tok-1" 15 sample_device
    Db_works).1 = true) as Hok by (vm_compute; reflexivity).
  rewrite Es in Hok. cbn [snd] in Hok.
  pose proof (@enrollment_budget (countable_json _) (countable_json_de _) (countable_json _)
    (countable_json_de _) (countable_json_de_laws _) (countable_json _) (countable_json_de _)
    unit (countable_json _) db [Stored "tok-1"] "tok-1" 15 sample_device Db_works) as Hb.
  destruct Hb as (_ & _ & Hb).
  { eapply rtc_l; [|apply rtc_refl].
    apply (store_token Db_empty [] sample_token Db_works (Ok tt) db); [cbv; intuition discriminate|].
    exact Es. }
  unfold toy_enroll in *.
  destruct (enroll_device db "tok-1" 15 sample_device Db_works) as [[token|e] db'] eqn:Ee;
    [|discriminate Hok].
  exists db, token, db'. split; [reflexivity|]. split; [exact Ee|]. apply Hb.
Defined.
