(* ===== verification/ControlPlane.v ===== *)
(** * The control plane (apps/nexusd/src/state.rs, routes.rs)

    The application state and the two handlers that change it: enrollment of a
    device and authorization of a session.  A handler gets the clock reading, the
    random bytes it draws and the faults of the database as arguments, and answers
    with a value or with a status and the error its text is made of; [None] is a
    panic.  JSON metadata is a parameter. *)

From S2P Require Import Prelude RustStr Common Crypto Protocol Enrollment AuditLog PolicyModel PolicyEngine PolicyBuild Relay Storage.

Open Scope string_scope.
Open Scope list_scope.
Open Scope Z_scope.

(** ** State *)

Inductive StateError :=
  | State_EnrollmentTokenNotFound (token_id : string)
  | State_EnrollmentTokenExhausted (token_id : string) (uses_count max_uses : Z)
  | State_EnrollmentTokenExpired (expired_at current_time : Z)
  | State_EnrollmentTokenNotYetActive (not_before current_time : Z)
  | State_Storage (e : StorageError)
  | State_AuditSink (e : SinkError)
  | State_AuditChain (e : ChainVerificationError).

Definition StateError_from (e : EnrollmentError) : StateError :=
  match e with
  | Enrollment_NotFound id => State_EnrollmentTokenNotFound id
  | Enrollment_Expired expired_at current_time =>
      State_EnrollmentTokenExpired expired_at current_time
  | Enrollment_NotYetActive not_before current_time =>
      State_EnrollmentTokenNotYetActive not_before current_time
  | Enrollment_Exhausted id uses max => State_EnrollmentTokenExhausted id uses max
  | Enrollment_Storage e => State_Storage e
  end.

Section state.
Context {Value Sink : Type}.

Record AppState := mkAppState {
  st_signing_key : bytes;
  st_control_plane_id : string;
  st_default_relay_id : string;
  st_storage : Db;
  st_policy_engine : PolicyEngine;
  st_audit_chain : AuditChain Value;
  st_audit_sink : Sink
}.

Definition default_engine : PolicyEngine :=
  PolicyEngine_add_role
    (PolicyEngine_add_role (PolicyEngine_new [])
       (Role_with_conditions (Role_with_actions (Role_new "admin") (ActionSet_iter ActionSet_all))
          PolicyConditions_default))
    (Role_with_conditions
       (Role_with_action (Role_with_action (Role_new "operator") DesktopView) DesktopControl)
       PolicyConditions_default).

Definition with_default_relay_id (st : AppState) (relay_id : string) : AppState :=
  mkAppState (st_signing_key st) (st_control_plane_id st) relay_id (st_storage st)
    (st_policy_engine st) (st_audit_chain st) (st_audit_sink st).

Definition st_with (st : AppState) (db : Db) (chain : AuditChain Value) (sink : Sink) :
    AppState :=
  mkAppState (st_signing_key st) (st_control_plane_id st) (st_default_relay_id st) db
    (st_policy_engine st) chain sink.

(** [record_audit] has two parts: under the lock of the chain, and after the store
    answered.  Other requests may run in between; a failed insert restores the
    chain cloned by the first part. *)
Section record.
Context `{Blake3, SerdeJson (AuditEvent Value), AuditSink (ChainedAuditEvent Value) Sink}.

Definition record_append (st : AppState) (event : AuditEvent Value) :
    result StateError (AuditChain Value * ChainedAuditEvent Value) * AppState :=
  let previous := st_audit_chain st in
  match AuditChain_append previous event with
  | (Err e, _) => (Err (State_AuditChain e), st)
  | (Ok chained, chain) =>
      (Ok (previous, chained), st_with st (st_storage st) chain (st_audit_sink st))
  end.
Definition record_insert (st : AppState) (previous_chain : AuditChain Value)
    (chained : ChainedAuditEvent Value) (fault : db_fault) : result StateError unit * AppState :=
  match insert_audit_event (st_storage st) chained fault with
  | (Err e, db) => (Err (State_Storage e), st_with st db previous_chain (st_audit_sink st))
  | (Ok _, db) =>
      let (r, sink) := sink_record (st_audit_sink st) chained in
      (map_err State_AuditSink r, st_with st db (st_audit_chain st) sink)
  end.
(** Without an interruption. *)
Definition record_audit (st : AppState) (event : AuditEvent Value) (fault : db_fault) :
    result StateError unit * AppState :=
  match record_append st event with
  | (Err e, st) => (Err e, st)
  | (Ok (previous_chain, chained), st) => record_insert st previous_chain chained fault
  end.
End record.
End state.
Arguments AppState : clear implicits.

Definition AppState_new {Value} (signing_key : bytes) (control_plane_id : string)
    (storage : Db) : AppState Value (MemoryAuditSink (ChainedAuditEvent Value)) :=
  mkAppState signing_key control_plane_id "relay-nexus-primary" storage default_engine
    (AuditChain_new None) MemoryAuditSink_new.
Definition with_audit_sink {Value Sink Sink'} (st : AppState Value Sink) (audit_sink : Sink') :
    AppState Value Sink' :=
  mkAppState (st_signing_key st) (st_control_plane_id st) (st_default_relay_id st)
    (st_storage st) (st_policy_engine st) (st_audit_chain st) audit_sink.

(** ** Responses *)

(** The text of a reason. *)
Definition DenialReason_display (r : DenialReason) : string :=
  match r with
  | Denial_NoMatchingRole => "no matching role found for subject"
  | Denial_ActionNotAllowed => "action is not allowed by assigned roles"
  | Denial_DeviceNotMatched => "target device does not match role label selectors"
  | Denial_MfaRequired => "multi-factor authentication is required"
  | Denial_ManagedClientDeviceRequired => "managed client device is required"
  | Denial_IpAddressNotAllowed => "client IP address is not allowed"
  | Denial_ConcurrentControlConflict id =>
      "concurrent control conflict with active session " +:+ id
  end.

(** What the error text of a response says. *)
Inductive ApiError :=
  | Api_EnrollmentTokenInvalid (e : EnrollmentTokenError)
  | Api_InvalidProof (e : DeviceCredentialError)
  | Api_DeviceId (e : IdError)
  | Api_BuildCredential (e : DeviceCredentialError)
  | Api_SignCredential (e : DeviceCredentialError)
  | Api_TokenNotConsumed (e : StateError)
  | Api_Storage
  | Api_TargetNotFound (device_id : string)
  | Api_TargetNotActive
  | Api_SessionId (e : IdError)
  | Api_RelayToken (role : EndpointRole) (e : RelayTokenError)
  | Api_Denied (reason : DenialReason).
(** With the status code. *)
Abbreviation api A := (result (Z * ApiError) A).

Definition storage_error_response (e : StateError) : Z * ApiError := (500, Api_Storage).
Definition enrollment_error_response (e : StateError) : Z * ApiError :=
  match e with
  | State_EnrollmentTokenNotFound _ | State_EnrollmentTokenExhausted _ _ _
  | State_EnrollmentTokenExpired _ _ | State_EnrollmentTokenNotYetActive _ _ =>
      (403, Api_TokenNotConsumed e)
  | e => storage_error_response e
  end.

(** [&token_id[..token_id.len().min(8)]]: slicing inside a character panics. *)
Definition is_char_boundary (s : string) (n : nat) : bool :=
  match String.get n s with
  | None => true
  | Some c => negb ((128 <=? code c) && (code c <? 192))
  end.
Definition token_prefix (token_id : string) : option string :=
  let n := Nat.min (String.length token_id) 8 in
  if is_char_boundary token_id n then Some (String.substring 0 n token_id) else None.

(** [format!("{x:02x}")] *)
Definition hex_digit (n : Z) : ascii :=
  ascii_of_N (Z.to_N (if n <? 10 then 48 + n else 87 + n)).
Definition hex_byte (b : byte) : string :=
  String (hex_digit (of_byte b / 16)) (String (hex_digit (of_byte b mod 16)) "").
(** [uuid_simple] of the 16 bytes drawn. *)
Definition uuid_simple (b : bytes) : string := join "" (hex_byte <$> b).

Record SessionRequestPayload := mkSessionRequestPayload {
  sq_organization_id : string; sq_subject_user_id : string; sq_client_device_id : string;
  sq_target_device_id : string; sq_requested_actions : list string;
  sq_client_ephemeral_public_key : bytes
}.
Record SessionAuthorizationResponse := mkSessionAuthorizationResponse {
  sa_session_id : string; sa_capability_bytes : bytes; sa_relay_id : string;
  sa_client_relay_token : RelayToken; sa_host_relay_token : RelayToken; sa_expires_at : Z
}.

(** ** Handlers *)

Section handlers.
Context {Value Sink : Type} (Null : Value) (json_object : list (string * string) → Value).
Context `{Ed25519, Prost SessionCapability, Blake3}.
Context `{SerdeJson CanonicalEnrollmentPayload, SerdeJson CanonicalCredentialPayload}.
Context `{SerdeJson EnrollmentToken, SerdeJsonDe EnrollmentToken}.
Context `{SerdeJson DeviceCredential, SerdeJsonDe DeviceCredential}.
Context `{SerdeJson (list string), SerdeJsonDe (list string)}.
Context `{SerdeJson (AuditEvent Value), AuditSink (ChainedAuditEvent Value) Sink}.
Context (dalek_error : string).

Abbreviation state := (AppState Value Sink).

(** [if let Ok(audit_evt) = builder.build() { state.record_audit(..).await?; }] *)
Definition audit_built (st : state) (b : AuditEventBuilder Value) (fault : db_fault) :
    api unit * state :=
  match AuditEventBuilder_build Null b with
  | Err _ => (Ok tt, st)
  | Ok event =>
      let (r, st) := record_audit st event fault in (map_err storage_error_response r, st)
  end.

(** The credential the control plane issues for a request. *)
Definition issue_credential (bld : build) (st : state) (req : DeviceRegistrationRequest)
    (now : Z) : option (api DeviceCredential) :=
  let tok := req_enrollment_token req in
  short_id ← token_prefix (tok_token_id tok);
  let device_id_str := "dev-" +:+ DeviceType_as_str (tok_device_type tok) +:+ "-" +:+ short_id in
  match Id_new device_id_str with
  | Err e => Some (Err (500, Api_DeviceId e))
  | Ok device_id =>
      expires_at ← plain bld 64 (now + 365 * 24 * 3600);
      match DeviceCredentialBuilder_build (mkDeviceCredentialBuilder (Some device_id)
              (Some (tok_organization_id tok)) (Some (req_device_public_key req))
              (Some (tok_device_type tok)) (Some (req_os req)) (Some (req_architecture req))
              ["desktop.view"; "desktop.control"] (Some now) (Some expires_at)) with
      | Err e => Some (Err (500, Api_BuildCredential e))
      | Ok credential =>
          match DeviceCredential_sign credential (st_signing_key st) with
          | (Err e, _) => Some (Err (500, Api_SignCredential e))
          | (Ok _, credential) => Some (Ok credential)
          end
      end
  end.

(** The events the handlers record. *)
Definition enroll_audit (req : DeviceRegistrationRequest) (now : Z) (credential : DeviceCredential) :
    AuditEventBuilder Value :=
  let tok := req_enrollment_token req in
  mkAuditEventBuilder (Some ("evt-enroll-" +:+ cred_device_id credential)) (Some now)
    (Some (tok_organization_id tok)) None (Some (cred_device_id credential)) None
    (Some Ev_DeviceEnroll)
    (Some (json_object [("hostname", req_hostname req); ("os", req_os req);
       ("arch", req_architecture req); ("token_id", tok_token_id tok)])).
Definition session_audit (p : SessionRequestPayload) (now : Z) (session_id relay_id : string) :
    AuditEventBuilder Value :=
  mkAuditEventBuilder (Some ("evt-auth-" +:+ session_id)) (Some now) (Some (sq_organization_id p))
    (Some (sq_subject_user_id p)) (Some (sq_target_device_id p)) (Some session_id)
    (Some Ev_SessionAuthorize)
    (Some (json_object [("client_device_id", sq_client_device_id p); ("relay_id", relay_id)])).
Definition deny_audit (p : SessionRequestPayload) (now : Z) (reason : DenialReason) :
    AuditEventBuilder Value :=
  mkAuditEventBuilder (Some ("evt-deny-" +:+ to_dec now)) (Some now) (Some (sq_organization_id p))
    (Some (sq_subject_user_id p)) (Some (sq_target_device_id p)) None (Some Ev_SessionDeny)
    (Some (json_object [("reason", DenialReason_display reason)])).

Definition enroll_device_handler (bld : build) (st : state) (req : DeviceRegistrationRequest)
    (now : Z) (fault audit_fault : db_fault) : option (api DeviceCredential * state) :=
  let tok := req_enrollment_token req in
  match EnrollmentToken_verify dalek_error tok (ed_public (st_signing_key st)) now with
  | Err e => Some (Err (401, Api_EnrollmentTokenInvalid e), st)
  | Ok _ =>
      match verify_proof dalek_error req with
      | Err e => Some (Err (400, Api_InvalidProof e), st)
      | Ok _ =>
          issued ← issue_credential bld st req now;
          match issued with
          | Err e => Some (Err e, st)
          | Ok credential =>
              match enroll_device (st_storage st) (tok_token_id tok) now
                      (mkRegisteredDevice credential (req_hostname req) (req_agent_version req)
                         now true) fault with
              | (Err e, db) =>
                  Some (Err (enrollment_error_response (StateError_from e)),
                        st_with st db (st_audit_chain st) (st_audit_sink st))
              | (Ok _, db) =>
                  let st := st_with st db (st_audit_chain st) (st_audit_sink st) in
                  let (r, st) := audit_built st (enroll_audit req now credential) audit_fault in
                  Some ((_ ← r; Ok credential), st)
              end
          end
      end
  end.

(** The subject and the resource the policy is asked about. *)
Definition session_subject (p : SessionRequestPayload) : SubjectContext :=
  mkSubjectContext (sq_subject_user_id p) ["admin"; "operator"] true true None.
Definition session_resource (p : SessionRequestPayload) : ResourceContext :=
  mkResourceContext (sq_target_device_id p) ∅ [].

Definition build_capability (st : state) (p : SessionRequestPayload) (session_id : string)
    (granted : ActionSet) (now expires_at : Z) (nonce : bytes) : SessionCapability :=
  mkSessionCapability 1 (st_control_plane_id st) session_id (sq_subject_user_id p)
    (sq_client_device_id p) (sq_target_device_id p) (Action_as_str <$> ActionSet_iter granted)
    [] now expires_at nonce 1 1 (sq_client_ephemeral_public_key p) [].
Definition cap_signed (c : SessionCapability) (sig : bytes) : SessionCapability :=
  mkSessionCapability (cap_version c) (cap_issuer c) (cap_session_id c) (cap_subject_user_id c)
    (cap_client_device_id c) (cap_target_device_id c) (cap_permissions c) (cap_restrictions c)
    (cap_not_before c) (cap_expires_at c) (cap_nonce c) (cap_agent_min_protocol c)
    (cap_agent_max_protocol c) (cap_client_ephemeral_public_key c) sig.

Definition issue_relay_token (st : state) (p : SessionRequestPayload) (session_id : string)
    (role : EndpointRole) (expires_at : Z) : api RelayToken :=
  match RelayTokenBuilder_build (mkRelayTokenBuilder (Some session_id)
          (Some (st_default_relay_id st)) (Some (sq_client_device_id p))
          (Some (sq_target_device_id p)) (Some role) (Some expires_at)) with
  | Err e => Err (500, Api_RelayToken role e)
  | Ok t => Ok (RelayToken_sign t (st_signing_key st))
  end.

(** The branch of an allowed request.  Encoding into a growing vector does not
    fail. *)
Definition authorize_session (bld : build) (st : state) (p : SessionRequestPayload)
    (granted : ActionSet) (now : Z) (uuid nonce : bytes) (fault audit_fault : db_fault) :
    option (api SessionAuthorizationResponse * state) :=
  match Id_new ("sess-" +:+ uuid_simple uuid) with
  | Err e => Some (Err (500, Api_SessionId e), st)
  | Ok session_id =>
      expires_at ← plain bld 64 (now + 120);
      let capability := build_capability st p session_id granted now expires_at nonce in
      let sig := ed_sign (st_signing_key st) (prost_encode capability) in
      let signed_cap_bytes := prost_encode (cap_signed capability sig) in
      match issue_relay_token st p session_id Role_Client expires_at with
      | Err e => Some (Err e, st)
      | Ok client_relay_token =>
          match issue_relay_token st p session_id Role_Host expires_at with
          | Err e => Some (Err e, st)
          | Ok host_relay_token =>
              match insert_authorized_session (st_storage st) (mkAuthorizedSessionRecord
                      session_id (sq_organization_id p) (sq_subject_user_id p)
                      (sq_client_device_id p) (sq_target_device_id p) (st_default_relay_id st)
                      (cap_permissions capability) now "authorized") fault with
              | (Err e, db) =>
                  Some (Err (storage_error_response (State_Storage e)),
                        st_with st db (st_audit_chain st) (st_audit_sink st))
              | (Ok _, db) =>
                  let st := st_with st db (st_audit_chain st) (st_audit_sink st) in
                  let (r, st) := audit_built st
                    (session_audit p now session_id (st_default_relay_id st)) audit_fault in
                  Some ((_ ← r;
                         Ok (mkSessionAuthorizationResponse session_id signed_cap_bytes
                               (st_default_relay_id st) client_relay_token host_relay_token
                               expires_at)), st)
              end
          end
      end
  end.

(** The branch of a denied one. *)
Definition deny_session (st : state) (p : SessionRequestPayload) (reason : DenialReason)
    (now : Z) (audit_fault : db_fault) : api SessionAuthorizationResponse * state :=
  let (r, st) := audit_built st (deny_audit p now reason) audit_fault in
  ((_ ← r; Err (403, Api_Denied reason)), st).

Definition request_session_handler (bld : build) (st : state) (p : SessionRequestPayload)
    (now : Z) (uuid nonce : bytes) (get_fault fault audit_fault : db_fault) :
    option (api SessionAuthorizationResponse * state) :=
  match get_device (st_storage st) (sq_target_device_id p) get_fault with
  | Err e => Some (Err (storage_error_response (State_Storage e)), st)
  | Ok None => Some (Err (404, Api_TargetNotFound (sq_target_device_id p)), st)
  | Ok (Some target_device) =>
      if negb (rd_is_active target_device) then Some (Err (403, Api_TargetNotActive), st) else
      match evaluate (st_policy_engine st) (session_subject p) (session_resource p) DesktopView with
      | Allowed granted _ _ => authorize_session bld st p granted now uuid nonce fault audit_fault
      | Denied reason => Some (deny_session st p reason now audit_fault)
      end
  end.
End handlers.
