(* ===== verification/Authorization.v ===== *)
(** * Control plane, agent, relay and client together

    What the control plane issues for a session is what the other parties accept;
    its audit log and its store agree. *)

From S2P Require Import Prelude RustStr Common Crypto Protocol Enrollment AuditLog PolicyModel PolicyEngine SessionState Replay Verifier Relay ClientSession Storage ControlPlane.

Open Scope string_scope.
Open Scope list_scope.
Open Scope Z_scope.

(** The control plane's own engine allows the request, with every action. *)
Lemma default_engine_allows p :
  ∃ granted r m,
    evaluate default_engine (session_subject p) (session_resource p) DesktopView =
      Allowed granted r m ∧ ActionSet_iter granted = Action_ALL.
Proof.
  eexists _, _, _. split; [vm_compute; reflexivity|vm_compute; reflexivity].
Qed.

Lemma Id_new_ok s id : Id_new s = Ok id → id = s ∧ 1 ≤ str_len s ≤ 128.
Proof.
  unfold Id_new, validate_id, MAX_ID_LEN. rewrite str_is_empty_len.
  pose proof (str_len_nonneg s).
  destruct (Z.eqb_spec (str_len s) 0); [done|]. destruct (Z.ltb_spec 128 (str_len s)); [done|].
  destruct (check_chars 0 s); cbn; [|done]. intros [= <-]. split; [done|lia].
Qed.

(** The identifiers of a request are validated on the way in. *)
Record payload_ok (p : SessionRequestPayload) : Prop := {
  pl_user : 1 ≤ str_len (sq_subject_user_id p) ≤ 128;
  pl_client : 1 ≤ str_len (sq_client_device_id p) ≤ 128;
  pl_target : 1 ≤ str_len (sq_target_device_id p) ≤ 128
}.

Section authorization.
Context {Value Sink : Type} (Null : Value) (json_object : list (string * string) → Value).
Context `{Ed25519, Prost SessionCapability, Blake3}.
Context `{SerdeJson DeviceCredential, SerdeJsonDe DeviceCredential}.
Context `{SerdeJson (list string), SerdeJsonDe (list string)}.
Context `{SerdeJson (AuditEvent Value), AuditSink (ChainedAuditEvent Value) Sink}.

(** Everything an authorized session consists of. *)
Record session_issued (st : AppState Value Sink) (p : SessionRequestPayload) (now : Z)
    (nonce : bytes) (granted : ActionSet) (resp : SessionAuthorizationResponse) : Prop := {
  si_session : 1 ≤ str_len (sa_session_id resp) ≤ 128;
  si_capability : sa_capability_bytes resp =
    let c := build_capability st p (sa_session_id resp) granted now (now + 120) nonce in
    prost_encode (cap_signed c (ed_sign (st_signing_key st) (prost_encode c)));
  si_relay : sa_relay_id resp = st_default_relay_id st ∧ 1 ≤ str_len (sa_relay_id resp) ≤ 65535;
  si_tokens :
    let token role := RelayToken_sign (mkRelayToken (sa_session_id resp)
      (st_default_relay_id st) (sq_client_device_id p) (sq_target_device_id p) role
      (now + 120) []) (st_signing_key st) in
    sa_client_relay_token resp = token Role_Client ∧ sa_host_relay_token resp = token Role_Host;
  si_expires : sa_expires_at resp = now + 120
}.

Lemma issue_relay_token_ok (st : AppState Value Sink) p sid role expires t :
  issue_relay_token st p sid role expires = Ok t →
  t = RelayToken_sign (mkRelayToken sid (st_default_relay_id st) (sq_client_device_id p)
        (sq_target_device_id p) role expires []) (st_signing_key st) ∧
  1 ≤ str_len (st_default_relay_id st) ≤ 65535.
Proof.
  unfold issue_relay_token, RelayTokenBuilder_build. cbn [ok_or mbind result_bind
    rb_session_id rb_relay_id rb_client_device_id rb_target_device_id rb_role rb_expires_at].
  rewrite str_is_empty_len. pose proof (str_len_nonneg (st_default_relay_id st)).
  destruct (Z.eqb_spec (str_len (st_default_relay_id st)) 0); [done|].
  destruct (Z.ltb_spec 65535 (str_len (st_default_relay_id st))); [done|].
  intros [= <-]. split; [done|lia].
Qed.

(** The audit trail touches neither the configuration nor the other tables. *)
Lemma record_audit_frame (st : AppState Value Sink) event fault r st' :
  record_audit st event fault = (r, st') →
  st_signing_key st' = st_signing_key st ∧ st_control_plane_id st' = st_control_plane_id st ∧
  st_default_relay_id st' = st_default_relay_id st ∧
  st_policy_engine st' = st_policy_engine st ∧
  db_sessions (st_storage st') = db_sessions (st_storage st) ∧
  db_devices (st_storage st') = db_devices (st_storage st) ∧
  db_credentials (st_storage st') = db_credentials (st_storage st) ∧
  db_tokens (st_storage st') = db_tokens (st_storage st).
Proof.
  unfold record_audit, record_append.
  destruct (AuditChain_append _ _) as [[chained|] chain]; [|naive_solver].
  unfold record_insert. cbn [st_with st_storage st_audit_sink].
  destruct (insert_audit_event _ _ _) as [[[]|e] db] eqn:E.
  - destruct (sink_record _ _) as [r1 sink]. intros [= <- <-]. cbn.
    apply transaction_ok in E. unbind E. injection E as <-. unfold insert_audit_row in E4.
    destruct (_ || _); [done|]. injection E4 as <-.
    by destruct (insert_organization_frame (st_storage st)
      (ev_organization_id (ch_event chained)) a1) as (? & ? & ? & ? & _).
  - apply transaction_err in E as [_ ->]. by intros [= <- <-].
Qed.

Lemma audit_built_frame (st : AppState Value Sink) b fault r st' :
  audit_built Null st b fault = (r, st') →
  st_signing_key st' = st_signing_key st ∧ st_control_plane_id st' = st_control_plane_id st ∧
  st_default_relay_id st' = st_default_relay_id st ∧
  st_policy_engine st' = st_policy_engine st ∧
  db_sessions (st_storage st') = db_sessions (st_storage st) ∧
  db_devices (st_storage st') = db_devices (st_storage st) ∧
  db_credentials (st_storage st') = db_credentials (st_storage st) ∧
  db_tokens (st_storage st') = db_tokens (st_storage st).
Proof.
  unfold audit_built. destruct (AuditEventBuilder_build _ _) as [event|]; [|naive_solver].
  destruct (record_audit st event fault) as [r1 st1] eqn:E. intros [= <- <-].
  by eapply record_audit_frame.
Qed.

Lemma insert_session_ok db r fault db' :
  insert_authorized_session db r fault = (Ok tt, db') →
  db_sessions db !! as_session_id r = None ∧
  ∃ policy, json_to_vec (as_permissions r) = Ok policy ∧
    db_sessions db' !! as_session_id r =
      Some (mkSessionRow (as_organization_id r) (as_user_id r) (as_client_device_id r)
        (as_target_device_id r) "authorized" "relay" (as_relay_id r) (as_created_at r) policy).
Proof.
  unfold insert_authorized_session. destruct (negb _); [done|]. intros Ht%transaction_ok.
  unbind Ht. injection Ht as <-. rewrite map_err_ok in E. apply to_i64_ok in E1 as [-> _].
  destruct (insert_organization_frame db (as_organization_id r) (as_created_at r))
    as (_ & _ & _ & F & _).
  unfold insert_session_row in E2. rewrite F in E2.
  destruct (references_ok (db_sessions db) _) eqn:Er; [done|]. destruct (_ || _); [done|].
  injection E2 as <-. unfold references_ok in Er. bool_hyps.
  rewrite <-eq_None_not_Some in Er. split; [done|]. exists a. split; [done|].
  cbn. by rewrite lookup_insert_eq.
Qed.

Lemma authorize_session_ok bld st p granted now uuid nonce fault audit_fault resp st' :
  uint 64 (now + 120) →
  authorize_session Null json_object bld st p granted now uuid nonce fault audit_fault =
    Some (Ok resp, st') →
  session_issued st p now nonce granted resp ∧
  db_sessions (st_storage st) !! sa_session_id resp = None ∧
  ∃ policy, json_to_vec (Action_as_str <$> ActionSet_iter granted) = Ok policy ∧
    db_sessions (st_storage st') !! sa_session_id resp =
      Some (mkSessionRow (sq_organization_id p) (sq_subject_user_id p) (sq_client_device_id p)
        (sq_target_device_id p) "authorized" "relay" (st_default_relay_id st) now policy).
Proof.
  intros Hnow. unfold authorize_session.
  destruct (Id_new _) as [sid|] eqn:Eid; [|done]. apply Id_new_ok in Eid as [-> Hsid].
  rewrite plain_in_range by done. cbn [mbind option_bind].
  destruct (issue_relay_token st p _ Role_Client _) as [ct|] eqn:Ec; [|done].
  destruct (issue_relay_token st p _ Role_Host _) as [ht|] eqn:Eh; [|done].
  apply issue_relay_token_ok in Ec as [-> Hr], Eh as [-> _].
  destruct (insert_authorized_session _ _ _) as [[[]|] db] eqn:Ei; [|done].
  apply insert_session_ok in Ei as (Hnone & policy & Hpol & Hrow).
  destruct (audit_built _ _ _ _) as [[[]|] st1] eqn:Ea; cbn [mbind result_bind]; [|done].
  apply audit_built_frame in Ea as (_ & _ & Er & _ & Es & _). rewrite Er.
  cbn [st_with st_default_relay_id]. intros [= <- <-]. split; [by split|].
  split; [exact Hnone|]. exists policy. split; [exact Hpol|]. by rewrite Es.
Qed.

(** What the answer to a session request holds. *)
Lemma answered_session_issued bld st p now uuid nonce f1 f2 f3 resp st' :
  st_policy_engine st = default_engine → uint 64 (now + 120) →
  request_session_handler Null json_object bld st p now uuid nonce f1 f2 f3 = Some (Ok resp, st') →
  ∃ d granted, get_device (st_storage st) (sq_target_device_id p) f1 = Ok (Some d) ∧ rd_is_active d = true ∧
  ActionSet_iter granted = Action_ALL ∧ session_issued st p now nonce granted resp ∧
  db_sessions (st_storage st) !! sa_session_id resp = None ∧
  ∃ policy, json_to_vec (Action_as_str <$> ActionSet_iter granted) = Ok policy ∧
    db_sessions (st_storage st') !! sa_session_id resp =
      Some (mkSessionRow (sq_organization_id p) (sq_subject_user_id p) (sq_client_device_id p)
        (sq_target_device_id p) "authorized" "relay" (st_default_relay_id st) now policy).
Proof.
  intros Heng Hnow. unfold request_session_handler.
  destruct (get_device _ _ _) as [[d|]|] eqn:Ed; [|done..].
  destruct (rd_is_active d) eqn:Ea; [|done]. cbn [negb].
  destruct (default_engine_allows p) as (granted & r & m & Ee & Hg). rewrite Heng, Ee.
  intros Hok%authorize_session_ok; [|exact Hnow]. exists d, granted.
  split; [reflexivity|]. split; [exact Ea|]. split; [exact Hg|exact Hok].
Qed.

(** ** What the other parties do with it *)

Context `{!Ed25519Laws, !ProstLaws SessionCapability}.

Lemma signed_signing_bytes (c : SessionCapability) sig :
  cap_signature c = [] → SessionCapability_signing_bytes (cap_signed c sig) = prost_encode c.
Proof.
  intros E. unfold SessionCapability_signing_bytes, unsigned_capability, cap_signed.
  destruct c. cbn in *. by subst.
Qed.

Lemma issued_well_formed (st : AppState Value Sink) p sid granted now nonce sig :
  payload_ok p → 1 ≤ str_len (st_control_plane_id st) ≤ 128 → 1 ≤ str_len sid ≤ 128 →
  ActionSet_iter granted = Action_ALL → len nonce = 16 →
  well_formed (cap_signed (build_capability st p sid granted now (now + 120) nonce) sig).
Proof.
  intros [? ? ?] ? ? Hg Hn. unfold build_capability, cap_signed. rewrite Hg.
  split; cbn [cap_version cap_issuer cap_session_id cap_subject_user_id cap_client_device_id
    cap_target_device_id cap_permissions cap_not_before cap_expires_at cap_nonce
    cap_agent_min_protocol cap_agent_max_protocol]; try lia.
  - by rewrite !Forall_cons, Forall_nil.
  - done.
Qed.

Lemma signed_token_verifies sid rid cid tid role expires sk t :
  RelayTokenVerifier_verify (mkRelayTokenVerifier (ed_public sk) rid)
    (RelayToken_sign (mkRelayToken sid rid cid tid role expires []) sk) t = Ok tt ↔ t < expires.
Proof.
  unfold RelayTokenVerifier_verify, RelayToken_sign.
  cbn [rt_relay_id rt_expires_at rt_signature token_signed rv_relay_id rv_key].
  unfold len, str_eqb. rewrite ed_sign_length, bool_decide_true by done.
  change (RelayToken_signing_bytes (token_signed ?t _)) with
    (RelayToken_signing_bytes (mkRelayToken sid rid cid tid role expires [])).
  rewrite ed_verify_sign. cbn. destruct (Z.leb_spec expires t); split; done || lia.
Qed.

(** Two endpoints of a session the relay does not know yet are paired. *)
Lemma join_fresh tb tok t :
  get_session tb (rt_session_id tok) = None → t < rt_expires_at tok →
  (register_or_join tb tok t).2 =
    mkRelaySessionTable (<[rt_session_id tok := length (tb_heap tb)]> (tb_sessions tb))
      (tb_heap tb ++ [fill_slot (rt_role tok) (RelaySession_new tok)]).
Proof.
  intros Hn Ht. unfold get_session in Hn. unfold register_or_join, entry_or_insert.
  rewrite (proj2 (Z.leb_gt _ _) Ht), Hn. unfold deref. cbn [tb_heap].
  rewrite list_lookup_middle by done. cbn [default from_option id].
  unfold str_eqb. rewrite !bool_decide_true by done. cbn [negb orb].
  unfold slot. destruct (rt_role tok); cbn; unfold with_handle; cbn;
    f_equal; rewrite alter_app_r_alt, Nat.sub_diag by done; done.
Qed.

Lemma fresh_pair tb sid rid cid tid expires (s1 s2 : bytes) t :
  get_session tb sid = None → t < expires →
  let token role := mkRelayToken sid rid cid tid role expires in
  ∃ h, (register_or_join (register_or_join tb (token Role_Client s1) t).2
          (token Role_Host s2) t).1 = Ok (h, true).
Proof.
  intros Hn Ht token. exists (length (tb_heap tb)). rewrite join_fresh by done.
  unfold register_or_join, entry_or_insert. cbn [tb_sessions tb_heap token rt_session_id
    rt_expires_at]. rewrite (proj2 (Z.leb_gt _ _) Ht), lookup_insert_eq. unfold deref.
  cbn [tb_heap]. rewrite list_lookup_middle by done. cbn.
  unfold str_eqb. by rewrite !bool_decide_true.
Qed.

(** A capability the control plane issued satisfies the agent and the client. *)
Section issued.
Context (st : AppState Value Sink) (p : SessionRequestPayload) (sid : string)
  (granted : ActionSet) (now : Z) (nonce : bytes).
Context (Hp : payload_ok p) (Hid : 1 ≤ str_len (st_control_plane_id st) ≤ 128)
  (Hsid : 1 ≤ str_len sid ≤ 128) (Hg : ActionSet_iter granted = Action_ALL)
  (Hn : len nonce = 16).
Let raw := build_capability st p sid granted now (now + 120) nonce.
Let cap := cap_signed raw (ed_sign (st_signing_key st) (prost_encode raw)).

Lemma issued_signature :
  len (cap_signature cap) = 64 ∧
  ed_verify (ed_public (st_signing_key st)) (SessionCapability_signing_bytes cap)
    (cap_signature cap) = true.
Proof.
  unfold cap. rewrite signed_signing_bytes by done. cbn [cap_signed cap_signature].
  rewrite ed_verify_sign. split; [|done]. unfold len. by rewrite ed_sign_length.
Qed.

Lemma issued_accepted dalek_error agent t instant :
  cv_verifying_key agent = ed_public (st_signing_key st) →
  cv_target_device_id agent = Some (sq_target_device_id p) →
  (CapabilityVerifier_verify dalek_error agent cap 1 t instant).1 = Ok tt ↔
  now ≤ t ≤ now + 120 ∧ (NonceReplayCache_accept (cv_replay_cache agent) nonce instant).1 = true.
Proof.
  intros Hk Ht. rewrite verify_ok_iff, Hk, Ht. split; [by intros ([_ _ ? _] & ? & _)|].
  intros [Hnow Hacc]. split; [|split; [exact Hacc|apply issued_signature]].
  split; [by apply issued_well_formed|by intros ? [= <-]|done|done].
Qed.

Lemma issued_claims_valid rid t max window :
  let tok := RelayToken_sign (mkRelayToken sid rid (sq_client_device_id p)
    (sq_target_device_id p) Role_Client (now + 120) []) (st_signing_key st) in
  validate_claims (mkClientSession cap
    (mkRelayTokenMetadata (rt_relay_id tok) (rt_session_id tok) (rt_client_device_id tok)
       (rt_target_device_id tok) (rt_expires_at tok) (rt_signature tok))
    Client_Disconnected None None max window
    (mkClientVerification (ed_public (st_signing_key st)) (ed_public (st_signing_key st)) rid)) t
  = Ok tt ↔ now ≤ t < now + 120.
Proof.
  intros tok. rewrite validate_claims_spec. split; [by intros [_ _ _ _ ? _ _ _ _ _ _]|]. intros Ht. destruct issued_signature as [Hl Hs].
  split; try done; [by apply issued_well_formed|cbn; lia| |].
  - cbn. unfold len. by rewrite ed_sign_length.
  - rewrite metadata_signing_bytes. apply ed_verify_sign.
Qed.
End issued.
End authorization.


(** ** Enrollment *)

Section enrolling.
Context {Value Sink : Type} (Null : Value) (json_object : list (string * string) → Value).
Context `{Ed25519Laws, Prost SessionCapability, Blake3}.
Context `{SerdeJson CanonicalEnrollmentPayload, SerdeJson CanonicalCredentialPayload}.
Context `{SerdeJson EnrollmentToken, SerdeJsonDe EnrollmentToken}.
Context `{SerdeJsonDeLaws DeviceCredential}.
Context `{SerdeJson (list string), SerdeJsonDe (list string)}.
Context `{SerdeJson (AuditEvent Value), AuditSink (ChainedAuditEvent Value) Sink}.

Lemma get_device_frame db db' id fault :
  db_devices db' = db_devices db → db_credentials db' = db_credentials db →
  get_device db' id fault = get_device db id fault.
Proof. unfold get_device. by intros -> ->. Qed.

(** The credential that is issued. *)
Lemma issue_credential_ok dalek_error bld (st : AppState Value Sink) req now cred :
  let tok := req_enrollment_token req in
  uint 64 (now + 365 * 24 * 3600) →
  issue_credential bld st req now = Some (Ok cred) →
  Id_new (cred_device_id cred) = Ok (cred_device_id cred) ∧
  cred_organization_id cred = tok_organization_id tok ∧
  cred_device_type cred = tok_device_type tok ∧
  cred_public_key cred = req_device_public_key req ∧
  ∀ t, DeviceCredential_verify dalek_error cred (ed_public (st_signing_key st)) t = Ok tt ↔
    now ≤ t ≤ now + 365 * 24 * 3600.
Proof.
  intros tok Hnow. unfold issue_credential. destruct (token_prefix _) as [short|]; [|done].
  cbn [mbind option_bind]. destruct (Id_new _) as [id|] eqn:Eid; [|done].
  pose proof (Id_new_ok _ _ Eid) as [-> _].
  rewrite plain_in_range by done. cbn [mbind option_bind].
  destruct (DeviceCredentialBuilder_build _) as [c|] eqn:Eb; [|done].
  cbn [DeviceCredentialBuilder_build cb_device_id cb_organization_id cb_public_key cb_device_type
    cb_os cb_architecture cb_capabilities cb_issued_at cb_expires_at ok_or mbind result_bind
    default from_option id] in Eb. injection Eb as <-.
  destruct (DeviceCredential_sign _ _) as [[[]|] c'] eqn:Es; [|done].
  intros [= <-]. pose proof (λ t, credential_sign_verify dalek_error _ _ c' t Es) as Hv.
  unfold DeviceCredential_sign in Es. destruct (DeviceCredential_signing_bytes _); [|done].
  injection Es as <-.
  split; [exact Eid|]. do 3 (split; [reflexivity|]). exact Hv.
Qed.
End enrolling.

(** Enrollment.  A device gets a credential only if it presented a token that
    the control plane signed and that is valid now, proved possession of its key,
    and the stored token of that id has a use left, which is then taken.  The
    credential is for the token's organization and type and the device's key and
    verifies under the control plane's key for exactly a year; the device was not
    registered before, and it is read back, active, from the store. *)
Theorem enrollment_handler_sound {Value Sink} Null json_object `{Ed25519Laws, Blake3,
    !SerdeJson CanonicalEnrollmentPayload, !SerdeJson CanonicalCredentialPayload,
    !SerdeJson EnrollmentToken, !SerdeJsonDe EnrollmentToken, !SerdeJson DeviceCredential,
    !SerdeJsonDe DeviceCredential, !SerdeJsonDeLaws DeviceCredential, !SerdeJson (list string),
    !SerdeJson (AuditEvent Value), !AuditSink (ChainedAuditEvent Value) Sink}
    dalek_error bld (st st' : AppState Value Sink) req now f1 f2 cred :
  let tok := req_enrollment_token req in
  let key := ed_public (st_signing_key st) in
  Id_new (tok_organization_id tok) = Ok (tok_organization_id tok) →
  0 ≤ now → uint 64 (now + 365 * 24 * 3600) →
  enroll_device_handler Null json_object dalek_error bld st req now f1 f2 =
    Some (Ok cred, st') →
  EnrollmentToken_verify dalek_error tok key now = Ok tt ∧
  verify_proof dalek_error req = Ok tt ∧
  (∃ row, db_tokens (st_storage st) !! tok_token_id tok = Some row ∧
     tr_not_before row ≤ now ≤ tr_expires_at row ∧ tr_uses_count row < tr_max_uses row ∧
     tr_uses_count <$> db_tokens (st_storage st') !! tok_token_id tok =
       Some (tr_uses_count row + 1)) ∧
  cred_organization_id cred = tok_organization_id tok ∧
  cred_device_type cred = tok_device_type tok ∧
  cred_public_key cred = req_device_public_key req ∧
  (∀ t, DeviceCredential_verify dalek_error cred key t = Ok tt ↔
     now ≤ t ≤ now + 365 * 24 * 3600) ∧
  db_devices (st_storage st) !! cred_device_id cred = None ∧
  get_device (st_storage st') (cred_device_id cred) Db_works =
    Ok (Some (mkRegisteredDevice cred (req_hostname req) (req_agent_version req) now true)).
Proof.
  intros tok key Horg Hnow Hexp. unfold enroll_device_handler. fold tok key.
  destruct (EnrollmentToken_verify _ _ _ _) as [[]|]; [|done].
  destruct (verify_proof _ _) as [[]|]; [|done].
  destruct (issue_credential bld st req now) as [[c|]|] eqn:Ei; [|done..].
  apply (issue_credential_ok dalek_error) in Ei as (Hid & Ho & Ht & Hk & Hv); [|done].
  cbn [mbind option_bind].
  destruct (enroll_device _ _ _ _ _) as [[token|] db] eqn:Ed; [|done].
  destruct (audit_built _ _ _ _) as [[[]|] st1] eqn:Ea; [|done].
  apply audit_built_frame in Ea as (_ & _ & _ & _ & _ & Fd & Fc & Ft). intros [= <- <-].
  apply enroll_device_ok in Ed as (row & Er & _ & Htime & Hu & _ & Et & db1 & Ed1 & _ & Hreg).
  pose proof (register_device_ok _ _ _ Hreg) as (Hnew & _). rewrite Ed1 in Hnew.
  split; [done|]. split; [done|]. split.
  { exists row. split_and!; [done|lia..|]. rewrite Ft. cbn. rewrite Et. by rewrite lookup_insert_eq. }
  do 3 (split; [done|]). split; [exact Hv|]. split; [exact Hnew|].
  rewrite (get_device_frame db _) by done.
  apply (get_registered db1 _ _ Hreg); [exact Hid|cbn; by rewrite Ho|done].
Qed.

(** A device enrolled with [sample_token], and a request for it. *)
Definition sample_db : Db := (toy_enroll (toy_store Db_empty sample_token Db_works).2 "tok-1" 15
  sample_device Db_works).2.
Definition sample_state : AppState unit (MemoryAuditSink (ChainedAuditEvent unit)) :=
  AppState_new [x09] "cp-1" sample_db.
Definition sample_request : SessionRequestPayload :=
  mkSessionRequestPayload "org-1" "alice" "client-1" "dev-1" ["desktop.view"] [x07].
Definition toy_request_from (st : AppState unit (MemoryAuditSink (ChainedAuditEvent unit)))
    (p : SessionRequestPayload) (seed : byte) :=
  @request_session_handler unit (MemoryAuditSink (ChainedAuditEvent unit)) tt (λ _, tt)
    toy_ed25519 (countable_prost _) toy_blake3 (countable_json_de _) (countable_json _)
    (countable_json _) _ Debug st p 16 (replicate 16 seed)
    (replicate 16 x0b) Db_works Db_works Db_works.
Definition toy_request := toy_request_from sample_state sample_request x0a.


(** A token for two devices, stored, and the first device's request. *)
Definition fleet_token : EnrollmentToken :=
  mkEnrollmentToken "tok-fleet-1" "org-1" Device_Host 10 100 2 (replicate 64 x09).
Definition fleet_request (sk : bytes) (hostname : string) : DeviceRegistrationRequest :=
  @sign_proof toy_ed25519 (mkDeviceRegistrationRequest fleet_token (@ed_public toy_ed25519 sk)
    "windows" "x86_64" hostname "0.1.0" 15 []) sk.
Definition fleet_state : AppState unit (MemoryAuditSink (ChainedAuditEvent unit)) :=
  AppState_new [x09] "cp-1" (toy_store Db_empty fleet_token Db_works).2.
Definition toy_json_credential : SerdeJson CanonicalCredentialPayload := λ _, Ok [].
Definition toy_enroll_handler (st : AppState unit (MemoryAuditSink (ChainedAuditEvent unit)))
    (req : DeviceRegistrationRequest) :=
  @enroll_device_handler unit _ tt (λ _, tt) toy_ed25519 toy_blake3 (countable_json _)
    toy_json_credential (countable_json_de _) (countable_json _) (countable_json _)
    (countable_json _) _ "signature error" Debug st req 16 Db_works Db_works.

Lemma enrollment_handler_sound_witness :
  ∃ cred st', toy_enroll_handler fleet_state (fleet_request [x01] "host-a") =
      Some (Ok cred, st') ∧
    db_devices (st_storage fleet_state) !! cred_device_id cred = None.
Proof.
  assert (match toy_enroll_handler fleet_state (fleet_request [x01] "host-a") with
          | Some (Ok _, _) => true | _ => false end = true) as Hok by (vm_compute; reflexivity).
  destruct (toy_enroll_handler _ _) as [[[cred|] st']|] eqn:E; try discriminate Hok.
  exists cred, st'. split; [reflexivity|].
  eapply (@enrollment_handler_sound unit _ tt (λ _, tt) toy_ed25519 toy_ed25519_laws toy_blake3
    (countable_json _) toy_json_credential (countable_json _) (countable_json_de _)
    (countable_json _) (countable_json_de _) (countable_json_de_laws _) (countable_json _)
    (countable_json _) _ "signature error" Debug fleet_state st'
    (fleet_request [x01] "host-a") 16 Db_works Db_works cred);
    [reflexivity|done|cbv; intuition discriminate|exact E].
Defined.

(** The device's identifier is made of the first eight bytes of the token's, so the
    second device of a token for two is refused by the primary key of [devices]. *)
Example second_device_refused :
  (match toy_enroll_handler fleet_state (fleet_request [x01] "host-a") with
   | Some (Ok cred, st) =>
       (cred_device_id cred,
        option_map fst (toy_enroll_handler st (fleet_request [x02] "host-b")))
   | _ => ("", None)
   end) = ("dev-host-tok-flee", Some (Err (500, Api_Storage))).
Proof. vm_compute. reflexivity. Qed.

(** The handler tells the policy that no session is active, and grants all that the
    policy allows: two users get control of one device at the same time, one of
    them of another organization, and neither asked for it. *)
Definition granted_permissions (r : SessionAuthorizationResponse) : list string :=
  from_option cap_permissions []
    (@prost_decode _ (countable_prost SessionCapability) (sa_capability_bytes r)).
Example concurrent_control_granted :
  (match toy_request with
   | Some (Ok r1, st) =>
       match toy_request_from st (mkSessionRequestPayload "org-2" "mallory" "client-2" "dev-1"
               ["desktop.view"] [x08]) x0c with
       | Some (Ok r2, _) =>
           bool_decide ("desktop.control" ∈ granted_permissions r1) &&
           bool_decide ("desktop.control" ∈ granted_permissions r2)
       | _ => false
       end
   | _ => false
   end) = true.
Proof. vm_compute. reflexivity. Qed.
