(* ===== verification/AuditTrail.v ===== *)
(** * The audit trail of the control plane

    Over any sequence of requests the hash chain in memory and the audit table of
    the store hold the same events, and what was granted is on record. *)

From stdpp Require Import sorting.
From S2P Require Import Prelude RustStr Common Crypto Protocol Enrollment AuditLog PolicyModel PolicyEngine Relay Storage ControlPlane Authorization.

Open Scope string_scope.
Open Scope list_scope.
Open Scope Z_scope.

Section rows.
Context {Value : Type} `{SerdeJson (AuditEvent Value)}.

Definition canonical (e : AuditEvent Value) : bytes :=
  match AuditEvent_canonical_bytes e with Ok json => json | Err _ => [] end.

(** The row of an event, and the table that holds a log. *)
Definition audit_row (c : ChainedAuditEvent Value) : AuditRow :=
  let e := ch_event c in
  mkAuditRow (ev_organization_id e) (ev_user_id e) (ev_device_id e) (ev_session_id e)
    (AuditEventType_as_str (ev_event_type e)) (ch_sequence c) (canonical e)
    (as_bytes (ch_previous_hash c)) (as_bytes (ch_hash c)) (ev_timestamp e).
Definition event_id (c : ChainedAuditEvent Value) : string := ev_event_id (ch_event c).
Definition audit_table (log : list (ChainedAuditEvent Value)) : gmap string AuditRow :=
  list_to_map ((λ c, (event_id c, audit_row c)) <$> log).

Lemma audit_table_lookup log id :
  audit_table log !! id = None ↔ id ∉ event_id <$> log.
Proof.
  unfold audit_table. rewrite <-not_elem_of_list_to_map. by rewrite <-list_fmap_compose.
Qed.
Lemma audit_table_snoc log c :
  event_id c ∉ event_id <$> log →
  audit_table (log ++ [c]) = <[event_id c := audit_row c]> (audit_table log).
Proof.
  intros Hn. unfold audit_table. rewrite fmap_app. apply list_to_map_snoc.
  by rewrite <-list_fmap_compose.
Qed.

Lemma insert_audit_event_ok db (c : ChainedAuditEvent Value) fault db' :
  insert_audit_event db c fault = (Ok tt, db') →
  db_audit_events db !! event_id c = None ∧
  db_audit_events db' = <[event_id c := audit_row c]> (db_audit_events db).
Proof.
  intros Ht%transaction_ok. unbind Ht. injection Ht as <-. rewrite map_err_ok in E.
  apply to_i64_ok in E1 as [-> _], E2 as [-> _].
  destruct (insert_organization_frame db (ev_organization_id (ch_event c))
    (ev_timestamp (ch_event c))) as (_ & _ & _ & _ & F & _).
  unfold insert_audit_row in E3. rewrite F in E3. unfold references_ok at 1 in E3.
  case_bool_decide as Hn; [done|]. destruct (_ || _) eqn:Eb; [done|]. injection E3 as <-. cbn.
  rewrite <-eq_None_not_Some in Hn. split; [done|]. unfold audit_row, canonical.
  by rewrite E.
Qed.

End rows.

Section trail.
Context {Value Sink : Type} (Null : Value) (json_object : list (string * string) → Value).
Context `{Ed25519, Prost SessionCapability, Blake3}.
Context `{SerdeJson CanonicalEnrollmentPayload, SerdeJson CanonicalCredentialPayload}.
Context `{SerdeJson EnrollmentToken, SerdeJsonDe EnrollmentToken}.
Context `{SerdeJson DeviceCredential, SerdeJsonDe DeviceCredential}.
Context `{SerdeJson (list string), SerdeJsonDe (list string)}.
Context `{SerdeJson (AuditEvent Value), AuditSink (ChainedAuditEvent Value) Sink}.
Context (dalek_error : string) (bld : build).

Abbreviation state := (AppState Value Sink).
Definition trail (st : state) : list (ChainedAuditEvent Value) := ac_events (st_audit_chain st).

(** The chain is sound and the store holds it. *)
Record trail_ok (st : state) : Prop := {
  tk_chain : chain_ok (st_audit_chain st);
  tk_genesis : ac_genesis_seed (st_audit_chain st) = GENESIS_HASH;
  tk_ids : NoDup (event_id <$> trail st);
  tk_store : db_audit_events (st_storage st) = audit_table (trail st)
}.

Lemma trail_ok_store st db :
  trail_ok st → db_audit_events db = db_audit_events (st_storage st) →
  trail_ok (st_with st db (st_audit_chain st) (st_audit_sink st)).
Proof. intros [? ? ? ?] E. split; try done. cbn. by rewrite E. Qed.

(** Recording an event: a failure of the chain or of the store leaves the trail as
    it was; otherwise the event is its last one, also if the sink refuses it. *)
Lemma record_audit_trail st event fault r st' :
  trail_ok st → record_audit st event fault = (r, st') →
  trail_ok st' ∧
  (trail st' = trail st ∨ ∃ c, ch_event c = event ∧ trail st' = trail st ++ [c]) ∧
  (r = Ok tt → ∃ c, ch_event c = event ∧ trail st' = trail st ++ [c]).
Proof.
  intros [Hc Hg Hid Hs]. unfold record_audit, record_append.
  pose proof (chain_append_ok _ event Hc) as Hc'.
  destruct (AuditChain_append (st_audit_chain st) event) as [[c|e] chain] eqn:Ea;
    [|intros [= <- <-]; split; [by split|split; [by left|done]]].
  unfold AuditChain_append in Ea. destruct (compute_event_hash _ _ _) as [h|]; [|done].
  injection Ea as <- <-. cbn in Hc'. unfold record_insert. cbn [st_with st_storage st_audit_sink].
  destruct (insert_audit_event _ _ _) as [[[]|e] db] eqn:Ei.
  - apply insert_audit_event_ok in Ei as [Hnew Hdb]. rewrite Hs in Hnew, Hdb.
    apply audit_table_lookup in Hnew.
    destruct (sink_record _ _) as [r1 sink]. intros [= <- <-]. split.
    + split; cbn; [done|done| |].
      * unfold trail. cbn. rewrite fmap_app. apply NoDup_app. split; [done|].
        split; [|apply NoDup_singleton]. intros x Hx. cbn. rewrite list_elem_of_singleton.
        intros ->. by apply Hnew.
      * rewrite Hdb. symmetry. by apply audit_table_snoc.
    + split; [right|intros _]; (eexists; split; [|reflexivity]; done).
  - apply transaction_err in Ei as [_ ->]. intros [= <- <-].
    split; [by split|]. split; [by left|done].
Qed.

Lemma audit_built_trail st b event fault r st' :
  AuditEventBuilder_build Null b = Ok event →
  trail_ok st → audit_built Null st b fault = (r, st') →
  trail_ok st' ∧
  (trail st' = trail st ∨ ∃ c, ch_event c = event ∧ trail st' = trail st ++ [c]) ∧
  (r = Ok tt → ∃ c, ch_event c = event ∧ trail st' = trail st ++ [c]).
Proof.
  intros Hb Hok. unfold audit_built. rewrite Hb.
  destruct (record_audit st event fault) as [r1 st1] eqn:Er.
  apply record_audit_trail in Er as (? & ? & Hr); [|done]. intros [= <- <-].
  split; [done|]. split; [done|]. intros E. apply Hr. by destruct r1 as [[]|].
Qed.

(** ** Runs *)

(** The requests the control plane serves. *)
Inductive cp_call :=
  | Call_StoreToken (token : EnrollmentToken) (fault : db_fault)
  | Call_Enroll (req : DeviceRegistrationRequest) (now : Z) (fault audit_fault : db_fault)
  | Call_Request (p : SessionRequestPayload) (now : Z) (uuid nonce : bytes)
      (get_fault fault audit_fault : db_fault).
Inductive cp_answer :=
  | Answer_Stored (ok : bool)
  | Answer_Credential (c : DeviceCredential)
  | Answer_Session (r : SessionAuthorizationResponse)
  | Answer_Error (e : Z * ApiError).

(** One request served; [None] when the handler panics. *)
Definition cp_serve (st : state) (call : cp_call) : option (cp_answer * state) :=
  match call with
  | Call_StoreToken token fault =>
      let (r, db) := store_enrollment_token (st_storage st) token fault in
      Some (Answer_Stored (is_ok r), st_with st db (st_audit_chain st) (st_audit_sink st))
  | Call_Enroll req now fault audit_fault =>
      '(r, st) ← enroll_device_handler Null json_object dalek_error bld st req now fault
                  audit_fault;
      Some (match r with Ok c => Answer_Credential c | Err e => Answer_Error e end, st)
  | Call_Request p now uuid nonce get_fault fault audit_fault =>
      '(r, st) ← request_session_handler Null json_object bld st p now uuid nonce get_fault
                  fault audit_fault;
      Some (match r with Ok c => Answer_Session c | Err e => Answer_Error e end, st)
  end.

(** When a request is served. *)
Definition call_time (call : cp_call) : Z :=
  match call with
  | Call_StoreToken _ _ => 0
  | Call_Enroll _ now _ _ | Call_Request _ now _ _ _ _ _ => now
  end.

(** The clock shows a time of the epoch. *)
Inductive cp_step : state → state → Prop :=
  | cp_served st call answer st' :
      0 ≤ call_time call → cp_serve st call = Some (answer, st') → cp_step st st'.

(** The event that an answer leaves on record. *)
Definition on_record (call : cp_call) (answer : cp_answer) (e : AuditEvent Value) : Prop :=
  match call, answer with
  | Call_Enroll req now _ _, Answer_Credential c =>
      ev_event_type e = Ev_DeviceEnroll ∧ ev_device_id e = Some (cred_device_id c) ∧
      ev_organization_id e = tok_organization_id (req_enrollment_token req) ∧
      ev_timestamp e = now
  | Call_Request p now _ _ _ _ _, Answer_Session r =>
      ev_event_type e = Ev_SessionAuthorize ∧ ev_session_id e = Some (sa_session_id r) ∧
      ev_user_id e = Some (sq_subject_user_id p) ∧
      ev_device_id e = Some (sq_target_device_id p) ∧ ev_timestamp e = now
  | Call_Request p now _ _ _ _ _, Answer_Error (403, Api_Denied reason) =>
      ev_event_type e = Ev_SessionDeny ∧ ev_user_id e = Some (sq_subject_user_id p) ∧
      ev_device_id e = Some (sq_target_device_id p) ∧ ev_timestamp e = now
  | _, _ => False
  end.
(** The answers that leave one. *)
Definition is_recorded (answer : cp_answer) : bool :=
  match answer with
  | Answer_Credential _ | Answer_Session _ | Answer_Error (_, Api_Denied _) => true
  | _ => false
  end.

Definition served_ok (call : cp_call) (answer : cp_answer) (st st' : state) : Prop :=
  trail_ok st' ∧
  (∃ l, trail st' = trail st ++ l ∧ (length l ≤ 1)%nat ∧
     Forall (λ c, ev_timestamp (ch_event c) = call_time call) l) ∧
  (is_recorded answer = true →
     ∃ c, trail st' = trail st ++ [c] ∧ on_record call answer (ch_event c)).

Lemma served_unrecorded call answer st db :
  trail_ok st → db_audit_events db = db_audit_events (st_storage st) →
  is_recorded answer = false →
  served_ok call answer st (st_with st db (st_audit_chain st) (st_audit_sink st)).
Proof.
  intros Hok E Ha. split; [by apply trail_ok_store|]. split; [|by rewrite Ha].
  exists []. split_and!; [by rewrite app_nil_r|cbn; lia|constructor].
Qed.
Lemma served_nothing call answer st :
  trail_ok st → is_recorded answer = false → served_ok call answer st st.
Proof.
  intros Hok Ha. split; [done|]. split; [|by rewrite Ha].
  exists []. split_and!; [by rewrite app_nil_r|cbn; lia|constructor].
Qed.

(** The last thing a handler does is to record an event. *)
Lemma served_audit call answer st db b event fault r st' :
  trail_ok st → db_audit_events db = db_audit_events (st_storage st) →
  AuditEventBuilder_build Null b = Ok event → ev_timestamp event = call_time call →
  audit_built Null (st_with st db (st_audit_chain st) (st_audit_sink st)) b fault = (r, st') →
  (is_recorded answer = true → r = Ok tt ∧ on_record call answer event) →
  served_ok call answer st st'.
Proof.
  intros Hok E Hb Htime Ha Hans. apply (audit_built_trail _ _ event) in Ha as (Hok' & Hl & Hr);
    [|done|by apply trail_ok_store].
  split; [done|]. split.
  - destruct Hl as [Hl|(c & <- & Hl)]; rewrite Hl; [exists []|exists [c]];
      (split_and!; [by rewrite ?app_nil_r|cbn; lia|by repeat constructor]).
  - intros (Er & Hrec)%Hans. destruct (Hr Er) as (c & <- & Hc). by exists c.
Qed.

Lemma enroll_device_audit db id now device fault r db' :
  enroll_device db id now device fault = (r, db') → db_audit_events db' = db_audit_events db.
Proof.
  destruct r as [token|]; [|by intros [_ ->]%transaction_err].
  intros (row & _ & _ & _ & _ & _ & _ & db1 & _ & [_ <-] & Hreg)%enroll_device_ok.
  by apply register_device_ok in Hreg as (_ & _ & _ & _ & ? & _).
Qed.

Lemma audit_built_err (st : state) b fault e st' :
  audit_built Null st b fault = (Err e, st') → e = (500, Api_Storage).
Proof.
  unfold audit_built. destruct (AuditEventBuilder_build _ _); [|done].
  by destruct (record_audit _ _ _) as [[[]|] ?]; intros [= <- _].
Qed.

Lemma issue_credential_err (st : state) req now e :
  issue_credential bld st req now = Some (Err e) → is_recorded (Answer_Error e) = false.
Proof.
  unfold issue_credential. destruct (token_prefix _); cbn [mbind option_bind]; [|done].
  destruct (Id_new _); [|by intros [= <-]].
  destruct (plain _ _ _); cbn [mbind option_bind]; [|done].
  destruct (DeviceCredentialBuilder_build _); [|by intros [= <-]].
  destruct (DeviceCredential_sign _ _) as [[] ?]; [done|by intros [= <-]].
Qed.

Lemma issue_relay_token_err (st : state) p sid role expires e :
  issue_relay_token st p sid role expires = Err e → is_recorded (Answer_Error e) = false.
Proof. unfold issue_relay_token. destruct (RelayTokenBuilder_build _); by intros [= <-]. Qed.

Lemma store_token_served st token fault answer st' :
  trail_ok st → cp_serve st (Call_StoreToken token fault) = Some (answer, st') →
  served_ok (Call_StoreToken token fault) answer st st'.
Proof.
  intros Hok. cbn. destruct (store_enrollment_token _ _ _) as [r db] eqn:E. intros [= <- <-].
  apply served_unrecorded; [done| |done]. destruct r as [[]|].
  - by apply store_enrollment_token_ok in E as (_ & _ & _ & _ & ?).
  - by apply transaction_err in E as [_ ->].
Qed.

Lemma enroll_served st req now f1 f2 answer st' :
  trail_ok st → cp_serve st (Call_Enroll req now f1 f2) = Some (answer, st') →
  served_ok (Call_Enroll req now f1 f2) answer st st'.
Proof.
  intros Hok. cbn. unfold enroll_device_handler.
  destruct (EnrollmentToken_verify _ _ _ _) as [[]|];
    [|intros [= <- <-]; by apply served_nothing].
  destruct (verify_proof _ _) as [[]|]; [|intros [= <- <-]; by apply served_nothing].
  destruct (issue_credential _ _ _ _) as [[cred|e]|] eqn:Ei; [| |done];
    cbn [mbind option_bind]; cycle 1.
  { intros [= <- <-]. apply served_nothing; [done|]. by apply issue_credential_err in Ei. }
  destruct (enroll_device _ _ _ _ _) as [[token|e] db] eqn:Ed; apply enroll_device_audit in Ed.
  - destruct (audit_built _ _ _ _) as [r st1] eqn:Ea. intros [= <- <-].
    eapply served_audit; [done|exact Ed| | |exact Ea|]; [reflexivity..|].
    destruct r as [[]|e]; [done|]. by apply audit_built_err in Ea as ->.
  - intros [= <- <-]. apply served_unrecorded; [done|done|]. by destruct e.
Qed.

Lemma request_served st p now uuid nonce f1 f2 f3 answer st' :
  trail_ok st → cp_serve st (Call_Request p now uuid nonce f1 f2 f3) = Some (answer, st') →
  served_ok (Call_Request p now uuid nonce f1 f2 f3) answer st st'.
Proof.
  intros Hok. cbn. unfold request_session_handler.
  destruct (get_device _ _ _) as [[d|]|]; [|intros [= <- <-]; by apply served_nothing..].
  destruct (negb _); [intros [= <- <-]; by apply served_nothing|].
  destruct (evaluate _ _ _ _) as [granted ? ?|reason].
  - unfold authorize_session. destruct (Id_new _) as [sid|];
      [|intros [= <- <-]; by apply served_nothing].
    destruct (plain _ _ _) as [expires|]; cbn [mbind option_bind]; [|done].
    destruct (issue_relay_token _ _ _ Role_Client _) as [ct|e] eqn:Ec; cycle 1.
    { intros [= <- <-]. apply served_nothing; [done|]. by apply issue_relay_token_err in Ec. }
    destruct (issue_relay_token _ _ _ Role_Host _) as [ht|e] eqn:Eh; cycle 1.
    { intros [= <- <-]. apply served_nothing; [done|]. by apply issue_relay_token_err in Eh. }
    destruct (insert_authorized_session _ _ _) as [[[]|e] db] eqn:Ed;
      apply session_frame in Ed as (_ & _ & Ed);
      [|intros [= <- <-]; by apply served_unrecorded].
    destruct (audit_built _ _ _ _) as [r st1] eqn:Ea. intros [= <- <-].
    eapply served_audit; [done|exact Ed| | |exact Ea|]; [reflexivity..|].
    destruct r as [[]|e]; [done|]. by apply audit_built_err in Ea as ->.
  - unfold deny_session. destruct (audit_built _ _ _ _) as [r st1] eqn:Ea. intros [= <- <-].
    eapply (served_audit _ _ st (st_storage st)); [done| | | |destruct st; exact Ea|];
      [reflexivity..|].
    destruct r as [[]|e]; [done|]. by apply audit_built_err in Ea as ->.
Qed.

Lemma served st call answer st' :
  trail_ok st → cp_serve st call = Some (answer, st') → served_ok call answer st st'.
Proof. destruct call; [apply store_token_served|apply enroll_served|apply request_served]. Qed.

Lemma run_trail_ok st st' : rtc cp_step st st' → trail_ok st → trail_ok st'.
Proof.
  induction 1 as [|st1 st2 st3 [st0 call answer st4 _ Hs] _ IH]; [done|].
  intros Hok. apply IH. by apply (served _ _ _ _ Hok Hs).
Qed.
Lemma run_trail_times st st' :
  rtc cp_step st st' → trail_ok st → Forall (λ c, 0 ≤ ev_timestamp (ch_event c)) (trail st) →
  Forall (λ c, 0 ≤ ev_timestamp (ch_event c)) (trail st').
Proof.
  induction 1 as [|st1 st2 st3 [st0 call answer st4 Ht Hs] _ IH]; [done|].
  intros Hok Hall. apply (served _ _ _ _ Hok) in Hs as (Hok' & (l & El & _ & Hl) & _).
  apply IH; [done|]. rewrite El. apply Forall_app. split; [done|].
  eapply Forall_impl; [exact Hl|]. cbn. by intros c ->.
Qed.
End trail.

(** ** Reading the trail back *)

Section read_back.
Context {Value : Type} `{Blake3Ascii, SerdeJsonDeLaws (AuditEvent Value)}.
Implicit Types (log : list (ChainedAuditEvent Value)) (c : ChainedAuditEvent Value).

Definition seq_lt (a b : ChainedAuditEvent Value) : Prop := ch_sequence a < ch_sequence b.
Definition readable c : Prop :=
  0 ≤ ch_sequence c ∧ is_ascii (ch_previous_hash c) = true ∧ is_ascii (ch_hash c) = true ∧
  ∃ json, AuditEvent_canonical_bytes (ch_event c) = Ok json.

Lemma valid_from_readable i prev log :
  0 ≤ i → is_ascii prev = true → valid_from i prev log →
  StronglySorted seq_lt log ∧ Forall (λ c, i < ch_sequence c) log ∧ Forall readable log.
Proof.
  intros Hi Hp Hv. induction Hv as [|i prev e h log Hh Hv IH]; [by repeat constructor|].
  apply result_bind_ok in Hh as (json & Hj & Hh). rewrite map_err_ok in Hj.
  assert (is_ascii h = true) as Ha by (injection Hh as <-; apply blake3_hex_ascii).
  destruct IH as (Hs & Hlt & Hr); [lia|done|]. split_and!.
  - constructor; [done|]. exact Hlt.
  - constructor; [cbn; lia|]. eapply Forall_impl; [exact Hlt|]. cbn. lia.
  - constructor; [|done]. split; [cbn; lia|]. split_and!; [done|done|by exists json].
Qed.

Lemma audit_event_from_audit_row c :
  readable c → 0 ≤ ev_timestamp (ch_event c) →
  audit_event_from_row (ev_organization_id (ch_event c)) (event_id c) (audit_row c) = Ok c.
Proof.
  intros (Hs & Hp & Hh & json & Hj) Ht. unfold audit_event_from_row, audit_row, canonical.
  cbn [ar_sequence ar_event_json ar_timestamp ar_user_id ar_device_id ar_session_id
    ar_event_type ar_previous_hash ar_hash].
  rewrite Hj, (json_from_to _ _ Hj), AuditEventType_from_as_str, !from_utf8_ascii by done.
  rewrite (proj2 (from_i64_ok "sequence" _ _) (conj eq_refl Hs)),
    (proj2 (from_i64_ok "timestamp" _ _) (conj eq_refl Ht)).
  cbn [mbind result_bind map_err ok_or]. unfold str_eqb, event_id.
  rewrite Z.eqb_refl, !bool_decide_true by done. by destruct c.
Qed.

Definition log_rows log : list (string * AuditRow) := (λ c, (event_id c, audit_row c)) <$> log.
Definition of_organization (org : string) log : list (ChainedAuditEvent Value) :=
  filter (λ c, ev_organization_id (ch_event c) = org) log.

Lemma log_rows_filter org log :
  filter (λ r, ar_organization_id r.2 = org) (log_rows log) = log_rows (of_organization org log).
Proof.
  unfold of_organization, log_rows. induction log as [|c log IH]; [done|].
  rewrite fmap_cons, !filter_cons. cbn. case_decide; cbn; by rewrite IH.
Qed.
Lemma log_rows_sorted log : StronglySorted seq_lt log → StronglySorted row_le (log_rows log).
Proof.
  unfold log_rows. induction 1 as [|c log _ IH Hall]; [constructor|]. cbn. constructor; [done|].
  apply Forall_fmap. eapply Forall_impl; [exact Hall|]. unfold seq_lt, row_le. cbn. lia.
Qed.
Lemma log_rows_seq_inj log x y :
  StronglySorted seq_lt log → x ∈ log_rows log → y ∈ log_rows log →
  row_le x y → row_le y x → x = y.
Proof.
  intros Hs. unfold log_rows. rewrite !list_elem_of_fmap.
  intros (c & -> & Hc) (d & -> & Hd). unfold row_le. cbn. intros Hcd Hdc.
  assert (ch_sequence c = ch_sequence d) as Heq by lia. clear Hcd Hdc.
  enough (c = d) as -> by done.
  induction Hs as [|e log _ IH Hall]; [by apply elem_of_nil in Hc|].
  rewrite Forall_forall in Hall. unfold seq_lt in Hall.
  apply elem_of_cons in Hc as [->|Hc], Hd as [->|Hd]; [done| | |by apply IH].
  - specialize (Hall d Hd). lia.
  - specialize (Hall c Hc). lia.
Qed.

Lemma sorted_filter {A} (R : A → A → Prop) (P : A → Prop) `{∀ x, Decision (P x)} l :
  StronglySorted R l → StronglySorted R (filter P l).
Proof.
  induction 1 as [|x l _ IH Hall]; [constructor|]. rewrite filter_cons.
  case_decide; [|done]. constructor; [done|]. rewrite Forall_forall in *.
  intros y [_ Hy]%list_elem_of_filter. by apply Hall.
Qed.

Lemma filter_all {A} (P : A → Prop) `{∀ x, Decision (P x)} l : Forall P l → filter P l = l.
Proof.
  induction 1 as [|x l Hx _ IH]; [done|]. by rewrite filter_cons, decide_True, IH.
Qed.

(** The rows selected are those of the log, in its order. *)
Lemma select_audit_table org db log :
  NoDup (event_id <$> log) → StronglySorted seq_lt log → db_audit_events db = audit_table log →
  select_audit_rows db org = log_rows (of_organization org log).
Proof.
  intros Hnd Hs E. unfold select_audit_rows. rewrite E.
  assert (filter (λ r, ar_organization_id r.2 = org) (map_to_list (audit_table log))
    ≡ₚ log_rows (of_organization org log)) as Hp.
  { rewrite <-log_rows_filter. apply filter_Permutation, map_to_list_to_map.
    unfold log_rows. by rewrite <-list_fmap_compose. }
  assert (StronglySorted seq_lt (of_organization org log)) as Hs'.
  { by apply sorted_filter. }
  rewrite <-(merge_sort_Permutation row_le) in Hp.
  eapply (StronglySorted_unique_strong row_le); [| | |exact Hp].
  - intros x y Hx Hy. apply (log_rows_seq_inj (of_organization org log)); [done| |done].
    by rewrite <-Hp.
  - apply StronglySorted_merge_sort; intros ?; unfold row_le; lia.
  - by apply log_rows_sorted.
Qed.

Lemma read_log_rows org log :
  Forall readable log → Forall (λ c, 0 ≤ ev_timestamp (ch_event c)) log →
  mapM (λ r, audit_event_from_row org r.1 r.2) (log_rows (of_organization org log)) =
    Ok (of_organization org log).
Proof.
  unfold of_organization, log_rows. induction 1 as [|c log Hc _ IH]; [done|].
  intros [Ht Htl]%Forall_cons. rewrite filter_cons. case_decide as E; [|by apply IH].
  cbn. subst org. rewrite audit_event_from_audit_row by done. cbn. by rewrite IH.
Qed.
End read_back.

(** C17. The audit trail.  Start the control plane on a store without audit events
    and serve any sequence of requests, one after the other, with any failures of
    the store, of the sink and of serialization: the hash chain verifies, its event
    ids are distinct, and the audit table holds exactly its events with their
    sequence numbers and hashes.  Serving one more request keeps the events there
    are and adds at most one; a device that gets a credential, a session that is
    authorized and one that is denied are each on record with who, what and when. *)
Theorem audit_trail_complete {Value Sink} Null json_object `{Ed25519, !Prost SessionCapability,
    Blake3, !SerdeJson CanonicalEnrollmentPayload, !SerdeJson CanonicalCredentialPayload,
    !SerdeJson EnrollmentToken, !SerdeJsonDe EnrollmentToken, !SerdeJson DeviceCredential,
    !SerdeJsonDe DeviceCredential, !SerdeJson (list string), !SerdeJsonDe (list string),
    !SerdeJson (AuditEvent Value), !AuditSink (ChainedAuditEvent Value) Sink}
    dalek_error bld key cp_id db (sink : Sink) (st : AppState Value Sink) :
  db_audit_events db = ∅ →
  rtc (cp_step Null json_object dalek_error bld)
    (with_audit_sink (AppState_new key cp_id db) sink) st →
  verify_chain (trail st) None = Ok tt ∧ NoDup (event_id <$> trail st) ∧
  db_audit_events (st_storage st) = audit_table (trail st) ∧
  ∀ call answer st', cp_serve Null json_object dalek_error bld st call = Some (answer, st') →
    (∃ l, trail st' = trail st ++ l ∧ (length l ≤ 1)%nat ∧
       Forall (λ c, ev_timestamp (ch_event c) = call_time call) l) ∧
    (is_recorded answer = true →
       ∃ c, trail st' = trail st ++ [c] ∧ on_record call answer (ch_event c)).
Proof.
  intros Hdb Hrun. assert (trail_ok st) as [Hc Hg Hid Hs].
  { eapply run_trail_ok; [exact Hrun|]. split; [apply chain_new_ok|done|constructor|done]. }
  split_and!; [|done|done|].
  - apply verify_from_spec. cbn. rewrite <-Hg. apply Hc.
  - intros call answer st' Hserve. apply served in Hserve as (_ & ? & ?); [done|].
    by split.
Qed.

(** Reading the trail back: after any sequence of requests, the events the store
    lists for an organization are the events of the chain that concern it, in the
    order they were recorded and equal in every field; a control plane that serves
    one organization reads back a chain that verifies. *)
Theorem audit_events_read_back {Value Sink} Null json_object `{Ed25519, !Prost SessionCapability,
    Blake3Ascii, !SerdeJson CanonicalEnrollmentPayload, !SerdeJson CanonicalCredentialPayload,
    !SerdeJson EnrollmentToken, !SerdeJsonDe EnrollmentToken, !SerdeJson DeviceCredential,
    !SerdeJsonDe DeviceCredential, !SerdeJson (list string), !SerdeJsonDe (list string),
    !SerdeJson (AuditEvent Value), !SerdeJsonDe (AuditEvent Value),
    !SerdeJsonDeLaws (AuditEvent Value), !AuditSink (ChainedAuditEvent Value) Sink}
    dalek_error bld key cp_id db (sink : Sink) (st : AppState Value Sink) org :
  db_audit_events db = ∅ →
  rtc (cp_step Null json_object dalek_error bld)
    (with_audit_sink (AppState_new key cp_id db) sink) st →
  list_audit_events (st_storage st) org Db_works = Ok (of_organization org (trail st)) ∧
  (Forall (λ c, ev_organization_id (ch_event c) = org) (trail st) →
   ∃ events, list_audit_events (st_storage st) org Db_works = Ok events ∧
     verify_chain events None = Ok tt).
Proof.
  intros Hdb Hrun.
  assert (trail_ok (with_audit_sink (AppState_new (Value := Value) key cp_id db) sink)) as H0'.
  { split; [apply chain_new_ok|done|constructor|done]. }
  destruct (run_trail_ok _ _ _ _ _ _ Hrun H0') as [Hc Hg Hid Hs].
  assert (valid_from 0 GENESIS_HASH (trail st)) as Hv by (rewrite <-Hg; apply Hc).
  destruct (valid_from_readable 0 GENESIS_HASH (trail st)) as (Hsort & _ & Hr); [done..|].
  assert (list_audit_events (st_storage st) org Db_works = Ok (of_organization org (trail st)))
    as Hl.
  { unfold list_audit_events, check_fault. cbn.
    rewrite (select_audit_table org _ (trail st)) by done. apply read_log_rows; [done|].
    eapply run_trail_times; [exact Hrun|done|constructor]. }
  split; [done|]. intros Hall. exists (trail st). rewrite Hl. split.
  - unfold of_organization. f_equal. by apply filter_all.
  - by apply verify_from_spec.
Qed.

Abbreviation toy_state := (AppState unit (MemoryAuditSink (ChainedAuditEvent unit))).
Definition toy_serve : toy_state → cp_call → option (cp_answer * toy_state) :=
  @cp_serve unit _ tt (λ _, tt) toy_ed25519 (countable_prost _) toy_blake3 (countable_json _)
    toy_json_credential (countable_json _) (countable_json_de _) (countable_json _)
    (countable_json_de _) (countable_json _) (countable_json _) _ "signature error" Debug.
Definition sample_call : cp_call :=
  Call_Request sample_request 16 (replicate 16 x0a) (replicate 16 x0b) Db_works Db_works Db_works.

Lemma audit_trail_complete_witness :
  ∃ answer st, toy_serve sample_state sample_call = Some (answer, st) ∧
    is_recorded answer = true ∧
    @verify_chain unit toy_blake3 (countable_json _) (trail st) None = Ok tt.
Proof.
  assert (match toy_serve sample_state sample_call with
          | Some (a, _) => is_recorded a | None => false end = true) as Hok
    by (vm_compute; reflexivity).
  destruct (toy_serve sample_state sample_call) as [[answer st]|] eqn:E; [|discriminate Hok].
  exists answer, st. split; [reflexivity|]. split; [exact Hok|].
  eapply (@audit_trail_complete unit _ tt (λ _, tt) toy_ed25519 (countable_prost _) toy_blake3
    (countable_json _) toy_json_credential (countable_json _) (countable_json_de _)
    (countable_json _) (countable_json_de _) (countable_json _) (countable_json_de _)
    (countable_json _) _ "signature error" Debug [x09] "cp-1" sample_db (mkMemoryAuditSink []) st);
    [vm_compute; reflexivity|].
  eapply rtc_l; [|apply rtc_refl]. by apply (cp_served _ _ _ _ sample_state sample_call answer).
Defined.

Definition toy_list := @list_audit_events unit (countable_json_de _).

Lemma audit_events_read_back_witness :
  ∃ answer st, toy_serve sample_state sample_call = Some (answer, st) ∧
    toy_list (st_storage st) "org-1" Db_works = Ok (of_organization "org-1" (trail st)) ∧
    length (trail st) = 1%nat.
Proof.
  assert (match toy_serve sample_state sample_call with
          | Some (_, st) => length (trail st) | None => O end = 1%nat) as Hok
    by (vm_compute; reflexivity).
  destruct (toy_serve sample_state sample_call) as [[answer st]|] eqn:E; [|discriminate Hok].
  exists answer, st. split; [reflexivity|]. split; [|exact Hok].
  eapply (@audit_events_read_back unit _ tt (λ _, tt) toy_ed25519 (countable_prost _) toy_blake3
    toy_blake3_ascii (countable_json _) toy_json_credential (countable_json _)
    (countable_json_de _) (countable_json _) (countable_json_de _) (countable_json _)
    (countable_json_de _) (countable_json _) (countable_json_de _) (countable_json_de_laws _) _
    "signature error" Debug [x09] "cp-1" sample_db (mkMemoryAuditSink []) st);
    [vm_compute; reflexivity|].
  eapply rtc_l; [|apply rtc_refl]. by apply (cp_served _ _ _ _ sample_state sample_call answer).
Defined.

(** The chain is shared by all organizations: what is listed for one of two does not
    verify. *)
Definition two_organizations : toy_state :=
  let record st e := (@record_audit unit _ toy_blake3 (countable_json _) _ st e Db_works).2 in
  record (record sample_state (sample_event "first"))
    (AuditEvent_new tt "second" 6 "org-2" Ev_UserLogin).

Example list_of_one_organization_does_not_verify :
  (match toy_list (st_storage two_organizations) "org-2" Db_works with
   | Ok events => Some (event_id <$> events,
       is_ok (@verify_chain unit toy_blake3 (countable_json _) events None))
   | Err _ => None
   end) = Some (["second"], false).
Proof. vm_compute. reflexivity. Qed.

(** ** Interleaved requests *)

(** Two requests that record at the same time: the second one is stored, then the
    insert of the first one fails and restores the chain it cloned.  The chain no
    longer holds the event of the second one, and the next event gets a sequence
    number and a predecessor as if there had been none. *)
Definition interleaved : option (toy_state * toy_state) :=
  let append := @record_append unit _ toy_blake3 (countable_json _) in
  let insert := @record_insert unit (MemoryAuditSink (ChainedAuditEvent unit)) (countable_json _) _ in
  match append sample_state (sample_event "first") with
  | (Ok (prev1, c1), st) =>
      match append st (sample_event "second") with
      | (Ok (prev2, c2), st) =>
          let (_, st) := insert st prev2 c2 Db_works in
          let (_, st1) := insert st prev1 c1 Db_fails_at_start in
          let (_, st2) := @record_audit unit _ toy_blake3 (countable_json _) _ st1
                            (sample_event "third") Db_works in
          Some (st1, st2)
      | _ => None
      end
  | _ => None
  end.

Example interleaved_records_lose_events :
  (λ '(st1, st2), (event_id <$> trail st1, size (db_audit_events (st_storage st1)),
     (λ c, (event_id c, ch_sequence c)) <$> trail st2,
     ar_sequence <$> db_audit_events (st_storage st2) !! "second",
     ar_sequence <$> db_audit_events (st_storage st2) !! "third")) <$> interleaved =
  Some ([], 1%nat, [("third", 1)], Some 2, Some 1).
Proof. vm_compute. reflexivity. Qed.
