(* ===== verification/Unicode.v ===== *)
(** * Characters in UTF-8 and UTF-16

    What the program uses of Rust's [char] and [str]: a [char] is a Unicode scalar
    value, [chars] decodes a string, [to_string] encodes a character in UTF-8, and
    [encode_utf16] and [from_utf16] go to and from 16-bit code units. *)

From S2P Require Import Prelude RustStr.

Open Scope list_scope.
Open Scope Z_scope.

Definition is_scalar (c : Z) : Prop := 0 ≤ c < 55296 ∨ 57344 ≤ c < 1114112.
#[global] Instance is_scalar_dec c : Decision (is_scalar c).
Proof. unfold is_scalar. apply _. Defined.

(** [char::from_u32] *)
Definition char_from_u32 (c : Z) : option Z := if decide (is_scalar c) then Some c else None.

(** ** UTF-8 *)

Definition utf8_char (c : Z) : bytes :=
  to_byte <$>
  (if c <? 128 then [c]
   else if c <? 2048 then [192 + c / 64; 128 + c mod 64]
   else if c <? 65536 then [224 + c / 4096; 128 + c / 64 mod 64; 128 + c mod 64]
   else [240 + c / 262144; 128 + c / 4096 mod 64; 128 + c / 64 mod 64; 128 + c mod 64]).

Definition utf8_string (cs : list Z) : string :=
  String.string_of_list_byte (concat (utf8_char <$> cs)).

(** [str::chars]; strings are well formed, so the last case does not occur. *)
Fixpoint decode_chars (l : bytes) : list Z :=
  match l with
  | [] => []
  | b :: l1 =>
      let c := of_byte b in
      if c <? 128 then c :: decode_chars l1 else
      match l1 with
      | [] => []
      | b2 :: l2 =>
          let c2 := of_byte b2 - 128 in
          if c <? 224 then (c - 192) * 64 + c2 :: decode_chars l2 else
          match l2 with
          | [] => []
          | b3 :: l3 =>
              let c3 := of_byte b3 - 128 in
              if c <? 240 then (c - 224) * 4096 + c2 * 64 + c3 :: decode_chars l3 else
              match l3 with
              | [] => []
              | b4 :: l4 =>
                  (c - 240) * 262144 + c2 * 4096 + c3 * 64 + (of_byte b4 - 128)
                    :: decode_chars l4
              end
          end
      end
  end.
Definition chars (s : string) : list Z := decode_chars (as_bytes s).

Lemma of_to_byte_small z : 0 ≤ z < 256 → of_byte (to_byte z) = z.
Proof. intros. rewrite of_to_byte. by apply Z.mod_small. Qed.

Lemma decode_utf8_char c l : is_scalar c → decode_chars (utf8_char c ++ l) = c :: decode_chars l.
Proof.
  intros Hc. assert (0 ≤ c < 1114112) as Hr by (unfold is_scalar in Hc; lia). clear Hc.
  unfold utf8_char.
  destruct (Z.ltb_spec c 128); [|destruct (Z.ltb_spec c 2048); [|destruct (Z.ltb_spec c 65536)]];
    cbn; rewrite !of_to_byte_small by (split; Z.to_euclidean_division_equations; lia);
    repeat match goal with |- context [?a <? ?b] =>
      destruct (Z.ltb_spec a b); try (exfalso; Z.to_euclidean_division_equations; lia) end;
    f_equal; Z.to_euclidean_division_equations; lia.
Qed.

Lemma as_bytes_utf8_string cs : as_bytes (utf8_string cs) = concat (utf8_char <$> cs).
Proof. apply String.list_byte_of_string_of_list_byte. Qed.

Lemma chars_utf8_string cs : Forall is_scalar cs → chars (utf8_string cs) = cs.
Proof.
  intros Hc. unfold chars. rewrite as_bytes_utf8_string.
  induction Hc as [|c cs Hc _ IH]; [done|]. cbn. by rewrite decode_utf8_char, IH.
Qed.

Lemma utf8_char_length c : (1 ≤ length (utf8_char c) ≤ 4)%nat.
Proof.
  unfold utf8_char. rewrite length_fmap.
  destruct (c <? 128); [cbn; lia|]. destruct (c <? 2048); [cbn; lia|].
  destruct (c <? 65536); cbn; lia.
Qed.

(** ** UTF-16 *)

Definition is_high (u : Z) : bool := (55296 <=? u) && (u <=? 56319).
Definition is_low (u : Z) : bool := (56320 <=? u) && (u <=? 57343).

(** [char::encode_utf16], and [str::encode_utf16]. *)
Definition utf16_char (c : Z) : list Z :=
  if c <? 65536 then [c]
  else [55296 + (c - 65536) / 1024; 56320 + (c - 65536) mod 1024].
Definition encode_utf16 (s : string) : list Z := concat (utf16_char <$> chars s).

(** [String::from_utf16]: [None] at an unpaired surrogate. *)
Fixpoint utf16_chars (us : list Z) : option (list Z) :=
  match us with
  | [] => Some []
  | u :: us1 =>
      if is_high u then
        match us1 with
        | v :: us2 =>
            if is_low v
            then ((65536 + (u - 55296) * 1024 + (v - 56320)) ::.) <$> utf16_chars us2
            else None
        | [] => None
        end
      else if is_low u then None else (u ::.) <$> utf16_chars us1
  end.
Definition from_utf16 (us : list Z) : option string := utf8_string <$> utf16_chars us.

Lemma scalar_not_surrogate c : is_scalar c → c < 65536 → is_high c = false ∧ is_low c = false.
Proof. unfold is_scalar, is_high, is_low. lia. Qed.
Lemma utf16_pair c :
  65536 ≤ c < 1114112 →
  is_high (55296 + (c - 65536) / 1024) = true ∧ is_low (56320 + (c - 65536) mod 1024) = true ∧
  65536 + (55296 + (c - 65536) / 1024 - 55296) * 1024 + (56320 + (c - 65536) mod 1024 - 56320) = c.
Proof. unfold is_high, is_low. intros. split_and!; Z.to_euclidean_division_equations; lia. Qed.

Lemma utf16_chars_encode cs :
  Forall is_scalar cs → utf16_chars (concat (utf16_char <$> cs)) = Some cs.
Proof.
  induction 1 as [|c cs Hc _ IH]; [done|]. cbn. unfold utf16_char at 1.
  destruct (Z.ltb_spec c 65536) as [Hs|Hs]; cbn.
  - destruct (scalar_not_surrogate c Hc Hs) as [-> ->]. by rewrite IH.
  - assert (65536 ≤ c < 1114112) as Hr by (unfold is_scalar in Hc; lia).
    destruct (utf16_pair c Hr) as (-> & -> & Hp). rewrite IH. cbn. do 2 f_equal. exact Hp.
Qed.

(** A decoded pair is a scalar value. *)
Lemma utf16_pair_scalar u v :
  is_high u = true → is_low v = true → is_scalar (65536 + (u - 55296) * 1024 + (v - 56320)).
Proof. unfold is_high, is_low, is_scalar. lia. Qed.
Lemma utf16_char_pair u v :
  is_high u = true → is_low v = true →
  utf16_char (65536 + (u - 55296) * 1024 + (v - 56320)) = [u; v].
Proof.
  unfold is_high, is_low, utf16_char. intros Hu Hv.
  destruct (Z.ltb_spec (65536 + (u - 55296) * 1024 + (v - 56320)) 65536); [lia|].
  f_equal; [|f_equal]; Z.to_euclidean_division_equations; lia.
Qed.
