(* ===== verification/Window.v ===== *)
(** * The client's window thread

    The depth-one render handoff (apps/nexus-client/src/renderer.rs, [RenderQueue])
    and the dedicated window thread with its bounded channels
    (apps/nexus-client/src/window.rs): the coalescing control-event queue, the
    command and event endpoints of [WindowController], the portable thread loop and
    the native window procedure.

    A mutex is never poisoned here (no critical section panics), so an operation
    under a lock is a function of the protected state.  Messages of the native
    window are constructors with the [wparam] ([usize]) and [lparam] ([isize]) the
    code reads; [GetKeyState] is an argument. *)

From S2P Require Import Prelude RustStr Protocol Unicode VideoTransport ClientReceiver Input.

Open Scope Z_scope.

(** ** The render queue *)

Definition MAX_RENDER_ACCESS_UNIT_SIZE : Z := MAX_FRAME_PAYLOAD_SIZE.

Inductive RenderQueueError :=
  | Render_EmptyAccessUnit
  | Render_AccessUnitTooLarge (actual limit : Z)
  | Render_Shutdown
  | Render_StateUnavailable.

Record RenderQueueState := mkRenderQueueState {
  rq_latest : option DecodedFrameJob;
  rq_dropped_frames : Z;
  rq_shutdown : bool
}.
Definition RenderQueue_new : RenderQueueState := mkRenderQueueState None 0 false.

Definition validate_frame (frame : DecodedFrameJob) : result RenderQueueError unit :=
  guard! bool_decide (job_access_unit frame = []) else Render_EmptyAccessUnit ;;
  guard! MAX_RENDER_ACCESS_UNIT_SIZE <? len (job_access_unit frame)
    else Render_AccessUnitTooLarge (len (job_access_unit frame)) MAX_RENDER_ACCESS_UNIT_SIZE ;;
  Ok tt.

Definition push_latest (q : RenderQueueState) (frame : DecodedFrameJob) :
    result RenderQueueError unit * RenderQueueState :=
  match validate_frame frame with
  | Err e => (Err e, q)
  | Ok _ =>
      if rq_shutdown q then (Err Render_Shutdown, q) else
      (Ok tt, mkRenderQueueState (Some frame)
        (match rq_latest q with
         | Some _ => saturating_add u64_max (rq_dropped_frames q) 1
         | None => rq_dropped_frames q
         end) (rq_shutdown q))
  end.
Definition take_latest (q : RenderQueueState) : option DecodedFrameJob * RenderQueueState :=
  (rq_latest q, mkRenderQueueState None (rq_dropped_frames q) (rq_shutdown q)).
Definition RenderQueue_clear (q : RenderQueueState) : RenderQueueState :=
  mkRenderQueueState None (rq_dropped_frames q) (rq_shutdown q).
Definition dropped_frames (q : RenderQueueState) : Z := rq_dropped_frames q.
Definition RenderQueue_shutdown (q : RenderQueueState) : RenderQueueState :=
  mkRenderQueueState None (rq_dropped_frames q) true.
Definition is_shutdown (q : RenderQueueState) : bool := rq_shutdown q.

(** ** Configuration and commands *)

Definition DEFAULT_WINDOW_CHANNEL_CAPACITY : Z := 16.
Definition CONTROL_EVENT_CAPACITY : Z := 4.
Definition MAX_WINDOW_TITLE_BYTES : Z := 256.

Record WindowConfig := mkWindowConfig {
  wc_title : string;
  wc_width : Z;
  wc_height : Z;
  wc_channel_capacity : Z;
  wc_max_render_payload : Z
}.
Definition WindowConfig_default : WindowConfig :=
  mkWindowConfig "Nexus Remote Desktop" 1280 720 DEFAULT_WINDOW_CHANNEL_CAPACITY
    MAX_RENDER_ACCESS_UNIT_SIZE.

Inductive WindowError :=
  | Window_InvalidDimensions | Window_InvalidChannelCapacity | Window_TitleTooLong
  | Window_RenderPayloadTooLarge | Window_ThreadStart | Window_CommandClosed
  | Window_CommandFull | Window_ShutdownTimeout | Window_StartupTimeout.

Inductive WindowCommand :=
  | Command_Render (frame : DecodedFrameJob)
  | Command_SetTitle (title : string)
  | Command_RequestFocus
  | Command_Close
  | Command_Shutdown.

Definition validate_config (c : WindowConfig) : result WindowError unit :=
  guard! (wc_width c =? 0) || (wc_height c =? 0) || (16384 <? wc_width c) || (16384 <? wc_height c)
    else Window_InvalidDimensions ;;
  guard! (wc_channel_capacity c =? 0) || (1024 <? wc_channel_capacity c)
    else Window_InvalidChannelCapacity ;;
  guard! 256 <? str_len (wc_title c) else Window_TitleTooLong ;;
  guard! (wc_max_render_payload c =? 0) || (MAX_RENDER_ACCESS_UNIT_SIZE <? wc_max_render_payload c)
    else Window_RenderPayloadTooLarge ;;
  Ok tt.

Definition validate_command (command : WindowCommand) (max_render_payload : Z) :
    result WindowError unit :=
  match command with
  | Command_SetTitle title =>
      guard! MAX_WINDOW_TITLE_BYTES <? str_len title else Window_TitleTooLong ;; Ok tt
  | Command_Render frame =>
      guard! max_render_payload <? len (job_access_unit frame)
        else Window_RenderPayloadTooLarge ;; Ok tt
  | _ => Ok tt
  end.

(** ** The control-event queue *)

Definition is_focus_event (e : WindowEvent) : bool :=
  match e with Window_FocusChanged _ | Window_Focused _ => true | _ => false end.
Definition is_closed_event (e : WindowEvent) : bool :=
  match e with Window_Closed => true | _ => false end.

(** [VecDeque::position] with [remove]: [None] when no element satisfies [p]. *)
Fixpoint remove_first {A} (p : A → bool) (l : list A) : option (list A) :=
  match l with
  | [] => None
  | x :: l => if p x then Some l else (x ::.) <$> remove_first p l
  end.

Definition ControlEventQueue_push (events : list WindowEvent) (event : WindowEvent) :
    list WindowEvent :=
  let is_closed := is_closed_event event in
  let is_focus := is_focus_event event in
  let events := if is_focus then List.filter (λ e, negb (is_focus_event e)) events else events in
  if CONTROL_EVENT_CAPACITY <=? len events then
    match remove_first is_focus_event events with
    | Some events => events ++ [event]
    | None =>
        if is_focus || is_closed then
          if is_closed && existsb is_closed_event events then events else
          match remove_first (λ e, negb (is_closed_event e)) events with
          | Some events => events ++ [event]
          | None => events
          end
        else events
    end
  else events ++ [event].

Definition ControlEventQueue_pop (events : list WindowEvent) :
    option WindowEvent * list WindowEvent :=
  match events with
  | [] => (None, [])
  | e :: events => (Some e, events)
  end.

(** ** The shared state of controller and thread *)

(** The command channel and the normal event channel are bounded by
    [wc_channel_capacity]; a send to a channel whose receiver is gone is
    disconnected, and the thread's end of the command channel is dropped when the
    thread ends.  The controller keeps its end of the event channel. *)
Record WindowShared := mkWindowShared {
  ws_config : WindowConfig;
  ws_commands : list WindowCommand;
  ws_control : list WindowEvent;
  ws_normal : list WindowEvent;
  ws_render : RenderQueueState;
  ws_native_handle : Z;
  ws_shutdown_requested : bool;
  ws_running : bool
}.
Definition ws_with (w : WindowShared) (commands : list WindowCommand)
    (control normal : list WindowEvent) (render : RenderQueueState) (handle : Z)
    (running : bool) : WindowShared :=
  mkWindowShared (ws_config w) commands control normal render handle (ws_shutdown_requested w)
    running.

Definition normal_try_send (w : WindowShared) (event : WindowEvent) : list WindowEvent :=
  if len (ws_normal w) <? wc_channel_capacity (ws_config w)
  then ws_normal w ++ [event] else ws_normal w.

(** [WindowController::start], when the thread reports its start in time. *)
Definition WindowController_start (config : WindowConfig) : result WindowError WindowShared :=
  _ ← validate_config config;
  Ok (mkWindowShared config [] [] [] RenderQueue_new 0 false true).

Definition WindowController_try_send (w : WindowShared) (command : WindowCommand) :
    result WindowError unit * WindowShared :=
  match validate_command command (wc_max_render_payload (ws_config w)) with
  | Err e => (Err e, w)
  | Ok _ =>
      if negb (ws_running w) then (Err Window_CommandClosed, w) else
      if len (ws_commands w) <? wc_channel_capacity (ws_config w)
      then (Ok tt, ws_with w (ws_commands w ++ [command]) (ws_control w) (ws_normal w)
              (ws_render w) (ws_native_handle w) (ws_running w))
      else (Err Window_CommandFull, w)
  end.

Definition try_next_event (w : WindowShared) : option WindowEvent * WindowShared :=
  match ControlEventQueue_pop (ws_control w) with
  | (Some e, control) =>
      (Some e, ws_with w (ws_commands w) control (ws_normal w) (ws_render w)
                 (ws_native_handle w) (ws_running w))
  | (None, control) =>
      match ws_normal w with
      | e :: normal =>
          (Some e, ws_with w (ws_commands w) control normal (ws_render w)
                     (ws_native_handle w) (ws_running w))
      | [] => (None, w)
      end
  end.

Definition render_error (e : RenderQueueError) : WindowError :=
  match e with
  | Render_AccessUnitTooLarge _ _ => Window_RenderPayloadTooLarge
  | Render_Shutdown => Window_CommandClosed
  | Render_EmptyAccessUnit | Render_StateUnavailable => Window_RenderPayloadTooLarge
  end.
Definition render_latest (w : WindowShared) (frame : DecodedFrameJob) :
    result WindowError unit * WindowShared :=
  if wc_max_render_payload (ws_config w) <? len (job_access_unit frame)
  then (Err Window_RenderPayloadTooLarge, w) else
  let '(r, render) := push_latest (ws_render w) frame in
  (map_err render_error r,
   ws_with w (ws_commands w) (ws_control w) (ws_normal w) render (ws_native_handle w)
     (ws_running w)).

Definition native_handle (w : WindowShared) : option Z :=
  if ws_native_handle w =? 0 then None else Some (ws_native_handle w).

(** ** The portable thread *)

(** One iteration of [window_thread]: [recv_timeout] yields the first queued
    command, or times out when there is none. *)
Definition window_closed (w : WindowShared) (commands : list WindowCommand) : WindowShared :=
  ws_with w commands (ControlEventQueue_push (ws_control w) Window_Closed) (ws_normal w)
    (ws_render w) 0 false.
Definition window_thread_step (w : WindowShared) : WindowShared :=
  if negb (ws_running w) then w else
  if ws_shutdown_requested w then window_closed w (ws_commands w) else
  match ws_commands w with
  | [] => w
  | Command_Render frame :: commands =>
      if wc_max_render_payload (ws_config w) <? len (job_access_unit frame)
      then ws_with w commands (ControlEventQueue_push (ws_control w) Window_RenderRejected)
             (ws_normal w) (ws_render w) (ws_native_handle w) true
      else match push_latest (ws_render w) frame with
           | (Err _, render) =>
               ws_with w commands (ControlEventQueue_push (ws_control w) Window_RenderRejected)
                 (ws_normal w) render (ws_native_handle w) true
           | (Ok _, render) =>
               ws_with w commands (ws_control w) (normal_try_send w Window_RenderRequested)
                 render (ws_native_handle w) true
           end
  | (Command_SetTitle _ | Command_RequestFocus) :: commands =>
      ws_with w commands (ws_control w) (ws_normal w) (ws_render w) (ws_native_handle w) true
  | (Command_Close | Command_Shutdown) :: commands => window_closed w commands
  end.

(** [WindowController::shutdown]: the flag, the command, and the wait, which reads
    whether the thread has finished and then the clock.  The polls are
    [(finished, now)]; the thread's steps happen between them.  The wait is [None]
    while it has not returned. *)
Definition request_shutdown (w : WindowShared) : WindowShared :=
  let w := mkWindowShared (ws_config w) (ws_commands w) (ws_control w) (ws_normal w)
    (ws_render w) (ws_native_handle w) true (ws_running w) in
  snd (WindowController_try_send w Command_Shutdown).
Fixpoint shutdown_wait (deadline : Z) (polls : list (bool * Z)) :
    option (result WindowError unit) :=
  match polls with
  | [] => None
  | (finished, now) :: polls =>
      if finished then Some (Ok tt)
      else if deadline <=? now then Some (Err Window_ShutdownTimeout)
      else shutdown_wait deadline polls
  end.

(** ** The native window *)

(** The cast of a 16-bit value to [i16], widened. *)
Definition as_i16 (u : Z) : Z := (u + 2 ^ 15) mod 2 ^ 16 - 2 ^ 15.

Definition signed_low (value : Z) : Z := as_i16 (Z.land (wrap 32 value) 65535).
Definition signed_high (value : Z) : Z := as_i16 (Z.land (Z.shiftr (wrap 32 value) 16) 65535).
(** [(wparam >> 16) as u16 as i16 as i32] *)
Definition wheel_delta (wparam : Z) : Z := as_i16 (wrap 16 (Z.shiftr wparam 16)).

(** [None] when no text is complete; the second component is the pending unit. *)
Definition decode_utf16_unit (pending : option Z) (unit : Z) : option string * option Z :=
  if (55296 <=? unit) && (unit <=? 56319) then (None, Some unit) else
  if (56320 <=? unit) && (unit <=? 57343) then
    match pending with
    | None => (None, None)
    | Some high => (from_utf16 [high; unit], None)
    end
  else ((λ c, utf8_string [c]) <$> char_from_u32 unit, None).

Definition map_virtual_key_to_hid (code scan_code : Z) (extended : bool) : option Z :=
  let in_range a b := (a <=? code) && (code <=? b) in
  if in_range 65 90 then Some (code - 65 + 4) else
  if in_range 48 57 then Some (if code =? 48 then 39 else code - 48 + 29) else
  if in_range 112 123 then Some (code - 112 + 58) else
  match code with
  | 8 => Some 42 | 9 => Some 43
  | 13 => Some (if extended then 88 else 40)
  | 12 => Some 93 | 27 => Some 41 | 32 => Some 44
  | 45 => Some (if extended then 73 else 98)
  | 46 => Some (if extended then 76 else 99)
  | 36 => Some (if extended then 74 else 95)
  | 35 => Some (if extended then 77 else 89)
  | 33 => Some (if extended then 75 else 97)
  | 34 => Some (if extended then 78 else 91)
  | 37 => Some (if extended then 80 else 92)
  | 38 => Some (if extended then 82 else 96)
  | 39 => Some (if extended then 79 else 94)
  | 40 => Some (if extended then 81 else 90)
  | 16 => Some (if scan_code =? 54 then 229 else 225)
  | 17 => Some (if extended then 228 else 224)
  | 18 => Some (if extended then 230 else 226)
  | 91 => Some 227 | 92 => Some 231
  | 96 => Some 98 | 97 => Some 89 | 98 => Some 90 | 99 => Some 91 | 100 => Some 92
  | 101 => Some 93 | 102 => Some 94 | 103 => Some 95 | 104 => Some 96 | 105 => Some 97
  | 106 => Some 85 | 107 => Some 87 | 109 => Some 86 | 110 => Some 99 | 111 => Some 84
  | 144 => Some 83
  | 186 => Some 51 | 187 => Some 46 | 188 => Some 54 | 189 => Some 45 | 190 => Some 55
  | 191 => Some 56 | 192 => Some 53
  | 219 => Some 47 | 220 => Some 49 | 221 => Some 48 | 222 => Some 52
  | _ => None
  end.

(** The keys whose state [key_event] asks for, and the bits of [Modifiers]. *)
Inductive VirtualKey := VK_LSHIFT | VK_RSHIFT | VK_CONTROL | VK_LMENU | VK_RMENU.
Definition Modifiers_NONE : Z := 0.
Definition Modifiers_SHIFT : Z := 1.
Definition Modifiers_CTRL : Z := 2.
Definition Modifiers_ALT : Z := 4.

Section native.
(** [GetKeyState]: an [i16] whose high bit says that the key is down. *)
Context (GetKeyState : VirtualKey → Z).

Definition key_down (k : VirtualKey) : bool :=
  negb (Z.land (wrap 16 (GetKeyState k)) 32768 =? 0).

Definition key_event (code lparam : Z) (pressed : bool) : option InputEvent :=
  let scan_code := Z.land (Z.shiftr lparam 16) 255 in
  let extended := negb (Z.land (Z.shiftr lparam 24) 1 =? 0) in
  code ← map_virtual_key_to_hid code scan_code extended;
  let modifiers := Modifiers_NONE in
  let modifiers := if key_down VK_LSHIFT || key_down VK_RSHIFT
    then Modifiers_from_bits (Z.lor modifiers Modifiers_SHIFT) else modifiers in
  let modifiers := if key_down VK_CONTROL
    then Modifiers_from_bits (Z.lor modifiers Modifiers_CTRL) else modifiers in
  let modifiers := if key_down VK_LMENU || key_down VK_RMENU
    then Modifiers_from_bits (Z.lor modifiers Modifiers_ALT) else modifiers in
  Some (Input_Key code code (if pressed then Key_Down else Key_Up) modifiers).
End native.

Inductive Message :=
  | WM_NCCREATE | WM_SETFOCUS | WM_KILLFOCUS | WM_SIZE (lparam : Z) | WM_CLOSE | WM_DESTROY
  | WM_KEYDOWN (wparam lparam : Z) | WM_SYSKEYDOWN (wparam lparam : Z)
  | WM_KEYUP (wparam lparam : Z) | WM_SYSKEYUP (wparam lparam : Z)
  | WM_CHAR (wparam : Z) | WM_MOUSEMOVE (lparam : Z)
  | WM_LBUTTONDOWN | WM_LBUTTONUP | WM_RBUTTONDOWN | WM_RBUTTONUP
  | WM_MBUTTONDOWN | WM_MBUTTONUP
  | WM_MOUSEWHEEL (wparam : Z) | WM_MOUSEHWHEEL (wparam : Z)
  | WM_OTHER (message : Z).

(** The calls of the native API the code makes besides reading messages. *)
Inductive NativeCall :=
  | Call_DestroyWindow | Call_PostQuitMessage | Call_DefWindowProc
  | Call_SetWindowText (title : list Z) | Call_SetFocus.

(** [State] and the window's user data, which points to it from [WM_NCCREATE] on. *)
Record NativeWindow := mkNativeWindow {
  nw_shared : WindowShared;
  nw_pending_high_surrogate : option Z;
  nw_attached : bool
}.

Definition nw_send (n : NativeWindow) (e : WindowEvent) : NativeWindow :=
  let w := nw_shared n in
  mkNativeWindow (ws_with w (ws_commands w) (ws_control w) (normal_try_send w e) (ws_render w)
    (ws_native_handle w) (ws_running w)) (nw_pending_high_surrogate n) (nw_attached n).
Definition nw_send_control (n : NativeWindow) (e : WindowEvent) : NativeWindow :=
  let w := nw_shared n in
  mkNativeWindow (ws_with w (ws_commands w) (ControlEventQueue_push (ws_control w) e)
    (ws_normal w) (ws_render w) (ws_native_handle w) (ws_running w))
    (nw_pending_high_surrogate n) (nw_attached n).
Definition nw_send_input (n : NativeWindow) (e : option InputEvent) : NativeWindow :=
  match e with Some e => nw_send n (Window_Input e) | None => n end.

Definition window_proc (GetKeyState : VirtualKey → Z) (n : NativeWindow) (message : Message) :
    list NativeCall * NativeWindow :=
  match message with
  | WM_NCCREATE =>
      ([Call_DefWindowProc], mkNativeWindow (nw_shared n) (nw_pending_high_surrogate n) true)
  | _ =>
      if negb (nw_attached n) then ([Call_DefWindowProc], n) else
      match message with
      | WM_CLOSE => ([Call_DestroyWindow], n)
      | WM_DESTROY => ([Call_PostQuitMessage], nw_send_control n Window_Closed)
      | _ =>
          ([Call_DefWindowProc],
           match message with
           | WM_SETFOCUS => nw_send_control n (Window_FocusChanged true)
           | WM_KILLFOCUS => nw_send_control n (Window_FocusChanged false)
           | WM_SIZE lparam => nw_send n (Window_Resized (Z.land (wrap 32 lparam) 65535)
               (Z.land (Z.shiftr (wrap 32 lparam) 16) 65535))
           | WM_KEYDOWN wparam lparam | WM_SYSKEYDOWN wparam lparam =>
               nw_send_input n (key_event GetKeyState (wrap 32 wparam) lparam true)
           | WM_KEYUP wparam lparam | WM_SYSKEYUP wparam lparam =>
               nw_send_input n (key_event GetKeyState (wrap 32 wparam) lparam false)
           | WM_CHAR wparam =>
               let '(text, pending) :=
                 decode_utf16_unit (nw_pending_high_surrogate n) (wrap 16 wparam) in
               nw_send_input (mkNativeWindow (nw_shared n) pending (nw_attached n))
                 (Input_Text <$> text)
           | WM_MOUSEMOVE lparam =>
               nw_send_input n (Some (Input_MouseMove (signed_low lparam) (signed_high lparam)))
           | WM_LBUTTONDOWN => nw_send_input n (Some (Input_MouseButton Button_Left true))
           | WM_LBUTTONUP => nw_send_input n (Some (Input_MouseButton Button_Left false))
           | WM_RBUTTONDOWN => nw_send_input n (Some (Input_MouseButton Button_Right true))
           | WM_RBUTTONUP => nw_send_input n (Some (Input_MouseButton Button_Right false))
           | WM_MBUTTONDOWN => nw_send_input n (Some (Input_MouseButton Button_Middle true))
           | WM_MBUTTONUP => nw_send_input n (Some (Input_MouseButton Button_Middle false))
           | WM_MOUSEWHEEL wparam =>
               nw_send_input n (Some (Input_MouseWheel 0 (wheel_delta wparam)))
           | WM_MOUSEHWHEEL wparam =>
               nw_send_input n (Some (Input_MouseWheel (wheel_delta wparam) 0))
           | _ => n
           end)
      end
  end.

(** [native::run].  The window exists from [native_start] on; the loop reads the
    shutdown flag, drains the commands, and dispatches the messages of the thread
    until [WM_QUIT]. *)
Definition native_start (w : WindowShared) (hwnd : Z) : NativeWindow :=
  mkNativeWindow (ws_with w (ws_commands w)
    (ControlEventQueue_push (ws_control w) (Window_FocusChanged false)) (ws_normal w)
    (ws_render w) hwnd (ws_running w)) None true.

Definition native_command (w : WindowShared) (command : WindowCommand) :
    list NativeCall * WindowShared :=
  match command with
  | Command_Render frame =>
      let rejected render := ws_with w (ws_commands w)
        (ControlEventQueue_push (ws_control w) Window_RenderRejected) (ws_normal w) render
        (ws_native_handle w) (ws_running w) in
      if wc_max_render_payload (ws_config w) <? len (job_access_unit frame)
      then ([], rejected (ws_render w))
      else match push_latest (ws_render w) frame with
           | (Err _, render) => ([], rejected render)
           | (Ok _, render) => ([], ws_with w (ws_commands w) (ws_control w) (ws_normal w)
               render (ws_native_handle w) (ws_running w))
           end
  | Command_SetTitle value => ([Call_SetWindowText (encode_utf16 value ++ [0])], w)
  | Command_RequestFocus => ([Call_SetFocus], w)
  | Command_Close | Command_Shutdown => ([Call_DestroyWindow], w)
  end.
Fixpoint drain_commands (commands : list WindowCommand) (w : WindowShared) :
    list NativeCall * WindowShared :=
  match commands with
  | [] => ([], w)
  | c :: commands =>
      let '(calls, w) := native_command w c in
      let '(calls', w) := drain_commands commands w in (calls ++ calls', w)
  end.

(** The first half of an iteration; [disconnected]: the controller is gone. *)
Definition native_iteration (n : NativeWindow) (disconnected : bool) :
    list NativeCall * NativeWindow :=
  let w := nw_shared n in
  let '(calls, w') := drain_commands (ws_commands w)
    (ws_with w [] (ws_control w) (ws_normal w) (ws_render w) (ws_native_handle w)
       (ws_running w)) in
  ((if ws_shutdown_requested w then [Call_DestroyWindow] else []) ++ calls ++
   (if disconnected then [Call_DestroyWindow] else []),
   mkNativeWindow w' (nw_pending_high_surrogate n) (nw_attached n)).

(** The messages of an iteration; [None] is [WM_QUIT]. *)
Definition native_quit (n : NativeWindow) : NativeWindow :=
  let w := nw_shared n in
  mkNativeWindow (ws_with w (ws_commands w) (ws_control w) (ws_normal w) (ws_render w) 0 false)
    (nw_pending_high_surrogate n) (nw_attached n).
Fixpoint native_messages (GetKeyState : VirtualKey → Z) (messages : list (option Message))
    (n : NativeWindow) : NativeWindow :=
  match messages with
  | [] => n
  | None :: _ => native_quit n
  | Some m :: messages => native_messages GetKeyState messages (snd (window_proc GetKeyState n m))
  end.

(** ** The control-event queue keeps its promises *)

Lemma remove_first_spec {A} (p : A → bool) l :
  match remove_first p l with
  | None => Forall (λ x, p x = false) l
  | Some l' => ∃ a x b, l = a ++ x :: b ∧ p x = true ∧ Forall (λ y, p y = false) a ∧ l' = a ++ b
  end.
Proof.
  induction l as [|x l IH]; cbn; [constructor|]. destruct (p x) eqn:E.
  { by exists [], x, l. }
  destruct (remove_first p l) as [l'|]; cbn; [|by constructor].
  destruct IH as (a & y & b & -> & ? & ? & ->). exists (x :: a), y, b.
  split_and!; [done|done|by constructor|done].
Qed.
Lemma remove_first_split {A} (p : A → bool) l l' :
  remove_first p l = Some l' →
  ∃ a x b, l = a ++ x :: b ∧ p x = true ∧ Forall (λ y, p y = false) a ∧ l' = a ++ b.
Proof. intros E. pose proof (remove_first_spec p l) as H. by rewrite E in H. Qed.
Lemma remove_first_none {A} (p : A → bool) l :
  remove_first p l = None → Forall (λ x, p x = false) l.
Proof. intros E. pose proof (remove_first_spec p l) as H. by rewrite E in H. Qed.

(** What a push does, as an edit of the queue: some events are removed, none of
    them a close, and the pushed event is appended unless it is refused. *)
Inductive queue_edit (p : WindowEvent → bool) : list WindowEvent → list WindowEvent → Prop :=
  | edit_nil : queue_edit p [] []
  | edit_keep x l l' : queue_edit p l l' → queue_edit p (x :: l) (x :: l')
  | edit_drop x l l' : p x = true → queue_edit p l l' → queue_edit p (x :: l) l'.

Lemma edit_refl p l : queue_edit p l l.
Proof. induction l; by constructor. Qed.
Lemma edit_filter p q l :
  (∀ x, q x = false → p x = true) → queue_edit p l (List.filter q l).
Proof. intros Hq. induction l as [|x l IH]; cbn; [constructor|]. destruct (q x) eqn:E; constructor; auto. Qed.
Lemma edit_remove p q l l' :
  (∀ x, q x = true → p x = true) → remove_first q l = Some l' → queue_edit p l l'.
Proof.
  intros Hq (a & x & b & -> & Hx & _ & ->)%remove_first_split.
  induction a as [|y a IH]; cbn; constructor; auto using edit_refl.
Qed.
Lemma edit_trans p l1 l2 l3 : queue_edit p l1 l2 → queue_edit p l2 l3 → queue_edit p l1 l3.
Proof.
  intros H12. revert l3. induction H12 as [|x l l' H IH|x l l' Hx H IH]; intros l3 H23; auto.
  - inversion H23; subst; constructor; auto.
  - constructor; auto.
Qed.

Definition not_closed (e : WindowEvent) : bool := negb (is_closed_event e).
Lemma focus_not_closed e : is_focus_event e = true → not_closed e = true.
Proof. by destruct e. Qed.
Lemma closed_event_eq e : is_closed_event e = true → e = Window_Closed.
Proof. by destruct e. Qed.

Lemma edit_len p l l' : queue_edit p l l' → len l' ≤ len l.
Proof. induction 1; rewrite ?len_cons; lia. Qed.
Lemma edit_elem p l l' x : queue_edit p l l' → x ∈ l' → x ∈ l.
Proof. induction 1; set_solver. Qed.
Lemma remove_first_len {A} (p : A → bool) l l' : remove_first p l = Some l' → len l' < len l.
Proof.
  intros (a & x & b & -> & _ & _ & ->)%remove_first_split. rewrite !len_app, len_cons. lia.
Qed.

(** The queue as [push] sees it after the pending focus event is coalesced. *)
Definition coalesced (q : list WindowEvent) (e : WindowEvent) : list WindowEvent :=
  if is_focus_event e then List.filter (λ e, negb (is_focus_event e)) q else q.
Lemma coalesced_edit q e : queue_edit not_closed q (coalesced q e).
Proof.
  unfold coalesced. destruct (is_focus_event e); [|apply edit_refl].
  apply edit_filter. intros x Hx. apply focus_not_closed. by apply negb_false_iff in Hx.
Qed.

Lemma all_closed_elem l :
  Forall (λ x, x = Window_Closed) l → CONTROL_EVENT_CAPACITY ≤ len l → Window_Closed ∈ l.
Proof. intros [|x l' -> _]; [done|left]. Qed.

Lemma push_edit q e :
  len q ≤ CONTROL_EVENT_CAPACITY →
  ∃ q', queue_edit not_closed (coalesced q e) q' ∧
    (ControlEventQueue_push q e = q' ++ [e] ∧ len q' < CONTROL_EVENT_CAPACITY ∨
     ControlEventQueue_push q e = q' ∧
       (e = Window_Closed → Window_Closed ∈ q) ∧
       (is_focus_event e = true → Forall (λ x, x = Window_Closed) q')).
Proof.
  intros Hb. unfold ControlEventQueue_push. fold (coalesced q e).
  pose proof (edit_len _ _ _ (coalesced_edit q e)) as Hl.
  set (q1 := coalesced q e) in *.
  assert (∀ p l, (∀ x, p x = true → not_closed x = true) → remove_first p q1 = Some l →
    queue_edit not_closed q1 l ∧ len l < CONTROL_EVENT_CAPACITY) as Hrm.
  { intros p l Hp El. split; [by eapply edit_remove|]. apply remove_first_len in El. lia. }
  destruct (Z.leb_spec CONTROL_EVENT_CAPACITY (len q1)) as [Hc|Hc];
    [|exists q1; auto using edit_refl].
  destruct (remove_first is_focus_event q1) as [l|] eqn:Ef.
  { apply Hrm in Ef as []; [|apply focus_not_closed]. exists l. auto. }
  destruct (remove_first (λ e, negb (is_closed_event e)) q1) as [l|] eqn:El.
  - apply Hrm in El as []; [|done].
    destruct (is_focus_event e) eqn:Ee, (is_closed_event e) eqn:Ec; cbn [orb andb];
      try (exists l; by auto).
    + by destruct e.
    + destruct (existsb is_closed_event q1) eqn:Ex; [|exists l; by auto].
      exists q1. split; [apply edit_refl|]. right. split_and!; [done| |done]. intros _.
      apply existsb_exists in Ex as (x & Hin%list_elem_of_In & ->%closed_event_eq).
      exact (edit_elem _ _ _ _ (coalesced_edit q e) Hin).
    + exists q1. split; [apply edit_refl|]. right. split_and!; [done|by intros ->|done].
  - apply remove_first_none in El.
    assert (Forall (λ x, x = Window_Closed) q1) as Hall.
    { eapply Forall_impl; [exact El|]. intros x Hx. apply closed_event_eq.
      by apply negb_false_iff in Hx. }
    exists q1. split; [apply edit_refl|]. right. split_and!; [|intros ->|done].
    + by destruct (_ || _); [destruct (_ && _)|].
    + eapply (edit_elem _ _ _ _ (coalesced_edit q Window_Closed)).
      by apply all_closed_elem.
Qed.

(** Interleavings of the two ends of the queue. *)
Inductive ControlOp := Control_Push (e : WindowEvent) | Control_Pop.
Fixpoint control_run (ops : list ControlOp) (q : list WindowEvent) :
    list WindowEvent * list WindowEvent :=
  match ops with
  | [] => ([], q)
  | Control_Push e :: ops => control_run ops (ControlEventQueue_push q e)
  | Control_Pop :: ops =>
      let '(e, q) := ControlEventQueue_pop q in
      let '(out, q) := control_run ops q in (option_list e ++ out, q)
  end.
Fixpoint control_pops (ops : list ControlOp) : nat :=
  match ops with
  | [] => 0
  | Control_Push _ :: ops => control_pops ops
  | Control_Pop :: ops => S (control_pops ops)
  end.
(** The focus event pushed last, [f] when none is. *)
Fixpoint last_focus (ops : list ControlOp) (f : option WindowEvent) : option WindowEvent :=
  match ops with
  | [] => f
  | Control_Push e :: ops => last_focus ops (if is_focus_event e then Some e else f)
  | Control_Pop :: ops => last_focus ops f
  end.

Definition control_wf (f : option WindowEvent) (q : list WindowEvent) : Prop :=
  len q ≤ CONTROL_EVENT_CAPACITY ∧
  (length (List.filter is_focus_event q) ≤ 1)%nat ∧
  (∀ e, e ∈ q → is_focus_event e = true → f = Some e).

Lemma edit_focus_count p l l' :
  queue_edit p l l' →
  (length (List.filter is_focus_event l') ≤ length (List.filter is_focus_event l))%nat.
Proof. induction 1; cbn; [done|destruct (is_focus_event x); cbn; lia|destruct (is_focus_event x); cbn; lia]. Qed.
Lemma filter_negb_nil {A} (p : A → bool) l : List.filter p (List.filter (λ x, negb (p x)) l) = [].
Proof. induction l as [|x l IH]; cbn; [done|]. destruct (p x) eqn:E; cbn; rewrite ?E; done. Qed.

Lemma control_wf_push f q e :
  control_wf f q →
  control_wf (if is_focus_event e then Some e else f) (ControlEventQueue_push q e).
Proof.
  intros (Hl & Hn & Hf). destruct (push_edit q e Hl) as (q' & He & Hcase).
  pose proof (edit_len _ _ _ (coalesced_edit q e)). pose proof (edit_len _ _ _ He).
  pose proof (edit_focus_count _ _ _ He) as Hc.
  pose proof (λ x, edit_elem _ _ _ x He) as Hin. clear He.
  pose proof (λ x, edit_elem _ _ _ x (coalesced_edit q e)) as Hin'.
  assert (is_focus_event e = true → ∀ x, x ∈ q' → is_focus_event x = false) as Hno.
  { intros Ee x Hx%Hin. unfold coalesced in Hx. rewrite Ee in Hx.
    apply list_elem_of_In, filter_In in Hx as [_ ?]. by apply negb_true_iff. }
  assert (length (List.filter is_focus_event q') + (if is_focus_event e then 1 else 0) ≤ 1)%nat.
  { unfold coalesced in Hc. destruct (is_focus_event e); [|lia].
    rewrite filter_negb_nil in Hc. cbn in Hc. lia. }
  assert (∀ x, x ∈ q' → is_focus_event x = true → is_focus_event e = false ∧ f = Some x) as Hq'.
  { intros x Hx Ex. destruct (is_focus_event e) eqn:Ee; [|split; auto].
    rewrite (Hno eq_refl x Hx) in Ex. done. }
  destruct Hcase as [[-> ?]|(-> & _ & _)]; split_and!.
  - rewrite len_app, len_cons, len_nil. lia.
  - rewrite List.filter_app, length_app. cbn. destruct (is_focus_event e); cbn; lia.
  - intros x [Hx| ->%list_elem_of_singleton]%elem_of_app Ex; [|by rewrite Ex].
    by destruct (Hq' x Hx Ex) as [-> ?].
  - lia.
  - destruct (is_focus_event e); lia.
  - intros x Hx Ex. by destruct (Hq' x Hx Ex) as [-> ?].
Qed.
Lemma control_wf_pop f q : control_wf f q → control_wf f (snd (ControlEventQueue_pop q)).
Proof.
  intros (Hl & Hn & Hf). destruct q as [|x q]; [done|]. cbn. rewrite len_cons in Hl.
  split_and!; [lia|cbn in Hn; destruct (is_focus_event x); cbn in Hn; lia|].
  intros e He. apply Hf. by right.
Qed.
Lemma control_run_wf ops f q :
  control_wf f q → control_wf (last_focus ops f) (snd (control_run ops q)).
Proof.
  revert f q. induction ops as [|[e|] ops IH]; intros f q H; cbn; [done|by apply IH, control_wf_push|].
  apply control_wf_pop in H. destruct (ControlEventQueue_pop q) as [e q'].
  specialize (IH f q' H). by destruct (control_run ops q').
Qed.

(** The control-event queue of the window, for every interleaving of pushes
    and pops: it never holds more than four events, at most one of them a focus
    event, and a focus event still queued is the one pushed last, so the reader never
    sees a stale focus state after a newer one. *)
Theorem control_queue_invariant (ops : list ControlOp) :
  control_wf (last_focus ops None) (snd (control_run ops [])).
Proof. apply control_run_wf. split_and!; cbn; [done|lia|set_solver]. Qed.

(** *** Close is delivered *)

Definition closed_within (n : nat) (q : list WindowEvent) : Prop :=
  ∃ a b, q = a ++ Window_Closed :: b ∧ (length a < n)%nat.

Lemma edit_closed_within n l l' :
  queue_edit not_closed l l' → closed_within n l → closed_within n l'.
Proof.
  intros He. revert n. induction He as [|x l l' _ IH|x l l' Hx _ IH]; intros n (a & b & E & Ha).
  - by destruct a.
  - destruct a as [|y a]; injection E as -> ->; [by exists [], l'|].
    destruct n as [|n]; [cbn in Ha; lia|].
    destruct (IH n) as (a' & b' & -> & ?); [exists a, b; split; [done|cbn in Ha; lia]|].
    exists (y :: a'), b'. split; [done|cbn; lia].
  - destruct a as [|y a]; injection E as -> ->; [done|].
    apply IH. exists a, b. split; [done|cbn in Ha; lia].
Qed.
Lemma closed_within_app n l k : closed_within n l → closed_within n (l ++ k).
Proof. intros (a & b & -> & ?). exists a, (b ++ k). by rewrite <-app_assoc. Qed.

Lemma push_keeps_closed n q e :
  len q ≤ CONTROL_EVENT_CAPACITY → closed_within n q →
  closed_within n (ControlEventQueue_push q e).
Proof.
  intros Hl Hc. destruct (push_edit q e Hl) as (q' & He & Hcase).
  apply (edit_closed_within _ _ _ (coalesced_edit q e)), (edit_closed_within _ _ _ He) in Hc.
  destruct Hcase as [[-> _]|(-> & _ & _)]; auto using closed_within_app.
Qed.
Lemma push_closed q :
  len q ≤ CONTROL_EVENT_CAPACITY → closed_within 4 (ControlEventQueue_push q Window_Closed).
Proof.
  intros Hl. destruct (push_edit q Window_Closed Hl) as (q' & He & [[-> Hq]|(-> & Hin & _)]).
  - exists q', []. split; [done|]. unfold CONTROL_EVENT_CAPACITY, len in Hq. lia.
  - eapply edit_closed_within; [done|]. destruct (list_elem_of_split q Window_Closed) as (a & b & ->).
    { by apply Hin. }
    exists a, b. split; [done|]. unfold CONTROL_EVENT_CAPACITY in Hl.
    rewrite len_app, len_cons in Hl. unfold len in Hl. lia.
Qed.

Lemma control_run_delivers n ops f q :
  control_wf f q → closed_within n q → (n ≤ control_pops ops)%nat →
  Window_Closed ∈ fst (control_run ops q).
Proof.
  revert n f q. induction ops as [|[e|] ops IH]; intros n f q Hw Hc Hn; cbn in *.
  - destruct Hc as (a & _ & _ & ?). lia.
  - eapply IH; [by apply control_wf_push| |done]. apply push_keeps_closed; [apply Hw|done].
  - destruct Hc as (a & b & -> & Ha). apply control_wf_pop in Hw.
    destruct a as [|x a]; cbn in *; [destruct (control_run ops b); left|].
    specialize (IH (pred n) f (a ++ Window_Closed :: b) Hw).
    destruct (control_run ops (a ++ Window_Closed :: b)). right. apply IH; [|lia].
    exists a, b. split; [done|lia].
Qed.

(** Closing is never lost: whatever was queued before, once the window has
    pushed its close event the reader gets one within four pops, however many further
    events the window pushes between them. *)
Theorem close_is_delivered (before after : list ControlOp) :
  control_pops after = 4%nat →
  Window_Closed ∈ fst (control_run after
    (ControlEventQueue_push (snd (control_run before [])) Window_Closed)).
Proof.
  intros Hn. pose proof (control_run_wf before None [] ltac:(split_and!; cbn; [done|lia|set_solver])).
  eapply (control_run_delivers 4); [by apply control_wf_push|apply push_closed; apply H|lia].
Qed.
Lemma close_is_delivered_witness :
  Window_Closed ∈ fst (control_run
    [Control_Push (Window_FocusChanged false); Control_Pop; Control_Push Window_RenderRejected;
     Control_Pop; Control_Pop; Control_Push Window_Closed; Control_Pop]
    (ControlEventQueue_push (snd (control_run
       [Control_Push Window_RenderRejected; Control_Push Window_RenderRejected;
        Control_Push Window_RenderRejected; Control_Push (Window_FocusChanged true)] []))
       Window_Closed)).
Proof. apply close_is_delivered. reflexivity. Defined.

(** A render diagnostic displaces a queued focus loss: with the queue full, the
    push of [RenderRejected] removes the only focus event although diagnostics are the
    disposable kind, and a reader that had seen the window focused keeps its old
    view. *)
Theorem render_rejection_displaces_focus_loss :
  let q := snd (control_run [Control_Push (Window_FocusChanged true); Control_Pop;
    Control_Push Window_RenderRejected; Control_Push Window_RenderRejected;
    Control_Push Window_RenderRejected; Control_Push (Window_FocusChanged false)] []) in
  Window_FocusChanged false ∈ q ∧
  ControlEventQueue_push q Window_RenderRejected =
    [Window_RenderRejected; Window_RenderRejected; Window_RenderRejected; Window_RenderRejected].
Proof. cbn. split; [set_solver|done]. Qed.

(** ** Typed text *)

(** The scalar values of a stream of units, unpaired surrogates dropped. *)
Fixpoint utf16_lossy (us : list Z) : list Z :=
  match us with
  | [] => []
  | u :: us1 =>
      if is_high u then
        match us1 with
        | v :: us2 =>
            if is_low v
            then 65536 + (u - 55296) * 1024 + (v - 56320) :: utf16_lossy us2
            else utf16_lossy us1
        | [] => []
        end
      else if is_low u then utf16_lossy us1 else u :: utf16_lossy us1
  end.

(** The texts [decode_utf16_unit] yields over a stream. *)
Fixpoint decoded_texts (pending : option Z) (us : list Z) : list string :=
  match us with
  | [] => []
  | u :: us =>
      let '(text, pending) := decode_utf16_unit pending u in
      option_list text ++ decoded_texts pending us
  end.

Lemma from_utf16_pair h u :
  is_high h = true → is_low u = true →
  from_utf16 [h; u] = Some (utf8_string [65536 + (h - 55296) * 1024 + (u - 56320)]).
Proof. intros Hh Hl. unfold from_utf16. cbn. by rewrite Hh, Hl. Qed.
Lemma char_from_unit u :
  uint 16 u → is_high u = false → is_low u = false → char_from_u32 u = Some u.
Proof.
  unfold uint, is_high, is_low, char_from_u32. intros. rewrite decide_True; [done|].
  unfold is_scalar. lia.
Qed.

Lemma decoded_texts_lossy pending us :
  Forall (uint 16) us → (∀ h, pending = Some h → is_high h = true) →
  decoded_texts pending us =
    (λ c, utf8_string [c]) <$> utf16_lossy (option_list pending ++ us).
Proof.
  intros Hus. revert pending. induction Hus as [|u us Hu _ IH]; intros pending Hp.
  { destruct pending as [h|]; cbn; [by rewrite Hp|done]. }
  cbn [decoded_texts]. unfold decode_utf16_unit. fold (is_high u) (is_low u).
  destruct (is_high u) eqn:Eh.
  { assert (is_low u = false) as El by (unfold is_high, is_low in *; lia).
    rewrite IH by (by intros ? [= <-]). destruct pending as [h|]; cbn; [|by rewrite Eh].
    by rewrite (Hp h eq_refl), El. }
  destruct (is_low u) eqn:El.
  - destruct pending as [h|].
    + rewrite from_utf16_pair, (IH None) by (done || auto). cbn. by rewrite (Hp h), El.
    + rewrite IH by done. cbn. by rewrite Eh, El.
  - rewrite char_from_unit, IH by done.
    destruct pending as [h|]; cbn; rewrite ?(Hp h eq_refl), ?El, Eh, ?El; done.
Qed.

Lemma utf16_lossy_encode cs :
  Forall is_scalar cs → utf16_lossy (concat (utf16_char <$> cs)) = cs.
Proof.
  induction 1 as [|c cs Hc _ IH]; [done|]. cbn. unfold utf16_char at 1.
  destruct (Z.ltb_spec c 65536) as [Hs|Hs]; cbn.
  - destruct (scalar_not_surrogate c Hc Hs) as [-> ->]. by rewrite IH.
  - destruct (utf16_pair c) as (-> & -> & Hp); [unfold is_scalar in Hc; lia|].
    by rewrite IH, Hp.
Qed.
Lemma utf16_units_typed cs :
  Forall is_scalar cs → Forall (uint 16) (concat (utf16_char <$> cs)).
Proof.
  induction 1 as [|c cs Hc _ IH]; [constructor|]. cbn. apply Forall_app. split; [|done].
  unfold is_scalar in Hc. unfold utf16_char, uint. destruct (Z.ltb_spec c 65536).
  - repeat constructor; lia.
  - repeat constructor; Z.to_euclidean_division_equations; lia.
Qed.

(** Text typed into the window: over any stream of [WM_CHAR] units the texts
    produced are the characters of the stream in order, a surrogate pair as one
    character and unpaired surrogates dropped; in particular the units of a string
    come back as its characters. *)
Theorem typed_text_decoded (us : list Z) :
  Forall (uint 16) us →
  decoded_texts None us = (λ c, utf8_string [c]) <$> utf16_lossy us ∧
  (∀ cs, Forall is_scalar cs → us = encode_utf16 (utf8_string cs) → utf16_lossy us = cs).
Proof.
  intros Hu. split; [by apply decoded_texts_lossy|]. intros cs Hc ->. unfold encode_utf16.
  rewrite chars_utf8_string by done. by apply utf16_lossy_encode.
Qed.
Lemma typed_text_decoded_witness :
  decoded_texts None [72; 55357; 56832; 56320; 55296; 33] =
    (λ c, utf8_string [c]) <$> utf16_lossy [72; 55357; 56832; 56320; 55296; 33] ∧
  utf16_lossy (encode_utf16 (utf8_string [72; 128512; 33])) = [72; 128512; 33].
Proof.
  split.
  - apply (typed_text_decoded [72; 55357; 56832; 56320; 55296; 33]).
    apply (bool_decide_unpack _). vm_compute. reflexivity.
  - apply (typed_text_decoded (encode_utf16 (utf8_string [72; 128512; 33]))); [..|reflexivity];
      apply (bool_decide_unpack _); vm_compute; reflexivity.
Defined.

(** ** What the window thread shares is well formed *)

Definition window_event_ok (e : WindowEvent) : Prop :=
  match e with
  | Window_Input i => event_typed i ∧ InputEvent_validate i = Ok tt
  | Window_Resized width height => uint 16 width ∧ uint 16 height
  | _ => True
  end.

Lemma as_i16_range u : - 2 ^ 15 ≤ as_i16 u < 2 ^ 15.
Proof. unfold as_i16. pose proof (Z.mod_pos_bound (u + 2 ^ 15) (2 ^ 16)). lia. Qed.
Lemma land_uint16 z : uint 16 (Z.land z 65535).
Proof.
  change 65535 with (Z.ones 16). rewrite Z.land_ones by lia. apply Z.mod_pos_bound. lia.
Qed.

(** The usages the window emits are those of a keyboard. *)
Lemma virtual_key_range code scan_code extended usage :
  map_virtual_key_to_hid code scan_code extended = Some usage → 4 ≤ usage ≤ 231.
Proof.
  unfold map_virtual_key_to_hid. cbv zeta.
  destruct ((65 <=? code) && _) eqn:?; [intros [= <-]; lia|].
  destruct ((48 <=? code) && _) eqn:?; [intros [= <-]; destruct (Z.eqb_spec code 48); lia|].
  destruct ((112 <=? code) && _) eqn:?; [intros [= <-]; lia|].
  intros E. repeat case_match; simplify_eq; lia.
Qed.

Lemma from_bits_if (b : bool) x m : uint 4 m → uint 4 (if b then Modifiers_from_bits x else m).
Proof.
  intros. destruct b; [|done]. unfold Modifiers_from_bits. change 15 with (Z.ones 4).
  rewrite Z.land_ones by lia. apply Z.mod_pos_bound. lia.
Qed.
Lemma key_event_ok gks code lparam pressed e :
  key_event gks code lparam pressed = Some e → window_event_ok (Window_Input e).
Proof.
  unfold key_event. intros E.
  destruct (map_virtual_key_to_hid code _ _) as [usage|] eqn:Eu; [|done].
  injection E as <-. apply virtual_key_range in Eu. unfold window_event_ok.
  split; [|unfold InputEvent_validate; destruct (Z.ltb_spec 65535 usage); [lia|done]].
  split_and!; [unfold uint; lia..|]. by repeat apply from_bits_if.
Qed.

Lemma decoded_text_ok pending u text pending' :
  decode_utf16_unit pending u = (Some text, pending') → str_len text ≤ 4.
Proof.
  assert (∀ c, str_len (utf8_string [c]) ≤ 4) as Hc.
  { intros c. rewrite <-len_as_bytes, as_bytes_utf8_string. unfold len. cbn.
    rewrite app_nil_r. pose proof (utf8_char_length c). lia. }
  unfold decode_utf16_unit. fold (is_high u) (is_low u).
  destruct (is_high u) eqn:Eh; [done|]. destruct (is_low u) eqn:El.
  - destruct pending as [h|]; [|done]. unfold from_utf16. cbn. rewrite Eh, El. intros E.
    destruct (is_high h); [|destruct (is_low h)]; cbn in E; simplify_eq. apply Hc.
  - destruct (char_from_u32 u); cbn; intros [= <- _]. apply Hc.
Qed.

(** The invariant of the shared state: bounded queues whose contents are valid. *)
Record window_wf (w : WindowShared) : Prop := {
  wf_config : validate_config (ws_config w) = Ok tt;
  wf_control : len (ws_control w) ≤ CONTROL_EVENT_CAPACITY;
  wf_control_events : Forall window_event_ok (ws_control w);
  wf_normal : len (ws_normal w) ≤ wc_channel_capacity (ws_config w);
  wf_normal_events : Forall window_event_ok (ws_normal w);
  wf_commands : len (ws_commands w) ≤ wc_channel_capacity (ws_config w);
  wf_commands_valid : Forall (λ c,
    validate_command c (wc_max_render_payload (ws_config w)) = Ok tt) (ws_commands w);
  wf_render : ∀ frame, rq_latest (ws_render w) = Some frame →
    validate_frame frame = Ok tt ∧
    len (job_access_unit frame) ≤ wc_max_render_payload (ws_config w);
  wf_dropped : uint 64 (rq_dropped_frames (ws_render w))
}.

Lemma push_ok q e :
  len q ≤ CONTROL_EVENT_CAPACITY → Forall window_event_ok q → window_event_ok e →
  len (ControlEventQueue_push q e) ≤ CONTROL_EVENT_CAPACITY ∧
  Forall window_event_ok (ControlEventQueue_push q e).
Proof.
  intros Hl Hq He. destruct (push_edit q e Hl) as (q' & Hq' & Hcase).
  pose proof (edit_len _ _ _ (coalesced_edit q e)). pose proof (edit_len _ _ _ Hq').
  assert (Forall window_event_ok q').
  { rewrite Forall_in in *. intros x Hx. eapply Hq, edit_elem, edit_elem, Hx; [|exact Hq'].
    apply coalesced_edit. }
  destruct Hcase as [[-> ?]|(-> & _ & _)]; [|split; [lia|done]].
  rewrite len_app, len_cons, len_nil. split; [lia|]. apply Forall_app; auto.
Qed.

Lemma push_latest_ok q frame r q' max :
  push_latest q frame = (r, q') → uint 64 (rq_dropped_frames q) →
  len (job_access_unit frame) ≤ max →
  (∀ f, rq_latest q = Some f → validate_frame f = Ok tt ∧ len (job_access_unit f) ≤ max) →
  (∀ f, rq_latest q' = Some f → validate_frame f = Ok tt ∧ len (job_access_unit f) ≤ max) ∧
  uint 64 (rq_dropped_frames q').
Proof.
  unfold push_latest. intros E Hd Hm Hq. destruct (validate_frame frame) as [[]|] eqn:Ev;
    [|by simplify_eq]. destruct (rq_shutdown q); simplify_eq; [done|]. split; cbn.
  - by intros f [= <-].
  - destruct (rq_latest q); [|done]. unfold saturating_add, u64_max, uint in *. lia.
Qed.

(** Everything that acts on the shared state, the thread and the controller. *)
Inductive window_step : NativeWindow → NativeWindow → Prop :=
  | step_message gks n m : window_step n (snd (window_proc gks n m))
  | step_iteration n disconnected : window_step n (snd (native_iteration n disconnected))
  | step_quit n : window_step n (native_quit n)
  | step_controller n w' :
      (∃ c, w' = snd (WindowController_try_send (nw_shared n) c)) ∨
      w' = snd (try_next_event (nw_shared n)) ∨
      (∃ f, w' = snd (render_latest (nw_shared n) f)) ∨
      w' = request_shutdown (nw_shared n) →
      window_step n (mkNativeWindow w' (nw_pending_high_surrogate n) (nw_attached n)).

Lemma nw_send_wf n e :
  window_wf (nw_shared n) → window_event_ok e → window_wf (nw_shared (nw_send n e)).
Proof.
  intros [] He. split; cbn; try done; unfold normal_try_send; case_match; auto.
  - rewrite len_app, len_cons, len_nil. lia.
  - apply Forall_app; auto.
Qed.
Lemma control_push_wf w e commands render handle running :
  window_wf w → window_event_ok e →
  window_wf (ws_with w commands (ws_control w) (ws_normal w) render handle running) →
  window_wf (ws_with w commands (ControlEventQueue_push (ws_control w) e) (ws_normal w) render
    handle running).
Proof.
  intros [] He []. destruct (push_ok (ws_control w) e) as []; [done..|]. by split.
Qed.
Lemma nw_send_control_wf n e :
  window_wf (nw_shared n) → window_event_ok e → window_wf (nw_shared (nw_send_control n e)).
Proof. intros H He. apply control_push_wf; [done..|]. destruct H. by split. Qed.

Lemma wheel_ok x y :
  - 2 ^ 15 ≤ x < 2 ^ 15 → - 2 ^ 15 ≤ y < 2 ^ 15 → window_event_ok (Window_Input (Input_MouseWheel x y)).
Proof. intros. unfold window_event_ok, event_typed, InputEvent_validate, wheel_in_range.
  split; [lia|]. rewrite !(proj2 (Z.leb_le _ _)) by lia. done.
Qed.

Lemma window_proc_wf gks n m :
  window_wf (nw_shared n) → window_wf (nw_shared (snd (window_proc gks n m))).
Proof.
  intros Hw. unfold window_proc.
  assert (∀ n e, window_wf (nw_shared n) → (∀ i, e = Some i → window_event_ok (Window_Input i)) →
    window_wf (nw_shared (nw_send_input n e))) as Hi.
  { intros n' [i|] Hn' Hi; cbn; [apply nw_send_wf; auto|done]. }
  pose proof (λ u, as_i16_range u) as Ha. pose proof land_uint16 as Hu.
  destruct m; [done|destruct (negb (nw_attached n)); [done|]..]; cbn [snd];
    try (apply nw_send_control_wf; [done|done]); try done;
    try (apply Hi; [done|]; intros i; apply key_event_ok);
    try (apply Hi; [done|]; intros i [= <-]; done).
  - apply nw_send_wf; [done|]. split; apply Hu.
  - destruct (decode_utf16_unit _ _) as [text pending] eqn:E. apply Hi; [done|].
    intros i Ei. destruct text as [text|]; [|done]. injection Ei as <-.
    apply decoded_text_ok in E. split; [done|]. cbn. unfold MAX_TEXT_BYTES.
    destruct (Z.ltb_spec 4096 (str_len text)); [lia|done].
  - apply Hi; [done|]. intros i [= <-]. split; [|done]. unfold signed_low, signed_high. cbn.
    match goal with |- context [as_i16 ?a] => pose proof (Ha a) end.
    match goal with |- _ ∧ _ ≤ as_i16 ?a < _ => pose proof (Ha a) end. lia.
  - apply Hi; [done|]. intros i [= <-]. apply wheel_ok; [lia|apply Ha].
  - apply Hi; [done|]. intros i [= <-]. apply wheel_ok; [apply Ha|lia].
Qed.

Lemma native_command_wf w c :
  window_wf w → window_wf (snd (native_command w c)).
Proof.
  intros Hw. destruct c as [frame|title| | |]; try done. cbn.
  assert (∀ render, window_wf (ws_with w (ws_commands w) (ws_control w) (ws_normal w) render
      (ws_native_handle w) (ws_running w)) →
    window_wf (ws_with w (ws_commands w) (ControlEventQueue_push (ws_control w)
      Window_RenderRejected) (ws_normal w) render (ws_native_handle w) (ws_running w))) as Hr.
  { intros render Hr. by apply control_push_wf. }
  destruct (Z.ltb_spec (wc_max_render_payload (ws_config w)) (len (job_access_unit frame))).
  { apply Hr. destruct Hw. by split. }
  destruct (push_latest (ws_render w) frame) as [r render] eqn:E.
  assert (window_wf (ws_with w (ws_commands w) (ws_control w) (ws_normal w) render
    (ws_native_handle w) (ws_running w))).
  { destruct Hw. eapply push_latest_ok in E as []; [|done..]. by split. }
  destruct r; cbn; auto.
Qed.
Lemma drain_commands_wf commands w :
  window_wf w → window_wf (snd (drain_commands commands w)).
Proof.
  revert w. induction commands as [|c commands IH]; intros w Hw; cbn; [done|].
  pose proof (native_command_wf w c Hw) as Hc. destruct (native_command w c) as [calls w1].
  specialize (IH w1 Hc). by destruct (drain_commands commands w1).
Qed.

Lemma try_send_wf w c : window_wf w → window_wf (snd (WindowController_try_send w c)).
Proof.
  intros Hw. unfold WindowController_try_send. destruct (validate_command c _) as [[]|] eqn:E; [|done].
  destruct (negb _); [done|]. destruct (Z.ltb_spec (len (ws_commands w))
    (wc_channel_capacity (ws_config w))); [|done].
  destruct Hw. split; cbn; try done.
  - rewrite len_app, len_cons, len_nil. lia.
  - apply Forall_app; auto.
Qed.
Lemma try_next_event_wf w : window_wf w → window_wf (snd (try_next_event w)).
Proof.
  intros Hw. unfold try_next_event. destruct (ws_control w) as [|e control] eqn:Ec; cbn.
  - destruct (ws_normal w) as [|e normal] eqn:En; [done|]. destruct Hw.
    rewrite En, len_cons in *. apply Forall_cons in wf_normal_events0 as [_ ?].
    split; cbn; try done; lia.
  - destruct Hw. rewrite Ec, len_cons in *. apply Forall_cons in wf_control_events0 as [_ ?].
    split; cbn; try done; lia.
Qed.
Lemma render_latest_wf w f : window_wf w → window_wf (snd (render_latest w f)).
Proof.
  intros Hw. unfold render_latest.
  destruct (Z.ltb_spec (wc_max_render_payload (ws_config w)) (len (job_access_unit f))); [done|].
  destruct (push_latest (ws_render w) f) as [r render] eqn:E. destruct Hw.
  eapply push_latest_ok in E as []; [|done..]. by split.
Qed.
Lemma request_shutdown_wf w : window_wf w → window_wf (request_shutdown w).
Proof. intros []. apply try_send_wf. by split. Qed.

Lemma window_step_wf n n' : window_step n n' → window_wf (nw_shared n) → window_wf (nw_shared n').
Proof.
  intros [gks n0 m|n0 d|n0|n0 w' [[c ->]|[->|[[f ->]| ->]]]] Hw.
  - by apply window_proc_wf.
  - unfold native_iteration. set (w0 := ws_with (nw_shared n0) [] _ _ _ _ _).
    pose proof (drain_commands_wf (ws_commands (nw_shared n0)) w0) as Hd.
    destruct (drain_commands _ w0). apply Hd. destruct Hw. split; try done.
    cbn in *. rewrite len_nil. pose proof (len_nonneg (ws_commands (nw_shared n0))). lia.
  - destruct Hw. by split.
  - by apply try_send_wf.
  - by apply try_next_event_wf.
  - by apply render_latest_wf.
  - by apply request_shutdown_wf.
Qed.

(** The fields of the configuration are unsigned. *)
Definition WindowConfig_typed (c : WindowConfig) : Prop :=
  uint 32 (wc_width c) ∧ uint 32 (wc_height c) ∧ uint 64 (wc_channel_capacity c) ∧
  uint 64 (wc_max_render_payload c).

(** C38. Types and bounds at the window boundary: whatever native messages arrive and
    whatever the controller sends, in any order, every input event the window queues is
    typed and passes the input validation, sizes fit 16 bits, the control, event and
    command queues stay within their capacities, queued commands are valid, and the
    frame waiting for the renderer is non-empty and within the configured payload. *)
Theorem window_state_typed (config : WindowConfig) (w : WindowShared) (hwnd : Z)
    (n : NativeWindow) :
  WindowConfig_typed config →
  WindowController_start config = Ok w →
  rtc window_step (native_start w hwnd) n →
  window_wf (nw_shared n).
Proof.
  intros Ht Hs Hsteps.
  assert (window_wf (nw_shared (native_start w hwnd))) as H0.
  { unfold WindowController_start in Hs. destruct (validate_config config) as [[]|] eqn:Ev; [|done].
    injection Hs as <-. unfold WindowConfig_typed, uint in Ht. split; cbn; rewrite ?len_nil; try done; try lia.
    by constructor. }
  induction Hsteps as [|n1 n2 n3 Hstep _ IH]; [done|]. by eapply IH, window_step_wf.
Qed.
Lemma window_state_typed_witness :
  ∃ w, WindowController_start WindowConfig_default = Ok w ∧
    window_wf (nw_shared (snd (window_proc (λ _, -32768) (native_start w 7)
      (WM_KEYDOWN 65 1966081)))) ∧
    ws_normal (nw_shared (snd (window_proc (λ _, -32768) (native_start w 7)
      (WM_KEYDOWN 65 1966081)))) = [Window_Input (Input_Key 4 4 Key_Down 7)].
Proof.
  eexists. split; [vm_compute; reflexivity|]. split; [|vm_compute; reflexivity].
  eapply (window_state_typed WindowConfig_default _ 7).
  - vm_compute. repeat split; congruence.
  - vm_compute. reflexivity.
  - eapply rtc_l; [apply step_message|apply rtc_refl].
Defined.

(** ** The render handoff and the end of the thread *)

(** What a producer and the renderer do to the queue. *)
Inductive RenderOp := Render_Push (f : DecodedFrameJob) | Render_Take | Render_Clear | Render_Stop.
Definition render_op (q : RenderQueueState) (op : RenderOp) : RenderQueueState :=
  match op with
  | Render_Push f => snd (push_latest q f)
  | Render_Take => snd (take_latest q)
  | Render_Clear => RenderQueue_clear q
  | Render_Stop => RenderQueue_shutdown q
  end.
Definition render_ops (ops : list RenderOp) : RenderQueueState :=
  fold_left render_op ops RenderQueue_new.

(** The depth-one contract: the newest valid frame pushed since the slot was last
    emptied, and nothing after a shutdown. *)
Fixpoint newest (ops : list RenderOp) (stopped : bool) (slot : option DecodedFrameJob) :
    option DecodedFrameJob :=
  match ops with
  | [] => slot
  | Render_Push f :: ops =>
      newest ops stopped (if is_ok (validate_frame f) && negb stopped then Some f else slot)
  | (Render_Take | Render_Clear) :: ops => newest ops stopped None
  | Render_Stop :: ops => newest ops true None
  end.

Lemma render_refines ops q :
  rq_latest (fold_left render_op ops q) = newest ops (rq_shutdown q) (rq_latest q) ∧
  rq_shutdown (fold_left render_op ops q) =
    rq_shutdown q || existsb (λ op, match op with Render_Stop => true | _ => false end) ops.
Proof.
  revert q. induction ops as [|op ops IH]; intros q; cbn [fold_left newest existsb].
  { by rewrite orb_false_r. }
  specialize (IH (render_op q op)) as [-> ->]. destruct op as [f| | |]; cbn.
  - unfold push_latest. destruct (validate_frame f); [|done].
    by destruct (rq_shutdown q) eqn:Es; cbn; rewrite ?Es.
  - done.
  - done.
  - by rewrite orb_true_r.
Qed.

Lemma render_shutdown_empty ops q :
  (rq_shutdown q = true → rq_latest q = None) →
  rq_shutdown (fold_left render_op ops q) = true → rq_latest (fold_left render_op ops q) = None.
Proof.
  revert q. induction ops as [|op ops IH]; intros q Hq; [done|]. apply IH.
  destruct op as [f| | |]; cbn; try done. unfold push_latest.
  destruct (validate_frame f); [|done]. destruct (rq_shutdown q) eqn:E; cbn; [auto|done].
Qed.

(** The render handoff refines a one-place slot: after any sequence of pushes,
    takes, clears and shutdowns the pending frame is the newest valid frame pushed since
    the slot was last emptied, and once the queue is shut down it stays shut down and
    refuses every push with its error. *)
Theorem render_queue_refines_slot (ops : list RenderOp) (f : DecodedFrameJob) :
  let q := render_ops ops in
  rq_latest q = newest ops false None ∧
  fst (take_latest q) = newest ops false None ∧
  (is_shutdown q = true ↔ Render_Stop ∈ ops) ∧
  (Render_Stop ∈ ops →
     rq_latest q = None ∧
     fst (push_latest q f) = match validate_frame f with
                             | Ok _ => Err Render_Shutdown | Err e => Err e end).
Proof.
  intros q. destruct (render_refines ops RenderQueue_new) as [Hl Hs].
  fold (render_ops ops) in Hl, Hs. fold q in Hl, Hs. cbn in Hs.
  assert (is_shutdown q = true ↔ Render_Stop ∈ ops) as Hiff.
  { unfold is_shutdown. rewrite Hs, existsb_exists. split.
    - intros (op & Hin%list_elem_of_In & ?). by destruct op.
    - intros Hin. exists Render_Stop. by rewrite <-list_elem_of_In. }
  split_and!; [done|done|done|]. intros Hin. split.
  - by apply (render_shutdown_empty ops RenderQueue_new), Hiff.
  - unfold push_latest. apply Hiff in Hin. unfold is_shutdown in Hin. rewrite Hin.
    by destruct (validate_frame f).
Qed.
Lemma render_queue_refines_slot_witness :
  let job n := mkDecodedFrameJob n 0 false [x00] in
  rq_latest (render_ops [Render_Push (job 1); Render_Push (job 2); Render_Stop]) = None ∧
  fst (push_latest (render_ops [Render_Push (job 1); Render_Push (job 2); Render_Stop]) (job 3)) =
    Err Render_Shutdown.
Proof.
  intros job.
  destruct (render_queue_refines_slot [Render_Push (job 1); Render_Push (job 2); Render_Stop]
    (job 3)) as (_ & _ & _ & H). apply H. set_solver.
Defined.

(** The thread stops: [steps] iterations of the portable loop. *)
Definition window_thread_steps (k : nat) (w : WindowShared) : WindowShared :=
  Nat.iter k window_thread_step w.

Lemma window_thread_stopped w k : ws_running w = false → window_thread_steps k w = w.
Proof.
  intros Hr. induction k as [|k IH]; [done|].
  change (window_thread_step (window_thread_steps k w) = w).
  rewrite IH. unfold window_thread_step. by rewrite Hr.
Qed.

(** Shutdown of the window thread: from any well-formed state, once the
    controller has requested shutdown the thread ends with its next iteration whatever
    commands are queued or how full the queue is, clears the native handle, queues a
    close event, stays ended, and later commands are refused as closed; the
    controller's wait returns at the first poll that sees it. *)
Theorem window_thread_terminates (w : WindowShared) (k : nat) (c : WindowCommand)
    (deadline now : Z) (polls : list (bool * Z)) :
  window_wf w → ws_running w = true →
  let w' := window_thread_steps (S k) (request_shutdown w) in
  ws_running w' = false ∧ native_handle w' = None ∧ Window_Closed ∈ ws_control w' ∧
  (validate_command c (wc_max_render_payload (ws_config w)) = Ok tt →
     WindowController_try_send w' c = (Err Window_CommandClosed, w')) ∧
  shutdown_wait deadline ((negb (ws_running w'), now) :: polls) = Some (Ok tt).
Proof.
  intros Hw Hr w'.
  assert (ws_running (request_shutdown w) = true ∧ ws_shutdown_requested (request_shutdown w) = true
    ∧ ws_control (request_shutdown w) = ws_control w ∧ ws_config (request_shutdown w) = ws_config w)
    as (Hr' & Hs & Hc & Hcfg).
  { unfold request_shutdown, WindowController_try_send. cbn. rewrite Hr. cbn. by case_match. }
  assert (w' = window_closed (request_shutdown w) (ws_commands (request_shutdown w))) as ->.
  { unfold w', window_thread_steps. rewrite Nat.iter_succ_r. unfold window_thread_step at 2.
    rewrite Hr', Hs. cbn [negb]. by apply window_thread_stopped. }
  split_and!; [done|done| | |done].
  - cbn. rewrite Hc. destruct (push_closed (ws_control w)) as (a & b & -> & _);
      [apply Hw|set_solver].
  - intros Hv. unfold WindowController_try_send. cbn [ws_config window_closed ws_with].
    by rewrite Hcfg, Hv.
Qed.
Lemma window_thread_terminates_witness :
  let w := mkWindowShared WindowConfig_default [Command_RequestFocus] [] [] RenderQueue_new 7
    false true in
  let w' := window_thread_steps 1 (request_shutdown w) in
  ws_running w' = false ∧ native_handle w' = None ∧ Window_Closed ∈ ws_control w' ∧
  WindowController_try_send w' Command_Close = (Err Window_CommandClosed, w') ∧
  shutdown_wait 250 [(negb (ws_running w'), 0)] = Some (Ok tt).
Proof.
  intros w. destruct (window_thread_terminates w 0 Command_Close 250 0 []) as (? & ? & ? & H4 & ?).
  - split; cbn; repeat constructor; try done; try lia.
  - reflexivity.
  - cbv zeta. split_and!; try assumption. apply H4. reflexivity.
Defined.
