(* ===== verification/WinInput.v ===== *)
(** * Input injection and cursor capture on Windows

    platform/windows/src/error.rs, input.rs and cursor.rs: the error kinds, the
    translation of semantic input events to native records, the injector over a native
    API, and the validated cursor snapshot.  What the Windows API answers is a
    parameter; flags of the API are named, and a combination of flags is their list. *)

From S2P Require Import Prelude RustStr Unicode Input Window.

Open Scope Z_scope.

(** ** Records *)

Record MonitorBounds := mkMonitorBounds { mb_min_x : Z; mb_min_y : Z; mb_max_x : Z; mb_max_y : Z }.

Inductive InputRecord :=
  | Record_ScanCode (scan_code : Z) (extended key_up : bool)
  | Record_Unicode (code_unit : Z) (key_up : bool)
  | Record_MouseMove (absolute_x absolute_y : Z)
  | Record_MouseButton (button : MouseButton) (pressed : bool)
  | Record_MouseWheel (delta_x delta_y : Z).

Record WindowsScanCode := mkWindowsScanCode { sc_value : Z; sc_extended : bool }.
Definition scan_code (value : Z) : WindowsScanCode := mkWindowsScanCode value false.
Definition extended_scan_code (value : Z) : WindowsScanCode := mkWindowsScanCode value true.

Definition map_hid_usage (usage : Z) : BackendResult WindowsScanCode :=
  if (30 <=? usage) && (usage <=? 39) then Ok (scan_code (usage - 30 + 2)) else
  if (58 <=? usage) && (usage <=? 67) then Ok (scan_code (usage - 58 + 59)) else
  match usage with
  | 4 => Ok (scan_code 30) | 5 => Ok (scan_code 48) | 6 => Ok (scan_code 46)
  | 7 => Ok (scan_code 32) | 8 => Ok (scan_code 18) | 9 => Ok (scan_code 33)
  | 10 => Ok (scan_code 34) | 11 => Ok (scan_code 35) | 12 => Ok (scan_code 23)
  | 13 => Ok (scan_code 36) | 14 => Ok (scan_code 37) | 15 => Ok (scan_code 38)
  | 16 => Ok (scan_code 50) | 17 => Ok (scan_code 49) | 18 => Ok (scan_code 24)
  | 19 => Ok (scan_code 25) | 20 => Ok (scan_code 16) | 21 => Ok (scan_code 19)
  | 22 => Ok (scan_code 31) | 23 => Ok (scan_code 20) | 24 => Ok (scan_code 22)
  | 25 => Ok (scan_code 47) | 26 => Ok (scan_code 17) | 27 => Ok (scan_code 45)
  | 28 => Ok (scan_code 21) | 29 => Ok (scan_code 44)
  | 40 => Ok (scan_code 28) | 41 => Ok (scan_code 1) | 42 => Ok (scan_code 14)
  | 43 => Ok (scan_code 15) | 44 => Ok (scan_code 57) | 45 => Ok (scan_code 12)
  | 46 => Ok (scan_code 13) | 47 => Ok (scan_code 26) | 48 => Ok (scan_code 27)
  | 49 => Ok (scan_code 43) | 50 => Ok (scan_code 43) | 51 => Ok (scan_code 39)
  | 52 => Ok (scan_code 40) | 53 => Ok (scan_code 41) | 54 => Ok (scan_code 51)
  | 55 => Ok (scan_code 52) | 56 => Ok (scan_code 53) | 57 => Ok (scan_code 58)
  | 68 => Ok (scan_code 87) | 69 => Ok (scan_code 88) | 71 => Ok (scan_code 70)
  | 73 => Ok (extended_scan_code 82) | 74 => Ok (extended_scan_code 71)
  | 75 => Ok (extended_scan_code 73) | 76 => Ok (extended_scan_code 83)
  | 77 => Ok (extended_scan_code 79) | 78 => Ok (extended_scan_code 81)
  | 79 => Ok (extended_scan_code 77) | 80 => Ok (extended_scan_code 75)
  | 81 => Ok (extended_scan_code 80) | 82 => Ok (extended_scan_code 72)
  | 83 => Ok (scan_code 69) | 84 => Ok (extended_scan_code 53) | 85 => Ok (scan_code 55)
  | 86 => Ok (scan_code 74) | 87 => Ok (scan_code 78) | 88 => Ok (extended_scan_code 28)
  | 89 => Ok (scan_code 79) | 90 => Ok (scan_code 80) | 91 => Ok (scan_code 81)
  | 92 => Ok (scan_code 75) | 93 => Ok (scan_code 76) | 94 => Ok (scan_code 77)
  | 95 => Ok (scan_code 71) | 96 => Ok (scan_code 72) | 97 => Ok (scan_code 73)
  | 98 => Ok (scan_code 82) | 99 => Ok (scan_code 83) | 100 => Ok (scan_code 86)
  | 101 => Ok (extended_scan_code 93)
  | 224 => Ok (scan_code 29) | 225 => Ok (scan_code 42) | 226 => Ok (scan_code 56)
  | 227 => Ok (extended_scan_code 91) | 228 => Ok (extended_scan_code 29)
  | 229 => Ok (scan_code 54) | 230 => Ok (extended_scan_code 56)
  | 231 => Ok (extended_scan_code 92)
  | _ => Err InvalidInput
  end.

(** [i64::checked_sub] and [checked_mul]; [/] truncates. *)
Definition checked_i64 (z : Z) : option Z := if decide (sint 64 z) then Some z else None.

Definition normalize_coordinate (value minimum maximum : Z) : BackendResult Z :=
  range ← ok_or (checked_i64 (maximum - minimum)) InvalidInput;
  guard! range <=? 0 else InvalidInput ;;
  offset ← ok_or (checked_i64 (value - minimum)) InvalidInput;
  product ← ok_or (checked_i64 (offset * 65535)) InvalidInput;
  Ok (Z.min (Z.max (Z.quot product range) 0) 65535).

Definition translate (event : InputEvent) (monitor : MonitorBounds) :
    BackendResult (list InputRecord) :=
  match event with
  | Input_Key physical_code _ action _ =>
      code ← map_hid_usage physical_code;
      Ok [Record_ScanCode (sc_value code) (sc_extended code) (bool_decide (action = Key_Up))]
  | Input_Text text =>
      Ok (concat ((λ u, [Record_Unicode u false; Record_Unicode u true]) <$> encode_utf16 text))
  | Input_MouseMove x y =>
      absolute_x ← normalize_coordinate x (mb_min_x monitor) (mb_max_x monitor);
      absolute_y ← normalize_coordinate y (mb_min_y monitor) (mb_max_y monitor);
      Ok [Record_MouseMove absolute_x absolute_y]
  | Input_MouseButton button pressed => Ok [Record_MouseButton button pressed]
  | Input_MouseWheel delta_x delta_y =>
      Ok ((if delta_y =? 0 then [] else [Record_MouseWheel 0 delta_y]) ++
          (if delta_x =? 0 then [] else [Record_MouseWheel delta_x 0]))
  end.

(** ** The injector *)

Class NativeInputApi (A : Type) := send : A → list InputRecord → BackendResult Z * A.

Record InputInjector (A : Type) := mkInputInjector { inj_native : A; inj_monitor : MonitorBounds }.
Arguments mkInputInjector {A} _ _.
Arguments inj_native {A} _.
Arguments inj_monitor {A} _.

Definition inject_records {A} `{NativeInputApi A} (i : InputInjector A) (event : InputEvent) :
    BackendResult Z * InputInjector A :=
  match InputEvent_validate event with
  | Err _ => (Err InvalidInput, i)
  | Ok _ =>
      match translate event (inj_monitor i) with
      | Err e => (Err e, i)
      | Ok records =>
          let '(r, native) := send (inj_native i) records in
          (match r with
           | Err e => Err e
           | Ok submitted => if submitted =? len records then Ok submitted else Err NativeFailure
           end, mkInputInjector native (inj_monitor i))
      end
  end.

(** *** The production adapter *)

Inductive InputFlag :=
  | KEYEVENTF_SCANCODE | KEYEVENTF_EXTENDEDKEY | KEYEVENTF_KEYUP | KEYEVENTF_UNICODE
  | MOUSEEVENTF_MOVE | MOUSEEVENTF_ABSOLUTE | MOUSEEVENTF_VIRTUALDESK
  | MOUSEEVENTF_LEFTDOWN | MOUSEEVENTF_LEFTUP | MOUSEEVENTF_MIDDLEDOWN | MOUSEEVENTF_MIDDLEUP
  | MOUSEEVENTF_RIGHTDOWN | MOUSEEVENTF_RIGHTUP | MOUSEEVENTF_XDOWN | MOUSEEVENTF_XUP
  | MOUSEEVENTF_WHEEL | MOUSEEVENTF_HWHEEL.

(** The fields of [INPUT] the code sets to anything but zero. *)
Inductive INPUT :=
  | Keyboard_Input (wScan : Z) (flags : list InputFlag)
  | Mouse_Input (dx dy mouse_data : Z) (flags : list InputFlag).

Definition mouse_button_flags (button : MouseButton) (pressed : bool) : InputFlag * Z :=
  match button, pressed with
  | Button_Left, true => (MOUSEEVENTF_LEFTDOWN, 0)
  | Button_Left, false => (MOUSEEVENTF_LEFTUP, 0)
  | Button_Middle, true => (MOUSEEVENTF_MIDDLEDOWN, 0)
  | Button_Middle, false => (MOUSEEVENTF_MIDDLEUP, 0)
  | Button_Right, true => (MOUSEEVENTF_RIGHTDOWN, 0)
  | Button_Right, false => (MOUSEEVENTF_RIGHTUP, 0)
  | Button_Back, true => (MOUSEEVENTF_XDOWN, 1)
  | Button_Back, false => (MOUSEEVENTF_XUP, 1)
  | Button_Forward, true => (MOUSEEVENTF_XDOWN, 2)
  | Button_Forward, false => (MOUSEEVENTF_XUP, 2)
  end.

Definition to_windows_input (record : InputRecord) : INPUT :=
  match record with
  | Record_ScanCode scan_code extended key_up =>
      Keyboard_Input scan_code ([KEYEVENTF_SCANCODE] ++
        (if extended then [KEYEVENTF_EXTENDEDKEY] else []) ++
        (if key_up then [KEYEVENTF_KEYUP] else []))
  | Record_Unicode code_unit key_up =>
      Keyboard_Input code_unit ([KEYEVENTF_UNICODE] ++
        (if key_up then [KEYEVENTF_KEYUP] else []))
  | Record_MouseMove absolute_x absolute_y =>
      Mouse_Input absolute_x absolute_y 0
        [MOUSEEVENTF_MOVE; MOUSEEVENTF_ABSOLUTE; MOUSEEVENTF_VIRTUALDESK]
  | Record_MouseButton button pressed =>
      let '(flags, mouse_data) := mouse_button_flags button pressed in
      Mouse_Input 0 0 mouse_data [flags]
  | Record_MouseWheel delta_x delta_y =>
      if negb (delta_y =? 0) then Mouse_Input 0 0 (wrap 32 delta_y) [MOUSEEVENTF_WHEEL]
      else Mouse_Input 0 0 (wrap 32 delta_x) [MOUSEEVENTF_HWHEEL]
  end.

(** [SendInput] returns how many events it inserted; [log] is what was inserted. *)
Section windows.
Context (SendInput : list INPUT → Z).

Definition WindowsSendInputApi_send (log : list INPUT) (records : list InputRecord) :
    BackendResult Z * list INPUT :=
  let inputs := to_windows_input <$> records in
  let submitted := SendInput inputs in
  (if submitted =? len inputs then Ok submitted else Err NativeFailure,
   log ++ take (Z.to_nat submitted) inputs).
End windows.

(** On other platforms every send is refused. *)
Definition unsupported_send (u : unit) (records : list InputRecord) : BackendResult Z * unit :=
  (Err UnsupportedPlatform, u).

(** ** Cursor snapshots *)

Record CursorSnapshot := mkCursorSnapshot {
  cs_visible : bool; cs_x : Z; cs_y : Z; cs_width : Z; cs_height : Z;
  cs_hotspot_x : Z; cs_hotspot_y : Z; cs_rgba : bytes
}.
Definition MAX_DIMENSION : Z := 256.
Definition MAX_RGBA_BYTES : Z := 256 * 256 * 4.

Definition CursorSnapshot_validate (s : CursorSnapshot) : BackendResult unit :=
  if negb (cs_visible s) && (cs_width s =? 0) && (cs_height s =? 0) && bool_decide (cs_rgba s = [])
  then Ok tt else
  guard! (cs_width s =? 0) || (cs_height s =? 0) || (MAX_DIMENSION <? cs_width s)
      || (MAX_DIMENSION <? cs_height s) else InvalidCursorDimensions ;;
  expected_len ← ok_or (pixels ← checked_mul usize_max (cs_width s) (cs_height s);
                        checked_mul usize_max pixels 4) CursorPayloadLength;
  guard! (MAX_RGBA_BYTES <? expected_len) || negb (len (cs_rgba s) =? expected_len)
    else CursorPayloadLength ;;
  guard! cs_visible s && ((cs_width s <=? cs_hotspot_x s) || (cs_height s <=? cs_hotspot_y s))
    else HotspotOutOfBounds ;;
  Ok tt.

(** The answers of the native calls: [None] is a failed call or an invalid handle.
    [GetDIBits] reports the rows it copied and writes the buffer it is given. *)
Class CursorApi := {
  GetCursorInfo : option (bool * Z * Z);
  GetIconInfo : option (Z * Z * bool);
  GetObjectW : option (Z * Z);
  GetDC : bool;
  GetDIBits : Z → Z * (nat → byte)
}.

(** [u32::try_from] of an [i32]. *)
Definition u32_try_from {E} (z : Z) (e : E) : result E Z :=
  if (0 <=? z) && (z <? 2 ^ 32) then Ok z else Err e.

(** [pixel.swap(0, 2)] on the whole chunks of four bytes. *)
Fixpoint swap_pixels (bgra : bytes) : bytes :=
  match bgra with
  | b :: g :: r :: a :: rest => r :: g :: b :: a :: swap_pixels rest
  | rest => rest
  end.

Section cursor.
Context `{CursorApi}.

Definition rgba_from_color_bitmap (valid : bool) : BackendResult (Z * Z * bytes) :=
  guard! negb valid else NativeFailure ;;
  size ← ok_or GetObjectW NativeFailure;
  width ← u32_try_from (fst size) InvalidCursorDimensions;
  height ← u32_try_from (snd size) InvalidCursorDimensions;
  guard! (width =? 0) || (height =? 0) || (MAX_DIMENSION <? width) || (MAX_DIMENSION <? height)
    else InvalidCursorDimensions ;;
  bytes ← ok_or (pixels ← checked_mul usize_max width height;
                 b ← checked_mul usize_max pixels 4;
                 if b <=? MAX_RGBA_BYTES then Some b else None) CursorPayloadLength;
  guard! negb GetDC else NativeFailure ;;
  let '(copied_rows, buffer) := GetDIBits height in
  guard! negb (copied_rows =? height) else NativeFailure ;;
  Ok (width, height, swap_pixels (buffer <$> seq 0 (Z.to_nat bytes))).

Definition WindowsCursorApi_snapshot : BackendResult CursorSnapshot :=
  info ← ok_or GetCursorInfo NativeFailure;
  let '(showing, x, y) := info in
  if negb showing then Ok (mkCursorSnapshot false x y 0 0 0 0 []) else
  icon ← ok_or GetIconInfo NativeFailure;
  let '(xHotspot, yHotspot, color) := icon in
  image ← rgba_from_color_bitmap color;
  let '(width, height, rgba) := image in
  Ok (mkCursorSnapshot true x y width height xHotspot yHotspot rgba).

Definition WindowsCursorSource_snapshot : BackendResult CursorSnapshot :=
  snapshot ← WindowsCursorApi_snapshot;
  _ ← CursorSnapshot_validate snapshot;
  Ok snapshot.
End cursor.

(** The client's check of a snapshot. *)
Definition validate_cursor_snapshot (s : CursorSnapshot) : result InputControllerError unit :=
  map_err Controller_InvalidCursor (CursorSnapshot_validate s).

(** ** Coordinates *)

(** Bounds as the types allow them. *)
Definition i32 (z : Z) : Prop := - 2 ^ 31 ≤ z < 2 ^ 31.

Lemma checked_i64_small z : - 2 ^ 62 ≤ z ≤ 2 ^ 62 → checked_i64 z = Some z.
Proof. intros. unfold checked_i64. rewrite decide_True; [done|]. unfold sint. lia. Qed.

(** On [i32] arguments no intermediate result overflows. *)
Lemma normalize_coordinate_eq v lo hi :
  i32 v → i32 lo → i32 hi →
  normalize_coordinate v lo hi =
    if hi <=? lo then Err InvalidInput
    else Ok (Z.min (Z.max (Z.quot ((v - lo) * 65535) (hi - lo)) 0) 65535).
Proof.
  unfold i32. intros Hv Hlo Hhi. unfold normalize_coordinate.
  rewrite !checked_i64_small by lia. cbn. rewrite checked_i64_small by lia. cbn.
  destruct (Z.leb_spec (hi - lo) 0), (Z.leb_spec hi lo); try lia; done.
Qed.

(** Clamping before or after the scaling is the same. *)
Lemma normalized_clamp v lo hi :
  lo < hi →
  Z.min (Z.max (Z.quot ((v - lo) * 65535) (hi - lo)) 0) 65535 =
    (Z.min (Z.max v lo) hi - lo) * 65535 / (hi - lo).
Proof.
  intros Hlt. destruct (Z.le_gt_cases v lo) as [Hl|Hl].
  { assert (Z.quot ((v - lo) * 65535) (hi - lo) ≤ 0) by (apply Z.quot_le_upper_bound; nia).
    replace (Z.min (Z.max v lo) hi) with lo by lia. rewrite Z.sub_diag, Z.mul_0_l, Z.div_0_l by lia. lia. }
  rewrite Z.quot_div_nonneg by nia. destruct (Z.le_gt_cases v hi) as [Hh|Hh].
  - replace (Z.min (Z.max v lo) hi) with v by lia.
    assert (0 ≤ (v - lo) * 65535 / (hi - lo)) by (apply Z.div_pos; nia).
    assert ((v - lo) * 65535 / (hi - lo) ≤ 65535) by (apply Z.div_le_upper_bound; nia). lia.
  - replace (Z.min (Z.max v lo) hi) with hi by lia.
    assert (65535 ≤ (v - lo) * 65535 / (hi - lo)) by (apply Z.div_le_lower_bound; nia).
    rewrite (Z.mul_comm (hi - lo) 65535), Z.div_mul by lia. lia.
Qed.

(** Mouse coordinates: on [i32] values the scaling never overflows; it is refused
    exactly when the bounds are empty; otherwise the result is the position clamped to
    the monitor and scaled to 0..65535 rounding down, so both edges are exact, order is
    preserved, and distinct positions stay distinct on a monitor of up to 65536
    pixels. *)
Theorem normalize_coordinate_spec (v lo hi : Z) :
  i32 v → i32 lo → i32 hi →
  (hi ≤ lo → normalize_coordinate v lo hi = Err InvalidInput) ∧
  (lo < hi →
     normalize_coordinate v lo hi = Ok ((Z.min (Z.max v lo) hi - lo) * 65535 / (hi - lo)) ∧
     0 ≤ (Z.min (Z.max v lo) hi - lo) * 65535 / (hi - lo) ≤ 65535 ∧
     normalize_coordinate lo lo hi = Ok 0 ∧ normalize_coordinate hi lo hi = Ok 65535 ∧
     ∀ v' a a', i32 v' → normalize_coordinate v lo hi = Ok a →
       normalize_coordinate v' lo hi = Ok a' →
       (v ≤ v' → a ≤ a') ∧
       (hi - lo ≤ 65535 → lo ≤ v → v < v' → v' ≤ hi → a < a')).
Proof.
  intros Hv Hlo Hhi. split.
  { intros. rewrite normalize_coordinate_eq by done. by destruct (Z.leb_spec hi lo); [|lia]. }
  intros Hlt.
  assert (∀ w, i32 w →
    normalize_coordinate w lo hi = Ok ((Z.min (Z.max w lo) hi - lo) * 65535 / (hi - lo))) as Heq.
  { intros w Hw. rewrite normalize_coordinate_eq by done.
    destruct (Z.leb_spec hi lo); [lia|]. by rewrite normalized_clamp. }
  split_and!; [by apply Heq|apply Z.div_pos; nia|apply Z.div_le_upper_bound; nia| | |].
  - rewrite Heq by done. replace (Z.min (Z.max lo lo) hi - lo) with 0 by lia. done.
  - rewrite Heq by done. replace (Z.min (Z.max hi lo) hi - lo) with (hi - lo) by lia.
    by rewrite Z.mul_comm, Z.div_mul by lia.
  - intros v' a a' Hv' Ha Ha'. rewrite Heq in Ha, Ha' by done. injection Ha as <-.
    injection Ha' as <-. split; [intros; apply Z.div_le_mono; nia|].
    intros Hr ???. replace (Z.min (Z.max v lo) hi) with v by lia.
    replace (Z.min (Z.max v' lo) hi) with v' by lia.
    apply Z.lt_le_trans with ((v - lo) * 65535 / (hi - lo) + 1); [lia|].
    rewrite <-Z.div_add by lia. apply Z.div_le_mono; nia.
Qed.
Lemma normalize_coordinate_spec_witness :
  normalize_coordinate 100 (-1920) 1919 = Ok ((100 - -1920) * 65535 / (1919 - -1920)).
Proof.
  destruct (normalize_coordinate_spec 100 (-1920) 1919) as [_ H]; [unfold i32; lia..|].
  apply H. lia.
Defined.

(** ** Keys and text *)

(** Every value of a finite range. *)
Ltac enumerate x lo :=
  destruct (Z.eq_dec x lo) as [->|?];
  [|match goal with
    | _ => exfalso; lia
    | _ => let hi := eval vm_compute in (lo + 1) in enumerate x hi
    end].

(** Every usage the window produces has a scan code. *)
Lemma virtual_key_scan_code code scan extended usage :
  map_virtual_key_to_hid code scan extended = Some usage →
  ∃ v x, map_hid_usage usage = Ok (mkWindowsScanCode v x) ∧ 0 < v < 128.
Proof.
  assert (∀ u, match map_hid_usage u with Ok sc => 0 < sc_value sc < 128 | Err _ => True end) as Hv.
  { intros u. unfold map_hid_usage.
    destruct ((30 <=? u) && _) eqn:?; [cbn; lia|]. destruct ((58 <=? u) && _) eqn:?; [cbn; lia|].
    repeat case_match; simplify_eq; cbn; lia. }
  intros Hm. cut (is_ok (map_hid_usage usage) = true).
  { intros Hok. specialize (Hv usage). destruct (map_hid_usage usage) as [[v x]|]; [|done]. eauto. }
  revert Hm. clear Hv. unfold map_virtual_key_to_hid. cbv zeta.
  destruct ((65 <=? code) && _) eqn:?; [intros [= <-]; enumerate code 65; done|].
  destruct ((48 <=? code) && _) eqn:?; [intros [= <-]; enumerate code 48; done|].
  destruct ((112 <=? code) && _) eqn:?; [intros [= <-]; enumerate code 112; done|].
  intros E. repeat case_match; simplify_eq; reflexivity.
Qed.

(** Keys end to end: every key event the client's window produces passes the input
    validation, and the host's injector translates it to exactly one scan-code record
    with a one-byte scan code, pressed or released as the key was. *)
Theorem window_key_injected (gks : VirtualKey → Z) (code lparam : Z) (pressed : bool)
    (e : InputEvent) (m : MonitorBounds) :
  key_event gks code lparam pressed = Some e →
  InputEvent_validate e = Ok tt ∧
  ∃ v x, translate e m = Ok [Record_ScanCode v x (negb pressed)] ∧ 0 < v < 128.
Proof.
  intros E. split; [by apply (key_event_ok gks code lparam pressed)|]. unfold key_event in E.
  destruct (map_virtual_key_to_hid code _ _) as [usage|] eqn:Eu; [|done]. injection E as <-.
  destruct (virtual_key_scan_code _ _ _ _ Eu) as (v & x & Hm & Hv). exists v, x.
  split; [|done]. cbn. rewrite Hm. by destruct pressed.
Qed.
Lemma window_key_injected_witness :
  let e := Input_Key 228 228 Key_Up 2 in
  key_event (λ k, match k with VK_CONTROL => -127 | _ => 0 end) 17 (285 * 65536) false = Some e ∧
  InputEvent_validate e = Ok tt ∧
  ∃ v x, translate e (mkMonitorBounds 0 0 0 0) = Ok [Record_ScanCode v x true] ∧ 0 < v < 128.
Proof.
  split; [reflexivity|].
  apply (window_key_injected (λ k, match k with VK_CONTROL => -127 | _ => 0 end) 17 (285 * 65536)
    false). reflexivity.
Defined.

(** A press and a release of each unit. *)
Definition unit_strokes (us : list Z) : list InputRecord :=
  concat ((λ u, [Record_Unicode u false; Record_Unicode u true]) <$> us).
Definition text_records (m : MonitorBounds) (texts : list string) :
    BackendResult (list InputRecord) :=
  foldr (λ t acc, records ← translate (Input_Text t) m; rest ← acc; Ok (records ++ rest))
    (Ok []) texts.

Lemma text_records_chars m cs :
  Forall is_scalar cs →
  text_records m ((λ c, utf8_string [c]) <$> cs) =
    Ok (unit_strokes (concat (utf16_char <$> cs))).
Proof.
  induction 1 as [|c cs Hc Hcs IH]; [done|]. cbn [fmap list_fmap text_records foldr].
  fold (text_records m ((λ c, utf8_string [c]) <$> cs)). cbn [translate].
  unfold encode_utf16. rewrite chars_utf8_string by (by constructor).
  cbn [mbind result_bind]. rewrite IH. cbn. unfold unit_strokes.
  by rewrite app_nil_r, fmap_app, concat_app.
Qed.
Lemma utf16_lossy_scalar us : Forall (uint 16) us → Forall is_scalar (utf16_lossy us).
Proof.
  assert (∀ n us, (length us ≤ n)%nat → Forall (uint 16) us → Forall is_scalar (utf16_lossy us))
    as H; [|by eauto].
  clear us. induction n as [|n IH]; intros [|u us] Hn Hu; try constructor; cbn in *; [lia|].
  apply Forall_cons in Hu as [Hu Hus]. destruct (is_high u) eqn:Eh.
  - destruct us as [|v us]; [constructor|]. destruct (is_low v) eqn:El; [|apply IH; [lia|done]].
    constructor; [by apply utf16_pair_scalar|].
    apply Forall_cons in Hus as [_ ?]. apply IH; [cbn in *; lia|done].
  - destruct (is_low u) eqn:El; [apply IH; [lia|done]|]. constructor; [|apply IH; [lia|done]].
    unfold is_high, is_low, uint, is_scalar in *. lia.
Qed.

(** Text end to end: over any stream of units typed into the client's window, the
    records the host injects for the resulting text events are a press and a release of
    each unit of the stream's characters, in order; for the units of a string they are
    exactly those units. *)
Theorem typed_text_injected (m : MonitorBounds) (us : list Z) :
  Forall (uint 16) us →
  text_records m (decoded_texts None us) =
    Ok (unit_strokes (concat (utf16_char <$> utf16_lossy us))) ∧
  (∀ cs, Forall is_scalar cs → us = encode_utf16 (utf8_string cs) →
     text_records m (decoded_texts None us) = Ok (unit_strokes us)).
Proof.
  intros Hu.
  assert (text_records m (decoded_texts None us) =
    Ok (unit_strokes (concat (utf16_char <$> utf16_lossy us)))) as E.
  { rewrite decoded_texts_lossy by done. by apply text_records_chars, utf16_lossy_scalar. }
  split; [done|]. intros cs Hc ->. rewrite E. unfold encode_utf16.
  by rewrite chars_utf8_string, utf16_lossy_encode by done.
Qed.
Lemma typed_text_injected_witness :
  text_records (mkMonitorBounds 0 0 1 1)
    (decoded_texts None (encode_utf16 (utf8_string [72; 128512]))) =
  Ok (unit_strokes (encode_utf16 (utf8_string [72; 128512]))).
Proof.
  apply (typed_text_injected (mkMonitorBounds 0 0 1 1) (encode_utf16 (utf8_string [72; 128512])))
    with (cs := [72; 128512]);
    [apply (bool_decide_unpack _); vm_compute; reflexivity..|reflexivity].
Defined.

(** ** The injector *)

(** Records as the native structures hold them. *)
Definition record_typed (r : InputRecord) : Prop :=
  match r with
  | Record_ScanCode v _ _ => uint 16 v
  | Record_Unicode u _ => uint 16 u
  | Record_MouseMove x y => uint 16 x ∧ uint 16 y
  | Record_MouseButton _ _ => True
  | Record_MouseWheel x y => i32 x ∧ i32 y
  end.
Definition bounds_typed (m : MonitorBounds) : Prop :=
  i32 (mb_min_x m) ∧ i32 (mb_min_y m) ∧ i32 (mb_max_x m) ∧ i32 (mb_max_y m).

(** Injection is all or nothing for the caller: on success the event was valid
    and exactly the native inputs of its translation were appended; an invalid or
    untranslatable event sends nothing; and if the system accepted only some of the
    inputs the caller gets a native failure, never a partial success. *)
Theorem injection_all_or_error (SendInput : list INPUT → Z) (log : list INPUT)
    (m : MonitorBounds) (e : InputEvent) r i' :
  @inject_records _ (WindowsSendInputApi_send SendInput) (mkInputInjector log m) e = (r, i') →
  inj_monitor i' = m ∧
  match r with
  | Ok n => InputEvent_validate e = Ok tt ∧ ∃ records, translate e m = Ok records ∧
      n = len records ∧ inj_native i' = log ++ (to_windows_input <$> records)
  | Err err =>
      (inj_native i' = log ∧ (InputEvent_validate e ≠ Ok tt ∧ err = InvalidInput ∨
                              translate e m = Err err)) ∨
      (err = NativeFailure ∧ ∃ records, translate e m = Ok records ∧
         SendInput (to_windows_input <$> records) ≠ len records)
  end.
Proof.
  unfold inject_records. intros E.
  destruct (InputEvent_validate e) as [[]|err] eqn:Ev;
    [|injection E as <- <-; split; [done|]; left; auto].
  cbn in E. destruct (translate e m) as [records|err] eqn:Et;
    [|injection E as <- <-; split; [done|]; left; auto].
  unfold send, WindowsSendInputApi_send in E.
  assert (len (to_windows_input <$> records) = len records) as Hlen
    by (unfold len; by rewrite length_fmap).
  rewrite Hlen in E.
  destruct (Z.eqb_spec (SendInput (to_windows_input <$> records)) (len records)) as [Hs|Hs].
  - rewrite Hs, Z.eqb_refl in E. injection E as <- <-. split; [done|]. split; [done|].
    exists records. split_and!; [done|done|]. cbn. f_equal. apply take_ge.
    rewrite length_fmap. unfold len. lia.
  - injection E as <- <-. split; [done|]. right. eauto.
Qed.
Lemma injection_all_or_error_witness :
  ∃ records, translate (Input_Text "hi") (mkMonitorBounds 0 0 1 1) = Ok records ∧
    4 = len records ∧
    inj_native (snd (@inject_records _ (WindowsSendInputApi_send (λ l, len l))
      (mkInputInjector [] (mkMonitorBounds 0 0 1 1)) (Input_Text "hi"))) =
      [] ++ (to_windows_input <$> records).
Proof.
  destruct (injection_all_or_error (λ l, len l) [] (mkMonitorBounds 0 0 1 1) (Input_Text "hi")
    (Ok 4) (snd (@inject_records _ (WindowsSendInputApi_send (λ l, len l))
      (mkInputInjector [] (mkMonitorBounds 0 0 1 1)) (Input_Text "hi")))) as (_ & _ & H).
  - vm_compute. reflexivity.
  - exact H.
Defined.

(** Rust strings are UTF-8. *)
Definition valid_utf8 (s : string) : Prop := ∃ cs, Forall is_scalar cs ∧ s = utf8_string cs.

Lemma unit_strokes_typed us : Forall (uint 16) us → Forall record_typed (unit_strokes us).
Proof. induction 1 as [|u us Hu _ IH]; [constructor|]. do 2 (constructor; [done|]). exact IH. Qed.
Lemma normalized_typed v lo hi a : i32 v → i32 lo → i32 hi →
  normalize_coordinate v lo hi = Ok a → uint 16 a.
Proof.
  intros Hv Hlo Hhi. rewrite normalize_coordinate_eq by done.
  destruct (Z.leb_spec hi lo); [done|]. intros [= <-]. unfold uint. lia.
Qed.

(** The translation is typed: from a typed event and typed bounds every record
    fits the native structure it is written to, code units and absolute coordinates in
    16 bits; and it fails only with [InvalidInput], for a key without a scan code or a
    mouse move over empty bounds. *)
Theorem translate_typed (e : InputEvent) (m : MonitorBounds) :
  event_typed e → bounds_typed m → (∀ t, e = Input_Text t → valid_utf8 t) →
  match translate e m with
  | Ok records => Forall record_typed records
  | Err err => err = InvalidInput ∧
      match e with
      | Input_Key usage _ _ _ => map_hid_usage usage = Err InvalidInput
      | Input_MouseMove _ _ => mb_max_x m ≤ mb_min_x m ∨ mb_max_y m ≤ mb_min_y m
      | _ => False
      end
  end.
Proof.
  intros He (Hx & Hy & Hx' & Hy') Ht. destruct e as [p l a md|t|x y|b pr|dx dy]; cbn.
  - assert (match map_hid_usage p with Ok sc => uint 16 (sc_value sc) | Err e => e = InvalidInput end).
    { unfold map_hid_usage.
      destruct ((30 <=? p) && _) eqn:?; [cbn; unfold uint; lia|].
      destruct ((58 <=? p) && _) eqn:?; [cbn; unfold uint; lia|].
      repeat case_match; simplify_eq; cbn; unfold uint; done || lia. }
    destruct (map_hid_usage p); cbn; [by apply Forall_singleton|subst; auto].
  - destruct (Ht t eq_refl) as (cs & Hcs & ->). apply unit_strokes_typed.
    unfold encode_utf16. rewrite chars_utf8_string by done. by apply utf16_units_typed.
  - destruct He as [He He'].
    destruct (normalize_coordinate x _ _) as [ax|] eqn:Ex; cbn.
    + destruct (normalize_coordinate y _ _) as [ay|] eqn:Ey; cbn.
      * apply Forall_singleton. split; by eapply normalized_typed; [..|done].
      * rewrite normalize_coordinate_eq in Ey by done. case_match; simplify_eq. split; [done|lia].
    + rewrite normalize_coordinate_eq in Ex by done. case_match; simplify_eq. split; [done|lia].
  - by apply Forall_singleton.
  - apply Forall_app. cbn in He.
    split; case_match; rewrite ?Forall_singleton; cbn; unfold i32; try constructor; lia.
Qed.
Lemma translate_typed_witness :
  match translate (Input_MouseMove 640 360) (mkMonitorBounds 0 0 1279 719) with
  | Ok records => Forall record_typed records | Err _ => False end.
Proof.
  pose proof (translate_typed (Input_MouseMove 640 360) (mkMonitorBounds 0 0 1279 719)) as H.
  apply H; [cbn; lia|unfold bounds_typed, i32; cbn; lia|discriminate].
Defined.

(** ** Cursor snapshots are bounded *)

(** A snapshot that leaves the cursor source is bounded: invisible and empty, or at
    most 256 by 256 with exactly four bytes a pixel and, when visible, its hotspot inside
    the image. *)
Theorem cursor_snapshot_bounded `{CursorApi} (s : CursorSnapshot) :
  WindowsCursorSource_snapshot = Ok s →
  (cs_visible s = false ∧ cs_rgba s = []) ∨
  (0 < cs_width s ≤ 256 ∧ 0 < cs_height s ≤ 256 ∧
   len (cs_rgba s) = cs_width s * cs_height s * 4 ∧
   cs_hotspot_x s < cs_width s ∧ cs_hotspot_y s < cs_height s).
Proof.
  unfold WindowsCursorSource_snapshot. intros (s0 & Hs & H2)%result_bind_ok.
  apply result_bind_ok in H2 as ([] & Hv & [= <-]).
  unfold WindowsCursorApi_snapshot in Hs. apply result_bind_ok in Hs as ([[showing x] y] & _ & Hs).
  destruct showing; cbn in Hs; [|injection Hs as <-; by left]. right.
  apply result_bind_ok in Hs as ([[hx hy] color] & _ & Hs).
  apply result_bind_ok in Hs as ([[w h] rgba] & Hi & [= <-]).
  assert (0 ≤ w ∧ 0 ≤ h) as [].
  { unfold rgba_from_color_bitmap, u32_try_from in Hi. destruct color; [|done]. cbn in Hi.
    destruct GetObjectW as [[w0 h0]|]; [|done]. cbn in Hi.
    destruct ((0 <=? w0) && _) eqn:Ew; [|done]. destruct ((0 <=? h0) && _) eqn:Eh; [|done].
    cbn in Hi. destruct (_ || _); [done|]. apply result_bind_ok in Hi as (b & _ & Hi).
    destruct (negb GetDC); [done|]. destruct (GetDIBits h0). destruct (negb _); [done|].
    injection Hi as <- <- _. lia. }
  unfold CursorSnapshot_validate in Hv. cbn in Hv.
  destruct (_ || _) eqn:Ed in Hv; [done|].
  unfold MAX_DIMENSION in Ed. unfold checked_mul in Hv.
  destruct (Z.leb_spec (w * h) usize_max); [|done]. cbn in Hv.
  destruct (Z.leb_spec (w * h * 4) usize_max); [|done]. cbn in Hv.
  destruct (_ || _) eqn:El in Hv; [done|]. destruct (_ || _) eqn:Eh in Hv; [done|].
  cbn. apply orb_false_elim in El as [_ El]. apply negb_false_iff, Z.eqb_eq in El. lia.
Qed.
Lemma cursor_snapshot_bounded_witness :
  let api := Build_CursorApi (Some (true, 10, 20)) (Some (1, 1, true)) (Some (2, 3)) true
    (λ h, (h, λ i, to_byte (Z.of_nat i))) in
  ∃ s, @WindowsCursorSource_snapshot api = Ok s ∧
    ((cs_visible s = false ∧ cs_rgba s = []) ∨
     (0 < cs_width s ≤ 256 ∧ 0 < cs_height s ≤ 256 ∧
      len (cs_rgba s) = cs_width s * cs_height s * 4 ∧
      cs_hotspot_x s < cs_width s ∧ cs_hotspot_y s < cs_height s)).
Proof.
  intros api. eexists. split; [vm_compute; reflexivity|].
  apply (@cursor_snapshot_bounded api). vm_compute. reflexivity.
Defined.
