(* ===== verification/Surface.v ===== *)
(** * Decoded surfaces

    The portable half of apps/nexus-client/src/decoder.rs (surface validation, the
    stream gate, the repacking of padded NV12 rows) and the pixel conversions of
    apps/nexus-client/src/renderer.rs.  A buffer that the code allocates and fills by
    index is a list written at offsets; an index out of range is a panic, [None]. *)

From S2P Require Import Prelude ClientReceiver VideoTransport Window.

Open Scope Z_scope.

Definition MAX_SURFACE_WIDTH : Z := 7680.
Definition MAX_SURFACE_HEIGHT : Z := 4320.
Definition MAX_SURFACE_BYTES : Z := 64 * 1024 * 1024.

Inductive SurfaceFormat := Nv12 | Rgba8.

Record DecodedSurface := mkDecodedSurface {
  ds_frame_id : Z;
  ds_timestamp_us : Z;
  ds_keyframe : bool;
  ds_width : Z;
  ds_height : Z;
  ds_format : SurfaceFormat;
  ds_bytes : bytes
}.

Inductive DecoderError :=
  | Decoder_Frame (e : RenderQueueError)
  | Decoder_MissingSequenceHeader
  | Decoder_InvalidDimensions
  | Decoder_InvalidSurface
  | Decoder_BackendUnavailable
  | Decoder_BackendLost.

(** [u32::is_multiple_of(2)] *)
Definition is_even (z : Z) : bool := z mod 2 =? 0.

Definition validated_pixel_count (width height : Z) : result DecoderError Z :=
  guard! (width =? 0) || (height =? 0) || (MAX_SURFACE_WIDTH <? width)
      || (MAX_SURFACE_HEIGHT <? height) || negb (is_even width) || negb (is_even height)
    else Decoder_InvalidDimensions ;;
  ok_or (checked_mul usize_max width height) Decoder_InvalidDimensions.

Definition validated_nv12_len (width height : Z) : result DecoderError Z :=
  pixels ← validated_pixel_count width height;
  bytes ← ok_or (checked_add usize_max pixels (pixels / 2)) Decoder_InvalidDimensions;
  guard! MAX_SURFACE_BYTES <? bytes else Decoder_InvalidDimensions ;;
  Ok bytes.

Definition DecodedSurface_validate (s : DecodedSurface) : result DecoderError unit :=
  pixels ← validated_pixel_count (ds_width s) (ds_height s);
  expected ← ok_or (match ds_format s with
                    | Nv12 => checked_add usize_max pixels (pixels / 2)
                    | Rgba8 => checked_mul usize_max pixels 4
                    end) Decoder_InvalidDimensions;
  guard! (MAX_SURFACE_BYTES <? expected) || negb (len (ds_bytes s) =? expected)
    else Decoder_InvalidSurface ;;
  Ok tt.

(** ** The stream gate *)

(** [slice::windows(n)] and [any] *)
Fixpoint windows {A} (n : nat) (l : list A) : list (list A) :=
  match l with
  | [] => []
  | _ :: l' => if (n <=? length l)%nat then take n l :: windows n l' else []
  end.

Definition contains_h264_sequence_header (access_unit : bytes) : bool :=
  existsb (λ nal, bool_decide (nal = [x00; x00; x00; x01; x67])) (windows 5 access_unit) ||
  existsb (λ nal, bool_decide (nal = [x00; x00; x01; x67])) (windows 4 access_unit).

(** [DecoderGate] is its flag. *)
Definition DecoderGate_accept (initialized : bool) (job : DecodedFrameJob) :
    result DecoderError unit * bool :=
  match validate_frame job with
  | Err e => (Err (Decoder_Frame e), initialized)
  | Ok _ =>
      if negb initialized then
        if negb (job_keyframe job) || negb (contains_h264_sequence_header (job_access_unit job))
        then (Err Decoder_MissingSequenceHeader, initialized)
        else (Ok tt, true)
      else (Ok tt, initialized)
  end.
Definition DecoderGate_reset (initialized : bool) : bool := false.

(** On other platforms the decoder is the gate alone. *)
Definition PlatformFrameDecoder_decode (gate : bool) (job : DecodedFrameJob) :
    result DecoderError (option DecodedSurface) * bool :=
  match DecoderGate_accept gate job with
  | (Err e, gate) => (Err e, gate)
  | (Ok _, gate) => (Err Decoder_BackendUnavailable, gate)
  end.

(** ** Buffers written at offsets *)

(** [&source[start..start + n]] and [buffer[start..start + n].copy_from_slice(row)]. *)
Definition slice_at (source : bytes) (start n : nat) : option bytes :=
  if (start + n <=? length source)%nat then Some (take n (drop start source)) else None.
Definition write_at (buffer : bytes) (start : nat) (row : bytes) : option bytes :=
  if (start + length row <=? length buffer)%nat
  then Some (take start buffer ++ row ++ drop (start + length row) buffer) else None.

(** A loop over [l] whose body may panic. *)
Fixpoint for_each {A B} (l : list A) (body : B → A → option B) (b : B) : option B :=
  match l with
  | [] => Some b
  | x :: l => b' ← body b x; for_each l body b'
  end.

(** ** Repacking padded rows *)

(** [Some (Err _)] is a returned error, [None] a panic. *)
Definition repack_nv12 (source : bytes) (stride width height : Z) :
    option (result DecoderError bytes) :=
  match validated_pixel_count width height with
  | Err e => Some (Err e)
  | Ok pixels =>
      if stride <? width then Some (Err Decoder_InvalidSurface) else
      match checked_add usize_max height (height / 2) with
      | None => Some (Err Decoder_InvalidDimensions)
      | Some rows =>
      match checked_mul usize_max stride rows with
      | None => Some (Err Decoder_InvalidDimensions)
      | Some required =>
      if len source <? required then Some (Err Decoder_InvalidSurface) else
      match checked_add usize_max pixels (pixels / 2) with
      | None => Some (Err Decoder_InvalidDimensions)
      | Some output_len =>
      if MAX_SURFACE_BYTES <? output_len then Some (Err Decoder_InvalidDimensions) else
      let w := Z.to_nat width in
      let s := Z.to_nat stride in
      let h := Z.to_nat height in
      packed ← for_each (seq 0 h) (λ packed row,
        r ← slice_at source (row * s) w; write_at packed (row * w) r)
        (replicate (Z.to_nat output_len) x00);
      packed ← for_each (seq 0 (Z.to_nat (height / 2))) (λ packed row,
        r ← slice_at source (h * s + row * s) w; write_at packed (Z.to_nat pixels + row * w) r)
        packed;
      Some (Ok packed)
      end end end
  end.

(** ** Pixel conversion *)

Definition clamp_u8 (z : Z) : byte := to_byte (Z.min (Z.max z 0) 255).

(** [vec[i]] *)
Definition index_at (l : bytes) (i : nat) : option Z := of_byte <$> l !! i.

(** The pixel at [(y, x)]: blue, green, red and alpha. *)
Definition nv12_pixel (bytes : bytes) (width y_len : nat) (p : nat * nat) : option (list byte) :=
  let '(y, x) := p in
  b ← index_at bytes (y * width + x);
  let luma := Z.max (b - 16) 0 in
  let chroma := (y_len + y / 2 * width + 2 * (x / 2))%nat in
  bu ← index_at bytes chroma;
  bv ← index_at bytes (chroma + 1);
  let u := bu - 128 in
  let v := bv - 128 in
  let red := Z.shiftr (298 * luma + 409 * v + 128) 8 in
  let green := Z.shiftr (298 * luma - 100 * u - 208 * v + 128) 8 in
  let blue := Z.shiftr (298 * luma + 516 * u + 128) 8 in
  Some [clamp_u8 blue; clamp_u8 green; clamp_u8 red; xff].

(** The two nested loops visit the pixels in raster order. *)
Definition raster (width height : nat) : list (nat * nat) :=
  concat ((λ y, (λ x, (y, x)) <$> seq 0 width) <$> seq 0 height).

Definition nv12_to_bgra (s : DecodedSurface) : option (result DecoderError bytes) :=
  match checked_mul usize_max (ds_width s) (ds_height s) with
  | None => Some (Err Decoder_InvalidDimensions)
  | Some y_len =>
  match checked_mul usize_max y_len 4 with
  | None => Some (Err Decoder_InvalidDimensions)
  | Some total =>
      let width := Z.to_nat (ds_width s) in
      Ok <$> for_each (raster width (Z.to_nat (ds_height s))) (λ bgra p,
        px ← nv12_pixel (ds_bytes s) width (Z.to_nat y_len) p;
        write_at bgra ((fst p * width + snd p) * 4) px)
        (replicate (Z.to_nat total) x00)
  end end.

(** [chunks_exact(4)], the remainder dropped. *)
Fixpoint rgba_chunks (l : bytes) : bytes :=
  match l with
  | r :: g :: b :: a :: l => b :: g :: r :: a :: rgba_chunks l
  | _ => []
  end.
Definition rgba_to_bgra (s : DecodedSurface) : result DecoderError bytes :=
  let bgra := rgba_chunks (ds_bytes s) in
  guard! negb (len bgra =? len (ds_bytes s)) else Decoder_InvalidSurface ;;
  Ok bgra.

(** ** Filling a buffer block by block *)

Lemma concat_mjoin {A} (ls : list (list A)) : concat ls = mjoin ls.
Proof. induction ls as [|l ls IH]; cbn; [done|by rewrite IH]. Qed.
Lemma length_concat_same {A} n (ls : list (list A)) :
  Forall (λ l, length l = n) ls → length (concat ls) = (length ls * n)%nat.
Proof. induction 1 as [|l ls Hl _ IH]; cbn; [done|]. by rewrite length_app, Hl, IH. Qed.
(** The block at a position of a concatenation of equal blocks. *)
Lemma block_at {A} n (ls : list (list A)) k l :
  Forall (λ l, length l = n) ls → ls !! k = Some l → take n (drop (k * n) (concat ls)) = l.
Proof.
  intros Hls. revert k. induction Hls as [|l0 ls Hl _ IH]; intros k Hk; [done|]. cbn.
  destruct k as [|k]; cbn in Hk.
  - injection Hk as ->. cbn. by rewrite drop_0, take_app_length'.
  - cbn [Nat.mul]. rewrite drop_app_ge by lia. rewrite Hl. replace (n + k * n - n)%nat with (k * n)%nat by lia.
    by apply IH.
Qed.

Lemma write_at_app pre rest b :
  (length b ≤ length rest)%nat →
  write_at (pre ++ rest) (length pre) b = Some ((pre ++ b) ++ drop (length b) rest).
Proof.
  intros Hb. unfold write_at. rewrite length_app, (proj2 (Nat.leb_le _ _)) by lia. f_equal.
  rewrite take_app_length, drop_app_add, <-app_assoc. done.
Qed.

(** A loop that writes consecutive blocks replaces that part of the buffer. *)
Lemma for_each_fill {A} n (blk : A → bytes) (l : list A) (body : bytes → A → option bytes) pre rest :
  (∀ k p buffer, l !! k = Some p →
     length (blk p) = n ∧ body buffer p = write_at buffer (length pre + k * n) (blk p)) →
  (length l * n ≤ length rest)%nat →
  for_each l body (pre ++ rest) =
    Some (pre ++ concat (blk <$> l) ++ drop (length l * n) rest).
Proof.
  revert pre rest. induction l as [|p l IH]; intros pre rest Hbody Hlen; cbn.
  { by rewrite drop_0. }
  destruct (Hbody O p (pre ++ rest) eq_refl) as [Hb ->]. cbn in Hlen.
  rewrite Nat.add_0_r, write_at_app by lia. cbn.
  rewrite IH; [by rewrite <-!app_assoc, drop_drop, Hb| |rewrite length_drop; lia].
  intros k p' buffer Hk. destruct (Hbody (S k) p' buffer Hk) as [Hb' ->]. split; [done|].
  f_equal. rewrite length_app. cbn. lia.
Qed.
(** Filling a fresh buffer of the right size leaves nothing of it. *)
Lemma for_each_fill_all {A} n (blk : A → bytes) (l : list A) (body : bytes → A → option bytes) buf :
  (∀ k p buffer, l !! k = Some p →
     length (blk p) = n ∧ body buffer p = write_at buffer (k * n) (blk p)) →
  length buf = (length l * n)%nat → for_each l body buf = Some (concat (blk <$> l)).
Proof.
  intros Hb Hl. pose proof (for_each_fill n blk l body [] buf) as H. cbn in H.
  rewrite H by (done || lia). by rewrite drop_ge, app_nil_r by lia.
Qed.

(** ** Repacking is row slicing *)

Definition surface_dimensions (width height : Z) : Prop :=
  0 < width ≤ MAX_SURFACE_WIDTH ∧ 0 < height ≤ MAX_SURFACE_HEIGHT ∧
  width mod 2 = 0 ∧ height mod 2 = 0.

(** What the copies of planes rely on: whole two-by-two blocks. *)
Definition even_dimensions (width height : Z) : Prop :=
  0 < width ∧ 0 < height ∧ width mod 2 = 0 ∧ height mod 2 = 0.
Lemma surface_even width height : surface_dimensions width height → even_dimensions width height.
Proof. unfold surface_dimensions, even_dimensions. tauto. Qed.

Lemma validated_pixel_count_spec width height :
  0 ≤ width → 0 ≤ height →
  surface_dimensions width height ∧ validated_pixel_count width height = Ok (width * height) ∨
  ¬ surface_dimensions width height ∧
    validated_pixel_count width height = Err Decoder_InvalidDimensions.
Proof.
  intros Hw Hh. unfold validated_pixel_count, surface_dimensions, is_even, MAX_SURFACE_WIDTH,
    MAX_SURFACE_HEIGHT, checked_mul, usize_max, u64_max.
  destruct (_ || _) eqn:E.
  - right. split; [lia|done].
  - left. split; [lia|]. rewrite (proj2 (Z.leb_le _ _)); [done|nia].
Qed.

(** The rows of a padded frame: [height] of luma, then half as many of chroma. *)
Definition nv12_rows (source : bytes) (stride width height : Z) : list bytes :=
  (λ r : nat, take (Z.to_nat width) (drop (r * Z.to_nat stride) source))
    <$> seq 0 (Z.to_nat (height + height / 2)).

Lemma nv12_rows_loops source stride width height :
  even_dimensions width height → width ≤ stride →
  stride * (height + height / 2) ≤ len source →
  for_each (seq 0 (Z.to_nat height)) (λ packed row,
      r ← slice_at source (row * Z.to_nat stride) (Z.to_nat width);
      write_at packed (row * Z.to_nat width) r)
    (replicate (Z.to_nat (width * height + width * height / 2)) x00) ≫= (λ packed,
  for_each (seq 0 (Z.to_nat (height / 2))) (λ packed row,
      r ← slice_at source (Z.to_nat height * Z.to_nat stride + row * Z.to_nat stride) (Z.to_nat width);
      write_at packed (Z.to_nat (width * height) + row * Z.to_nat width) r) packed) =
  Some (concat (nv12_rows source stride width height)).
Proof.
  intros (Hw & Hh & Hwe & Hhe) Hs Hlen.
  assert (∃ w s h2, width = Z.of_nat w ∧ stride = Z.of_nat s ∧ height = Z.of_nat (2 * h2))
    as (w & s & h2 & -> & -> & ->).
  { exists (Z.to_nat width), (Z.to_nat stride), (Z.to_nat (height / 2)).
    split_and!; [lia|lia|]. pose proof (Z_div_mod_eq_full height 2). lia. }
  unfold nv12_rows. replace (Z.of_nat (2 * h2) / 2) with (Z.of_nat h2) in *
    by (apply Z.div_unique with 0; lia).
  replace (Z.to_nat (Z.of_nat w * Z.of_nat (2 * h2) + Z.of_nat w * Z.of_nat (2 * h2) / 2))
    with ((2 * h2 + h2) * w)%nat.
  2:{ replace (Z.of_nat w * Z.of_nat (2 * h2)) with (Z.of_nat (w * h2) * 2) by lia.
      rewrite Z.div_mul by lia. lia. }
  replace (Z.to_nat (Z.of_nat w * Z.of_nat (2 * h2))) with (2 * h2 * w)%nat by lia.
  rewrite <-Nat2Z.inj_add, !Nat2Z.id.
  assert (∀ r, (r < 2 * h2 + h2)%nat → (r * s + w ≤ length source)%nat) as Hfit.
  { intros r Hr. unfold len in Hlen. nia. }
  assert (∀ r, (r < 2 * h2 + h2)%nat →
    slice_at source (r * s) w = Some (take w (drop (r * s) source)) ∧
    length (take w (drop (r * s) source)) = w) as Hrow.
  { intros r Hr. specialize (Hfit r Hr). unfold slice_at.
    rewrite (proj2 (Nat.leb_le _ _)), length_take, length_drop by lia. split; [done|lia]. }
  rewrite seq_app, fmap_app, concat_app.
  pose proof (for_each_fill w (λ r, take w (drop (r * s) source)) (seq 0 (2 * h2)) (λ packed row,
      r ← slice_at source (row * s) w; write_at packed (row * w) r) []
    (replicate ((2 * h2 + h2) * w) x00)) as H1. cbn [app length] in H1. rewrite H1; clear H1.
  2:{ intros k r buffer [-> Hk]%lookup_seq. destruct (Hrow (0 + k)%nat) as [E ?]; [lia|].
      rewrite E. cbn. split; [done|]. done. }
  2:{ rewrite length_seq, length_replicate. nia. }
  cbn [mbind option_bind]. rewrite length_seq.
  set (pre := concat ((λ r, take w (drop (r * s) source)) <$> seq 0 (2 * h2))).
  assert (length pre = (2 * h2 * w)%nat) as Hpre.
  { unfold pre. rewrite (length_concat_same w), length_fmap, length_seq; [done|].
    rewrite Forall_fmap, Forall_seq. intros j Hj. apply Hrow. lia. }
  rewrite (for_each_fill w (λ r, take w (drop ((2 * h2 + r) * s) source))).
  - rewrite length_seq, drop_drop, drop_replicate.
    replace ((2 * h2 + h2) * w - _)%nat with 0%nat by lia. cbn [replicate]. rewrite app_nil_r.
    do 2 f_equal. cbn [Nat.add].
    replace (seq (2 * h2) h2) with (Nat.add (2 * h2) <$> seq 0 h2)
      by (rewrite fmap_add_seq; f_equal; lia).
    by rewrite <-list_fmap_compose.
  - intros k r buffer [-> Hk]%lookup_seq. cbn [Nat.add].
    destruct (Hrow (2 * h2 + k)%nat) as [E ?]; [lia|].
    split; [done|]. rewrite <-(Nat.mul_add_distr_r _ _ s), E, Hpre. done.
  - rewrite length_seq, length_drop, length_replicate. nia.
Qed.

(** Every outcome: an error unless the frame is covered, else its rows. *)
Lemma repack_nv12_cases source stride width height :
  uint 32 width → uint 32 height → uint 64 stride → len source ≤ usize_max →
  let covered := surface_dimensions width height ∧ width ≤ stride ∧
    stride * (height + height / 2) ≤ len source in
  (¬ covered ∧ ∃ e, repack_nv12 source stride width height = Some (Err e)) ∨
  (covered ∧ repack_nv12 source stride width height =
     Some (Ok (concat (nv12_rows source stride width height)))).
Proof.
  intros Hw Hh Hs Hl covered. unfold repack_nv12.
  destruct (validated_pixel_count_spec width height) as [[Hd ->]|[Hd ->]];
    [unfold uint in *; lia..| |left; split; [by intros (? & _)|eauto]].
  destruct (Z.ltb_spec stride width); [left; split; [unfold covered; lia|eauto]|].
  pose proof Hd as (Hw' & Hh' & Hwe & Hhe). unfold MAX_SURFACE_WIDTH, MAX_SURFACE_HEIGHT in *.
  assert (0 ≤ height / 2 ≤ height) by (split; [apply Z.div_pos|apply Z.div_le_upper_bound]; lia).
  assert (width * height * 2 ≤ 66355200) by nia.
  assert (width * height / 2 ≤ 16588800) by (apply Z.div_le_upper_bound; lia).
  assert (∀ a b, a + b ≤ 2 ^ 40 → checked_add usize_max a b = Some (a + b)) as Hadd.
  { intros a b Hab. unfold checked_add, usize_max, u64_max.
    by rewrite (proj2 (Z.leb_le _ _)) by lia. }
  rewrite !Hadd by lia. unfold checked_mul.
  destruct (Z.leb_spec (stride * (height + height / 2)) usize_max);
    [|left; split; [unfold covered; lia|eauto]].
  destruct (Z.ltb_spec (len source) (stride * (height + height / 2)));
    [left; split; [unfold covered; lia|eauto]|].
  assert ((MAX_SURFACE_BYTES <? width * height + width * height / 2) = false) as ->
    by (unfold MAX_SURFACE_BYTES; lia).
  pose proof (nv12_rows_loops source stride width height (surface_even _ _ Hd) ltac:(lia) ltac:(lia)) as E.
  apply bind_Some in E as (packed1 & E1 & E2). cbv zeta. rewrite E1. cbn [mbind option_bind].
  rewrite E2. right. done.
Qed.

(** Repacking a padded NV12 frame: it never panics; it succeeds exactly when the
    dimensions are even, non-zero and within the surface limits, the stride covers a row
    and the source holds every row; and then the result is the concatenation of the
    unpadded rows of luma and chroma, half as long again as the pixel count. *)
Theorem repack_nv12_spec (source : bytes) (stride width height : Z) :
  uint 32 width → uint 32 height → uint 64 stride → len source ≤ usize_max →
  is_Some (repack_nv12 source stride width height) ∧
  (∀ packed, repack_nv12 source stride width height = Some (Ok packed) ↔
     surface_dimensions width height ∧ width ≤ stride ∧
     stride * (height + height / 2) ≤ len source ∧
     packed = concat (nv12_rows source stride width height)).
Proof.
  intros Hw Hh Hs Hl. destruct (repack_nv12_cases source stride width height)
    as [(Hn & e & ->)|((? & ? & ?) & ->)]; [done..| |]; (split; [done|]); intros packed.
  - split; [done|]. intros (? & ? & ? & _). by destruct Hn.
  - naive_solver.
Qed.
Lemma repack_nv12_spec_witness :
  repack_nv12 (to_byte <$> [1; 2; 90; 3; 4; 91; 5; 6; 92]) 3 2 2 =
    Some (Ok (to_byte <$> [1; 2; 3; 4; 5; 6])).
Proof.
  destruct (repack_nv12_spec (to_byte <$> [1; 2; 90; 3; 4; 91; 5; 6; 92]) 3 2 2) as [_ H];
    [unfold uint; lia..|vm_compute; congruence|].
  apply H. split; [unfold surface_dimensions|]; repeat split; vm_compute; congruence.
Defined.

(** ** Pixels *)

Lemma raster_lookup width height k p :
  raster width height !! k = Some p → (k = fst p * width + snd p ∧ snd p < width ∧ fst p < height)%nat.
Proof.
  unfold raster. rewrite concat_mjoin, (join_lookup_Some_same_length width).
  - intros (j & l & i & Hj & Hi & ->). apply list_lookup_fmap_Some in Hj as (y & -> & [-> ?]%lookup_seq).
    apply list_lookup_fmap_Some in Hi as (x & -> & [-> ?]%lookup_seq). cbn. lia.
  - rewrite Forall_fmap, Forall_seq. intros j _. cbn. by rewrite length_fmap, length_seq.
Qed.
Lemma length_raster width height : length (raster width height) = (height * width)%nat.
Proof.
  unfold raster. rewrite (length_concat_same width), length_fmap, length_seq; [done|].
  rewrite Forall_fmap, Forall_seq. intros j _. cbn. by rewrite length_fmap, length_seq.
Qed.
Lemma raster_lookup_pixel width height y x :
  (x < width)%nat → (y < height)%nat → raster width height !! (y * width + x)%nat = Some (y, x).
Proof.
  intros Hx Hy. unfold raster. rewrite concat_mjoin.
  apply (join_lookup_Some_same_length' width); [|done|].
  - rewrite Forall_fmap, Forall_seq. intros j _. cbn. by rewrite length_fmap, length_seq.
  - exists ((λ x, (y, x)) <$> seq 0 width). rewrite !list_lookup_fmap, !lookup_seq_lt by done. done.
Qed.

(** Every pixel of a frame of the right size reads inside it. *)
Lemma nv12_pixel_total bs width height p :
  (Nat.Even width → Nat.Even height → length bs = height * width + height * width / 2 →
   snd p < width → fst p < height →
   ∃ px, nv12_pixel bs width (height * width) p = Some px ∧ length px = 4)%nat.
Proof.
  destruct p as [y x]. cbn [fst snd]. intros [w2 ->] [h2 ->] Hl Hx Hy.
  replace (2 * h2 * (2 * w2) / 2)%nat with (h2 * (2 * w2))%nat in Hl
    by (apply Nat.div_unique with 0%nat; lia).
  pose proof (Nat.Div0.div_lt_upper_bound y 2 h2 ltac:(lia)).
  pose proof (Nat.Div0.div_lt_upper_bound x 2 w2 ltac:(lia)).
  unfold nv12_pixel, index_at.
  destruct (lookup_lt_is_Some_2 bs (y * (2 * w2) + x)) as [b0 ->]; [nia|].
  destruct (lookup_lt_is_Some_2 bs (2 * h2 * (2 * w2) + y / 2 * (2 * w2) + 2 * (x / 2)))
    as [b1 ->]; [nia|].
  destruct (lookup_lt_is_Some_2 bs (2 * h2 * (2 * w2) + y / 2 * (2 * w2) + 2 * (x / 2) + 1))
    as [b2 ->]; [nia|].
  eexists. split; [reflexivity|done].
Qed.

Lemma even_of_mod n : Z.of_nat n mod 2 = 0 → Nat.Even n.
Proof.
  intros Hn. exists (Z.to_nat (Z.of_nat n / 2)).
  pose proof (Z_div_mod_eq_full (Z.of_nat n) 2). lia.
Qed.

(** The conversion as blocks of four bytes in raster order. *)
Definition bgra_block (bs : bytes) (w h : nat) (p : nat * nat) : bytes :=
  default [] (nv12_pixel bs w (h * w) p).

Lemma bgra_blocks_four bs w h :
  Nat.Even w → Nat.Even h → (length bs = h * w + h * w / 2)%nat →
  Forall (λ l, length l = 4%nat) (bgra_block bs w h <$> raster w h).
Proof.
  intros Hw Hh Hl. apply Forall_fmap, Forall_lookup. intros k p (_ & Hx & Hy)%raster_lookup.
  destruct (nv12_pixel_total bs w h p) as (px & E & ?); [done..|].
  unfold bgra_block. cbn. by rewrite E.
Qed.

Lemma nv12_to_bgra_blocks s :
  0 ≤ ds_width s → 0 ≤ ds_height s →
  DecodedSurface_validate s = Ok tt → ds_format s = Nv12 →
  ∃ w h : nat, ds_width s = Z.of_nat w ∧ ds_height s = Z.of_nat h ∧ Nat.Even w ∧ Nat.Even h ∧
    (length (ds_bytes s) = h * w + h * w / 2)%nat ∧
    nv12_to_bgra s = Some (Ok (concat (bgra_block (ds_bytes s) w h <$> raster w h))).
Proof.
  intros Hw0 Hh0 Hv Hf. unfold DecodedSurface_validate in Hv. rewrite Hf in Hv.
  destruct (validated_pixel_count_spec (ds_width s) (ds_height s) Hw0 Hh0) as [[Hd E]|[_ E]];
    rewrite E in Hv; [|done]. cbn in Hv.
  destruct (checked_add _ _ _) as [expected|] eqn:Ea; [|done]. cbn in Hv.
  destruct (_ || _) eqn:Eb in Hv; [done|]. clear Hv. apply orb_false_elim in Eb as [_ Eb].
  apply negb_false_iff, Z.eqb_eq in Eb. unfold checked_add in Ea.
  destruct (_ <=? _) in Ea; [|done]. injection Ea as <-. clear E.
  destruct Hd as (Hw & Hh & Hwe & Hhe). unfold MAX_SURFACE_WIDTH, MAX_SURFACE_HEIGHT in *.
  exists (Z.to_nat (ds_width s)), (Z.to_nat (ds_height s)). unfold nv12_to_bgra.
  set (w := Z.to_nat (ds_width s)). set (h := Z.to_nat (ds_height s)).
  assert (ds_width s = Z.of_nat w) as Ew by lia. assert (ds_height s = Z.of_nat h) as Eh by lia.
  clearbody w h. rewrite Ew, Eh in *.
  assert (length (ds_bytes s) = h * w + h * w / 2)%nat as Hlen.
  { unfold len in Eb. rewrite (Nat.mul_comm h w). apply Nat2Z.inj. rewrite Eb.
    rewrite Nat2Z.inj_add, Nat2Z.inj_div, !Nat2Z.inj_mul. done. }
  split_and!; [done|done|by apply even_of_mod|by apply even_of_mod|done|].
  assert (∀ a b, a * b ≤ 2 ^ 40 → checked_mul usize_max a b = Some (a * b)) as Hmul.
  { intros a b Hab. unfold checked_mul, usize_max, u64_max.
    by rewrite (proj2 (Z.leb_le _ _)) by lia. }
  rewrite !Hmul by nia.
  replace (Z.to_nat (Z.of_nat w * Z.of_nat h)) with (h * w)%nat by lia.
  replace (Z.to_nat (Z.of_nat w * Z.of_nat h * 4)) with (h * w * 4)%nat by lia.
  rewrite (for_each_fill_all 4 (bgra_block (ds_bytes s) w h));
    [done| |by rewrite length_replicate, length_raster].
  intros k p buffer (-> & Hx & Hy)%raster_lookup.
  destruct (nv12_pixel_total (ds_bytes s) w h p) as (px & E & ?); try done; try by apply even_of_mod.
  unfold bgra_block. rewrite E. done.
Qed.

(** Converting a validated NV12 surface to BGRA never panics and never fails: the
    result has four bytes a pixel, and the pixel at row [y] and column [x] is the clamped
    conversion of its luma sample and of the chroma pair of its two-by-two block, with
    opaque alpha. *)
Theorem nv12_to_bgra_spec (s : DecodedSurface) :
  0 ≤ ds_width s → 0 ≤ ds_height s →
  DecodedSurface_validate s = Ok tt → ds_format s = Nv12 →
  ∃ bgra, nv12_to_bgra s = Some (Ok bgra) ∧
    len bgra = 4 * (ds_width s * ds_height s) ∧
    ∀ x y : nat, Z.of_nat x < ds_width s → Z.of_nat y < ds_height s →
      Some (take 4 (drop (4 * (y * Z.to_nat (ds_width s) + x)) bgra)) =
        nv12_pixel (ds_bytes s) (Z.to_nat (ds_width s))
          (Z.to_nat (ds_height s) * Z.to_nat (ds_width s)) (y, x).
Proof.
  intros Hw Hh Hv Hf.
  destruct (nv12_to_bgra_blocks s) as (w & h & -> & -> & Hew & Heh & Hl & ->); [done..|].
  rewrite !Nat2Z.id. pose proof (bgra_blocks_four (ds_bytes s) w h Hew Heh Hl) as Hblk.
  eexists. split_and!; [done| |].
  - unfold len. rewrite (length_concat_same 4), length_fmap, length_raster by done. lia.
  - intros x y Hx Hy.
    destruct (nv12_pixel_total (ds_bytes s) w h (y, x)) as (px & E & ?); [cbn; done || lia..|].
    rewrite E. f_equal. rewrite Nat.mul_comm. apply block_at; [done|].
    rewrite list_lookup_fmap, raster_lookup_pixel by lia.
    change (Some (bgra_block (ds_bytes s) w h (y, x)) = Some px). unfold bgra_block. by rewrite E.
Qed.
Lemma nv12_to_bgra_spec_witness :
  let s := mkDecodedSurface 1 2 true 2 2 Nv12 (to_byte <$> [16; 235; 16; 235; 128; 128]) in
  ∃ bgra, nv12_to_bgra s = Some (Ok bgra) ∧ len bgra = 16 ∧
    take 8 bgra = to_byte <$> [0; 0; 0; 255; 255; 255; 255; 255].
Proof.
  intros s. destruct (nv12_to_bgra_spec s) as (bgra & E & H & _);
    [vm_compute; congruence|vm_compute; congruence|reflexivity|reflexivity|].
  exists bgra. split_and!; [exact E|exact H|].
  vm_compute in E. injection E as <-. reflexivity.
Defined.

(** ** The stream gate *)

Lemma windows_any {A} `{EqDecision A} (pat l : list A) :
  pat ≠ [] →
  existsb (λ w, bool_decide (w = pat)) (windows (length pat) l) = true ↔
  ∃ a b, l = a ++ pat ++ b.
Proof.
  intros Hpat. induction l as [|x l IH]; cbn [windows existsb].
  { split; [done|]. intros (a & b & E). by destruct a, pat. }
  destruct (Nat.leb_spec (length pat) (length (x :: l))) as [Hle|Hgt]; cbn [existsb].
  - rewrite orb_true_iff, IH, bool_decide_eq_true. split.
    + intros [E|(a & b & ->)]; [|by exists (x :: a), b].
      exists [], (drop (length pat) (x :: l)). cbn [app]. rewrite <-E at 1. by rewrite take_drop.
    + intros ([|y a] & b & E); cbn in E; [left|right].
      * rewrite E. by rewrite take_app_length.
      * injection E as -> ->. by exists a, b.
  - split; [done|]. intros (a & b & E). rewrite E, !length_app in Hgt. lia.
Qed.

(** The short start code decides: the long one contains it. *)
Lemma sequence_header_iff unit :
  contains_h264_sequence_header unit = true ↔ ∃ a b, unit = a ++ [x00; x00; x01; x67] ++ b.
Proof.
  unfold contains_h264_sequence_header.
  rewrite orb_true_iff, (windows_any [x00; x00; x00; x01; x67]),
    (windows_any [x00; x00; x01; x67]) by done. split; [|by right].
  intros [(a & b & ->)|?]; [|done]. exists (a ++ [x00]), b. by rewrite <-app_assoc.
Qed.

(** A job that may start a stream. *)
Definition starts_stream (job : DecodedFrameJob) : Prop :=
  job_keyframe job = true ∧ ∃ a b, job_access_unit job = a ++ [x00; x00; x01; x67] ++ b.

Lemma gate_accept_ok gate job gate' :
  DecoderGate_accept gate job = (Ok tt, gate') →
  gate' = true ∧ validate_frame job = Ok tt ∧ (gate = false → starts_stream job).
Proof.
  unfold DecoderGate_accept. destruct (validate_frame job) as [[]|]; [|done].
  destruct gate; cbn; [by intros [= <-]|].
  destruct (job_keyframe job) eqn:Ek; cbn; [|done].
  destruct (contains_h264_sequence_header _) eqn:Eh; cbn; [|done]. intros [= <-].
  split_and!; [done..|]. intros _. split; [done|]. by apply sequence_header_iff.
Qed.
Lemma gate_accept_err gate job e gate' :
  DecoderGate_accept gate job = (Err e, gate') → gate' = gate.
Proof.
  unfold DecoderGate_accept. destruct (validate_frame job) as [[]|]; [|naive_solver].
  destruct gate; cbn; [done|]. destruct (_ || _); naive_solver.
Qed.
