(* ===== verification/Decoder.v ===== *)
(** * The native decoder of the client (apps/nexus-client/src/decoder.rs)

    The decoder worker [NativeDecoder] over a Media Foundation transform and its front end
    [MediaFoundationDecoder].  The transform is a parameter: what each call answers is a
    method of a class.  A read outside a mapped buffer is [None]. *)

From S2P Require Import Prelude ClientReceiver VideoTransport Window Surface.

Open Scope Z_scope.

(** ** Media buffers *)

(** What [Lock2DSize] reports: the first byte, the mapped allocation ([None] for a null
    pointer) and the pitch.  The memory starts at [l2_start]. *)
Record Lock2D := mkLock2D {
  l2_source : option Z;
  l2_start : option Z;
  l2_pitch : Z;
  l2_length : Z;
  l2_memory : bytes
}.
Record PlainLock := mkPlainLock {
  pl_max : Z;
  pl_current : Z;
  pl_memory : option bytes
}.
(** The interfaces a buffer answers to; a call that fails is [None] or [false]. *)
Inductive BufferKind :=
  | Buffer_2D2 (lock : option Lock2D) (unlock : bool)
  | Buffer_2D (contiguous_length : option Z) (copy : option (nat → byte))
  | Buffer_Plain (lock : option PlainLock) (unlock : bool).
Record MediaBuffer := mkMediaBuffer {
  mb_max_length : option Z;
  mb_current_length : option Z;
  mb_kind : BufferKind
}.

(** The closure run between [Lock2DSize] and [Unlock2D]. *)
Definition read_locked_2d (l : Lock2D) (width rows max_length : Z) :
    option (result DecoderError (bytes * Z)) :=
  match l2_source l, l2_start l with
  | Some source, Some start =>
      if l2_pitch l <? 0 then Some (Err Decoder_InvalidSurface) else
      if l2_pitch l <? width then Some (Err Decoder_InvalidSurface) else
      if (max_length <? l2_length l) || (MAX_SURFACE_BYTES <? l2_length l)
      then Some (Err Decoder_InvalidSurface) else
      match checked_sub source start with
      | None => Some (Err Decoder_InvalidSurface)
      | Some offset =>
      match checked_mul usize_max (l2_pitch l) rows with
      | None => Some (Err Decoder_InvalidDimensions)
      | Some length =>
      match checked_add usize_max offset length with
      | None => Some (Err Decoder_InvalidDimensions)
      | Some e =>
          if l2_length l <? e then Some (Err Decoder_InvalidSurface) else
          b ← slice_at (l2_memory l) (Z.to_nat offset) (Z.to_nat length);
          Some (Ok (b, l2_pitch l))
      end end end
  | _, _ => Some (Err Decoder_InvalidSurface)
  end.

Definition read_locked_plain (l : PlainLock) (memory : bytes) (expected max_length : Z) :
    option (result DecoderError bytes) :=
  if (pl_max l <=? max_length) && (pl_max l <=? MAX_SURFACE_BYTES)
     && (expected <=? pl_current l) && (pl_current l <=? pl_max l)
  then Ok <$> slice_at memory 0 (Z.to_nat expected)
  else Some (Err Decoder_InvalidSurface).

Definition copy_buffer_with_stride (buffer : MediaBuffer) (width height : Z) :
    option (result DecoderError (bytes * Z)) :=
  match mb_max_length buffer with
  | None => Some (Err Decoder_BackendLost)
  | Some max_length =>
  if MAX_SURFACE_BYTES <? max_length then Some (Err Decoder_InvalidSurface) else
  match mb_current_length buffer with
  | None => Some (Err Decoder_BackendLost)
  | Some actual_length =>
  if max_length <? actual_length then Some (Err Decoder_InvalidSurface) else
  match checked_add usize_max height (height / 2) with
  | None => Some (Err Decoder_InvalidDimensions)
  | Some rows =>
  match validated_nv12_len width height with
  | Err e => Some (Err e)
  | Ok expected =>
  if actual_length <? expected then Some (Err Decoder_InvalidSurface) else
  match mb_kind buffer with
  | Buffer_2D2 lock unlock =>
      match lock with
      | None => Some (Err Decoder_BackendLost)
      | Some l =>
          r ← read_locked_2d l width rows max_length;
          Some (if unlock then r else Err Decoder_BackendLost)
      end
  | Buffer_2D contiguous_length copy =>
      match contiguous_length with
      | None => Some (Err Decoder_BackendLost)
      | Some contiguous =>
          if negb (contiguous =? expected) || (max_length <? contiguous)
          then Some (Err Decoder_InvalidSurface) else
          match copy with
          | None => Some (Err Decoder_BackendLost)
          | Some f => Some (Ok (f <$> seq 0 (Z.to_nat contiguous), width))
          end
      end
  | Buffer_Plain lock unlock =>
      match lock with
      | None => Some (Err Decoder_BackendLost)
      | Some l =>
          match pl_memory l with
          | None => Some (Err Decoder_BackendLost)
          | Some memory =>
              r ← read_locked_plain l memory expected max_length;
              Some (if unlock then b ← r; Ok (b, width) else Err Decoder_BackendLost)
          end
      end
  end end end end end.

(** ** The decoder worker *)

Record Sample := mkSample { sample_time : option Z; sample_buffer : option MediaBuffer }.

(** [ProcessOutput]: the status bits of the output buffer and the sample it holds. *)
Inductive OutputAnswer :=
  | Output_Ok (no_sample incomplete : bool) (sample : option Sample)
  | Output_NeedMoreInput
  | Output_Failed.

(** A decoding transform; [mft_input_sample] and [mft_output_sample] say whether the
    buffers of a request could be made. *)
Class DecoderTransform (T : Type) := {
  mft_input_sample : T → Z → bool;
  mft_output_sample : T → Z → bool;
  mft_process_input : T → bytes → Z → option T;
  mft_output_info : T → option (bool * Z);
  mft_process_output : T → OutputAnswer * T;
  mft_flush : T → option T
}.

Record PendingFrame := mkPendingFrame {
  pf_frame_id : Z;
  pf_timestamp_us : Z;
  pf_timestamp_hns : Z;
  pf_keyframe : bool
}.

Definition MAX_PENDING_DECODED_FRAMES : Z := 8.
Definition MAX_OUTPUTS_PER_SUBMISSION : nat := 8.

Record NativeDecoder (T : Type) := mkNativeDecoder {
  nd_transform : T;
  nd_width : Z;
  nd_height : Z;
  nd_gate : bool;
  nd_pending_inputs : list PendingFrame;
  nd_pending_surfaces : list DecodedSurface
}.
Arguments mkNativeDecoder {T} _ _ _ _ _ _.
Arguments nd_transform {T} _.
Arguments nd_width {T} _.
Arguments nd_height {T} _.
Arguments nd_gate {T} _.
Arguments nd_pending_inputs {T} _.
Arguments nd_pending_surfaces {T} _.

Definition timestamp_hns (timestamp_us : Z) : result DecoderError Z :=
  ok_or (value ← checked_mul u64_max timestamp_us 10;
         if value <? 2 ^ 63 then Some value else None) Decoder_BackendLost.

Section decoder.
Context {T : Type} `{DecoderTransform T}.
Abbreviation decoder := (NativeDecoder T).

Definition nd_with (d : decoder) (t : T) (gate : bool) (inputs : list PendingFrame)
    (surfaces : list DecodedSurface) : decoder :=
  mkNativeDecoder t (nd_width d) (nd_height d) gate inputs surfaces.

Definition NativeDecoder_start (t : T) (width height : Z) : result DecoderError decoder :=
  _ ← validated_nv12_len width height;
  Ok (mkNativeDecoder t width height false [] []).

(** The access unit and its time, when the sample can be made. *)
Definition input_sample (t : T) (job : DecodedFrameJob) : result DecoderError (bytes * Z) :=
  let length := len (job_access_unit job) in
  guard! 2 ^ 32 <=? length
    else Decoder_Frame (Render_AccessUnitTooLarge length MAX_RENDER_ACCESS_UNIT_SIZE) ;;
  guard! negb (mft_input_sample t length) else Decoder_BackendLost ;;
  timestamp ← timestamp_hns (job_timestamp_us job);
  Ok (job_access_unit job, timestamp).

Definition take_one_output (d : decoder) :
    result DecoderError (option Sample * bool) * decoder :=
  match mft_output_info (nd_transform d) with
  | None => (Err Decoder_BackendLost, d)
  | Some (transform_provides_sample, announced) =>
      match (if transform_provides_sample then Ok tt else
        expected ← validated_nv12_len (nd_width d) (nd_height d);
        let capacity := Z.max expected announced in
        guard! MAX_SURFACE_BYTES <? capacity else Decoder_InvalidSurface ;;
        guard! negb (mft_output_sample (nd_transform d) capacity) else Decoder_BackendLost ;;
        Ok tt)
      with
      | Err e => (Err e, d)
      | Ok _ =>
          let '(answer, t) := mft_process_output (nd_transform d) in
          (match answer with
           | Output_Ok true incomplete _ => Ok (None, incomplete)
           | Output_Ok false incomplete sample => Ok (sample, incomplete)
           | Output_NeedMoreInput => Ok (None, false)
           | Output_Failed => Err Decoder_BackendLost
           end, nd_with d t (nd_gate d) (nd_pending_inputs d) (nd_pending_surfaces d))
      end
  end.

(** [position] by time and [remove]. *)
Fixpoint take_pending (hns : Z) (l : list PendingFrame) : option (PendingFrame * list PendingFrame) :=
  match l with
  | [] => None
  | p :: l =>
      if pf_timestamp_hns p =? hns then Some (p, l)
      else '(q, l') ← take_pending hns l; Some (q, p :: l')
  end.

(** The body of the drain loop for one sample. *)
Definition sample_surface (d : decoder) (metadata : PendingFrame) (buffer : MediaBuffer) :
    option (result DecoderError DecodedSurface) :=
  r ← copy_buffer_with_stride buffer (nd_width d) (nd_height d);
  match r with
  | Err e => Some (Err e)
  | Ok (bytes, stride) =>
      r ← repack_nv12 bytes stride (nd_width d) (nd_height d);
      match r with
      | Err e => Some (Err e)
      | Ok packed =>
          let surface := mkDecodedSurface (pf_frame_id metadata) (pf_timestamp_us metadata)
            (pf_keyframe metadata) (nd_width d) (nd_height d) Nv12 packed in
          Some (_ ← DecodedSurface_validate surface; Ok surface)
      end
  end.

Definition drain_sample (d : decoder) (sample : Sample) :
    option (result DecoderError unit * decoder) :=
  match sample_time sample with
  | None => Some (Err Decoder_BackendLost, d)
  | Some hns =>
  match take_pending hns (nd_pending_inputs d) with
  | None => Some (Err Decoder_BackendLost, d)
  | Some (metadata, inputs) =>
      let d := nd_with d (nd_transform d) (nd_gate d) inputs (nd_pending_surfaces d) in
      match sample_buffer sample with
      | None => Some (Err Decoder_BackendLost, d)
      | Some buffer =>
          r ← sample_surface d metadata buffer;
          match r with
          | Err e => Some (Err e, d)
          | Ok surface =>
              if len (nd_pending_surfaces d) =? MAX_PENDING_DECODED_FRAMES
              then Some (Err Decoder_BackendLost, d)
              else Some (Ok tt, nd_with d (nd_transform d) (nd_gate d) (nd_pending_inputs d)
                                  (nd_pending_surfaces d ++ [surface]))
          end
      end
  end end.

Fixpoint drain_loop (n : nat) (d : decoder) : option (result DecoderError unit * decoder) :=
  match n with
  | O => Some (Err Decoder_BackendLost, d)
  | S n =>
      match take_one_output d with
      | (Err e, d) => Some (Err e, d)
      | (Ok (None, more_output), d) => if more_output : bool then drain_loop n d else Some (Ok tt, d)
      | (Ok (Some sample, more_output), d) =>
          '(r, d) ← drain_sample d sample;
          match r with
          | Err e => Some (Err e, d)
          | Ok _ => if more_output then drain_loop n d else Some (Ok tt, d)
          end
      end
  end.
Definition drain_outputs (d : decoder) : option (result DecoderError unit * decoder) :=
  drain_loop MAX_OUTPUTS_PER_SUBMISSION d.

Definition NativeDecoder_decode (d : decoder) (job : DecodedFrameJob) :
    option (result DecoderError (option DecodedSurface) * decoder) :=
  let '(accepted, gate) := DecoderGate_accept (nd_gate d) job in
  let d := nd_with d (nd_transform d) gate (nd_pending_inputs d) (nd_pending_surfaces d) in
  match accepted with
  | Err e => Some (Err e, d)
  | Ok _ =>
  match input_sample (nd_transform d) job with
  | Err e => Some (Err e, d)
  | Ok (unit, _) =>
  match timestamp_hns (job_timestamp_us job) with
  | Err e => Some (Err e, d)
  | Ok hns =>
  if len (nd_pending_inputs d) =? MAX_PENDING_DECODED_FRAMES
  then Some (Err Decoder_BackendLost, d) else
  match mft_process_input (nd_transform d) unit hns with
  | None => Some (Err Decoder_BackendLost, d)
  | Some t =>
      '(r, d) ← drain_outputs (nd_with d t (nd_gate d) (nd_pending_inputs d ++
        [mkPendingFrame (job_frame_id job) (job_timestamp_us job) hns (job_keyframe job)])
        (nd_pending_surfaces d));
      match r with
      | Err e => Some (Err e, d)
      | Ok _ =>
          match nd_pending_surfaces d with
          | [] => Some (Ok None, d)
          | s :: surfaces => Some (Ok (Some s), nd_with d (nd_transform d) (nd_gate d)
                                                 (nd_pending_inputs d) surfaces)
          end
      end
  end end end end.

Definition NativeDecoder_reset (d : decoder) : result DecoderError unit * decoder :=
  match mft_flush (nd_transform d) with
  | None => (Err Decoder_BackendLost, d)
  | Some t => (Ok tt, nd_with d t (DecoderGate_reset (nd_gate d)) [] [])
  end.
End decoder.

(** ** Reading native buffers is memory safe *)

(** What the interfaces document: [Lock2DSize] maps [l2_length] bytes from [l2_start];
    [Lock] maps [pl_max] bytes.  The numbers are unsigned, the pitch an [i32]. *)
Definition lock2d_wf (l : Lock2D) : Prop :=
  len (l2_memory l) = l2_length l ∧ - 2 ^ 31 ≤ l2_pitch l < 2 ^ 31 ∧
  (∀ a, l2_source l = Some a → uint 64 a) ∧ (∀ a, l2_start l = Some a → uint 64 a).
Definition buffer_wf (b : MediaBuffer) : Prop :=
  match mb_kind b with
  | Buffer_2D2 (Some l) _ => lock2d_wf l
  | Buffer_Plain (Some l) _ => ∀ memory, pl_memory l = Some memory → len memory = pl_max l
  | _ => True
  end.

(** A successful copy covers a whole frame at the stride it reports. *)
Definition covers_frame (width height : Z) (b : bytes) (stride : Z) : Prop :=
  surface_dimensions width height ∧ width ≤ stride ∧ uint 64 stride ∧
  stride * (height + height / 2) ≤ len b ≤ MAX_SURFACE_BYTES.

Lemma slice_at_len source start n b :
  slice_at source start n = Some b → length b = n ∧ (start + n ≤ length source)%nat.
Proof.
  unfold slice_at. destruct (Nat.leb_spec (start + n) (length source)); [|done].
  intros [= <-]. rewrite length_take, length_drop. lia.
Qed.
Lemma slice_at_some source start n :
  (start + n ≤ length source)%nat → is_Some (slice_at source start n).
Proof. intros. unfold slice_at. by rewrite (proj2 (Nat.leb_le _ _)). Qed.

Lemma validated_nv12_len_spec width height n :
  0 ≤ width → 0 ≤ height → validated_nv12_len width height = Ok n →
  surface_dimensions width height ∧ n = width * (height + height / 2) ∧ 0 ≤ n ≤ MAX_SURFACE_BYTES.
Proof.
  intros Hw Hh. unfold validated_nv12_len.
  destruct (validated_pixel_count_spec width height Hw Hh) as [[Hd ->]|[_ ->]]; [|done]. cbn.
  destruct (checked_add _ _ _) as [b|] eqn:E; [|done]. cbn.
  destruct (Z.ltb_spec MAX_SURFACE_BYTES b); [done|]. intros [= <-].
  unfold checked_add in E. destruct (_ <=? _); [|done]. injection E as <-.
  assert (0 ≤ width * height / 2) by (apply Z.div_pos; nia).
  split_and!; [done| |nia|done]. destruct Hd as (_ & _ & _ & He).
  pose proof (Z_div_mod_eq_full height 2).
  assert (width * height / 2 = width * (height / 2)) as ->; [|lia].
  symmetry. apply Z.div_unique_exact; nia.
Qed.

Lemma read_locked_2d_safe l width height max_length :
  lock2d_wf l → surface_dimensions width height →
  is_Some (read_locked_2d l width (height + height / 2) max_length) ∧
  ∀ b stride, read_locked_2d l width (height + height / 2) max_length = Some (Ok (b, stride)) →
    covers_frame width height b stride.
Proof.
  intros (Hm & Hp & Hsrc & Hst) Hd. unfold read_locked_2d.
  destruct (l2_source l) as [source|]; [|done]. destruct (l2_start l) as [start|]; [|done].
  destruct (Z.ltb_spec (l2_pitch l) 0); [done|]. destruct (Z.ltb_spec (l2_pitch l) width); [done|].
  destruct ((max_length <? l2_length l) || _) eqn:El; [done|].
  unfold checked_sub. destruct (Z.leb_spec start source); [|done].
  unfold checked_mul. destruct (Z.leb_spec (l2_pitch l * (height + height / 2)) usize_max); [|done].
  unfold checked_add. destruct (Z.leb_spec (source - start + l2_pitch l * (height + height / 2))
    usize_max); [|done].
  destruct (Z.ltb_spec (l2_length l) (source - start + l2_pitch l * (height + height / 2))); [done|].
  assert (0 ≤ height / 2) by (apply Z.div_pos; unfold surface_dimensions in Hd; lia).
  assert (0 ≤ l2_pitch l * (height + height / 2)) by (unfold surface_dimensions in Hd; nia).
  destruct (slice_at_some (l2_memory l) (Z.to_nat (source - start))
    (Z.to_nat (l2_pitch l * (height + height / 2)))) as [b Eb]; [unfold len in Hm; lia|].
  rewrite Eb. cbn. split; [done|]. intros b' stride [= <- <-].
  apply slice_at_len in Eb as [Eb ?]. unfold covers_frame, uint, len in *.
  split_and!; [done|lia..|]. apply orb_false_elim in El as []. lia.
Qed.

Lemma copy_buffer_safe buffer width height :
  buffer_wf buffer → uint 32 width → uint 32 height →
  is_Some (copy_buffer_with_stride buffer width height) ∧
  ∀ b stride, copy_buffer_with_stride buffer width height = Some (Ok (b, stride)) →
    covers_frame width height b stride.
Proof.
  intros Hb Hw Hh. unfold copy_buffer_with_stride.
  destruct (mb_max_length buffer) as [max|]; [|done].
  destruct (Z.ltb_spec MAX_SURFACE_BYTES max); [done|].
  destruct (mb_current_length buffer) as [actual|]; [|done].
  destruct (Z.ltb_spec max actual); [done|]. unfold uint in *.
  assert (0 ≤ height / 2 ≤ height) by (split; [apply Z.div_pos|apply Z.div_le_upper_bound]; lia).
  assert (checked_add usize_max height (height / 2) = Some (height + height / 2)) as ->.
  { unfold checked_add, usize_max, u64_max. by rewrite (proj2 (Z.leb_le _ _)) by lia. }
  destruct (validated_nv12_len width height) as [expected|] eqn:En; [|done].
  apply validated_nv12_len_spec in En as (Hd & He & Hn); [|lia..].
  destruct (Z.ltb_spec actual expected); [done|]. unfold buffer_wf in Hb.
  assert (∀ b, len b = expected → covers_frame width height b width) as Hc.
  { intros b Hlen. unfold covers_frame, uint. split_and!; try done; lia. }
  destruct (mb_kind buffer) as [[l|] unlock|[c|] copy|[l|] unlock]; try done.
  - destruct (read_locked_2d_safe l width height max Hb Hd) as [[r ->] Hr]. cbn.
    split; [done|]. intros b stride E. destruct unlock; [|done]. apply Hr. congruence.
  - destruct (negb (c =? expected) || _) eqn:Ec; [done|]. destruct copy as [f|]; [|done].
    split; [done|]. intros b stride [= <- <-]. apply Hc.
    unfold len. rewrite length_fmap, length_seq. lia.
  - destruct (pl_memory l) as [memory|] eqn:Em; [|done]. specialize (Hb memory eq_refl).
    unfold read_locked_plain. destruct (_ && _) eqn:Ep; [|cbn; split; [done|by destruct unlock]].
    destruct (slice_at_some memory 0 (Z.to_nat expected)) as [b Eb]; [unfold len in Hb; lia|].
    rewrite Eb. cbn. split; [done|]. intros b' stride E. destruct unlock; [|done].
    injection E as <- <-. apply Hc. apply slice_at_len in Eb as [Eb _]. unfold len. lia.
Qed.

(** ** What the decoder hands on *)

Definition meta := (Z * Z * bool)%type.
Definition job_meta (j : DecodedFrameJob) : meta :=
  (job_frame_id j, job_timestamp_us j, job_keyframe j).
Definition surface_meta (s : DecodedSurface) : meta :=
  (ds_frame_id s, ds_timestamp_us s, ds_keyframe s).
Definition pending_meta (p : PendingFrame) : meta :=
  (pf_frame_id p, pf_timestamp_us p, pf_keyframe p).

Definition surface_ok (width height : Z) (s : DecodedSurface) : Prop :=
  DecodedSurface_validate s = Ok tt ∧ ds_width s = width ∧ ds_height s = height ∧
  ds_format s = Nv12.

Section invariant.
Context {T : Type} `{DecoderTransform T}.
Abbreviation decoder := (NativeDecoder T).

(** The samples of the transform hold buffers that keep their promises. *)
Context (transform_wf : ∀ t b1 b2 s buffer t',
  mft_process_output t = (Output_Ok b1 b2 (Some s), t') → sample_buffer s = Some buffer →
  buffer_wf buffer).

Lemma sample_surface_ok (d : decoder) p buffer :
  buffer_wf buffer → uint 32 (nd_width d) → uint 32 (nd_height d) →
  ∃ r, sample_surface d p buffer = Some r ∧
    ∀ s, r = Ok s → surface_ok (nd_width d) (nd_height d) s ∧ surface_meta s = pending_meta p.
Proof.
  intros Hb Hw Hh. unfold sample_surface.
  destruct (copy_buffer_safe buffer _ _ Hb Hw Hh) as [[r ->] Hr]. cbn.
  destruct r as [[b stride]|e]; [|by eexists].
  destruct (Hr b stride eq_refl) as (Hd & Hs & Hst & Hlen).
  assert (∃ r, repack_nv12 b stride (nd_width d) (nd_height d) = Some r) as [r Er].
  { destruct (repack_nv12_cases b stride (nd_width d) (nd_height d)) as [(_ & e & E)|[_ E]];
      [done|done|done|unfold MAX_SURFACE_BYTES, usize_max, u64_max in *; lia|eauto|eauto]. }
  rewrite Er. cbn. destruct r as [packed|e]; [|by eexists].
  eexists. split; [done|]. intros s Es.
  destruct (DecodedSurface_validate _) as [[]|] eqn:Ev; [|done]. injection Es as <-.
  done.
Qed.

(** The decoder with the jobs its gate accepted and the surfaces it returned since the
    last reset. *)
Record DecoderTrace := mkDecoderTrace {
  dt_jobs : list DecodedFrameJob;
  dt_out : list DecodedSurface;
  dt_decoder : decoder
}.
Inductive DecoderOp := Decoder_Decode (job : DecodedFrameJob) | Decoder_Reset.
Definition decoder_op (t : DecoderTrace) (op : DecoderOp) : option DecoderTrace :=
  match op with
  | Decoder_Decode job =>
      '(r, d) ← NativeDecoder_decode (dt_decoder t) job;
      Some (mkDecoderTrace
        (if is_ok (fst (DecoderGate_accept (nd_gate (dt_decoder t)) job))
         then dt_jobs t ++ [job] else dt_jobs t)
        (dt_out t ++ match r with Ok (Some s) => [s] | _ => [] end) d)
  | Decoder_Reset =>
      match NativeDecoder_reset (dt_decoder t) with
      | (Ok _, d) => Some (mkDecoderTrace [] [] d)
      | (Err _, d) => Some (mkDecoderTrace (dt_jobs t) (dt_out t) d)
      end
  end.

(** Of [jobs] each is waiting, decoded or returned at most once. *)
Definition accounted (jobs : list DecodedFrameJob) (out : list DecodedSurface) (d : decoder) : Prop :=
  (surface_meta <$> out) ++ (surface_meta <$> nd_pending_surfaces d) ++
  (pending_meta <$> nd_pending_inputs d) ⊆+ (job_meta <$> jobs).

Record queues_wf (width height : Z) (d : decoder) : Prop := {
  qw_width : nd_width d = width;
  qw_height : nd_height d = height;
  qw_inputs : len (nd_pending_inputs d) ≤ MAX_PENDING_DECODED_FRAMES;
  qw_surfaces : len (nd_pending_surfaces d) ≤ MAX_PENDING_DECODED_FRAMES;
  qw_ok : Forall (surface_ok width height) (nd_pending_surfaces d)
}.

Lemma take_pending_perm hns l p l' :
  take_pending hns l = Some (p, l') → l ≡ₚ p :: l' ∧ pf_timestamp_hns p = hns.
Proof.
  revert p l'. induction l as [|q l IH]; intros p l' E; cbn in E; [done|].
  destruct (Z.eqb_spec (pf_timestamp_hns q) hns); [naive_solver|].
  destruct (take_pending hns l) as [[p' l'']|]; [|done]. cbn in E. injection E as <- <-.
  destruct (IH p' l'' eq_refl) as [-> ?]. split; [constructor|done].
Qed.

Lemma take_one_output_wf width height d r d' :
  queues_wf width height d → take_one_output d = (r, d') →
  queues_wf width height d' ∧ nd_gate d' = nd_gate d ∧
  nd_pending_inputs d' = nd_pending_inputs d ∧ nd_pending_surfaces d' = nd_pending_surfaces d ∧
  (∀ s more buffer, r = Ok (Some s, more) → sample_buffer s = Some buffer → buffer_wf buffer).
Proof.
  unfold take_one_output. intros Hq E.
  destruct (mft_output_info _) as [[provides announced]|]; [|by simplify_eq].
  destruct (if provides then Ok tt else _) as [|e]; [|by simplify_eq].
  destruct (mft_process_output (nd_transform d)) as [answer t] eqn:Eo. injection E as <- <-.
  split_and!; [by destruct Hq|done..|]. intros s more buffer Er Hb.
  destruct answer as [[] ? [s'|]| |]; simplify_eq. by eapply transform_wf.
Qed.

Lemma drain_sample_wf width height jobs out d s :
  uint 32 width → uint 32 height → queues_wf width height d → accounted jobs out d →
  (∀ buffer, sample_buffer s = Some buffer → buffer_wf buffer) →
  ∃ r d', drain_sample d s = Some (r, d') ∧ queues_wf width height d' ∧
    accounted jobs out d' ∧ nd_gate d' = nd_gate d.
Proof.
  intros Hw Hh Hq Ha Hs. unfold drain_sample.
  destruct (sample_time s) as [hns|]; [|by eauto 10].
  destruct (take_pending hns (nd_pending_inputs d)) as [[p inputs]|] eqn:Et; [|by eauto 10].
  apply take_pending_perm in Et as [Hp _].
  set (d1 := nd_with d _ _ inputs _).
  assert (queues_wf width height d1) as Hq1.
  { destruct Hq. split; try done. cbn. unfold len in *. rewrite Hp in qw_inputs0. cbn in qw_inputs0.
    lia. }
  assert ((surface_meta <$> out) ++ (surface_meta <$> nd_pending_surfaces d) ++
    pending_meta p :: (pending_meta <$> inputs) ⊆+ (job_meta <$> jobs)) as Ha'.
  { unfold accounted in Ha. by rewrite Hp in Ha. }
  assert (accounted jobs out d1) as Ha1.
  { unfold accounted. etrans; [|exact Ha']. unfold d1. cbn. do 2 apply submseteq_skips_l. by apply submseteq_cons. }
  destruct (sample_buffer s) as [buffer|]; [|by eauto 10].
  destruct (sample_surface_ok d1 p buffer) as (r & -> & Hr);
    [by apply Hs|by rewrite (qw_width _ _ _ Hq1)|by rewrite (qw_height _ _ _ Hq1)|]. cbn [mbind option_bind].
  destruct r as [surface|e]; [|by eauto 10].
  destruct (Z.eqb_spec (len (nd_pending_surfaces d1)) MAX_PENDING_DECODED_FRAMES); [by eauto 10|].
  destruct (Hr surface eq_refl) as [Hsurf Hm].
  eexists _, _. split; [done|]. split_and!; [| |done].
  - destruct Hq1. split; try done.
    + cbn in *. rewrite len_app, len_cons, len_nil. lia.
    + cbn in *. apply Forall_app. split; [done|]. by rewrite Forall_singleton, <-qw_width0, <-qw_height0.
  - unfold accounted. cbn. rewrite fmap_app. cbn. rewrite Hm, <-app_assoc. exact Ha'.
Qed.

Lemma drain_loop_wf n width height jobs out d :
  uint 32 width → uint 32 height → queues_wf width height d → accounted jobs out d →
  ∃ r d', drain_loop n d = Some (r, d') ∧ queues_wf width height d' ∧
    accounted jobs out d' ∧ nd_gate d' = nd_gate d.
Proof.
  intros Hw Hh. revert d. induction n as [|n IH]; intros d Hq Ha; cbn; [by eauto 10|].
  destruct (take_one_output d) as [r1 d1] eqn:E1.
  destruct (take_one_output_wf _ _ _ _ _ Hq E1) as (Hq1 & Hg1 & Hi1 & Hs1 & Hb1).
  assert (accounted jobs out d1) as Ha1 by (unfold accounted; by rewrite Hi1, Hs1).
  destruct r1 as [[[s|] more]|e]; [| |by eauto 10].
  - destruct (drain_sample_wf width height jobs out d1 s) as (r2 & d2 & -> & Hq2 & Ha2 & Hg2);
      [done..|by eauto|]. cbn. destruct r2 as [[]|e]; [|rewrite <-Hg1; by eauto 10].
    destruct more; [|rewrite <-Hg1; by eauto 10]. rewrite <-Hg1, <-Hg2. by apply IH.
  - destruct more; [|by eauto 10]. rewrite <-Hg1. by apply IH.
Qed.

Record trace_wf (width height : Z) (t : DecoderTrace) : Prop := {
  tw_queues : queues_wf width height (dt_decoder t);
  tw_accounted : accounted (dt_jobs t) (dt_out t) (dt_decoder t);
  tw_out : Forall (surface_ok width height) (dt_out t);
  tw_gate : nd_gate (dt_decoder t) = true ↔ dt_jobs t ≠ [];
  tw_start : ∀ j js, dt_jobs t = j :: js → starts_stream j
}.

(** A submission, before its output is drained. *)
Lemma decode_wf width height jobs out d job :
  uint 32 width → uint 32 height → queues_wf width height d → accounted jobs out d →
  ∃ r d', NativeDecoder_decode d job = Some (r, d') ∧ queues_wf width height d' ∧
    nd_gate d' = snd (DecoderGate_accept (nd_gate d) job) ∧
    (∀ s, r = Ok (Some s) → surface_ok width height s) ∧
    accounted (if is_ok (fst (DecoderGate_accept (nd_gate d) job)) then jobs ++ [job] else jobs)
      (out ++ match r with Ok (Some s) => [s] | _ => [] end) d'.
Proof.
  intros Hw Hh Hq Ha. unfold NativeDecoder_decode.
  destruct (DecoderGate_accept (nd_gate d) job) as [accepted gate]. cbn [fst snd].
  set (d1 := nd_with d _ gate _ _).
  assert (queues_wf width height d1) as Hq1 by (by destruct Hq).
  assert (∀ js, accounted (jobs ++ js) (out ++ []) d1) as Ha1.
  { intros js. unfold accounted. rewrite app_nil_r, fmap_app. by apply submseteq_inserts_r. }
  destruct accepted as [[]|e]; cbn [is_ok].
  2:{ eexists _, _. split_and!; [done..|]. specialize (Ha1 []). by rewrite app_nil_r in Ha1. }
  destruct (input_sample _ _) as [[unit ?]|e];
    [|eexists _, _; split_and!; [done..|exact (Ha1 [job])]].
  destruct (timestamp_hns _) as [hns|e]; [|eexists _, _; split_and!; [done..|exact (Ha1 [job])]].
  destruct (Z.eqb_spec (len (nd_pending_inputs d1)) MAX_PENDING_DECODED_FRAMES) as [Hn|Hn];
    [eexists _, _; split_and!; [done..|exact (Ha1 [job])]|].
  destruct (mft_process_input _ _ _) as [t|];
    [|eexists _, _; split_and!; [done..|exact (Ha1 [job])]].
  set (d2 := nd_with d1 t _ _ _).
  destruct (drain_loop_wf MAX_OUTPUTS_PER_SUBMISSION width height (jobs ++ [job]) out d2)
    as (r & d3 & E & Hq3 & Ha3 & Hg3); [done|done| | |].
  { destruct Hq1. split; try done. cbn in *. rewrite len_app, len_cons, len_nil. lia. }
  { unfold accounted. cbn. rewrite !fmap_app, !app_assoc.
    apply submseteq_app; [|done]. rewrite <-app_assoc. exact Ha. }
  unfold drain_outputs. rewrite E. cbn [mbind option_bind].
  destruct r as [[]|e]; [|eexists _, _; split_and!; [done..|by rewrite app_nil_r]].
  destruct (nd_pending_surfaces d3) as [|s surfaces] eqn:Es;
    [eexists _, _; split_and!; [done..|by rewrite app_nil_r]|].
  pose proof Hq3 as []. rewrite Es in *. apply Forall_cons in qw_ok0 as [Hs Hss].
  eexists _, _. split_and!; [done| |done|by intros ? [= <-]|].
  - split; try done. cbn. rewrite len_cons in qw_surfaces0. lia.
  - unfold accounted in *. cbn. rewrite Es in Ha3. rewrite fmap_app, <-app_assoc. exact Ha3.
Qed.

Lemma decoder_op_wf width height t op :
  uint 32 width → uint 32 height → trace_wf width height t →
  ∃ t', decoder_op t op = Some t' ∧ trace_wf width height t'.
Proof.
  intros Hw Hh []. destruct op as [job|]; cbn.
  - destruct (decode_wf width height (dt_jobs t) (dt_out t) (dt_decoder t) job)
      as (r & d' & -> & Hq & Hg & Hs & Ha); [done..|]. cbn.
    eexists. split; [done|].
    destruct (DecoderGate_accept (nd_gate (dt_decoder t)) job) as [[[]|e] gate] eqn:Eg; cbn in *.
    + destruct (gate_accept_ok _ _ _ Eg) as (-> & _ & Hstart). split; cbn; try done.
      * apply Forall_app. split; [done|]. destruct r as [[s|]|]; [|done..].
        apply Forall_singleton. by apply Hs.
      * rewrite Hg. split; [|done]. intros _. by destruct (dt_jobs t).
      * intros j js E. destruct (dt_jobs t) as [|j0 js0] eqn:Ej.
        { injection E as <- _. apply Hstart.
          destruct (nd_gate (dt_decoder t)); [|done]. by destruct (proj1 tw_gate0 eq_refl). }
        injection E as <- _. by eapply tw_start0.
    + pose proof (gate_accept_err _ _ _ _ Eg) as ->. split; cbn; try done.
      * apply Forall_app. split; [done|]. destruct r as [[s|]|]; [|done..].
        apply Forall_singleton. by apply Hs.
      * by rewrite Hg.
  - unfold NativeDecoder_reset. destruct (mft_flush _) as [t'|];
      [|eexists; split; [done|]; by split].
    eexists. split; [done|]. destruct tw_queues0. split; [by split|..]; cbn; [constructor| |by split|done].
    constructor.
Qed.

(** C23. The decoder worker, over any transform whose samples keep the documented
    promises of their buffers and any sequence of submissions and resets: no read leaves
    a mapped buffer and nothing panics; at most eight inputs and eight surfaces wait; every
    surface is a valid NV12 frame of the stream's size; the surfaces returned or waiting
    carry the identity of jobs accepted since the last reset, each job at most once; and
    the first job accepted after a start or reset is a keyframe with a sequence header. *)
Theorem decoder_frames_accounted (t0 : T) (width height : Z) (d : decoder) (ops : list DecoderOp) :
  uint 32 width → uint 32 height → NativeDecoder_start t0 width height = Ok d →
  ∃ t, for_each ops decoder_op (mkDecoderTrace [] [] d) = Some t ∧ trace_wf width height t.
Proof.
  intros Hw Hh Hs.
  assert (trace_wf width height (mkDecoderTrace [] [] d)) as H0.
  { unfold NativeDecoder_start in Hs. destruct (validated_nv12_len width height); [|done].
    injection Hs as <-. split; [by split|..]; cbn; [constructor|constructor|by split|done]. }
  revert H0. generalize (mkDecoderTrace [] [] d). induction ops as [|op ops IH]; intros t Ht.
  { by exists t. }
  destruct (decoder_op_wf width height t op Hw Hh Ht) as (t' & E & Ht'). cbn. rewrite E.
  by apply IH.
Qed.
End invariant.

(** A transform that returns each frame as soon as it is submitted. *)
Definition echo_transform : DecoderTransform (list Z) := {|
  mft_input_sample _ _ := true;
  mft_output_sample _ _ := true;
  mft_process_input t _ hns := Some (t ++ [hns]);
  mft_output_info _ := Some (false, 0);
  mft_process_output t :=
    match t with
    | [] => (Output_NeedMoreInput, [])
    | hns :: t => (Output_Ok false true (Some (mkSample (Some hns)
        (Some (mkMediaBuffer (Some 6) (Some 6)
          (Buffer_2D (Some 6) (Some (λ i, to_byte (Z.of_nat i)))))))), t)
    end;
  mft_flush _ := Some []
|}.

Lemma decoder_frames_accounted_witness :
  let job id := mkDecodedFrameJob id 1000 true [x00; x00; x01; x67; x42] in
  ∃ t : @DecoderTrace (list Z),
    for_each [Decoder_Decode (job 1); Decoder_Reset; Decoder_Decode (job 2)]
      (@decoder_op _ echo_transform)
      (mkDecoderTrace [] [] (mkNativeDecoder [] 2 2 false [] [])) = Some t ∧
    trace_wf 2 2 t ∧ surface_meta <$> dt_out t = [(2, 1000, true)].
Proof.
  intros job.
  destruct (@decoder_frames_accounted (list Z) echo_transform) with (t0 := @nil Z) (width := 2)
    (height := 2) (d := mkNativeDecoder (@nil Z) 2 2 false [] [])
    (ops := [Decoder_Decode (job 1); Decoder_Reset; Decoder_Decode (job 2)]) as (t & E & Ht).
  - intros t b1 b2 s buffer t' E Hb. cbn in E. destruct t as [|hns t]; [discriminate|].
    injection E as <- <- <- <-. cbn in Hb. injection Hb as <-. exact I.
  - unfold uint. lia.
  - unfold uint. lia.
  - reflexivity.
  - exists t. split; [exact E|]. split; [exact Ht|].
    vm_compute in E. injection E as <-. reflexivity.
Defined.
