(* ===== verification/Renderer.v ===== *)
(** * The renderer worker of the client

    The surface upload of apps/nexus-client/src/renderer.rs ([native::upload_surface]) over
    a Direct3D device and an optional swap chain.  What the device answers is a parameter;
    the calls that create, fill and show a texture are logged. *)

From S2P Require Import Prelude Window Surface Decoder.

Open Scope Z_scope.

Inductive TextureFormat := B8G8R8A8 | R8G8B8A8 | TextureNv12 | OtherFormat (n : Z).
#[global] Instance TextureFormat_eq_dec : EqDecision TextureFormat.
Proof. solve_decision. Defined.
Record TextureDesc := mkTextureDesc { td_width : Z; td_height : Z; td_format : TextureFormat }.

(** The device: [d3d_texture] says whether a texture could be made, [d3d_buffer] is the
    description of the current back buffer, [None] is a failed call. *)
Class Direct3D (D : Type) := {
  d3d_texture : D → TextureDesc → bool;
  d3d_resize : D → Z → Z → option D;
  d3d_buffer : D → option TextureDesc;
  d3d_present : D → bool
}.

Inductive RenderCall :=
  | Call_CreateTexture2D (texture : TextureDesc)
  | Call_UpdateSubresource (texture : TextureDesc) (data : bytes) (row_pitch : Z)
  | Call_ResizeBuffers (width height : Z)
  | Call_CopyResource (destination source : TextureDesc)
  | Call_Present.

Record RendererState (D : Type) := mkRendererState {
  rs_device : D;
  rs_presentation_size : option (Z * Z);
  rs_log : list RenderCall
}.
Arguments mkRendererState {D} _ _ _.
Arguments rs_device {D} _.
Arguments rs_presentation_size {D} _.
Arguments rs_log {D} _.

(** The bytes, the format and the row pitch of the texture; [None] is a panic. *)
Definition surface_texture (s : DecodedSurface) (swap_chain : bool) :
    option (result DecoderError (bytes * TextureFormat * Z)) :=
  let pitch4 := ok_or (checked_mul (umax 32) (ds_width s) 4) Decoder_InvalidDimensions in
  match ds_format s, swap_chain with
  | Nv12, true =>
      r ← nv12_to_bgra s;
      Some (b ← r; p ← pitch4; Ok (b, B8G8R8A8, p))
  | Nv12, false => Some (Ok (ds_bytes s, TextureNv12, ds_width s))
  | Rgba8, true => Some (b ← rgba_to_bgra s; p ← pitch4; Ok (b, B8G8R8A8, p))
  | Rgba8, false => Some (p ← pitch4; Ok (ds_bytes s, R8G8B8A8, p))
  end.

Section renderer.
Context {D : Type} `{Direct3D D}.
Abbreviation renderer := (RendererState D).

Definition rs_call (r : renderer) (c : RenderCall) : renderer :=
  mkRendererState (rs_device r) (rs_presentation_size r) (rs_log r ++ [c]).

(** [ResizeBuffers] to the frame, with the cached size. *)
Definition resize_buffers (r : renderer) (width height : Z) :
    result DecoderError unit * renderer :=
  match d3d_resize (rs_device r) width height with
  | None => (Err Decoder_BackendLost, rs_call r (Call_ResizeBuffers width height))
  | Some d => (Ok tt, mkRendererState d (Some (width, height))
                        (rs_log r ++ [Call_ResizeBuffers width height]))
  end.

Definition desc_size (t : TextureDesc) : Z * Z := (td_width t, td_height t).

(** The path of a renderer with a swap chain, after the texture is filled. *)
Definition present_texture (r : renderer) (texture : TextureDesc) :
    result DecoderError unit * renderer :=
  let size := desc_size texture in
  let '(resized, r) :=
    if decide (rs_presentation_size r = Some size) then (Ok tt, r)
    else resize_buffers r (fst size) (snd size) in
  match resized with
  | Err e => (Err e, r)
  | Ok _ =>
  match d3d_buffer (rs_device r) with
  | None => (Err Decoder_BackendLost, r)
  | Some back_buffer =>
      let '(checked, r) :=
        if decide (desc_size back_buffer = size) then (Ok back_buffer, r) else
        match resize_buffers r (fst size) (snd size) with
        | (Err e, r) => (Err e, r)
        | (Ok _, r) => (ok_or (d3d_buffer (rs_device r)) Decoder_BackendLost, r)
        end in
      match checked with
      | Err e => (Err e, r)
      | Ok back_buffer =>
          if negb (bool_decide (desc_size back_buffer = size))
             || negb (bool_decide (td_format back_buffer = B8G8R8A8))
          then (Err Decoder_BackendLost, r) else
          let r := rs_call r (Call_CopyResource back_buffer texture) in
          let r := rs_call r Call_Present in
          (if d3d_present (rs_device r) then Ok tt else Err Decoder_BackendLost, r)
      end
  end end.

Definition upload_surface (r : renderer) (swap_chain : bool) (s : DecodedSurface) :
    option (result DecoderError unit * renderer) :=
  match DecodedSurface_validate s with
  | Err e => Some (Err e, r)
  | Ok _ =>
      t ← surface_texture s swap_chain;
      match t with
      | Err e => Some (Err e, r)
      | Ok (data, format, row_pitch) =>
          let texture := mkTextureDesc (ds_width s) (ds_height s) format in
          let r := rs_call r (Call_CreateTexture2D texture) in
          if negb (d3d_texture (rs_device r) texture) then Some (Err Decoder_BackendLost, r) else
          let r := rs_call r (Call_UpdateSubresource texture data row_pitch) in
          if swap_chain then Some (present_texture r texture) else Some (Ok tt, r)
      end
  end.
End renderer.

(** ** Uploads stay inside their buffers *)

(** The bytes the device reads: [row_pitch] a row, and the chroma rows of NV12. *)
Definition call_ok (c : RenderCall) : Prop :=
  match c with
  | Call_UpdateSubresource t data row_pitch =>
      len data = row_pitch * (td_height t + (if decide (td_format t = TextureNv12)
                                             then td_height t / 2 else 0)) ∧
      row_pitch = td_width t * (if decide (td_format t = TextureNv12) then 1 else 4)
  | Call_CopyResource destination source =>
      destination = source ∧ td_format source = B8G8R8A8
  | _ => True
  end.

Lemma rgba_chunks_length n l : length l = (4 * n)%nat → length (rgba_chunks l) = length l.
Proof.
  revert l. induction n as [|n IH]; intros l Hl; [by destruct l|].
  destruct l as [|r [|g [|b [|a l]]]]; cbn in Hl; try lia. cbn. rewrite IH; lia.
Qed.

Lemma surface_valid s :
  0 ≤ ds_width s → 0 ≤ ds_height s → DecodedSurface_validate s = Ok tt →
  surface_dimensions (ds_width s) (ds_height s) ∧
  len (ds_bytes s) = match ds_format s with
    | Nv12 => ds_width s * (ds_height s + ds_height s / 2)
    | Rgba8 => ds_width s * ds_height s * 4 end.
Proof.
  intros Hw Hh Hv. unfold DecodedSurface_validate in Hv.
  destruct (validated_pixel_count_spec (ds_width s) (ds_height s) Hw Hh) as [[Hd E]|[_ E]];
    rewrite E in Hv; [|done]. cbn in Hv. split; [done|].
  destruct (match ds_format s with Nv12 => _ | Rgba8 => _ end) as [expected|] eqn:Ee; [|done].
  cbn in Hv. destruct (_ || _) eqn:Eb in Hv; [done|].
  apply orb_false_elim in Eb as [_ Eb%negb_false_iff%Z.eqb_eq]. rewrite Eb.
  destruct (ds_format s); unfold checked_add, checked_mul in Ee;
    (destruct (_ <=? _) in Ee; [|done]); injection Ee as <-; [|lia].
  destruct Hd as (_ & _ & _ & He). pose proof (Z_div_mod_eq_full (ds_height s) 2).
  assert (ds_width s * ds_height s / 2 = ds_width s * (ds_height s / 2)) as ->; [|lia].
  symmetry. apply Z.div_unique_exact; nia.
Qed.

(** The texture of a surface and what it is filled with: the surface's own bytes, or its
    conversion to the swap chain's format. *)
Definition picture_format (swap_chain : bool) (s : DecodedSurface) : TextureFormat :=
  if swap_chain then B8G8R8A8 else match ds_format s with Nv12 => TextureNv12 | Rgba8 => R8G8B8A8 end.
Definition picture (swap_chain : bool) (s : DecodedSurface) : option bytes :=
  if swap_chain
  then match ds_format s with
       | Nv12 => r ← nv12_to_bgra s; ok r
       | Rgba8 => ok (rgba_to_bgra s)
       end
  else Some (ds_bytes s).
Definition picture_pitch (swap_chain : bool) (s : DecodedSurface) : Z :=
  match swap_chain, ds_format s with false, Nv12 => ds_width s | _, _ => ds_width s * 4 end.

(** The calls that presenting a surface makes, with its result: none for a surface that is
    not valid; the texture is created, and filled with the picture of the surface; with a
    swap chain the buffers are resized at most twice, and the texture is then copied to a
    back buffer of its size and format and shown, unless a call failed. *)
Definition surface_calls (swap_chain : bool) (s : DecodedSurface) (r : result DecoderError unit)
    (calls : list RenderCall) : Prop :=
  let t := mkTextureDesc (ds_width s) (ds_height s) (picture_format swap_chain s) in
  (calls = [] ↔ DecodedSurface_validate s ≠ Ok tt) ∧
  (calls ≠ [] → calls = [Call_CreateTexture2D t] ∨
    ∃ data, picture swap_chain s = Some data ∧
      let filled := [Call_CreateTexture2D t;
        Call_UpdateSubresource t data (picture_pitch swap_chain s)] in
      if swap_chain then
        ∃ n shown, (n ≤ 2)%nat ∧ (r = Ok tt → shown = true) ∧
          calls = filled ++ replicate n (Call_ResizeBuffers (ds_width s) (ds_height s)) ++
            (if shown : bool then [Call_CopyResource t t; Call_Present] else [])
      else calls = filled ∧ r = Ok tt) ∧
  (r = Ok tt → (2 ≤ length calls)%nat).

Lemma surface_texture_ok s swap_chain :
  0 ≤ ds_width s → 0 ≤ ds_height s → DecodedSurface_validate s = Ok tt →
  ∃ data, picture swap_chain s = Some data ∧
    surface_texture s swap_chain =
      Some (Ok (data, picture_format swap_chain s, picture_pitch swap_chain s)) ∧
    call_ok (Call_UpdateSubresource
      (mkTextureDesc (ds_width s) (ds_height s) (picture_format swap_chain s)) data
      (picture_pitch swap_chain s)).
Proof.
  intros Hw Hh Hv. destruct (surface_valid s Hw Hh Hv) as [Hd Hl].
  assert (checked_mul (umax 32) (ds_width s) 4 = Some (ds_width s * 4)) as Hp.
  { unfold checked_mul, umax. destruct Hd as [? _]. unfold MAX_SURFACE_WIDTH in *.
    by rewrite (proj2 (Z.leb_le _ _)) by lia. }
  unfold surface_texture, picture, picture_format, picture_pitch. rewrite Hp.
  destruct (ds_format s) eqn:Ef, swap_chain.
  - destruct (nv12_to_bgra_blocks s Hw Hh Hv Ef) as (w & h & Ew & Eh & Hew & Heh & Hb & ->). cbn.
    pose proof (length_concat_same 4 _ (bgra_blocks_four (ds_bytes s) w h Hew Heh Hb)) as Hlen.
    rewrite length_fmap, length_raster in Hlen. set (bgra := concat _) in *.
    assert (len bgra = 4 * (ds_width s * ds_height s)) by (unfold len; lia).
    eexists. do 2 (split; [done|]). unfold call_ok. repeat case_decide; try done. cbn. split; lia.
  - eexists. do 2 (split; [done|]). unfold call_ok. repeat case_decide; try done. cbn. split; lia.
  - unfold rgba_to_bgra. assert (len (rgba_chunks (ds_bytes s)) = len (ds_bytes s)) as El.
    { unfold len in *. rewrite (rgba_chunks_length (Z.to_nat (ds_width s * ds_height s))); lia. }
    rewrite El, Z.eqb_refl. cbn. eexists. do 2 (split; [done|]).
    unfold call_ok. repeat case_decide; try done. cbn. split; lia.
  - eexists. do 2 (split; [done|]). unfold call_ok. repeat case_decide; try done. cbn. split; lia.
Qed.

Section upload.
Context {D : Type} `{Direct3D D}.

Lemma resize_buffers_log (r : RendererState D) w h res r' :
  resize_buffers r w h = (res, r') → rs_log r' = rs_log r ++ [Call_ResizeBuffers w h].
Proof. unfold resize_buffers. by destruct (d3d_resize _ _ _); intros [= <- <-]. Qed.

Lemma present_texture_calls (r : RendererState D) t res r' :
  td_format t = B8G8R8A8 → present_texture r t = (res, r') →
  ∃ n shown, (n ≤ 2)%nat ∧ (res = Ok tt → shown = true) ∧
    rs_log r' = rs_log r ++ replicate n (Call_ResizeBuffers (td_width t) (td_height t)) ++
      (if shown : bool then [Call_CopyResource t t; Call_Present] else []).
Proof.
  intros Hf. unfold present_texture. set (resize := Call_ResizeBuffers _ _).
  destruct (if decide (rs_presentation_size r = Some (desc_size t)) then _ else _)
    as [resized r1] eqn:E1.
  assert (∃ n, (n ≤ 1)%nat ∧ rs_log r1 = rs_log r ++ replicate n resize) as (n1 & Hn1 & El1).
  { case_decide; [exists 0%nat; simplify_eq; by rewrite app_nil_r; auto|].
    exists 1%nat. by apply resize_buffers_log in E1. }
  clear E1. assert (∀ e, (Err e, r1) = (res, r') → ∃ n shown, (n ≤ 2)%nat ∧ (res = Ok tt → shown = true) ∧
    rs_log r' = rs_log r ++ replicate n resize ++ (if shown : bool then [Call_CopyResource t t; Call_Present] else []))
    as Herr1.
  { intros e [= <- <-]. exists n1, false. rewrite app_nil_r. split_and!; [lia|done|done]. }
  destruct resized as [[]|e]; [|by apply Herr1].
  destruct (d3d_buffer (rs_device r1)) as [b|]; [|by eapply Herr1]. clear Herr1.
  destruct (if decide (desc_size b = desc_size t) then _ else _) as [checked r2] eqn:E2.
  assert (∃ n, (n ≤ 2)%nat ∧ rs_log r2 = rs_log r ++ replicate n resize) as (n2 & Hn2 & El2).
  { case_decide; [exists n1; simplify_eq; auto with lia|]. exists (n1 + 1)%nat. split; [lia|].
    rewrite replicate_add, app_assoc, <-El1.
    destruct (resize_buffers r1 _ _) as [[[]|e] r3] eqn:E3; simplify_eq; by apply resize_buffers_log in E3. }
  clear E2. assert (∀ e, (Err e, r2) = (res, r') → ∃ n shown, (n ≤ 2)%nat ∧ (res = Ok tt → shown = true) ∧
    rs_log r' = rs_log r ++ replicate n resize ++ (if shown : bool then [Call_CopyResource t t; Call_Present] else []))
    as Herr2.
  { intros e [= <- <-]. exists n2, false. by rewrite app_nil_r. }
  destruct checked as [b'|e]; [|by eapply Herr2].
  destruct (bool_decide_reflect (desc_size b' = desc_size t)) as [Hs|]; [|by eapply Herr2].
  destruct (bool_decide_reflect (td_format b' = B8G8R8A8)) as [Hb|]; [|by eapply Herr2].
  cbn. intros [= <- <-]. cbn. exists n2, true. split_and!; [done..|]. rewrite El2, <-!app_assoc. cbn.
  assert (b' = t) as ->; [|done]. destruct b', t. unfold desc_size in Hs. cbn in *. congruence.
Qed.

Lemma surface_calls_ok swap_chain s r calls :
  0 ≤ ds_width s → 0 ≤ ds_height s → surface_calls swap_chain s r calls → Forall call_ok calls.
Proof.
  intros Hw Hh (Hv & Hc & _). destruct calls as [|c calls]; [constructor|].
  assert (DecodedSurface_validate s = Ok tt) as Ev.
  { destruct (DecodedSurface_validate s) as [[]|]; [done|]. by assert (c :: calls = []) by by apply Hv. }
  destruct (surface_texture_ok s swap_chain Hw Hh Ev) as (data & Ed & _ & Hd).
  destruct Hc as [->|(data' & Ed' & Hc)]; [done|by repeat constructor|].
  rewrite Ed in Ed'. injection Ed' as <-. destruct swap_chain.
  - destruct Hc as (n & shown & _ & _ & ->).
    do 2 (apply Forall_cons; split; [done|]). apply Forall_app. split; [by apply Forall_replicate|].
    destruct shown; by repeat constructor.
  - destruct Hc as [-> _]. apply Forall_cons. split; [done|]. by apply Forall_singleton.
Qed.

(** Presenting a surface: the upload never panics and makes exactly the calls of the
    surface; every upload hands the device exactly the rows its pitch and height
    announce, and every copy to the back buffer is between textures of the same size in
    the swap-chain format, so a stale cached size or a window resized meanwhile never
    reaches the copy. *)
Theorem upload_surface_safe (r : RendererState D) (swap_chain : bool) (s : DecodedSurface) :
  0 ≤ ds_width s → 0 ≤ ds_height s →
  ∃ res r' calls, upload_surface r swap_chain s = Some (res, r') ∧ rs_log r' = rs_log r ++ calls ∧
    surface_calls swap_chain s res calls ∧ Forall call_ok calls.
Proof.
  intros Hw Hh. cut (∃ res r' calls, upload_surface r swap_chain s = Some (res, r') ∧
    rs_log r' = rs_log r ++ calls ∧ surface_calls swap_chain s res calls).
  { intros (res & r' & calls & ? & ? & ?). exists res, r', calls.
    split_and!; [done..|]. by eapply surface_calls_ok. }
  unfold upload_surface.
  destruct (DecodedSurface_validate s) as [[]|e] eqn:Ev.
  2:{ exists (Err e), r, []. split_and!; [done|by rewrite app_nil_r|]. split_and!; try done. by rewrite Ev. }
  destruct (surface_texture_ok s swap_chain Hw Hh Ev) as (data & Ep & -> & _).
  cbn [mbind option_bind]. set (t := mkTextureDesc _ _ _).
  assert (∀ c calls, c :: calls = [] ↔ DecodedSurface_validate s ≠ Ok tt) as Hne by (intros; by rewrite Ev).
  destruct (d3d_texture _ _); cbn [negb].
  2:{ eexists _, _, [_]. split_and!; [done|done|]. split_and!; [done|by left|done]. }
  destruct swap_chain.
  - destruct (present_texture _ t) as [res r2] eqn:E2.
    destruct (present_texture_calls _ t res r2 eq_refl E2) as (n & shown & Hn & Hres & El).
    eexists res, r2, _. split_and!; [done|cbn in El; rewrite <-!app_assoc in El; exact El|].
    split_and!; [done| |cbn; lia]. intros _. right. exists data. split; [done|]. by exists n, shown.
  - eexists _, _, [_; _]. split_and!; [done|cbn; by rewrite <-app_assoc|].
    split_and!; [done| |cbn; lia]. intros _. right. by exists data.
Qed.
End upload.

(** A window resized behind the cached size. *)
Definition resized_device : Direct3D (Z * Z) := {|
  d3d_texture _ _ := true;
  d3d_resize _ w h := Some (w, h);
  d3d_buffer d := Some (mkTextureDesc (fst d) (snd d) B8G8R8A8);
  d3d_present _ := true
|}.
Lemma upload_surface_safe_witness :
  let s := mkDecodedSurface 1 2 true 2 2 Nv12 (to_byte <$> [16; 235; 16; 235; 128; 128]) in
  ∃ r', @upload_surface _ resized_device (mkRendererState (640, 480) (Some (2, 2)) []) true s =
      Some (Ok tt, r') ∧ Forall call_ok (rs_log r').
Proof.
  intros s.
  destruct (@upload_surface_safe _ resized_device (mkRendererState (640, 480) (Some (2, 2)) [])
    true s) as (res & r' & calls & E & El & _ & Hl).
  - vm_compute. congruence.
  - vm_compute. congruence.
  - exists r'. split; [|rewrite El; exact Hl]. rewrite E. vm_compute in E. injection E as <- <-. reflexivity.
Defined.
