(* ===== verification/CommandChannel.v ===== *)
(** * Requests over a channel of one place (apps/nexus-client/src/decoder.rs, renderer.rs)

    The owners of the decoder and of the renderer thread send their commands with
    [try_send] into a [sync_channel(1)] and wait for the reply with [recv_timeout].  The
    worker takes the commands out in its own time: how far it gets before a command is
    sent, and between the sending and the deadline, is a schedule. *)

From S2P Require Import Prelude.

Open Scope Z_scope.

(** How many steps the worker makes before a request is sent, and from then to its
    deadline.  It takes three to finish the command it holds, receive the next and finish
    that. *)
Record Pace := mkPace { pace_before : nat; pace_within : nat }.
Definition prompt : Pace := mkPace 3 3.

(** What becomes of a request: the channel is full or gone, the deadline passes, or the
    worker replies. *)
Inductive Outcome (R : Type) := Refused | Late | Answered (reply : R).
Arguments Refused {R}.
Arguments Late {R}.
Arguments Answered {R} _.

(** [cf_held]: the command the worker has received and works on; [cf_queued]: the one in
    the channel's place. *)
Record CommandFront (W C : Type) := mkCommandFront {
  cf_commands : bool; cf_worker : W; cf_held : option C; cf_queued : option C; cf_schedule : list Pace
}.
Arguments mkCommandFront {W C} _ _ _ _ _.
Arguments cf_commands {W C} _.
Arguments cf_worker {W C} _.
Arguments cf_held {W C} _.
Arguments cf_queued {W C} _.
Arguments cf_schedule {W C} _.

Section requests.
Context {W C R : Type} (answer : W → C → option (R * W)).
Abbreviation front := (CommandFront W C).

Definition channel_pending (f : front) : list C := option_list (cf_held f) ++ option_list (cf_queued f).
Definition channel_idle (f : front) : bool :=
  match cf_held f, cf_queued f with None, None => true | _, _ => false end.
Definition front_new (w : W) (schedule : list Pace) : front := mkCommandFront true w None None schedule.

(** A step of the worker: it finishes the command it holds, with the reply, or receives
    the one in the channel, or waits. *)
Definition channel_step (f : front) : option (option R * front) :=
  match cf_held f with
  | Some c =>
      '(reply, w) ← answer (cf_worker f) c;
      Some (Some reply, mkCommandFront (cf_commands f) w None (cf_queued f) (cf_schedule f))
  | None =>
      Some (None, match cf_queued f with
        | Some c => mkCommandFront (cf_commands f) (cf_worker f) (Some c) None (cf_schedule f)
        | None => f end)
  end.
(** Steps of the worker, with the last reply among them. *)
Fixpoint channel_steps (n : nat) (f : front) (last : option R) : option (option R * front) :=
  match n with
  | O => Some (last, f)
  | S n => '(r, f) ← channel_step f; channel_steps n f (match r with Some _ => r | None => last end)
  end.

(** [try_send] into the channel: an occupied place is [Full]. *)
Definition channel_send (f : front) (c : C) : option front :=
  match cf_queued f with
  | Some _ => None
  | None => Some (mkCommandFront (cf_commands f) (cf_worker f) (cf_held f) (Some c) (cf_schedule f))
  end.

(** [try_send] and [recv_timeout].  The reply is the command's own when the worker has
    nothing left: its command was the last to be sent. *)
Definition front_send (f : front) (c : C) : option (Outcome R * front) :=
  if negb (cf_commands f) then Some (Refused, f) else
  let pace := default prompt (head (cf_schedule f)) in
  let f := mkCommandFront true (cf_worker f) (cf_held f) (cf_queued f) (tail (cf_schedule f)) in
  '(_, f) ← channel_steps (pace_before pace) f None;
  match channel_send f c with
  | None => Some (Refused, f)
  | Some f =>
      '(last, f) ← channel_steps (pace_within pace) f None;
      Some (if channel_idle f then match last with Some reply => Answered reply | None => Late end else Late, f)
  end.

(** Requests one after the other, each with its outcome. *)
Fixpoint front_run (commands : list C) (f : front) (outcomes : list (C * Outcome R)) :
    option (list (C * Outcome R) * front) :=
  match commands with
  | [] => Some (outcomes, f)
  | c :: commands => '(o, f) ← front_send f c; front_run commands f (outcomes ++ [(c, o)])
  end.

(** ** What the worker has worked off *)

(** The commands that were sent, those that were answered in time, and a worker that has
    answered commands in order. *)
Definition sent_commands (outcomes : list (C * Outcome R)) : list C :=
  omap (λ '(c, o), match o with Refused => None | _ => Some c end) outcomes.
Definition answered_commands (outcomes : list (C * Outcome R)) : list (C * R) :=
  omap (λ '(c, o), match o with Answered r => Some (c, r) | _ => None end) outcomes.
Fixpoint worked_off (w : W) (worked : list (C * R)) (w' : W) : Prop :=
  match worked with
  | [] => w' = w
  | (c, r) :: worked => ∃ w1, answer w c = Some (r, w1) ∧ worked_off w1 worked w'
  end.

(** After some requests: the commands sent are those worked off, in order, and then what
    is pending; the replies given in time are among those of the worker; and the worker
    that answered the last request has answered everything. *)
Record front_trace (start : W) (f : front) (outcomes : list (C * Outcome R)) (worked : list (C * R)) : Prop := {
  ft_sent : sent_commands outcomes = worked.*1 ++ channel_pending f;
  ft_worked : worked_off start worked (cf_worker f);
  ft_answered : answered_commands outcomes `sublist_of` worked;
  ft_last : ∀ before c r, outcomes = before ++ [(c, Answered r)] →
    channel_pending f = [] ∧ last worked = Some (c, r)
}.

Lemma worked_off_snoc w l w1 c r w' :
  worked_off w l w1 → answer w1 c = Some (r, w') → worked_off w (l ++ [(c, r)]) w'.
Proof. revert w. induction l as [|[c0 r0] l IH]; intros w; cbn; [intros ->; by eauto|naive_solver]. Qed.

Lemma channel_pending_two f : len (channel_pending f) ≤ 2.
Proof. unfold channel_pending, len. destruct (cf_held f), (cf_queued f); cbn; lia. Qed.
Lemma idle_pending f : channel_idle f = true ↔ channel_pending f = [].
Proof. unfold channel_idle, channel_pending. by destruct (cf_held f), (cf_queued f). Qed.

Lemma channel_step_worked start f worked r f' cs :
  channel_step f = Some (r, f') → worked_off start worked (cf_worker f) → cs = worked.*1 ++ channel_pending f →
  ∃ more, worked_off start (worked ++ more) (cf_worker f') ∧ cs = (worked ++ more).*1 ++ channel_pending f' ∧
    more.*2 = option_list r.
Proof.
  intros E Hw ->. unfold channel_step in E. unfold channel_pending. destruct (cf_held f) as [c|] eqn:Eh.
  - apply bind_Some in E as ([reply w] & Ea & [= <- <-]). exists [(c, reply)]. cbn.
    split_and!; [by eapply worked_off_snoc| |done]. by rewrite fmap_app, <-app_assoc.
  - injection E as <- <-. exists []. rewrite app_nil_r.
    destruct (cf_queued f) as [c|] eqn:Eq; cbn; [by split_and!|]. rewrite Eh, Eq. by split_and!.
Qed.

Lemma channel_steps_worked n start f worked l r f' cs :
  channel_steps n f l = Some (r, f') → worked_off start worked (cf_worker f) → cs = worked.*1 ++ channel_pending f →
  ∃ more, worked_off start (worked ++ more) (cf_worker f') ∧ cs = (worked ++ more).*1 ++ channel_pending f' ∧
    r = match last more.*2 with Some x => Some x | None => l end.
Proof.
  revert f worked l. induction n as [|n IH]; intros f worked l; cbn.
  { intros [= <- <-] Hw ->. exists []. rewrite app_nil_r. by split_and!. }
  intros ([r1 f1] & E1 & E)%bind_Some Hw Hc.
  destruct (channel_step_worked start f worked r1 f1 cs E1 Hw Hc) as (m1 & Hw1 & Hc1 & Em).
  destruct (IH f1 (worked ++ m1) _ E Hw1 Hc1) as (m2 & Hw2 & Hc2 & ->).
  exists (m1 ++ m2). rewrite app_assoc. split_and!; [done..|].
  rewrite fmap_app, last_app, Em. destruct (last m2.*2); [done|]. by destruct r1.
Qed.

Lemma sent_snoc outcomes c o :
  sent_commands (outcomes ++ [(c, o)]) = sent_commands outcomes ++ (match o with Refused => [] | _ => [c] end).
Proof. unfold sent_commands. rewrite omap_app. by destruct o. Qed.
Lemma answered_snoc outcomes c o :
  answered_commands (outcomes ++ [(c, o)]) = answered_commands outcomes ++ (match o with Answered r => [(c, r)] | _ => [] end).
Proof. unfold answered_commands. rewrite omap_app. by destruct o. Qed.

Lemma front_send_trace start f outcomes worked c o f' :
  front_trace start f outcomes worked → front_send f c = Some (o, f') →
  ∃ more, front_trace start f' (outcomes ++ [(c, o)]) (worked ++ more).
Proof.
  intros [Hs Hw Ha _]. unfold front_send. destruct (cf_commands f); cbn [negb].
  2:{ intros [= <- <-]. exists []. rewrite app_nil_r.
      split; rewrite ?sent_snoc, ?answered_snoc, ?app_nil_r; [done..|]. by intros ? ? ? [_ [=]]%app_inj_tail. }
  intros ([r1 f1] & E1 & E)%bind_Some.
  destruct (channel_steps_worked _ start _ worked _ r1 f1 (sent_commands outcomes) E1 Hw Hs) as (m1 & Hw1 & Hs1 & _).
  assert (answered_commands outcomes `sublist_of` worked ++ m1) as Ha1 by by apply sublist_inserts_r.
  unfold channel_send in E. destruct (cf_queued f1) as [q|] eqn:Eq.
  { injection E as <- <-. exists m1.
    split; rewrite ?sent_snoc, ?answered_snoc, ?app_nil_r; [done..|]. by intros ? ? ? [_ [=]]%app_inj_tail. }
  apply bind_Some in E as ([r2 f2] & E2 & [= <- <-]).
  destruct (channel_steps_worked _ start _ (worked ++ m1) _ r2 f2 (sent_commands outcomes ++ [c]) E2 Hw1)
    as (m2 & Hw2 & Hs2 & Er).
  { rewrite Hs1, <-app_assoc. unfold channel_pending. cbn. by rewrite Eq, app_nil_r. }
  exists (m1 ++ m2). rewrite app_assoc.
  assert (∀ r, channel_idle f2 = true → r2 = Some r → channel_pending f2 = [] ∧ ∃ m, m2 = m ++ [(c, r)]) as Hlast.
  { intros r Hi ->. apply idle_pending in Hi. split; [done|]. rewrite Hi, app_nil_r in Hs2.
    destruct m2 as [|[c' r'] m _] using rev_ind; [done|].
    rewrite fmap_app in Er. cbn [fmap list_fmap] in Er. rewrite last_snoc in Er. injection Er as ->. exists m.
    rewrite !fmap_app, app_assoc in Hs2. cbn in Hs2. by apply app_inj_tail in Hs2 as [_ ->]. }
  destruct (channel_idle f2) eqn:Ei; [destruct r2 as [r|]|].
  - destruct (Hlast r) as [Hp [m ->]]; [done..|].
    split; rewrite ?sent_snoc, ?answered_snoc; [by rewrite <-app_assoc in Hs2 |- *|done| |].
    + rewrite (app_assoc (worked ++ m1)). apply sublist_app; [by apply sublist_inserts_r|done].
    + intros before c0 r0 [_ [= <- <-]]%app_inj_tail. split; [done|]. by rewrite (app_assoc (worked ++ m1)), last_snoc.
  - split; rewrite ?sent_snoc, ?answered_snoc, ?app_nil_r; [done|done|by apply sublist_inserts_r|].
    by intros ? ? ? [_ [=]]%app_inj_tail.
  - split; rewrite ?sent_snoc, ?answered_snoc, ?app_nil_r; [done|done|by apply sublist_inserts_r|].
    by intros ? ? ? [_ [=]]%app_inj_tail.
Qed.

(** A request of an idle front finds the place free: it is late or answered. *)
Lemma idle_request f c reply w :
  cf_commands f = true → channel_idle f = true → answer (cf_worker f) c = Some (reply, w) →
  ∃ o f', front_send f c = Some (o, f') ∧
    (o = Late ∨ o = Answered reply ∧ channel_idle f' = true ∧ cf_commands f' = true ∧ cf_worker f' = w).
Proof.
  intros Hc Hi Ea. unfold front_send. rewrite Hc. cbn [negb].
  set (f0 := mkCommandFront true _ _ _ _). assert (channel_idle f0 = true) as Hi0 by exact Hi.
  assert (∀ n l, channel_steps n f0 l = Some (l, f0)) as Hs.
  { intros n. unfold channel_idle in Hi0. induction n as [|n IH]; intros l; cbn; [done|]. unfold channel_step.
    destruct (cf_held f0); [done|]. destruct (cf_queued f0); [done|]. cbn. apply IH. }
  rewrite Hs. cbn [mbind option_bind]. unfold channel_send, channel_idle in *.
  destruct (cf_held f0) eqn:Eh; [done|]. destruct (cf_queued f0) eqn:Eq; [done|].
  destruct (pace_within _) as [|[|n]]; cbn; [by eauto..|].
  unfold f0. cbn. rewrite Ea. cbn.
  set (f1 := mkCommandFront true w None None _).
  assert (∀ n l, channel_steps n f1 l = Some (l, f1)) as -> by (intros k; induction k; intros; cbn; auto).
  eexists _, _. split; [done|]. right. by split_and!.
Qed.

(** ** Requests return *)

Context (P : W → Prop) (ok : C → Prop).
Context (Hstep : ∀ w c, P w → ok c → ∃ reply w', answer w c = Some (reply, w') ∧ P w').
Definition front_safe (f : front) : Prop := P (cf_worker f) ∧ Forall ok (channel_pending f).

Lemma channel_step_total f : front_safe f → ∃ r f', channel_step f = Some (r, f') ∧ front_safe f'.
Proof.
  intros [Hw Hp]. unfold channel_step, front_safe, channel_pending in *. destruct (cf_held f) as [c|] eqn:Eh.
  - inversion Hp as [|? ? Hc Hq]; subst. destruct (Hstep _ _ Hw Hc) as (reply & w' & -> & Hw'). by repeat eexists.
  - eexists _, _. split; [done|]. destruct (cf_queued f) eqn:Eq; cbn; [done|]. by rewrite Eh, Eq.
Qed.
Lemma channel_steps_total n f l : front_safe f → ∃ r f', channel_steps n f l = Some (r, f') ∧ front_safe f'.
Proof.
  revert f l. induction n as [|n IH]; intros f l Hf; cbn; [by eauto|].
  destruct (channel_step_total f Hf) as (r & f1 & -> & Hf1). by apply IH.
Qed.
Lemma front_send_total f c : front_safe f → ok c → ∃ o f', front_send f c = Some (o, f') ∧ front_safe f'.
Proof.
  intros Hf Hc. unfold front_send. destruct (negb _); [by eauto|].
  edestruct channel_steps_total as (r1 & f1 & -> & Hf1); [exact Hf|]. cbn [mbind option_bind].
  unfold channel_send. destruct (cf_queued f1) eqn:Eq; [by eauto|].
  edestruct channel_steps_total as (r2 & f2 & -> & Hf2); [|cbn; by eauto].
  destruct Hf1 as [Hw Hp]. split; [done|]. unfold channel_pending in Hp |- *. cbn. rewrite Eq, app_nil_r in Hp.
  apply Forall_app. by split; [|apply Forall_singleton].
Qed.
Lemma front_run_trace start commands f outcomes worked :
  front_safe f → Forall ok commands → front_trace start f outcomes worked →
  ∃ outcomes' f' worked', front_run commands f outcomes = Some (outcomes', f') ∧ front_safe f' ∧
    outcomes'.*1 = outcomes.*1 ++ commands ∧ front_trace start f' outcomes' worked'.
Proof.
  revert f outcomes worked. induction commands as [|c l IH]; intros f outcomes worked Hf Hl Ht; cbn.
  { eexists _, _, _. split_and!; [done|done|by rewrite app_nil_r|done]. }
  inversion Hl as [|? ? Hc Hl']; subst.
  destruct (front_send_total f c Hf Hc) as (o & f1 & E & Hf1). rewrite E. cbn.
  destruct (front_send_trace start f outcomes worked c o f1 Ht E) as [more Ht1].
  destruct (IH f1 _ _ Hf1 Hl' Ht1) as (outcomes' & f' & worked' & E' & Hf' & Ef & Ht').
  eexists _, _, _. split_and!; [done|done| |done]. by rewrite Ef, fmap_app, <-app_assoc.
Qed.
End requests.

(** Two late requests and a third while the worker has not moved: the channel is full.
    It is worked off before the fourth. *)
Example backlog_drained :
  fst <$> front_run (λ w c, Some (w + c, w + c)) [1; 2; 3; 4]
    (front_new 0 [mkPace 0 1; mkPace 0 0; mkPace 0 0; mkPace 3 3]) [] =
  Some [(1, Late); (2, Late); (3, Refused); (4, Answered 7)].
Proof. reflexivity. Qed.
