(* ===== verification/Pipeline.v ===== *)
(** * The native pipeline of the client

    [MediaFoundationDecoder] (apps/nexus-client/src/decoder.rs), the front of the decoder
    worker that the pipeline calls, and [NativePipeline] (apps/nexus-client/src/runtime.rs):
    a one-place slot of jobs tagged with a generation, a worker thread that decodes and
    presents them, and resets for reconnects that run concurrently with the worker.

    The pipeline is proved against what it needs of a decoder ([PipelineDecoder] and its
    laws); the decoder worker of [Decoder] provides it. *)

From S2P Require Import Prelude ClientReceiver VideoTransport Window Surface Decoder CommandChannel.

Open Scope Z_scope.

(** ** The decoder as the pipeline sees it *)

(** [None] is a read outside a buffer or a panic. *)
Class PipelineDecoder (D : Type) := {
  pd_decode : D → DecodedFrameJob → option (result DecoderError (option DecodedSurface) * D);
  pd_reset : D → option (result DecoderError unit * D)
}.

(** The one error the pipeline survives. *)
Definition recoverable {A} (r : result DecoderError A) : Prop :=
  match r with Ok _ | Err Decoder_MissingSequenceHeader => True | Err _ => False end.

(** What a decoder promises: it never fails to answer; while it has not lost its backend,
    the surfaces it returns are of jobs it accepted since the last reset, and the first
    of those started a stream. *)
Class PipelineDecoderLaws (D : Type) `{PipelineDecoder D} := {
  pd_inv : D → list DecodedFrameJob → Prop;
  pd_total d js j : pd_inv d js → is_Some (pd_decode d j) ∧ is_Some (pd_reset d);
  pd_inv_decode d js j r d' :
    pd_inv d js → pd_decode d j = Some (r, d') → recoverable r →
    ∃ js', (js' = js ∨ js' = js ++ [j]) ∧ pd_inv d' js' ∧
      ∀ s, r = Ok (Some s) → surface_meta s ∈ job_meta <$> js';
  pd_inv_reset d js d' : pd_inv d js → pd_reset d = Some (Ok tt, d') → pd_inv d' [];
  pd_inv_start d j js : pd_inv d (j :: js) → starts_stream j
}.

(** ** The front of the decoder worker *)

Inductive DecoderCommand := Command_Decode (job : DecodedFrameJob) | Command_Reset.
Inductive DecoderReply :=
  | Reply_Decode (r : result DecoderError (option DecodedSurface))
  | Reply_Reset (r : result DecoderError unit).

(** The gate of the owner and the channel to the worker. *)
Record MediaFoundationDecoder (T : Type) := mkMediaFoundationDecoder {
  mf_gate : bool;
  mf_front : CommandFront (NativeDecoder T) DecoderCommand
}.
Arguments mkMediaFoundationDecoder {T} _ _.
Arguments mf_gate {T} _.
Arguments mf_front {T} _.
Abbreviation mf_worker m := (cf_worker (mf_front m)).

Section front.
Context {T : Type} `{DecoderTransform T}.
Abbreviation front := (MediaFoundationDecoder T).

Definition MediaFoundationDecoder_start (t : T) (width height : Z) (schedule : list Pace) :
    result DecoderError front :=
  _ ← validated_nv12_len width height;
  d ← NativeDecoder_start t width height;
  Ok (mkMediaFoundationDecoder false (front_new d schedule)).

(** One command of [decoder_main]. *)
Definition decoder_main_command (d : NativeDecoder T) (c : DecoderCommand) :
    option (DecoderReply * NativeDecoder T) :=
  match c with
  | Command_Decode job => '(r, d) ← NativeDecoder_decode d job; Some (Reply_Decode r, d)
  | Command_Reset => let '(r, d) := NativeDecoder_reset d in Some (Reply_Reset r, d)
  end.

(** Sending a command and waiting for its reply; no reply in time, a full channel and a
    missing sender are all [BackendLost]. *)
Definition mf_request (m : front) (c : DecoderCommand) : option (Outcome DecoderReply * front) :=
  '(o, f) ← front_send decoder_main_command (mf_front m) c;
  Some (o, mkMediaFoundationDecoder (mf_gate m) f).

Definition MediaFoundationDecoder_decode (m : front) (job : DecodedFrameJob) :
    option (result DecoderError (option DecodedSurface) * front) :=
  let '(accepted, gate) := DecoderGate_accept (mf_gate m) job in
  let m := mkMediaFoundationDecoder gate (mf_front m) in
  match accepted with
  | Err e => Some (Err e, m)
  | Ok _ =>
      '(o, m) ← mf_request m (Command_Decode job);
      Some (match o with Answered (Reply_Decode r) => r | _ => Err Decoder_BackendLost end, m)
  end.

Definition MediaFoundationDecoder_reset (m : front) :
    option (result DecoderError unit * front) :=
  let m := mkMediaFoundationDecoder (DecoderGate_reset (mf_gate m)) (mf_front m) in
  '(o, m) ← mf_request m Command_Reset;
  Some (match o with Answered (Reply_Reset r) => r | _ => Err Decoder_BackendLost end, m).

#[global] Instance front_decoder : PipelineDecoder front := {|
  pd_decode := MediaFoundationDecoder_decode;
  pd_reset := MediaFoundationDecoder_reset
|}.
End front.

(** ** The pipeline *)

Record PendingNativeJob := mkPendingNativeJob { pj_generation : Z; pj_job : DecodedFrameJob }.

Definition stale_native_job (job_generation current_generation worker_generation : Z) : bool :=
  (job_generation <? current_generation) || (job_generation <? worker_generation).

(** Where the worker is between two actions on shared state. *)
Inductive WorkerPhase :=
  | Worker_Waiting
  | Worker_Taken (p : PendingNativeJob)
  | Worker_Decoding (p : PendingNativeJob)
  | Worker_Decoded (generation : Z) (surface : DecodedSurface)
  | Worker_Presenting (generation : Z) (surface : DecodedSurface)
  | Worker_Finished.

(** [np_presented] is what the renderer was given, newest last. *)
Record NativePipeline (D : Type) := mkNativePipeline {
  np_pending : option PendingNativeJob;
  np_generation : Z;
  np_stop : bool;
  np_errors : list DecoderError;
  np_phase : WorkerPhase;
  np_worker_generation : Z;
  np_decoder : D;
  np_presented : list (Z * DecodedSurface)
}.
Arguments mkNativePipeline {D} _ _ _ _ _ _ _ _.
Arguments np_pending {D} _.
Arguments np_generation {D} _.
Arguments np_stop {D} _.
Arguments np_errors {D} _.
Arguments np_phase {D} _.
Arguments np_worker_generation {D} _.
Arguments np_decoder {D} _.
Arguments np_presented {D} _.

Section pipeline.
Context {D : Type} `{PipelineDecoder D}.
Abbreviation pipeline := (NativePipeline D).

Definition NativePipeline_start (d : D) : pipeline :=
  mkNativePipeline None 0 false [] Worker_Waiting 0 d [].

(** *** The runtime's side *)

Definition poll_error (p : pipeline) : option DecoderError * pipeline :=
  match np_errors p with
  | [] => (None, p)
  | e :: errors => (Some e, mkNativePipeline (np_pending p) (np_generation p) (np_stop p) errors
                              (np_phase p) (np_worker_generation p) (np_decoder p)
                              (np_presented p))
  end.

Definition np_set_pending (p : pipeline) (pending : option PendingNativeJob) : pipeline :=
  mkNativePipeline pending (np_generation p) (np_stop p) (np_errors p) (np_phase p)
    (np_worker_generation p) (np_decoder p) (np_presented p).

Definition NativePipeline_submit (p : pipeline) (job : DecodedFrameJob) :
    result DecoderError unit * pipeline :=
  match poll_error p with
  | (Some e, p) => (Err e, p)
  | (None, p) =>
      match np_phase p with
      | Worker_Finished => (Err Decoder_BackendLost, p)
      | _ => (Ok tt, np_set_pending p (Some (mkPendingNativeJob (np_generation p) job)))
      end
  end.

(** [reset_for_reconnect] in its two steps: the counter, then the slot. *)
Definition reset_generation (p : pipeline) : pipeline :=
  mkNativePipeline (np_pending p) (wrap 64 (np_generation p + 1)) (np_stop p) (np_errors p)
    (np_phase p) (np_worker_generation p) (np_decoder p) (np_presented p).
Definition reset_slot (p : pipeline) : pipeline := np_set_pending p None.
Definition reset_for_reconnect (p : pipeline) : result DecoderError unit * pipeline :=
  (Ok tt, reset_slot (reset_generation p)).

(** [shutdown] first asks the worker to stop. *)
Definition NativePipeline_stop (p : pipeline) : pipeline :=
  mkNativePipeline (np_pending p) (np_generation p) true (np_errors p) (np_phase p)
    (np_worker_generation p) (np_decoder p) (np_presented p).

(** *** The worker's side *)

Definition np_phase_to (p : pipeline) (phase : WorkerPhase) : pipeline :=
  mkNativePipeline (np_pending p) (np_generation p) (np_stop p) (np_errors p) phase
    (np_worker_generation p) (np_decoder p) (np_presented p).
(** [error_tx.try_send] on the channel of one place, and the end of the worker. *)
Definition np_fail (p : pipeline) (e : DecoderError) (d : D) : pipeline :=
  mkNativePipeline (np_pending p) (np_generation p) (np_stop p)
    (match np_errors p with [] => [e] | errors => errors end) Worker_Finished
    (np_worker_generation p) d (np_presented p).

(** The next action of the worker; it is waiting when nothing changes.  [present] is the
    renderer's answer.  [None] is a panic of the decoder. *)
Definition worker_step (present : DecodedSurface → result DecoderError unit) (p : pipeline) :
    option pipeline :=
  match np_phase p with
  | Worker_Finished => Some p
  | Worker_Waiting =>
      if np_stop p then Some (np_phase_to p Worker_Finished) else
      match np_pending p with
      | None => Some p
      | Some job => Some (np_phase_to (np_set_pending p None) (Worker_Taken job))
      end
  | Worker_Taken job =>
      if stale_native_job (pj_generation job) (np_generation p) (np_worker_generation p)
      then Some (np_phase_to p Worker_Waiting) else
      if np_worker_generation p <? pj_generation job then
        '(r, d) ← pd_reset (np_decoder p);
        match r with
        | Err e => Some (np_fail p e d)
        | Ok _ => Some (mkNativePipeline (np_pending p) (np_generation p) (np_stop p)
                          (np_errors p) (Worker_Decoding job) (pj_generation job) d
                          (np_presented p))
        end
      else Some (np_phase_to p (Worker_Decoding job))
  | Worker_Decoding job =>
      '(r, d) ← pd_decode (np_decoder p) (pj_job job);
      let p' phase := mkNativePipeline (np_pending p) (np_generation p) (np_stop p)
        (np_errors p) phase (np_worker_generation p) d (np_presented p) in
      match r with
      | Ok (Some surface) => Some (p' (Worker_Decoded (pj_generation job) surface))
      | Ok None | Err Decoder_MissingSequenceHeader => Some (p' Worker_Waiting)
      | Err e => Some (np_fail p e d)
      end
  | Worker_Decoded generation surface =>
      if generation =? np_generation p
      then Some (np_phase_to p (Worker_Presenting generation surface))
      else Some (np_phase_to p Worker_Waiting)
  | Worker_Presenting generation surface =>
      match present surface with
      | Err e => Some (np_fail p e (np_decoder p))
      | Ok _ => Some (mkNativePipeline (np_pending p) (np_generation p) (np_stop p)
                        (np_errors p) Worker_Waiting (np_worker_generation p) (np_decoder p)
                        (np_presented p ++ [(generation, surface)]))
      end
  end.
End pipeline.

(** ** The decoder worker keeps the promises *)

Section front_laws.
Context {T : Type} `{DecoderTransform T}.
Context (transform_wf : ∀ t b1 b2 s buffer t',
  mft_process_output t = (Output_Ok b1 b2 (Some s), t') → sample_buffer s = Some buffer →
  buffer_wf buffer).

Definition front_inv (m : MediaFoundationDecoder T) (js : list DecodedFrameJob) : Prop :=
  cf_commands (mf_front m) = true ∧ channel_idle (mf_front m) = true ∧ mf_gate m = nd_gate (mf_worker m) ∧
  ∃ width height out, uint 32 width ∧ uint 32 height ∧
    trace_wf width height (mkDecoderTrace js out (mf_worker m)).

(** A request of a front with nothing pending: it is late, or the worker's answer. *)
Lemma front_request m c :
  cf_commands (mf_front m) = true → channel_idle (mf_front m) = true →
  is_Some (decoder_main_command (mf_worker m) c) →
  ∃ o m', mf_request m c = Some (o, m') ∧ mf_gate m' = mf_gate m ∧
    (o = Late ∨ ∃ reply, o = Answered reply ∧ channel_idle (mf_front m') = true ∧
       cf_commands (mf_front m') = true ∧ decoder_main_command (mf_worker m) c = Some (reply, mf_worker m')).
Proof.
  intros Ho Hi [[reply d] Ea]. unfold mf_request.
  pose proof (idle_request decoder_main_command (mf_front m) c reply d Ho Hi Ea) as (o & f & E & Hcase).
  rewrite E. cbn. eexists _, _. split_and!; [done|done|]. cbn.
  destruct Hcase as [->|(-> & Hf & Hc & Hw)]; [by left|]. right. exists reply. by rewrite Hw.
Qed.

Lemma front_decode m js j :
  front_inv m js →
  ∃ r m', MediaFoundationDecoder_decode m j = Some (r, m') ∧
    (recoverable r → ∃ js', (js' = js ∨ js' = js ++ [j]) ∧ front_inv m' js' ∧
      ∀ s, r = Ok (Some s) → surface_meta s ∈ job_meta <$> js').
Proof.
  intros (Ho & Hb & Hg & width & height & out & Hw & Hh & Ht).
  unfold MediaFoundationDecoder_decode. rewrite Hg.
  destruct (DecoderGate_accept (nd_gate (mf_worker m)) j) as [accepted gate] eqn:Ea.
  destruct accepted as [[]|e].
  2:{ pose proof (gate_accept_err _ _ _ _ Ea) as ->. eexists _, _. split; [done|]. intros _.
      exists js. split_and!; [by left| |done]. by split_and!; eauto 10. }
  destruct (decoder_op_wf transform_wf width height _ (Decoder_Decode j) Hw Hh Ht)
    as (t' & Et & Ht').
  cbn in Et. destruct (NativeDecoder_decode (mf_worker m) j) as [[r d]|] eqn:Ed; [|done].
  cbn in Et. injection Et as <-. rewrite Ea in Ht'. cbn in Ht'.
  destruct (front_request (mkMediaFoundationDecoder gate (mf_front m)) (Command_Decode j))
    as (o & m' & -> & Hgm & Hcase); [done|done|cbn; rewrite Ed; by eexists|].
  cbn [mbind option_bind]. eexists _, _. split; [done|].
  destruct Hcase as [->|(reply & -> & Hi & Hc & Er)]; [by intros []|].
  cbn in Er. rewrite Ed in Er. injection Er as <- ->. intros Hr. exists (js ++ [j]).
  destruct (decode_wf transform_wf width height js out (mf_worker m) j) as (r0 & d0 & E & _ & Hgate & _);
    [done|done|apply Ht|apply Ht|]. rewrite Ed in E. injection E as <- <-.
  rewrite Ea in Hgate. cbn in Hgate, Hgm. split_and!; [by right| |].
  - split_and!; [done|done|by rewrite Hgm|]. by eauto 10.
  - intros s ->. destruct Ht' as [_ Hacc _ _ _]. unfold accounted in Hacc. cbn in Hacc.
    eapply elem_of_submseteq; [|exact Hacc]. rewrite fmap_app. set_solver.
Qed.

Lemma front_reset m js :
  front_inv m js →
  ∃ r m', MediaFoundationDecoder_reset m = Some (r, m') ∧ (r = Ok tt → front_inv m' []).
Proof.
  intros (Ho & Hb & Hg & width & height & out & Hw & Hh & Ht).
  unfold MediaFoundationDecoder_reset.
  destruct (NativeDecoder_reset (mf_worker m)) as [r d] eqn:Er.
  destruct (front_request (mkMediaFoundationDecoder (DecoderGate_reset (mf_gate m)) (mf_front m))
    Command_Reset) as (o & m' & -> & Hgm & Hcase); [done|done|cbn; rewrite Er; by eexists|].
  cbn [mbind option_bind]. eexists _, _. split; [done|].
  destruct Hcase as [->|(reply & -> & Hi & Hc & Ed)]; [by intros ?|].
  cbn in Ed. rewrite Er in Ed. injection Ed as <- Ew. intros ->.
  destruct (decoder_op_wf transform_wf width height _ Decoder_Reset Hw Hh Ht) as (t' & Et & Ht').
  cbn in Et. rewrite Er in Et. injection Et as <-.
  unfold NativeDecoder_reset in Er. destruct (mft_flush _); [|done]. injection Er as <-.
  unfold front_inv. rewrite Hgm, <-Ew. split_and!; [done|done|done|]. by eauto 10.
Qed.

Definition front_laws : PipelineDecoderLaws (MediaFoundationDecoder T).
Proof.
  refine {| pd_inv := front_inv |}.
  - intros d js j Hi. destruct (front_decode d js j Hi) as (r & m' & E & _).
    destruct (front_reset d js Hi) as (r' & m'' & E' & _). cbn. by rewrite E, E'.
  - intros d js j r d' Hi E Hr. destruct (front_decode d js j Hi) as (r0 & m' & E' & Hok).
    cbn in E. rewrite E in E'. injection E' as <- <-. by apply Hok.
  - intros d js d' Hi E. destruct (front_reset d js Hi) as (r0 & m' & E' & Hok).
    cbn in E. rewrite E in E'. injection E' as <- <-. by apply Hok.
  - intros d j js (_ & _ & _ & width & height & out & _ & _ & Ht). by eapply Ht.
Defined.
End front_laws.

(** ** Nothing decoded before a reconnect is presented after it *)

Section safety.
Context {D : Type} `{PipelineDecoderLaws D}.

(** The pipeline with the jobs submitted so far and the generation of each.  The runtime
    and the worker take turns in any order; the counter does not reach its width. *)
Abbreviation hist := (list (Z * DecodedFrameJob)).
Inductive pipeline_step : hist * NativePipeline D → hist * NativePipeline D → Prop :=
  | step_submit h p job p' :
      NativePipeline_submit p job = (Ok tt, p') →
      pipeline_step (h, p) (h ++ [(np_generation p, job)], p')
  | step_submit_error h p job e p' :
      NativePipeline_submit p job = (Err e, p') → pipeline_step (h, p) (h, p')
  | step_reset_generation h p :
      np_generation p < u64_max → pipeline_step (h, p) (h, reset_generation p)
  | step_reset_slot h p : pipeline_step (h, p) (h, reset_slot p)
  | step_poll h p : pipeline_step (h, p) (h, snd (poll_error p))
  | step_stop h p : pipeline_step (h, p) (h, NativePipeline_stop p)
  | step_worker h p present p' :
      worker_step present p = Some p' → pipeline_step (h, p) (h, p').

(** The surface is of a job submitted under generation [g], whose stream started there. *)
Definition of_generation (h : hist) (g : Z) (s : DecodedSurface) : Prop :=
  (∃ j, (g, j) ∈ h ∧ surface_meta s = job_meta j) ∧ ∃ j, (g, j) ∈ h ∧ starts_stream j.

Definition phase_ok (h : hist) (generation worker : Z) (phase : WorkerPhase) : Prop :=
  match phase with
  | Worker_Waiting | Worker_Finished => True
  | Worker_Taken p => (pj_generation p, pj_job p) ∈ h ∧ pj_generation p ≤ generation
  | Worker_Decoding p => (pj_generation p, pj_job p) ∈ h ∧ pj_generation p = worker
  | Worker_Decoded g s | Worker_Presenting g s => of_generation h g s
  end.

Record pipeline_inv (h : hist) (p : NativePipeline D) : Prop := {
  pi_generation : np_worker_generation p ≤ np_generation p ∧ uint 64 (np_generation p);
  pi_pending : ∀ j, np_pending p = Some j →
    (pj_generation j, pj_job j) ∈ h ∧ pj_generation j ≤ np_generation p;
  pi_phase : phase_ok h (np_generation p) (np_worker_generation p) (np_phase p);
  pi_decoder : np_phase p ≠ Worker_Finished →
    ∃ js, pd_inv (np_decoder p) js ∧ ∀ j, j ∈ js → (np_worker_generation p, j) ∈ h;
  pi_presented : ∀ g s, (g, s) ∈ np_presented p → of_generation h g s
}.

Lemma of_generation_app h k g s : of_generation h g s → of_generation (h ++ k) g s.
Proof. intros [(j & ? & ?) (j' & ? & ?)]. split; [exists j|exists j']; set_solver. Qed.
Lemma phase_ok_app h k g w phase : phase_ok h g w phase → phase_ok (h ++ k) g w phase.
Proof. destruct phase; cbn; auto using of_generation_app; set_solver. Qed.
Lemma pipeline_inv_app h k p : pipeline_inv h p → pipeline_inv (h ++ k) p.
Proof.
  intros []. split; [done|set_solver|by apply phase_ok_app| |auto using of_generation_app].
  intros Hf. destruct (pi_decoder0 Hf) as (js & ? & Hin). exists js. set_solver.
Qed.

Lemma submit_inv h p job r p' :
  pipeline_inv h p → NativePipeline_submit p job = (r, p') →
  pipeline_inv (match r with Ok _ => h ++ [(np_generation p, job)] | Err _ => h end) p'.
Proof.
  intros Hp. unfold NativePipeline_submit, poll_error. destruct (np_errors p) as [|e errors].
  - destruct (np_phase p) eqn:Ep; intros [= <- <-]; try done;
      apply (pipeline_inv_app _ [(np_generation p, job)]) in Hp;
      destruct Hp; split; try done; cbn; intros j [= <-]; cbn; set_solver by lia.
  - intros [= <- <-]. destruct Hp. by split.
Qed.

Lemma worker_step_inv h p present p' :
  pipeline_inv h p → worker_step present p = Some p' → pipeline_inv h p'.
Proof.
  intros Hp. pose proof Hp as [Hgen Hpend Hphase Hdec Hpres]. unfold worker_step.
  destruct (np_phase p) as [|job|job|g s|g s|] eqn:Ep; cbn in Hphase.
  - destruct (np_stop p); [intros [= <-]; split; [done..|by intros []|done]|].
    destruct (np_pending p) as [job|] eqn:Ej; intros [= <-]; [|done].
    split; try done; [by apply Hpend|]. intros _. by apply Hdec.
  - unfold stale_native_job. destruct (_ || _) eqn:Es;
      [intros [= <-]; split; [done..|intros _; by apply Hdec|done]|].
    destruct (Z.ltb_spec (np_worker_generation p) (pj_generation job)) as [Hlt|Hge].
    + destruct (pd_reset (np_decoder p)) as [[[[]|e] d]|] eqn:Er; [| |done]; cbn; intros [= <-].
      * split; [cbn; split; [lia|apply Hgen]|done|by split; [apply Hphase|]| |done]. intros _.
        destruct Hdec as (js & Hi & _); [done|].
        exists []. split; [by eapply pd_inv_reset|set_solver].
      * split; [done..|by intros []|done].
    + intros [= <-]. split; try done; [cbn; split; [apply Hphase|lia]|intros _; by apply Hdec].
  - destruct Hdec as (js & Hi & Hjs); [done|]. destruct Hphase as [Hin Hg].
    destruct (pd_decode (np_decoder p) (pj_job job)) as [[r d]|] eqn:Er; [|done].
    cbn [mbind option_bind].
    assert (recoverable r → ∃ js', pd_inv d js' ∧ (∀ j, j ∈ js' → (np_worker_generation p, j) ∈ h) ∧
      ∀ s, r = Ok (Some s) → of_generation h (pj_generation job) s) as Hok.
    { intros Hr. destruct (pd_inv_decode _ _ _ _ _ Hi Er Hr) as (js' & Hjs' & Hi' & Hs).
      assert (∀ j, j ∈ js' → (np_worker_generation p, j) ∈ h) as Hall.
      { rewrite <-Hg. rewrite <-Hg in Hjs. destruct Hjs' as [-> | ->]; set_solver. }
      exists js'. split_and!; [done|done|]. intros s ->. specialize (Hs s eq_refl).
      apply list_elem_of_fmap in Hs as (j & Hm & Hj). rewrite Hg. split; [eauto|].
      destruct js' as [|j0 js']; [by apply not_elem_of_nil in Hj|]. exists j0.
      split; [apply Hall; left|by eapply pd_inv_start]. }
    destruct r as [[s|]|e]; [| |destruct e]; intros [= <-];
      try (split; [done|done|done|by intros []|done]);
      (destruct Hok as (js' & ? & ? & Hs); [done|]); split; cbn; try done; eauto.
  - destruct (g =? np_generation p); intros [= <-]; (split; [done..|intros _; by apply Hdec|done]).
  - destruct (present s); intros [= <-];
      [split; [done..|intros _; by apply Hdec|]|split; [done..|by intros []|done]]; cbn.
    intros g' s' [Hin|[= -> ->]%list_elem_of_singleton]%elem_of_app; [by apply Hpres|done].
  - by intros [= <-].
Qed.

Lemma pipeline_step_inv x y :
  pipeline_step x y → pipeline_inv (fst x) (snd x) → pipeline_inv (fst y) (snd y).
Proof.
  intros [h p job p' E|h p job e p' E|h p Hlt|h p|h p|h p|h p present p' E] Hp; cbn in *.
  - by apply (submit_inv _ _ _ _ _ Hp) in E.
  - by apply (submit_inv _ _ _ _ _ Hp) in E.
  - destruct Hp. assert (wrap 64 (np_generation p + 1) = np_generation p + 1) as Hwrap.
    { apply wrap_small. unfold uint, u64_max in *. lia. }
    split; cbn; rewrite ?Hwrap; try done; [unfold uint, u64_max in *; lia| |].
    + intros j Hj. destruct (pi_pending0 j Hj). split; [done|lia].
    + destruct (np_phase p); cbn in *; try done. split; [apply pi_phase0|lia].
  - destruct Hp. by split.
  - unfold poll_error. destruct (np_errors p); [done|]. destruct Hp. by split.
  - destruct Hp. by split.
  - by eapply worker_step_inv.
Qed.

Lemma pipeline_reachable_inv d h p :
  pd_inv d [] → rtc pipeline_step ([], NativePipeline_start d) (h, p) → pipeline_inv h p.
Proof.
  intros Hd Hsteps. change (pipeline_inv (fst (h, p)) (snd (h, p))).
  assert (pipeline_inv (fst (@nil (Z * DecodedFrameJob), NativePipeline_start d))
    (snd (@nil (Z * DecodedFrameJob), NativePipeline_start d))) as Hstart.
  { split; cbn; [by split|done|done| |set_solver]. intros _. exists []. split; [done|set_solver]. }
  revert Hstart. induction Hsteps as [|x y z Hxy _ IH]; [done|]. intros Hx.
  by eapply IH, pipeline_step_inv.
Qed.

(** C22. Reconnects and the native pipeline, for every interleaving of submissions,
    reconnect resets and the worker: the worker never panics; a surface starts to be
    presented only when it stems from a job submitted since the latest reset, under a
    stream that started with a keyframe and sequence header since then; and everything
    presented was such a surface when it was checked. *)
Theorem pipeline_presents_current (d : D) (h : hist) (p : NativePipeline D) :
  pd_inv d [] → rtc pipeline_step ([], NativePipeline_start d) (h, p) →
  (∀ present, is_Some (worker_step present p)) ∧
  (∀ present p' g s, worker_step present p = Some p' →
     np_phase p ≠ np_phase p' → np_phase p' = Worker_Presenting g s →
     g = np_generation p ∧ of_generation h (np_generation p) s) ∧
  (∀ g s, (g, s) ∈ np_presented p → of_generation h g s).
Proof.
  intros Hd Hsteps. pose proof (pipeline_reachable_inv _ _ _ Hd Hsteps) as [Hgen Hpend Hphase Hdec Hpres].
  split_and!; [| |done].
  - intros present. unfold worker_step. destruct (np_phase p) as [|job|job|g s|g s|] eqn:Ep.
    + destruct (np_stop p); [done|]. by destruct (np_pending p).
    + destruct (stale_native_job _ _ _); [done|]. destruct (_ <? _); [|done].
      destruct Hdec as (js & Hi & _); [done|].
      destruct (pd_total _ _ (pj_job job) Hi) as [_ [[r d'] ->]]. by destruct r.
    + destruct Hdec as (js & Hi & _); [done|].
      destruct (pd_total _ _ (pj_job job) Hi) as [[[r d'] ->] _]. cbn.
      by destruct r as [[s|]|[]].
    + by destruct (_ =? _).
    + by destruct (present s).
    + done.
  - intros present p' g s Hw Hne Hp'. unfold worker_step in Hw.
    destruct (np_phase p) as [|job|job|g0 s0|g0 s0|] eqn:Ep.
    + destruct (np_stop p); [by simplify_eq|]. by destruct (np_pending p); simplify_eq.
    + destruct (stale_native_job _ _ _); [by simplify_eq|]. destruct (_ <? _); [|by simplify_eq].
      by destruct (pd_reset _) as [[[[]|e] d']|]; cbn in Hw; simplify_eq.
    + by destruct (pd_decode _ _) as [[[[s1|]|[]] d']|]; cbn in Hw; simplify_eq.
    + destruct (Z.eqb_spec g0 (np_generation p)); simplify_eq. cbn in Hp'. by simplify_eq.
    + by destruct (present s0); simplify_eq.
    + by simplify_eq.
Qed.

(** How many actions the worker has left once it is told to stop. *)
Definition phase_rank (phase : WorkerPhase) : nat :=
  match phase with
  | Worker_Finished => 0 | Worker_Waiting => 1 | Worker_Presenting _ _ => 2
  | Worker_Decoded _ _ => 3 | Worker_Decoding _ => 4 | Worker_Taken _ => 5
  end.
Definition worker_steps (n : nat) (present : DecodedSurface → result DecoderError unit)
    (p : NativePipeline D) : option (NativePipeline D) :=
  for_each (seq 0 n) (λ p _, worker_step present p) p.

Lemma worker_step_rank h p present :
  pipeline_inv h p → np_stop p = true →
  ∃ p', worker_step present p = Some p' ∧ np_stop p' = true ∧
    (phase_rank (np_phase p') ≤ phase_rank (np_phase p) - 1)%nat.
Proof.
  intros [_ _ _ Hdec _] Hs. unfold worker_step.
  destruct (np_phase p) as [|job|job|g s|g s|] eqn:Ep; rewrite ?Hs.
  - eexists. split; [done|]. cbn. split; [done|lia].
  - destruct (stale_native_job _ _ _); [eexists; split; [done|]; cbn; split; [done|lia]|].
    destruct (_ <? _); [|eexists; split; [done|]; cbn; split; [done|lia]].
    destruct Hdec as (js & Hi & _); [done|].
    destruct (pd_total _ _ (pj_job job) Hi) as [_ [[r d'] ->]]. cbn.
    destruct r; eexists; (split; [done|]); cbn; (split; [done|lia]).
  - destruct Hdec as (js & Hi & _); [done|].
    destruct (pd_total _ _ (pj_job job) Hi) as [[[r d'] ->] _]. cbn.
    destruct r as [[s|]|[]]; eexists; (split; [done|]); cbn; (split; [done|lia]).
  - destruct (_ =? _); eexists; (split; [done|]); cbn; (split; [done|lia]).
  - destruct (present s); eexists; (split; [done|]); cbn; (split; [done|lia]).
  - eexists. split; [done|]. rewrite Ep. cbn. split; [done|lia].
Qed.

(** The worker ends: from every reachable state in which it has been told to stop,
    whatever it is doing and whatever the renderer answers, it finishes within five of
    its actions. *)
Theorem pipeline_worker_stops (d : D) (h : hist) (p : NativePipeline D)
    (present : DecodedSurface → result DecoderError unit) :
  pd_inv d [] → rtc pipeline_step ([], NativePipeline_start d) (h, p) → np_stop p = true →
  ∃ p', worker_steps 5 present p = Some p' ∧ np_phase p' = Worker_Finished.
Proof.
  intros Hd Hsteps Hs. pose proof (pipeline_reachable_inv _ _ _ Hd Hsteps) as Hp. clear Hsteps.
  cut (∀ l : list nat, (phase_rank (np_phase p) ≤ length l)%nat →
    ∃ p', for_each l (λ p _, worker_step present p) p = Some p' ∧ phase_rank (np_phase p') = 0%nat).
  { intros Hl. destruct (Hl (seq 0 5)) as (p' & E & Hr).
    - rewrite length_seq. destruct (np_phase p); cbn; lia.
    - exists p'. split; [done|]. by destruct (np_phase p'). }
  intros l. revert p Hp Hs. induction l as [|n l IH]; intros p Hp Hs Hl; cbn in *.
  { exists p. split; [done|lia]. }
  destruct (worker_step_rank h p present Hp Hs) as (p1 & E & Hs1 & Hr). rewrite E. cbn.
  apply IH; [by eapply worker_step_inv|done|lia].
Qed.
End safety.

(** ** The pipeline over the echo transform *)

Lemma echo_wf t b1 b2 s buffer t' :
  @mft_process_output _ echo_transform t = (Output_Ok b1 b2 (Some s), t') →
  sample_buffer s = Some buffer → buffer_wf buffer.
Proof.
  intros E Hb. cbn in E. destruct t as [|hns t]; [discriminate|].
  injection E as <- <- <- <-. cbn in Hb. by injection Hb as <-.
Qed.
Abbreviation echo_front := (MediaFoundationDecoder (list Z)).
Definition echo_laws : @PipelineDecoderLaws echo_front (@front_decoder _ echo_transform) :=
  @front_laws _ echo_transform echo_wf.
Definition echo_start : echo_front :=
  mkMediaFoundationDecoder false (front_new (mkNativeDecoder [] 2 2 false [] []) []).
Lemma echo_start_inv : @front_inv _ echo_start [].
Proof.
  split_and!; [done..|]. exists 2, 2, []. split_and!; [by unfold uint..|].
  split; [by split|..]; cbn; [constructor|constructor|by split|done].
Qed.

(** The pipeline after a job, a reconnect, a second job and the worker's turns. *)
Definition echo_job (id : Z) : DecodedFrameJob :=
  mkDecodedFrameJob id 1000 true [x00; x00; x01; x67; x42].
Definition echo_turn (p : NativePipeline echo_front) : NativePipeline echo_front :=
  default p (@worker_step _ (@front_decoder _ echo_transform) (λ _, Ok tt) p).
Definition echo_run : NativePipeline echo_front :=
  let p := snd (NativePipeline_submit (NativePipeline_start echo_start) (echo_job 1)) in
  let p := reset_slot (reset_generation (echo_turn p)) in
  let p := snd (NativePipeline_submit p (echo_job 2)) in
  Nat.iter 6 echo_turn p.

Lemma echo_turn_step h p :
  is_Some (@worker_step _ (@front_decoder _ echo_transform) (λ _, Ok tt) p) →
  @pipeline_step _ (@front_decoder _ echo_transform) (h, p) (h, echo_turn p).
Proof. intros [p' E]. apply step_worker with (λ _, Ok tt). unfold echo_turn. by rewrite E. Qed.

Lemma echo_submit_step h p job g :
  fst (NativePipeline_submit p job) = Ok tt → np_generation p = g →
  @pipeline_step _ (@front_decoder _ echo_transform) (h, p)
    (h ++ [(g, job)], snd (NativePipeline_submit p job)).
Proof.
  intros E <-. apply step_submit. destruct (NativePipeline_submit p job). cbn in *. by subst.
Qed.

Lemma echo_run_reachable :
  rtc (@pipeline_step _ (@front_decoder _ echo_transform)) ([], NativePipeline_start echo_start)
    ([(0, echo_job 1); (1, echo_job 2)], echo_run).
Proof.
  eapply rtc_l; [apply (echo_submit_step [] _ (echo_job 1) 0); vm_compute; reflexivity|].
  eapply rtc_l; [apply echo_turn_step; vm_compute; eauto|].
  eapply rtc_l; [apply step_reset_generation; vm_compute; reflexivity|].
  eapply rtc_l; [apply step_reset_slot|].
  eapply rtc_l; [apply (echo_submit_step _ _ (echo_job 2) 1); vm_compute; reflexivity|].
  unfold echo_run. cbv zeta. cbn [app]. set (p := snd (NativePipeline_submit _ (echo_job 2))).
  cbn [Nat.iter nat_rect]. do 6 (eapply rtc_l; [apply echo_turn_step; vm_compute; eauto|]).
  apply rtc_refl.
Qed.

Lemma pipeline_presents_current_witness :
  (fst <$> np_presented echo_run) = [1] ∧
  ∀ g s, (g, s) ∈ np_presented echo_run →
    of_generation [(0, echo_job 1); (1, echo_job 2)] g s.
Proof.
  split; [vm_compute; reflexivity|].
  apply (@pipeline_presents_current _ _ echo_laws echo_start);
    [exact echo_start_inv|exact echo_run_reachable].
Defined.
Lemma pipeline_worker_stops_witness :
  ∃ p', @worker_steps _ (@front_decoder _ echo_transform) 5 (λ _, Ok tt)
      (NativePipeline_stop echo_run) = Some p' ∧ np_phase p' = Worker_Finished.
Proof.
  apply (@pipeline_worker_stops _ _ echo_laws echo_start [(0, echo_job 1); (1, echo_job 2)]);
    [exact echo_start_inv| |reflexivity].
  eapply rtc_r; [exact echo_run_reachable|apply step_stop].
Defined.
