(* ===== verification/Runtime.v ===== *)
(** * The client runtime (apps/nexus-client/src/runtime.rs)

    [ClientRuntime] owns the connection, the session, the receiver, the window, the input
    controller and the native pipeline of a Windows client, and composes them in its event
    loop.  An iteration of [run] takes the branch of the select that became ready, with
    the clocks it reads and what the transport answers; [None] is a panic.  The QUIC
    connection is the datagrams sent so far and whether it was closed. *)

From S2P Require Import Prelude RustStr Crypto Common Protocol Control SessionState Replay Verifier Relay VideoPacket VideoTransport ClientReceiver ClientSession Input Window Surface Decoder Pipeline.

Open Scope Z_scope.

(** ** Bootstrap values *)

(** [u8::from_str_radix(pair, 16)]: an optional plus sign, then digits. *)
Definition hex_value (b : byte) : option Z :=
  let c := of_byte b in
  if (48 <=? c) && (c <=? 57) then Some (c - 48) else
  if (97 <=? c) && (c <=? 102) then Some (c - 87) else
  if (65 <=? c) && (c <=? 70) then Some (c - 55) else None.
Definition u8_from_hex (pair : bytes) : option byte :=
  match pair with
  | [a; b] =>
      if of_byte a =? 43 then to_byte <$> hex_value b
      else x ← hex_value a; y ← hex_value b; Some (to_byte (x * 16 + y))
  | [b] => to_byte <$> hex_value b
  | _ => None
  end.

Inductive HexError := Hex_NotAscii | Hex_OddLength | Hex_NotHexadecimal.
Definition decode_hex (value : string) : result HexError bytes :=
  let b := as_bytes value in
  guard! negb (forallb (λ c, of_byte c <? 128) b) else Hex_NotAscii ;;
  guard! negb (len b mod 2 =? 0) else Hex_OddLength ;;
  ok_or (mapM u8_from_hex (chunks 2 b)) Hex_NotHexadecimal.

Record VideoStreamConfig := mkVideoStreamConfig { vs_width : Z; vs_height : Z }.

(** ** Errors *)

(** [quinn::ConnectionError], by its variants. *)
Inductive ConnectionError :=
  | Conn_VersionMismatch | Conn_TransportError | Conn_ConnectionClosed | Conn_ApplicationClosed
  | Conn_Reset | Conn_TimedOut | Conn_LocallyClosed | Conn_CidsExhausted.

Inductive ClientRuntimeError :=
  | Runtime_Window (e : WindowError)
  | Runtime_Input (e : InputControllerError)
  | Runtime_Receiver (e : ClientReceiverError)
  | Runtime_Transport (e : ConnectionError)
  | Runtime_Connect
  | Runtime_Session (e : ClientError)
  | Runtime_Decoder (e : DecoderError)
  | Runtime_SendDatagram
  | Runtime_Shutdown
  | Runtime_ShutdownTimeout
  | Runtime_InvalidStreamDimensions.

Definition VideoStreamConfig_validate (c : VideoStreamConfig) : result ClientRuntimeError unit :=
  guard! (vs_width c =? 0) || (vs_height c =? 0) || (7680 <? vs_width c) || (4320 <? vs_height c)
      || negb (is_even (vs_width c)) || negb (is_even (vs_height c))
    else Runtime_InvalidStreamDimensions ;;
  Ok tt.
Definition VideoStreamConfig_new (width height : Z) : result ClientRuntimeError VideoStreamConfig :=
  let config := mkVideoStreamConfig width height in
  _ ← VideoStreamConfig_validate config;
  Ok config.

(** ** State *)

(** [cn_sent] keeps what was sent on the connections this one replaced. *)
Record Connection := mkConnection { cn_id : Z; cn_closed : bool; cn_sent : list bytes }.
Definition Connection_close (c : Connection) : Connection :=
  mkConnection (cn_id c) true (cn_sent c).

Record RuntimeSummary := mkRuntimeSummary { sum_received_frames : Z; sum_sent_input_messages : Z }.

(** The render queue the runtime holds is the window's. *)
Record ClientRuntime (D : Type) := mkClientRuntime {
  rt_connection : Connection;
  rt_session : ClientSession;
  rt_receiver : ClientReceiver;
  rt_window : WindowShared;
  rt_input : InputController;
  rt_received_frames : Z;
  rt_sent_input_messages : Z;
  rt_latest_frame : option DecodedFrameJob;
  rt_latest_cursor : option CursorPosition;
  rt_latest_cursor_shape : option CursorShape;
  rt_pipeline : NativePipeline D;
  rt_cancelled : bool;
  rt_shutdown : bool
}.
Arguments mkClientRuntime {D} _ _ _ _ _ _ _ _ _ _ _ _ _.
Arguments rt_connection {D} _.
Arguments rt_session {D} _.
Arguments rt_receiver {D} _.
Arguments rt_window {D} _.
Arguments rt_input {D} _.
Arguments rt_received_frames {D} _.
Arguments rt_sent_input_messages {D} _.
Arguments rt_latest_frame {D} _.
Arguments rt_latest_cursor {D} _.
Arguments rt_latest_cursor_shape {D} _.
Arguments rt_pipeline {D} _.
Arguments rt_cancelled {D} _.
Arguments rt_shutdown {D} _.

(** What the transport did with a connection attempt. *)
Inductive ConnectOutcome :=
  | Connect_Rejected
  | Connect_Cancelled
  | Connect_Failed (e : ConnectionError)
  | Connect_Ok (id : Z).

(** A reconnect attempt as the runtime sees it: whether cancellation is seen first, the
    clock, the outcome, the clock after it, and whether the following sleep is cancelled. *)
Record ConnectAttempt := mkConnectAttempt {
  at_cancelled : bool;
  at_now : Z;
  at_outcome : ConnectOutcome;
  at_then : Z;
  at_sleep_cancelled : bool
}.

Section runtime.
Context {D : Type} `{Ed25519} `{Prost SessionCapability} `{Aead} `{InputProst}
  `{Prost CursorPosition, Prost CursorShape}.
Abbreviation runtime := (ClientRuntime D).

(** Assignments to fields. *)
Definition rt_set_session (rt : runtime) (s : ClientSession) : runtime :=
  mkClientRuntime (rt_connection rt) s (rt_receiver rt) (rt_window rt) (rt_input rt)
    (rt_received_frames rt) (rt_sent_input_messages rt) (rt_latest_frame rt) (rt_latest_cursor rt)
    (rt_latest_cursor_shape rt) (rt_pipeline rt) (rt_cancelled rt) (rt_shutdown rt).
Definition rt_set_receiver (rt : runtime) (rx : ClientReceiver) : runtime :=
  mkClientRuntime (rt_connection rt) (rt_session rt) rx (rt_window rt) (rt_input rt)
    (rt_received_frames rt) (rt_sent_input_messages rt) (rt_latest_frame rt) (rt_latest_cursor rt)
    (rt_latest_cursor_shape rt) (rt_pipeline rt) (rt_cancelled rt) (rt_shutdown rt).
Definition rt_set_window (rt : runtime) (w : WindowShared) : runtime :=
  mkClientRuntime (rt_connection rt) (rt_session rt) (rt_receiver rt) w (rt_input rt)
    (rt_received_frames rt) (rt_sent_input_messages rt) (rt_latest_frame rt) (rt_latest_cursor rt)
    (rt_latest_cursor_shape rt) (rt_pipeline rt) (rt_cancelled rt) (rt_shutdown rt).
Definition rt_set_input (rt : runtime) (c : InputController) : runtime :=
  mkClientRuntime (rt_connection rt) (rt_session rt) (rt_receiver rt) (rt_window rt) c
    (rt_received_frames rt) (rt_sent_input_messages rt) (rt_latest_frame rt) (rt_latest_cursor rt)
    (rt_latest_cursor_shape rt) (rt_pipeline rt) (rt_cancelled rt) (rt_shutdown rt).
Definition rt_set_pipeline (rt : runtime) (p : NativePipeline D) : runtime :=
  mkClientRuntime (rt_connection rt) (rt_session rt) (rt_receiver rt) (rt_window rt) (rt_input rt)
    (rt_received_frames rt) (rt_sent_input_messages rt) (rt_latest_frame rt) (rt_latest_cursor rt)
    (rt_latest_cursor_shape rt) p (rt_cancelled rt) (rt_shutdown rt).
Definition rt_set_connection (rt : runtime) (c : Connection) : runtime :=
  mkClientRuntime c (rt_session rt) (rt_receiver rt) (rt_window rt) (rt_input rt)
    (rt_received_frames rt) (rt_sent_input_messages rt) (rt_latest_frame rt) (rt_latest_cursor rt)
    (rt_latest_cursor_shape rt) (rt_pipeline rt) (rt_cancelled rt) (rt_shutdown rt).
Definition rt_set_latest (rt : runtime) (f : option DecodedFrameJob) (c : option CursorPosition)
    (s : option CursorShape) : runtime :=
  mkClientRuntime (rt_connection rt) (rt_session rt) (rt_receiver rt) (rt_window rt) (rt_input rt)
    (rt_received_frames rt) (rt_sent_input_messages rt) f c s (rt_pipeline rt) (rt_cancelled rt)
    (rt_shutdown rt).
Definition rt_set_counts (rt : runtime) (received sent : Z) : runtime :=
  mkClientRuntime (rt_connection rt) (rt_session rt) (rt_receiver rt) (rt_window rt) (rt_input rt)
    received sent (rt_latest_frame rt) (rt_latest_cursor rt) (rt_latest_cursor_shape rt)
    (rt_pipeline rt) (rt_cancelled rt) (rt_shutdown rt).
(** The shared render queue of the window. *)
Definition rt_set_render (rt : runtime) (q : RenderQueueState) : runtime :=
  let w := rt_window rt in
  rt_set_window rt (ws_with w (ws_commands w) (ws_control w) (ws_normal w) q (ws_native_handle w)
    (ws_running w)).

(** *** Closing *)

Definition fail_closed (rt : runtime) : runtime :=
  let rt := rt_set_session rt (snd (expire (rt_session rt))) in
  let rt := rt_set_input rt (InputController_expire (rt_input rt)) in
  let rt := rt_set_render rt (RenderQueue_shutdown (ws_render (rt_window rt))) in
  let rt := rt_set_latest rt None None None in
  let rt := rt_set_connection rt (Connection_close (rt_connection rt)) in
  let rt := rt_set_pipeline rt (NativePipeline_stop (rt_pipeline rt)) in
  let rt := rt_set_window rt (request_shutdown (rt_window rt)) in
  mkClientRuntime (rt_connection rt) (rt_session rt) (rt_receiver rt) (rt_window rt) (rt_input rt)
    (rt_received_frames rt) (rt_sent_input_messages rt) (rt_latest_frame rt) (rt_latest_cursor rt)
    (rt_latest_cursor_shape rt) (rt_pipeline rt) true true.

(** [shutdown]; [stopped]: both workers ended before the deadline. *)
Definition ClientRuntime_shutdown (rt : runtime) (stopped : bool) :
    result ClientRuntimeError unit * runtime :=
  if rt_shutdown rt then (Ok tt, rt) else
  (if stopped then Ok tt else Err Runtime_ShutdownTimeout, fail_closed rt).

Definition ClientRuntime_request_shutdown (rt : runtime) : runtime :=
  let rt := rt_set_connection rt (Connection_close (rt_connection rt)) in
  mkClientRuntime (rt_connection rt) (rt_session rt) (rt_receiver rt) (rt_window rt) (rt_input rt)
    (rt_received_frames rt) (rt_sent_input_messages rt) (rt_latest_frame rt) (rt_latest_cursor rt)
    (rt_latest_cursor_shape rt) (rt_pipeline rt) true (rt_shutdown rt).

(** *** Window events and input *)

(** An input event of a session without control is dropped. *)
Definition input_event_dropped (rt : runtime) (event : WindowEvent) : bool :=
  match event with Window_Input _ => negb (can_control (rt_session rt)) | _ => false end.

Definition ClientRuntime_handle_window_event (rt : runtime) (event : WindowEvent) (now : Z) :
    option (result ClientRuntimeError unit * runtime) :=
  if rt_shutdown rt then Some (Err Runtime_Shutdown, rt) else
  if input_event_dropped rt event then Some (Ok tt, rt) else
  '(r, c) ← handle_window_event (rt_input rt) event now;
  let rt := rt_set_input rt c in
  match r with
  | Err e => Some (Err (Runtime_Input e), rt)
  | Ok _ =>
      if is_closed_event event then Some (Err Runtime_Shutdown, fail_closed rt)
      else Some (Ok tt, rt)
  end.

(** The loop over the queued events; [clock] gives the instant of each event. *)
Fixpoint pump_events (fuel : nat) (clock : nat → Z) (rt : runtime) :
    option (result ClientRuntimeError unit * runtime) :=
  match fuel with
  | O => Some (Ok tt, rt)
  | S fuel =>
      match try_next_event (rt_window rt) with
      | (None, _) => Some (Ok tt, rt)
      | (Some event, w) =>
          let rt := rt_set_window rt w in
          if input_event_dropped rt event then pump_events fuel clock rt else
          '(r, c) ← handle_window_event (rt_input rt) event (clock fuel);
          let rt := rt_set_input rt c in
          match r with
          | Err e => Some (Err (Runtime_Input e), rt)
          | Ok _ =>
              if is_closed_event event then Some (Err Runtime_Shutdown, fail_closed rt)
              else pump_events fuel clock rt
          end
      end
  end.
(** The queues hold what is pumped: an iteration ends when they are empty. *)
Definition queued_events (w : WindowShared) : nat := (length (ws_control w) + length (ws_normal w))%nat.
Definition pump_window_events (clock : nat → Z) (rt : runtime) :
    option (result ClientRuntimeError unit * runtime) :=
  pump_events (S (queued_events (rt_window rt))) clock rt.

(** [sent]: the transport takes the datagram. *)
Definition pump_input (rt : runtime) (sent : bool) : result ClientRuntimeError unit * runtime :=
  if negb (can_control (rt_session rt))
  then (Ok tt, rt_set_input rt (clear_pending (rt_input rt))) else
  match try_next_control (rt_input rt) with
  | (None, _) => (Ok tt, rt)
  | (Some control, c) =>
      let rt := rt_set_input rt c in
      if negb sent then (Err Runtime_SendDatagram, rt) else
      let cn := rt_connection rt in
      let rt := rt_set_connection rt (mkConnection (cn_id cn) (cn_closed cn) (cn_sent cn ++ [control])) in
      (Ok tt, rt_set_counts rt (rt_received_frames rt)
                (saturating_add u64_max (rt_sent_input_messages rt) 1))
  end.

(** *** Datagrams *)

Definition accept_inbound_datagram (rt : runtime) (b : bytes) :
    result ClientRuntimeError unit * runtime :=
  if is_ok (decode_video_datagram b) then
    let '(r, rx) := accept_datagram (rt_receiver rt) b in
    (map_err Runtime_Receiver r, rt_set_receiver rt rx)
  else
    match accept_control_datagram (rt_receiver rt) b with
    | Ok (Event_CursorPosition cursor) =>
        (Ok tt, rt_set_latest rt (rt_latest_frame rt) (Some cursor) (rt_latest_cursor_shape rt))
    | Ok (Event_CursorShape shape) =>
        (Ok tt, rt_set_latest rt (rt_latest_frame rt) (rt_latest_cursor rt) (Some shape))
    | Err e => (Err (Runtime_Receiver e), rt)
    end.

(** The handover of a published frame to the window's slot and on to the pipeline. *)
Definition present_frame (rt : runtime) : result ClientRuntimeError unit * runtime :=
  let '(frame, rx) := drain_latest_frame (rt_receiver rt) in
  let rt := rt_set_receiver rt rx in
  match frame with
  | None => (Ok tt, rt)
  | Some frame =>
      let rt := rt_set_latest rt (Some frame) (rt_latest_cursor rt) (rt_latest_cursor_shape rt) in
      let '(r, w) := render_latest (rt_window rt) frame in
      let rt := rt_set_window rt w in
      match r with
      | Err e => (Err (Runtime_Window e), rt)
      | Ok _ =>
          let '(render_job, q) := take_latest (ws_render (rt_window rt)) in
          let rt := rt_set_render rt q in
          let '(r, rt) := match render_job with
            | None => (Ok tt, rt)
            | Some job =>
                let '(r, p) := NativePipeline_submit (rt_pipeline rt) job in
                (r, rt_set_pipeline rt p)
            end in
          match r with
          | Err e => (Err (Runtime_Decoder e), rt)
          | Ok _ => (Ok tt, rt_set_counts rt (saturating_add u64_max (rt_received_frames rt) 1)
                              (rt_sent_input_messages rt))
          end
      end
  end.

(** *** The event loop *)

(** The ready branch of the select, with the clock reads of its handler; and, between two
    iterations, what the window thread and the pipeline worker did to the state they share
    with the runtime. *)
Inductive RuntimeEvent :=
  | Rt_Concurrent (w : WindowShared) (p : NativePipeline D)
  | Rt_Cancelled
  | Rt_Datagram (now : Z) (datagram : result ConnectionError bytes) (lost_at : Z)
  | Rt_Poll (now : Z) (clock : nat → Z) (sent : bool).

(** The errors after which the transport may be re-established. *)
Definition reconnectable (e : ConnectionError) : bool :=
  match e with
  | Conn_ConnectionClosed | Conn_ApplicationClosed | Conn_Reset | Conn_LocallyClosed => true
  | _ => false
  end.

Abbreviation iteration := (option (result ClientRuntimeError RuntimeSummary) * runtime)%type.
Definition closed_with (rt : runtime) (e : ClientRuntimeError) : iteration :=
  (Some (Err e), fail_closed rt).

Definition run_datagram (rt : runtime) (now : Z) (datagram : result ConnectionError bytes)
    (lost_at : Z) : iteration :=
  let '(active, s) := ensure_active (rt_session rt) now in
  let rt := rt_set_session rt s in
  match active with
  | Err e => closed_with rt (Runtime_Session e)
  | Ok _ =>
  match datagram with
  | Err e =>
      if reconnectable e then
        if rt_cancelled rt then closed_with rt Runtime_Shutdown else
        let '(lost, s) := transport_lost (rt_session rt) lost_at in
        let rt := rt_set_session rt s in
        match lost with
        | Err e => closed_with rt (Runtime_Session e)
        | Ok _ =>
            let '(reset, p) := reset_for_reconnect (rt_pipeline rt) in
            let rt := rt_set_pipeline rt p in
            match reset with
            | Err e => closed_with rt (Runtime_Decoder e)
            | Ok _ => (Some (Ok (mkRuntimeSummary (rt_received_frames rt)
                                   (rt_sent_input_messages rt))), rt)
            end
        end
      else closed_with rt (Runtime_Transport e)
  | Ok b =>
      match accept_inbound_datagram rt b with
      | (Err e, rt) => closed_with rt e
      | (Ok _, rt) =>
          match present_frame rt with
          | (Err e, rt) => closed_with rt e
          | (Ok _, rt) => (None, rt)
          end
      end
  end end.

Definition run_poll (rt : runtime) (now : Z) (clock : nat → Z) (sent : bool) : option iteration :=
  let '(error, p) := poll_error (rt_pipeline rt) in
  let rt := rt_set_pipeline rt p in
  match error with
  | Some e => Some (closed_with rt (Runtime_Decoder e))
  | None =>
      let '(active, s) := ensure_active (rt_session rt) now in
      let rt := rt_set_session rt s in
      match active with
      | Err e => Some (closed_with rt (Runtime_Session e))
      | Ok _ =>
          '(r, rt) ← pump_window_events clock rt;
          match r with
          | Err e => Some (closed_with rt e)
          | Ok _ =>
              match pump_input rt sent with
              | (Err e, rt) => Some (closed_with rt e)
              | (Ok _, rt) => Some (None, rt)
              end
          end
      end
  end.

(** An iteration of [run]: [None] in the pair continues the loop. *)
Definition run_iteration (rt : runtime) (event : RuntimeEvent) : option iteration :=
  match event with
  | Rt_Concurrent w p => Some (None, rt_set_pipeline (rt_set_window rt w) p)
  | Rt_Cancelled => Some (closed_with rt Runtime_Shutdown)
  | Rt_Datagram now datagram lost_at => Some (run_datagram rt now datagram lost_at)
  | Rt_Poll now clock sent => run_poll rt now clock sent
  end.

(** [run] over the events the loop sees; [Some (None, _)] while it has not returned. *)
Fixpoint run_loop (rt : runtime) (events : list RuntimeEvent) : option iteration :=
  match events with
  | [] => Some (None, rt)
  | e :: events =>
      '(r, rt) ← run_iteration rt e;
      match r with
      | Some r => Some (Some r, rt)
      | None => run_loop rt events
      end
  end.
Definition ClientRuntime_run (rt : runtime) (events : list RuntimeEvent) : option iteration :=
  if rt_shutdown rt || rt_cancelled rt then Some (Some (Err Runtime_Shutdown), rt)
  else run_loop rt events.

(** *** Reconnecting *)

Definition reconnect_attempt (rt : runtime) (a : ConnectAttempt) :
    result ClientRuntimeError unit * runtime :=
  if rt_cancelled rt || at_cancelled a then (Err Runtime_Shutdown, rt) else
  let '(begun, s) := begin_connect (rt_session rt) (at_now a) in
  let rt := rt_set_session rt s in
  match begun with
  | Err e => (Err (Runtime_Session e), rt)
  | Ok _ =>
      let failed e :=
        let '(r, s) := reconnect_attempt_failed (rt_session rt) (at_then a) in
        (match r with Err e' => Err (Runtime_Session e') | Ok _ => Err e end, rt_set_session rt s) in
      match at_outcome a with
      | Connect_Rejected => failed Runtime_Connect
      | Connect_Cancelled => (Err Runtime_Shutdown, rt)
      | Connect_Failed e => failed (Runtime_Transport e)
      | Connect_Ok id =>
          let '(c, s) := connected (rt_session rt) (at_then a) in
          let rt := rt_set_session rt s in
          match c with
          | Err e => (Err (Runtime_Session e), rt)
          | Ok _ =>
              let rt := rt_set_connection rt (mkConnection id false (cn_sent (rt_connection rt))) in
              let rt := rt_set_input rt (clear_pending (rt_input rt)) in
              let rt := rt_set_render rt (RenderQueue_clear (ws_render (rt_window rt))) in
              let rt := rt_set_latest rt None None None in
              let '(reset, p) := reset_for_reconnect (rt_pipeline rt) in
              let rt := rt_set_pipeline rt p in
              match reset with
              | Err e => (Err (Runtime_Decoder e), fail_closed rt)
              | Ok _ => (Ok tt, rt)
              end
          end
      end
  end.

(** [None]: the loop has not returned when the attempts are used up. *)
Fixpoint reconnect_loop (rt : runtime) (attempts : list ConnectAttempt) :
    option (result ClientRuntimeError unit * runtime) :=
  match attempts with
  | [] => None
  | a :: attempts =>
      if rt_cancelled rt || at_cancelled a then Some (Err Runtime_Shutdown, rt) else
      match reconnect_attempt rt a with
      | (Ok _, rt) => Some (Ok tt, rt)
      | (Err e, rt) =>
          if negb (bool_decide (cs_state (rt_session rt) = Client_Reconnecting))
          then Some (Err e, fail_closed rt)
          else if at_sleep_cancelled a then Some (Err Runtime_Shutdown, rt)
          else reconnect_loop rt attempts
      end
  end.
Definition reconnect_with_retry (rt : runtime) (attempts : list ConnectAttempt) :
    option (result ClientRuntimeError unit * runtime) :=
  if rt_shutdown rt then Some (Err Runtime_Shutdown, rt) else reconnect_loop rt attempts.

(** *** Connecting *)

Record ClientConnectConfig := mkClientConnectConfig {
  cc_monitor : MonitorInfo;
  cc_stream : VideoStreamConfig
}.

(** [build]; [hwnd] is the native window the window thread made, [d] the decoder the
    pipeline started. *)
Definition ClientRuntime_build (connection : Connection) (session : ClientSession)
    (frame_key : bytes) (nonce_domain : Z) (monitor : MonitorInfo) (window_config : WindowConfig)
    (hwnd : Z) (d : result DecoderError D) (cancelled : bool) :
    result ClientRuntimeError runtime :=
  match set_cursor_monitor (ClientReceiver_new frame_key nonce_domain) monitor with
  | (Err e, _) => Err (Runtime_Receiver e)
  | (Ok _, receiver) =>
      input ← map_err Runtime_Input (InputController_new monitor);
      window ← map_err Runtime_Window (WindowController_start window_config);
      let window := nw_shared (native_start window hwnd) in
      pipeline ← map_err Runtime_Decoder (
        _ ← ok_or (native_handle window) Decoder_BackendUnavailable;
        NativePipeline_start <$> d);
      Ok (mkClientRuntime connection session receiver window input 0 0 None None None pipeline
            cancelled false)
  end.

(** [connect_with_cancellation]; the attempt gives the cancellation seen first, the
    clocks and the outcome, [cancelled_after] the flag once connected.  The second
    component says whether [endpoint.connect] was called. *)
Definition connect_with_cancellation (config : ClientConnectConfig) (session : ClientSession)
    (frame_key : bytes) (nonce_domain : Z) (a : ConnectAttempt) (cancelled_after : bool) (hwnd : Z)
    (d : result DecoderError D) : result ClientRuntimeError runtime * bool :=
  if at_cancelled a then (Err Runtime_Shutdown, false) else
  match VideoStreamConfig_validate (cc_stream config) with
  | Err e => (Err e, false)
  | Ok _ =>
  match require_view session with
  | Err e => (Err (Runtime_Session e), false)
  | Ok _ =>
  match begin_connect session (at_now a) with
  | (Err e, _) => (Err (Runtime_Session e), false)
  | (Ok _, session) =>
      (match at_outcome a with
       | Connect_Rejected => Err Runtime_Connect
       | Connect_Cancelled => Err Runtime_Shutdown
       | Connect_Failed e => Err (Runtime_Transport e)
       | Connect_Ok id =>
           if cancelled_after then Err Runtime_Shutdown else
           match connected session (at_then a) with
           | (Err e, _) => Err (Runtime_Session e)
           | (Ok _, session) =>
               ClientRuntime_build (mkConnection id false []) session frame_key nonce_domain
                 (cc_monitor config) WindowConfig_default hwnd d cancelled_after
           end
       end, true)
  end end end.

(** The loop of [run_configured_with_cancellation] after the connection: rounds of [run]
    and, while the session is reconnecting, [reconnect_with_retry]; then [shutdown].  Each
    round lists what the two see; [None] when a round does not return or panics. *)
Fixpoint run_configured_loop (rt : runtime) (rounds : list (list RuntimeEvent * list ConnectAttempt))
    (stopped : bool) : option (result ClientRuntimeError RuntimeSummary * runtime) :=
  match rounds with
  | [] => None
  | (events, attempts) :: rounds =>
      '(r, rt) ← ClientRuntime_run rt events;
      summary ← r;
      let finish :=
        let '(s, rt) := ClientRuntime_shutdown rt stopped in
        Some (match summary, s with
              | Err e, _ => Err e
              | Ok summary, Ok _ => Ok summary
              | Ok _, Err e => Err e
              end, rt) in
      if rt_cancelled rt && match summary with Err Runtime_Shutdown => true | _ => false end
      then finish else
      if negb (bool_decide (cs_state (rt_session rt) = Client_Reconnecting)) then finish else
      '(r, rt) ← reconnect_with_retry rt attempts;
      match r with
      | Err e => Some (Err e, rt)
      | Ok _ => run_configured_loop rt rounds stopped
      end
  end.
End runtime.

(** ** Hexadecimal values *)

(** Bootstrap values: the hexadecimal decoder accepts exactly ASCII strings of even
    length whose pairs are two hexadecimal digits or a plus sign and a digit, and decodes
    one byte a pair. *)
Theorem decode_hex_spec (value : string) (out : bytes) :
  decode_hex value = Ok out ↔
  Forall (λ c, of_byte c < 128) (as_bytes value) ∧ str_len value mod 2 = 0 ∧
  Forall2 (λ pair b, u8_from_hex pair = Some b) (chunks 2 (as_bytes value)) out.
Proof.
  unfold decode_hex. rewrite len_as_bytes.
  assert (forallb (λ c, of_byte c <? 128) (as_bytes value) = true ↔
    Forall (λ c, of_byte c < 128) (as_bytes value)) as Ha.
  { rewrite forallb_forall, Forall_in. setoid_rewrite Z.ltb_lt. by setoid_rewrite list_elem_of_In. }
  destruct (forallb _ _); cbn [negb]; [|naive_solver].
  destruct (Z.eqb_spec (str_len value mod 2) 0); cbn [negb]; [|naive_solver].
  rewrite <-mapM_Some. destruct (mapM u8_from_hex _); cbn; naive_solver.
Qed.

(** A pair with a plus sign is taken for its digit. *)
Lemma decode_hex_plus : decode_hex "+f" = Ok [x0f] ∧ decode_hex "0f" = Ok [x0f].
Proof. done. Qed.

Section theorems.
Context {D : Type} `{Ed25519} `{Prost SessionCapability} `{Aead} `{InputProst}
  `{Prost CursorPosition, Prost CursorShape}.
Abbreviation runtime := (ClientRuntime D).

(** ** The runtime fails closed *)

Record closed (rt : runtime) : Prop := {
  cl_flags : rt_shutdown rt = true ∧ rt_cancelled rt = true;
  cl_session : cs_state (rt_session rt) = Client_Expired;
  cl_input : ic_queue (rt_input rt) = [] ∧ ic_shutdown (rt_input rt) = true;
  cl_render : rq_latest (ws_render (rt_window rt)) = None ∧
    rq_shutdown (ws_render (rt_window rt)) = true;
  cl_latest : rt_latest_frame rt = None ∧ rt_latest_cursor rt = None ∧
    rt_latest_cursor_shape rt = None;
  cl_connection : cn_closed (rt_connection rt) = true;
  cl_workers : np_stop (rt_pipeline rt) = true ∧ ws_shutdown_requested (rt_window rt) = true
}.

Lemma request_shutdown_render w :
  ws_render (request_shutdown w) = ws_render w ∧ ws_shutdown_requested (request_shutdown w) = true.
Proof.
  unfold request_shutdown, WindowController_try_send. cbn.
  destruct (negb _); [done|]. by destruct (_ <? _).
Qed.
Lemma expire_state s : cs_state (snd (expire s)) = Client_Expired.
Proof. unfold expire. by destruct (bool_decide_reflect (cs_state s = Client_Expired)). Qed.

Lemma fail_closed_closed (rt : runtime) : closed (fail_closed rt).
Proof.
  split; cbn; try done; [apply expire_state| |].
  - by rewrite (proj1 (request_shutdown_render _)).
  - split; [done|]. by rewrite (proj2 (request_shutdown_render _)).
Qed.

(** Every error an iteration returns comes with a closed runtime. *)
Lemma closed_with_inv (rt rt' : runtime) e r :
  closed_with rt e = (r, rt') → r = Some (Err e) ∧ closed rt'.
Proof. intros [= <- <-]. split; [done|apply fail_closed_closed]. Qed.

Lemma closed_with_some (rt rt' : runtime) e r :
  Some (closed_with rt e) = Some (r, rt') → closed rt'.
Proof. intros E. apply (inj Some) in E. by apply closed_with_inv in E as [_ ?]. Qed.

Lemma run_datagram_error (rt : runtime) now datagram lost_at e rt' :
  run_datagram rt now datagram lost_at = (Some (Err e), rt') → closed rt'.
Proof.
  unfold run_datagram. destruct (ensure_active _ now) as [[[]|e0] s];
    [|by intros [_ ?]%closed_with_inv].
  destruct datagram as [b|e0].
  - destruct (accept_inbound_datagram _ b) as [[[]|e0] rt1]; [|by intros [_ ?]%closed_with_inv].
    destruct (present_frame rt1) as [[[]|e0] rt2]; [done|by intros [_ ?]%closed_with_inv].
  - destruct (reconnectable e0); [|by intros [_ ?]%closed_with_inv].
    destruct (rt_cancelled _); [by intros [_ ?]%closed_with_inv|].
    destruct (transport_lost _ lost_at) as [[[]|e1] s1]; [done|by intros [_ ?]%closed_with_inv].
Qed.
Lemma run_poll_error (rt : runtime) now clock sent e rt' :
  run_poll rt now clock sent = Some (Some (Err e), rt') → closed rt'.
Proof.
  unfold run_poll. destruct (poll_error _) as [[e0|] p]; [by apply closed_with_some|].
  destruct (ensure_active _ now) as [[[]|e0] s]; [|by apply closed_with_some].
  destruct (pump_window_events _ _) as [[[[]|e0] rt1]|]; cbn; [| |done];
    [|by apply closed_with_some].
  destruct (pump_input rt1 sent) as [[[]|e0] rt2]; [done|by apply closed_with_some].
Qed.
Lemma run_loop_error (rt : runtime) events e rt' :
  run_loop rt events = Some (Some (Err e), rt') → closed rt'.
Proof.
  revert rt. induction events as [|ev events IH]; intros rt; cbn [run_loop]; [done|].
  destruct (run_iteration rt ev) as [[r rt1]|] eqn:E; [|done]. cbn [mbind option_bind].
  destruct r as [[?|e0]|]; [done| |by apply IH]. intros [= -> ->].
  destruct ev as [w p| |now datagram lost_at|now clock sent]; cbn in E.
  - done.
  - injection E as _ <-. apply fail_closed_closed.
  - injection E as E. by eapply run_datagram_error.
  - by eapply run_poll_error.
Qed.

(** C19. The runtime fails closed: whenever the event loop returns an error, whichever
    branch it came from and whatever the window and the pipeline did meanwhile, the session
    is expired, the transport closed, the input and render queues emptied and shut, the
    workers told to stop; and afterwards running, handling window events and reconnecting
    only report the shutdown and change nothing. *)
Theorem runtime_fails_closed (rt rt' : runtime) (events : list RuntimeEvent)
    (e : ClientRuntimeError) :
  rt_shutdown rt = false → rt_cancelled rt = false →
  ClientRuntime_run rt events = Some (Some (Err e), rt') →
  closed rt' ∧
  (∀ events', ClientRuntime_run rt' events' = Some (Some (Err Runtime_Shutdown), rt')) ∧
  (∀ event now, ClientRuntime_handle_window_event rt' event now = Some (Err Runtime_Shutdown, rt')) ∧
  (∀ attempts, reconnect_with_retry rt' attempts = Some (Err Runtime_Shutdown, rt')).
Proof.
  intros Hs Hc. unfold ClientRuntime_run at 1. rewrite Hs, Hc. intros E%run_loop_error.
  split; [done|]. destruct E as [[Hs' Hc'] _ _ _ _ _ _].
  unfold ClientRuntime_run, ClientRuntime_handle_window_event, reconnect_with_retry.
  by rewrite Hs', Hc'.
Qed.

(** ** Input is sent only under a valid capability *)

(** The claims a session presents never change. *)
Definition same_claims (s s' : ClientSession) : Prop :=
  cs_capability s' = cs_capability s ∧ cs_relay_token s' = cs_relay_token s ∧
  cs_verification s' = cs_verification s.
#[local] Instance same_claims_refl : Reflexive same_claims.
Proof. done. Qed.
#[local] Instance same_claims_trans : Transitive same_claims.
Proof. intros a b c (? & ? & ?) (? & ? & ?). unfold same_claims. by split_and!; etrans. Qed.

Lemma same_claims_valid s s' now : same_claims s s' → validate_claims s' now = validate_claims s now.
Proof. unfold validate_claims, validate_identity. by intros (-> & -> & ->). Qed.
Lemma same_claims_control s s' : same_claims s s' → can_control s' = can_control s.
Proof. unfold can_control, has_permission. by intros (-> & _ & _). Qed.

Lemma ensure_active_claims s now : same_claims s (snd (ensure_active s now)).
Proof.
  unfold ensure_active. repeat (destruct (bool_decide _); [done|]).
  destruct (validate_claims s now); [|done]. by destruct (session_duration_expired s now).
Qed.
Lemma ensure_active_valid s now s' :
  ensure_active s now = (Ok tt, s') → validate_claims s now = Ok tt ∧ s' = s.
Proof.
  unfold ensure_active. repeat (destruct (bool_decide _); [done|]).
  destruct (validate_claims s now) as [[]|]; [|done].
  by destruct (session_duration_expired s now); intros [= <-].
Qed.
Lemma transport_lost_claims s now : same_claims s (snd (transport_lost s now)).
Proof.
  unfold transport_lost. repeat (destruct (bool_decide _); [done|]).
  by destruct (session_duration_expired s now).
Qed.
Lemma expire_claims s : same_claims s (snd (expire s)).
Proof. unfold expire. by destruct (bool_decide _). Qed.

(** What an operation may do besides its own effects: nothing is sent, the claims stay. *)
Definition quiet (rt rt' : runtime) : Prop :=
  cn_sent (rt_connection rt') = cn_sent (rt_connection rt) ∧
  same_claims (rt_session rt) (rt_session rt').
#[local] Instance quiet_refl : Reflexive quiet.
Proof. done. Qed.
#[local] Instance quiet_trans : Transitive quiet.
Proof. intros a b c [? ?] [? ?]. split; by etrans. Qed.

Lemma fail_closed_quiet (rt : runtime) : quiet rt (fail_closed rt).
Proof. split; [done|]. apply expire_claims. Qed.
Lemma accept_inbound_quiet (rt : runtime) b : quiet rt (snd (accept_inbound_datagram rt b)).
Proof.
  unfold accept_inbound_datagram. destruct (is_ok _).
  - by destruct (accept_datagram (rt_receiver rt) b).
  - by destruct (accept_control_datagram (rt_receiver rt) b) as [[]|].
Qed.
Lemma present_frame_quiet (rt : runtime) : quiet rt (snd (present_frame rt)).
Proof.
  unfold present_frame. destruct (drain_latest_frame _) as [[f|] rx]; [|done].
  destruct (render_latest _ f) as [[|] w]; [|done]. destruct (take_latest _) as [[j|] q]; [|done].
  destruct (NativePipeline_submit _ j) as [[|] p]; done.
Qed.

Lemma run_datagram_quiet (rt : runtime) now datagram lost_at :
  quiet rt (snd (run_datagram rt now datagram lost_at)).
Proof.
  unfold run_datagram. pose proof (ensure_active_claims (rt_session rt) now) as Ha.
  destruct (ensure_active _ now) as [active s]. cbn in Ha.
  set (rt1 := rt_set_session rt s). assert (quiet rt rt1) as H1q by done.
  assert (∀ rt2 e, quiet rt rt2 → quiet rt (snd (closed_with rt2 e))) as Hc.
  { intros rt2 e H2q. etrans; [exact H2q|]. apply fail_closed_quiet. }
  destruct active as [[]|e]; [|by apply Hc]. destruct datagram as [b|e].
  - pose proof (accept_inbound_quiet rt1 b) as Hb.
    destruct (accept_inbound_datagram rt1 b) as [[[]|e] rt2]; cbn in Hb;
      [|apply Hc; by etrans].
    pose proof (present_frame_quiet rt2) as Hp.
    destruct (present_frame rt2) as [[[]|e] rt3]; cbn in Hp; [|apply Hc]; do 2 (etrans; [done|]); done.
  - destruct (reconnectable e); [|by apply Hc]. destruct (rt_cancelled rt1); [by apply Hc|].
    pose proof (transport_lost_claims (rt_session rt1) lost_at) as Hl.
    destruct (transport_lost _ lost_at) as [[[]|e'] s2]; cbn in Hl; [|apply Hc];
      (split; [done|]; etrans; [exact Ha|exact Hl]).
Qed.

Lemma pump_events_quiet fuel clock (rt : runtime) r rt' :
  pump_events fuel clock rt = Some (r, rt') → quiet rt rt'.
Proof.
  revert rt. induction fuel as [|fuel IH]; intros rt E; cbn in E; [by simplify_eq|].
  destruct (try_next_event (rt_window rt)) as [[event|] w]; [|by simplify_eq].
  destruct (input_event_dropped _ event); [by apply IH in E|].
  destruct (handle_window_event _ event _) as [[[[]|e] c]|]; [| |done]; cbn in E; [|by simplify_eq].
  destruct (is_closed_event event); [|by apply IH in E]. simplify_eq.
  etrans; [|apply fail_closed_quiet]. done.
Qed.

(** Sending one message, which a poll with valid claims of a controlling session may. *)
Lemma pump_input_sends (rt : runtime) sent :
  let rt' := snd (pump_input rt sent) in
  rt_session rt' = rt_session rt ∧
  (cn_sent (rt_connection rt') = cn_sent (rt_connection rt) ∨
   can_control (rt_session rt) = true ∧
   ∃ control, cn_sent (rt_connection rt') = cn_sent (rt_connection rt) ++ [control]).
Proof.
  unfold pump_input. destruct (can_control (rt_session rt)) eqn:Ec; cbn [negb]; [|by split; [|left]].
  destruct (try_next_control (rt_input rt)) as [[control|] c]; [|by split; [|left]].
  destruct sent; cbn; [|by split; [|left]]. split; [done|]. right. eauto.
Qed.

(** A poll that may send. *)
Definition valid_poll (s : ClientSession) (ev : @RuntimeEvent D) : bool :=
  match ev with Rt_Poll now _ _ => is_ok (validate_claims s now) | _ => false end.

Lemma run_poll_sends (rt : runtime) now clock sent r rt' :
  run_poll rt now clock sent = Some (r, rt') →
  same_claims (rt_session rt) (rt_session rt') ∧
  (cn_sent (rt_connection rt') = cn_sent (rt_connection rt) ∨
   can_control (rt_session rt) = true ∧ is_ok (validate_claims (rt_session rt) now) = true ∧
   ∃ control, cn_sent (rt_connection rt') = cn_sent (rt_connection rt) ++ [control]).
Proof.
  unfold run_poll.
  assert (∀ rt2 e, quiet rt rt2 → Some (closed_with rt2 e) = Some (r, rt') →
    same_claims (rt_session rt) (rt_session rt') ∧
    cn_sent (rt_connection rt') = cn_sent (rt_connection rt)) as Hc.
  { intros rt2 e H2q E. apply (inj Some) in E. injection E as _ <-.
    destruct (quiet_trans _ _ _ H2q (fail_closed_quiet rt2)). done. }
  destruct (poll_error _) as [[e|] p]; [intros [? ?]%Hc; [auto|done]|].
  pose proof (ensure_active_claims (rt_session rt) now) as Ha.
  cbn [rt_session rt_set_pipeline].
  destruct (ensure_active (rt_session rt) now) as [[[]|e] s] eqn:Ea; cbn in Ha;
    [|intros [? ?]%Hc; [auto|done]].
  apply ensure_active_valid in Ea as [Hv ->].
  set (rt1 := rt_set_session _ _). assert (quiet rt rt1) as H1q by done. clearbody rt1.
  destruct (pump_window_events clock rt1) as [[r2 rt2]|] eqn:Ep; [|done]. cbn [mbind option_bind].
  assert (quiet rt rt2) as H2q by (etrans; [exact H1q|by eapply pump_events_quiet]).
  destruct r2 as [[]|e]; [|intros [? ?]%Hc; auto].
  pose proof (pump_input_sends rt2 sent) as [Hs Hsend].
  destruct (pump_input rt2 sent) as [r3 rt3]. cbn in Hs, Hsend. destruct H2q as [Hcn Hsc].
  assert (same_claims (rt_session rt) (rt_session rt3)) as Hsc3 by (by rewrite Hs).
  assert (∀ rt4 : runtime, cn_sent (rt_connection rt4) = cn_sent (rt_connection rt3) →
    cn_sent (rt_connection rt4) = cn_sent (rt_connection rt) ∨
    can_control (rt_session rt) = true ∧ is_ok (validate_claims (rt_session rt) now) = true ∧
    ∃ control, cn_sent (rt_connection rt4) = cn_sent (rt_connection rt) ++ [control]) as Hfin.
  { intros rt4 ->. rewrite <-Hcn. destruct Hsend as [?|[Hctl ?]]; [by left|right].
    rewrite (same_claims_control _ _ Hsc) in Hctl. by rewrite Hv. }
  destruct r3 as [[]|e]; intros E; apply (inj Some) in E.
  - injection E as _ <-. auto.
  - injection E as _ <-. split; [|by apply Hfin].
    etrans; [exact Hsc3|]. apply fail_closed_quiet.
Qed.

Lemma run_iteration_sends (rt : runtime) ev r rt' :
  run_iteration rt ev = Some (r, rt') →
  same_claims (rt_session rt) (rt_session rt') ∧
  ∃ new, cn_sent (rt_connection rt') = cn_sent (rt_connection rt) ++ new ∧
    (new ≠ [] → can_control (rt_session rt) = true) ∧
    (length new ≤ length (List.filter (valid_poll (rt_session rt)) [ev]))%nat.
Proof.
  intros E.
  assert (quiet rt rt' → same_claims (rt_session rt) (rt_session rt') ∧
    ∃ new, cn_sent (rt_connection rt') = cn_sent (rt_connection rt) ++ new ∧
      (new ≠ [] → can_control (rt_session rt) = true) ∧
      (length new ≤ length (List.filter (valid_poll (rt_session rt)) [ev]))%nat) as Hq.
  { intros [Hs Hc]. split; [done|]. exists []. rewrite app_nil_r. split_and!; [done|done|cbn; lia]. }
  destruct ev as [w p| |now datagram lost_at|now clock sent]; cbn [run_iteration] in E.
  - apply Hq. injection E as _ <-. done.
  - apply Hq. injection E as _ <-. apply fail_closed_quiet.
  - apply Hq. injection E as E. pose proof (run_datagram_quiet rt now datagram lost_at) as Hd.
    by rewrite E in Hd.
  - apply run_poll_sends in E as [Hs [Heq|(Hc & Hv & control & Heq)]]; [apply Hq; by split|].
    split; [done|]. exists [control]. cbn. rewrite Hv. split_and!; [done|done|cbn; lia].
Qed.

(** C20. Input leaves the client only under a valid capability: over a whole run, in any
    order of events and whatever the window thread and the pipeline worker do, the datagrams
    sent are appended to those sent before; none is sent by a session without the control
    permission; and there are at most as many as polls at which the session's signed claims
    validated, so nothing is sent once a claim expires. *)
Theorem runtime_sends_authorised (rt rt' : runtime) (events : list RuntimeEvent) r :
  ClientRuntime_run rt events = Some (r, rt') →
  ∃ new, cn_sent (rt_connection rt') = cn_sent (rt_connection rt) ++ new ∧
    (new ≠ [] → can_control (rt_session rt) = true) ∧
    (length new ≤ length (List.filter (valid_poll (rt_session rt)) events))%nat.
Proof.
  unfold ClientRuntime_run. destruct (_ || _).
  { intros [= _ <-]. exists []. rewrite app_nil_r. split_and!; [done|done|cbn; lia]. }
  cut (∀ rt0 : runtime, same_claims (rt_session rt0) (rt_session rt) → run_loop rt events = Some (r, rt') →
    ∃ new, cn_sent (rt_connection rt') = cn_sent (rt_connection rt) ++ new ∧
      (new ≠ [] → can_control (rt_session rt0) = true) ∧
      (length new ≤ length (List.filter (valid_poll (rt_session rt0)) events))%nat).
  { intros Hcut Hrun. by apply Hcut. }
  intros rt0. revert rt. induction events as [|ev events IH]; intros rt Hsc; cbn [run_loop].
  { intros [= _ <-]. exists []. rewrite app_nil_r. split_and!; [done|done|cbn; lia]. }
  destruct (run_iteration rt ev) as [[r1 rt1]|] eqn:E; [|done]. cbn [mbind option_bind].
  apply run_iteration_sends in E as (Hs & new1 & Hn1 & Hc1 & Hl1).
  rewrite (same_claims_control _ _ Hsc) in Hc1.
  assert (valid_poll (rt_session rt) ev = valid_poll (rt_session rt0) ev) as Hvp.
  { destruct ev; try done. cbn. by rewrite (same_claims_valid _ _ now Hsc). }
  cbn [List.filter] in *. rewrite Hvp in Hl1.
  destruct r1 as [r1|].
  - intros [= _ <-]. exists new1. split_and!; [done|done|].
    destruct (valid_poll _ ev); cbn in *; lia.
  - intros E2. destruct (IH rt1) as (new2 & Hn2 & Hc2 & Hl2); [by etrans|done|].
    exists (new1 ++ new2). rewrite Hn2, Hn1, app_assoc. split_and!; [done| |].
    + destruct new1; [exact Hc2|]. intros _. by apply Hc1.
    + rewrite length_app. destruct (valid_poll _ ev); cbn in *; lia.
Qed.

(** ** Reconnecting ends, and starts clean *)

(** A session that waits to reconnect until [deadline]. *)
Definition reconnecting (deadline : Z) (rt : runtime) : Prop :=
  cs_state (rt_session rt) = Client_Reconnecting ∧
  cs_reconnect_deadline (rt_session rt) = Some deadline.

Lemma begin_connect_reconnecting s now deadline r s' :
  cs_state s = Client_Reconnecting → cs_reconnect_deadline s = Some deadline →
  begin_connect s now = (r, s') →
  match r with
  | Ok _ => s' = cs_set_state s Client_Connecting
  | Err _ => s' = s ∧ now ≤ deadline ∨ cs_state s' = Client_Expired
  end.
Proof.
  intros Hs Hd. unfold begin_connect, can_reconnect. rewrite Hs, Hd. cbn.
  destruct (Z.leb_spec now deadline); cbn; [|intros [= <- <-]; by right].
  destruct (negb _); cbn; [intros [= <- <-]; by right|].
  destruct (validate_claims s now); intros [= <- <-]; auto.
Qed.
Lemma begin_connect_late s now deadline r s' :
  cs_state s = Client_Reconnecting → cs_reconnect_deadline s = Some deadline → deadline < now →
  begin_connect s now = (r, s') → r ≠ Ok tt ∧ cs_state s' = Client_Expired.
Proof.
  intros Hs Hd Hlt. unfold begin_connect, can_reconnect. rewrite Hs, Hd. cbn.
  destruct (Z.leb_spec now deadline); [lia|]. cbn. by intros [= <- <-].
Qed.

(** A failed attempt keeps the deadline or leaves the reconnecting state. *)
Lemma reconnect_attempt_reconnecting (rt : runtime) a deadline e rt' :
  reconnecting deadline rt → reconnect_attempt rt a = (Err e, rt') →
  cs_state (rt_session rt') = Client_Reconnecting → reconnecting deadline rt'.
Proof.
  intros [Hs Hd]. unfold reconnect_attempt. destruct (_ || _); [by intros [= _ <-]|].
  destruct (begin_connect (rt_session rt) (at_now a)) as [begun s] eqn:Eb.
  apply (begin_connect_reconnecting _ _ deadline) in Eb; [|done..].
  destruct begun as [[]|e0].
  2:{ intros [= _ <-] Hs'. cbn in *. destruct Eb as [[-> _]|Hx]; [done|congruence]. }
  subst s. cbn [rt_session rt_set_session].
  assert (∀ r s', reconnect_attempt_failed (cs_set_state (rt_session rt) Client_Connecting)
    (at_then a) = (r, s') → cs_state s' = Client_Reconnecting →
    cs_reconnect_deadline s' = Some deadline) as Hf.
  { intros r s'. unfold reconnect_attempt_failed. cbn. rewrite Hd.
    destruct (session_duration_expired _ _); [intros [= _ <-]; done|].
    by destruct (_ <? _); intros [= _ <-]. }
  destruct (at_outcome a) as [| |e1|id].
  - destruct (reconnect_attempt_failed _ _) as [[[]|e2] s'] eqn:Er; intros [= _ <-] Hs';
      (split; [done|]; by eapply Hf).
  - by intros [= _ <-].
  - destruct (reconnect_attempt_failed _ _) as [[[]|e2] s'] eqn:Er; intros [= _ <-] Hs';
      (split; [done|]; by eapply Hf).
  - destruct (connected _ _) as [[[]|e2] s'] eqn:Ec; [done|]. intros [= _ <-]. cbn.
    unfold connected in Ec. cbn in Ec. intros Hs'. exfalso. revert Ec.
    destruct (_ && _); [intros [= _ <-]; done|]. destruct (validate_claims _ _) as [[]|];
      [|intros [= _ <-]; done]. destruct (is_some_and _ _); [intros [= _ <-]; done|done].
Qed.
Lemma reconnect_attempt_late (rt : runtime) a deadline r rt' :
  reconnecting deadline rt → rt_cancelled rt || at_cancelled a = false → deadline < at_now a →
  reconnect_attempt rt a = (r, rt') → ∃ e, r = Err e ∧ cs_state (rt_session rt') = Client_Expired.
Proof.
  intros [Hs Hd] Hc Hlt. unfold reconnect_attempt. rewrite Hc.
  destruct (begin_connect (rt_session rt) (at_now a)) as [begun s] eqn:Eb.
  destruct (begin_connect_late _ _ _ _ _ Hs Hd Hlt Eb) as [Hne Hx].
  destruct begun as [[]|e]; [done|]. intros [= <- <-]. eauto.
Qed.

(** C31. The reconnect loop ends: for a session waiting to reconnect, as soon as an attempt
    starts after the reconnect deadline the loop has returned, whatever the transport
    answered before; it returns a connected session, or an error with the runtime closed,
    or the report of a cancellation. *)
Theorem reconnect_terminates (rt : runtime) (deadline : Z) (attempts : list ConnectAttempt)
    (k : nat) (a : ConnectAttempt) :
  reconnecting deadline rt → attempts !! k = Some a → deadline < at_now a →
  ∃ r rt', reconnect_with_retry rt attempts = Some (r, rt') ∧
    (r = Ok tt → cs_state (rt_session rt') = Client_Connected) ∧
    (∀ e, r = Err e → closed rt' ∨ e = Runtime_Shutdown).
Proof.
  intros Hr Hk Hlt. unfold reconnect_with_retry. destruct (rt_shutdown rt).
  { eexists _, _. split; [done|]. split; [done|]. intros e [= <-]. by right. }
  revert rt k Hr Hk. induction attempts as [|b attempts IH]; intros rt k Hr Hk; [done|].
  cbn [reconnect_loop]. destruct (rt_cancelled rt || at_cancelled b) eqn:Ec.
  { eexists _, _. split; [done|]. split; [done|]. intros e [= <-]. by right. }
  destruct (reconnect_attempt rt b) as [[[]|e] rt1] eqn:Ea.
  - eexists _, _. split; [done|]. split; [intros _|done].
    unfold reconnect_attempt in Ea. rewrite Ec in Ea.
    destruct (begin_connect _ _) as [[[]|] s]; [|done].
    destruct (at_outcome b); try (by destruct (reconnect_attempt_failed _ _) as [[] ?]); [done|].
    destruct (connected _ _) as [[[]|] s'] eqn:Eco; [|done]. injection Ea as <-. cbn.
    unfold connected in Eco. repeat (destruct (bool_decide _); [done|]).
    destruct (_ && _); [done|]. destruct (validate_claims _ _); [|done].
    destruct (is_some_and _ _); [done|]. by injection Eco as <-.
  - destruct (bool_decide_reflect (cs_state (rt_session rt1) = Client_Reconnecting)) as [Hs|Hs];
      cbn [negb].
    + destruct (at_sleep_cancelled b).
      { eexists _, _. split; [done|]. split; [done|]. intros e' [= <-]. by right. }
      destruct k as [|k]; cbn in Hk.
      * injection Hk as ->. exfalso.
        destruct (reconnect_attempt_late _ _ _ _ _ Hr Ec Hlt Ea) as (e' & _ & Hx). congruence.
      * apply (IH rt1 k); [|done]. by eapply reconnect_attempt_reconnecting.
    + eexists _, _. split; [done|]. split; [done|]. intros e' [= <-]. left.
      apply fail_closed_closed.
Qed.

(** What a reconnect keeps of a session. *)
Definition keeps (s s' : ClientSession) : Prop :=
  same_claims s s' ∧ cs_established_at s' = cs_established_at s.
#[local] Instance keeps_trans : Transitive keeps.
Proof. intros a b c [? ?] [? ?]. split; by etrans. Qed.

Lemma begin_connect_keeps s now : keeps s (snd (begin_connect s now)).
Proof.
  unfold begin_connect. destruct (bool_decide _); [done|]. destruct (_ && _); [done|].
  destruct (_ && _); [done|]. by destruct (validate_claims s now).
Qed.
Lemma reconnect_attempt_failed_keeps s now : keeps s (snd (reconnect_attempt_failed s now)).
Proof.
  unfold reconnect_attempt_failed. destruct (bool_decide _); [done|].
  destruct (session_duration_expired s now); [done|].
  destruct (cs_reconnect_deadline s) as [d|]; [|done]. by destruct (d <? now).
Qed.
Lemma connected_keeps s now at_ :
  cs_established_at s = Some at_ →
  keeps s (snd (connected s now)) ∧
  (fst (connected s now) = Ok tt → cs_state (snd (connected s now)) = Client_Connected).
Proof.
  intros He. unfold connected. do 2 (destruct (bool_decide _); [done|]). destruct (_ && _); [done|].
  destruct (validate_claims s now) as [[]|]; [|done].
  destruct (is_some_and _ _); [done|]. cbn. rewrite He. done.
Qed.

(** What a successful attempt leaves behind. *)
Definition clean_start (p : NativePipeline D) (rt : runtime) : Prop :=
  cs_state (rt_session rt) = Client_Connected ∧ ic_queue (rt_input rt) = [] ∧
  rq_latest (ws_render (rt_window rt)) = None ∧
  rt_latest_frame rt = None ∧ rt_latest_cursor rt = None ∧ rt_latest_cursor_shape rt = None ∧
  np_pending (rt_pipeline rt) = None ∧
  np_generation (rt_pipeline rt) = wrap 64 (np_generation p + 1).

Lemma reconnect_attempt_keeps (rt : runtime) a at_ r rt' :
  cs_established_at (rt_session rt) = Some at_ → reconnect_attempt rt a = (r, rt') →
  keeps (rt_session rt) (rt_session rt') ∧
  match r with Ok _ => clean_start (rt_pipeline rt) rt' | Err _ => rt_pipeline rt' = rt_pipeline rt end.
Proof.
  intros He. unfold reconnect_attempt. destruct (_ || _); [by intros [= <- <-]|].
  pose proof (begin_connect_keeps (rt_session rt) (at_now a)) as Hb.
  destruct (begin_connect _ _) as [[[]|e] s]; cbn in Hb; [|by intros [= <- <-]].
  cbn [rt_session rt_set_session].
  pose proof (reconnect_attempt_failed_keeps s (at_then a)) as Hf.
  destruct (connected_keeps s (at_then a) at_) as [Hc Hok]; [by rewrite <-He; apply Hb|].
  destruct (at_outcome a) as [| |e|id].
  - destruct (reconnect_attempt_failed s _) as [[[]|e] s']; intros [= <- <-];
      (split; [by etrans|done]).
  - by intros [= <- <-].
  - destruct (reconnect_attempt_failed s _) as [[[]|e'] s']; intros [= <- <-];
      (split; [by etrans|done]).
  - destruct (connected s _) as [[[]|e] s']; intros [= <- <-]; (split; [by etrans|]); [|done].
    unfold clean_start. split_and!; [by apply Hok|done..].
Qed.

(** A reconnect starts clean: when it succeeds the session is connected under the same
    signed claims and established time, no queued input survives to be replayed, no frame or
    cursor of the old transport is kept, and the pipeline is a generation further with an
    empty slot. *)
Theorem reconnect_starts_clean (rt rt' : runtime) (attempts : list ConnectAttempt) (at_ : Z) :
  cs_established_at (rt_session rt) = Some at_ →
  reconnect_with_retry rt attempts = Some (Ok tt, rt') →
  same_claims (rt_session rt) (rt_session rt') ∧
  cs_established_at (rt_session rt') = Some at_ ∧ clean_start (rt_pipeline rt) rt'.
Proof.
  intros He. unfold reconnect_with_retry. destruct (rt_shutdown rt); [done|].
  revert rt He. induction attempts as [|b attempts IH]; intros rt He; [done|].
  cbn [reconnect_loop]. destruct (_ || _); [done|].
  destruct (reconnect_attempt rt b) as [r1 rt1] eqn:Ea.
  apply (reconnect_attempt_keeps _ _ at_) in Ea as [[Hsc Het] Hr1]; [|done].
  destruct r1 as [[]|e]; [intros [= <-]; split_and!; [done|congruence|done]|].
  destruct (negb _); [done|]. destruct (at_sleep_cancelled b); [done|].
  intros E. destruct (IH rt1) as (? & ? & ?); [congruence|done|]. rewrite <-Hr1.
  split_and!; [by etrans|done|done].
Qed.

(** Transport is opened only for an authenticated viewer: [endpoint.connect] is called
    only after the stream configuration validated, the capability carried the view permission
    and the signed claims validated at the clock read; and a runtime is built only for a
    session that is connected. *)
Theorem connect_requires_viewer (config : ClientConnectConfig) (session : ClientSession)
    (frame_key : bytes) (nonce_domain : Z) (a : ConnectAttempt) (cancelled_after : bool)
    (hwnd : Z) (d : result DecoderError D) :
  let r := connect_with_cancellation config session frame_key nonce_domain a cancelled_after
    hwnd d in
  (snd r = true →
     VideoStreamConfig_validate (cc_stream config) = Ok tt ∧ can_view session = true ∧
     validate_claims session (at_now a) = Ok tt) ∧
  (∀ rt, fst r = Ok rt → snd r = true ∧ cs_state (rt_session rt) = Client_Connected ∧
     same_claims session (rt_session rt) ∧ rt_shutdown rt = false ∧ rt_cancelled rt = false).
Proof.
  unfold connect_with_cancellation. destruct (at_cancelled a); [done|].
  destruct (VideoStreamConfig_validate _) as [[]|]; [|done].
  unfold require_view. destruct (can_view session); [|done].
  pose proof (begin_connect_keeps session (at_now a)) as [Hb _].
  destruct (begin_connect session (at_now a)) as [[[]|e] s] eqn:Eb; [|done]. cbn in Hb. split.
  - intros _. split_and!; [done..|]. unfold begin_connect in Eb.
    destruct (bool_decide _); [done|]. do 2 (destruct (_ && _); [done|]).
    by destruct (validate_claims session (at_now a)) as [[]|].
  - intros rt. destruct (at_outcome a) as [| |e|id]; try done.
    destruct cancelled_after; [done|].
    destruct (connected s (at_then a)) as [[[]|e] s'] eqn:Ec; [|done].
    unfold ClientRuntime_build. destruct (set_cursor_monitor _ _) as [[[]|] rx]; [|done].
    intros (input & _ & Hi)%result_bind_ok. apply result_bind_ok in Hi as (w & _ & Hw).
    apply result_bind_ok in Hw as (p & _ & Hp). injection Hp as <-. cbn.
    assert (cs_state s' = Client_Connected ∧ same_claims s s') as [? ?].
    { unfold connected in Ec. do 2 (destruct (bool_decide _); [done|]).
      destruct (_ && _); [done|]. destruct (validate_claims s (at_then a)) as [[]|]; [|done].
      destruct (is_some_and _ _); [done|]. by injection Ec as <-. }
    split_and!; [done|done|by etrans|done|done].
Qed.

(** ** Loss of the transport by an idle timeout *)

(** A connection that times out ends the session: the loop treats the idle timeout of
    the transport as unrecoverable and closes, although the session could have entered its
    reconnect window. *)
Theorem idle_timeout_closes_session (rt : runtime) (now lost_at : Z) s :
  ensure_active (rt_session rt) now = (Ok tt, s) → rt_cancelled rt = false →
  (∃ rt', run_iteration rt (Rt_Datagram now (Err Conn_TimedOut) lost_at) =
     Some (Some (Err (Runtime_Transport Conn_TimedOut)), rt') ∧ closed rt') ∧
  (session_duration_expired (rt_session rt) lost_at = false →
   ∃ rt' summary, run_iteration rt (Rt_Datagram now (Err Conn_Reset) lost_at) =
     Some (Some (Ok summary), rt') ∧ cs_state (rt_session rt') = Client_Reconnecting).
Proof.
  intros Ha Hc. cbn [run_iteration]. unfold run_datagram. rewrite Ha. split.
  - eexists. split; [reflexivity|]. apply fail_closed_closed.
  - intros Hd. cbn [reconnectable]. cbn [rt_cancelled rt_set_session]. rewrite Hc.
    assert (cs_state (rt_session rt) = Client_Connected) as Hs.
    { unfold ensure_active in Ha. destruct (bool_decide _); [done|].
      destruct (bool_decide_reflect (cs_state (rt_session rt) ≠ Client_Connected)) as [|Hn]; [done|].
      by destruct (decide (cs_state (rt_session rt) = Client_Connected)). }
    apply ensure_active_valid in Ha as [_ ->]. cbn [rt_session rt_set_session].
    unfold transport_lost. rewrite Hs, Hd. cbn. eauto.
Qed.

(** ** Draining the window's events *)

Lemma try_next_event_queued w e w' :
  try_next_event w = (Some e, w') → queued_events w = S (queued_events w').
Proof.
  unfold try_next_event, queued_events. destruct (ws_control w) as [|x control] eqn:Ec; cbn.
  - destruct (ws_normal w) as [|x normal]; [done|]. intros [= _ <-]. cbn. lia.
  - intros [= _ <-]. cbn. lia.
Qed.
(** The loop of [pump_window_events] ends with empty queues unless an event fails. *)
Lemma pump_window_events_drained clock (rt rt' : runtime) :
  pump_window_events clock rt = Some (Ok tt, rt') → queued_events (rt_window rt') = 0%nat.
Proof.
  unfold pump_window_events.
  assert (queued_events (rt_window rt) < S (queued_events (rt_window rt)))%nat as Hlt by lia.
  revert Hlt. generalize (S (queued_events (rt_window rt))). intros fuel. revert rt.
  induction fuel as [|fuel IH]; intros rt Hlt E; [lia|]. cbn in E.
  destruct (try_next_event (rt_window rt)) as [[event|] w] eqn:Et.
  - apply try_next_event_queued in Et.
    destruct (input_event_dropped _ event); [apply IH in E; [done|cbn; lia]|].
    destruct (handle_window_event _ event _) as [[[[]|e] c]|]; [| |done]; [|done]. cbn in E.
    destruct (is_closed_event event); [done|]. apply IH in E; [done|cbn; lia].
  - injection E as <-. unfold try_next_event in Et.
    destruct (ws_control (rt_window rt)) eqn:Ec; [|done]. cbn in Et.
    destruct (ws_normal (rt_window rt)) eqn:En; [|done]. unfold queued_events. by rewrite Ec, En.
Qed.

(** Input over an unfocused window ends the session: a controlling session whose
    window is not focused is closed by the first queued mouse move, because the input
    controller's refusal is returned as a fatal error of the loop. *)
Theorem unfocused_input_closes_session (rt : runtime) (now x y : Z) (clock : nat → Z)
    (sent : bool) s :
  ensure_active (rt_session rt) now = (Ok tt, s) → can_control (rt_session rt) = true →
  np_errors (rt_pipeline rt) = [] →
  ic_shutdown (rt_input rt) = false → ic_focused (rt_input rt) = false →
  ws_control (rt_window rt) = [] → ws_normal (rt_window rt) = [Window_Input (Input_MouseMove x y)] →
  ∃ rt', run_iteration rt (Rt_Poll now clock sent) =
    Some (Some (Err (Runtime_Input Controller_NotFocused)), rt') ∧ closed rt'.
Proof.
  intros Ha Hc Hp Hs Hf Hctl Hn. cbn [run_iteration]. unfold run_poll, poll_error. rewrite Hp.
  cbn [rt_session rt_set_pipeline]. rewrite Ha. apply ensure_active_valid in Ha as [_ ->].
  unfold pump_window_events. cbn [rt_window rt_set_session rt_set_pipeline].
  unfold queued_events. rewrite Hctl, Hn. cbn [length Nat.add pump_events].
  unfold try_next_event. cbn [rt_window rt_set_session rt_set_pipeline].
  rewrite Hctl, Hn. cbn [ControlEventQueue_pop]. unfold input_event_dropped.
  cbn [rt_session rt_set_window rt_set_session rt_set_pipeline]. rewrite Hc. cbn [negb].
  cbn [rt_input rt_set_window rt_set_session rt_set_pipeline].
  unfold handle_window_event. rewrite Hs. unfold enqueue_input. rewrite Hf. cbn [negb].
  cbn [mbind option_bind]. eexists. split; [reflexivity|]. apply fail_closed_closed.
Qed.
End theorems.

(** ** A concrete runtime *)

#[local] Existing Instance toy_ed25519.
#[local] Existing Instance toy_aead.
#[local] Existing Instance countable_input.
#[local] Instance sample_capability_prost : Prost SessionCapability := countable_prost _.
#[local] Instance sample_cursor_prost : Prost CursorPosition := {|
  prost_encode _ := []; prost_decode _ := None |}.
#[local] Instance sample_shape_prost : Prost CursorShape := {|
  prost_encode _ := []; prost_decode _ := None |}.

Definition sample_runtime_session (permissions : list string) (state : ClientState)
    (deadline : option Z) : ClientSession :=
  mkClientSession (mkSessionCapability 1 "cp" "s1" "alice" "client-1" "agent-1" permissions []
      100 220 [x07] 1 1 [] good_sig) sample_client_token state deadline (Some 120)
    (Duration_from_secs 60) (Duration_from_secs 30)
    (mkClientVerification (replicate 32 x09) (replicate 32 x09) "relay-eu").
Definition sample_window (normal : list WindowEvent) : WindowShared :=
  mkWindowShared WindowConfig_default [] [] normal RenderQueue_new 7 false true.
Definition sample_input (queue : list bytes) : InputController :=
  mkInputController (mkMonitorInfo 0 0 0 1280 720 1065353216) false false queue 64 240 [].
Definition sample_runtime (session : ClientSession) (window : WindowShared) (queue : list bytes) :
    ClientRuntime unit :=
  mkClientRuntime (mkConnection 1 false []) session (ClientReceiver_new (replicate 32 x01) 1)
    window (sample_input queue) 0 0 None None None (NativePipeline_start tt) false false.

Definition sample_clock : nat → Z := λ _, 0.
Definition sample_connected := sample_runtime_session ["desktop.view"; "desktop.control"]
  Client_Connected None.
Definition sample_reconnecting := sample_runtime_session ["desktop.view"; "desktop.control"]
  Client_Reconnecting (Some 150).

Lemma runtime_fails_closed_witness :
  ∃ rt', ClientRuntime_run (sample_runtime sample_connected (sample_window []) [[x01]])
      [Rt_Datagram 130 (Err Conn_TimedOut) 130] =
    Some (Some (Err (Runtime_Transport Conn_TimedOut)), rt') ∧ closed rt'.
Proof.
  eexists. split; [reflexivity|].
  eapply (runtime_fails_closed (sample_runtime sample_connected (sample_window []) [[x01]]) _
    [Rt_Datagram 130 (Err Conn_TimedOut) 130]); reflexivity.
Defined.

Lemma runtime_sends_authorised_witness :
  ∃ rt', ClientRuntime_run (sample_runtime sample_connected (sample_window []) [[x01]; [x02]])
      [Rt_Poll 130 sample_clock true; Rt_Poll 300 sample_clock true] =
    Some (Some (Err (Runtime_Session ClientErr_CapabilityExpired)), rt') ∧
    ∃ new, cn_sent (rt_connection rt') = [] ++ new ∧
      (new ≠ [] → can_control sample_connected = true) ∧
      (length new ≤ length (List.filter (valid_poll (D := unit) sample_connected)
         [Rt_Poll 130 sample_clock true; Rt_Poll 300 sample_clock true]))%nat.
Proof.
  eexists. split; [vm_compute; reflexivity|].
  eapply (runtime_sends_authorised (sample_runtime sample_connected (sample_window []) [[x01]; [x02]])
    _ [Rt_Poll 130 sample_clock true; Rt_Poll 300 sample_clock true]).
  vm_compute. reflexivity.
Defined.

Definition sample_attempts : list ConnectAttempt :=
  [mkConnectAttempt false 140 Connect_Rejected 141 false;
   mkConnectAttempt false 145 (Connect_Failed Conn_TimedOut) 146 false;
   mkConnectAttempt false 151 (Connect_Ok 2) 152 false].

Lemma reconnect_terminates_witness :
  ∃ r rt', reconnect_with_retry (sample_runtime sample_reconnecting (sample_window []) [[x01]])
      sample_attempts = Some (r, rt') ∧
    (r = Ok tt → cs_state (rt_session rt') = Client_Connected) ∧
    (∀ e, r = Err e → closed rt' ∨ e = Runtime_Shutdown).
Proof.
  apply (reconnect_terminates _ 150 sample_attempts 2
    (mkConnectAttempt false 151 (Connect_Ok 2) 152 false));
    [split; reflexivity|reflexivity|reflexivity].
Defined.

Lemma reconnect_starts_clean_witness :
  ∃ rt', reconnect_with_retry (sample_runtime sample_reconnecting (sample_window []) [[x01]])
      [mkConnectAttempt false 140 Connect_Rejected 141 false;
       mkConnectAttempt false 145 (Connect_Ok 2) 146 false] = Some (Ok tt, rt') ∧
    clean_start (NativePipeline_start tt) rt'.
Proof.
  eexists. split; [vm_compute; reflexivity|].
  eapply (reconnect_starts_clean (sample_runtime sample_reconnecting (sample_window []) [[x01]]) _
    [mkConnectAttempt false 140 Connect_Rejected 141 false;
     mkConnectAttempt false 145 (Connect_Ok 2) 146 false] 120); [reflexivity|].
  vm_compute. reflexivity.
Defined.

Lemma idle_timeout_closes_session_witness :
  ∃ rt', run_iteration (sample_runtime sample_connected (sample_window []) [])
      (Rt_Datagram 130 (Err Conn_TimedOut) 130) =
    Some (Some (Err (Runtime_Transport Conn_TimedOut)), rt') ∧ closed rt'.
Proof.
  destruct (idle_timeout_closes_session (sample_runtime sample_connected (sample_window []) [])
    130 130 sample_connected) as [H _]; [vm_compute; reflexivity|reflexivity|exact H].
Defined.
Lemma unfocused_input_closes_session_witness :
  ∃ rt', run_iteration (sample_runtime sample_connected
        (sample_window [Window_Input (Input_MouseMove 10 10)]) [])
      (Rt_Poll 130 sample_clock true) =
    Some (Some (Err (Runtime_Input Controller_NotFocused)), rt') ∧ closed rt'.
Proof.
  apply (unfocused_input_closes_session (sample_runtime sample_connected
    (sample_window [Window_Input (Input_MouseMove 10 10)]) []) 130 10 10 sample_clock true
    sample_connected); [vm_compute; reflexivity|reflexivity..].
Defined.
