(* ===== verification/RelayForward.v ===== *)
(** * Relay handshake and stream forwarding (apps/nexus-relay/src/forwarder.rs)

    A receive stream is the pieces in which the transport hands out its bytes and the way
    it ends.  JSON is the parameter of the enrollment files; the texts of errors of the
    QUIC library are parameters. *)

From stdpp Require Import pretty.
From S2P Require Import Prelude Common Protocol Enrollment Storage Crypto Relay.

Open Scope string_scope.
Open Scope list_scope.
Open Scope Z_scope.

(** ** Streams *)

Inductive StreamEnd := End_Finished | End_Error (text : string).
Record RecvStream := mkRecvStream { st_chunks : list bytes; st_end : StreamEnd }.

Definition put_back (rest : bytes) (chunks : list bytes) : list bytes :=
  match rest with [] => chunks | _ => rest :: chunks end.

(** [recv.read(&mut buf)] with a buffer of [n] bytes. *)
Definition stream_read (s : RecvStream) (n : nat) : result string (option bytes) * RecvStream :=
  match st_chunks s with
  | [] => (match st_end s with End_Finished => Ok None | End_Error e => Err e end, s)
  | c :: cs => (Ok (Some (take n c)), mkRecvStream (put_back (drop n c) cs) (st_end s))
  end.

(** [recv.read_exact(&mut buf)]. *)
Fixpoint take_exact (n : nat) (chunks : list bytes) : option (bytes * list bytes) :=
  match n, chunks with
  | O, _ => Some ([], chunks)
  | _, [] => None
  | _, c :: cs =>
      if (n <=? length c)%nat then Some (take n c, put_back (drop n c) cs)
      else '(b, rest) ← take_exact (n - length c) cs; Some (c ++ b, rest)
  end.

(** The text of [ReadExactError::FinishedEarly]. *)
Class QuinnText := finished_early : Z → string.
Definition read_exact `{QuinnText} (s : RecvStream) (n : nat) :
    result string (bytes * RecvStream) :=
  match take_exact n (st_chunks s) with
  | Some (b, rest) => Ok (b, mkRecvStream rest (st_end s))
  | None => Err (match st_end s with
                 | End_Finished => finished_early (len (concat (st_chunks s)))
                 | End_Error e => e
                 end)
  end.

(** ** Messages *)

Inductive RelayServerError :=
  | Server_Io (text : string) | Server_Quic (text : string) | Server_WriteError (text : string)
  | Server_ReadError (text : string) | Server_ClosedStream (text : string)
  | Server_Tls (text : string) | Server_Certificate (text : string)
  | Server_Token (e : RelayTokenError) | Server_Session (e : SessionPairingError)
  | Server_Protocol (text : string) | Server_HandshakeRejected (text : string) | Server_Closed.

Definition RelayTokenError_to_string (e : RelayTokenError) : string :=
  match e with
  | Relay_InvalidSignature => "invalid relay token signature"
  | Relay_Expired => "relay token is expired"
  | Relay_WrongRelay => "relay token targets a different relay"
  | Relay_SignatureLength => "relay token signature has invalid length"
  | Relay_InvalidRelayId => "relay token has an empty relay id"
  | Relay_MissingField name => String.append "relay token is missing required field: " name
  | Relay_FieldTooLong name => String.append "relay token field is too long: " name
  end.
Definition SessionPairingError_to_string (e : SessionPairingError) : string :=
  match e with
  | Pairing_RoleAlreadyConnected => "endpoint role already connected for session"
  | Pairing_IdentityMismatch => "session has incompatible endpoint identities"
  | Pairing_Expired => "session token expired"
  end.
Definition RelayServerError_to_string (e : RelayServerError) : string :=
  match e with
  | Server_Io t => String.append "I/O error: " t
  | Server_Quic t => String.append "QUIC connection error: " t
  | Server_WriteError t => String.append "QUIC write error: " t
  | Server_ReadError t => String.append "QUIC read error: " t
  | Server_ClosedStream t => String.append "QUIC stream closed: " t
  | Server_Tls t => String.append "TLS configuration error: " t
  | Server_Certificate t => String.append "certificate error: " t
  | Server_Token e => String.append "token error: " (RelayTokenError_to_string e)
  | Server_Session e => String.append "session error: " (SessionPairingError_to_string e)
  | Server_Protocol t => String.append "protocol error: " t
  | Server_HandshakeRejected t => String.append "handshake rejected: " t
  | Server_Closed => "server closed"
  end.

Record RelayHandshakeRequest := mkRelayHandshakeRequest { rq_token : RelayToken }.
Record RelayHandshakeResponse := mkRelayHandshakeResponse {
  rp_success : bool;
  rp_session_id : option string;
  rp_role : option EndpointRole;
  rp_is_paired : option bool;
  rp_error : option string
}.

Definition MAX_HANDSHAKE_MSG_SIZE : Z := 64 * 1024.

(** ** Reading and writing the handshake *)

(** The loop that fills [initial]; every turn but the last adds a byte. *)
Fixpoint read_initial (fuel : nat) (initial : bytes) (s : RecvStream) :
    result RelayServerError (bytes * RecvStream) :=
  match fuel with
  | O => Ok (initial, s)
  | S fuel =>
      if (4 <=? length initial)%nat then Ok (initial, s) else
      match stream_read s (4 - length initial) with
      | (Err e, _) => Err (Server_ReadError e)
      | (Ok None, s) | (Ok (Some []), s) => Ok (initial, s)
      | (Ok (Some b), s) => read_initial fuel (initial ++ b) s
      end
  end.

(** The loop over a stream that starts with a brace; [None] is out of fuel. *)
Fixpoint read_raw (fuel : nat) (buf : bytes) (s : RecvStream) :
    option (result RelayServerError bytes) :=
  match fuel with
  | O => None
  | S fuel =>
      match stream_read s 1024 with
      | (Err e, _) => Some (Err (Server_ReadError e))
      | (Ok None, _) | (Ok (Some []), _) => Some (Ok buf)
      | (Ok (Some b), s) =>
          if MAX_HANDSHAKE_MSG_SIZE <? len buf + len b
          then Some (Err (Server_Protocol "handshake message exceeded maximum size"))
          else read_raw fuel (buf ++ b) s
      end
  end.

Section handshake.
Context `{QuinnText}.
Context `{SerdeJson RelayHandshakeRequest, SerdeJsonDe RelayHandshakeRequest}.
Context `{SerdeJson RelayToken, SerdeJsonDe RelayToken}.
Context `{SerdeJson RelayHandshakeResponse, SerdeJsonDe RelayHandshakeResponse}.

Definition parse_handshake (payload : bytes) : result RelayServerError RelayToken :=
  match json_from_slice (A:=RelayHandshakeRequest) payload with
  | Ok req => Ok (rq_token req)
  | Err _ => map_err (λ e, Server_Protocol (String.append "failed to parse RelayToken: " e))
               (json_from_slice payload)
  end.

Definition read_prefixed (initial : bytes) (s : RecvStream) : result RelayServerError bytes :=
  if (length initial <? 4)%nat
  then Err (Server_Protocol "incomplete length prefix in handshake stream") else
  let length := from_be_bytes initial in
  if (length =? 0) || (MAX_HANDSHAKE_MSG_SIZE <? length)
  then Err (Server_Protocol (String.append "invalid handshake payload length: " (pretty length)))
  else fst <$> map_err
    (λ e, Server_Protocol (String.append "failed to read handshake payload: " e))
    (read_exact s (Z.to_nat length)).

Definition read_handshake_token (s : RecvStream) : option (result RelayServerError RelayToken) :=
  match read_initial 4 [] s with
  | Err e => Some (Err e)
  | Ok ([], _) => Some (Err (Server_Protocol "empty handshake stream"))
  | Ok (b :: initial, s) =>
      payload ← if bool_decide (b = x7b)
                then read_raw (S (length (concat (st_chunks s)))) (b :: initial) s
                else Some (read_prefixed (b :: initial) s);
      Some (payload ← payload; parse_handshake payload)
  end.

(** The bytes written to a stream: a length as [u32] and the message. *)
Definition with_length (b : bytes) : bytes := to_be_bytes 4 (wrap 32 (len b)) ++ b.
Definition write_handshake_response (response : RelayHandshakeResponse) :
    result RelayServerError bytes :=
  with_length <$> map_err
    (λ e, Server_Protocol (String.append "failed to serialize response: " e))
    (json_to_vec response).

(** [perform_client_handshake] writes the request, then reads the response. *)
Definition client_handshake_request (token : RelayToken) : result RelayServerError bytes :=
  with_length <$> map_err
    (λ e, Server_Protocol (String.append "failed to serialize request: " e))
    (json_to_vec (mkRelayHandshakeRequest token)).
Definition client_handshake_response (s : RecvStream) :
    result RelayServerError RelayHandshakeResponse :=
  '(len_buf, s) ← map_err
    (λ e, Server_Protocol (String.append "failed to read handshake response length: " e))
    (read_exact s 4);
  let resp_len := from_be_bytes len_buf in
  if MAX_HANDSHAKE_MSG_SIZE <? resp_len
  then Err (Server_Protocol "handshake response payload too large") else
  '(resp_buf, _) ← map_err
    (λ e, Server_Protocol (String.append "failed to read handshake response body: " e))
    (read_exact s (Z.to_nat resp_len));
  resp ← map_err
    (λ e, Server_Protocol (String.append "failed to parse handshake response: " e))
    (json_from_slice (A:=RelayHandshakeResponse) resp_buf);
  if negb (rp_success resp)
  then Err (Server_HandshakeRejected (default "handshake rejected" (rp_error resp)))
  else Ok resp.
End handshake.

(** ** The handshake does not depend on how the transport cuts the stream *)

(** A stream of an honest transport: no empty pieces, and a regular end. *)
Definition delivers (s : RecvStream) (b : bytes) : Prop :=
  Forall (λ c, c ≠ []) (st_chunks s) ∧ st_end s = End_Finished ∧ concat (st_chunks s) = b.

Lemma put_back_concat r cs : concat (put_back r cs) = r ++ concat cs.
Proof. by destruct r. Qed.

Lemma put_back_nonempty r cs :
  Forall (λ c : bytes, c ≠ []) cs → Forall (λ c, c ≠ []) (put_back r cs).
Proof. destruct r; [done|]. by constructor. Qed.

Lemma stream_read_delivers s n b :
  (0 < n)%nat → delivers s b →
  (b = [] ∧ stream_read s n = (Ok None, s)) ∨
  ∃ x p s' b', stream_read s n = (Ok (Some (x :: p)), s') ∧ (length (x :: p) ≤ n)%nat ∧
    b = (x :: p) ++ b' ∧ delivers s' b'.
Proof.
  intros Hn (Hne & He & <-). unfold stream_read. destruct (st_chunks s) as [|c cs] eqn:Ec.
  - left. by rewrite He.
  - right. apply Forall_cons in Hne as [Hc Hcs]. destruct n as [|n]; [lia|].
    destruct c as [|x c]; [done|]. exists x, (take n c), (mkRecvStream (put_back (drop n c) cs)
      (st_end s)), (drop n c ++ concat cs). split_and!; [done|cbn; rewrite length_take; lia| |].
    + cbn. by rewrite app_assoc, take_drop.
    + split_and!; [by apply put_back_nonempty|done|apply put_back_concat].
Qed.

Lemma read_initial_spec fuel initial s b :
  (4 - length initial ≤ fuel)%nat → delivers s b → (length initial ≤ 4)%nat →
  ∃ s', read_initial fuel initial s = Ok (initial ++ take (4 - length initial) b, s') ∧
        delivers s' (drop (4 - length initial) b).
Proof.
  revert initial s b. induction fuel as [|fuel IH]; intros initial s b Hf Hs Hi; cbn [read_initial].
  - replace (4 - length initial)%nat with O by lia. exists s. rewrite app_nil_r. by split.
  - case_match eqn:E4; [apply Nat.leb_le in E4|apply Nat.leb_gt in E4].
    { replace (4 - length initial)%nat with O by lia. exists s. rewrite app_nil_r. by split. }
    destruct (stream_read_delivers s (4 - length initial) b) as
      [[-> E]|(x & p & s' & b' & E & Hl & -> & Hs')]; [lia|done|..]; rewrite E.
    + exists s. rewrite take_nil, drop_nil, app_nil_r. by split.
    + destruct (IH (initial ++ x :: p) s' b') as (s2 & E2 & Hs2);
        [rewrite length_app; cbn in *; lia|done|rewrite length_app; lia|].
      exists s2. rewrite E2. rewrite length_app, Nat.sub_add_distr in *.
      rewrite take_app_ge, drop_app_ge by lia. by rewrite <-app_assoc.
Qed.

Lemma read_raw_spec fuel buf s b :
  (length b < fuel)%nat → delivers s b → len buf ≤ MAX_HANDSHAKE_MSG_SIZE →
  read_raw fuel buf s = Some
    (if MAX_HANDSHAKE_MSG_SIZE <? len (buf ++ b)
     then Err (Server_Protocol "handshake message exceeded maximum size") else Ok (buf ++ b)).
Proof.
  revert buf s b. induction fuel as [|fuel IH]; intros buf s b Hf Hs Hb; [lia|].
  cbn [read_raw].
  destruct (stream_read_delivers s 1024 b) as
    [[-> E]|(x & p & s' & b' & E & Hl & -> & Hs')]; [lia|done|..]; rewrite E.
  - rewrite app_nil_r. by rewrite (proj2 (Z.ltb_ge _ _)) by lia.
  - rewrite app_assoc. destruct (Z.ltb_spec MAX_HANDSHAKE_MSG_SIZE (len buf + len (x :: p))).
    + rewrite (proj2 (Z.ltb_lt _ _)); [done|]. rewrite !len_app. pose proof (len_nonneg b'). lia.
    + rewrite length_app in Hf. cbn in Hf. apply IH; [lia|done|]. rewrite len_app. lia.
Qed.

Lemma take_exact_spec n chunks :
  if (n <=? length (concat chunks))%nat
  then ∃ rest, take_exact n chunks = Some (take n (concat chunks), rest) ∧
         concat rest = drop n (concat chunks) ∧
         (Forall (λ c, c ≠ []) chunks → Forall (λ c, c ≠ []) rest)
  else take_exact n chunks = None.
Proof.
  revert n. induction chunks as [|c cs IH]; intros n; cbn [concat].
  - destruct n; [|done]. by exists [].
  - destruct n as [|n]; [by exists (c :: cs)|]. cbn [take_exact].
    destruct (S n <=? length c)%nat eqn:E; [apply Nat.leb_le in E|apply Nat.leb_gt in E].
    + rewrite (proj2 (Nat.leb_le _ _)) by (rewrite length_app; lia).
      exists (put_back (drop (S n) c) cs). rewrite take_app_le, drop_app_le by lia.
      split_and!; [done|apply put_back_concat|]. intros [_ ?]%Forall_cons.
      by apply put_back_nonempty.
    + specialize (IH (S n - length c)%nat). rewrite length_app.
      destruct (S n - length c <=? length (concat cs))%nat eqn:E'.
      * apply Nat.leb_le in E'. rewrite (proj2 (Nat.leb_le _ _)) by lia.
        destruct IH as (rest & -> & Er & Hn). exists rest. cbn.
        rewrite take_app_ge, drop_app_ge by lia. split_and!; [done|done|].
        intros [_ ?]%Forall_cons. auto.
      * apply Nat.leb_gt in E'. rewrite (proj2 (Nat.leb_gt _ _)) by lia. by rewrite IH.
Qed.

Section handshake_laws.
Context `{QuinnText}.
Context `{SerdeJson RelayHandshakeRequest, SerdeJsonDe RelayHandshakeRequest}.
Context `{SerdeJson RelayToken, SerdeJsonDe RelayToken}.
Context `{SerdeJson RelayHandshakeResponse, SerdeJsonDe RelayHandshakeResponse}.

Lemma read_exact_delivers s n b :
  delivers s b →
  if (n <=? length b)%nat
  then ∃ s', read_exact s n = Ok (take n b, s') ∧ delivers s' (drop n b)
  else read_exact s n = Err (finished_early (len b)).
Proof.
  intros (Hne & He & <-). unfold read_exact. pose proof (take_exact_spec n (st_chunks s)) as Ht.
  destruct (_ <=? _)%nat.
  - destruct Ht as (rest & -> & Hr & Hf). eexists. split; [done|]. by split_and!; [auto|..].
  - by rewrite Ht, He.
Qed.

(** The message a whole handshake stream carries. *)
Definition handshake_message (b : bytes) : result RelayServerError bytes :=
  match b with
  | [] => Err (Server_Protocol "empty handshake stream")
  | c :: _ =>
      if bool_decide (c = x7b) then
        if MAX_HANDSHAKE_MSG_SIZE <? len b
        then Err (Server_Protocol "handshake message exceeded maximum size") else Ok b
      else if len b <? 4
      then Err (Server_Protocol "incomplete length prefix in handshake stream") else
      let n := from_be_bytes (take 4 b) in
      if (n =? 0) || (MAX_HANDSHAKE_MSG_SIZE <? n)
      then Err (Server_Protocol (String.append "invalid handshake payload length: " (pretty n)))
      else if len b - 4 <? n
      then Err (Server_Protocol
             (String.append "failed to read handshake payload: " (finished_early (len b - 4))))
      else Ok (take (Z.to_nat n) (drop 4 b))
  end.

Lemma read_handshake_delivers s b :
  delivers s b →
  read_handshake_token s = Some (m ← handshake_message b; parse_handshake m).
Proof.
  intros Hs. unfold read_handshake_token.
  destruct (read_initial_spec 4 [] s b) as (s' & -> & Hs'); [cbn; lia|done|cbn; lia|].
  cbn [length Nat.sub app] in *. destruct b as [|c b]; [done|]. cbn [take].
  unfold handshake_message. case_bool_decide as Hc.
  - destruct Hs' as (Hn & He & Hd). rewrite Hd. cbn [drop].
    rewrite (read_raw_spec _ _ _ (drop 3 b)); [|lia|done|].
    + cbn [app]. rewrite take_drop. by destruct (_ <? _).
    + unfold len, MAX_HANDSHAKE_MSG_SIZE. cbn. rewrite length_take. lia.
  - cbn [mbind option_bind]. f_equal. unfold read_prefixed.
    set (bs := c :: b) in *. change (c :: take 3 b) with (take 4 bs). rewrite length_take.
    destruct (Z.ltb_spec (len bs) 4) as [Hl|Hl]; unfold len in Hl.
    { rewrite (proj2 (Nat.ltb_lt _ _)) by lia. done. }
    rewrite (proj2 (Nat.ltb_ge _ _)) by lia. set (n := from_be_bytes (take 4 bs)).
    destruct (_ || _) eqn:En; [done|]. apply orb_false_iff in En as [En _].
    pose proof (from_be_bytes_bound (take 4 bs)) as Hb. fold n in Hb.
    pose proof (read_exact_delivers s' (Z.to_nat n) _ Hs') as Hr. rewrite length_drop in Hr.
    destruct (Z.ltb_spec (len bs - 4) n) as [Hlt|Hge]; unfold len in *.
    + rewrite (proj2 (Nat.leb_gt _ _)) in Hr by lia. rewrite Hr. cbn. unfold len.
      rewrite length_drop. cbn in Hl. do 4 f_equal. lia.
    + rewrite (proj2 (Nat.leb_le _ _)) in Hr by lia. by destruct Hr as (s2 & -> & _).
Qed.

Lemma delivers_with_length s j :
  delivers s (with_length j) → len j ≤ MAX_HANDSHAKE_MSG_SIZE →
  ∃ p, with_length j = p ++ j ∧ length p = 4%nat ∧ from_be_bytes p = len j ∧
       ∃ c q, p = c :: q ∧ c ≠ x7b.
Proof.
  unfold MAX_HANDSHAKE_MSG_SIZE. intros _ Hj. pose proof (len_nonneg j).
  exists (to_be_bytes 4 (wrap 32 (len j))). unfold wrap. rewrite Z.mod_small by lia.
  split_and!; [unfold with_length, wrap; by rewrite Z.mod_small by lia|apply length_to_be_bytes| |].
  - apply from_to_be_bytes_small. cbn. lia.
  - destruct (to_be_bytes 4 (len j)) as [|c q] eqn:E;
      [by apply (f_equal length) in E; rewrite length_to_be_bytes in E|].
    exists c, q. split; [done|]. intros ->.
    pose proof (from_to_be_bytes_small 4 (len j)) as Hf. rewrite E in Hf.
    pose proof (length_to_be_bytes 4 (len j)) as Hq. rewrite E in Hq. cbn in Hq.
    pose proof (from_be_bytes_bound q) as Hb.
    assert (length q = 3%nat) as Hq3 by (cbn in Hq; lia).
    change (from_be_bytes (x7b :: q)) with
      (of_byte x7b * 256 ^ Z.of_nat (length q) + from_be_bytes q) in Hf.
    rewrite Hq3 in Hf. change (of_byte x7b * 256 ^ Z.of_nat 3) with 2063597568 in Hf. lia.
Qed.

Context `{!SerdeJsonDeLaws RelayHandshakeRequest, !SerdeJsonDeLaws RelayToken,
          !SerdeJsonDeLaws RelayHandshakeResponse}.

(** The relay handshake, however the transport cuts the streams: the server's reader
    is a function of the bytes of the stream alone, with every malformed stream refused
    (empty, cut short, oversized, zero length); it reads back the token a client sends
    with the length prefix, and one sent as bare JSON that starts with a brace; and the
    client reads back the server's response, or the rejection it carries. *)
Theorem relay_handshake_round_trip token response sent reply bare s s' s'' :
  client_handshake_request token = Ok sent → delivers s sent →
  len sent ≤ 4 + MAX_HANDSHAKE_MSG_SIZE → 4 < len sent →
  json_to_vec token = Ok (x7b :: bare) → delivers s' (x7b :: bare) →
  (∃ e, json_from_slice (A:=RelayHandshakeRequest) (x7b :: bare) = Err e) →
  len (x7b :: bare) ≤ MAX_HANDSHAKE_MSG_SIZE →
  write_handshake_response response = Ok reply → delivers s'' reply →
  len reply ≤ 4 + MAX_HANDSHAKE_MSG_SIZE →
  (∀ stream b, delivers stream b →
     read_handshake_token stream = Some (m ← handshake_message b; parse_handshake m)) ∧
  read_handshake_token s = Some (Ok token) ∧
  read_handshake_token s' = Some (Ok token) ∧
  client_handshake_response s'' =
    if rp_success response then Ok response
    else Err (Server_HandshakeRejected (default "handshake rejected" (rp_error response))).
Proof.
  intros Hreq Hs Hls Hl0 Hbare Hs' [e He] Hlb Hresp Hs'' Hlr.
  split_and!; [exact read_handshake_delivers| | |].
  - rewrite (read_handshake_delivers _ _ Hs). unfold client_handshake_request in Hreq.
    destruct (json_to_vec _) as [j|] eqn:Ej; [|done]. cbn in Hreq. injection Hreq as <-.
    assert (len (with_length j) = 4 + len j) as Hlen
      by (unfold with_length; rewrite len_app; unfold len; by rewrite length_to_be_bytes).
    destruct (delivers_with_length _ _ Hs) as (p & Ep & Hp & Hn & c & q & -> & Hc); [lia|].
    rewrite Ep. unfold handshake_message. cbn [app]. rewrite bool_decide_false by done.
    change (c :: q ++ j) with ((c :: q) ++ j). rewrite take_app_length', drop_app_length' by done.
    rewrite <-Ep, Hlen, Hn. destruct (Z.ltb_spec (4 + len j) 4); [lia|].
    destruct (Z.eqb_spec (len j) 0); [lia|]. destruct (Z.ltb_spec MAX_HANDSHAKE_MSG_SIZE (len j)); [lia|].
    cbn [orb]. destruct (Z.ltb_spec (4 + len j - 4) (len j)); [lia|].
    unfold len. rewrite Nat2Z.id, firstn_all. cbn. unfold parse_handshake.
    by rewrite (json_from_to _ _ Ej).
  - rewrite (read_handshake_delivers _ _ Hs'). unfold handshake_message.
    rewrite bool_decide_true by done. rewrite (proj2 (Z.ltb_ge _ _)) by done. cbn.
    unfold parse_handshake. by rewrite He, (json_from_to _ _ Hbare).
  - unfold write_handshake_response in Hresp. unfold client_handshake_response.
    destruct (json_to_vec response) as [j|] eqn:Ej; [|done]. cbn in Hresp. injection Hresp as <-.
    assert (len (with_length j) = 4 + len j) as Hlen
      by (unfold with_length; rewrite len_app; unfold len; by rewrite length_to_be_bytes).
    destruct (delivers_with_length _ _ Hs'') as (p & Ep & Hp & Hn & _); [lia|]. rewrite Ep in Hs''.
    pose proof (read_exact_delivers _ 4 _ Hs'') as Hr.
    rewrite length_app, Hp, (proj2 (Nat.leb_le _ _)) in Hr by lia.
    destruct Hr as (s2 & -> & Hs2). rewrite take_app_length', drop_app_length' in * by done.
    cbn. rewrite Hn. rewrite (proj2 (Z.ltb_ge _ _)) by lia.
    pose proof (read_exact_delivers _ (Z.to_nat (len j)) _ Hs2) as Hr. unfold len in Hr.
    rewrite Nat2Z.id, Nat.leb_refl, firstn_all in Hr. destruct Hr as (s3 & Hr & _).
    unfold len. rewrite Nat2Z.id, Hr. cbn. rewrite (json_from_to _ _ Ej). cbn.
    by destruct (rp_success response).
Qed.
End handshake_laws.

(** ** Copying a stream *)

(** One direction of a bridge: what is left to read, what was written to the other side,
    and how the loop ended.  A failed write has written some of its bytes. *)
Inductive CopyState :=
  | Copy_Running | Copy_Finished | Copy_Reset | Copy_Broken (partial : nat).
Record Direction := mkDirection {
  dr_recv : RecvStream; dr_written : bytes; dr_state : CopyState
}.
Definition Direction_new (recv : RecvStream) : Direction := mkDirection recv [] Copy_Running.

(** [vec![0u8; 64 * 1024]] *)
Definition BRIDGE_BUFFER : nat := 64 * 1024.

(** One turn of a copy loop; [write] is how many bytes a failing [write_all] got out. *)
Definition copy_step (role : EndpointRole) (session : RelaySession) (d : Direction)
    (write : option nat) : RelaySession * Direction :=
  match dr_state d with
  | Copy_Running =>
      match stream_read (dr_recv d) BRIDGE_BUFFER with
      | (Ok (Some b), recv) =>
          match write with
          | None => (RelaySession_record_forward session role (len b),
                     mkDirection recv (dr_written d ++ b) Copy_Running)
          | Some n => (session, mkDirection recv (dr_written d ++ take n b)
                                  (Copy_Broken (length (take n b))))
          end
      | (Ok None, recv) => (session, mkDirection recv (dr_written d) Copy_Finished)
      | (Err _, recv) => (session, mkDirection recv (dr_written d) Copy_Reset)
      end
  | _ => (session, d)
  end.

(** The two copies of a bridge share the session; [initiator] opened the stream. *)
Record Bridge := mkBridge {
  br_session : RelaySession; br_initiator : EndpointRole; br_to_peer : Direction;
  br_to_client : Direction
}.
Definition bridge_bistreams (client_side_recv peer_side_recv : RecvStream)
    (session : RelaySession) (initiator_role : EndpointRole) : Bridge :=
  mkBridge session initiator_role (Direction_new client_side_recv)
    (Direction_new peer_side_recv).

Inductive BridgeTurn := Turn_ToPeer (write : option nat) | Turn_ToClient (write : option nat).
Definition bridge_step (b : Bridge) (turn : BridgeTurn) : Bridge :=
  match turn with
  | Turn_ToPeer write =>
      let '(session, d) := copy_step (br_initiator b) (br_session b) (br_to_peer b) write in
      mkBridge session (br_initiator b) d (br_to_client b)
  | Turn_ToClient write =>
      let '(session, d) :=
        copy_step (EndpointRole_peer (br_initiator b)) (br_session b) (br_to_client b) write in
      mkBridge session (br_initiator b) (br_to_peer b) d
  end.
Definition bridge_run (b : Bridge) (turns : list BridgeTurn) : Bridge :=
  fold_left bridge_step turns b.

(** A datagram: counted, then sent; only a lost connection ends the loop. *)
Inductive SendDatagram := Datagram_Sent | Datagram_Dropped | Datagram_ConnectionLost.
Definition forward_datagram (role : EndpointRole) (session : RelaySession) (dgram : bytes)
    (send : SendDatagram) : RelaySession * option bytes * bool :=
  (RelaySession_record_forward session role (len dgram),
   match send with Datagram_Sent => Some dgram | _ => None end,
   match send with Datagram_ConnectionLost => false | _ => true end).

(** ** A bridge copies *)

Definition forwarded_bytes (s : RelaySession) (role : EndpointRole) : Z :=
  match role with
  | Role_Client => rm_client_to_host_bytes (rs_metrics s)
  | Role_Host => rm_host_to_client_bytes (rs_metrics s)
  end.

(** The bytes of whole writes: those of a failed one are not counted. *)
Definition counted (d : Direction) : Z :=
  len (dr_written d) - match dr_state d with Copy_Broken n => Z.of_nat n | _ => 0 end.

(** Where a copy of the stream [r] stands. *)
Definition copied (r : RecvStream) (d : Direction) : Prop :=
  match dr_state d with
  | Copy_Running => st_end (dr_recv d) = st_end r ∧
      concat (st_chunks r) = dr_written d ++ concat (st_chunks (dr_recv d))
  | Copy_Finished => st_end r = End_Finished ∧ dr_written d = concat (st_chunks r)
  | Copy_Reset => (∃ e, st_end r = End_Error e) ∧ dr_written d = concat (st_chunks r)
  | Copy_Broken _ => ∃ rest, concat (st_chunks r) = dr_written d ++ rest
  end.

Definition unread (r : RecvStream) : nat := length (concat (st_chunks r)) + length (st_chunks r).
Definition copy_measure (d : Direction) : nat :=
  match dr_state d with Copy_Running => S (unread (dr_recv d)) | _ => O end.

Lemma record_forwarded s role n :
  forwarded_bytes (RelaySession_record_forward s role n) role =
    wrap 64 (forwarded_bytes s role + n) ∧
  forwarded_bytes (RelaySession_record_forward s role n) (EndpointRole_peer role) =
    forwarded_bytes s (EndpointRole_peer role).
Proof. by destruct role. Qed.

Lemma buffer_pos : (0 < BRIDGE_BUFFER)%nat.
Proof. apply Nat.ltb_lt. by vm_compute. Qed.
#[local] Opaque BRIDGE_BUFFER.

Lemma copied_cons c cs e n r w :
  st_end r = e → concat (st_chunks r) = w ++ concat (c :: cs) →
  let recv := mkRecvStream (put_back (drop n c) cs) e in
  st_end recv = st_end r ∧ concat (st_chunks r) = (w ++ take n c) ++ concat (st_chunks recv) ∧
  ∀ m, concat (st_chunks r) = (w ++ take m (take n c)) ++ drop m (take n c) ++ drop n c ++ concat cs.
Proof.
  intros <- E. cbn. rewrite put_back_concat, E. cbn [concat]. split_and!; [done|..].
  - by rewrite <-app_assoc, (app_assoc (take n c)), take_drop.
  - intros m. rewrite <-app_assoc. f_equal. rewrite app_assoc, take_drop.
    by rewrite app_assoc, take_drop.
Qed.

Lemma copy_step_spec r role s d w s' d' c0 :
  copied r d → forwarded_bytes s role = wrap 64 (c0 + counted d) →
  copy_step role s d w = (s', d') →
  copied r d' ∧ forwarded_bytes s' role = wrap 64 (c0 + counted d') ∧
  forwarded_bytes s' (EndpointRole_peer role) = forwarded_bytes s (EndpointRole_peer role) ∧
  (copy_measure d' < copy_measure d ∨ copy_measure d' = O)%nat.
Proof.
  intros Hc Hf. unfold copy_step. destruct (dr_state d) eqn:Ed;
    try (intros [= <- <-]; split_and!; [done..|]; right; unfold copy_measure; by rewrite Ed).
  unfold copied in Hc. rewrite Ed in Hc. destruct Hc as [He Hc]. unfold stream_read.
  unfold counted in Hf. rewrite Ed, Z.sub_0_r in Hf.
  destruct (st_chunks (dr_recv d)) as [|c cs] eqn:Er.
  - cbn in Hc. rewrite app_nil_r in Hc.
    destruct (st_end (dr_recv d)) as [|e] eqn:Ee; intros [= <- <-];
      (split_and!; [unfold copied; cbn; eauto|unfold counted; cbn; by rewrite Z.sub_0_r|done|by right]).
  - destruct (copied_cons c cs _ BRIDGE_BUFFER r (dr_written d) (eq_sym He) Hc) as (E1 & E2 & E3).
    destruct w as [n|]; intros [= <- <-].
    + split_and!; [|unfold counted; cbn|done|by right].
      * eexists. apply (E3 n).
      * by rewrite len_app, Z.add_simpl_r.
    + destruct (record_forwarded s role (len (take BRIDGE_BUFFER c))) as [Fr Fp].
      split_and!; [exact (conj E1 E2)| |exact Fp|].
      * rewrite Fr, Hf. unfold counted. cbn [dr_written dr_state]. rewrite len_app.
        unfold wrap. rewrite Z.add_mod_idemp_l by lia. f_equal. lia.
      * left. unfold copy_measure, unread. rewrite Ed. cbn [dr_state dr_recv st_chunks].
        rewrite put_back_concat, Er, length_app. cbn [concat length]. rewrite length_app, length_drop.
        pose proof buffer_pos.
        destruct c as [|x c]; [rewrite drop_nil; cbn; lia|].
        destruct (drop BRIDGE_BUFFER (x :: c)) eqn:Edr; cbn [put_back length]; lia.
Qed.

Definition to_peer (t : BridgeTurn) : bool :=
  match t with Turn_ToPeer _ => true | Turn_ToClient _ => false end.
Definition turns_of (side : bool) (turns : list BridgeTurn) : nat :=
  length (filter (λ t, to_peer t = side) turns).

(** A bridge after [n] turns of the one copy and [m] of the other. *)
Record bridged (rc rp : RecvStream) (s : RelaySession) (role : EndpointRole) (n m : nat)
    (b : Bridge) : Prop := {
  bd_initiator : br_initiator b = role;
  bd_to_peer : copied rc (br_to_peer b);
  bd_to_client : copied rp (br_to_client b);
  bd_peer_bytes : forwarded_bytes (br_session b) role =
    wrap 64 (forwarded_bytes s role + counted (br_to_peer b));
  bd_client_bytes : forwarded_bytes (br_session b) (EndpointRole_peer role) =
    wrap 64 (forwarded_bytes s (EndpointRole_peer role) + counted (br_to_client b));
  bd_peer_left : (copy_measure (br_to_peer b) + n ≤ S (unread rc) ∨
    copy_measure (br_to_peer b) = O)%nat;
  bd_client_left : (copy_measure (br_to_client b) + m ≤ S (unread rp) ∨
    copy_measure (br_to_client b) = O)%nat
}.

Lemma EndpointRole_peer_involutive r : EndpointRole_peer (EndpointRole_peer r) = r.
Proof. by destruct r. Qed.

Lemma bridged_step rc rp s role n m b t :
  bridged rc rp s role n m b →
  bridged rc rp s role (if to_peer t then S n else n) (if to_peer t then m else S m)
    (bridge_step b t).
Proof.
  intros [Hi Hp Hc Fp Fc Lp Lc]. destruct t as [w|w]; cbn [bridge_step to_peer].
  - destruct (copy_step _ _ _ _) as [s' d'] eqn:E. rewrite Hi in E.
    destruct (copy_step_spec _ _ _ _ _ _ _ _ Hp Fp E) as (Hd & Fd & Fo & Ld).
    split; cbn; [done..|by rewrite Fo| |done]. destruct Ld; [|by right].
    destruct Lp as [|E0]; [left|right]; lia.
  - destruct (copy_step _ _ _ _) as [s' d'] eqn:E. rewrite Hi in E.
    destruct (copy_step_spec _ _ _ _ _ _ _ _ Hc Fc E) as (Hd & Fd & Fo & Ld).
    rewrite EndpointRole_peer_involutive in Fo.
    split; cbn; [done..|by rewrite Fo|done|done|]. destruct Ld; [|by right].
    destruct Lc as [|E0]; [left|right]; lia.
Qed.

Lemma bridged_run rc rp s role turns : ∀ n m b,
  bridged rc rp s role n m b →
  bridged rc rp s role (n + turns_of true turns) (m + turns_of false turns) (bridge_run b turns).
Proof.
  induction turns as [|t turns IH]; intros n m b Hb; [by rewrite !Nat.add_0_r|].
  pose proof (IH _ _ _ (bridged_step _ _ _ _ _ _ _ t Hb)) as H. cbn [bridge_run fold_left].
  unfold turns_of in *. rewrite !filter_cons. destruct (to_peer t); cbn [length] in *;
    repeat case_decide; try done; cbn [length]; by rewrite ?Nat.add_succ_r.
Qed.

Lemma copy_measure_running d : copy_measure d = O → dr_state d ≠ Copy_Running.
Proof. unfold copy_measure. by destruct (dr_state d). Qed.

(** Bridged streams are copied, for every interleaving of the two copies and every
    failure of a write: what a side was sent is always the beginning of what the other
    side sent, in order and unaltered; a copy that ends with its stream has sent
    everything, and passes on the way the stream ended; the session's byte counters hold
    exactly the bytes of the completed writes of each direction; and each copy ends after
    a bounded number of its own turns, whatever the other does. *)
Theorem bridge_copies rc rp s role turns :
  (∀ r, 0 ≤ forwarded_bytes s r < 2 ^ 64) →
  let b := bridge_run (bridge_bistreams rc rp s role) turns in
  copied rc (br_to_peer b) ∧ copied rp (br_to_client b) ∧
  forwarded_bytes (br_session b) role =
    wrap 64 (forwarded_bytes s role + counted (br_to_peer b)) ∧
  forwarded_bytes (br_session b) (EndpointRole_peer role) =
    wrap 64 (forwarded_bytes s (EndpointRole_peer role) + counted (br_to_client b)) ∧
  ((unread rc < turns_of true turns)%nat → dr_state (br_to_peer b) ≠ Copy_Running) ∧
  ((unread rp < turns_of false turns)%nat → dr_state (br_to_client b) ≠ Copy_Running).
Proof.
  intros Hs b. assert (bridged rc rp s role 0 0 (bridge_bistreams rc rp s role)) as H0.
  { unfold counted. split; cbn; [done..| | | |]; [| |by left; lia..];
      unfold wrap; by rewrite Z.add_0_r, Z.mod_small. }
  pose proof (bridged_run _ _ _ _ turns _ _ _ H0) as [_ Hp Hc Fp Fc Lp Lc].
  fold b in Hp, Hc, Fp, Fc, Lp, Lc. cbn in Lp, Lc.
  split_and!; [done..| |]; intros Hl; apply copy_measure_running; lia.
Qed.

Definition sample_relay_session : RelaySession :=
  fill_slot Role_Client (fill_slot Role_Host (RelaySession_new sample_relay_token)).
Definition sample_turns : list BridgeTurn :=
  [Turn_ToPeer None; Turn_ToClient None; Turn_ToPeer None; Turn_ToClient (Some 1%nat); Turn_ToPeer None].

Lemma bridge_copies_witness :
  let b := bridge_run (bridge_bistreams (mkRecvStream [[x01; x02]; [x03]] End_Finished)
    (mkRecvStream [[x04]; [x05; x06]] End_Finished) sample_relay_session Role_Client)
    sample_turns in
  dr_written (br_to_peer b) = [x01; x02; x03] ∧ dr_state (br_to_peer b) = Copy_Finished ∧
  forwarded_bytes (br_session b) Role_Host = 1.
Proof.
  destruct (bridge_copies (mkRecvStream [[x01; x02]; [x03]] End_Finished)
    (mkRecvStream [[x04]; [x05; x06]] End_Finished) sample_relay_session Role_Client sample_turns)
    as (_ & _ & _ & H & _); [intros []; cbn; lia|].
  split_and!; [vm_compute; reflexivity..|]. etransitivity; [exact H|]. vm_compute. reflexivity.
Defined.

(** ** A serializer with the laws, for concrete runs *)

#[global] Instance EndpointRole_countable : Countable EndpointRole.
Proof.
  by refine (inj_countable' (λ r, bool_decide (r = Role_Client))
    (λ b : bool, if b then Role_Client else Role_Host) _); intros [].
Defined.
#[global] Instance RelayToken_eq_dec : EqDecision RelayToken.
Proof. solve_decision. Defined.
#[global] Program Instance RelayToken_countable : Countable RelayToken :=
  inj_countable' (λ t, (rt_session_id t, rt_relay_id t, rt_client_device_id t,
      rt_target_device_id t, rt_role t, rt_expires_at t, of_byte <$> rt_signature t))
    (λ '(a, b, c, d, e, f, g), mkRelayToken a b c d e f (to_byte <$> g)) _.
Next Obligation. intros []. cbn. by rewrite to_of_bytes. Qed.
#[global] Instance RelayHandshakeResponse_eq_dec : EqDecision RelayHandshakeResponse.
Proof. solve_decision. Defined.
#[global] Program Instance RelayHandshakeResponse_countable : Countable RelayHandshakeResponse :=
  inj_countable' (λ r, (rp_success r, rp_session_id r, rp_role r, rp_is_paired r, rp_error r))
    (λ '(a, b, c, d, e), mkRelayHandshakeResponse a b c d e) _.
Next Obligation. by intros []. Qed.

(** Objects start with a brace, requests with a bracket. *)
Definition token_json : SerdeJson RelayToken := λ t,
  Ok (x7b :: prost_encode (Prost := countable_prost RelayToken) t).
Definition token_json_de : SerdeJsonDe RelayToken := λ b,
  match b with
  | x7b :: b => match prost_decode (Prost := countable_prost RelayToken) b with
                | Some t => Ok t | None => Err "" end
  | _ => Err ""
  end.
Definition request_json : SerdeJson RelayHandshakeRequest := λ r,
  Ok (x5b :: prost_encode (Prost := countable_prost RelayToken) (rq_token r)).
Definition request_json_de : SerdeJsonDe RelayHandshakeRequest := λ b,
  match b with
  | x5b :: b => match prost_decode (Prost := countable_prost RelayToken) b with
                | Some t => Ok (mkRelayHandshakeRequest t) | None => Err "" end
  | _ => Err ""
  end.
Definition token_json_laws : @SerdeJsonDeLaws _ token_json token_json_de.
Proof.
  intros a t Ha. assert (x7b :: prost_encode (Prost := countable_prost RelayToken) a = t) as <-
    by exact (inj Ok _ _ Ha).
  unfold json_from_slice, token_json_de.
  by rewrite (@prost_decode_encode _ _ (countable_prost_laws RelayToken) a).
Qed.
Definition request_json_laws : @SerdeJsonDeLaws _ request_json request_json_de.
Proof.
  intros [a] t Ha. assert (x5b :: prost_encode (Prost := countable_prost RelayToken) a = t) as <-
    by exact (inj Ok _ _ Ha).
  unfold json_from_slice, request_json_de.
  by rewrite (@prost_decode_encode _ _ (countable_prost_laws RelayToken) a).
Qed.

Definition sample_response : RelayHandshakeResponse :=
  mkRelayHandshakeResponse false (Some "s-1") (Some Role_Host) None (Some "relay token is expired").
Definition sample_quinn : QuinnText := λ _, "stream finished early".

(** The three streams of the example, cut into bytes. *)
Definition cut (b : bytes) : RecvStream := mkRecvStream ((λ x, [x]) <$> b) End_Finished.
Lemma cut_delivers b : delivers (cut b) b.
Proof.
  split_and!; [|done|]; cbn; induction b; [constructor|by constructor|done|].
  cbn. by f_equal.
Qed.

Lemma relay_handshake_round_trip_witness :
  @read_handshake_token sample_quinn request_json_de token_json_de
    (cut (match @client_handshake_request request_json sample_relay_token with
          | Ok b => b | Err _ => [] end)) = Some (Ok sample_relay_token).
Proof.
  refine (proj1 (proj2 (@relay_handshake_round_trip sample_quinn request_json request_json_de
    token_json token_json_de (countable_json _) (countable_json_de _)
    request_json_laws token_json_laws (countable_json_de_laws _)
    sample_relay_token sample_response _
    (match @write_handshake_response (countable_json _) sample_response with
     | Ok b => b | Err _ => [] end)
    (prost_encode (Prost := countable_prost RelayToken) sample_relay_token)
    _ (cut _) (cut _) eq_refl (cut_delivers _) _ _ eq_refl (cut_delivers _) _ _ eq_refl
    (cut_delivers _) _))); [vm_compute; congruence|vm_compute; reflexivity| |vm_compute; congruence..].
  eexists. reflexivity.
Defined.
