(* ===== verification/RelayServer.v ===== *)
(** * Relay server (apps/nexus-relay/src/server.rs)

    The connection tasks of the relay run concurrently over two locked maps: the session
    table and the map of waiting peers.  A task is its phase; one call of
    [handle_connection] takes it from one point where other tasks can intervene (an await
    or a lock) to the next.  Connections are numbers; a one-shot channel is named by the
    connection whose task waits on it. *)

From S2P Require Import Prelude Common Protocol Enrollment Storage Crypto Relay RelayForward.

Open Scope string_scope.
Open Scope list_scope.
Open Scope Z_scope.

Inductive Oneshot :=
  | Chan_Open | Chan_Sent (role : EndpointRole) (peer : nat) | Chan_TxDropped | Chan_RxDropped.

(** Where a task stands in [handle_connection]. *)
Inductive Phase :=
  | Phase_Accepting
  | Phase_Registered (t : RelayToken) (h : nat) (paired : bool)
  | Phase_Responding (t : RelayToken) (h : nat) (paired : bool)
  | Phase_Waiting (t : RelayToken) (h : nat)
  | Phase_Leaving (t : RelayToken)
  | Phase_Removing (t : RelayToken)
  | Phase_Notifying (t : RelayToken)
  | Phase_Handing (t : RelayToken) (peer : nat)
  | Phase_Abandoning (t : RelayToken)
  | Phase_Forwarding (client host : nat) (client_open host_open : bool) (t : RelayToken) (h : nat)
  | Phase_Parked
  | Phase_Done.

Record Delivery := mkDelivery { dl_from : nat; dl_to : nat; dl_data : bytes }.

(** [sv_table], [sv_waiting]: the shared maps; [sv_channels]: the one-shot channels;
    [sv_closed]: the closed connections; [sv_log]: the joins and removals of the table;
    [sv_presented]: the tokens that passed the handshake, with the time; [sv_responses],
    [sv_delivered]: what was sent. *)
Record RelayServer := mkRelayServer {
  sv_table : RelaySessionTable;
  sv_log : list relay_event;
  sv_waiting : gmap string (EndpointRole * nat);
  sv_channels : gmap nat Oneshot;
  sv_closed : gset nat;
  sv_tasks : gmap nat Phase;
  sv_presented : gmap nat (RelayToken * Z);
  sv_responses : list (nat * RelayHandshakeResponse);
  sv_delivered : list Delivery
}.
Definition RelayServer_new : RelayServer :=
  mkRelayServer RelaySessionTable_new [] ∅ ∅ ∅ ∅ ∅ [] [].

Definition sv_phase (sv : RelayServer) (c : nat) (phase : Phase) : RelayServer :=
  mkRelayServer (sv_table sv) (sv_log sv) (sv_waiting sv) (sv_channels sv) (sv_closed sv)
    (<[c := phase]> (sv_tasks sv)) (sv_presented sv) (sv_responses sv) (sv_delivered sv).
Definition sv_set_table (sv : RelayServer) (tb : RelaySessionTable) (log : list relay_event) :
    RelayServer :=
  mkRelayServer tb log (sv_waiting sv) (sv_channels sv) (sv_closed sv) (sv_tasks sv)
    (sv_presented sv) (sv_responses sv) (sv_delivered sv).
Definition sv_set_waiting (sv : RelayServer) (w : gmap string (EndpointRole * nat))
    (ch : gmap nat Oneshot) : RelayServer :=
  mkRelayServer (sv_table sv) (sv_log sv) w ch (sv_closed sv) (sv_tasks sv)
    (sv_presented sv) (sv_responses sv) (sv_delivered sv).
Definition sv_close (sv : RelayServer) (c : nat) : RelayServer :=
  mkRelayServer (sv_table sv) (sv_log sv) (sv_waiting sv) (sv_channels sv)
    ({[c]} ∪ sv_closed sv) (sv_tasks sv) (sv_presented sv) (sv_responses sv) (sv_delivered sv).
Definition sv_present (sv : RelayServer) (c : nat) (t : RelayToken) (now : Z) : RelayServer :=
  mkRelayServer (sv_table sv) (sv_log sv) (sv_waiting sv) (sv_channels sv) (sv_closed sv)
    (sv_tasks sv) (<[c := (t, now)]> (sv_presented sv)) (sv_responses sv) (sv_delivered sv).
Definition sv_respond (sv : RelayServer) (c : nat) (r : RelayHandshakeResponse) : RelayServer :=
  mkRelayServer (sv_table sv) (sv_log sv) (sv_waiting sv) (sv_channels sv) (sv_closed sv)
    (sv_tasks sv) (sv_presented sv) (sv_responses sv ++ [(c, r)]) (sv_delivered sv).
Definition sv_deliver (sv : RelayServer) (d : list Delivery) : RelayServer :=
  mkRelayServer (sv_table sv) (sv_log sv) (sv_waiting sv) (sv_channels sv) (sv_closed sv)
    (sv_tasks sv) (sv_presented sv) (sv_responses sv) (sv_delivered sv ++ d).
Definition sv_remove_session (sv : RelayServer) (sid : string) : RelayServer :=
  sv_set_table sv (remove_session (sv_table sv) sid) (Removed sid :: sv_log sv).

(** Dropping one end of a channel. *)
Definition drop_tx (ch : Oneshot) : Oneshot :=
  match ch with Chan_Open => Chan_TxDropped | ch => ch end.
Definition drop_waiting (w : gmap string (EndpointRole * nat)) (sid : string)
    (ch : gmap nat Oneshot) : gmap nat Oneshot :=
  match w !! sid with Some (_, p) => alter drop_tx p ch | None => ch end.
Definition drop_rx (ch : gmap nat Oneshot) (c : nat) : gmap nat Oneshot :=
  alter (λ _, Chan_RxDropped) c ch.

Definition success_response (t : RelayToken) (paired : bool) : RelayHandshakeResponse :=
  mkRelayHandshakeResponse true (Some (rt_session_id t)) (Some (rt_role t)) (Some paired) None.
Definition failure_response (t : option RelayToken) (e : string) : RelayHandshakeResponse :=
  mkRelayHandshakeResponse false (rt_session_id <$> t) (rt_role <$> t) None (Some e).

(** ** The handshake of a connection *)

Inductive Handshake :=
  | Handshake_Refused (response : RelayHandshakeResponse)
  | Handshake_Registered (t : RelayToken) (h : nat) (paired : bool).

(** What happens to a task: the handshake stream is not there; the handshake stream and
    the clock; a lock is taken; the response is written or not; the connection is found
    closed; the receiver resolves; data arrives from the endpoint with a role. *)
Inductive TaskInput :=
  | In_NoStream
  | In_Stream (s : RecvStream) (now : Z)
  | In_Run
  | In_Response (written : bool)
  | In_Closed
  | In_Received
  | In_Datagram (role : EndpointRole) (dgram : bytes) (send : SendDatagram)
  | In_Copied (role : EndpointRole) (b : bytes).

Section server.
Context `{QuinnText, Ed25519}.
Context `{SerdeJsonDe RelayHandshakeRequest, SerdeJsonDe RelayToken}.
Variable verifier : RelayTokenVerifier.

Definition handshake (table : RelaySessionTable) (s : RecvStream) (now : Z) :
    option (Handshake * RelaySessionTable) :=
  token ← read_handshake_token s;
  Some match token with
  | Err e => (Handshake_Refused (failure_response None (RelayServerError_to_string e)), table)
  | Ok t =>
      match RelayTokenVerifier_verify verifier t now with
      | Err e => (Handshake_Refused (failure_response (Some t) (RelayTokenError_to_string e)), table)
      | Ok _ =>
          match register_or_join table t now with
          | (Err e, table) =>
              (Handshake_Refused (failure_response (Some t) (SessionPairingError_to_string e)), table)
          | (Ok (h, paired), table) => (Handshake_Registered t h paired, table)
          end
      end
  end.

(** ** Forwarding *)

Definition direction_open (role : EndpointRole) (client_open host_open : bool) : bool :=
  match role with Role_Client => client_open | Role_Host => host_open end.
Definition deliver (client host : nat) (role : EndpointRole) (b : bytes) : Delivery :=
  match role with
  | Role_Client => mkDelivery client host b
  | Role_Host => mkDelivery host client b
  end.

(** A task that forwards: a datagram, a copied piece of a stream, a closed connection. *)
Definition forward_session (sv : RelayServer) (c client host : nat)
    (client_open host_open : bool) (t : RelayToken) (h : nat) (input : TaskInput) :
    option RelayServer :=
  match input with
  | In_Datagram role dgram send =>
      if negb (direction_open role client_open host_open) then None else
      let tb := with_handle (sv_table sv) h
        (λ s, fst (fst (forward_datagram role s dgram send))) in
      let '(_, sent, continue) := forward_datagram role (RelaySession_new t) dgram send in
      let phase := match role with
        | Role_Client => Phase_Forwarding client host continue host_open t h
        | Role_Host => Phase_Forwarding client host client_open continue t h
        end in
      Some (sv_phase (sv_deliver (sv_set_table sv tb (sv_log sv))
        (match sent with Some b => [deliver client host role b] | None => [] end)) c phase)
  | In_Copied role b =>
      let tb := with_handle (sv_table sv) h
        (λ s, RelaySession_record_forward s role (len b)) in
      Some (sv_phase (sv_deliver (sv_set_table sv tb (sv_log sv)) [deliver client host role b]) c
        (Phase_Forwarding client host client_open host_open t h))
  | In_Closed =>
      if bool_decide (client ∈ sv_closed sv) || bool_decide (host ∈ sv_closed sv) then
        let sv := sv_set_table sv (with_handle (sv_table sv) h RelaySession_terminate) (sv_log sv) in
        Some (sv_phase (sv_close (sv_close sv client) host) c (Phase_Removing t))
      else None
  | _ => None
  end.

(** ** The task of a connection *)

Definition handle_connection (sv : RelayServer) (c : nat) (phase : Phase) (input : TaskInput) :
    option RelayServer :=
  match phase, input with
  | Phase_Accepting, In_NoStream => Some (sv_phase (sv_close sv c) c Phase_Done)
  | Phase_Accepting, In_Stream s now =>
      '(result, tb) ← handshake (sv_table sv) s now;
      Some match result with
      | Handshake_Refused response =>
          sv_phase (sv_close (sv_respond (sv_set_table sv tb (sv_log sv)) c response) c) c Phase_Done
      | Handshake_Registered t h paired =>
          sv_phase (sv_present (sv_set_table sv tb (Joined t :: sv_log sv)) c t now) c
            (Phase_Registered t h paired)
      end
  | Phase_Registered t h false, In_Run =>
      let ch := drop_waiting (sv_waiting sv) (rt_session_id t) (sv_channels sv) in
      Some (sv_phase (sv_set_waiting sv (<[rt_session_id t := (rt_role t, c)]> (sv_waiting sv))
        (<[c := Chan_Open]> ch)) c (Phase_Responding t h false))
  | Phase_Registered t h true, In_Run => Some (sv_phase sv c (Phase_Responding t h true))
  | Phase_Responding t h paired, In_Response false =>
      Some (sv_phase (sv_close (sv_set_waiting sv (sv_waiting sv) (drop_rx (sv_channels sv) c)) c)
        c Phase_Done)
  | Phase_Responding t h paired, In_Response true =>
      Some (sv_phase (sv_respond sv c (success_response t paired)) c
        (if paired then Phase_Notifying t else Phase_Waiting t h))
  | Phase_Waiting t h, In_Received =>
      match sv_channels sv !! c with
      | Some (Chan_Sent _ peer) =>
          let '(client, host) := match rt_role t with
            | Role_Client => (c, peer) | Role_Host => (peer, c) end in
          Some (sv_phase sv c (Phase_Forwarding client host true true t h))
      | Some Chan_TxDropped => Some (sv_phase sv c (Phase_Removing t))
      | _ => None
      end
  | Phase_Waiting t h, In_Closed =>
      if bool_decide (c ∈ sv_closed sv)
      then Some (sv_phase (sv_set_waiting sv (sv_waiting sv) (drop_rx (sv_channels sv) c)) c
             (Phase_Leaving t))
      else None
  | Phase_Leaving t, In_Run =>
      let ch := drop_waiting (sv_waiting sv) (rt_session_id t) (sv_channels sv) in
      Some (sv_phase (sv_set_waiting sv (delete (rt_session_id t) (sv_waiting sv)) ch) c
        (Phase_Removing t))
  | Phase_Removing t, In_Run =>
      Some (sv_phase (sv_remove_session sv (rt_session_id t)) c Phase_Done)
  | Phase_Notifying t, In_Run =>
      let sv' := sv_set_waiting sv (delete (rt_session_id t) (sv_waiting sv)) (sv_channels sv) in
      match sv_waiting sv !! rt_session_id t with
      | Some (_, peer) => Some (sv_phase sv' c (Phase_Handing t peer))
      | None => Some (sv_phase sv' c (Phase_Abandoning t))
      end
  | Phase_Handing t peer, In_Run =>
      match sv_channels sv !! peer with
      | Some Chan_Open =>
          Some (sv_phase (sv_set_waiting sv (sv_waiting sv)
            (<[peer := Chan_Sent (rt_role t) c]> (sv_channels sv))) c Phase_Parked)
      | _ => Some (sv_phase sv c (Phase_Abandoning t))
      end
  | Phase_Abandoning t, In_Run =>
      Some (sv_phase (sv_close (sv_remove_session sv (rt_session_id t)) c) c Phase_Done)
  | Phase_Parked, In_Closed =>
      if bool_decide (c ∈ sv_closed sv) then Some (sv_phase sv c Phase_Done) else None
  | Phase_Forwarding client host client_open host_open t h, input =>
      forward_session sv c client host client_open host_open t h input
  | _, _ => None
  end.

(** The accept loop starts a task for a connection; a connection is lost. *)
Inductive ServerStep := Step_Accept (c : nat) | Step_Lost (c : nat) | Step_Task (c : nat) (i : TaskInput).
Definition server_step (sv : RelayServer) (step : ServerStep) : option RelayServer :=
  match step with
  | Step_Accept c =>
      match sv_tasks sv !! c with
      | None => Some (sv_phase sv c Phase_Accepting)
      | Some _ => None
      end
  | Step_Lost c => Some (sv_close sv c)
  | Step_Task c input => phase ← sv_tasks sv !! c; handle_connection sv c phase input
  end.
Fixpoint server_run (sv : RelayServer) (steps : list ServerStep) : option RelayServer :=
  match steps with
  | [] => Some sv
  | step :: steps => sv ← server_step sv step; server_run sv steps
  end.
End server.

(** ** Invariant *)

Abbreviation presented := (gmap nat (RelayToken * Z)).
Abbreviation channels := (gmap nat Oneshot).

Definition speaks (pr : presented) (c : nat) (t : RelayToken) : Prop :=
  ∃ now, pr !! c = Some (t, now).

(** Two connections that presented tokens for one session. *)
Definition partners (pr : presented) (p q : nat) : Prop :=
  p ≠ q ∧ ∃ tp tq, speaks pr p tp ∧ speaks pr q tq ∧ rt_session_id tp = rt_session_id tq.

(** The connections a task forwards between: the client's side is a client's, unless both
    sides presented the same role. *)
Definition bridged_pair (pr : presented) (client host : nat) : Prop :=
  client ≠ host ∧ ∃ tc th, speaks pr client tc ∧ speaks pr host th ∧
    rt_session_id tc = rt_session_id th ∧
    (rt_role tc = Role_Client ∧ rt_role th = Role_Host ∨ rt_role tc = rt_role th).

Definition phase_ok (pr : presented) (ch : channels) (c : nat) (phase : Phase) : Prop :=
  match phase with
  | Phase_Accepting => pr !! c = None ∧ ch !! c = None
  | Phase_Registered t _ _ | Phase_Notifying t => speaks pr c t ∧ ch !! c = None
  | Phase_Responding t _ paired => speaks pr c t ∧ (paired = true → ch !! c = None)
  | Phase_Waiting t _ | Phase_Leaving t | Phase_Removing t | Phase_Abandoning t => speaks pr c t
  | Phase_Handing t peer => speaks pr c t ∧ ch !! c = None ∧ is_Some (ch !! peer) ∧
      ∃ tp, speaks pr peer tp ∧ rt_session_id tp = rt_session_id t
  | Phase_Forwarding client host _ _ t _ => speaks pr c t ∧ bridged_pair pr client host
  | Phase_Parked | Phase_Done => True
  end.

Definition waiting_ok (pr : presented) (ch : channels)
    (w : gmap string (EndpointRole * nat)) : Prop :=
  ∀ sid r p, w !! sid = Some (r, p) →
    is_Some (ch !! p) ∧ ∃ tp, speaks pr p tp ∧ rt_session_id tp = sid.

Definition channel_ok (pr : presented) (ch : channels) : Prop :=
  ∀ p r q, ch !! p = Some (Chan_Sent r q) → partners pr p q.

Section invariant.
Context `{Ed25519} (verifier : RelayTokenVerifier).

Definition presented_ok (pr : presented) : Prop :=
  ∀ c t now, pr !! c = Some (t, now) → RelayTokenVerifier_verify verifier t now = Ok tt.

Record server_inv (sv : RelayServer) : Prop := {
  si_table : relay_reachable (sv_table sv) (sv_log sv);
  si_presented : presented_ok (sv_presented sv);
  si_tasks c phase : sv_tasks sv !! c = Some phase →
    phase_ok (sv_presented sv) (sv_channels sv) c phase;
  si_fresh c : sv_tasks sv !! c = None →
    sv_presented sv !! c = None ∧ sv_channels sv !! c = None;
  si_waiting : waiting_ok (sv_presented sv) (sv_channels sv) (sv_waiting sv);
  si_channels : channel_ok (sv_presented sv) (sv_channels sv);
  si_delivered d : d ∈ sv_delivered sv → partners (sv_presented sv) (dl_from d) (dl_to d)
}.

(** *** What a step of one task leaves alone *)

(** The maps after a step of the task of [c]: only [c] can have got a token or a channel. *)
Definition evolves (c : nat) (pr pr' : presented) (ch ch' : channels) : Prop :=
  pr ⊆ pr' ∧ (∀ x, x ≠ c → pr' !! x = pr !! x) ∧
  (∀ x, is_Some (ch !! x) → is_Some (ch' !! x)) ∧ (∀ x, x ≠ c → ch !! x = None → ch' !! x = None).

Lemma speaks_mono pr pr' c t : pr ⊆ pr' → speaks pr c t → speaks pr' c t.
Proof. intros Hs [now Hn]. exists now. by eapply lookup_weaken. Qed.
Lemma speaks_fun pr c t t' : speaks pr c t → speaks pr c t' → t = t'.
Proof. intros [n Hn] [m Hm]. congruence. Qed.
Lemma partners_mono pr pr' p q : pr ⊆ pr' → partners pr p q → partners pr' p q.
Proof. intros Hs (? & tp & tq & ? & ? & ?). split; [done|]. exists tp, tq. eauto using speaks_mono. Qed.
Lemma bridged_pair_mono pr pr' p q : pr ⊆ pr' → bridged_pair pr p q → bridged_pair pr' p q.
Proof.
  intros Hs (? & tp & tq & ? & ? & ? & ?). split; [done|]. exists tp, tq.
  split_and!; eauto using speaks_mono.
Qed.

Lemma phase_ok_evolves c pr pr' ch ch' x phase :
  evolves c pr pr' ch ch' → x ≠ c → phase_ok pr ch x phase → phase_ok pr' ch' x phase.
Proof.
  intros (Hs & Hp & Hc & Hn) Hx. destruct phase; cbn; rewrite ?Hp by done;
    try solve [intros; destruct_and?; split_and?; eauto using speaks_mono, bridged_pair_mono].
  intros (? & ? & ? & tp & ? & ?). split_and!; eauto using speaks_mono.
Qed.

Lemma server_inv_step sv c phase tb log w ch cl pr rs dl :
  server_inv sv → evolves c (sv_presented sv) pr (sv_channels sv) ch →
  relay_reachable tb log → presented_ok pr → phase_ok pr ch c phase →
  waiting_ok pr ch w → channel_ok pr ch →
  (∀ d, d ∈ dl → partners pr (dl_from d) (dl_to d)) →
  server_inv (mkRelayServer tb log w ch cl (<[c := phase]> (sv_tasks sv)) pr rs dl).
Proof.
  intros [Ht Hp Hta Hf Hw Hc Hd] He ??????. split; cbn; try done.
  - intros x ph. destruct (decide (x = c)) as [->|Hx].
    + rewrite lookup_insert_eq. by intros [= <-].
    + rewrite lookup_insert_ne by done. intros E. eapply phase_ok_evolves; eauto.
  - intros x Hx. destruct (decide (x = c)) as [->|Hne]; [by rewrite lookup_insert_eq in Hx|].
    rewrite lookup_insert_ne in Hx by done. destruct (Hf _ Hx). destruct He as (_ & -> & _ & Hn); auto.
Qed.

Lemma evolves_channels c pr ch ch' :
  (∀ x, is_Some (ch !! x) → is_Some (ch' !! x)) →
  (∀ x, x ≠ c → ch !! x = None → ch' !! x = None) → evolves c pr pr ch ch'.
Proof. intros. unfold evolves. by split_and!. Qed.
Lemma evolves_same c pr ch : evolves c pr pr ch ch.
Proof. by apply evolves_channels. Qed.
Lemma evolves_trans_alter c pr pr' ch ch' f p :
  evolves c pr pr' ch ch' → evolves c pr pr' ch (alter f p ch').
Proof.
  intros (? & ? & Hs & Hn). unfold evolves. split_and!; [done..| |].
  - intros x ?%Hs. by apply lookup_alter_is_Some.
  - intros x Hx ?%Hn; [|done]. by apply lookup_alter_None.
Qed.
Lemma evolves_drop_waiting c pr w sid ch : evolves c pr pr ch (drop_waiting w sid ch).
Proof.
  unfold drop_waiting. destruct (w !! sid) as [[r p]|]; [|apply evolves_same].
  apply evolves_trans_alter, evolves_same.
Qed.

Lemma channel_ok_alter pr ch f p :
  (∀ x r q, f x = Chan_Sent r q → x = Chan_Sent r q) → channel_ok pr ch →
  channel_ok pr (alter f p ch).
Proof.
  intros Hf Hc x r q. destruct (decide (p = x)) as [->|Hne].
  - rewrite lookup_alter_eq. destruct (ch !! x) as [y|] eqn:E; [|done]. cbn.
    intros [= Hy%Hf]. subst. eauto.
  - rewrite lookup_alter_ne by done. apply Hc.
Qed.
Lemma channel_ok_drop_waiting pr ch w sid : channel_ok pr ch → channel_ok pr (drop_waiting w sid ch).
Proof.
  unfold drop_waiting. destruct (w !! sid) as [[r p]|]; [|done].
  apply channel_ok_alter. by intros [] ? ? ?.
Qed.
Lemma channel_ok_insert_open pr ch c : channel_ok pr ch → channel_ok pr (<[c := Chan_Open]> ch).
Proof.
  intros Hc x r q. destruct (decide (c = x)) as [->|Hne]; [by rewrite lookup_insert_eq|].
  rewrite lookup_insert_ne by done. apply Hc.
Qed.
Lemma channel_ok_mono pr pr' ch : pr ⊆ pr' → channel_ok pr ch → channel_ok pr' ch.
Proof. intros Hs Hc p r q E. eauto using partners_mono. Qed.

Lemma waiting_ok_evolves c pr pr' ch ch' w :
  evolves c pr pr' ch ch' → waiting_ok pr ch w → waiting_ok pr' ch' w.
Proof.
  intros (Hs & _ & Hc & _) Hw sid r p (Hp & tp & Ht & E)%Hw. split; [by apply Hc|].
  exists tp. eauto using speaks_mono.
Qed.
Lemma waiting_ok_delete pr ch w sid : waiting_ok pr ch w → waiting_ok pr ch (delete sid w).
Proof. intros Hw i r p E. apply lookup_delete_Some in E as [_ E]. eauto. Qed.
Lemma waiting_ok_insert pr ch w t r c :
  speaks pr c t → is_Some (ch !! c) → waiting_ok pr ch w →
  waiting_ok pr ch (<[rt_session_id t := (r, c)]> w).
Proof.
  intros Ht Hc Hw i r' p. destruct (decide (rt_session_id t = i)) as [<-|Hne].
  - rewrite lookup_insert_eq. intros [= <- <-]. eauto.
  - rewrite lookup_insert_ne by done. apply Hw.
Qed.

Lemma relay_reachable_step tb log tb' log' :
  relay_reachable tb log → relay_step (tb, log) (tb', log') → relay_reachable tb' log'.
Proof. intros Hr Hs. eapply rtc_r; [exact Hr|exact Hs]. Qed.

(** A task that only changes its phase, the closed connections and the responses. *)
Lemma server_inv_phase sv c phase cl rs :
  server_inv sv → phase_ok (sv_presented sv) (sv_channels sv) c phase →
  server_inv (mkRelayServer (sv_table sv) (sv_log sv) (sv_waiting sv) (sv_channels sv) cl
    (<[c := phase]> (sv_tasks sv)) (sv_presented sv) rs (sv_delivered sv)).
Proof.
  intros Hi Hp. pose proof Hi as []. eapply server_inv_step; eauto using evolves_same.
Qed.
Lemma server_inv_table sv c phase tb log cl rs :
  server_inv sv → phase_ok (sv_presented sv) (sv_channels sv) c phase →
  relay_reachable tb log →
  server_inv (mkRelayServer tb log (sv_waiting sv) (sv_channels sv) cl
    (<[c := phase]> (sv_tasks sv)) (sv_presented sv) rs (sv_delivered sv)).
Proof.
  intros Hi Hp Ht. pose proof Hi as []. eapply server_inv_step; eauto using evolves_same.
Qed.

Lemma forward_inv sv c client host co ho co' ho' t h f dl :
  server_inv sv → sv_tasks sv !! c = Some (Phase_Forwarding client host co ho t h) →
  (∀ tb log, relay_step (tb, log) (with_handle tb h f, log)) →
  (∀ d, d ∈ dl → ∃ role b, d = deliver client host role b) →
  server_inv (sv_phase (sv_deliver (sv_set_table sv (with_handle (sv_table sv) h f) (sv_log sv)) dl)
    c (Phase_Forwarding client host co' ho' t h)).
Proof.
  intros Hi E Hf Hd. pose proof (si_tasks _ Hi _ _ E) as Hp. pose proof Hi as [].
  unfold sv_phase, sv_deliver, sv_set_table. cbn.
  eapply server_inv_step; eauto using evolves_same, relay_reachable_step.
  intros d [?|(role & b & ->)%Hd]%elem_of_app; [eauto|].
  destruct Hp as (_ & Hne & tc & th & Hc & Hh & Es & _).
  destruct role; (split; [done|]); [exists tc, th|exists th, tc]; auto.
Qed.
End invariant.

Section safety.
Context `{QuinnText, Ed25519}.
Context `{SerdeJsonDe RelayHandshakeRequest, SerdeJsonDe RelayToken}.
Variable verifier : RelayTokenVerifier.
Abbreviation inv := (server_inv verifier).

Lemma handshake_step table s now result table' log :
  relay_reachable table log → handshake verifier table s now = Some (result, table') →
  match result with
  | Handshake_Refused _ => relay_reachable table' log
  | Handshake_Registered t h paired =>
      relay_reachable table' (Joined t :: log) ∧ RelayTokenVerifier_verify verifier t now = Ok tt
  end.
Proof.
  intros Hr. unfold handshake. destruct (read_handshake_token s) as [[t|e]|]; cbn; [|by intros [= <- <-]|done].
  destruct (RelayTokenVerifier_verify _ t now) as [[]|e] eqn:Ev; [|by intros [= <- <-]].
  destruct (register_or_join table t now) as [[[h paired]|e] tb] eqn:Ej; intros [= <- <-].
  - split; [|done]. eapply relay_reachable_step; [done|]. by eapply relay_join.
  - eapply relay_reachable_step; [done|]. by eapply relay_refuse.
Qed.

Lemma accept_inv sv c s now sv' :
  inv sv → sv_tasks sv !! c = Some Phase_Accepting →
  handle_connection verifier sv c Phase_Accepting (In_Stream s now) = Some sv' → inv sv'.
Proof.
  intros Hi Ec. cbn. destruct (handshake _ _ _ _) as [[result tb]|] eqn:Eh; [|done]. cbn.
  intros [= <-]. pose proof (handshake_step _ _ _ _ _ _ (si_table _ _ Hi) Eh) as Ht.
  destruct (si_tasks _ _ Hi _ _ Ec) as [Hp Hc].
  destruct result as [resp|t h paired].
  - unfold sv_phase, sv_close, sv_respond, sv_set_table. cbn. by apply server_inv_table.
  - destruct Ht as [Ht Hv]. unfold sv_phase, sv_present, sv_set_table. cbn.
    assert (sv_presented sv ⊆ <[c := (t, now)]> (sv_presented sv)) as Hs by by apply insert_subseteq.
    assert (evolves c (sv_presented sv) (<[c := (t, now)]> (sv_presented sv)) (sv_channels sv)
      (sv_channels sv)) as He.
    { unfold evolves. split_and!; [done| |done..]. intros x ?. by rewrite lookup_insert_ne. }
    pose proof Hi as [? Hpr ? ? Hw Hch Hd].
    eapply server_inv_step; eauto using waiting_ok_evolves, channel_ok_mono, partners_mono.
    + intros x u n. destruct (decide (c = x)) as [->|Hne].
      * rewrite lookup_insert_eq. by intros [= <- <-].
      * rewrite lookup_insert_ne by done. apply Hpr.
    + split; [|done]. exists now. apply lookup_insert_eq.
Qed.

Lemma forward_session_inv sv c client host co ho t h input sv' :
  inv sv → sv_tasks sv !! c = Some (Phase_Forwarding client host co ho t h) →
  forward_session sv c client host co ho t h input = Some sv' → inv sv'.
Proof.
  intros Hi Ec. destruct input as [| | | | | |role dgram send|role b]; cbn; try done.
  - destruct (_ || _); [|done]. intros [= <-]. destruct (si_tasks _ _ Hi _ _ Ec) as [Hp _].
    unfold sv_phase, sv_close, sv_set_table. cbn. apply server_inv_table; [done..|].
    eapply relay_reachable_step; [apply Hi|]. apply relay_terminate.
  - destruct (negb _); [done|]. intros [= <-].
    assert (∀ co' ho', inv (sv_phase (sv_deliver (sv_set_table sv (with_handle (sv_table sv) h
      (λ s, RelaySession_record_forward s role (len dgram))) (sv_log sv))
      (match match send with Datagram_Sent => Some dgram | _ => None end with
       | Some b => [deliver client host role b] | None => [] end)) c
      (Phase_Forwarding client host co' ho' t h))) as Hg; [|by destruct role].
    intros co' ho'. eapply forward_inv; [done|done|intros; apply relay_forward|].
    intros d Hd. destruct send; cbn in Hd; set_solver.
  - intros [= <-]. eapply forward_inv; [done|done|intros; apply relay_forward|]. set_solver.
Qed.

Lemma notifying_inv sv c t sv' :
  inv sv → sv_tasks sv !! c = Some (Phase_Notifying t) →
  handle_connection verifier sv c (Phase_Notifying t) In_Run = Some sv' → inv sv'.
Proof.
  intros Hi Ec. cbn. destruct (si_tasks _ _ Hi _ _ Ec) as [Hp Hn]. pose proof Hi as [].
  destruct (sv_waiting sv !! rt_session_id t) as [[r p]|] eqn:Ew; intros [= <-];
    unfold sv_phase, sv_set_waiting; cbn;
    (eapply server_inv_step; eauto using evolves_same, waiting_ok_delete).
  destruct (si_waiting0 _ _ _ Ew) as (Hch & tp & Htp & Es).
  split_and!; [done..|]. eauto.
Qed.

Lemma handing_inv sv c t peer sv' :
  inv sv → sv_tasks sv !! c = Some (Phase_Handing t peer) →
  handle_connection verifier sv c (Phase_Handing t peer) In_Run = Some sv' → inv sv'.
Proof.
  intros Hi Ec. cbn. destruct (si_tasks _ _ Hi _ _ Ec) as (Hp & Hn & Hs & tp & Htp & Es).
  destruct (sv_channels sv !! peer) as [[]|] eqn:Ech;
    try (intros [= <-]; by apply server_inv_phase).
  intros [= <-]. unfold sv_phase, sv_set_waiting. cbn. pose proof Hi as [].
  assert (evolves c (sv_presented sv) (sv_presented sv) (sv_channels sv)
    (<[peer := Chan_Sent (rt_role t) c]> (sv_channels sv))) as He.
  { apply evolves_channels.
    - intros x Hx. apply lookup_insert_is_Some. destruct (decide (peer = x)); auto.
    - intros x Hx Hxn. rewrite lookup_insert_ne; [done|]. congruence. }
  eapply server_inv_step; eauto using waiting_ok_evolves.
  - done.
  - intros x r q. destruct (decide (peer = x)) as [->|Hne].
    + rewrite lookup_insert_eq. intros [= <- <-]. split; [congruence|]. eauto 6.
    + rewrite lookup_insert_ne by done. apply (si_channels _ _ Hi).
Qed.

Lemma received_inv sv c t h sv' :
  inv sv → sv_tasks sv !! c = Some (Phase_Waiting t h) →
  handle_connection verifier sv c (Phase_Waiting t h) In_Received = Some sv' → inv sv'.
Proof.
  intros Hi Ec. cbn. pose proof (si_tasks _ _ Hi _ _ Ec) as Hp. cbn in Hp.
  destruct (sv_channels sv !! c) as [[|r peer| |]|] eqn:Ech; try done.
  - destruct (si_channels _ _ Hi _ _ _ Ech) as (Hne & tp & tq & Htp & Htq & Es).
    assert (tp = t) as -> by eauto using speaks_fun.
    destruct (rt_role t) eqn:Er; intros [= <-]; apply server_inv_phase; try done;
      (split; [done|]; split; [done|]); [exists t, tq|exists tq, t]; split_and!; try done;
      destruct (rt_role tq); auto.
  - intros [= <-]. by apply server_inv_phase.
Qed.

Lemma handle_connection_inv sv c phase input sv' :
  inv sv → sv_tasks sv !! c = Some phase →
  handle_connection verifier sv c phase input = Some sv' → inv sv'.
Proof.
  intros Hi Ec Hh. pose proof (si_tasks _ _ Hi _ _ Ec) as Hp.
  destruct phase as [|t h [|]|t h paired|t h|t|t|t|t peer|t|client host co ho t h| |];
    try exact (forward_session_inv _ _ _ _ _ _ _ _ _ _ Hi Ec Hh);
    destruct input as [|s now| |[|]| | | |]; try discriminate Hh;
    try exact (accept_inv _ _ _ _ _ Hi Ec Hh); try exact (notifying_inv _ _ _ _ Hi Ec Hh);
    try exact (handing_inv _ _ _ _ _ Hi Ec Hh); try exact (received_inv _ _ _ _ _ Hi Ec Hh);
    cbn in Hh; try case_bool_decide; simplify_eq/=;
    unfold sv_phase, sv_close, sv_remove_session, sv_respond, sv_set_table, sv_set_waiting; cbn;
    try (by apply server_inv_phase); pose proof Hi as [];
    try (apply server_inv_table; [done..|]; eapply relay_reachable_step; [done|]; apply relay_remove).
  - destruct Hp as [Hp Hn]. by apply server_inv_phase.
  - destruct Hp as [Hp Hn].
    assert (evolves c (sv_presented sv) (sv_presented sv) (sv_channels sv)
      (<[c := Chan_Open]> (drop_waiting (sv_waiting sv) (rt_session_id t) (sv_channels sv)))) as He.
    { destruct (evolves_drop_waiting c (sv_presented sv) (sv_waiting sv) (rt_session_id t)
        (sv_channels sv)) as (_ & _ & Hs & Hno). apply evolves_channels.
      - intros x ?%Hs. apply lookup_insert_is_Some. destruct (decide (c = x)); auto.
      - intros x Hx ?%Hno; [|done]. by rewrite lookup_insert_ne. }
    eapply server_inv_step; eauto using channel_ok_insert_open, channel_ok_drop_waiting.
    + split; [done|]. discriminate.
    + apply waiting_ok_insert; [done|rewrite lookup_insert_eq; eauto|by eapply waiting_ok_evolves].
  - apply server_inv_phase; [done|]. destruct Hp. destruct paired; cbn; auto.
  - assert (evolves c (sv_presented sv) (sv_presented sv) (sv_channels sv)
      (drop_rx (sv_channels sv) c)) as He by apply evolves_trans_alter, evolves_same.
    eapply server_inv_step; eauto using waiting_ok_evolves; [done|].
    apply channel_ok_alter; [done|]. done.
  - assert (evolves c (sv_presented sv) (sv_presented sv) (sv_channels sv)
      (drop_rx (sv_channels sv) c)) as He by apply evolves_trans_alter, evolves_same.
    eapply server_inv_step; eauto using waiting_ok_evolves.
    by apply channel_ok_alter.
  - eapply server_inv_step; eauto using evolves_drop_waiting, channel_ok_drop_waiting.
    apply waiting_ok_delete, (waiting_ok_evolves c _ _ _ _ _ (evolves_drop_waiting c _ _ _ _)).
    done.
Qed.

Lemma server_step_inv sv step sv' :
  inv sv → server_step verifier sv step = Some sv' → inv sv'.
Proof.
  intros Hi. destruct step as [c|c|c input]; cbn.
  - destruct (sv_tasks sv !! c) eqn:Ec; [done|]. intros [= <-].
    apply server_inv_phase; [done|]. by apply (si_fresh _ _ Hi).
  - intros [= <-]. destruct Hi. by split.
  - destruct (sv_tasks sv !! c) as [phase|] eqn:Ec; [|done]. cbn. by apply handle_connection_inv.
Qed.

Lemma server_run_inv steps sv sv' :
  inv sv → server_run verifier sv steps = Some sv' → inv sv'.
Proof.
  revert sv. induction steps as [|step steps IH]; intros sv Hi; cbn; [by intros [= <-]|].
  destruct (server_step _ _ _) as [sv1|] eqn:E; [|done]. cbn. eauto using server_step_inv.
Qed.

Lemma server_new_inv : inv RelayServer_new.
Proof.
  split; cbn.
  - apply rtc_refl.
  - intros ???. by rewrite lookup_empty.
  - intros ??. by rewrite lookup_empty.
  - intros. by rewrite !lookup_empty.
  - intros ???. by rewrite lookup_empty.
  - intros ???. by rewrite lookup_empty.
  - intros d Hd. by apply not_elem_of_nil in Hd.
Qed.

(** What is known of a connection that passed the handshake. *)
Definition authorised (sv : RelayServer) (c : nat) (t : RelayToken) : Prop :=
  ∃ now, sv_presented sv !! c = Some (t, now) ∧ RelayTokenVerifier_verify verifier t now = Ok tt.

Lemma speaks_authorised sv c t :
  inv sv → speaks (sv_presented sv) c t → authorised sv c t.
Proof. intros Hi [now E]. exists now. split; [done|]. by apply (si_presented _ _ Hi) with c. Qed.

(** C11. The relay forwards only between authorised partners.  Whatever the interleaving
    of the connection tasks, lost connections and failed writes: every connection pair a
    task forwards between, and the two ends of everything delivered, are different
    connections that each presented a token this relay verified, for the same session;
    the client's side of a pair presented a client's token and the other side a host's,
    unless two connections presented the same role for that session; and the session
    table evolves only by the joins, removals and counters of the pairing protocol. *)
Theorem relay_forwards_authorised steps sv :
  server_run verifier RelayServer_new steps = Some sv →
  (∀ c client host co ho t h,
     sv_tasks sv !! c = Some (Phase_Forwarding client host co ho t h) →
     client ≠ host ∧ ∃ tc th, authorised sv client tc ∧ authorised sv host th ∧
       rt_session_id tc = rt_session_id th ∧
       (rt_role tc = Role_Client ∧ rt_role th = Role_Host ∨ rt_role tc = rt_role th)) ∧
  (∀ d, d ∈ sv_delivered sv →
     dl_from d ≠ dl_to d ∧ ∃ tf tt, authorised sv (dl_from d) tf ∧ authorised sv (dl_to d) tt ∧
       rt_session_id tf = rt_session_id tt) ∧
  relay_reachable (sv_table sv) (sv_log sv).
Proof.
  intros Hr. pose proof (server_run_inv _ _ _ server_new_inv Hr) as Hi. split_and!.
  - intros c client host co ho t h Ec.
    destruct (si_tasks _ _ Hi _ _ Ec) as (_ & Hne & tc & th & Hc & Hh & Es & Hro).
    split; [done|]. exists tc, th. split_and!; eauto using speaks_authorised.
  - intros d Hd. destruct (si_delivered _ _ Hi _ Hd) as (Hne & tf & tt & Hf & Ht & Es).
    split; [done|]. exists tf, tt. split_and!; eauto using speaks_authorised.
  - apply Hi.
Qed.
End safety.

(** ** Pairing and cleaning up *)

Section pairing.
Context `{QuinnText, Ed25519}.
Context `{SerdeJsonDe RelayHandshakeRequest, SerdeJsonDe RelayToken}.
Variable verifier : RelayTokenVerifier.

Lemma peer_join tb log ta t now :
  table_ok tb log → joins (rt_session_id t) log = [ta] →
  rt_role t = EndpointRole_peer (rt_role ta) →
  rt_client_device_id t = rt_client_device_id ta →
  rt_target_device_id t = rt_target_device_id ta → now < rt_expires_at t →
  ∃ h tb', register_or_join tb t now = (Ok (h, true), tb').
Proof.
  intros Hok Hj Hr Hc Hd He. pose proof (register_or_join_verdict tb t now) as Hv.
  destruct (joinable_ok tb log t Hok) as [[Hn _]|[_ _ Ha _ Hs]]; [congruence|].
  rewrite Hj in Ha, Hs. apply Forall_singleton in Ha as [Ec Et].
  unfold pairing_verdict in Hv. rewrite (proj2 (Z.leb_gt _ _)), bool_decide_true in Hv
    by (lia || (split; congruence)).
  assert (∀ r, slot (joinable tb t) r = bool_decide (r = rt_role ta)) as Hsl.
  { intros r. specialize (Hs r). cbn in Hs. rewrite list_elem_of_singleton in Hs.
    case_bool_decide; [by apply Hs|]. destruct (slot _ r); [exfalso; tauto|done]. }
  rewrite !Hsl, Hr, EndpointRole_peer_involutive, bool_decide_false, bool_decide_true in Hv
    by (done || by destruct (rt_role ta)).
  destruct (register_or_join tb t now) as [[[h p]|e] tb']; cbn in Hv; [|done].
  injection Hv as ->. eauto.
Qed.

(** The connections a waiting task forwards between. *)
Definition sides (role : EndpointRole) (own peer : nat) : nat * nat :=
  match role with Role_Client => (own, peer) | Role_Host => (peer, own) end.

Definition joining_steps (a b : nat) (s : RecvStream) (now : Z) : list ServerStep :=
  [Step_Task b (In_Stream s now); Step_Task b In_Run; Step_Task b (In_Response true);
   Step_Task b In_Run; Step_Task b In_Run; Step_Task a In_Received].

Lemma task_step sv c phase i sv1 steps r :
  sv_tasks sv !! c = Some phase → handle_connection verifier sv c phase i = Some sv1 →
  server_run verifier sv1 steps = r → server_run verifier sv (Step_Task c i :: steps) = r.
Proof. intros E1 E2 <-. cbn [server_run server_step]. rewrite E1. cbn [mbind option_bind]. by rewrite E2. Qed.
Lemma sv_phase_task sv c phase : sv_tasks (sv_phase sv c phase) !! c = Some phase.
Proof. apply lookup_insert_eq. Qed.
Lemma sv_phase_other sv c phase x :
  c ≠ x → sv_tasks (sv_phase sv c phase) !! x = sv_tasks sv !! x.
Proof. apply lookup_insert_ne. Qed.

Ltac unproj :=
  cbn [sv_tasks sv_channels sv_waiting sv_phase sv_respond sv_present sv_set_table sv_set_waiting].

Lemma joining_run sv a b ta h t s now h' tb :
  a ≠ b → sv_tasks sv !! a = Some (Phase_Waiting ta h) →
  sv_channels sv !! a = Some Chan_Open →
  sv_waiting sv !! rt_session_id ta = Some (rt_role ta, a) →
  sv_tasks sv !! b = Some Phase_Accepting → read_handshake_token s = Some (Ok t) →
  RelayTokenVerifier_verify verifier t now = Ok tt → rt_session_id t = rt_session_id ta →
  register_or_join (sv_table sv) t now = (Ok (h', true), tb) →
  ∃ sv', server_run verifier sv (joining_steps a b s now) = Some sv' ∧
    sv_responses sv' = sv_responses sv ++ [(b, success_response t true)] ∧
    sv_tasks sv' !! a = Some (let '(client, host) := sides (rt_role ta) a b in
                              Phase_Forwarding client host true true ta h) ∧
    sv_tasks sv' !! b = Some Phase_Parked ∧ sv_log sv' = Joined t :: sv_log sv.
Proof.
  intros Hne Ea Hch Hw Eb Hs Hv Hsid Ej. destruct (rt_role ta) eqn:Er; eexists; split.
  1, 3: eapply task_step; [exact Eb|unfold handle_connection, handshake; rewrite Hs;
    cbn [mbind option_bind]; rewrite Hv, Ej; reflexivity|];
    eapply task_step; [apply sv_phase_task|reflexivity|];
    eapply task_step; [apply sv_phase_task|reflexivity|];
    eapply task_step; [apply sv_phase_task|unfold handle_connection; rewrite Hsid; unproj;
      rewrite Hw; reflexivity|];
    eapply task_step; [apply sv_phase_task|unfold handle_connection; unproj; rewrite Hch;
      reflexivity|];
    eapply (task_step _ _ (Phase_Waiting ta h)); [|unfold handle_connection; unproj;
      rewrite lookup_insert_eq, Er; reflexivity|reflexivity];
    unproj; rewrite !lookup_insert_ne by done; exact Ea.
  all: split; [reflexivity|split; [apply sv_phase_task|split; [|reflexivity]]];
    (etransitivity; [apply sv_phase_other; congruence|apply sv_phase_task]).
Qed.

Lemma closing_run sv a client host co ho t h lost :
  sv_tasks sv !! a = Some (Phase_Forwarding client host co ho t h) →
  lost = client ∨ lost = host →
  ∃ sv', server_run verifier sv [Step_Lost lost; Step_Task a In_Closed; Step_Task a In_Run] =
      Some sv' ∧
    client ∈ sv_closed sv' ∧ host ∈ sv_closed sv' ∧
    get_session (sv_table sv') (rt_session_id t) = None ∧
    tb_heap (sv_table sv') = alter RelaySession_terminate h (tb_heap (sv_table sv)) ∧
    sv_responses sv' = sv_responses sv.
Proof.
  intros Ea Hlost. cbn. rewrite Ea. cbn.
  assert (bool_decide (client ∈ {[lost]} ∪ sv_closed sv)
    || bool_decide (host ∈ {[lost]} ∪ sv_closed sv) = true) as ->.
  { apply orb_true_iff. rewrite !bool_decide_eq_true. set_solver. }
  cbn. rewrite lookup_insert_eq. cbn. eexists. split; [done|]. cbn.
  split_and!; [set_solver..| |done|done]. unfold get_session. cbn. apply lookup_delete_eq.
Qed.

(** Two endpoints are brought together: when the first one waits, in a state that
    any run can reach, an endpoint with a verified token of the other role for the same
    session and devices is told it is paired, and the waiting task then forwards between
    the two, the client's connection on the client's side; and when either connection is
    lost afterwards both are closed, and the session is terminated and leaves the table. *)
Theorem relay_pairs_endpoints steps sv a b ta h t s now lost :
  server_run verifier RelayServer_new steps = Some sv →
  sv_tasks sv !! a = Some (Phase_Waiting ta h) → sv_channels sv !! a = Some Chan_Open →
  sv_waiting sv !! rt_session_id ta = Some (rt_role ta, a) →
  joins (rt_session_id ta) (sv_log sv) = [ta] →
  sv_tasks sv !! b = Some Phase_Accepting → read_handshake_token s = Some (Ok t) →
  RelayTokenVerifier_verify verifier t now = Ok tt →
  rt_session_id t = rt_session_id ta → rt_role t = EndpointRole_peer (rt_role ta) →
  rt_client_device_id t = rt_client_device_id ta →
  rt_target_device_id t = rt_target_device_id ta →
  lost = a ∨ lost = b →
  ∃ sv' sv'', server_run verifier sv (joining_steps a b s now) = Some sv' ∧
    sv_responses sv' = sv_responses sv ++ [(b, success_response t true)] ∧
    sv_tasks sv' !! a = Some (let '(client, host) := sides (rt_role ta) a b in
                              Phase_Forwarding client host true true ta h) ∧
    sv_tasks sv' !! b = Some Phase_Parked ∧ sv_log sv' = Joined t :: sv_log sv ∧
    server_run verifier sv' [Step_Lost lost; Step_Task a In_Closed; Step_Task a In_Run] =
      Some sv'' ∧
    a ∈ sv_closed sv'' ∧ b ∈ sv_closed sv'' ∧
    get_session (sv_table sv'') (rt_session_id ta) = None ∧
    tb_heap (sv_table sv'') = alter RelaySession_terminate h (tb_heap (sv_table sv')) ∧
    sv_responses sv'' = sv_responses sv'.
Proof.
  intros Hrun Ea Hch Hw Hj Eb Hs Hv Hsid Hro Hc Hd Hlost.
  pose proof (server_run_inv _ _ _ _ (server_new_inv verifier) Hrun) as Hi.
  pose proof (relay_reachable_ok _ _ (si_table _ _ Hi)) as Hok.
  assert (now < rt_expires_at t) as He.
  { unfold RelayTokenVerifier_verify in Hv. destruct (negb _); [done|].
    destruct (Z.leb_spec (rt_expires_at t) now); [done|lia]. }
  rewrite <-Hsid in Hj.
  destruct (peer_join _ _ _ _ _ Hok Hj Hro Hc Hd He) as (h' & tbl & Ej).
  assert (a ≠ b) as Hne by congruence.
  destruct (joining_run _ _ _ _ _ _ _ _ _ _ Hne Ea Hch Hw Eb Hs Hv Hsid Ej)
    as (sv' & Hrun' & Hresp & Ea' & Eb' & Hlog).
  destruct (rt_role ta); cbn [sides] in *;
    [destruct (closing_run _ _ _ _ _ _ _ _ lost Ea') as (sv'' & Hr & Hcl & Hho & Hg & Hh & Hre)
    |destruct (closing_run _ _ _ _ _ _ _ _ lost Ea') as (sv'' & Hr & Hho & Hcl & Hg & Hh & Hre)];
    try tauto; exists sv', sv''; by split_and!.
Qed.
End pairing.

(** ** Concrete runs *)

Definition toy_token (role : EndpointRole) : RelayToken :=
  @RelayToken_sign toy_ed25519 (mkRelayToken "s-1" "relay-eu" "cli-1" "host-1" role 1000 []) [x05].
Definition toy_stream (role : EndpointRole) : RecvStream :=
  cut (match @client_handshake_request request_json (toy_token role) with
       | Ok b => b | Err _ => [] end).
Definition toy_run (steps : list ServerStep) : option RelayServer :=
  @server_run sample_quinn toy_ed25519 request_json_de token_json_de sample_relay_verifier
    RelayServer_new steps.

(** The first endpoint up to its wait, the second one up to the hand-over. *)
Definition first_endpoint (c : nat) (role : EndpointRole) : list ServerStep :=
  [Step_Accept c; Step_Task c (In_Stream (toy_stream role) 10); Step_Task c In_Run;
   Step_Task c (In_Response true)].
Definition second_endpoint (c : nat) (role : EndpointRole) : list ServerStep :=
  [Step_Accept c; Step_Task c (In_Stream (toy_stream role) 11); Step_Task c In_Run;
   Step_Task c (In_Response true); Step_Task c In_Run; Step_Task c In_Run].
Definition paired_run : list ServerStep :=
  first_endpoint 0 Role_Host ++ second_endpoint 1 Role_Client ++
  [Step_Task 0 In_Received; Step_Task 0 (In_Datagram Role_Client [x2a] Datagram_Sent)].

Lemma relay_forwards_authorised_witness :
  ∃ sv, toy_run paired_run = Some sv ∧ sv_delivered sv = [mkDelivery 1 0 [x2a]] ∧
    ∃ tf tt, @authorised toy_ed25519 sample_relay_verifier sv 1 tf ∧
      @authorised toy_ed25519 sample_relay_verifier sv 0 tt ∧
      rt_session_id tf = rt_session_id tt.
Proof.
  destruct (toy_run paired_run) as [sv|] eqn:E; [|vm_compute in E; discriminate].
  exists sv. split; [reflexivity|].
  destruct (@relay_forwards_authorised sample_quinn toy_ed25519 request_json_de token_json_de
    sample_relay_verifier paired_run sv E) as (_ & H & _).
  assert (sv_delivered sv = [mkDelivery 1 0 [x2a]]) as Ed by (vm_compute in E; by injection E as <-).
  split; [exact Ed|]. rewrite Ed in H.
  exact (proj2 (H (mkDelivery 1 0 [x2a]) (list_elem_of_here _ _))).
Defined.

Lemma relay_pairs_endpoints_witness :
  ∃ sv sv' sv'', toy_run (first_endpoint 0 Role_Host ++ [Step_Accept 1]) = Some sv ∧
    @server_run sample_quinn toy_ed25519 request_json_de token_json_de sample_relay_verifier sv
      (joining_steps 0 1 (toy_stream Role_Client) 11) = Some sv' ∧
    sv_tasks sv' !! 0%nat = Some (Phase_Forwarding 1 0 true true (toy_token Role_Host) 0) ∧
    @server_run sample_quinn toy_ed25519 request_json_de token_json_de sample_relay_verifier sv'
      [Step_Lost 1; Step_Task 0 In_Closed; Step_Task 0 In_Run] = Some sv'' ∧
    get_session (sv_table sv'') "s-1" = None.
Proof.
  destruct (toy_run (first_endpoint 0 Role_Host ++ [Step_Accept 1])) as [sv|] eqn:E;
    [|vm_compute in E; discriminate].
  assert (sv_tasks sv !! 0%nat = Some (Phase_Waiting (toy_token Role_Host) 0) ∧
    sv_channels sv !! 0%nat = Some Chan_Open ∧ sv_waiting sv !! "s-1" = Some (Role_Host, 0%nat) ∧
    joins "s-1" (sv_log sv) = [toy_token Role_Host] ∧
    sv_tasks sv !! 1%nat = Some Phase_Accepting) as (F1 & F2 & F3 & F4 & F5).
  { vm_compute in E. injection E as <-. vm_compute. repeat split. }
  destruct (@relay_pairs_endpoints sample_quinn toy_ed25519 request_json_de token_json_de
    sample_relay_verifier _ sv 0 1 (toy_token Role_Host) 0 (toy_token Role_Client)
    (toy_stream Role_Client) 11 1 E F1 F2 F3 F4 F5)
    as (sv' & sv'' & H1 & _ & H2 & _ & _ & H3 & _ & _ & H4 & _);
    [vm_compute; reflexivity..|right; reflexivity|].
  exists sv, sv', sv''. exact (conj eq_refl (conj H1 (conj H2 (conj H3 H4)))).
Defined.

(** An endpoint that joins before its partner is in the map of waiting peers: it is told
    that the session is paired, then its connection is closed and the session removed,
    while the first endpoint goes on to wait. *)
Definition early_run : list ServerStep :=
  [Step_Accept 0; Step_Task 0 (In_Stream (toy_stream Role_Host) 10)] ++
  second_endpoint 1 Role_Client ++ [Step_Task 0 In_Run; Step_Task 0 (In_Response true)].
Theorem early_peer_turned_away :
  ∃ sv h, toy_run early_run = Some sv ∧
    sv_responses sv = [(1%nat, success_response (toy_token Role_Client) true);
                       (0%nat, success_response (toy_token Role_Host) false)] ∧
    1%nat ∈ sv_closed sv ∧ sv_tasks sv !! 1%nat = Some Phase_Done ∧
    get_session (sv_table sv) "s-1" = None ∧
    sv_tasks sv !! 0%nat = Some (Phase_Waiting (toy_token Role_Host) h).
Proof.
  destruct (toy_run early_run) as [sv|] eqn:E; [|vm_compute in E; discriminate].
  exists sv, 0%nat. split; [done|]. vm_compute in E. injection E as <-.
  split_and!; vm_compute; reflexivity.
Qed.

(** Continued by a client and a host with tokens of the same session: the host is handed
    to the host that was left waiting, and the relay forwards between the two hosts. *)
Definition two_hosts_run : list ServerStep :=
  early_run ++ [Step_Accept 2; Step_Task 2 (In_Stream (toy_stream Role_Client) 12)] ++
  second_endpoint 3 Role_Host ++
  [Step_Task 0 In_Received; Step_Task 0 (In_Datagram Role_Client [x2a] Datagram_Sent)].
Theorem race_bridges_two_hosts :
  ∃ sv h, toy_run two_hosts_run = Some sv ∧
    sv_tasks sv !! 0%nat = Some (Phase_Forwarding 3 0 true true (toy_token Role_Host) h) ∧
    sv_presented sv !! 3%nat = Some (toy_token Role_Host, 11) ∧
    sv_presented sv !! 0%nat = Some (toy_token Role_Host, 10) ∧
    sv_delivered sv = [mkDelivery 3 0 [x2a]].
Proof.
  destruct (toy_run two_hosts_run) as [sv|] eqn:E; [|vm_compute in E; discriminate].
  exists sv, 0%nat. split; [done|]. vm_compute in E. injection E as <-.
  split_and!; vm_compute; reflexivity.
Qed.

(** A response that could not be written leaves the session and its slot taken: the
    endpoint that tries again is refused. *)
Definition failed_response_run : list ServerStep :=
  [Step_Accept 0; Step_Task 0 (In_Stream (toy_stream Role_Client) 10); Step_Task 0 In_Run;
   Step_Task 0 (In_Response false); Step_Accept 1;
   Step_Task 1 (In_Stream (toy_stream Role_Client) 20)].
Theorem failed_response_blocks_role :
  ∃ sv, toy_run failed_response_run = Some sv ∧
    sv_tasks sv !! 0%nat = Some Phase_Done ∧
    sv_responses sv = [(1%nat, failure_response (Some (toy_token Role_Client))
                          "endpoint role already connected for session")] ∧
    sv_tasks sv !! 1%nat = Some Phase_Done.
Proof.
  destruct (toy_run failed_response_run) as [sv|] eqn:E; [|vm_compute in E; discriminate].
  exists sv. split; [done|]. vm_compute in E. injection E as <-.
  split_and!; vm_compute; reflexivity.
Qed.
