(* ===== verification/Nv12.v ===== *)
(** * Pixels of the Windows encoder (platform/windows/src/codec.rs)

    The conversion of captured BGRA frames to NV12, the copy out of mapped textures and
    the assembly of access units.  [None] is a panic (an index outside a slice). *)

From S2P Require Import Prelude Capture Unicode Surface.

Open Scope Z_scope.

Record Nv12Layout := mkNv12Layout {
  nl_width : Z; nl_height : Z; nl_bgra_stride : Z; nl_bgra_len : Z; nl_y_len : Z;
  nl_output_len : Z
}.

Definition from_bgra_dimensions (width height : Z) : result CodecError Nv12Layout :=
  guard! (width =? 0) || (height =? 0) || negb (is_even width) || negb (is_even height)
    else Codec_InvalidDimensions ;;
  bgra_stride ← ok_or (checked_mul usize_max width 4) Codec_InvalidFrame;
  bgra_len ← ok_or (checked_mul usize_max bgra_stride height) Codec_InvalidFrame;
  y_len ← ok_or (checked_mul usize_max width height) Codec_InvalidFrame;
  output_len ← ok_or (checked_add usize_max y_len (y_len / 2)) Codec_InvalidFrame;
  Ok (mkNv12Layout width height bgra_stride bgra_len y_len output_len).

Definition bgra_offset (l : Nv12Layout) (row column : nat) : nat :=
  row * Z.to_nat (nl_bgra_stride l) + column * 4.
Definition nv12_offset (l : Nv12Layout) (row column : nat) : nat :=
  row * Z.to_nat (nl_width l) + column.

Definition h264_access_unit (sequence_header access_unit : bytes) (keyframe : bool) :
    result CodecError bytes :=
  guard! len access_unit =? 0 else Codec_BackendUnavailable ;;
  if negb keyframe then Ok access_unit else
  guard! len sequence_header =? 0 else Codec_BackendUnavailable ;;
  _ ← ok_or (checked_add usize_max (len sequence_header) (len access_unit)) Codec_BackendUnavailable;
  Ok (sequence_header ++ access_unit).

Definition copy_pitched_nv12 (mapped : bytes) (pitch : Z) (layout : Nv12Layout) :
    option (result CodecError bytes) :=
  if pitch <? nl_width layout then Some (Err Codec_BackendLost) else
  match checked_add usize_max (nl_height layout) (nl_height layout / 2) with
  | None => Some (Err Codec_BackendLost)
  | Some mapped_rows =>
  match checked_mul usize_max pitch mapped_rows with
  | None => Some (Err Codec_BackendLost)
  | Some required_len =>
      if len mapped <? required_len then Some (Err Codec_BackendLost) else
      let w := Z.to_nat (nl_width layout) in
      let p := Z.to_nat pitch in
      let h := Z.to_nat (nl_height layout) in
      nv12 ← for_each (seq 0 h) (λ nv12 row,
        r ← slice_at mapped (row * p) w; write_at nv12 (row * w) r)
        (replicate (Z.to_nat (nl_output_len layout)) x00);
      nv12 ← for_each (seq 0 (Z.to_nat (nl_height layout / 2))) (λ nv12 row,
        r ← slice_at mapped (h * p + row * p) w;
        write_at nv12 (Z.to_nat (nl_y_len layout) + row * w) r) nv12;
      Some (Ok nv12)
  end end.

(** [copy_mapped_nv12]: a mapped texture, [None] a null pointer. *)
Definition copy_mapped_nv12 (memory : option bytes) (row_pitch width height : Z) :
    option (result CodecError bytes) :=
  match from_bgra_dimensions width height with
  | Err e => Some (Err e)
  | Ok layout =>
  match memory with
  | None => Some (Err Codec_BackendLost)
  | Some memory =>
      if row_pitch <? nl_width layout then Some (Err Codec_BackendLost) else
      match checked_add usize_max (nl_height layout) (nl_height layout / 2) with
      | None => Some (Err Codec_BackendLost)
      | Some mapped_rows =>
      match checked_mul usize_max row_pitch mapped_rows with
      | None => Some (Err Codec_BackendLost)
      | Some mapped_len =>
          source ← slice_at memory 0 (Z.to_nat mapped_len);
          copy_pitched_nv12 source row_pitch layout
      end end
  end end.

(** ** Colours *)

Definition clamp_byte (value : Z) : byte := to_byte (Z.min (Z.max value 0) 255).

Definition luma_of (b g r : Z) : Z := Z.shiftr (66 * r + 129 * g + 25 * b + 128) 8 + 16.
Definition u_of (b g r : Z) : Z := Z.shiftr (-38 * r - 74 * g + 112 * b + 128) 8 + 128.
Definition v_of (b g r : Z) : Z := Z.shiftr (112 * r - 94 * g - 18 * b + 128) 8 + 128.

(** Blue, green and red of the pixel at a row and a column. *)
Definition bgra_pixel_at (data : bytes) (l : Nv12Layout) (row column : nat) : option (Z * Z * Z) :=
  let source := bgra_offset l row column in
  b ← index_at data source;
  g ← index_at data (source + 1);
  r ← index_at data (source + 2);
  Some (b, g, r).

(** The inner loops over the four pixels of a block, and the division of [i32]. *)
Definition block_sum (data : bytes) (l : Nv12Layout) (row column : nat)
    (f : Z → Z → Z → Z) : option Z :=
  for_each [(0, 0); (0, 1); (1, 0); (1, 1)]%nat (λ sum p,
    '(b, g, r) ← bgra_pixel_at data l (row + fst p) (column + snd p);
    Some (sum + f b g r)) 0.
Definition block_chroma (data : bytes) (l : Nv12Layout) (row column : nat) : option bytes :=
  u ← block_sum data l row column u_of;
  v ← block_sum data l row column v_of;
  Some [clamp_byte (Z.quot u 4); clamp_byte (Z.quot v 4)].

Definition bgra_to_nv12 (f : CapturedFrame) : option (result CodecError bytes) :=
  match fr_format f, CapturedFrame_validate f with
  | Pixel_Bgra8, Ok _ =>
      match from_bgra_dimensions (fr_width f) (fr_height f) with
      | Err e => Some (Err e)
      | Ok layout =>
          if negb (len (fr_data f) =? nl_bgra_len layout) then Some (Err Codec_InvalidFrame) else
          let w := Z.to_nat (nl_width layout) in
          let h := Z.to_nat (nl_height layout) in
          nv12 ← for_each (raster w h) (λ nv12 p,
            '(b, g, r) ← bgra_pixel_at (fr_data f) layout (fst p) (snd p);
            write_at nv12 (nv12_offset layout (fst p) (snd p)) [clamp_byte (luma_of b g r)])
            (replicate (Z.to_nat (nl_output_len layout)) x00);
          Ok <$> for_each (raster (w / 2) (h / 2)) (λ nv12 p,
            let row := (2 * fst p)%nat in
            let column := (2 * snd p)%nat in
            uv ← block_chroma (fr_data f) layout row column;
            write_at nv12 (Z.to_nat (nl_y_len layout) + row / 2 * w + column) uv) nv12
      end
  | _, _ => Some (Err Codec_InvalidFrame)
  end.

(** ** The layout *)

Definition layout_of (width height : Z) : Nv12Layout :=
  mkNv12Layout width height (4 * width) (4 * width * height) (width * height)
    (width * height + width * height / 2).

(** A layout exists exactly for whole blocks, when the size of the frame fits [usize]. *)
Lemma from_bgra_dimensions_spec width height :
  uint 32 width → uint 32 height → width * height * 4 ≤ usize_max →
  (even_dimensions width height ∧ from_bgra_dimensions width height = Ok (layout_of width height)) ∨
  (¬ even_dimensions width height ∧
     from_bgra_dimensions width height = Err Codec_InvalidDimensions).
Proof.
  unfold uint, from_bgra_dimensions, even_dimensions, is_even, layout_of. intros Hw Hh Hm.
  destruct (_ || _) eqn:E; [right; split; [lia|done]|left].
  split; [lia|]. cbn. unfold checked_mul, checked_add, usize_max, u64_max in *.
  assert (0 ≤ width * height / 2 ≤ width * height)
    by (split; [apply Z.div_pos|apply Z.div_le_upper_bound]; nia).
  rewrite (proj2 (Z.leb_le (width * 4) _)) by lia. cbn.
  rewrite (proj2 (Z.leb_le (width * 4 * height) _)) by nia. cbn.
  rewrite (proj2 (Z.leb_le (width * height) _)) by nia. cbn.
  rewrite (proj2 (Z.leb_le (width * height + _) _)) by nia. cbn.
  do 2 f_equal; lia.
Qed.

(** ** Copying out of a mapped texture *)

Lemma copy_pitched_cases mapped pitch width height :
  even_dimensions width height → 0 ≤ pitch → height + height / 2 ≤ usize_max →
  len mapped ≤ usize_max →
  copy_pitched_nv12 mapped pitch (layout_of width height) =
    Some (if bool_decide (width ≤ pitch ∧ pitch * (height + height / 2) ≤ len mapped)
          then Ok (concat (nv12_rows mapped pitch width height)) else Err Codec_BackendLost).
Proof.
  intros Hd Hp Hh Hl. unfold copy_pitched_nv12. cbn [nl_width nl_height nl_output_len nl_y_len layout_of].
  destruct (Z.ltb_spec pitch width); [by rewrite bool_decide_false by lia|].
  unfold checked_add, checked_mul. rewrite (proj2 (Z.leb_le (height + _) _)) by lia.
  destruct (Z.leb_spec (pitch * (height + height / 2)) usize_max);
    [|by rewrite bool_decide_false by lia].
  destruct (Z.ltb_spec (len mapped) (pitch * (height + height / 2)));
    [by rewrite bool_decide_false by lia|].
  rewrite bool_decide_true by lia.
  pose proof (nv12_rows_loops mapped pitch width height Hd ltac:(lia) ltac:(lia)) as E.
  apply bind_Some in E as (packed1 & E1 & E2). cbv zeta. rewrite E1. cbn [mbind option_bind].
  by rewrite E2.
Qed.

(** C30. The host's copy out of a mapped texture and the client's repacking of a decoded
    frame are one function: on dimensions both accept and any pitch, when the pitch covers
    a row and the memory every row of luma and chroma, both succeed with the same bytes,
    the rows without their padding; otherwise both fail; neither panics. *)
Theorem copy_pitched_is_repack mapped pitch width height :
  surface_dimensions width height → uint 32 pitch → len mapped ≤ usize_max →
  ∃ layout, from_bgra_dimensions width height = Ok layout ∧
  if decide (width ≤ pitch ∧ pitch * (height + height / 2) ≤ len mapped) then
    let rows := concat (nv12_rows mapped pitch width height) in
    copy_pitched_nv12 mapped pitch layout = Some (Ok rows) ∧
    repack_nv12 mapped pitch width height = Some (Ok rows)
  else
    copy_pitched_nv12 mapped pitch layout = Some (Err Codec_BackendLost) ∧
    ∃ e, repack_nv12 mapped pitch width height = Some (Err e).
Proof.
  intros Hd Hp Hl. pose proof Hd as (Hw & Hh & _).
  unfold MAX_SURFACE_WIDTH, MAX_SURFACE_HEIGHT in *.
  assert (0 ≤ height / 2 ≤ height) by (split; [apply Z.div_pos|apply Z.div_le_upper_bound]; lia).
  exists (layout_of width height). split.
  { destruct (from_bgra_dimensions_spec width height) as [[_ ->]|[Hn _]]; [unfold uint; lia..|unfold usize_max, u64_max; nia|done|].
    destruct Hn. by apply surface_even. }
  rewrite copy_pitched_cases; [|by apply surface_even|unfold uint in Hp; lia|unfold usize_max, u64_max; lia|done].
  destruct (repack_nv12_cases mapped pitch width height) as [(Hn & e & E)|(Hc & E)];
    [unfold uint in *; lia..|done| |]; destruct (decide _) as [Hcov|Hcov].
  - by destruct Hn.
  - rewrite bool_decide_false by done. eauto.
  - rewrite bool_decide_true by done. eauto.
  - destruct Hcov. tauto.
Qed.

Lemma copy_pitched_is_repack_witness :
  ∃ layout, from_bgra_dimensions 2 2 = Ok layout ∧
    copy_pitched_nv12 (to_byte <$> [1; 2; 90; 3; 4; 91; 5; 6; 92]) 3 layout =
      Some (Ok (to_byte <$> [1; 2; 3; 4; 5; 6])).
Proof.
  destruct (copy_pitched_is_repack (to_byte <$> [1; 2; 90; 3; 4; 91; 5; 6; 92]) 3 2 2)
    as (layout & El & H); [unfold surface_dimensions; repeat split; vm_compute; congruence
      |unfold uint; lia|vm_compute; congruence|].
  exists layout. split; [exact El|]. rewrite decide_True in H by (split; vm_compute; congruence).
  destruct H as [-> _]. reflexivity.
Defined.

(** ** The range of the colours *)

Definition channel (z : Z) : Prop := 0 ≤ z < 256.

Lemma luma_range b g r : channel b → channel g → channel r → 16 ≤ luma_of b g r ≤ 235.
Proof. unfold channel, luma_of. rewrite Z.shiftr_div_pow2 by lia. change (2 ^ 8) with 256.
  intros. Z.to_euclidean_division_equations. lia.
Qed.
Lemma u_range b g r : channel b → channel g → channel r → 16 ≤ u_of b g r ≤ 240.
Proof. unfold channel, u_of. rewrite Z.shiftr_div_pow2 by lia. change (2 ^ 8) with 256.
  intros. Z.to_euclidean_division_equations. lia.
Qed.
Lemma v_range b g r : channel b → channel g → channel r → 16 ≤ v_of b g r ≤ 240.
Proof. unfold channel, v_of. rewrite Z.shiftr_div_pow2 by lia. change (2 ^ 8) with 256.
  intros. Z.to_euclidean_division_equations. lia.
Qed.

Lemma of_clamp_byte z : 0 ≤ z < 256 → of_byte (clamp_byte z) = z.
Proof. intros. unfold clamp_byte. rewrite of_to_byte_small by lia. lia. Qed.
Lemma of_clamp_u8 z : of_byte (clamp_u8 z) = Z.min (Z.max z 0) 255.
Proof. unfold clamp_u8. apply of_to_byte_small. lia. Qed.

(** What the decoder of the client computes from a luma and a chroma pair. *)
Lemma decoded_colours_close b g r :
  channel b → channel g → channel r →
  let luma := Z.max (luma_of b g r - 16) 0 in
  let u := u_of b g r - 128 in let v := v_of b g r - 128 in
  Z.abs (of_byte (clamp_u8 (Z.shiftr (298 * luma + 516 * u + 128) 8)) - b) ≤ 3 ∧
  Z.abs (of_byte (clamp_u8 (Z.shiftr (298 * luma - 100 * u - 208 * v + 128) 8)) - g) ≤ 3 ∧
  Z.abs (of_byte (clamp_u8 (Z.shiftr (298 * luma + 409 * v + 128) 8)) - r) ≤ 3.
Proof.
  unfold channel, luma_of, u_of, v_of. intros Hb Hg Hr. cbv zeta.
  rewrite !of_clamp_u8, !Z.shiftr_div_pow2 by lia. change (2 ^ 8) with 256.
  Z.to_euclidean_division_equations. split_and!; lia.
Qed.

(** ** The conversion *)

(** A frame of whole blocks: [2 * w2] columns, [2 * h2] rows, four bytes a pixel. *)
Record blocks_frame (f : CapturedFrame) (w2 h2 : nat) : Prop := {
  bf_format : fr_format f = Pixel_Bgra8;
  bf_width : fr_width f = Z.of_nat (2 * w2);
  bf_height : fr_height f = Z.of_nat (2 * h2);
  bf_pos : (0 < w2 ∧ 0 < h2)%nat;
  bf_fit : fr_width f * fr_height f * 4 ≤ usize_max;
  bf_range : uint 32 (fr_width f) ∧ uint 32 (fr_height f);
  bf_data : length (fr_data f) = (2 * h2 * (2 * w2) * 4)%nat
}.

(** The pixel of a frame of a given width. *)
Definition pixel_at (data : bytes) (width row column : nat) : option (Z * Z * Z) :=
  b ← index_at data ((row * width + column) * 4);
  g ← index_at data ((row * width + column) * 4 + 1);
  r ← index_at data ((row * width + column) * 4 + 2);
  Some (b, g, r).

Lemma bgra_pixel_at_layout data (w h : nat) row column :
  bgra_pixel_at data (layout_of (Z.of_nat w) (Z.of_nat h)) row column = pixel_at data w row column.
Proof.
  unfold bgra_pixel_at, pixel_at, bgra_offset. cbn [nl_bgra_stride layout_of].
  replace (row * Z.to_nat (4 * Z.of_nat w) + column * 4)%nat with ((row * w + column) * 4)%nat
    by lia. done.
Qed.

Lemma pixel_at_total data (w h : nat) row column :
  length data = (h * w * 4)%nat → (row < h)%nat → (column < w)%nat →
  ∃ b g r, pixel_at data w row column = Some (b, g, r) ∧ channel b ∧ channel g ∧ channel r.
Proof.
  intros Hl Hr Hc. unfold pixel_at, index_at, channel.
  assert ((row * w + column) * 4 + 2 < length data)%nat by nia.
  destruct (lookup_lt_is_Some_2 data ((row * w + column) * 4)) as [x ->]; [lia|].
  destruct (lookup_lt_is_Some_2 data ((row * w + column) * 4 + 1)) as [y ->]; [lia|].
  destruct (lookup_lt_is_Some_2 data ((row * w + column) * 4 + 2)) as [z ->]; [lia|].
  eexists _, _, _. split; [done|]. auto using of_byte_range.
Qed.

(** The sums over a block, from its four pixels. *)
Definition block_pixels (data : bytes) (width i j : nat) : option (list (Z * Z * Z)) :=
  mapM (λ p, pixel_at data width (2 * i + fst p) (2 * j + snd p))
    [(0, 0); (0, 1); (1, 0); (1, 1)]%nat.
Definition sum_of (f : Z → Z → Z → Z) (ps : list (Z * Z * Z)) : Z :=
  foldl (λ s '(b, g, r), s + f b g r) 0 ps.

Lemma block_sum_pixels data (w h : nat) i j f ps :
  block_pixels data w i j = Some ps →
  block_sum data (layout_of (Z.of_nat w) (Z.of_nat h)) (2 * i) (2 * j) f = Some (sum_of f ps).
Proof.
  unfold block_pixels, block_sum. generalize (2 * i)%nat (2 * j)%nat. intros r c E.
  cbn [mapM fst snd] in E. cbn [for_each fst snd]. rewrite !bgra_pixel_at_layout.
  destruct (pixel_at data w (r + 0) (c + 0)) as [[[b0 g0] r0]|]; [|done]. cbn in *.
  destruct (pixel_at data w (r + 0) (c + 1)) as [[[b1 g1] r1]|]; [|done]. cbn in *.
  destruct (pixel_at data w (r + 1) (c + 0)) as [[[b2 g2] r2]|]; [|done]. cbn in *.
  destruct (pixel_at data w (r + 1) (c + 1)) as [[[b3 g3] r3]|]; [|done]. cbn in *.
  by injection E as <-.
Qed.

Lemma block_pixels_total data (w2 h2 : nat) i j :
  length data = (2 * h2 * (2 * w2) * 4)%nat → (i < h2)%nat → (j < w2)%nat →
  ∃ ps, block_pixels data (2 * w2) i j = Some ps ∧ length ps = 4%nat ∧
    Forall (λ '(b, g, r), channel b ∧ channel g ∧ channel r) ps.
Proof.
  intros Hl Hi Hj.
  assert (∀ p, p ∈ [(0, 0); (0, 1); (1, 0); (1, 1)]%nat → ∃ q,
    pixel_at data (2 * w2) (2 * i + fst p) (2 * j + snd p) = Some q ∧
    (λ '(b, g, r), channel b ∧ channel g ∧ channel r) q) as Hp.
  { intros p Hp. destruct (pixel_at_total data (2 * w2) (2 * h2) (2 * i + fst p) (2 * j + snd p))
      as (b & g & r & E & ?); [done|..|by exists (b, g, r)];
      repeat (apply elem_of_cons in Hp as [->|Hp]; [cbn; lia|]); by apply not_elem_of_nil in Hp. }
  unfold block_pixels. destruct (mapM_is_Some_2 (λ p, pixel_at data (2 * w2) (2 * i + fst p)
    (2 * j + snd p)) [(0, 0); (0, 1); (1, 0); (1, 1)]%nat) as [ps E].
  { apply Forall_forall. intros p (q & E & _)%Hp. by exists q. }
  exists ps. split; [done|]. apply mapM_Some in E. split; [symmetry; by eapply Forall2_length in E|].
  apply Forall_forall. intros q Hq. apply list_elem_of_lookup in Hq as [k Hk].
  destruct (Forall2_lookup_r _ _ _ _ _ E Hk) as (p & Hpk & Ep).
  destruct (Hp p) as (q' & Eq & Hc); [by eapply list_elem_of_lookup_2|].
  assert (Some q' = Some q) as [= <-] by (by rewrite <-Eq). done.
Qed.

Lemma sum_of_range f lo hi ps :
  (∀ b g r, channel b → channel g → channel r → lo ≤ f b g r ≤ hi) →
  Forall (λ '(b, g, r), channel b ∧ channel g ∧ channel r) ps → length ps = 4%nat →
  0 ≤ lo → lo ≤ Z.quot (sum_of f ps) 4 ≤ hi.
Proof.
  intros Hf Hp Hl Hlo.
  destruct ps as [|[[b0 g0] r0] [|[[b1 g1] r1] [|[[b2 g2] r2] [|[[b3 g3] r3] [|]]]]]; try done.
  repeat (apply Forall_cons in Hp as [(? & ? & ?) Hp]). unfold sum_of. cbn.
  assert (lo ≤ f b0 g0 r0 ≤ hi ∧ lo ≤ f b1 g1 r1 ≤ hi ∧ lo ≤ f b2 g2 r2 ≤ hi ∧
    lo ≤ f b3 g3 r3 ≤ hi) by (split_and!; apply Hf; assumption). rewrite Z.quot_div_nonneg by lia.
  Z.to_euclidean_division_equations. lia.
Qed.

(** The two planes. *)
Definition luma_block (data : bytes) (w : nat) (p : nat * nat) : bytes :=
  match pixel_at data w (fst p) (snd p) with
  | Some (b, g, r) => [clamp_byte (luma_of b g r)]
  | None => []
  end.
Definition chroma_block (data : bytes) (w : nat) (p : nat * nat) : bytes :=
  match block_pixels data w (fst p) (snd p) with
  | Some ps => [clamp_byte (Z.quot (sum_of u_of ps) 4); clamp_byte (Z.quot (sum_of v_of ps) 4)]
  | None => []
  end.
Definition nv12_planes (data : bytes) (w2 h2 : nat) : bytes :=
  concat (luma_block data (2 * w2) <$> raster (2 * w2) (2 * h2)) ++
  concat (chroma_block data (2 * w2) <$> raster w2 h2).

Lemma luma_block_one data w2 h2 p :
  length data = (2 * h2 * (2 * w2) * 4)%nat → (fst p < 2 * h2)%nat → (snd p < 2 * w2)%nat →
  ∃ b g r, pixel_at data (2 * w2) (fst p) (snd p) = Some (b, g, r) ∧
    channel b ∧ channel g ∧ channel r ∧
    luma_block data (2 * w2) p = [clamp_byte (luma_of b g r)].
Proof.
  intros Hl Hr Hc. destruct (pixel_at_total data (2 * w2) (2 * h2) (fst p) (snd p))
    as (b & g & r & E & ? & ? & ?); [done..|].
  exists b, g, r. unfold luma_block. by rewrite E.
Qed.
Lemma chroma_block_two data w2 h2 p :
  length data = (2 * h2 * (2 * w2) * 4)%nat → (fst p < h2)%nat → (snd p < w2)%nat →
  ∃ ps, block_pixels data (2 * w2) (fst p) (snd p) = Some ps ∧ length ps = 4%nat ∧
    Forall (λ '(b, g, r), channel b ∧ channel g ∧ channel r) ps ∧
    chroma_block data (2 * w2) p =
      [clamp_byte (Z.quot (sum_of u_of ps) 4); clamp_byte (Z.quot (sum_of v_of ps) 4)].
Proof.
  intros Hl Hi Hj. destruct (block_pixels_total data w2 h2 (fst p) (snd p)) as (ps & E & ? & ?);
    [done..|]. exists ps. unfold chroma_block. by rewrite E.
Qed.

Lemma luma_plane_blocks data w2 h2 :
  length data = (2 * h2 * (2 * w2) * 4)%nat →
  Forall (λ l, length l = 1%nat) (luma_block data (2 * w2) <$> raster (2 * w2) (2 * h2)).
Proof.
  intros Hl. apply Forall_fmap, Forall_lookup. intros k p (_ & Hx & Hy)%raster_lookup.
  change (length (luma_block data (2 * w2) p) = 1%nat).
  by destruct (luma_block_one data w2 h2 p) as (? & ? & ? & _ & _ & _ & _ & ->).
Qed.
Lemma chroma_plane_blocks data w2 h2 :
  length data = (2 * h2 * (2 * w2) * 4)%nat →
  Forall (λ l, length l = 2%nat) (chroma_block data (2 * w2) <$> raster w2 h2).
Proof.
  intros Hl. apply Forall_fmap, Forall_lookup. intros k p (_ & Hx & Hy)%raster_lookup.
  change (length (chroma_block data (2 * w2) p) = 2%nat).
  by destruct (chroma_block_two data w2 h2 p) as (? & _ & _ & _ & ->).
Qed.
Lemma length_luma_plane data w2 h2 :
  length data = (2 * h2 * (2 * w2) * 4)%nat →
  length (concat (luma_block data (2 * w2) <$> raster (2 * w2) (2 * h2))) = (2 * h2 * (2 * w2))%nat.
Proof.
  intros Hl. rewrite (length_concat_same 1) by by apply luma_plane_blocks.
  rewrite length_fmap, length_raster. lia.
Qed.
Lemma length_chroma_plane data w2 h2 :
  length data = (2 * h2 * (2 * w2) * 4)%nat →
  length (concat (chroma_block data (2 * w2) <$> raster w2 h2)) = (h2 * w2 * 2)%nat.
Proof.
  intros Hl. rewrite (length_concat_same 2) by by apply chroma_plane_blocks.
  by rewrite length_fmap, length_raster.
Qed.

Lemma blocks_frame_layout f w2 h2 :
  blocks_frame f w2 h2 →
  CapturedFrame_validate f = Ok tt ∧
  from_bgra_dimensions (fr_width f) (fr_height f) =
    Ok (layout_of (Z.of_nat (2 * w2)) (Z.of_nat (2 * h2))) ∧
  len (fr_data f) = nl_bgra_len (layout_of (Z.of_nat (2 * w2)) (Z.of_nat (2 * h2))).
Proof.
  intros [Hf Hw Hh Hp Hfit [Rw Rh] Hd]. split_and!.
  - unfold CapturedFrame_validate, expected_bgra_len, checked_mul. rewrite Hf.
    destruct (Z.eqb_spec (fr_width f) 0); [lia|]. destruct (Z.eqb_spec (fr_height f) 0); [lia|].
    cbn [orb]. rewrite (proj2 (Z.leb_le (fr_width f * fr_height f) _)) by nia. cbn.
    rewrite (proj2 (Z.leb_le _ _)) by done. cbn. unfold len. rewrite Hd, Hw, Hh.
    rewrite (proj2 (Z.eqb_eq _ _)) by lia. done.
  - destruct (from_bgra_dimensions_spec (fr_width f) (fr_height f)) as [[_ ->]|[Hn _]]; [done..| |].
    + by rewrite Hw, Hh.
    + destruct Hn. unfold even_dimensions. rewrite Hw, Hh.
      rewrite !Nat2Z.inj_mul. change (Z.of_nat 2) with 2.
      split_and!; [lia|lia|rewrite Z.mul_comm; by apply Z.mod_mul..].
  - unfold len. cbn. rewrite Hd. lia.
Qed.

Lemma bgra_to_nv12_planes f w2 h2 :
  blocks_frame f w2 h2 → bgra_to_nv12 f = Some (Ok (nv12_planes (fr_data f) w2 h2)).
Proof.
  intros Hb. destruct (blocks_frame_layout f w2 h2 Hb) as (Hv & Hl & Hlen).
  unfold bgra_to_nv12. rewrite (bf_format _ _ _ Hb), Hv, Hl, Hlen, Z.eqb_refl. cbn [negb].
  pose proof (bf_data _ _ _ Hb) as Hd. cbn [nl_width nl_height nl_output_len nl_y_len layout_of].
  rewrite !Nat2Z.id. set (data := fr_data f) in *.
  replace (Z.to_nat (Z.of_nat (2 * w2) * Z.of_nat (2 * h2) +
    Z.of_nat (2 * w2) * Z.of_nat (2 * h2) / 2)) with (2 * h2 * (2 * w2) + h2 * w2 * 2)%nat.
  2:{ replace (Z.of_nat (2 * w2) * Z.of_nat (2 * h2)) with (Z.of_nat (h2 * w2 * 2) * 2) by lia.
      rewrite Z.div_mul by lia. lia. }
  replace (Z.to_nat (Z.of_nat (2 * w2) * Z.of_nat (2 * h2))) with (2 * h2 * (2 * w2))%nat by lia.
  pose proof (for_each_fill 1 (luma_block data (2 * w2)) (raster (2 * w2) (2 * h2)) (λ nv12 p,
      '(b, g, r) ← bgra_pixel_at data (layout_of (Z.of_nat (2 * w2)) (Z.of_nat (2 * h2))) (fst p) (snd p);
      write_at nv12 (nv12_offset (layout_of (Z.of_nat (2 * w2)) (Z.of_nat (2 * h2))) (fst p) (snd p))
        [clamp_byte (luma_of b g r)]) []
    (replicate (2 * h2 * (2 * w2) + h2 * w2 * 2) x00)) as H1.
  cbn [app length] in H1. rewrite H1; clear H1.
  2:{ intros k p buffer (-> & Hx & Hy)%raster_lookup.
      destruct (luma_block_one data w2 h2 p) as (b & g & r & E & _ & _ & _ & El); [done..|].
      rewrite El, bgra_pixel_at_layout, E. split; [done|]. cbn [mbind option_bind].
      unfold nv12_offset. cbn [nl_width layout_of]. rewrite Nat2Z.id. f_equal. lia. }
  2:{ rewrite length_raster, length_replicate. lia. }
  cbn [mbind option_bind]. rewrite length_raster.
  replace (2 * w2 / 2)%nat with w2 by (rewrite Nat.mul_comm, Nat.div_mul; lia).
  replace (2 * h2 / 2)%nat with h2 by (rewrite Nat.mul_comm, Nat.div_mul; lia).
  rewrite (for_each_fill 2 (chroma_block data (2 * w2))).
  - rewrite length_raster, drop_drop, drop_replicate.
    replace (2 * h2 * (2 * w2) + h2 * w2 * 2 - _)%nat with 0%nat by lia.
    cbn [replicate]. by rewrite app_nil_r.
  - intros k p buffer (-> & Hx & Hy)%raster_lookup.
    destruct (chroma_block_two data w2 h2 p) as (ps & E & _ & _ & El); [done..|].
    rewrite El. split; [done|]. unfold block_chroma.
    rewrite !(block_sum_pixels _ _ _ _ _ _ _ E). cbn [mbind option_bind].
    rewrite length_luma_plane by done. f_equal.
    rewrite (Nat.mul_comm 2 (fst p)), Nat.div_mul by lia. lia.
  - rewrite length_raster, length_drop, length_replicate. lia.
Qed.

Lemma index_take_drop l k n i z :
  (i < n)%nat → index_at (take n (drop k l)) i = Some z → index_at l (k + i) = Some z.
Proof.
  unfold index_at. intros Hi. rewrite lookup_take_lt, lookup_drop by done. done.
Qed.
Lemma index_app_l l k i : (i < length l)%nat → index_at (l ++ k) i = index_at l i.
Proof. intros. unfold index_at. by rewrite lookup_app_l. Qed.
Lemma index_app_r l k i : index_at (l ++ k) (length l + i) = index_at k i.
Proof. unfold index_at. rewrite lookup_app_r by lia. do 2 f_equal. lia. Qed.

Lemma planes_luma data w2 h2 y x b g r :
  length data = (2 * h2 * (2 * w2) * 4)%nat → (y < 2 * h2)%nat → (x < 2 * w2)%nat →
  pixel_at data (2 * w2) y x = Some (b, g, r) →
  index_at (nv12_planes data w2 h2) (y * (2 * w2) + x) = Some (luma_of b g r) ∧
  16 ≤ luma_of b g r ≤ 235.
Proof.
  intros Hl Hy Hx E.
  destruct (luma_block_one data w2 h2 (y, x)) as (b' & g' & r' & E' & Hb & Hg & Hr & El); [done..|].
  cbn [fst snd] in E'. rewrite E in E'. injection E' as <- <- <-.
  pose proof (luma_range b g r Hb Hg Hr). split; [|done]. unfold nv12_planes.
  rewrite index_app_l by (rewrite length_luma_plane; [nia|done]).
  rewrite <-(Nat.add_0_r (y * (2 * w2) + x)). apply (index_take_drop _ _ 1); [lia|].
  rewrite <-(Nat.mul_1_r (y * (2 * w2) + x)).
  rewrite (block_at 1 _ _ (luma_block data (2 * w2) (y, x)));
    [|by apply luma_plane_blocks|by rewrite list_lookup_fmap, raster_lookup_pixel].
  rewrite El. cbn. by rewrite of_clamp_byte by lia.
Qed.

Lemma planes_chroma data w2 h2 i j ps :
  length data = (2 * h2 * (2 * w2) * 4)%nat → (i < h2)%nat → (j < w2)%nat →
  block_pixels data (2 * w2) i j = Some ps →
  let at_block := (2 * h2 * (2 * w2) + i * (2 * w2) + 2 * j)%nat in
  index_at (nv12_planes data w2 h2) at_block = Some (Z.quot (sum_of u_of ps) 4) ∧
  index_at (nv12_planes data w2 h2) (at_block + 1) = Some (Z.quot (sum_of v_of ps) 4) ∧
  16 ≤ Z.quot (sum_of u_of ps) 4 ≤ 240 ∧ 16 ≤ Z.quot (sum_of v_of ps) 4 ≤ 240.
Proof.
  intros Hl Hi Hj E at_block.
  destruct (chroma_block_two data w2 h2 (i, j)) as (ps' & E' & H4 & Hc & El); [done..|].
  cbn [fst snd] in E'. rewrite E in E'. injection E' as <-.
  pose proof (sum_of_range u_of 16 240 ps u_range Hc H4 ltac:(lia)).
  pose proof (sum_of_range v_of 16 240 ps v_range Hc H4 ltac:(lia)).
  assert (∀ k z, (k < 2)%nat → index_at (chroma_block data (2 * w2) (i, j)) k = Some z →
    index_at (nv12_planes data w2 h2) (at_block + k) = Some z) as Hk.
  { intros k z Hk Ez. unfold nv12_planes, at_block.
    replace (2 * h2 * (2 * w2) + i * (2 * w2) + 2 * j + k)%nat with
      (length (concat (luma_block data (2 * w2) <$> raster (2 * w2) (2 * h2))) +
       ((i * w2 + j) * 2 + k))%nat by (rewrite length_luma_plane by done; lia).
    rewrite index_app_r.
    apply (index_take_drop _ _ 2); [done|].
    rewrite (block_at 2 _ _ (chroma_block data (2 * w2) (i, j)));
      [done|by apply chroma_plane_blocks|by rewrite list_lookup_fmap, raster_lookup_pixel]. }
  split; [|split; [|by split]].
  - rewrite <-(Nat.add_0_r at_block). apply Hk; [lia|]. rewrite El. cbn.
    by rewrite of_clamp_byte by lia.
  - apply Hk; [lia|]. rewrite El. cbn. by rewrite of_clamp_byte by lia.
Qed.

Lemma bgra_to_nv12_errors f :
  uint 32 (fr_width f) → uint 32 (fr_height f) →
  (∃ e, bgra_to_nv12 f = Some (Err e)) ∨ ∃ w2 h2, blocks_frame f w2 h2.
Proof.
  intros Hw Hh. unfold bgra_to_nv12. destruct (fr_format f) eqn:Ef; [left; eauto|].
  destruct (CapturedFrame_validate f) as [[]|] eqn:Ev; [|left; eauto].
  unfold CapturedFrame_validate, expected_bgra_len, checked_mul in Ev. rewrite Ef in Ev.
  destruct (_ || _) eqn:E0 in Ev; [done|].
  destruct (Z.leb_spec (fr_width f * fr_height f) usize_max); [|done]. cbn in Ev.
  destruct (Z.leb_spec (fr_width f * fr_height f * 4) usize_max); [|done]. cbn in Ev.
  destruct (Z.eqb_spec (len (fr_data f)) (fr_width f * fr_height f * 4)) as [El|]; [|done].
  destruct (from_bgra_dimensions_spec (fr_width f) (fr_height f) Hw Hh) as [[He _]|[_ ->]];
    [done| |left; eauto].
  right. destruct He as (Pw & Ph & Ew & Eh).
  exists (Z.to_nat (fr_width f / 2)), (Z.to_nat (fr_height f / 2)).
  pose proof (Z_div_mod_eq_full (fr_width f) 2). pose proof (Z_div_mod_eq_full (fr_height f) 2).
  split; [done|lia|lia|lia|done|done|]. unfold len in El.
  apply Nat2Z.inj. rewrite El, !Nat2Z.inj_mul, !Z2Nat.id by lia. nia.
Qed.

(** Converting a captured frame to NV12 never panics; it fails on everything but a
    valid BGRA frame with even dimensions; otherwise it yields one luma byte for each
    pixel, the weighted sum of its colours, always between 16 and 235, and one chroma pair
    for each two-by-two block, the averages over the block, always between 16 and 240:
    the clamping never changes a value. *)
Theorem bgra_to_nv12_spec f :
  uint 32 (fr_width f) → uint 32 (fr_height f) →
  (∃ e, bgra_to_nv12 f = Some (Err e)) ∨
  ∃ (w2 h2 : nat) nv12, fr_width f = Z.of_nat (2 * w2) ∧ fr_height f = Z.of_nat (2 * h2) ∧
    CapturedFrame_validate f = Ok tt ∧ bgra_to_nv12 f = Some (Ok nv12) ∧
    length nv12 = (2 * h2 * (2 * w2) + h2 * w2 * 2)%nat ∧
    (∀ y x, (y < 2 * h2)%nat → (x < 2 * w2)%nat →
       ∃ b g r, pixel_at (fr_data f) (2 * w2) y x = Some (b, g, r) ∧
         index_at nv12 (y * (2 * w2) + x) = Some (luma_of b g r) ∧ 16 ≤ luma_of b g r ≤ 235) ∧
    (∀ i j, (i < h2)%nat → (j < w2)%nat →
       ∃ ps, block_pixels (fr_data f) (2 * w2) i j = Some ps ∧
         let at_block := (2 * h2 * (2 * w2) + i * (2 * w2) + 2 * j)%nat in
         index_at nv12 at_block = Some (Z.quot (sum_of u_of ps) 4) ∧
         index_at nv12 (at_block + 1) = Some (Z.quot (sum_of v_of ps) 4) ∧
         16 ≤ Z.quot (sum_of u_of ps) 4 ≤ 240 ∧ 16 ≤ Z.quot (sum_of v_of ps) 4 ≤ 240).
Proof.
  intros Hw Hh. destruct (bgra_to_nv12_errors f Hw Hh) as [?|(w2 & h2 & Hb)]; [by left|right].
  pose proof (bf_data _ _ _ Hb) as Hd. exists w2, h2, (nv12_planes (fr_data f) w2 h2).
  split_and!; [apply Hb|apply Hb|by eapply blocks_frame_layout|by apply bgra_to_nv12_planes|..].
  - unfold nv12_planes. by rewrite length_app, length_luma_plane, length_chroma_plane.
  - intros y x Hy Hx. destruct (pixel_at_total (fr_data f) (2 * w2) (2 * h2) y x)
      as (b & g & r & E & _); [done..|]. exists b, g, r. split; [done|]. by apply planes_luma.
  - intros i j Hi Hj. destruct (block_pixels_total (fr_data f) w2 h2 i j) as (ps & E & _); [done..|].
    exists ps. split; [done|]. by apply planes_chroma.
Qed.

Lemma bgra_to_nv12_spec_witness :
  let f := mkCapturedFrame 1 2 2 2 Pixel_Bgra8 (to_byte <$> [0; 0; 255; 255; 0; 0; 255; 255;
    0; 0; 255; 255; 0; 0; 255; 255]) in
  uint 32 (fr_width f) ∧ bgra_to_nv12 f = Some (Ok (to_byte <$> [82; 82; 82; 82; 90; 240])).
Proof.
  intros f. split; [by unfold uint|].
  destruct (bgra_to_nv12_spec f) as [(e & E)|(w2 & h2 & nv12 & _ & _ & _ & E & _)];
    [by unfold uint..|vm_compute in E; discriminate|].
  rewrite E. vm_compute in E. injection E as <-. reflexivity.
Defined.

(** ** Colours survive the conversion there and back *)

Lemma planes_validate f w2 h2 id ts kf :
  blocks_frame f w2 h2 → fr_width f ≤ MAX_SURFACE_WIDTH → fr_height f ≤ MAX_SURFACE_HEIGHT →
  DecodedSurface_validate (mkDecodedSurface id ts kf (fr_width f) (fr_height f) Nv12
    (nv12_planes (fr_data f) w2 h2)) = Ok tt.
Proof.
  intros [_ Hw Hh Hp _ _ Hd] Mw Mh.
  assert (length (nv12_planes (fr_data f) w2 h2) = 2 * h2 * (2 * w2) + h2 * w2 * 2)%nat as Hl
    by (unfold nv12_planes; by rewrite length_app, length_luma_plane, length_chroma_plane).
  unfold DecodedSurface_validate. cbn [ds_width ds_height ds_format ds_bytes].
  unfold MAX_SURFACE_WIDTH, MAX_SURFACE_HEIGHT in *.
  destruct (validated_pixel_count_spec (fr_width f) (fr_height f)) as [[_ ->]|[Hn _]]; [lia|lia| |].
  - cbn [mbind result_bind]. unfold len. rewrite Hl. replace (fr_width f * fr_height f) with (Z.of_nat (h2 * w2 * 2) * 2) in * by lia.
    rewrite Z.div_mul by lia. unfold checked_add, usize_max, u64_max, MAX_SURFACE_BYTES.
    rewrite (proj2 (Z.leb_le _ _)) by nia. cbn [ok_or mbind result_bind].
    rewrite (proj2 (Z.eqb_eq _ _)) by lia. rewrite (proj2 (Z.ltb_ge _ _)) by nia. done.
  - destruct Hn. unfold surface_dimensions, MAX_SURFACE_WIDTH, MAX_SURFACE_HEIGHT.
    rewrite Hw, Hh in *. rewrite !Nat2Z.inj_mul in *. change (Z.of_nat 2) with 2 in *.
    split_and!; [lia..|rewrite Z.mul_comm; by apply Z.mod_mul|rewrite Z.mul_comm; by apply Z.mod_mul].
Qed.

Lemma pixel_of_block bgra w y x b g r a :
  take 4 (drop (4 * (y * w + x)) bgra) = [b; g; r; a] →
  pixel_at bgra w y x = Some (of_byte b, of_byte g, of_byte r).
Proof.
  intros E. unfold pixel_at. rewrite (Nat.mul_comm _ 4).
  assert (∀ k z, (k < 4)%nat → index_at [b; g; r; a] k = Some z →
    index_at bgra (4 * (y * w + x) + k) = Some z) as Hk.
  { intros k z Hk Ez. apply (index_take_drop _ _ 4); [done|]. by rewrite E. }
  rewrite <-(Nat.add_0_r (4 * (y * w + x))) at 1.
  rewrite (Hk 0%nat (of_byte b)), (Hk 1%nat (of_byte g)), (Hk 2%nat (of_byte r)) by (done || lia).
  done.
Qed.

Lemma block_pixel data w y x p :
  block_pixels data w (y / 2) (x / 2) = Some [p; p; p; p] → pixel_at data w y x = Some p.
Proof.
  intros E. apply mapM_Some in E.
  assert (∀ dy dx, (dy, dx) ∈ [(0, 0); (0, 1); (1, 0); (1, 1)]%nat →
    pixel_at data w (2 * (y / 2) + dy) (2 * (x / 2) + dx) = Some p) as Hp.
  { intros dy dx Hin. apply list_elem_of_lookup in Hin as [k Hk].
    destruct (Forall2_lookup_l _ _ _ _ _ E Hk) as (q & Hq & Eq). cbn in Eq.
    assert (q = p) as -> by (do 4 (destruct k as [|k]; [by injection Hq as <-|]); done). exact Eq. }
  pose proof (Nat.div_mod_eq y 2). pose proof (Nat.div_mod_eq x 2).
  pose proof (Nat.mod_upper_bound y 2). pose proof (Nat.mod_upper_bound x 2).
  specialize (Hp (y mod 2)%nat (x mod 2)%nat). rewrite <-!Nat.div_mod_eq in Hp. apply Hp.
  destruct (y mod 2)%nat as [|[|]], (x mod 2)%nat as [|[|]]; try lia; set_solver.
Qed.

(** C28. Colours survive the two conversions: when the NV12 form of a captured frame
    reaches the client unchanged, every pixel of a block of one colour is shown with each
    of its three channels within 3 of what was captured. *)
Theorem colour_round_trip f nv12 id ts kf (y x : nat) b g r :
  uint 32 (fr_width f) → uint 32 (fr_height f) →
  fr_width f ≤ MAX_SURFACE_WIDTH → fr_height f ≤ MAX_SURFACE_HEIGHT →
  bgra_to_nv12 f = Some (Ok nv12) →
  Z.of_nat y < fr_height f → Z.of_nat x < fr_width f →
  block_pixels (fr_data f) (Z.to_nat (fr_width f)) (y / 2) (x / 2) =
    Some [(b, g, r); (b, g, r); (b, g, r); (b, g, r)] →
  ∃ bgra b' g' r',
    nv12_to_bgra (mkDecodedSurface id ts kf (fr_width f) (fr_height f) Nv12 nv12) = Some (Ok bgra) ∧
    pixel_at bgra (Z.to_nat (fr_width f)) y x = Some (b', g', r') ∧
    Z.abs (b' - b) ≤ 3 ∧ Z.abs (g' - g) ≤ 3 ∧ Z.abs (r' - r) ≤ 3.
Proof.
  intros Uw Uh Mw Mh En Hy Hx Eb.
  destruct (bgra_to_nv12_errors f Uw Uh) as [[e E]|(w2 & h2 & Hb)]; [congruence|].
  rewrite (bgra_to_nv12_planes _ _ _ Hb) in En. injection En as <-.
  pose proof (planes_validate f w2 h2 id ts kf Hb Mw Mh) as Hv.
  destruct (nv12_to_bgra_spec _ (proj1 Uw : 0 ≤ ds_width (mkDecodedSurface id ts kf (fr_width f)
    (fr_height f) Nv12 (nv12_planes (fr_data f) w2 h2))) (proj1 Uh) Hv eq_refl)
    as (bgra & -> & _ & Hpx). cbn [ds_width ds_height ds_bytes] in Hpx.
  specialize (Hpx x y Hx Hy). pose proof Hb as [_ Hw Hh Hp _ _ Hd].
  assert (y < 2 * h2 ∧ x < 2 * w2)%nat as [Hy2 Hx2] by lia.
  rewrite Hw, Nat2Z.id in Eb. rewrite Hw, Hh, !Nat2Z.id in Hpx. rewrite Hw, Nat2Z.id.
  pose proof (Nat.Div0.div_lt_upper_bound y 2 h2 ltac:(lia)) as Hi.
  pose proof (Nat.Div0.div_lt_upper_bound x 2 w2 ltac:(lia)) as Hj.
  assert (pixel_at (fr_data f) (2 * w2) y x = Some (b, g, r)) as Ep by (by eapply block_pixel).
  destruct (planes_luma _ _ _ _ _ _ _ _ Hd Hy2 Hx2 Ep) as [El Rl].
  destruct (planes_chroma _ _ _ _ _ _ Hd Hi Hj Eb) as (Eu & Ev & _).
  unfold nv12_pixel in Hpx. rewrite El in Hpx. cbn [mbind option_bind] in Hpx.
  rewrite Eu in Hpx. cbn [mbind option_bind] in Hpx. rewrite Ev in Hpx. cbn [mbind option_bind] in Hpx.
  injection Hpx as Hpx. apply pixel_of_block in Hpx. eexists _, _, _, _. split; [done|].
  split; [exact Hpx|].
  destruct (pixel_at_total (fr_data f) (2 * w2) (2 * h2) y x) as (b0 & g0 & r0 & E0 & Hcb & Hcg & Hcr);
    [done|lia|lia|]. rewrite Ep in E0. injection E0 as <- <- <-.
  assert (∀ k, 16 ≤ k → Z.quot (0 + k + k + k + k) 4 = k) as Hq.
  { intros k Hk. rewrite Z.quot_div_nonneg by lia. Z.to_euclidean_division_equations. lia. }
  pose proof (u_range b g r Hcb Hcg Hcr). pose proof (v_range b g r Hcb Hcg Hcr).
  unfold sum_of. cbn [foldl]. rewrite !Hq by lia. by apply decoded_colours_close.
Qed.

Lemma colour_round_trip_witness :
  let f := mkCapturedFrame 1 2 2 2 Pixel_Bgra8 (to_byte <$> [10; 200; 30; 255; 10; 200; 30; 255;
    10; 200; 30; 255; 10; 200; 30; 255]) in
  ∃ nv12 bgra b' g' r', bgra_to_nv12 f = Some (Ok nv12) ∧
    nv12_to_bgra (mkDecodedSurface 1 2 true 2 2 Nv12 nv12) = Some (Ok bgra) ∧
    pixel_at bgra 2 1 0 = Some (b', g', r') ∧
    Z.abs (b' - 10) ≤ 3 ∧ Z.abs (g' - 200) ≤ 3 ∧ Z.abs (r' - 30) ≤ 3.
Proof.
  intros f. destruct (bgra_to_nv12 f) as [[nv12|]|] eqn:E;
    [|vm_compute in E; discriminate|vm_compute in E; discriminate].
  exists nv12.
  destruct (colour_round_trip f nv12 1 2 true 1 0 10 200 30) as (bgra & b' & g' & r' & H);
    [by unfold uint|by unfold uint|vm_compute; congruence|vm_compute; congruence|exact E
    |reflexivity|reflexivity|reflexivity|].
  exists bgra, b', g', r'. split; [reflexivity|exact H].
Defined.
