(* ===== verification/WinCodec.v ===== *)
(** * The Windows H.264 encoder (platform/windows/src/codec.rs)

    The event accounting of asynchronous transforms, the encoder worker, its front end
    with the request deadline, and the encoder the streamer uses.  The Media Foundation
    transform and the video processor are parameters; the events a poll finds are an
    argument of the operation that polls.  [None] is a panic. *)

From S2P Require Import Prelude Protocol Capture Surface Nv12.

Open Scope Z_scope.

(** ** Event accounting *)

Definition MAX_ASYNC_INPUT_CREDITS : Z := 8.
Definition MAX_PENDING_OUTPUT_EVENTS : Z := 8.
Definition MFT_OUTPUT_NO_SAMPLE_STATUS : Z := 0x300.
Definition MFT_OUTPUT_INCOMPLETE_STATUS : Z := 0x1000000.

Inductive AsyncPumpEvent := Pump_NeedInput | Pump_HaveOutput | Pump_DrainComplete.
Record AsyncPump := mkAsyncPump {
  ap_input_credits : Z; ap_pending_output_events : Z; ap_drain_complete : bool
}.
Definition AsyncPump_new : AsyncPump := mkAsyncPump 0 0 false.

Definition bounded_increment (n limit : Z) : option Z :=
  c ← checked_add usize_max n 1; if c <=? limit then Some c else None.
Definition AsyncPump_observe (p : AsyncPump) (event : AsyncPumpEvent) :
    result CodecError unit * AsyncPump :=
  match event with
  | Pump_NeedInput =>
      match bounded_increment (ap_input_credits p) MAX_ASYNC_INPUT_CREDITS with
      | Some c => (Ok tt, mkAsyncPump c (ap_pending_output_events p) (ap_drain_complete p))
      | None => (Err Codec_BackendLost, p)
      end
  | Pump_HaveOutput =>
      match bounded_increment (ap_pending_output_events p) MAX_PENDING_OUTPUT_EVENTS with
      | Some c => (Ok tt, mkAsyncPump (ap_input_credits p) c (ap_drain_complete p))
      | None => (Err Codec_BackendLost, p)
      end
  | Pump_DrainComplete => (Ok tt, mkAsyncPump (ap_input_credits p) (ap_pending_output_events p) true)
  end.
Definition take_input_credit (p : AsyncPump) : bool * AsyncPump :=
  match checked_sub (ap_input_credits p) 1 with
  | Some c => (true, mkAsyncPump c (ap_pending_output_events p) (ap_drain_complete p))
  | None => (false, p)
  end.
Definition pump_take_output_event (p : AsyncPump) : bool * AsyncPump :=
  match checked_sub (ap_pending_output_events p) 1 with
  | Some c => (true, mkAsyncPump (ap_input_credits p) c (ap_drain_complete p))
  | None => (false, p)
  end.
Definition pump_take_drain_complete (p : AsyncPump) : bool * AsyncPump :=
  (ap_drain_complete p, mkAsyncPump (ap_input_credits p) (ap_pending_output_events p) false).

Record AsyncInputScheduler (T : Type) := mkAsyncInputScheduler {
  as_pump : AsyncPump; as_queued_inputs : list T
}.
Arguments mkAsyncInputScheduler {T} _ _.
Arguments as_pump {T} _.
Arguments as_queued_inputs {T} _.

Section scheduler.
Context {T : Type}.
Abbreviation scheduler := (AsyncInputScheduler T).
Definition AsyncInputScheduler_new : scheduler := mkAsyncInputScheduler AsyncPump_new [].
Definition scheduler_observe (s : scheduler) (event : AsyncPumpEvent) :
    result CodecError unit * scheduler :=
  let '(r, p) := AsyncPump_observe (as_pump s) event in
  (r, mkAsyncInputScheduler p (as_queued_inputs s)).
Definition scheduler_enqueue (s : scheduler) (input : T) : result CodecError unit * scheduler :=
  if len (as_queued_inputs s) =? MAX_ASYNC_INPUT_CREDITS then (Err Codec_BackendLost, s)
  else (Ok tt, mkAsyncInputScheduler (as_pump s) (as_queued_inputs s ++ [input])).
Definition take_ready_input (s : scheduler) : option T * scheduler :=
  match as_queued_inputs s with
  | [] => (None, s)
  | input :: queue =>
      match take_input_credit (as_pump s) with
      | (true, p) => (Some input, mkAsyncInputScheduler p queue)
      | (false, p) => (None, mkAsyncInputScheduler p (as_queued_inputs s))
      end
  end.
Definition scheduler_take_output_event (s : scheduler) : bool * scheduler :=
  let '(b, p) := pump_take_output_event (as_pump s) in
  (b, mkAsyncInputScheduler p (as_queued_inputs s)).
Definition scheduler_take_drain_complete (s : scheduler) : bool * scheduler :=
  let '(b, p) := pump_take_drain_complete (as_pump s) in
  (b, mkAsyncInputScheduler p (as_queued_inputs s)).
End scheduler.

(** ** Outputs of a transform *)

Record OutputBufferSpec := mkOutputBufferSpec { ob_capacity : Z; ob_alignment : option Z }.
Definition is_power_of_two (z : Z) : bool := (0 <? z) && (2 ^ Z.log2 z =? z).
Definition output_buffer_spec (cb_size cb_alignment : Z) : result CodecError OutputBufferSpec :=
  guard! cb_size =? 0 else Codec_BackendUnavailable ;;
  if cb_alignment =? 0 then Ok (mkOutputBufferSpec cb_size None) else
  if is_power_of_two cb_alignment
  then a ← ok_or (checked_sub cb_alignment 1) Codec_BackendUnavailable;
       Ok (mkOutputBufferSpec cb_size (Some a))
  else Err Codec_BackendUnavailable.

Definition no_sample (output_status : Z) : bool :=
  Z.land output_status MFT_OUTPUT_NO_SAMPLE_STATUS =? MFT_OUTPUT_NO_SAMPLE_STATUS.
Definition output_sample_is_usable (output_status : Z) (sample_len : option Z) : option Z :=
  if no_sample output_status then None else
  n ← sample_len; if n =? 0 then None else Some n.
Definition output_requires_retry (output_status : Z) : bool :=
  negb (Z.land output_status MFT_OUTPUT_INCOMPLETE_STATUS =? 0).

Definition response_requires_worker_shutdown {A} (response : result CodecError A) : bool :=
  match response with Ok _ => false | Err Codec_OutputPending => false | Err _ => true end.

(** The codes [classify_hresult] and the pollers tell apart. *)
Inductive Hresult :=
  | Hr_DeviceRemoved | Hr_DeviceReset | Hr_DeviceHung | Hr_FailedStartStreaming
  | Hr_NeedMoreInput | Hr_Other (code : Z).
Definition classify_hresult (code : Hresult) : CodecError :=
  match code with
  | Hr_DeviceRemoved | Hr_DeviceReset | Hr_DeviceHung | Hr_FailedStartStreaming => Codec_BackendLost
  | _ => Codec_BackendUnavailable
  end.

(** ** The encoder worker *)

Record PendingInput := mkPendingInput {
  pi_frame_id : Z; pi_timestamp_us : Z; pi_timestamp_hns : Z; pi_forced_keyframe : bool
}.
Record InputSample := mkInputSample { is_nv12 : bytes; is_time : Z; is_duration : Z }.
Record PendingSubmission := mkPendingSubmission { ps_sample : InputSample; ps_input : PendingInput }.
Record NativeOutput := mkNativeOutput { no_timestamp_hns : option Z; no_keyframe : bool; no_data : bytes }.

(** A sample of a transform: its time, its clean-point flag and its copied bytes. *)
Record OutputSample := mkOutputSample {
  os_time : option Z; os_clean_point : bool; os_data : result CodecError bytes
}.
Inductive ProcessOutput := Process_Ok (status : Z) (sample : option OutputSample) | Process_Err (h : Hresult).

(** What negotiating a configuration found: the first failed call before or after the
    transform is known to be asynchronous, the sequence header blob and its actual size,
    and whether the video processor could be made. *)
Record Negotiation := mkNegotiation {
  ng_attributes : option Hresult; ng_async : bool; ng_types : option Hresult;
  ng_header : option (bytes * Z); ng_processor : bool
}.

(** A transform with its video processor. *)
Class EncoderMft (T : Type) := {
  mft_negotiate : T → EncoderConfig → Negotiation * T;
  mft_make_sample : T → bytes → option CodecError;
  mft_stamp_sample : T → Z → Z → option Hresult;
  mft_force_keyframe : T → result Hresult T;
  mft_process_input : T → InputSample → result Hresult T;
  mft_output_info : T → result Hresult (bool * Z * Z);
  mft_output_buffer : T → OutputBufferSpec → option Hresult;
  mft_process_output : T → ProcessOutput * T;
  mft_end_stream : T → result Hresult T;
  mft_flush : T → result Hresult T;
  mft_video_process : T → CapturedFrame → result Hresult (option bytes * Z)
}.

(** What a poll finds, oldest first, up to the answer that there are no more events; an
    error is a failed call or a failed event. *)
Inductive EventType := Event_NeedInput | Event_HaveOutput | Event_DrainComplete | Event_Other.
Abbreviation Events := (list (result Hresult EventType)).

Inductive Nv12Converter := Converter_D3d11 (width height : Z) | Converter_Cpu.

Record NativeEncoder (T : Type) := mkNativeEncoder {
  ne_transform : option T;
  ne_event_generator : bool;
  ne_is_async : bool;
  ne_async_inputs : AsyncInputScheduler PendingSubmission;
  ne_config : option EncoderConfig;
  ne_converter : option Nv12Converter;
  ne_sequence_header : option bytes;
  ne_pending_inputs : list PendingInput;
  ne_pending_outputs : list EncodedFrame
}.
Arguments mkNativeEncoder {T} _ _ _ _ _ _ _ _ _.
Arguments ne_transform {T} _.
Arguments ne_event_generator {T} _.
Arguments ne_is_async {T} _.
Arguments ne_async_inputs {T} _.
Arguments ne_config {T} _.
Arguments ne_converter {T} _.
Arguments ne_sequence_header {T} _.
Arguments ne_pending_inputs {T} _.
Arguments ne_pending_outputs {T} _.

Definition MAX_PENDING_FRAMES : Z := 8.
Definition sample_time_hns (timestamp_us : Z) : result CodecError Z :=
  ok_or (value ← checked_mul u64_max timestamp_us 10;
         if value <? 2 ^ 63 then Some value else None) Codec_InvalidFrame.

(** [sequence_header_from_type], from the blob and the size reported with it. *)
Definition sequence_header_from_type (blob : option (bytes * Z)) : result CodecError bytes :=
  '(b, actual_size) ← ok_or blob Codec_BackendUnavailable;
  guard! len b =? 0 else Codec_BackendUnavailable ;;
  let sequence_header := take (Z.to_nat actual_size) b in
  guard! (len sequence_header =? 0) ||
      negb (existsb (λ w, bool_decide (w = [x00; x00; x01])) (windows 3 sequence_header))
    else Codec_BackendUnavailable ;;
  Ok sequence_header.

(** [position] by time, else the first. *)
Fixpoint take_input_at (hns : Z) (l : list PendingInput) : option (PendingInput * list PendingInput) :=
  match l with
  | [] => None
  | p :: l =>
      if pi_timestamp_hns p =? hns then Some (p, l)
      else '(q, l') ← take_input_at hns l; Some (q, p :: l')
  end.
Definition take_input (time : option Z) (l : list PendingInput) :
    option (PendingInput * list PendingInput) :=
  match time ≫= (λ hns, take_input_at hns l) with
  | Some r => Some r
  | None => match l with [] => None | p :: l => Some (p, l) end
  end.

Section encoder.
Context {T : Type} `{EncoderMft T}.
Abbreviation encoder := (NativeEncoder T).

Definition ne_set_transform (e : encoder) (t : T) : encoder :=
  mkNativeEncoder (Some t) (ne_event_generator e) (ne_is_async e) (ne_async_inputs e) (ne_config e)
    (ne_converter e) (ne_sequence_header e) (ne_pending_inputs e) (ne_pending_outputs e).
Definition ne_set_async (e : encoder) (s : AsyncInputScheduler PendingSubmission) : encoder :=
  mkNativeEncoder (ne_transform e) (ne_event_generator e) (ne_is_async e) s (ne_config e)
    (ne_converter e) (ne_sequence_header e) (ne_pending_inputs e) (ne_pending_outputs e).
Definition ne_set_pending (e : encoder) (inputs : list PendingInput) (outputs : list EncodedFrame) :
    encoder :=
  mkNativeEncoder (ne_transform e) (ne_event_generator e) (ne_is_async e) (ne_async_inputs e)
    (ne_config e) (ne_converter e) (ne_sequence_header e) inputs outputs.

(** [NativeEncoder::start] with a transform at hand. *)
Definition NativeEncoder_start (t : T) (event_generator : bool) : encoder :=
  mkNativeEncoder (Some t) event_generator false AsyncInputScheduler_new None None None [] [].

Definition NativeEncoder_configure (e : encoder) (config : EncoderConfig) :
    result CodecError unit * encoder :=
  if negb (is_even (ec_width config)) || negb (is_even (ec_height config))
  then (Err Codec_InvalidDimensions, e) else
  match ne_transform e with
  | None => (Err Codec_BackendLost, e)
  | Some t =>
      let '(n, t) := mft_negotiate t config in
      let e := ne_set_transform e t in
      match ng_attributes n with
      | Some h => (Err (classify_hresult h), e)
      | None =>
      if ng_async n && negb (ne_event_generator e) then (Err Codec_BackendUnavailable, e) else
      match ng_types n with
      | Some h => (Err (classify_hresult h), e)
      | None =>
      match sequence_header_from_type (ng_header n) with
      | Err err => (Err err, e)
      | Ok sequence_header =>
          let converter := if ng_processor n
            then Converter_D3d11 (ec_width config) (ec_height config) else Converter_Cpu in
          (Ok tt, mkNativeEncoder (ne_transform e) (ne_event_generator e) (ng_async n)
             AsyncInputScheduler_new (Some config) (Some converter) (Some sequence_header) [] [])
      end end end
  end.

(** [D3d11Nv12Converter::convert] *)
Definition d3d11_convert (t : T) (width height : Z) (frame : CapturedFrame) :
    option (result CodecError bytes) :=
  if negb (fr_width frame =? width) || negb (fr_height frame =? height)
  then Some (Err Codec_FrameDimensionsMismatch) else
  match fr_format frame, CapturedFrame_validate frame with
  | Pixel_Bgra8, Ok _ =>
      match from_bgra_dimensions width height with
      | Err e => Some (Err e)
      | Ok layout =>
          if negb (len (fr_data frame) =? nl_bgra_len layout) then Some (Err Codec_InvalidFrame) else
          if 2 ^ 32 <=? nl_bgra_stride layout then Some (Err Codec_InvalidFrame) else
          match mft_video_process t frame with
          | Err h => Some (Err (classify_hresult h))
          | Ok (memory, row_pitch) => copy_mapped_nv12 memory row_pitch width height
          end
      end
  | _, _ => Some (Err Codec_InvalidFrame)
  end.
Definition Nv12Converter_convert (t : T) (c : Nv12Converter) (frame : CapturedFrame) :
    option (result CodecError bytes) :=
  match c with
  | Converter_D3d11 width height => d3d11_convert t width height frame
  | Converter_Cpu => bgra_to_nv12 frame
  end.

Definition create_input_sample (t : T) (nv12 : bytes) (frame : CapturedFrame)
    (config : EncoderConfig) : option (result CodecError InputSample) :=
  match from_bgra_dimensions (ec_width config) (ec_height config) with
  | Err e => Some (Err e)
  | Ok layout =>
      if negb (len nv12 =? nl_output_len layout) then Some (Err Codec_InvalidFrame) else
      if 2 ^ 32 <=? len nv12 then Some (Err Codec_InvalidFrame) else
      match mft_make_sample t nv12 with
      | Some e => Some (Err e)
      | None =>
      match sample_time_hns (fr_timestamp_us frame) with
      | Err e => Some (Err e)
      | Ok time =>
          if ec_max_fps config =? 0 then None else
          let duration := Z.quot 10000000 (ec_max_fps config) in
          match mft_stamp_sample t time duration with
          | Some h => Some (Err (classify_hresult h))
          | None => Some (Ok (mkInputSample nv12 time duration))
          end
      end end
  end.

Definition queue_input (e : encoder) (input : PendingInput) : result CodecError unit * encoder :=
  if len (ne_pending_inputs e) =? MAX_PENDING_FRAMES then (Err Codec_BackendLost, e)
  else (Ok tt, ne_set_pending e (ne_pending_inputs e ++ [input]) (ne_pending_outputs e)).

Definition queue_output (e : encoder) (output : NativeOutput) : result CodecError unit * encoder :=
  match take_input (no_timestamp_hns output) (ne_pending_inputs e) with
  | None => (Err Codec_BackendLost, e)
  | Some (input, inputs) =>
      let e := ne_set_pending e inputs (ne_pending_outputs e) in
      if pi_forced_keyframe input && negb (no_keyframe output)
      then (Err Codec_BackendUnavailable, e) else
      if len (ne_pending_outputs e) =? MAX_PENDING_FRAMES then (Err Codec_BackendLost, e) else
      (Ok tt, ne_set_pending e inputs (ne_pending_outputs e ++
        [mkEncodedFrame (pi_frame_id input) (pi_timestamp_us input) (no_keyframe output)
           (no_data output)]))
  end.

(** [take_output]: a poll of the transform, and whether there is more. *)
Definition take_output (e : encoder) : result CodecError (option NativeOutput * bool) * encoder :=
  match ne_transform e with
  | None => (Err Codec_BackendLost, e)
  | Some t =>
  match mft_output_info t with
  | Err h => (Err (classify_hresult h), e)
  | Ok (provides_sample, cb_size, cb_alignment) =>
  match (if provides_sample then Ok tt else
    spec ← output_buffer_spec cb_size cb_alignment;
    match mft_output_buffer t spec with Some h => Err (classify_hresult h) | None => Ok tt end)
  with
  | Err err => (Err err, e)
  | Ok _ =>
      let '(answer, t) := mft_process_output t in
      (match answer with
       | Process_Ok status sample =>
           let more_output := output_requires_retry status in
           if no_sample status then Ok (None, more_output) else
           match sample with
           | None => Ok (None, more_output)
           | Some sample =>
               data ← os_data sample;
               match output_sample_is_usable status (Some (len data)) with
               | None => Ok (None, more_output)
               | Some _ =>
                   header ← ok_or (ne_sequence_header e) Codec_BackendUnavailable;
                   data ← h264_access_unit header data (os_clean_point sample);
                   Ok (Some (mkNativeOutput (os_time sample) (os_clean_point sample) data),
                       more_output)
               end
           end
       | Process_Err Hr_NeedMoreInput => Ok (None, false)
       | Process_Err h => Err (classify_hresult h)
       end, ne_set_transform e t)
  end end end.

Fixpoint collect_output_polls (n : nat) (e : encoder) (outputs : list NativeOutput) :
    result CodecError (list NativeOutput) * encoder :=
  match n with
  | O => (Err Codec_BackendLost, e)
  | S n =>
      match take_output e with
      | (Err err, e) => (Err err, e)
      | (Ok (output, more_output), e) =>
          let outputs := outputs ++ option_list output in
          if more_output : bool then collect_output_polls n e outputs else (Ok outputs, e)
      end
  end.

Fixpoint queue_outputs (e : encoder) (outputs : list NativeOutput) : result CodecError unit * encoder :=
  match outputs with
  | [] => (Ok tt, e)
  | output :: outputs =>
      match queue_output e output with
      | (Err err, e) => (Err err, e)
      | (Ok _, e) => queue_outputs e outputs
      end
  end.
Definition collect_synchronous_output (e : encoder) : result CodecError unit * encoder :=
  match collect_output_polls (Z.to_nat MAX_PENDING_OUTPUT_EVENTS) e [] with
  | (Err err, e) => (Err err, e)
  | (Ok outputs, e) => queue_outputs e outputs
  end.

Definition collect_async_output (e : encoder) : result CodecError unit * encoder :=
  let '(taken, s) := scheduler_take_output_event (ne_async_inputs e) in
  let e := ne_set_async e s in
  if negb taken then (Err Codec_BackendLost, e) else collect_synchronous_output e.

Definition observe_event (e : encoder) (event : AsyncPumpEvent) : result CodecError unit * encoder :=
  let '(r, s) := scheduler_observe (ne_async_inputs e) event in (r, ne_set_async e s).

Fixpoint poll_events (e : encoder) (events : Events) : result CodecError unit * encoder :=
  match events with
  | [] => (Ok tt, e)
  | Err h :: _ => (Err (classify_hresult h), e)
  | Ok event :: events =>
      match
        match event with
        | Event_NeedInput => observe_event e Pump_NeedInput
        | Event_HaveOutput =>
            match observe_event e Pump_HaveOutput with
            | (Err err, e) => (Err err, e)
            | (Ok _, e) => collect_async_output e
            end
        | Event_DrainComplete => observe_event e Pump_DrainComplete
        | Event_Other => (Ok tt, e)
        end
      with
      | (Err err, e) => (Err err, e)
      | (Ok _, e) => poll_events e events
      end
  end.
Definition poll_async_events (e : encoder) (events : Events) : result CodecError unit * encoder :=
  if negb (ne_event_generator e) then (Err Codec_BackendUnavailable, e) else poll_events e events.

(** The loop takes at most as many inputs as are queued. *)
Fixpoint submit_inputs (n : nat) (e : encoder) : result CodecError unit * encoder :=
  match n with
  | O => (Ok tt, e)
  | S n =>
      let '(ready, s) := take_ready_input (ne_async_inputs e) in
      let e := ne_set_async e s in
      match ready with
      | None => (Ok tt, e)
      | Some submission =>
      match ne_transform e with
      | None => (Err Codec_BackendLost, e)
      | Some t =>
      match (if pi_forced_keyframe (ps_input submission) then mft_force_keyframe t else Ok t) with
      | Err h => (Err (classify_hresult h), e)
      | Ok t =>
      match mft_process_input t (ps_sample submission) with
      | Err h => (Err (classify_hresult h), ne_set_transform e t)
      | Ok t =>
          match queue_input (ne_set_transform e t) (ps_input submission) with
          | (Err err, e) => (Err err, e)
          | (Ok _, e) => submit_inputs n e
          end
      end end end end
  end.
Definition submit_credited_inputs (e : encoder) : result CodecError unit * encoder :=
  match ne_transform e with
  | None => (Err Codec_BackendLost, e)
  | Some _ => submit_inputs (S (length (as_queued_inputs (ne_async_inputs e)))) e
  end.

Definition pump_async (e : encoder) (before after : Events) : result CodecError unit * encoder :=
  match poll_async_events e before with
  | (Err err, e) => (Err err, e)
  | (Ok _, e) =>
      match submit_credited_inputs e with
      | (Err err, e) => (Err err, e)
      | (Ok _, e) => poll_async_events e after
      end
  end.
Definition NativeEncoder_pump (e : encoder) (before after : Events) : result CodecError unit * encoder :=
  if ne_is_async e then
    match ne_config e with
    | None => (Err Codec_NotConfigured, e)
    | Some _ => pump_async e before after
    end
  else (Ok tt, e).

Definition take_pending_output (e : encoder) : result CodecError EncodedFrame * encoder :=
  match ne_pending_outputs e with
  | [] => (Err Codec_OutputPending, e)
  | o :: outputs => (Ok o, ne_set_pending e (ne_pending_inputs e) outputs)
  end.

(** A prepared frame given to the transform. *)
Definition submit_frame (e : encoder) (sample : InputSample) (input : PendingInput)
    (before after : Events) : result CodecError unit * encoder :=
  if ne_is_async e then
    match scheduler_enqueue (ne_async_inputs e) (mkPendingSubmission sample input) with
    | (Err err, s) => (Err err, ne_set_async e s)
    | (Ok _, s) => pump_async (ne_set_async e s) before after
    end
  else
    match ne_transform e with
    | None => (Err Codec_BackendLost, e)
    | Some t =>
    match (if pi_forced_keyframe input then mft_force_keyframe t else Ok t) with
    | Err h => (Err (classify_hresult h), e)
    | Ok t =>
    match mft_process_input t sample with
    | Err h => (Err (classify_hresult h), ne_set_transform e t)
    | Ok t =>
        match queue_input (ne_set_transform e t) input with
        | (Err err, e) => (Err err, e)
        | (Ok _, e) => collect_synchronous_output e
        end
    end end end.

Definition NativeEncoder_encode (e : encoder) (frame : CapturedFrame) (force_keyframe : bool)
    (before after : Events) : option (result CodecError EncodedFrame * encoder) :=
  match ne_config e, ne_converter e, ne_transform e with
  | None, _, _ | _, None, _ => Some (Err Codec_NotConfigured, e)
  | _, _, None => Some (Err Codec_BackendLost, e)
  | Some config, Some converter, Some t =>
      nv12 ← Nv12Converter_convert t converter frame;
      match nv12 with
      | Err err => Some (Err err, e)
      | Ok nv12 =>
          sample ← create_input_sample t nv12 frame config;
          match sample with
          | Err err => Some (Err err, e)
          | Ok sample =>
          match sample_time_hns (fr_timestamp_us frame) with
          | Err err => Some (Err err, e)
          | Ok hns =>
              let input := mkPendingInput (fr_frame_id frame) (fr_timestamp_us frame) hns
                force_keyframe in
              match submit_frame e sample input before after with
              | (Err err, e) => Some (Err err, e)
              | (Ok _, e) => Some (take_pending_output e)
              end
          end end
      end
  end.

(** The wait after a drain: what each poll finds, and whether the deadline has passed
    after it; [None]: still waiting at the end of the list. *)
Fixpoint wait_for_drain_complete (e : encoder) (polls : list (Events * bool)) :
    option (result CodecError unit * encoder) :=
  match polls with
  | [] => None
  | (events, expired) :: polls =>
      match poll_async_events e events with
      | (Err err, e) => Some (Err err, e)
      | (Ok _, e) =>
          let '(complete, s) := scheduler_take_drain_complete (ne_async_inputs e) in
          let e := ne_set_async e s in
          if complete then Some (Ok tt, e) else
          if expired : bool then Some (Err Codec_BackendLost, e)
          else wait_for_drain_complete e polls
      end
  end.

(** Everything a drain forgets, whatever its outcome. *)
Definition ne_cleared (e : encoder) : encoder :=
  mkNativeEncoder (ne_transform e) (ne_event_generator e) false AsyncInputScheduler_new None None
    None [] [].

Definition drain_messages (e : encoder) (polls : list (Events * bool)) :
    option (result CodecError unit * encoder) :=
  match ne_transform e with
  | None => Some (Err Codec_BackendLost, e)
  | Some t =>
  match mft_end_stream t with
  | Err h => Some (Err (classify_hresult h), e)
  | Ok t =>
      let e := ne_set_transform e t in
      '(r, e) ← if ne_is_async e then wait_for_drain_complete e polls
                else Some (collect_synchronous_output e);
      match r with
      | Err err => Some (Err err, e)
      | Ok _ =>
          match ne_transform e with
          | None => Some (Err Codec_BackendLost, e)
          | Some t =>
              match mft_flush t with
              | Err h => Some (Err (classify_hresult h), e)
              | Ok t => Some (Ok tt, ne_set_transform e t)
              end
          end
      end
  end end.
Definition NativeEncoder_drain (e : encoder) (polls : list (Events * bool)) :
    option (result CodecError unit * encoder) :=
  match ne_config e, ne_transform e with
  | None, _ => Some (Ok tt, e)
  | Some _, None => Some (Err Codec_BackendLost, e)
  | Some _, Some _ => '(r, e) ← drain_messages e polls; Some (r, ne_cleared e)
  end.

Definition NativeEncoder_shutdown (e : encoder) (polls : list (Events * bool)) : option encoder :=
  '(_, e) ← NativeEncoder_drain e polls;
  Some (mkNativeEncoder None false (ne_is_async e) (ne_async_inputs e) None None None [] []).

(** ** The front end of the worker *)

(** What surrounds a request: the events the idle worker polled before it, whether the
    response comes before the deadline, and what the request's own polls find. *)
Record RequestEnv := mkRequestEnv {
  re_idle : list (Events * Events);
  re_answered : bool;
  re_before : Events;
  re_after : Events;
  re_drain : list (Events * bool)
}.
Definition quiet_env : RequestEnv := mkRequestEnv [] true [] [] [([], true)].

(** [mt_commands]: the sender is there; [mt_alive]: the worker still receives. *)
Record MediaFoundationTransform := mkMediaFoundationTransform {
  mt_commands : bool;
  mt_alive : bool;
  mt_worker : encoder;
  mt_schedule : list RequestEnv
}.
Definition mt_with (m : MediaFoundationTransform) (commands alive : bool) (worker : encoder) :
    MediaFoundationTransform :=
  mkMediaFoundationTransform commands alive worker (tail (mt_schedule m)).

(** The worker between commands: a failed pump ends it. *)
Fixpoint idle_pumps (e : encoder) (idle : list (Events * Events)) : bool * encoder :=
  match idle with
  | [] => (true, e)
  | (before, after) :: idle =>
      match NativeEncoder_pump e before after with
      | (Err _, e) => (false, e)
      | (Ok _, e) => idle_pumps e idle
      end
  end.

Definition mt_request {A} (m : MediaFoundationTransform)
    (command : RequestEnv → encoder → option (result CodecError A * encoder)) :
    option (result CodecError A * MediaFoundationTransform) :=
  if negb (mt_commands m) then Some (Err Codec_BackendLost, m) else
  let env := default quiet_env (head (mt_schedule m)) in
  let '(alive, worker) :=
    if mt_alive m then idle_pumps (mt_worker m) (re_idle env) else (false, mt_worker m) in
  if negb alive then Some (Err Codec_BackendLost, mt_with m false false worker) else
  '(r, worker) ← command env worker;
  if negb (re_answered env) then Some (Err Codec_BackendLost, mt_with m false true worker) else
  Some (r, mt_with m (negb (response_requires_worker_shutdown r)) true worker).

(** The private trait [EncoderTransform], and the worker behind it. *)
Class EncoderTransform (X : Type) := {
  transform_configure : X → EncoderConfig → option (result CodecError unit * X);
  transform_encode : X → CapturedFrame → bool → option (result CodecError EncodedFrame * X);
  transform_drain : X → option (result CodecError unit * X)
}.
#[global] Instance media_foundation_transform : EncoderTransform MediaFoundationTransform := {|
  transform_configure m config := mt_request m (λ _ e, Some (NativeEncoder_configure e config));
  transform_encode m frame force :=
    mt_request m (λ env e, NativeEncoder_encode e frame force (re_before env) (re_after env));
  transform_drain m := mt_request m (λ env e, NativeEncoder_drain e (re_drain env))
|}.
End encoder.
Arguments MediaFoundationTransform T : clear implicits.

(** ** The encoder of the streamer *)

Record WindowsH264Encoder (X : Type) := mkWindowsH264Encoder {
  we_config : option EncoderConfig;
  we_transform : X;
  we_force_next_keyframe : bool
}.
Arguments mkWindowsH264Encoder {X} _ _ _.
Arguments we_config {X} _.
Arguments we_transform {X} _.
Arguments we_force_next_keyframe {X} _.

Section windows_encoder.
Context {X : Type} `{EncoderTransform X}.
Abbreviation encoder := (WindowsH264Encoder X).

Definition WindowsH264Encoder_new (x : X) : encoder := mkWindowsH264Encoder None x false.

Definition windows_configure (e : encoder) (config : EncoderConfig) :
    option (result CodecError unit * encoder) :=
  match EncoderConfig_validate config with
  | Err err => Some (Err err, e)
  | Ok validated =>
      '(r, x) ← transform_configure (we_transform e) validated;
      Some match r with
      | Err err => (Err err, mkWindowsH264Encoder (we_config e) x (we_force_next_keyframe e))
      | Ok _ => (Ok tt, mkWindowsH264Encoder (Some validated) x true)
      end
  end.

Definition windows_encode (e : encoder) (frame : CapturedFrame) :
    option (result CodecError EncodedFrame * encoder) :=
  match we_config e with
  | None => Some (Err Codec_NotConfigured, e)
  | Some config =>
      if negb (fr_width frame =? ec_width config) || negb (fr_height frame =? ec_height config)
      then Some (Err Codec_FrameDimensionsMismatch, e) else
      match fr_format frame, CapturedFrame_validate frame with
      | Pixel_Bgra8, Ok _ =>
          '(r, x) ← transform_encode (we_transform e) frame (we_force_next_keyframe e);
          Some (r, mkWindowsH264Encoder (we_config e) x
            match r with
            | Ok _ | Err Codec_OutputPending => false
            | Err _ => we_force_next_keyframe e
            end)
      | _, _ => Some (Err Codec_InvalidFrame, e)
      end
  end.

Definition windows_request_keyframe (e : encoder) : result CodecError unit * encoder :=
  (Ok tt, mkWindowsH264Encoder (we_config e) (we_transform e) true).

Definition windows_reconfigure (e : encoder) (config : EncoderConfig) :
    option (result CodecError unit * encoder) :=
  match EncoderConfig_validate config with
  | Err err => Some (Err err, e)
  | Ok validated =>
      match we_config e with
      | None => windows_configure e validated
      | Some previous =>
          let force_next_keyframe := we_force_next_keyframe e
            || negb (ec_width previous =? ec_width validated)
            || negb (ec_height previous =? ec_height validated) in
          '(r, x) ← transform_drain (we_transform e);
          match r with
          | Err err => Some (Err err, mkWindowsH264Encoder None x (we_force_next_keyframe e))
          | Ok _ =>
              '(r, x) ← transform_configure x validated;
              Some match r with
              | Err err => (Err err, mkWindowsH264Encoder None x (we_force_next_keyframe e))
              | Ok _ => (Ok tt, mkWindowsH264Encoder (Some validated) x force_next_keyframe)
              end
          end
      end
  end.
End windows_encoder.

(** ** Credits *)

Inductive SchedulerOp (A : Type) := Sched_Observe (e : AsyncPumpEvent) | Sched_Enqueue (a : A) | Sched_Take.
Arguments Sched_Observe {A} _.
Arguments Sched_Enqueue {A} _.
Arguments Sched_Take {A}.

(** A run with what was accepted, what was handed out, and the requests for input. *)
Record SchedulerTrace (A : Type) := mkSchedulerTrace {
  st_scheduler : AsyncInputScheduler A; st_enqueued : list A; st_taken : list A; st_requests : Z
}.
Arguments mkSchedulerTrace {A} _ _ _ _.
Arguments st_scheduler {A} _.
Arguments st_enqueued {A} _.
Arguments st_taken {A} _.
Arguments st_requests {A} _.

Definition scheduler_op {A} (t : SchedulerTrace A) (op : SchedulerOp A) : SchedulerTrace A :=
  match op with
  | Sched_Observe ev =>
      let '(r, s) := scheduler_observe (st_scheduler t) ev in
      mkSchedulerTrace s (st_enqueued t) (st_taken t)
        match r, ev with Ok _, Pump_NeedInput => st_requests t + 1 | _, _ => st_requests t end
  | Sched_Enqueue a =>
      let '(r, s) := scheduler_enqueue (st_scheduler t) a in
      mkSchedulerTrace s (match r with Ok _ => st_enqueued t ++ [a] | Err _ => st_enqueued t end)
        (st_taken t) (st_requests t)
  | Sched_Take =>
      let '(r, s) := take_ready_input (st_scheduler t) in
      mkSchedulerTrace s (st_enqueued t) (st_taken t ++ option_list r) (st_requests t)
  end.
Definition scheduler_run {A} (ops : list (SchedulerOp A)) : SchedulerTrace A :=
  foldl scheduler_op (mkSchedulerTrace AsyncInputScheduler_new [] [] 0) ops.

Record scheduler_inv {A} (t : SchedulerTrace A) : Prop := {
  sc_order : st_enqueued t = st_taken t ++ as_queued_inputs (st_scheduler t);
  sc_credits : st_requests t =
    len (st_taken t) + ap_input_credits (as_pump (st_scheduler t));
  sc_credit_bound : 0 ≤ ap_input_credits (as_pump (st_scheduler t)) ≤ MAX_ASYNC_INPUT_CREDITS;
  sc_queue_bound : len (as_queued_inputs (st_scheduler t)) ≤ MAX_ASYNC_INPUT_CREDITS
}.

Lemma bounded_increment_Some n limit c :
  bounded_increment n limit = Some c → c = n + 1 ∧ c ≤ limit.
Proof.
  unfold bounded_increment, checked_add. destruct (_ <=? _); [|done]. cbn.
  destruct (Z.leb_spec (n + 1) limit); [|done]. by intros [= <-].
Qed.

Lemma scheduler_op_inv {A} (t : SchedulerTrace A) op :
  scheduler_inv t → scheduler_inv (scheduler_op t op).
Proof.
  destruct t as [[[c o d] q] en ta rq]. intros [Ho Hc Hb Hq]. cbn in *. destruct op as [ev|a|]; cbn.
  - destruct ev; unfold scheduler_observe, AsyncPump_observe; cbn.
    + destruct (bounded_increment c MAX_ASYNC_INPUT_CREDITS) as [c'|] eqn:E; [|by split].
      apply bounded_increment_Some in E as [-> ?]. split; cbn; [done|lia|lia|done].
    + destruct (bounded_increment o MAX_PENDING_OUTPUT_EVENTS); by split.
    + by split.
  - unfold scheduler_enqueue. cbn. destruct (Z.eqb_spec (len q) MAX_ASYNC_INPUT_CREDITS); [by split|].
    split; cbn; [by rewrite Ho, app_assoc|done|done|]. rewrite len_app, len_cons, len_nil. lia.
  - unfold take_ready_input. cbn. destruct q as [|a q]; cbn.
    + rewrite app_nil_r. by split.
    + unfold take_input_credit, checked_sub. cbn.
      destruct (Z.leb_spec 1 c); cbn; [|rewrite app_nil_r; by split].
      rewrite len_cons in Hq. split; cbn.
      * by rewrite Ho, <-app_assoc.
      * rewrite len_app, len_cons, len_nil. lia.
      * lia.
      * lia.
Qed.

(** Input credits of an asynchronous transform, for every order of events,
    submissions and attempts to hand out an input: inputs are handed out in the order they
    were accepted, each once; never more of them than the transform asked for; the unused
    requests are exactly the credits, so none is forgotten; at most eight inputs and
    credits are held; and an attempt fails only when there is no input or no credit. *)
Theorem scheduler_credits {A} (ops : list (SchedulerOp A)) :
  let t := scheduler_run ops in
  let s := st_scheduler t in
  st_enqueued t = st_taken t ++ as_queued_inputs s ∧
  st_requests t = len (st_taken t) + ap_input_credits (as_pump s) ∧
  len (st_taken t) ≤ st_requests t ∧
  len (as_queued_inputs s) ≤ MAX_ASYNC_INPUT_CREDITS ∧
  ap_input_credits (as_pump s) ≤ MAX_ASYNC_INPUT_CREDITS ∧
  (fst (take_ready_input s) = None ↔ as_queued_inputs s = [] ∨ ap_input_credits (as_pump s) = 0).
Proof.
  intros t s. assert (scheduler_inv t) as [Ho Hc Hb Hq].
  { unfold t, scheduler_run. assert (scheduler_inv (@mkSchedulerTrace A AsyncInputScheduler_new [] [] 0)) as H0
      by (split; cbn; unfold MAX_ASYNC_INPUT_CREDITS; by try lia).
    revert H0. generalize (@mkSchedulerTrace A AsyncInputScheduler_new [] [] 0).
    induction ops as [|op ops IH]; intros t0 H0; [done|]. cbn. by apply IH, scheduler_op_inv. }
  fold s in Ho, Hc, Hb, Hq. split_and!; [done|done|lia|done|lia|].
  unfold take_ready_input. destruct (as_queued_inputs s) as [|a q]; [cbn; tauto|].
  unfold take_input_credit, checked_sub. destruct (Z.leb_spec 1 (ap_input_credits (as_pump s))); cbn.
  - split; [done|]. intros [?|?]; [done|lia].
  - split; [|done]. intros _. right. lia.
Qed.

(** ** Frames of the worker are accounted for *)

Definition in_flight {T} (e : NativeEncoder T) : list PendingInput :=
  (ps_input <$> as_queued_inputs (ne_async_inputs e)) ++ ne_pending_inputs e.

(** An encoded frame is that of an input: a keyframe if one was forced, and a keyframe
    starts with the negotiated sequence header. *)
Definition coded (header : option bytes) (i : PendingInput) (o : EncodedFrame) : Prop :=
  enc_frame_id o = pi_frame_id i ∧ enc_timestamp_us o = pi_timestamp_us i ∧
  (pi_forced_keyframe i = true → enc_keyframe o = true) ∧
  (enc_keyframe o = true → ∃ h unit, header = Some h ∧ enc_data o = h ++ unit ∧ unit ≠ []).

(** What an operation does with the frames: it may take up [extra], encode some inputs and
    lose some, and nothing else. *)
Definition flows {T} (extra : list PendingInput) (e e' : NativeEncoder T) : Prop :=
  ne_sequence_header e' = ne_sequence_header e ∧ ne_config e' = ne_config e ∧
  ne_converter e' = ne_converter e ∧ is_Some (ne_transform e') ∧
  ∃ matched new, ne_pending_outputs e' = ne_pending_outputs e ++ new ∧
    Forall2 (coded (ne_sequence_header e)) matched new ∧
    matched ++ in_flight e' ⊆+ extra ++ in_flight e.

Record queues_bounded {T} (e : NativeEncoder T) : Prop := {
  qb_inputs : len (ne_pending_inputs e) ≤ MAX_PENDING_FRAMES;
  qb_outputs : len (ne_pending_outputs e) ≤ MAX_PENDING_FRAMES;
  qb_queue : len (as_queued_inputs (ne_async_inputs e)) ≤ MAX_ASYNC_INPUT_CREDITS
}.

Section accounting.
Context {T : Type} `{EncoderMft T}.
Abbreviation encoder := (NativeEncoder T).

Lemma flows_refl (e : encoder) : is_Some (ne_transform e) → flows [] e e.
Proof. intros. split_and!; [done..|]. exists [], []. by rewrite app_nil_r. Qed.

Lemma flows_trans extra extra' (e e1 e2 : encoder) :
  flows extra e e1 → flows extra' e1 e2 → flows (extra' ++ extra) e e2.
Proof.
  intros (Eh & Ec & Ev & _ & m1 & n1 & O1 & F1 & S1) (Eh' & Ec' & Ev' & Ht & m2 & n2 & O2 & F2 & S2).
  rewrite Eh in Eh', F2. split_and!; [congruence..|done|]. exists (m1 ++ m2), (n1 ++ n2).
  split_and!; [by rewrite O2, O1, app_assoc|by apply Forall2_app|].
  rewrite <-!app_assoc. etransitivity; [apply submseteq_skips_l, S2|].
  rewrite (app_assoc m1), (Permutation_app_comm m1), <-app_assoc. by apply submseteq_skips_l.
Qed.

Lemma flows_after extra (e e1 e2 : encoder) : flows extra e e1 → flows [] e1 e2 → flows extra e e2.
Proof. intros H1 H2. exact (flows_trans _ _ _ _ _ H1 H2). Qed.
Lemma flows_before extra (e e1 e2 : encoder) : flows [] e e1 → flows extra e1 e2 → flows extra e e2.
Proof. intros H1 H2. pose proof (flows_trans _ _ _ _ _ H1 H2) as H3. by rewrite app_nil_r in H3. Qed.

(** The result of an operation that keeps the account and the bounds. *)
Definition keeps_frames {A} (extra : list PendingInput) (e : encoder)
    (r : result CodecError A * encoder) : Prop :=
  flows extra e (snd r) ∧ queues_bounded (snd r).

Lemma set_transform_keeps {A} (e : encoder) t (r : result CodecError A) :
  queues_bounded e → keeps_frames [] e (r, ne_set_transform e t).
Proof.
  intros Hq. split; [|by destruct Hq]. split_and!; [done..|]. exists [], []. by rewrite app_nil_r.
Qed.
Lemma set_async_keeps {A} (e : encoder) s (r : result CodecError A) :
  is_Some (ne_transform e) → queues_bounded e →
  as_queued_inputs s = as_queued_inputs (ne_async_inputs e) → keeps_frames [] e (r, ne_set_async e s).
Proof.
  intros Ht [? ? Hq] Es. split; [|split; cbn; [done..|by rewrite Es]].
  split_and!; [done..|]. exists [], []. unfold in_flight. cbn. rewrite app_nil_r, Es. done.
Qed.
Lemma same_keeps {A} (e : encoder) (r : result CodecError A) :
  is_Some (ne_transform e) → queues_bounded e → keeps_frames [] e (r, e).
Proof. intros. split; [by apply flows_refl|done]. Qed.

Lemma keeps_then {A B} extra extra' (e e1 : encoder) (r : result CodecError A)
    (r2 : result CodecError B * encoder) :
  keeps_frames extra e (r, e1) → keeps_frames extra' e1 r2 → keeps_frames (extra' ++ extra) e r2.
Proof. intros [H1 _] [H2 Hq]. split; [|done]. by eapply flows_trans. Qed.

Lemma take_input_at_spec hns l i l' : take_input_at hns l = Some (i, l') → l ≡ₚ i :: l'.
Proof.
  revert l'. induction l as [|p l IH]; intros l'; cbn; [done|].
  destruct (_ =? _); [by intros [= <- <-]|].
  destruct (take_input_at hns l) as [[q l1]|]; [|done]. cbn. intros [= <- <-].
  rewrite (IH _ eq_refl). apply perm_swap.
Qed.
Lemma take_input_spec time l i l' : take_input time l = Some (i, l') → l ≡ₚ i :: l'.
Proof.
  unfold take_input. destruct time as [hns|]; cbn.
  - destruct (take_input_at hns l) as [[q l1]|] eqn:E; [intros [= <- <-]; by eapply take_input_at_spec|].
    destruct l; [done|]. by intros [= <- <-].
  - destruct l; [done|]. by intros [= <- <-].
Qed.

(** An output as [take_output] makes them. *)
Definition output_headed (header : option bytes) (o : NativeOutput) : Prop :=
  no_keyframe o = true → ∃ h unit, header = Some h ∧ no_data o = h ++ unit ∧ unit ≠ [].

Lemma h264_access_unit_ok header unit keyframe data :
  h264_access_unit header unit keyframe = Ok data → keyframe = true →
  data = header ++ unit ∧ unit ≠ [].
Proof.
  unfold h264_access_unit. destruct (Z.eqb_spec (len unit) 0); [done|]. cbn. intros Hd ->.
  cbn in Hd. destruct (len header =? 0); [done|]. cbn in Hd. destruct (checked_add _ _ _); [|done].
  cbn in Hd. injection Hd as <-. split; [done|]. by intros ->.
Qed.

Lemma queue_input_keeps e input :
  is_Some (ne_transform e) → queues_bounded e → keeps_frames [input] e (queue_input e input).
Proof.
  intros Ht Hq. unfold queue_input. destruct (Z.eqb_spec (len (ne_pending_inputs e)) MAX_PENDING_FRAMES).
  - split; [|done]. split_and!; [done..|]. exists [], []. cbn. split_and!; [by rewrite app_nil_r|done|].
    by apply submseteq_cons.
  - destruct Hq. split; [|split; cbn; [rewrite len_app, len_cons, len_nil; lia|done..]].
    split_and!; [done..|]. exists [], []. cbn. split_and!; [by rewrite app_nil_r|done|].
    unfold in_flight. cbn. rewrite app_assoc. by rewrite Permutation_app_comm.
Qed.

Lemma queue_output_keeps e output :
  is_Some (ne_transform e) → queues_bounded e → output_headed (ne_sequence_header e) output →
  keeps_frames [] e (queue_output e output).
Proof.
  intros Ht Hq Ho. unfold queue_output.
  destruct (take_input _ _) as [[i l]|] eqn:E; [|by apply same_keeps].
  apply take_input_spec in E. destruct Hq as [Qi Qo Qq].
  assert (len l ≤ MAX_PENDING_FRAMES) as Ql.
  { apply Permutation_length in E. unfold len in *. cbn in E. lia. }
  assert (∀ r : result CodecError unit, keeps_frames [] e (r, ne_set_pending e l (ne_pending_outputs e))) as Hlost.
  { intros r. split; [|by split]. split_and!; [done..|]. exists [], []. cbn.
    split_and!; [by rewrite app_nil_r|done|]. unfold in_flight. cbn. rewrite E.
    apply submseteq_skips_l. by apply submseteq_cons. }
  destruct (pi_forced_keyframe i && negb (no_keyframe output)) eqn:Ef; [apply Hlost|]. cbn.
  destruct (Z.eqb_spec (len (ne_pending_outputs e)) MAX_PENDING_FRAMES); [apply Hlost|].
  split; [|split; cbn; [done|rewrite len_app, len_cons, len_nil; lia|done]].
  split_and!; [done..|]. exists [i], [mkEncodedFrame (pi_frame_id i) (pi_timestamp_us i)
    (no_keyframe output) (no_data output)]. split_and!; [done| |].
  - repeat constructor; [|done]. cbn. intros Hf. rewrite Hf in Ef. by destruct (no_keyframe output).
  - unfold in_flight. cbn. rewrite E. by rewrite Permutation_middle.
Qed.

Lemma keeps_Some {A} extra (e e1 : encoder) (r : result CodecError A) :
  keeps_frames extra e (r, e1) → is_Some (ne_transform e1) ∧ queues_bounded e1 ∧
  ne_sequence_header e1 = ne_sequence_header e.
Proof. by intros [(? & ? & ? & ? & ?) ?]. Qed.
Lemma keeps_nil_then {A B} extra (e e1 : encoder) (r : result CodecError A)
    (r2 : result CodecError B * encoder) :
  keeps_frames [] e (r, e1) → keeps_frames extra e1 r2 → keeps_frames extra e r2.
Proof. intros H1 H2. pose proof (keeps_then _ _ _ _ _ _ H1 H2) as H3. by rewrite app_nil_r in H3. Qed.
Lemma keeps_change {A B} extra (e e1 : encoder) (r : result CodecError A) (r' : result CodecError B) :
  keeps_frames extra e (r, e1) → keeps_frames extra e (r', e1).
Proof. done. Qed.

(** Sequencing with the early return of [?]. *)
Lemma keeps_bind {A B} extra extra' (e : encoder) (r : result CodecError A * encoder)
    (k : A → encoder → result CodecError B * encoder) :
  keeps_frames extra e r →
  (∀ a e1, r = (Ok a, e1) → is_Some (ne_transform e1) → queues_bounded e1 →
     ne_sequence_header e1 = ne_sequence_header e → keeps_frames extra' e1 (k a e1)) →
  keeps_frames (extra' ++ extra) e (match r with (Err err, e1) => (Err err, e1) | (Ok a, e1) => k a e1 end).
Proof.
  destruct r as [[a|err] e1]; intros H1 H2.
  - destruct (keeps_Some _ _ _ _ H1) as (? & ? & ?). eapply keeps_then; [exact H1|by apply H2].
  - destruct H1 as [(? & ? & ? & ? & m & n & ? & ? & Hs) ?]. split; [|done].
    split_and!; [done..|]. exists m, n. split_and!; [done..|]. cbn in *.
    etransitivity; [exact Hs|]. rewrite <-app_assoc. by apply submseteq_inserts_l.
Qed.
Lemma keeps_bind_nil {A B} (e : encoder) (r : result CodecError A * encoder)
    (k : A → encoder → result CodecError B * encoder) :
  keeps_frames [] e r →
  (∀ a e1, r = (Ok a, e1) → is_Some (ne_transform e1) → queues_bounded e1 →
     ne_sequence_header e1 = ne_sequence_header e → keeps_frames [] e1 (k a e1)) →
  keeps_frames [] e (match r with (Err err, e1) => (Err err, e1) | (Ok a, e1) => k a e1 end).
Proof. exact (keeps_bind [] [] e r k). Qed.

Lemma take_output_keeps e :
  is_Some (ne_transform e) → queues_bounded e →
  keeps_frames [] e (take_output e) ∧
  ∀ o more e', take_output e = (Ok (Some o, more), e') → output_headed (ne_sequence_header e) o.
Proof.
  intros Ht Hq. unfold take_output. destruct (ne_transform e) as [t|] eqn:Et; [|by destruct Ht].
  destruct (mft_output_info t) as [[[pr cb] ca]|h]; [|by split; [apply same_keeps; rewrite ?Et|]].
  destruct (if pr then _ else _) as [?|err]; [|by split; [apply same_keeps; rewrite ?Et|]].
  destruct (mft_process_output t) as [answer t']. split; [by apply set_transform_keeps|].
  intros o more e' [= Ho _]. destruct answer as [status [sample|]|h]; [..|by destruct h].
  - destruct (no_sample status); [done|]. destruct (os_data sample) as [data|]; [|done]. cbn in Ho.
    destruct (output_sample_is_usable _ _); [|done].
    destruct (ne_sequence_header e) as [header|] eqn:Eh; [|done]. cbn in Ho.
    destruct (h264_access_unit header data (os_clean_point sample)) as [d|] eqn:E; [|done].
    cbn in Ho. injection Ho as <- _. intros Hk. cbn in Hk.
    destruct (h264_access_unit_ok _ _ _ _ E Hk). by exists header, data.
  - by destruct (no_sample status).
Qed.

Lemma collect_output_polls_keeps n e outputs :
  is_Some (ne_transform e) → queues_bounded e → Forall (output_headed (ne_sequence_header e)) outputs →
  keeps_frames [] e (collect_output_polls n e outputs) ∧
  ∀ os e', collect_output_polls n e outputs = (Ok os, e') →
    Forall (output_headed (ne_sequence_header e)) os.
Proof.
  revert e outputs. induction n as [|n IH]; intros e outputs Ht Hq Hf; cbn;
    [by split; [apply same_keeps|]|].
  destruct (take_output_keeps e Ht Hq) as [Hk Ho].
  destruct (take_output e) as [[[o more]|err] e1]; [|by split].
  destruct (keeps_Some _ _ _ _ Hk) as (Ht1 & Hq1 & Eh).
  assert (Forall (output_headed (ne_sequence_header e)) (outputs ++ option_list o)) as Hf1.
  { apply Forall_app. split; [done|]. destruct o as [o|]; repeat constructor. by eapply Ho. }
  destruct more; [|by split; [|intros ? ? [= <- _]]].
  rewrite <-Eh in Hf1. destruct (IH e1 _ Ht1 Hq1 Hf1) as [Hk' Ho']. split.
  - by eapply keeps_nil_then.
  - intros os e' E. rewrite <-Eh. by eapply Ho'.
Qed.

Lemma queue_outputs_keeps outputs e :
  is_Some (ne_transform e) → queues_bounded e → Forall (output_headed (ne_sequence_header e)) outputs →
  keeps_frames [] e (queue_outputs e outputs).
Proof.
  revert e. induction outputs as [|o outputs IH]; intros e Ht Hq Hf; cbn; [by apply same_keeps|].
  inversion Hf; subst. apply keeps_bind_nil; [by apply queue_output_keeps|].
  intros ? e1 _ ? ? Eh. apply IH; [done..|]. by rewrite Eh.
Qed.

Lemma collect_synchronous_output_keeps e :
  is_Some (ne_transform e) → queues_bounded e → keeps_frames [] e (collect_synchronous_output e).
Proof.
  intros Ht Hq. unfold collect_synchronous_output.
  destruct (collect_output_polls_keeps (Z.to_nat MAX_PENDING_OUTPUT_EVENTS) e [] Ht Hq) as [Hk Ho];
    [constructor|].
  apply keeps_bind_nil; [done|]. intros os e1 E ? ? Eh. apply queue_outputs_keeps; [done..|].
  rewrite Eh. by eapply Ho.
Qed.

Lemma observe_event_keeps e event :
  is_Some (ne_transform e) → queues_bounded e → keeps_frames [] e (observe_event e event).
Proof.
  intros. unfold observe_event, scheduler_observe. destruct (AsyncPump_observe _ _).
  by apply set_async_keeps.
Qed.
Lemma collect_async_output_keeps e :
  is_Some (ne_transform e) → queues_bounded e → keeps_frames [] e (collect_async_output e).
Proof.
  intros Ht Hq. unfold collect_async_output, scheduler_take_output_event.
  destruct (pump_take_output_event _) as [taken p].
  pose proof (set_async_keeps e (mkAsyncInputScheduler p (as_queued_inputs (ne_async_inputs e)))
    (Err Codec_BackendLost : result CodecError unit) Ht Hq eq_refl) as Hs.
  destruct taken; cbn [negb]; [|done]. destruct (keeps_Some _ _ _ _ Hs) as (? & ? & _).
  eapply keeps_nil_then; [exact Hs|]. by apply collect_synchronous_output_keeps.
Qed.

Lemma poll_events_keeps events e :
  is_Some (ne_transform e) → queues_bounded e → keeps_frames [] e (poll_events e events).
Proof.
  revert e. induction events as [|[event|h] events IH]; intros e Ht Hq; cbn [poll_events];
    [by apply same_keeps| |by apply same_keeps].
  apply keeps_bind_nil; [|intros; by apply IH].
  destruct event; [by apply observe_event_keeps| |by apply observe_event_keeps|by apply same_keeps].
  apply keeps_bind_nil; [by apply observe_event_keeps|]. intros. by apply collect_async_output_keeps.
Qed.
Lemma poll_async_events_keeps events e :
  is_Some (ne_transform e) → queues_bounded e → keeps_frames [] e (poll_async_events e events).
Proof.
  intros. unfold poll_async_events. destruct (negb _); [by apply same_keeps|by apply poll_events_keeps].
Qed.

(** An input that left the queue is in the hands of the submission. *)
Lemma keeps_taken {A} (e : encoder) sub s (r : result CodecError A * encoder) :
  as_queued_inputs (ne_async_inputs e) = sub :: as_queued_inputs s →
  keeps_frames [ps_input sub] (ne_set_async e s) r → keeps_frames [] e r.
Proof.
  intros Eq [(? & ? & ? & ? & m & n & ? & ? & Hs) ?]. split; [|done]. split_and!; [done..|].
  exists m, n. split_and!; [done..|]. etransitivity; [exact Hs|]. unfold in_flight. cbn.
  by rewrite Eq.
Qed.
Lemma keeps_lost {A} i (e : encoder) (r : result CodecError A * encoder) :
  keeps_frames [] e r → keeps_frames [i] e r.
Proof.
  intros [(? & ? & ? & ? & m & n & ? & ? & Hs) ?]. split; [|done]. split_and!; [done..|].
  exists m, n. split_and!; [done..|]. cbn in *. by apply submseteq_cons.
Qed.
Lemma keeps_bind_taken {A B} i (e : encoder) (r : result CodecError A * encoder)
    (k : A → encoder → result CodecError B * encoder) :
  keeps_frames [i] e r →
  (∀ a e1, r = (Ok a, e1) → is_Some (ne_transform e1) → queues_bounded e1 →
     ne_sequence_header e1 = ne_sequence_header e → keeps_frames [] e1 (k a e1)) →
  keeps_frames [i] e (match r with (Err err, e1) => (Err err, e1) | (Ok a, e1) => k a e1 end).
Proof. exact (keeps_bind [i] [] e r k). Qed.

(** The transform is given an input, which is then awaited. *)
Lemma process_input_keeps {B} (e : encoder) t t' sample input
    (k : unit → encoder → result CodecError B * encoder) :
  ne_transform e = Some t → queues_bounded e →
  (∀ e1, is_Some (ne_transform e1) → queues_bounded e1 → keeps_frames [] e1 (k tt e1)) →
  keeps_frames [input] e (match mft_process_input t' sample with
    | Err h => (Err (classify_hresult h), ne_set_transform e t')
    | Ok t' => match queue_input (ne_set_transform e t') input with
        | (Err err, e) => (Err err, e) | (Ok u, e) => k u e end
    end).
Proof.
  intros Et Hq Hk. destruct (mft_process_input t' sample) as [t2|h];
    [|by apply keeps_lost, set_transform_keeps].
  pose proof (set_transform_keeps e t2 (Err Codec_BackendLost : result CodecError B) Hq) as Hs.
  eapply keeps_nil_then; [exact Hs|]. apply keeps_bind_taken.
  - destruct (keeps_Some _ _ _ _ Hs) as (? & ? & _). by apply queue_input_keeps.
  - intros [] e1 _ ? ? _. by apply Hk.
Qed.

Lemma take_ready_input_spec {A} (s : AsyncInputScheduler A) :
  match take_ready_input s with
  | (None, s') => as_queued_inputs s' = as_queued_inputs s
  | (Some a, s') => as_queued_inputs s = a :: as_queued_inputs s'
  end.
Proof.
  unfold take_ready_input. destruct (as_queued_inputs s) eqn:E; [by rewrite E|].
  by destruct (take_input_credit _) as [[] p].
Qed.

Lemma submit_inputs_keeps n e :
  is_Some (ne_transform e) → queues_bounded e → keeps_frames [] e (submit_inputs n e).
Proof.
  revert e. induction n as [|n IH]; intros e Ht Hq; cbn [submit_inputs]; [by apply same_keeps|].
  pose proof (take_ready_input_spec (ne_async_inputs e)) as Hs.
  destruct (take_ready_input (ne_async_inputs e)) as [[sub|] s]; [|by apply set_async_keeps].
  apply (keeps_taken _ sub s _ Hs).
  assert (queues_bounded (ne_set_async e s)) as Hq'.
  { destruct Hq as [? ? Hb]. split; [done..|]. cbn. rewrite Hs, len_cons in Hb. lia. }
  destruct (ne_transform (ne_set_async e s)) as [t|] eqn:Et; [|by destruct Ht; cbn in Et; congruence].
  destruct (if pi_forced_keyframe _ then _ else _) as [t'|h].
  - apply (process_input_keeps _ t); [done..|]. intros. by apply IH.
  - apply keeps_lost, same_keeps; [by rewrite Et|done].
Qed.

(** The fuel of [submit_credited_inputs] is enough. *)
Lemma submit_inputs_fuel n m e :
  (length (as_queued_inputs (ne_async_inputs e)) < n)%nat →
  (length (as_queued_inputs (ne_async_inputs e)) < m)%nat → submit_inputs n e = submit_inputs m e.
Proof.
  revert m e. induction n as [|n IH]; intros [|m] e Hn Hm; [lia..|]. cbn [submit_inputs].
  pose proof (take_ready_input_spec (ne_async_inputs e)) as Hs.
  destruct (take_ready_input (ne_async_inputs e)) as [[sub|] s]; [|done]. rewrite Hs in Hn, Hm.
  cbn in Hn, Hm. destruct (ne_transform _) as [t|]; [|done].
  destruct (if pi_forced_keyframe _ then _ else _) as [t'|]; [|done].
  destruct (mft_process_input t' _) as [t2|]; [|done].
  unfold queue_input. destruct (_ =? _); [done|]. apply IH; cbn; lia.
Qed.

Lemma pump_async_keeps e before after :
  is_Some (ne_transform e) → queues_bounded e → keeps_frames [] e (pump_async e before after).
Proof.
  intros. unfold pump_async. apply keeps_bind_nil; [by apply poll_async_events_keeps|].
  intros _ e1 _ Ht Hq _. apply keeps_bind_nil; [|intros; by apply poll_async_events_keeps].
  unfold submit_credited_inputs. destruct (ne_transform e1) eqn:Et; [|by destruct Ht].
  apply submit_inputs_keeps; [by rewrite Et|done].
Qed.

Lemma NativeEncoder_pump_keeps e before after :
  is_Some (ne_transform e) → queues_bounded e → keeps_frames [] e (NativeEncoder_pump e before after).
Proof.
  intros. unfold NativeEncoder_pump. destruct (ne_is_async e); [|by apply same_keeps].
  destruct (ne_config e); [by apply pump_async_keeps|by apply same_keeps].
Qed.

Lemma submit_frame_keeps e sample input before after :
  is_Some (ne_transform e) → queues_bounded e →
  keeps_frames [input] e (submit_frame e sample input before after).
Proof.
  intros Ht Hq. unfold submit_frame. destruct (ne_is_async e).
  - unfold scheduler_enqueue. destruct (Z.eqb_spec (len (as_queued_inputs (ne_async_inputs e)))
      MAX_ASYNC_INPUT_CREDITS); [by apply keeps_lost, set_async_keeps|].
    set (e1 := ne_set_async e _). assert (keeps_frames [input] e (Ok tt : result CodecError unit, e1)) as Hk.
    { destruct Hq. split; [|split; cbn; [done..|rewrite len_app, len_cons, len_nil; lia]].
      split_and!; [done..|]. exists [], []. cbn. split_and!; [by rewrite app_nil_r|done|].
      unfold in_flight. cbn. rewrite fmap_app. cbn. by rewrite <-app_assoc, Permutation_middle. }
    destruct (keeps_Some _ _ _ _ Hk) as (? & ? & _).
    eapply (keeps_then [input] []); [exact Hk|]. by apply pump_async_keeps.
  - destruct (ne_transform e) as [t|] eqn:Et; [|by destruct Ht].
    destruct (if pi_forced_keyframe _ then _ else _) as [t'|h].
    + apply (process_input_keeps _ t); [done..|]. intros. by apply collect_synchronous_output_keeps.
    + apply keeps_lost, same_keeps; [by rewrite Et|done].
Qed.

(** ** Frames and the samples they code

    A transform that stamps its outputs: [held] are the times of the samples it holds, and
    [unit_time] the time of the sample that an access unit codes. *)
Record stamping (held : T → list Z) (unit_time : bytes → Z) : Prop := {
  sg_negotiate t config n t' : mft_negotiate t config = (n, t') → held t' = [];
  sg_force t t' : mft_force_keyframe t = Ok t' → held t' ≡ₚ held t;
  sg_input t s t' : mft_process_input t s = Ok t' → held t' ≡ₚ is_time s :: held t;
  sg_need t t' : mft_process_output t = (Process_Err Hr_NeedMoreInput, t') → held t' ≡ₚ held t;
  sg_none t status sample t' : mft_process_output t = (Process_Ok status sample, t') →
    no_sample status = true ∨ sample = None ∨ (∃ s, sample = Some s ∧ os_data s = Ok []) → held t' ≡ₚ held t;
  sg_sample t status s d t' : mft_process_output t = (Process_Ok status (Some s), t') →
    no_sample status = false → os_data s = Ok d → d ≠ [] →
    os_time s = Some (unit_time d) ∧ held t ≡ₚ unit_time d :: held t';
  sg_error t status s t' : mft_process_output t = (Process_Ok status (Some s), t') →
    os_data s ≠ Err Codec_OutputPending
}.

Definition headed (header : bytes) (keyframe : bool) (unit : bytes) : bytes :=
  if keyframe then header ++ unit else unit.
(** A frame has the timestamp of the sample that it codes. *)
Definition stamped (unit_time : bytes → Z) (header : bytes) (o : EncodedFrame) : Prop :=
  ∃ unit, enc_data o = headed header (enc_keyframe o) unit ∧ unit_time unit = enc_timestamp_us o * 10.

Section linking.
Context (held : T → list Z) (unit_time : bytes → Z) (Hst : stamping held unit_time) (header : bytes).

Definition times_ok (i : PendingInput) : Prop := pi_timestamp_hns i = pi_timestamp_us i * 10.
Definition output_ok (o : NativeOutput) : Prop :=
  ∃ unit, no_data o = headed header (no_keyframe o) unit ∧ no_timestamp_hns o = Some (unit_time unit).
(** The inputs that are awaited are those of the samples in the transform and of the
    outputs taken from it and not yet attributed. *)
Record linked_with (outs : list NativeOutput) (e : encoder) : Prop := {
  lw_header : ne_sequence_header e = Some header;
  lw_inputs : Forall times_ok (ne_pending_inputs e);
  lw_queue : Forall (λ s, times_ok (ps_input s) ∧ is_time (ps_sample s) = pi_timestamp_hns (ps_input s))
    (as_queued_inputs (ne_async_inputs e));
  lw_outs : Forall output_ok outs;
  lw_outputs : Forall (stamped unit_time header) (ne_pending_outputs e);
  lw_held : ∃ t, ne_transform e = Some t ∧
    (pi_timestamp_hns <$> ne_pending_inputs e) ≡ₚ omap no_timestamp_hns outs ++ held t
}.
Abbreviation linked := (linked_with []).

(** An operation keeps the link as long as it succeeds; its errors are not that of pending
    output. *)
Definition links {A} (e : encoder) (r : result CodecError A * encoder) : Prop :=
  linked e → match r with (Ok _, e') => linked e' | (Err err, _) => err ≠ Codec_OutputPending end.
Lemma classify_not_pending h : classify_hresult h ≠ Codec_OutputPending.
Proof. by destruct h. Qed.
Lemma links_bind {A B} (e : encoder) (r : result CodecError A * encoder)
    (k : A → encoder → result CodecError B * encoder) :
  links e r → (∀ a e1, links e1 (k a e1)) →
  links e (match r with (Err err, e1) => (Err err, e1) | (Ok a, e1) => k a e1 end).
Proof. destruct r as [[a|err] e1]; intros H1 H2 Hl; [apply H2, H1, Hl|by apply H1]. Qed.

Lemma set_async_linked outs e s :
  linked_with outs e → as_queued_inputs s = as_queued_inputs (ne_async_inputs e) →
  linked_with outs (ne_set_async e s).
Proof. intros [? ? ? ? ? ?] Es. split; cbn; rewrite ?Es; done. Qed.

Lemma take_output_links outs e o more e' :
  linked_with outs e → take_output e = (Ok (o, more), e') → linked_with (outs ++ option_list o) e'.
Proof.
  intros [Eh Hi Hq Ho Hos (t & Et & Hheld)]. unfold take_output. rewrite Et.
  destruct (mft_output_info t) as [[[pr cb] ca]|h]; [|done].
  destruct (if pr then _ else _) as [?|err]; [|done].
  destruct (mft_process_output t) as [answer t'] eqn:Ep. intros [= Ha <-].
  assert (∀ o : option NativeOutput, o = None → held t' ≡ₚ held t →
    linked_with (outs ++ option_list o) (ne_set_transform e t')) as Hnone.
  { intros ? -> Hh. cbn. rewrite app_nil_r. split; cbn; [done..|]. exists t'. split; [done|]. by rewrite Hh. }
  destruct answer as [status sample|h]; cycle 1.
  { destruct h; try done. injection Ha as <- _. apply Hnone; [done|]. by eapply sg_need. }
  pose proof (sg_none _ _ Hst _ _ _ _ Ep) as Hn.
  destruct (no_sample status) eqn:En; [injection Ha as <- _; apply Hnone; auto|].
  destruct sample as [s|]; [|injection Ha as <- _; apply Hnone; auto].
  destruct (os_data s) as [d|] eqn:Ed; [|done]. cbn [mbind result_bind] in Ha.
  unfold output_sample_is_usable in Ha. rewrite En in Ha. cbn [mbind option_bind] in Ha.
  destruct (Z.eqb_spec (len d) 0) as [Hd|Hd].
  { injection Ha as <- _. apply Hnone; [done|]. apply Hn. right. right. exists s. split; [done|].
    rewrite Ed. f_equal. by destruct d. }
  rewrite Eh in Ha. cbn [ok_or mbind result_bind] in Ha.
  destruct (h264_access_unit header d (os_clean_point s)) as [data|] eqn:Eu; [|done].
  cbn [mbind result_bind] in Ha. injection Ha as <- _.
  destruct (sg_sample _ _ Hst _ _ _ d _ Ep En Ed) as [Ets Hh]; [by intros ->|].
  assert (data = headed header (os_clean_point s) d) as ->.
  { unfold h264_access_unit in Eu. rewrite (proj2 (Z.eqb_neq _ _) Hd) in Eu. unfold headed.
    destruct (os_clean_point s); cbn in Eu; [|by injection Eu].
    destruct (len header =? 0); [done|]. cbn in Eu. destruct (checked_add _ _ _); [|done]. by injection Eu. }
  split; cbn; [done..| |done|].
  - apply Forall_app. split; [done|]. repeat constructor. cbn. by exists d.
  - exists t'. split; [done|]. rewrite Hheld, Hh, omap_app. cbn. rewrite Ets. cbn. by rewrite <-app_assoc.
Qed.

Lemma take_output_error e err e' : take_output e = (Err err, e') → err ≠ Codec_OutputPending.
Proof.
  unfold take_output. destruct (ne_transform e) as [t|]; [|by intros [= <- _]].
  destruct (mft_output_info t) as [[[pr cb] ca]|h]; [|intros [= <- _]; apply classify_not_pending].
  destruct (if pr then _ else _) as [?|err0] eqn:Es.
  - destruct (mft_process_output t) as [answer t'] eqn:Ep. intros [= Ha _].
    destruct answer as [status [s|]|h].
    + pose proof (sg_error _ _ Hst _ _ _ _ Ep) as Hd. destruct (no_sample status); [done|].
      destruct (os_data s) as [d|err1]; cbn [mbind result_bind] in Ha; [|congruence].
      destruct (output_sample_is_usable _ _); [|done]. destruct (ne_sequence_header e) as [h|]; [|by injection Ha as <-].
      cbn [ok_or mbind result_bind] in Ha. destruct (h264_access_unit h d _) as [|err1] eqn:Eu; [done|].
      injection Ha as <-. unfold h264_access_unit in Eu. destruct (len d =? 0); [by injection Eu as <-|].
      destruct (negb _); [done|]. cbn in Eu. destruct (len h =? 0); [by injection Eu as <-|]. cbn in Eu.
      destruct (checked_add _ _ _); [done|]. by injection Eu as <-.
    + by destruct (no_sample status).
    + destruct h; by simplify_eq.
  - intros [= <- _]. destruct pr; [done|]. unfold output_buffer_spec in Es.
    destruct (cb =? 0); [by injection Es as <-|]. cbn in Es.
    assert (∀ spec, match mft_output_buffer t spec with Some h => Err (classify_hresult h) | None => Ok tt end =
      Err err0 → err0 ≠ Codec_OutputPending) as Hb.
    { intros spec. destruct (mft_output_buffer t spec); [|done]. intros [= <-]. apply classify_not_pending. }
    destruct (ca =? 0); [by eapply Hb|]. destruct (is_power_of_two ca); [|by injection Es as <-].
    destruct (checked_sub ca 1); cbn in Es; [by eapply Hb|by injection Es as <-].
Qed.
Lemma collect_output_polls_links n outs e :
  linked_with outs e →
  match collect_output_polls n e outs with
  | (Ok os, e') => linked_with os e'
  | (Err err, _) => err ≠ Codec_OutputPending
  end.
Proof.
  revert outs e. induction n as [|n IH]; intros outs e Hl; cbn; [done|].
  destruct (take_output e) as [[[o more]|err] e1] eqn:E; [|by eapply take_output_error].
  pose proof (take_output_links _ _ _ _ _ Hl E) as Hl1. destruct more; [by apply IH|done].
Qed.

Lemma take_input_at_time hns l : hns ∈ (pi_timestamp_hns <$> l) →
  ∃ i l', take_input_at hns l = Some (i, l') ∧ pi_timestamp_hns i = hns.
Proof.
  induction l as [|p l IH]; cbn; [by intros ?%not_elem_of_nil|]. rewrite elem_of_cons.
  destruct (Z.eqb_spec (pi_timestamp_hns p) hns); [eauto|]. intros [?|Hin]; [done|].
  destruct (IH Hin) as (i & l' & -> & ?). cbn. eauto.
Qed.
Lemma queue_output_links o outs e :
  linked_with (o :: outs) e →
  match queue_output e o with (Ok _, e') => linked_with outs e' | (Err err, _) => err ≠ Codec_OutputPending end.
Proof.
  intros [Eh Hi Hq Ho Hos (t & Et & Hheld)]. apply Forall_cons in Ho as [(unit & Ed & Ets) Ho].
  cbn in Hheld. rewrite Ets in Hheld. unfold queue_output.
  destruct (take_input_at_time (unit_time unit) (ne_pending_inputs e)) as (i & l & Ei & Ehns).
  { rewrite Hheld. left. }
  assert (take_input (no_timestamp_hns o) (ne_pending_inputs e) = Some (i, l)) as ->.
  { unfold take_input. rewrite Ets. cbn. by rewrite Ei. }
  destruct (_ && _); [done|]. cbn. destruct (_ =? _); [done|].
  pose proof (take_input_at_spec _ _ _ _ Ei) as Hp. rewrite Hp in Hi, Hheld.
  apply Forall_cons in Hi as [Hit Hi]. split; cbn; [done..| |].
  - apply Forall_app. split; [done|]. repeat constructor. exists unit. cbn. split; [done|].
    rewrite <-Ehns. exact Hit.
  - exists t. split; [done|]. cbn in Hheld. rewrite Ehns in Hheld. by apply Permutation_cons_inv in Hheld.
Qed.
Lemma queue_outputs_links outs e :
  linked_with outs e →
  match queue_outputs e outs with (Ok _, e') => linked e' | (Err err, _) => err ≠ Codec_OutputPending end.
Proof.
  revert e. induction outs as [|o outs IH]; intros e Hl; cbn; [done|].
  pose proof (queue_output_links o outs e Hl). destruct (queue_output e o) as [[[]|] e1]; [|done]. by apply IH.
Qed.

Lemma collect_synchronous_output_links e : links e (collect_synchronous_output e).
Proof.
  intros Hl. unfold collect_synchronous_output.
  pose proof (collect_output_polls_links (Z.to_nat MAX_PENDING_OUTPUT_EVENTS) [] e Hl) as Hc.
  destruct (collect_output_polls _ e []) as [[os|] e1]; [by apply queue_outputs_links|done].
Qed.
Lemma observe_event_links e event : links e (observe_event e event).
Proof.
  intros Hl. unfold observe_event, scheduler_observe. unfold AsyncPump_observe.
  destruct event; try destruct (bounded_increment _ _); try done; by apply set_async_linked.
Qed.
Lemma collect_async_output_links e : links e (collect_async_output e).
Proof.
  intros Hl. unfold collect_async_output, scheduler_take_output_event.
  destruct (pump_take_output_event _) as [[] p]; [|done]. cbn [negb].
  apply collect_synchronous_output_links. by apply set_async_linked.
Qed.
Lemma poll_events_links events e : links e (poll_events e events).
Proof.
  revert e. induction events as [|[event|h] events IH]; intros e; cbn [poll_events]; [by intros ?| |intros ?; apply classify_not_pending].
  apply links_bind; [|intros; apply IH].
  destruct event; [apply observe_event_links| |apply observe_event_links|by intros ?].
  apply links_bind; [apply observe_event_links|intros; apply collect_async_output_links].
Qed.
Lemma poll_async_events_links events e : links e (poll_async_events e events).
Proof. unfold poll_async_events. destruct (negb _); [by intros ?|apply poll_events_links]. Qed.

(** The transform is given a sample with its input's time, and the input is awaited. *)
Lemma process_input_links {B} (e : encoder) t t' sample input (k : unit → encoder → result CodecError B * encoder) :
  ne_transform e = Some t → held t' ≡ₚ held t → times_ok input → is_time sample = pi_timestamp_hns input →
  (∀ e1, links e1 (k tt e1)) →
  links e (match mft_process_input t' sample with
    | Err h => (Err (classify_hresult h), ne_set_transform e t')
    | Ok t' => match queue_input (ne_set_transform e t') input with
        | (Err err, e) => (Err err, e) | (Ok u, e) => k u e end
    end).
Proof.
  intros Et Ht Hi Hs Hk [? ? ? _ ? (t0 & Et0 & Hheld)]. rewrite Et in Et0. injection Et0 as <-.
  destruct (mft_process_input t' sample) as [t2|] eqn:Ep; [|apply classify_not_pending]. apply (sg_input _ _ Hst) in Ep.
  unfold queue_input. destruct (_ =? _); [done|]. apply Hk. split; cbn; [done| |done|constructor|done|].
  - apply Forall_app. split; [done|]. by repeat constructor.
  - exists t2. split; [done|]. rewrite fmap_app, Ep, Hs, Ht, Hheld. cbn.
    by rewrite Permutation_app_comm.
Qed.
Lemma forced_held (force : bool) t t' :
  (if force then mft_force_keyframe t else Ok t) = Ok t' → held t' ≡ₚ held t.
Proof. destruct force; [by apply (sg_force _ _ Hst)|by intros [= ->]]. Qed.

Lemma submit_inputs_links n e : links e (submit_inputs n e).
Proof.
  revert e. induction n as [|n IH]; intros e; cbn [submit_inputs]; [by intros ?|]. intros Hl.
  pose proof (take_ready_input_spec (ne_async_inputs e)) as Hs.
  destruct (take_ready_input (ne_async_inputs e)) as [[sub|] s]; [|by apply set_async_linked].
  assert (linked (ne_set_async e s) ∧ times_ok (ps_input sub) ∧
    is_time (ps_sample sub) = pi_timestamp_hns (ps_input sub)) as (Hl' & Hi & Ht).
  { destruct Hl as [? ? Hq ? ? ?]. rewrite Hs in Hq. apply Forall_cons in Hq as [[? ?] Hq]. by split. }
  destruct (ne_transform (ne_set_async e s)) as [t|] eqn:Et; [|done].
  destruct (if pi_forced_keyframe _ then _ else _) as [t'|h] eqn:Ef; [|apply classify_not_pending].
  exact (process_input_links _ t t' _ _ (λ _ e, submit_inputs n e) Et (forced_held _ _ _ Ef) Hi Ht (λ e1, IH e1) Hl').
Qed.
Lemma pump_async_links e before after : links e (pump_async e before after).
Proof.
  unfold pump_async. apply links_bind; [apply poll_async_events_links|]. intros _ e1.
  apply links_bind; [|intros; apply poll_async_events_links].
  unfold submit_credited_inputs. destruct (ne_transform e1); [apply submit_inputs_links|by intros ?].
Qed.
Lemma NativeEncoder_pump_links e before after : links e (NativeEncoder_pump e before after).
Proof.
  unfold NativeEncoder_pump. destruct (ne_is_async e); [|by intros ?].
  destruct (ne_config e); [apply pump_async_links|by intros ?].
Qed.
Lemma submit_frame_links e sample input before after :
  times_ok input → is_time sample = pi_timestamp_hns input → links e (submit_frame e sample input before after).
Proof.
  intros Hi Ht Hl. unfold submit_frame. destruct (ne_is_async e).
  - unfold scheduler_enqueue. destruct (_ =? _); [done|]. apply pump_async_links.
    destruct Hl as [? ? Hq ? ? ?]. split; cbn; [done..| |done|done|done].
    apply Forall_app. split; [done|]. by repeat constructor.
  - destruct (ne_transform e) as [t|] eqn:Et; [|done].
    destruct (if pi_forced_keyframe _ then _ else _) as [t'|h] eqn:Ef; [|apply classify_not_pending].
    exact (process_input_links _ t t' _ _ (λ _ e, collect_synchronous_output e) Et (forced_held _ _ _ Ef) Hi Ht
      collect_synchronous_output_links Hl).
Qed.
End linking.

(** A mapped NV12 texture holds its rows of luma and half as many of chroma. *)
Definition mapped_textures_whole : Prop :=
  ∀ (t : T) f memory row_pitch, mft_video_process t f = Ok (Some memory, row_pitch) →
    uint 32 row_pitch ∧ row_pitch * (fr_height f + fr_height f / 2) ≤ len memory.

Lemma from_bgra_dimensions_Ok width height l :
  uint 32 width → uint 32 height → from_bgra_dimensions width height = Ok l →
  l = layout_of width height ∧ even_dimensions width height.
Proof.
  unfold uint, from_bgra_dimensions, even_dimensions, is_even, layout_of, checked_mul, checked_add.
  intros Hw Hh. destruct (_ || _) eqn:E; [done|]. cbn.
  destruct (width * 4 <=? usize_max); [|done]. cbn.
  destruct (width * 4 * height <=? usize_max); [|done]. cbn.
  destruct (width * height <=? usize_max); [|done]. cbn.
  destruct (_ <=? usize_max); [|done]. cbn. intros [= <-]. split; [f_equal; lia|lia].
Qed.

Lemma copy_mapped_total memory row_pitch width height :
  uint 32 width → uint 32 height → uint 32 row_pitch →
  (∀ m, memory = Some m → row_pitch * (height + height / 2) ≤ len m) →
  is_Some (copy_mapped_nv12 memory row_pitch width height).
Proof.
  intros Hw Hh Hp Hm. unfold copy_mapped_nv12.
  destruct (from_bgra_dimensions width height) as [l|] eqn:El; [|done].
  apply from_bgra_dimensions_Ok in El as [-> He]; [|done..]. destruct memory as [m|]; [|done].
  specialize (Hm m eq_refl). cbn [nl_width nl_height layout_of].
  destruct (row_pitch <? width); [done|]. unfold checked_add, checked_mul.
  destruct (Z.leb_spec (height + height / 2) usize_max); [|done].
  destruct (Z.leb_spec (row_pitch * (height + height / 2)) usize_max); [|done].
  unfold slice_at. cbn [Nat.add]. unfold len in Hm.
  rewrite (proj2 (Nat.leb_le _ _)) by lia. cbn [mbind option_bind].
  rewrite copy_pitched_cases; [done|done|unfold uint in Hp; lia|done|].
  unfold len. rewrite length_take. unfold usize_max, u64_max in *. lia.
Qed.

Lemma convert_total t c frame :
  mapped_textures_whole → uint 32 (fr_width frame) → uint 32 (fr_height frame) →
  is_Some (Nv12Converter_convert t c frame).
Proof.
  intros Hm Hw Hh. destruct c as [width height|]; cbn [Nv12Converter_convert].
  - unfold d3d11_convert.
    destruct (Z.eqb_spec (fr_width frame) width) as [<-|]; [|done].
    destruct (Z.eqb_spec (fr_height frame) height) as [<-|]; [|done]. cbn.
    destruct (fr_format frame); [done|]. destruct (CapturedFrame_validate frame); [|done].
    destruct (from_bgra_dimensions _ _); [|done]. destruct (negb _); [done|].
    destruct (_ <=? _); [done|].
    destruct (mft_video_process t frame) as [[memory row_pitch]|] eqn:E; [|done].
    destruct memory as [m|].
    + destruct (Hm t frame m row_pitch E). apply copy_mapped_total; [done..|]. by intros ? [= <-].
    + unfold copy_mapped_nv12. by destruct (from_bgra_dimensions _ _).
  - destruct (bgra_to_nv12_errors frame Hw Hh) as [[? ->]|(w2 & h2 & Hb)]; [done|].
    by rewrite (bgra_to_nv12_planes _ _ _ Hb).
Qed.

Lemma NativeEncoder_encode_total e frame force before after :
  mapped_textures_whole → uint 32 (fr_width frame) → uint 32 (fr_height frame) →
  (∀ c, ne_config e = Some c → ec_max_fps c ≠ 0) →
  is_Some (NativeEncoder_encode e frame force before after).
Proof.
  intros Hm Hw Hh Hc. unfold NativeEncoder_encode.
  destruct (ne_config e) as [c|]; [|done]. specialize (Hc c eq_refl).
  destruct (ne_converter e) as [v|]; [|done]. destruct (ne_transform e) as [t|]; [|done].
  destruct (convert_total t v frame Hm Hw Hh) as [[nv12|] ->]; [|done]. cbn [mbind option_bind].
  assert (is_Some (create_input_sample t nv12 frame c)) as [[sample|] ->]; [|..|done].
  { unfold create_input_sample. destruct (from_bgra_dimensions _ _); [|done].
    do 2 (destruct (negb _) || destruct (_ <=? _); [done|]). destruct (mft_make_sample _ _); [done|].
    destruct (sample_time_hns _); [|done]. rewrite (proj2 (Z.eqb_neq _ _)) by done.
    by destruct (mft_stamp_sample _ _ _). }
  cbn [mbind option_bind]. destruct (sample_time_hns _); [|done].
  by destruct (submit_frame _ _ _ _ _) as [[] ?].
Qed.

(** What the worker does between two configurations, with the events its polls find. *)
Inductive WorkerOp :=
  | Work_Encode (frame : CapturedFrame) (force : bool) (before after : Events)
  | Work_Pump (before after : Events).
Definition asked (op : WorkerOp) : option PendingInput :=
  match op with
  | Work_Encode frame force _ _ => Some (mkPendingInput (fr_frame_id frame) (fr_timestamp_us frame)
      (fr_timestamp_us frame * 10) force)
  | Work_Pump _ _ => None
  end.
Definition fitting (op : WorkerOp) : Prop :=
  match op with
  | Work_Encode frame _ _ _ => uint 32 (fr_width frame) ∧ uint 32 (fr_height frame)
  | Work_Pump _ _ => True
  end.
(** The worker with the frames it has answered with. *)
Definition worker_op (s : encoder * list EncodedFrame) (op : WorkerOp) :
    option (encoder * list EncodedFrame) :=
  match op with
  | Work_Encode frame force before after =>
      '(r, e) ← NativeEncoder_encode (fst s) frame force before after;
      Some (e, snd s ++ match r with Ok o => [o] | Err _ => [] end)
  | Work_Pump before after => Some (snd (NativeEncoder_pump (fst s) before after), snd s)
  end.
Definition worker_run (ops : list WorkerOp) (s : encoder * list EncodedFrame) :=
  for_each ops worker_op s.

Record worker_accounted (header : bytes) (config : EncoderConfig) (inputs : list PendingInput)
    (s : encoder * list EncodedFrame) : Prop := {
  wa_header : ne_sequence_header (fst s) = Some header;
  wa_config : ne_config (fst s) = Some config;
  wa_transform : is_Some (ne_transform (fst s));
  wa_bounds : queues_bounded (fst s);
  wa_coded : ∃ matched,
    Forall2 (coded (Some header)) matched (snd s ++ ne_pending_outputs (fst s)) ∧
    matched ++ in_flight (fst s) ⊆+ inputs
}.

Lemma keeps_accounted {A} header config inputs extra e out (r : result CodecError A * encoder) :
  worker_accounted header config inputs (e, out) → keeps_frames extra e r →
  worker_accounted header config (inputs ++ extra) (snd r, out).
Proof.
  intros [Eh Ec Ht Hq (m & Hf & Hs)] [(Eh' & Ec' & _ & Ht' & m' & n & Eo & Hf' & Hs') Hq'].
  cbn in *. split; cbn; [congruence|congruence|done|done|]. exists (m ++ m').
  rewrite Eo, app_assoc. split.
  - apply Forall2_app; [done|]. by rewrite Eh in Hf'.
  - rewrite <-app_assoc. etransitivity; [apply submseteq_skips_l, Hs'|].
    rewrite app_assoc, (Permutation_app_comm m), <-app_assoc, (Permutation_app_comm inputs).
    by apply submseteq_skips_l.
Qed.

Lemma NativeEncoder_encode_cases e frame force before after r e' :
  NativeEncoder_encode e frame force before after = Some (r, e') →
  (∃ err, r = Err err ∧ e' = e) ∨
  ∃ sample input, asked (Work_Encode frame force before after) = Some input ∧
    is_time sample = pi_timestamp_hns input ∧
    match submit_frame e sample input before after with
    | (Err err, e1) => r = Err err ∧ e' = e1
    | (Ok _, e1) => (r, e') = take_pending_output e1
    end.
Proof.
  unfold NativeEncoder_encode. destruct (ne_config e) as [c|]; [|intros [= <- <-]; eauto].
  destruct (ne_converter e) as [v|]; [|intros [= <- <-]; eauto].
  destruct (ne_transform e) as [t|]; [|intros [= <- <-]; eauto].
  destruct (Nv12Converter_convert t v frame) as [[nv12|]|]; [|intros [= <- <-]; eauto|done].
  cbn [mbind option_bind].
  destruct (create_input_sample t nv12 frame c) as [[sample|]|] eqn:Es; [|intros [= <- <-]; eauto|done].
  cbn [mbind option_bind].
  destruct (sample_time_hns (fr_timestamp_us frame)) as [hns|] eqn:E; [|intros [= <- <-]; eauto].
  assert (hns = fr_timestamp_us frame * 10) as ->.
  { unfold sample_time_hns, checked_mul in E. destruct (_ <=? _); [|done]. cbn in E.
    destruct (_ <? _); [|done]. by injection E. }
  intros Hr. right. eexists sample, _. split; [done|]. split.
  { unfold create_input_sample in Es. repeat case_match; simplify_eq/=; congruence. }
  destruct (submit_frame _ _ _ _ _) as [[?|] e1]; by injection Hr.
Qed.

Lemma encode_accounted header config inputs e out frame force before after r e' :
  worker_accounted header config inputs (e, out) →
  NativeEncoder_encode e frame force before after = Some (r, e') →
  worker_accounted header config
    (inputs ++ option_list (asked (Work_Encode frame force before after)))
    (e', out ++ match r with Ok o => [o] | Err _ => [] end).
Proof.
  intros Hacc E. pose proof (wa_transform _ _ _ _ Hacc) as Ht. pose proof (wa_bounds _ _ _ _ Hacc) as Hq.
  destruct (NativeEncoder_encode_cases _ _ _ _ _ _ _ E) as [(err & -> & ->)|(sample & input & -> & _ & Hs)].
  - rewrite app_nil_r. apply (keeps_accounted _ _ _ _ e _ (Err err : result CodecError unit, e)); [exact Hacc|].
    cbn [asked option_list]. by apply keeps_lost, same_keeps.
  - pose proof (submit_frame_keeps e sample input before after Ht Hq) as Hk.
    pose proof (keeps_accounted _ _ _ _ _ _ _ Hacc Hk) as Hacc1.
    destruct (submit_frame e sample input before after) as [[?|err] e1]; cbn [snd] in Hacc1.
    + unfold take_pending_output in Hs. destruct (ne_pending_outputs e1) as [|o os] eqn:Eo;
        injection Hs as -> ->; [by rewrite app_nil_r|].
      destruct Hacc1 as [? ? ? [? Qo ?] (m & Hf & Hsub)]. cbn in *.
      split; cbn; [done..|split; cbn; [done| |done]|].
      * rewrite Eo, len_cons in Qo. lia.
      * exists m. rewrite <-app_assoc. cbn. by rewrite Eo in Hf.
    + destruct Hs as [-> ->]. by rewrite app_nil_r.
Qed.

Lemma worker_op_accounted header config inputs s op s' :
  worker_accounted header config inputs s → worker_op s op = Some s' →
  worker_accounted header config (inputs ++ option_list (asked op)) s'.
Proof.
  destruct s as [e out]. destruct op as [frame force before after|before after]; intros Hacc E.
  - cbn [worker_op fst snd] in E. apply bind_Some in E as ([r e'] & E & [= <-]).
    by eapply encode_accounted.
  - injection E as <-. apply keeps_accounted with (extra := []) (e := e); [done|].
    destruct Hacc. by apply NativeEncoder_pump_keeps.
Qed.

Lemma worker_run_accounted header config ops : ∀ inputs s,
  mapped_textures_whole → ec_max_fps config ≠ 0 → Forall fitting ops →
  worker_accounted header config inputs s →
  ∃ s', worker_run ops s = Some s' ∧ worker_accounted header config (inputs ++ omap asked ops) s'.
Proof.
  induction ops as [|op ops IH]; intros inputs s Hm Hc Hf Hacc.
  { exists s. split; [done|]. cbn. by rewrite app_nil_r. }
  inversion Hf as [|? ? Hop Hops]; subst.
  assert (is_Some (worker_op s op)) as [s1 E1].
  { destruct op as [frame force before after|before after]; [|done]. destruct Hop.
    destruct (NativeEncoder_encode_total (fst s) frame force before after Hm) as [[r e'] E]; [done..| |].
    - rewrite (wa_config _ _ _ _ Hacc). by intros ? [= <-].
    - cbn [worker_op]. by rewrite E. }
  pose proof (worker_op_accounted _ _ _ _ _ _ Hacc E1) as Hacc1.
  destruct (IH _ s1 Hm Hc Hops Hacc1) as (s' & E & Hacc'). exists s'.
  unfold worker_run. cbn [for_each]. rewrite E1. split; [done|].
  rewrite <-app_assoc in Hacc'. by destruct (asked op) eqn:Ea; cbn in *; rewrite Ea.
Qed.

Lemma sequence_header_from_type_Ok blob h :
  sequence_header_from_type blob = Ok h → h ≠ [] ∧ ∃ b size, blob = Some (b, size) ∧ h = take (Z.to_nat size) b.
Proof.
  unfold sequence_header_from_type. destruct blob as [[b n]|]; [|done]. cbn.
  destruct (len b =? 0); [done|]. cbn. destruct (_ || _) eqn:E; [done|]. intros [= <-]. split; [|eauto].
  intros E0. by rewrite E0 in E.
Qed.

(** The sequence header that a transform reported with its negotiated type. *)
Definition negotiated_header (e0 : encoder) (config : EncoderConfig) (header : bytes) : Prop :=
  ∃ t n t' blob size, ne_transform e0 = Some t ∧ mft_negotiate t config = (n, t') ∧
    ng_header n = Some (blob, size) ∧ header = take (Z.to_nat size) blob ∧ header ≠ [].

Lemma configure_accounted e0 config e :
  NativeEncoder_configure e0 config = (Ok tt, e) →
  ∃ header, negotiated_header e0 config header ∧ worker_accounted header config [] (e, []) ∧
    ∀ held unit_time, stamping held unit_time → linked_with held unit_time header [] e.
Proof.
  unfold NativeEncoder_configure. destruct (_ || _); [done|].
  destruct (ne_transform e0) as [t0|] eqn:Et; [|done]. destruct (mft_negotiate t0 config) as [n t] eqn:En.
  destruct (ng_attributes n); [done|]. destruct (_ && _); [done|]. destruct (ng_types n); [done|].
  destruct (sequence_header_from_type _) as [h|] eqn:Eh; [|done]. intros [= <-]. exists h.
  destruct (sequence_header_from_type_Ok _ _ Eh) as (Hne & b & size & Eb & ->). split_and!.
  - by exists t0, n, t, b, size.
  - split; cbn; [done..|by split|]. by exists [].
  - intros held unit_time Hst. split; cbn; [done|constructor..|]. exists t. split; [done|].
    by rewrite (sg_negotiate _ _ Hst _ _ _ _ En).
Qed.

(** The operations after which the worker is given up. *)
Definition worker_fails (s : encoder * list EncodedFrame) (op : WorkerOp) : bool :=
  match op with
  | Work_Encode frame force before after =>
      match NativeEncoder_encode (fst s) frame force before after with
      | Some (r, _) => response_requires_worker_shutdown r
      | None => true
      end
  | Work_Pump before after => negb (is_ok (fst (NativeEncoder_pump (fst s) before after)))
  end.
Fixpoint clean_run (ops : list WorkerOp) (s : encoder * list EncodedFrame) : bool :=
  match ops with
  | [] => true
  | op :: ops => negb (worker_fails s op) && from_option (clean_run ops) false (worker_op s op)
  end.

Lemma encode_links held unit_time header e frame force before after r e' :
  stamping held unit_time → linked_with held unit_time header [] e →
  NativeEncoder_encode e frame force before after = Some (r, e') → response_requires_worker_shutdown r = false →
  linked_with held unit_time header [] e' ∧ ∀ o, r = Ok o → stamped unit_time header o.
Proof.
  intros Hst Hl E Hr.
  destruct (NativeEncoder_encode_cases _ _ _ _ _ _ _ E) as [(err & -> & ->)|(sample & input & [= <-] & Ht & Hs)];
    [done|].
  pose proof (submit_frame_links held unit_time Hst header e sample (mkPendingInput (fr_frame_id frame)
    (fr_timestamp_us frame) (fr_timestamp_us frame * 10) force) before after eq_refl Ht Hl) as Hl1.
  destruct (submit_frame e sample _ before after) as [[?|err] e1].
  - unfold take_pending_output in Hs. destruct (ne_pending_outputs e1) as [|o os] eqn:Eo; injection Hs as -> ->; [done|].
    destruct Hl1 as [? ? ? ? Hos ?]. rewrite Eo in Hos. apply Forall_cons in Hos as [Ho Hos].
    split; [by split|]. by intros ? [= <-].
  - destruct Hs as [-> ->]. by destruct err.
Qed.

Lemma clean_run_stamped held unit_time header ops : ∀ s s',
  stamping held unit_time → linked_with held unit_time header [] (fst s) → Forall (stamped unit_time header) (snd s) →
  clean_run ops s = true → worker_run ops s = Some s' →
  Forall (stamped unit_time header) (snd s' ++ ne_pending_outputs (fst s')).
Proof.
  induction ops as [|op ops IH]; intros [e out] s' Hst Hl Ho Hc; cbn.
  { intros [= <-]. apply Forall_app. split; [done|]. by destruct Hl. }
  intros (s1 & E1 & E)%bind_Some. cbn in Hc. rewrite E1 in Hc. apply andb_true_iff in Hc as [Hf%negb_true_iff Hc].
  revert E. apply (IH s1 s' Hst); [| |exact Hc]; destruct op as [frame force before after|before after]; cbn in E1, Hf.
  - apply bind_Some in E1 as ([r e'] & Er & [= <-]). rewrite Er in Hf. by eapply encode_links.
  - injection E1 as <-. pose proof (NativeEncoder_pump_links held unit_time Hst header e before after Hl) as Hp.
    by destruct (NativeEncoder_pump e before after) as [[] e'].
  - apply bind_Some in E1 as ([r e'] & Er & [= <-]). rewrite Er in Hf. cbn. apply Forall_app. split; [done|].
    destruct (encode_links _ _ _ _ _ _ _ _ _ _ Hst Hl Er Hf) as [_ Hs]. destruct r; repeat constructor. by apply Hs.
  - by injection E1 as <-.
Qed.

(** C25. A configured encoder worker accounts for its frames, whatever the transform
    does (asynchronous or not, with every order of its events, outputs that carry a time
    or none, and failures anywhere): it never panics; every frame it answers with or holds
    is the coding of a different input it was asked to encode, with that input's
    identifier and timestamp, and is a keyframe if the input forced one; a keyframe starts
    with the sequence header that the transform reported when it was configured; no input
    is both coded and still awaited; and its three queues hold at most eight entries each.
    When the transform stamps each access unit with the time of the sample it codes, in
    whatever order it delivers them, then until an operation fails and the worker is given
    up every frame has the timestamp of the very sample that it codes.  The video
    processor is relied on for textures that hold all their rows. *)
Theorem encoder_frames_accounted e0 config e ops :
  mapped_textures_whole → NativeEncoder_configure e0 config = (Ok tt, e) →
  ec_max_fps config ≠ 0 → Forall fitting ops →
  ∃ header e' returned matched,
    worker_run ops (e, []) = Some (e', returned) ∧ negotiated_header e0 config header ∧
    Forall2 (coded (Some header)) matched (returned ++ ne_pending_outputs e') ∧
    matched ++ in_flight e' ⊆+ omap asked ops ∧ queues_bounded e' ∧
    ∀ held unit_time, stamping held unit_time → clean_run ops (e, []) = true →
      Forall (stamped unit_time header) (returned ++ ne_pending_outputs e').
Proof.
  intros Hm Hc Hfps Hf. destruct (configure_accounted _ _ _ Hc) as (header & Hne & Hacc & Hlink).
  destruct (worker_run_accounted header config ops [] _ Hm Hfps Hf Hacc) as ([e' out] & E & [? ? ? ? (m & ? & ?)]).
  exists header, e', out, m. split_and!; [done..|]. intros held unit_time Hst Hcl.
  exact (clean_run_stamped held unit_time header ops (e, []) (e', out) Hst (Hlink _ _ Hst) (Forall_nil_2 _) Hcl E).
Qed.
End accounting.

(** ** A first-in first-out transform *)

(** Its access units carry the time of their sample. *)
Definition fifo_unit (time : Z) : bytes := x65 :: @prost_encode _ (countable_prost Z) time.
Definition fifo_time (unit : bytes) : Z := default 0 (@prost_decode _ (countable_prost Z) (tail unit)).
#[local] Arguments fifo_unit : simpl never.
#[local] Arguments fifo_time : simpl never.
Lemma fifo_time_unit time : fifo_time (fifo_unit time) = time.
Proof. unfold fifo_time, fifo_unit. cbn [tail]. by rewrite (@prost_decode_encode _ _ (countable_prost_laws Z)). Qed.

Record FifoMft := mkFifoMft { fm_async : bool; fm_queue : list (Z * bool); fm_force : bool }.
#[global] Instance fifo_mft : EncoderMft FifoMft := {|
  mft_negotiate t _ := (mkNegotiation None (fm_async t) None (Some ([x00; x00; x01; x67], 4)) false,
    mkFifoMft (fm_async t) [] false);
  mft_make_sample _ _ := None;
  mft_stamp_sample _ _ _ := None;
  mft_force_keyframe t := Ok (mkFifoMft (fm_async t) (fm_queue t) true);
  mft_process_input t s :=
    Ok (mkFifoMft (fm_async t) (fm_queue t ++ [(is_time s, fm_force t)]) false);
  mft_output_info _ := Ok (true, 0, 0);
  mft_output_buffer _ _ := None;
  mft_process_output t :=
    match fm_queue t with
    | [] => (Process_Err Hr_NeedMoreInput, t)
    | (time, key) :: queue =>
        (Process_Ok 0 (Some (mkOutputSample (Some time) key (Ok (fifo_unit time)))),
         mkFifoMft (fm_async t) queue (fm_force t))
    end;
  mft_end_stream t := Ok t;
  mft_flush t := Ok t;
  mft_video_process _ _ := Err Hr_DeviceRemoved
|}.
Definition fifo_config : EncoderConfig := mkEncoderConfig Codec_H264 2 2 30 1000.
Definition fifo_frame (id : Z) : CapturedFrame :=
  mkCapturedFrame id (1000 * id) 2 2 Pixel_Bgra8 (replicate 16 x00).
Definition fifo_start (async : bool) : NativeEncoder FifoMft :=
  NativeEncoder_start (mkFifoMft async [] false) true.
(** Two frames of an asynchronous transform: the second is coded after the first. *)
Definition fifo_ops : list WorkerOp :=
  [Work_Encode (fifo_frame 1) true [Ok Event_NeedInput] [];
   Work_Encode (fifo_frame 2) false [Ok Event_HaveOutput; Ok Event_NeedInput] [];
   Work_Pump [] [Ok Event_HaveOutput]].
Lemma fifo_textures : mapped_textures_whole (T := FifoMft).
Proof. done. Qed.
Lemma fifo_stamping : stamping (T := FifoMft) (λ t, fst <$> fm_queue t) fifo_time.
Proof.
  split; cbn.
  - by intros t config n t' [= <- <-].
  - by intros t t' [= <-].
  - intros t s t' [= <-]. cbn. rewrite fmap_app. by rewrite Permutation_app_comm.
  - intros t t'. destruct (fm_queue t) as [|[time key] q] eqn:E; intros [= <-]. by rewrite E.
  - intros t status sample t'. destruct (fm_queue t) as [|[time key] q] eqn:E; [done|]. intros [= <- <- <-].
    intros [?|[?|(s & [= <-] & [=])]]; done.
  - intros t status s d t'. destruct (fm_queue t) as [|[time key] q]; [done|].
    intros [= <- <- <-] _ [= <-] _. cbn [os_time fm_queue fmap list_fmap fst].
    by rewrite fifo_time_unit.
  - intros t status s t'. destruct (fm_queue t) as [|[time key] q]; [done|]. by intros [= <- <- <-].
Qed.
Lemma encoder_frames_accounted_witness :
  let e := snd (NativeEncoder_configure (fifo_start true) fifo_config) in
  enc_frame_id <$> snd (default (e, []) (worker_run fifo_ops (e, []))) = [1] ∧
  ∃ header e' returned matched,
    worker_run fifo_ops (e, []) = Some (e', returned) ∧ header = [x00; x00; x01; x67] ∧
    Forall2 (coded (Some header)) matched (returned ++ ne_pending_outputs e') ∧
    matched ++ in_flight e' ⊆+ omap asked fifo_ops ∧ queues_bounded e' ∧
    Forall (stamped fifo_time header) (returned ++ ne_pending_outputs e').
Proof.
  intros e. split; [vm_compute; reflexivity|].
  destruct (encoder_frames_accounted (fifo_start true) fifo_config e fifo_ops fifo_textures)
    as (header & e' & returned & matched & H1 & (t & n & t' & blob & size & [= <-] & [= <- <-] & [= <- <-] & H2 & _) &
        H3 & H4 & H5 & H6).
  - vm_compute; reflexivity.
  - done.
  - repeat constructor; cbn; lia.
  - exists header, e', returned, matched. split_and!; try assumption. apply (H6 _ _ fifo_stamping).
    vm_compute; reflexivity.
Defined.

(** ** Keyframes that are owed *)

Inductive WindowsOp :=
  | Win_Configure (config : EncoderConfig) | Win_Encode (frame : CapturedFrame)
  | Win_RequestKeyframe | Win_Reconfigure (config : EncoderConfig).
(** A keyframe came to be owed, or the transform was given a frame with a flag and took it
    or not. *)
Inductive KeyframeEvent := Key_Owed | Key_Asked (force taken : bool).
Definition owed (log : list KeyframeEvent) : bool :=
  foldl (λ o ev, match ev with Key_Owed => true | Key_Asked _ taken => o && negb taken end) false log.
Definition resized (previous : option EncoderConfig) (config : EncoderConfig) : bool :=
  match previous with
  | None => true
  | Some p => negb (ec_width p =? ec_width config) || negb (ec_height p =? ec_height config)
  end.
Definition takes {A} (r : result CodecError A) : bool :=
  match r with Ok _ | Err Codec_OutputPending => true | Err _ => false end.

(** A transform with a record of what it is asked. *)
Record Recorder (X : Type) := mkRecorder { re_transform : X; re_asked : list KeyframeEvent }.
Arguments mkRecorder {X} _ _.
Arguments re_transform {X} _.
Arguments re_asked {X} _.
#[global] Instance recorder_transform {X} `{EncoderTransform X} : EncoderTransform (Recorder X) := {|
  transform_configure m config :=
    '(r, x) ← transform_configure (re_transform m) config; Some (r, mkRecorder x (re_asked m));
  transform_encode m frame force :=
    '(r, x) ← transform_encode (re_transform m) frame force;
    Some (r, mkRecorder x (re_asked m ++ [Key_Asked force (takes r)]));
  transform_drain m := '(r, x) ← transform_drain (re_transform m); Some (r, mkRecorder x (re_asked m))
|}.

Section owed_keyframes.
Context {X : Type} `{EncoderTransform X}.
Abbreviation encoder := (WindowsH264Encoder (Recorder X)).

(** The record, to which the events of the caller are added. *)
Definition record_of (e : encoder) : list KeyframeEvent := re_asked (we_transform e).
Definition record_owed (e : encoder) (b : bool) : encoder :=
  mkWindowsH264Encoder (we_config e)
    (mkRecorder (re_transform (we_transform e)) (record_of e ++ if b then [Key_Owed] else []))
    (we_force_next_keyframe e).
(** An operation, and the number of frames that were answered as taken. *)
Definition windows_op (s : encoder * nat) (op : WindowsOp) : option (encoder * nat) :=
  let '(e, n) := s in
  match op with
  | Win_Configure config =>
      '(r, e') ← windows_configure e config; Some (record_owed e' (is_ok r), n)
  | Win_Encode frame =>
      '(r, e') ← windows_encode e frame; Some (e', if takes r then S n else n)
  | Win_RequestKeyframe => Some (record_owed (snd (windows_request_keyframe e)) true, n)
  | Win_Reconfigure config =>
      '(r, e') ← windows_reconfigure e config;
      Some (record_owed e' (is_ok r && resized (we_config e) config), n)
  end.

Definition taken_in (log : list KeyframeEvent) : nat :=
  length (List.filter (λ ev, match ev with Key_Asked _ taken => taken | Key_Owed => false end) log).

Lemma owed_app log log' : owed (log ++ log') = foldl (λ o ev,
  match ev with Key_Owed => true | Key_Asked _ taken => o && negb taken end) (owed log) log'.
Proof. unfold owed. by rewrite foldl_app. Qed.

Lemma EncoderConfig_validate_same c c' : EncoderConfig_validate c = Ok c' → c' = c.
Proof. unfold EncoderConfig_validate. destruct (_ || _); by intros [= <-]. Qed.

(** What a step adds to the record. *)
Record op_recorded (e : encoder) (n : nat) (e' : encoder) (n' : nat) (new : list KeyframeEvent) : Prop := {
  or_record : record_of e' = record_of e ++ new;
  or_flag : we_force_next_keyframe e = owed (record_of e) → we_force_next_keyframe e' = owed (record_of e');
  or_new : new = [] ∧ n' = n ∨ new = [Key_Owed] ∧ n' = n ∨
    ∃ taken : bool, new = [Key_Asked (we_force_next_keyframe e) taken] ∧ n' = if taken then S n else n
}.

Lemma configure_recorded e n config r e' :
  windows_configure e config = Some (r, e') →
  op_recorded e n (record_owed e' (is_ok r)) n (if is_ok r then [Key_Owed] else []).
Proof.
  unfold windows_configure. destruct (EncoderConfig_validate config) as [v|].
  - cbn. intros ([r1 x] & ([r2 y] & _ & [= <- <-])%bind_Some & [= E])%bind_Some.
    destruct r2; injection E as <- <-; split; unfold record_of, record_owed; cbn; rewrite ?app_nil_r; auto.
    intros _. by rewrite owed_app.
  - intros [= <- <-]. split; unfold record_of, record_owed; cbn; rewrite ?app_nil_r; auto.
Qed.
Lemma encode_recorded e n frame r e' :
  windows_encode e frame = Some (r, e') → ∃ new, op_recorded e n e' (if takes r then S n else n) new.
Proof.
  assert (∀ err, takes (Err err : result CodecError EncodedFrame) = false →
    op_recorded e n e (if takes (Err err : result CodecError EncodedFrame) then S n else n) []) as Hsame.
  { intros err ->. split; [by rewrite app_nil_r|done|by left]. }
  unfold windows_encode. destruct (we_config e); [|intros [= <- <-]; eauto].
  destruct (_ || _); [intros [= <- <-]; eauto|].
  destruct (fr_format frame); [intros [= <- <-]; eauto|].
  destruct (CapturedFrame_validate frame); [|intros [= <- <-]; eauto]. cbn.
  intros ([r1 x] & ([r2 y] & _ & [= <- <-])%bind_Some & [= <- <-])%bind_Some.
  eexists. split; [unfold record_of; cbn; reflexivity| |right; right; by eexists].
  unfold record_of. cbn. intros Hf. rewrite owed_app, Hf. cbn. destruct (owed _), r2 as [|[]]; done.
Qed.
Lemma reconfigure_recorded e n config r e' :
  windows_reconfigure e config = Some (r, e') →
  ∃ new, op_recorded e n (record_owed e' (is_ok r && resized (we_config e) config)) n new.
Proof.
  unfold windows_reconfigure. destruct (EncoderConfig_validate config) as [v|] eqn:Ev; cycle 1.
  { intros [= <- <-]. exists []. split; unfold record_of, record_owed; cbn; rewrite ?app_nil_r; auto. }
  pose proof (EncoderConfig_validate_same _ _ Ev) as ->.
  destruct (we_config e) as [previous|]; cbn [resized]; cycle 1.
  { intros E. rewrite andb_true_r. eexists. exact (configure_recorded _ _ _ _ _ E). }
  cbn. intros ([r1 x] & ([r2 y] & _ & [= <- <-])%bind_Some & E)%bind_Some. destruct r2; cycle 1.
  { injection E as <- <-. exists []. split; unfold record_of, record_owed; cbn; rewrite ?app_nil_r; auto. }
  apply bind_Some in E as ([r3 z] & ([r4 w] & _ & [= <- <-])%bind_Some & [= E]).
  destruct r4; injection E as <- <-; cycle 1.
  { exists []. split; unfold record_of, record_owed; cbn; rewrite ?app_nil_r; auto. }
  cbn [is_ok andb]. eexists. split; [unfold record_of, record_owed; cbn; reflexivity| |destruct (_ || _); auto].
  unfold record_of, record_owed. cbn. intros ->. rewrite <-orb_assoc.
  destruct (_ || negb (_ =? ec_height config)); rewrite ?app_nil_r, ?owed_app, ?orb_true_r, ?orb_false_r; done.
Qed.
Lemma windows_op_recorded e n op e' n' :
  windows_op (e, n) op = Some (e', n') → ∃ new, op_recorded e n e' n' new.
Proof.
  destruct op as [c|f| |c]; cbn [windows_op].
  - intros ([r e1] & E & [= <- <-])%bind_Some. eexists. exact (configure_recorded _ _ _ _ _ E).
  - intros ([r e1] & E & [= <- <-])%bind_Some. by eapply encode_recorded.
  - intros [= <- <-]. exists [Key_Owed]. split; unfold record_of, record_owed; cbn; [done| |auto].
    intros _. by rewrite owed_app.
  - intros ([r e1] & E & [= <- <-])%bind_Some. by eapply reconfigure_recorded.
Qed.

(** C29. The encoder's flag implements what is owed: over every sequence of
    configurations, frames, keyframe requests and reconfigurations, with every failure of
    the transform, a keyframe is owed from a first configuration, a change of size or a
    request until the transform takes a frame, and no longer; whenever the transform is
    given a frame it is asked for a keyframe exactly when one is owed, and a frame it
    refuses does not use the request up; and the frames answered as taken are those that
    the transform took. *)
Theorem keyframe_request_kept x ops e n :
  for_each ops windows_op (WindowsH264Encoder_new (mkRecorder x []), O) = Some (e, n) →
  we_force_next_keyframe e = owed (record_of e) ∧ n = taken_in (record_of e) ∧
  ∀ before force taken after, record_of e = before ++ Key_Asked force taken :: after → force = owed before.
Proof.
  assert (∀ ops e0 n0, we_force_next_keyframe e0 = owed (record_of e0) → n0 = taken_in (record_of e0) →
    (∀ b f t a, record_of e0 = b ++ Key_Asked f t :: a → f = owed b) →
    for_each ops windows_op (e0, n0) = Some (e, n) →
    we_force_next_keyframe e = owed (record_of e) ∧ n = taken_in (record_of e) ∧
    ∀ b f t a, record_of e = b ++ Key_Asked f t :: a → f = owed b) as Hgen.
  { clear ops. induction ops as [|op ops IH]; intros e0 n0 Hf Hn Hl; cbn [for_each].
    { by intros [= <- <-]. }
    intros E. apply bind_Some in E as ([e1 n1] & E1 & E).
    destruct (windows_op_recorded _ _ _ _ _ E1) as [new [Hr Hf1 Hnew]]. specialize (Hf1 Hf).
    revert E. apply IH; [exact Hf1|..]; rewrite Hr.
    - unfold taken_in in *. rewrite List.filter_app, length_app.
      destruct Hnew as [[-> ->]|[[-> ->]|([] & -> & ->)]]; cbn; lia.
    - intros b f t a El. destruct Hnew as [[-> _]|[[-> _]|(t0 & -> & _)]]; [rewrite app_nil_r in El; by eapply Hl|..];
        destruct a as [|ev a _] using rev_ind.
      + apply app_inj_tail in El as [_ [=]].
      + rewrite app_comm_cons, app_assoc in El. apply app_inj_tail in El as [El _]. by eapply Hl.
      + apply app_inj_tail in El as [<- [= <- _]]. done.
      + rewrite app_comm_cons, app_assoc in El. apply app_inj_tail in El as [El _]. by eapply Hl. }
  apply Hgen; [done..|]. intros [] ? ? ? [=].
Qed.
End owed_keyframes.

Definition fifo_transform (async : bool) (schedule : list RequestEnv) :
    MediaFoundationTransform FifoMft :=
  mkMediaFoundationTransform true true (fifo_start async) schedule.
Lemma keyframe_request_kept_witness :
  let ops := [Win_Configure fifo_config; Win_Encode (fifo_frame 1); Win_Encode (fifo_frame 2);
    Win_RequestKeyframe; Win_Encode (fifo_frame 3)] in
  let s := for_each ops windows_op (WindowsH264Encoder_new (mkRecorder (fifo_transform false []) []), O) in
  (λ s, record_of (fst s)) <$> s = Some [Key_Owed; Key_Asked true true; Key_Asked false true; Key_Owed;
    Key_Asked true true] ∧
  match s with Some (e, n) => we_force_next_keyframe e = owed (record_of e) ∧ n = taken_in (record_of e)
             | None => False end.
Proof.
  intros ops s. split; [vm_compute; reflexivity|]. destruct s as [[e n]|] eqn:E.
  - destruct (keyframe_request_kept _ _ _ _ E) as (H1 & H2 & _). exact (conj H1 H2).
  - vm_compute in E. discriminate E.
Defined.

(** ** An odd size ends the encoder *)

Section odd_sizes.
Context {T : Type} `{EncoderMft T}.

Definition odd_config : EncoderConfig := mkEncoderConfig Codec_H264 1365 768 30 1000.

(** A size that is not even passes the validation of configurations and is refused
    only by the worker; the answer, like every error but the one of pending output, takes
    the channel to the worker away, so that every later configuration, the valid ones
    included, and every frame is answered with the loss of the backend. *)
Theorem odd_configuration_disables_encoder (m : MediaFoundationTransform T) :
  mt_commands m = true → mt_alive m = true →
  re_answered (default quiet_env (head (mt_schedule m))) = true →
  re_idle (default quiet_env (head (mt_schedule m))) = [] →
  EncoderConfig_validate odd_config = Ok odd_config ∧
  ∃ e, windows_configure (WindowsH264Encoder_new m) odd_config = Some (Err Codec_InvalidDimensions, e) ∧
    ∀ config, EncoderConfig_validate config = Ok config →
      windows_configure e config = Some (Err Codec_BackendLost, e) ∧
      windows_reconfigure e config = Some (Err Codec_BackendLost, e).
Proof.
  intros Hc Ha Hr Hi. split; [done|].
  eexists (mkWindowsH264Encoder None (mt_with m false true (mt_worker m)) false). split.
  - unfold windows_configure. cbn -[default head mt_request NativeEncoder_configure].
    unfold mt_request. rewrite Hc, Ha, Hi. cbn -[default head]. by rewrite Hr.
  - intros config Hv. unfold windows_reconfigure, windows_configure. rewrite Hv. cbn.
    by rewrite Hv.
Qed.
End odd_sizes.

Lemma odd_configuration_disables_encoder_witness :
  ∃ e, windows_configure (WindowsH264Encoder_new (fifo_transform false [])) odd_config =
      Some (Err Codec_InvalidDimensions, e) ∧
    ∀ config, EncoderConfig_validate config = Ok config →
      windows_configure e config = Some (Err Codec_BackendLost, e) ∧
      windows_reconfigure e config = Some (Err Codec_BackendLost, e).
Proof. by apply (odd_configuration_disables_encoder (fifo_transform false [])). Defined.
