(* ===== verification/WinCapture.v ===== *)
(** * Windows desktop capture (platform/windows/src/capture.rs)

    The copy of a mapped texture, the two capture sessions (Windows.Graphics.Capture and
    desktop duplication) with the answers of the native calls as data, and the capture
    source with its worker thread.  [None] is a panic, except where a wait is said to go
    on. *)

From S2P Require Import Prelude Capture Surface Input.

Open Scope Z_scope.

(** ** Native errors *)

(** HRESULTs as the [i32] they are. *)
Definition WGC_EMPTY_INTERFACE_SENTINEL : Z := from_be_bytes [x53; x5f; x4f; x4b].
Definition classify_windows_error_code (code : Z) (fallback : BackendErrorKind) : BackendErrorKind :=
  let code := wrap 32 code in
  if code =? 0x80070005 then PermissionDenied else
  if existsb (Z.eqb code)
      [0x887A0026; 0x887A0005; 0x887A0007; 0x887A0028; 0x887A0006; 0x887A0020] then DeviceLost else
  if code =? 0x887A0027 then FrameUnavailable else
  if code =? 0x887A0004 then UnsupportedApi else fallback.
Definition is_wgc_pool_empty_error_code (code : Z) : bool :=
  (code =? 0) || (code =? WGC_EMPTY_INTERFACE_SENTINEL).

(** [map_err(classify_windows_error)] of a native call. *)
Definition native {A} (fallback : BackendErrorKind) (r : result Z A) : BackendResult A :=
  match r with Ok a => Ok a | Err code => Err (classify_windows_error_code code fallback) end.

Definition finish_acquired_frame {A} (frame_result : BackendResult A)
    (release_result : BackendResult unit) : BackendResult A :=
  match release_result with Err e => Err e | Ok _ => frame_result end.
Definition record_close_result (overall : BackendResult unit) (native_result : result Z unit) :
    BackendResult unit :=
  match overall with Ok _ => native NativeFailure native_result | Err e => Err e end.

(** ** Textures *)

Definition copy_bgra_rows (source : bytes)
    (allocation_width allocation_height content_width content_height row_pitch : Z) :
    option (BackendResult bytes) :=
  if (allocation_width =? 0) || (allocation_height =? 0) || (content_width =? 0)
    || (content_height =? 0) || (allocation_width <? content_width)
    || (allocation_height <? content_height)
  then Some (Err InvalidFrame) else
  match
    allocation_row_bytes ← ok_or (checked_mul usize_max allocation_width 4) InvalidFrame;
    guard! row_pitch <? allocation_row_bytes else InvalidFrame ;;
    content_row_bytes ← ok_or (checked_mul usize_max content_width 4) InvalidFrame;
    preceding_rows ← ok_or (checked_mul usize_max (content_height - 1) row_pitch) InvalidFrame;
    required_source_len ← ok_or (checked_add usize_max preceding_rows content_row_bytes) InvalidFrame;
    guard! len source <? required_source_len else InvalidFrame ;;
    _ ← ok_or (checked_mul usize_max content_row_bytes content_height) InvalidFrame;
    Ok content_row_bytes
  with
  | Err e => Some (Err e)
  | Ok content_row_bytes =>
      for_each (seq 0 (Z.to_nat content_height)) (λ (output : BackendResult bytes) row,
        match output with
        | Err e => Some (Err e)
        | Ok output =>
            match checked_mul usize_max (Z.of_nat row) row_pitch with
            | None => Some (Err InvalidFrame)
            | Some start =>
                r ← slice_at source (Z.to_nat start) (Z.to_nat content_row_bytes);
                Some (Ok (output ++ r))
            end
        end) (Ok [])
  end.

(** A texture: its description and what copying it to memory answers, [tx_memory] the
    mapped bytes ([None] a null pointer) with their pitch. *)
Record Texture := mkTexture {
  tx_width : Z; tx_height : Z; tx_bgra : bool;
  tx_staging : result Z bool;
  tx_map : result Z (option bytes * Z)
}.

Definition mapped_texture_bytes (mapped : option bytes * Z)
    (allocation_width allocation_height content_width content_height : Z) :
    option (BackendResult bytes) :=
  let '(pData, row_pitch) := mapped in
  match pData with
  | None => Some (Err InvalidFrame)
  | Some memory =>
      if (allocation_width =? 0) || (allocation_height =? 0) || (content_width =? 0)
        || (content_height =? 0) || (allocation_width <? content_width)
        || (allocation_height <? content_height)
      then Some (Err InvalidFrame) else
      match
        content_row_bytes ← ok_or (checked_mul usize_max content_width 4) InvalidFrame;
        allocation_row_bytes ← ok_or (checked_mul usize_max allocation_width 4) InvalidFrame;
        guard! row_pitch <? allocation_row_bytes else InvalidFrame ;;
        ok_or (preceding ← checked_mul usize_max (content_height - 1) row_pitch;
               checked_add usize_max preceding content_row_bytes) InvalidFrame
      with
      | Err e => Some (Err e)
      | Ok mapped_len =>
          source ← slice_at memory 0 (Z.to_nat mapped_len);
          copy_bgra_rows source allocation_width allocation_height content_width content_height
            row_pitch
      end
  end.

Definition copy_texture (texture : Texture) (frame_id timestamp_us : Z)
    (content_size : option (Z * Z)) : option (BackendResult CapturedFrame) :=
  if (tx_width texture =? 0) || (tx_height texture =? 0) || negb (tx_bgra texture)
  then Some (Err InvalidFrame) else
  let '(content_width, content_height) := default (tx_width texture, tx_height texture) content_size in
  match
    staging ← native NativeFailure (tx_staging texture);
    guard! negb staging else NativeFailure ;;
    native NativeFailure (tx_map texture)
  with
  | Err e => Some (Err e)
  | Ok mapped =>
      copy_result ← mapped_texture_bytes mapped (tx_width texture) (tx_height texture)
        content_width content_height;
      Some (data ← copy_result;
        let frame := mkCapturedFrame frame_id timestamp_us content_width content_height
          Pixel_Bgra8 data in
        match CapturedFrame_validate frame with Err _ => Err InvalidFrame | Ok _ => Ok frame end)
  end.

(** ** The newest frame of a pool *)

Section drain.
Context {A : Type} (discard : A → BackendResult unit).

(** The answers of [next], those after the last one being that there is no frame; with the
    frames given to [discard] in order, and the answers that are left. *)
Abbreviation answers := (list (BackendResult (option A))).
Fixpoint drain_newest_loop (newest : option A) (closed : list A) (pool : answers) :
    BackendResult A * list A * answers :=
  match pool with
  | [] => (ok_or newest FrameUnavailable, closed, [])
  | Ok None :: pool => (ok_or newest FrameUnavailable, closed, pool)
  | Err e :: pool => (Err e, closed ++ option_list newest, pool)
  | Ok (Some frame) :: pool =>
      match newest with
      | None => drain_newest_loop (Some frame) closed pool
      | Some stale =>
          match discard stale with
          | Err e => (Err e, closed ++ [stale; frame], pool)
          | Ok _ => drain_newest_loop (Some frame) (closed ++ [stale]) pool
          end
      end
  end.
Definition drain_newest_available_frame (notifications : Z) (pool : answers) :
    BackendResult A * list A * answers :=
  if notifications =? 0 then (Err FrameUnavailable, [], pool) else drain_newest_loop None [] pool.
End drain.

(** ** Windows.Graphics.Capture *)

Record SizeInt32 := mkSizeInt32 { sz_width : Z; sz_height : Z }.
#[global] Instance SizeInt32_eq_dec : EqDecision SizeInt32.
Proof. solve_decision. Defined.
Definition validate_pool_size (size : SizeInt32) : BackendResult unit :=
  if (sz_width size <=? 0) || (sz_height size <=? 0) then Err InvalidFrame else Ok tt.

(** A frame of the pool: the answers of its methods; [wf_time] in units of 100 ns. *)
Record WgcFrame := mkWgcFrame {
  wf_content_size : result Z SizeInt32;
  wf_time : result Z Z;
  wf_texture : result Z Texture;
  wf_close : result Z unit
}.

(** The session with what its callbacks share: the token of the channel of capacity one,
    the count of notifications and the flag of a closed item. *)
Record WgcSession := mkWgcSession {
  wg_pool : list (result Z WgcFrame);
  wg_frame_ready : bool;
  wg_pending_frames : Z;
  wg_closed : bool;
  wg_pool_size : SizeInt32;
  wg_frame_id : Z;
  wg_stopped : bool
}.

(** What happens beside the worker: a frame (or an error) becomes available, its
    notification is delivered, the item is closed. *)
Inductive WgcEvent := Wgc_Pooled (answer : result Z WgcFrame) | Wgc_FrameArrived | Wgc_ItemClosed.
Definition wgc_event (s : WgcSession) (ev : WgcEvent) : WgcSession :=
  match ev with
  | Wgc_Pooled answer => mkWgcSession (wg_pool s ++ [answer]) (wg_frame_ready s) (wg_pending_frames s)
      (wg_closed s) (wg_pool_size s) (wg_frame_id s) (wg_stopped s)
  | Wgc_FrameArrived => mkWgcSession (wg_pool s) true (saturating_add usize_max (wg_pending_frames s) 1)
      (wg_closed s) (wg_pool_size s) (wg_frame_id s) (wg_stopped s)
  | Wgc_ItemClosed => mkWgcSession (wg_pool s) true (wg_pending_frames s) true (wg_pool_size s)
      (wg_frame_id s) (wg_stopped s)
  end.
Definition wgc_events (s : WgcSession) (evs : list WgcEvent) : WgcSession := foldl wgc_event s evs.

(** One turn of the loop beside the worker: what happens during the wait for a
    notification (at most [FRAME_TIMEOUT]), between it and the count being taken, and
    between that and the pool being drained; and what recreating the pool answers. *)
Record WgcTurn := mkWgcTurn {
  tn_waiting : list WgcEvent; tn_counting : list WgcEvent; tn_draining : list WgcEvent;
  tn_recreate : result Z unit
}.

(** [TryGetNextFrame], with the flag of the item as it is when the call fails. *)
Definition wgc_next (closed : bool) (answer : result Z WgcFrame) : BackendResult (option WgcFrame) :=
  match answer with
  | Ok frame => Ok (Some frame)
  | Err code =>
      if is_wgc_pool_empty_error_code code then Ok None else
      if closed then Err DeviceLost else Err (classify_windows_error_code code NativeFailure)
  end.

(** [close_wgc_frame], with the frames closed so far. *)
Definition close_wgc_frame {A} (frame : WgcFrame) (r : BackendResult A) (closed : list WgcFrame) :
    BackendResult A * list WgcFrame :=
  (finish_acquired_frame r (native NativeFailure (wf_close frame)), closed ++ [frame]).

Definition wg_set_pool (s : WgcSession) (pool : list (result Z WgcFrame)) : WgcSession :=
  mkWgcSession pool (wg_frame_ready s) (wg_pending_frames s) (wg_closed s) (wg_pool_size s)
    (wg_frame_id s) (wg_stopped s).
Definition wg_set_pool_size (s : WgcSession) (size : SizeInt32) : WgcSession :=
  mkWgcSession (wg_pool s) (wg_frame_ready s) (wg_pending_frames s) (wg_closed s) size
    (wg_frame_id s) (wg_stopped s).
Definition wg_set_frame_id (s : WgcSession) (id : Z) : WgcSession :=
  mkWgcSession (wg_pool s) (wg_frame_ready s) (wg_pending_frames s) (wg_closed s) (wg_pool_size s)
    id (wg_stopped s).
Definition wg_take_token (s : WgcSession) : WgcSession :=
  mkWgcSession (wg_pool s) false (wg_pending_frames s) (wg_closed s) (wg_pool_size s)
    (wg_frame_id s) (wg_stopped s).
Definition wg_take_count (s : WgcSession) : WgcSession :=
  mkWgcSession (wg_pool s) (wg_frame_ready s) 0 (wg_closed s) (wg_pool_size s)
    (wg_frame_id s) (wg_stopped s).

(** The frame taken from the pool, copied: the closure of [acquire_frame]. *)
Definition wgc_copy_frame (s : WgcSession) (frame : WgcFrame) (content_size : SizeInt32) :
    option (BackendResult CapturedFrame * WgcSession) :=
  match
    duration ← native NativeFailure (wf_time frame);
    let timestamp_us := Z.quot duration 10 in
    guard! timestamp_us <? 0 else InvalidFrame ;;
    texture ← native NativeFailure (wf_texture frame);
    Ok (timestamp_us, texture)
  with
  | Err e => Some (Err e, s)
  | Ok (timestamp_us, texture) =>
      let s := wg_set_frame_id s (saturating_add u64_max (wg_frame_id s) 1) in
      if (sz_width content_size <? 0) || (sz_height content_size <? 0) then Some (Err InvalidFrame, s)
      else r ← copy_texture texture (wg_frame_id s) timestamp_us
             (Some (sz_width content_size, sz_height content_size));
           Some (r, s)
  end.

(** How a turn ends: with an answer, or with another turn. *)
Inductive TurnEnd := Turn_Return (r : BackendResult CapturedFrame) | Turn_Continue.

(** A turn, with the frames it closed. *)
Definition wgc_turn (s : WgcSession) (turn : WgcTurn) : option (TurnEnd * list WgcFrame * WgcSession) :=
  let s := wgc_events s (tn_waiting turn) in
  if negb (wg_frame_ready s) then
    Some (Turn_Return (Err (if wg_closed s then DeviceLost else FrameUnavailable)), [], s) else
  let s := wg_take_token s in
  if wg_closed s then Some (Turn_Return (Err DeviceLost), [], s) else
  let s := wgc_events s (tn_counting turn) in
  let notifications := wg_pending_frames s in
  let s := wgc_events (wg_take_count s) (tn_draining turn) in
  let '(newest, closed, rest) :=
    drain_newest_available_frame (λ frame, native NativeFailure (wf_close frame)) notifications
      (wgc_next (wg_closed s) <$> wg_pool s) in
  let s := wg_set_pool s (drop (length (wg_pool s) - length rest) (wg_pool s)) in
  match newest with
  | Err FrameUnavailable => Some (Turn_Continue, closed, s)
  | Err e => Some (Turn_Return (Err e), closed, s)
  | Ok frame =>
      match (size ← native NativeFailure (wf_content_size frame);
             _ ← validate_pool_size size; Ok size) with
      | Err e =>
          let '(r, closed) := close_wgc_frame frame (Err e) closed in
          Some (Turn_Return r, closed, s)
      | Ok content_size =>
          if negb (bool_decide (content_size = wg_pool_size s)) then
            match close_wgc_frame frame (Ok tt) closed with
            | (Err e, closed) => Some (Turn_Return (Err e), closed, s)
            | (Ok _, closed) =>
                match native DeviceLost (tn_recreate turn) with
                | Err e => Some (Turn_Return (Err e), closed, s)
                | Ok _ => Some (Turn_Continue, closed, wg_set_pool_size s content_size)
                end
            end
          else
            '(r, s) ← wgc_copy_frame s frame content_size;
            let '(r, closed) := close_wgc_frame frame r closed in
            Some (Turn_Return r, closed, s)
      end
  end.

(** The loop over the turns; the inner [None]: still looping at the end of the list. *)
Fixpoint wgc_acquire_frame (s : WgcSession) (turns : list WgcTurn) :
    option (option (BackendResult CapturedFrame) * list WgcFrame * WgcSession) :=
  match turns with
  | [] => Some (None, [], s)
  | turn :: turns =>
      '(answer, closed, s) ← wgc_turn s turn;
      match answer with
      | Turn_Return r => Some (Some r, closed, s)
      | Turn_Continue =>
          '(r, closed', s) ← wgc_acquire_frame s turns;
          Some (r, closed ++ closed', s)
      end
  end.

Definition wgc_next_frame (s : WgcSession) (turns : list WgcTurn) :
    option (option (BackendResult CapturedFrame) * list WgcFrame * WgcSession) :=
  if wg_stopped s then Some (Some (Err Stopped), [], s) else wgc_acquire_frame s turns.

(** [stop], with the answers of the four native calls. *)
Definition wgc_stop (s : WgcSession) (remove_closed remove_arrived close_session close_pool : result Z unit) :
    BackendResult unit * WgcSession :=
  if wg_stopped s then (Ok tt, s) else
  (foldl record_close_result (Ok tt) [remove_closed; remove_arrived; close_session; close_pool],
   mkWgcSession (wg_pool s) (wg_frame_ready s) (wg_pending_frames s) (wg_closed s)
     (wg_pool_size s) (wg_frame_id s) true).

(** ** Starting a session *)

(** [D3dContext::create]: whether the device and its context were handed out. *)
Definition D3dContext_create (r : result Z (bool * bool)) : BackendResult unit :=
  '(device, immediate) ← native InitializationFailed r;
  guard! negb device else InitializationFailed ;;
  guard! negb immediate else InitializationFailed ;;
  Ok tt.

(** The answers of the native calls of [WgcSession::start], in order. *)
Record WgcStart := mkWgcStart {
  ws_supported : result Z bool; ws_d3d : result Z (bool * bool); ws_dxgi : result Z unit;
  ws_inspectable : result Z unit; ws_winrt : result Z unit; ws_interop : result Z unit;
  ws_monitor : bool; ws_item : result Z unit; ws_size : result Z SizeInt32;
  ws_pool : result Z unit; ws_arrived : result Z unit; ws_closed : result Z unit;
  ws_session : result Z unit; ws_capture : result Z unit
}.
Definition WgcSession_start (a : WgcStart) : BackendResult WgcSession :=
  supported ← native InitializationFailed (ws_supported a);
  guard! negb supported else UnsupportedApi ;;
  _ ← D3dContext_create (ws_d3d a);
  _ ← native InitializationFailed (ws_dxgi a);
  _ ← native InitializationFailed (ws_inspectable a);
  _ ← native InitializationFailed (ws_winrt a);
  _ ← native UnsupportedApi (ws_interop a);
  guard! negb (ws_monitor a) else InitializationFailed ;;
  _ ← native InitializationFailed (ws_item a);
  pool_size ← native InitializationFailed (ws_size a);
  _ ← validate_pool_size pool_size;
  _ ← native InitializationFailed (ws_pool a);
  _ ← native InitializationFailed (ws_arrived a);
  _ ← native InitializationFailed (ws_closed a);
  _ ← native InitializationFailed (ws_session a);
  _ ← native InitializationFailed (ws_capture a);
  Ok (mkWgcSession [] false 0 false pool_size 0 false).

(** ** Desktop duplication *)

Record DxgiSession := mkDxgiSession { dx_frame_id : Z; dx_stopped : bool }.
Record DxgiStart := mkDxgiStart {
  ds_d3d : result Z (bool * bool); ds_dxgi : result Z unit; ds_adapter : result Z unit;
  ds_outputs : result Z unit; ds_output1 : result Z unit; ds_duplicate : result Z unit
}.
Definition DxgiSession_start (a : DxgiStart) : BackendResult DxgiSession :=
  _ ← D3dContext_create (ds_d3d a);
  _ ← native InitializationFailed (ds_dxgi a);
  _ ← native InitializationFailed (ds_adapter a);
  _ ← native UnsupportedApi (ds_outputs a);
  _ ← native UnsupportedApi (ds_output1 a);
  _ ← native InitializationFailed (ds_duplicate a);
  Ok (mkDxgiSession 0 false).

(** What an acquisition finds: the resource, cast to a texture, the microseconds since the
    start, and the answer of the release. *)
Record DxgiFrame := mkDxgiFrame {
  df_resource : option (result Z Texture); df_elapsed_us : Z; df_release : result Z unit
}.
Definition dxgi_acquire_frame (s : DxgiSession) (acquired : result Z DxgiFrame) :
    option (BackendResult CapturedFrame * DxgiSession) :=
  match native NativeFailure acquired with
  | Err e => Some (Err e, s)
  | Ok frame =>
      '(r, s) ← match (resource ← ok_or (df_resource frame) InvalidFrame;
                       native InvalidFrame resource) with
        | Err e => Some (Err e, s)
        | Ok texture =>
            let s := mkDxgiSession (saturating_add u64_max (dx_frame_id s) 1) (dx_stopped s) in
            r ← copy_texture texture (dx_frame_id s) (Z.min (df_elapsed_us frame) u64_max) None;
            Some (r, s)
        end;
      Some (finish_acquired_frame r (native NativeFailure (df_release frame)), s)
  end.
Definition dxgi_next_frame (s : DxgiSession) (acquired : result Z DxgiFrame) :
    option (BackendResult CapturedFrame * DxgiSession) :=
  if dx_stopped s then Some (Err Stopped, s) else dxgi_acquire_frame s acquired.
Definition dxgi_stop (s : DxgiSession) : BackendResult unit * DxgiSession :=
  (Ok tt, mkDxgiSession (dx_frame_id s) true).

(** ** The capture source and its worker *)

Inductive CaptureApi := Wgc | Dxgi.
#[global] Instance CaptureApi_eq_dec : EqDecision CaptureApi.
Proof. solve_decision. Defined.
Record CaptureConfig := mkCaptureConfig { cc_allow_dxgi_fallback : bool }.
Definition CaptureConfig_default : CaptureConfig := mkCaptureConfig true.
Inductive CaptureState := Capture_Running (api : CaptureApi) | Capture_RecoverableLoss | Capture_Stopped.
#[global] Instance CaptureState_eq_dec : EqDecision CaptureState.
Proof. solve_decision. Defined.

(** The traits [CaptureSession] and [CaptureFactory]; [None]: the worker panics. *)
Class CaptureSession (S : Type) := {
  session_next_frame : S → option (BackendResult CapturedFrame * S);
  session_stop : S → BackendResult unit * S
}.
Class CaptureFactory (F S : Type) := {
  factory_start : F → CaptureApi → BackendResult S * F
}.

Definition falls_back (e : BackendErrorKind) : bool :=
  match e with UnsupportedApi | DeviceLost => true | _ => false end.
Definition select_session {F S} `{CaptureFactory F S} (config : CaptureConfig) (factory : F) :
    BackendResult (CaptureApi * S) * F :=
  match factory_start factory Wgc with
  | (Ok session, factory) => (Ok (Wgc, session), factory)
  | (Err e, factory) =>
      if cc_allow_dxgi_fallback config && falls_back e
      then let '(r, factory) := factory_start factory Dxgi in
           (session ← r; Ok (Dxgi, session), factory)
      else (Err e, factory)
  end.

Inductive CaptureCommand := Command_NextFrame | Command_Stop.
Inductive CaptureResponse :=
  | Response_Started (r : BackendResult CaptureApi)
  | Response_Frame (r : BackendResult CapturedFrame) | Response_Stopped (r : BackendResult unit).

(** The worker thread: at its loop, returned, or ended by a panic. *)
Inductive CaptureWorker (S : Type) :=
  | Worker_Loop (session : S) | Worker_Returned (session : S) | Worker_Panicked.
Arguments Worker_Loop {S} _.
Arguments Worker_Returned {S} _.
Arguments Worker_Panicked {S}.

(** Where the handle of the thread is: in the lifecycle, with a reaper, or joined. *)
Inductive WorkerHandle := Handle_Held | Handle_Reaper | Handle_Joined.
Record WorkerLifecycle := mkWorkerLifecycle {
  wl_worker : WorkerHandle; wl_reaping : bool; wl_finished : bool
}.
Definition WorkerLifecycle_new : WorkerLifecycle := mkWorkerLifecycle Handle_Held false false.

(** The source, the two channels of capacity one and the worker: [ca_sender] and
    [ca_receiver] say whether the source's ends are still there.  [ca_stops] counts the
    calls of the session's [stop]. *)
Record CaptureSystem (S : Type) := mkCaptureSystem {
  ca_state : CaptureState;
  ca_sender : bool;
  ca_receiver : bool;
  ca_commands : list CaptureCommand;
  ca_responses : list CaptureResponse;
  ca_worker : CaptureWorker S;
  ca_lifecycle : WorkerLifecycle;
  ca_stops : Z
}.
Arguments mkCaptureSystem {S} _ _ _ _ _ _ _ _.
Arguments ca_state {S} _.
Arguments ca_sender {S} _.
Arguments ca_receiver {S} _.
Arguments ca_commands {S} _.
Arguments ca_responses {S} _.
Arguments ca_worker {S} _.
Arguments ca_lifecycle {S} _.
Arguments ca_stops {S} _.

Section source.
Context {S : Type} `{CaptureSession S}.
Abbreviation system := (CaptureSystem S).

(** The worker moves: it has [commands] and [responses] now. *)
Definition ca_worked (s : system) (commands : list CaptureCommand)
    (responses : list CaptureResponse) (worker : CaptureWorker S) (stops : Z) : system :=
  mkCaptureSystem (ca_state s) (ca_sender s) (ca_receiver s) commands responses worker
    (ca_lifecycle s) (ca_stops s + stops).
(** The source moves. *)
Definition ca_with (s : system) (state : CaptureState) (sender receiver : bool)
    (commands : list CaptureCommand) (responses : list CaptureResponse)
    (lifecycle : WorkerLifecycle) : system :=
  mkCaptureSystem state sender receiver commands responses (ca_worker s) lifecycle (ca_stops s).

Definition validated_frame (frame : CapturedFrame) : BackendResult CapturedFrame :=
  match CapturedFrame_validate frame with Err _ => Err InvalidFrame | Ok _ => Ok frame end.

(** A command of [worker_main]'s loop; with none to receive it waits, and stops the
    session once the sender is gone. *)
Definition capture_worker_step (s : system) : system :=
  match ca_worker s with
  | Worker_Loop session =>
      match ca_commands s with
      | Command_NextFrame :: commands =>
          match session_next_frame session with
          | None => ca_worked s [] (ca_responses s) Worker_Panicked 0
          | Some (r, session) =>
              if ca_receiver s
              then ca_worked s commands
                     (ca_responses s ++ [Response_Frame (frame ← r; validated_frame frame)])
                     (Worker_Loop session) 0
              else ca_worked s [] (ca_responses s) (Worker_Returned (snd (session_stop session))) 1
          end
      | Command_Stop :: _ =>
          let '(r, session) := session_stop session in
          ca_worked s [] (if ca_receiver s then ca_responses s ++ [Response_Stopped r]
                          else ca_responses s) (Worker_Returned session) 1
      | [] =>
          if ca_sender s then s else
          ca_worked s [] (ca_responses s) (Worker_Returned (snd (session_stop session))) 1
      end
  | _ => s
  end.
Definition capture_worker_steps (n : nat) (s : system) : system := Nat.iter n capture_worker_step s.

(** [reap_in_background]: whether the thread could be made is [spawned]; the reaper takes
    the handle and joins the worker once it has ended. *)
Definition reap_in_background (spawned : bool) (l : WorkerLifecycle) : WorkerLifecycle :=
  if wl_reaping l then l else
  if spawned then mkWorkerLifecycle (match wl_worker l with Handle_Held => Handle_Reaper | h => h end)
                    true (wl_finished l)
  else mkWorkerLifecycle (wl_worker l) false (wl_finished l).
Definition worker_ended (s : system) : bool :=
  match ca_worker s with Worker_Loop _ => false | _ => true end.
Definition reaper_step (s : system) : system :=
  let l := ca_lifecycle s in
  match wl_worker l with
  | Handle_Reaper =>
      if worker_ended s then ca_with s (ca_state s) (ca_sender s) (ca_receiver s) (ca_commands s)
        (ca_responses s) (mkWorkerLifecycle Handle_Joined (wl_reaping l) true)
      else s
  | Handle_Joined =>
      if wl_reaping l then ca_with s (ca_state s) (ca_sender s) (ca_receiver s) (ca_commands s)
        (ca_responses s) (mkWorkerLifecycle Handle_Joined true true)
      else s
  | Handle_Held => s
  end.

(** [join_before], the worker having moved as far as it does before the deadline. *)
Definition join_before (spawned : bool) (s : system) : BackendResult unit * system :=
  let l := ca_lifecycle s in
  let set l := ca_with s (ca_state s) (ca_sender s) (ca_receiver s) (ca_commands s)
    (ca_responses s) l in
  match wl_worker l with
  | Handle_Held =>
      match ca_worker s with
      | Worker_Loop _ => (Err Timeout, set (reap_in_background spawned l))
      | Worker_Panicked => (Err NativeFailure, set (mkWorkerLifecycle Handle_Joined (wl_reaping l) (wl_finished l)))
      | Worker_Returned _ => (Ok tt, set (mkWorkerLifecycle Handle_Joined (wl_reaping l) true))
      end
  | _ => (Ok tt, s)
  end.

Definition transition_to_stopped (spawned : bool) (s : system) : system :=
  ca_with s Capture_Stopped false (ca_receiver s) (ca_commands s) (ca_responses s)
    (reap_in_background spawned (ca_lifecycle s)).

Inductive TrySend := Send_Ok | Send_Full | Send_Disconnected.
Definition try_send (s : system) (c : CaptureCommand) : TrySend * system :=
  if worker_ended s then (Send_Disconnected, s) else
  match ca_commands s with
  | [] => (Send_Ok, ca_with s (ca_state s) (ca_sender s) (ca_receiver s) [c] (ca_responses s)
             (ca_lifecycle s))
  | _ => (Send_Full, s)
  end.
(** [recv_timeout] after the worker's moves before the deadline. *)
Inductive Received := Recv_Response (r : CaptureResponse) | Recv_Timeout | Recv_Disconnected.
Definition recv_timeout (s : system) : Received * system :=
  match ca_responses s with
  | r :: responses =>
      (Recv_Response r, ca_with s (ca_state s) (ca_sender s) (ca_receiver s) (ca_commands s)
         responses (ca_lifecycle s))
  | [] => (if worker_ended s then Recv_Disconnected else Recv_Timeout, s)
  end.

(** [next_frame], the worker taking [n] steps before the timeout. *)
Definition source_next_frame (n : nat) (spawned : bool) (s : system) :
    BackendResult CapturedFrame * system :=
  match ca_state s with
  | Capture_Running _ =>
      if negb (ca_sender s) then (Err Stopped, transition_to_stopped spawned s) else
      match try_send s Command_NextFrame with
      | (Send_Full, s) => (Err Timeout, transition_to_stopped spawned s)
      | (Send_Disconnected, s) => (Err NativeFailure, transition_to_stopped spawned s)
      | (Send_Ok, s) =>
          match recv_timeout (capture_worker_steps n s) with
          | (Recv_Response (Response_Frame r), s) =>
              (r, match r with
                  | Err DeviceLost => ca_with s Capture_RecoverableLoss (ca_sender s) (ca_receiver s)
                      (ca_commands s) (ca_responses s) (ca_lifecycle s)
                  | _ => s
                  end)
          | (Recv_Timeout, s) => (Err Timeout, transition_to_stopped spawned s)
          | (_, s) => (Err NativeFailure, transition_to_stopped spawned s)
          end
      end
  | Capture_RecoverableLoss => (Err DeviceLost, s)
  | Capture_Stopped => (Err Stopped, s)
  end.

(** [request_stop]: [n] steps before the response is awaited, [in_time] if the deadline
    has not passed then. *)
Definition request_stop (n : nat) (in_time : bool) (s : system) : BackendResult unit * system :=
  let drop_sender s := ca_with s (ca_state s) false (ca_receiver s) (ca_commands s)
    (ca_responses s) (ca_lifecycle s) in
  if negb (ca_sender s) then (Err Stopped, s) else
  match try_send s Command_Stop with
  | (Send_Full, s) => (Err Timeout, drop_sender s)
  | (Send_Disconnected, s) => (Err NativeFailure, drop_sender s)
  | (Send_Ok, s) =>
      let s := capture_worker_steps n s in
      if negb in_time then (Err Timeout, drop_sender s) else
      match recv_timeout s with
      | (Recv_Response (Response_Stopped r), s) => (r, drop_sender s)
      | (Recv_Timeout, s) => (Err Timeout, drop_sender s)
      | (_, s) => (Err NativeFailure, drop_sender s)
      end
  end.
Definition capture_stop (n m : nat) (in_time spawned : bool) (s : system) :
    BackendResult unit * system :=
  if bool_decide (ca_state s = Capture_Stopped) then (Ok tt, s) else
  let '(r, s) := request_stop n in_time s in
  let s := ca_with s Capture_Stopped (ca_sender s) (ca_receiver s) (ca_commands s)
    (ca_responses s) (ca_lifecycle s) in
  let '(join_result, s) := join_before spawned (capture_worker_steps m s) in
  (_ ← r; join_result, s).

(** [Drop], after which the receiver is gone too. *)
Definition capture_drop (spawned : bool) (s : system) : system :=
  let s :=
    if bool_decide (ca_state s = Capture_Stopped) then s else
    let s := if ca_sender s then snd (try_send s Command_Stop) else s in
    ca_with s Capture_Stopped false (ca_receiver s) (ca_commands s) (ca_responses s)
      (ca_lifecycle s) in
  ca_with s Capture_Stopped (ca_sender s) false (ca_commands s) []
    (reap_in_background spawned (ca_lifecycle s)).

(** [start_with_factory_and_timeout]: [spawned] if the worker's thread could be made, [com]
    the answer of initializing COM, [in_time] if the worker has started before the timeout.
    A worker that starts later finds its response refused and stops its session, which is
    the second component. *)
Definition capture_start {F} `{CaptureFactory F S} (config : CaptureConfig) (factory : F)
    (spawned : bool) (com : BackendResult unit) (in_time : bool) :
    BackendResult system * option S * F :=
  if negb spawned then (Err InitializationFailed, None, factory) else
  let '(boot, factory) :=
    match com with
    | Err e => (Err e, factory)
    | Ok _ => select_session config factory
    end in
  match boot with
  | Err e => (Err (if in_time then e else Timeout), None, factory)
  | Ok (api, session) =>
      if in_time
      then (Ok (mkCaptureSystem (Capture_Running api) true true [] [] (Worker_Loop session)
              WorkerLifecycle_new 0), None, factory)
      else (Err Timeout, Some (snd (session_stop session)), factory)
  end.
End source.

(** ** Rows of a texture *)

(** The content of a texture without the padding of its rows. *)
Definition bgra_rows (source : bytes) (row_pitch width height : Z) : list bytes :=
  (λ row, take (Z.to_nat (4 * width)) (drop (row * Z.to_nat row_pitch) source)) <$>
    seq 0 (Z.to_nat height).

Definition texture_fits (allocation_width allocation_height width height row_pitch : Z) : Prop :=
  0 < width ≤ allocation_width ∧ 0 < height ≤ allocation_height ∧ 4 * allocation_width ≤ row_pitch.

Lemma copy_rows_loop source row_pitch w4 rows output :
  0 ≤ row_pitch →
  Forall (λ row, Z.of_nat row * row_pitch + Z.of_nat w4 ≤ len source) rows → len source ≤ usize_max →
  for_each rows (λ (output : BackendResult bytes) row,
    match output with
    | Err e => Some (Err e)
    | Ok output =>
        match checked_mul usize_max (Z.of_nat row) row_pitch with
        | None => Some (Err InvalidFrame)
        | Some start => r ← slice_at source (Z.to_nat start) w4; Some (Ok (output ++ r))
        end
    end) (Ok output) =
  Some (Ok (output ++ concat ((λ row, take w4 (drop (row * Z.to_nat row_pitch) source)) <$> rows))).
Proof.
  intros Hp Hr Hl. revert output. induction Hr as [|row rows Hrow Hr IH]; intros output; cbn [for_each].
  { by rewrite app_nil_r. }
  unfold checked_mul. rewrite (proj2 (Z.leb_le _ _)) by lia.
  assert (Z.to_nat (Z.of_nat row * row_pitch) = row * Z.to_nat row_pitch)%nat as -> by lia.
  unfold slice_at. rewrite (proj2 (Nat.leb_le _ _)) by (unfold len in *; lia).
  cbn [mbind option_bind fmap list_fmap concat]. by rewrite IH, <-app_assoc.
Qed.

Lemma copy_bgra_rows_cases source aw ah cw ch row_pitch :
  uint 32 aw → uint 32 ah → uint 32 cw → uint 32 ch → uint 64 row_pitch → len source ≤ usize_max →
  copy_bgra_rows source aw ah cw ch row_pitch =
    Some (if bool_decide (texture_fits aw ah cw ch row_pitch ∧
                          (ch - 1) * row_pitch + 4 * cw ≤ len source ∧ 4 * cw * ch ≤ usize_max)
          then Ok (concat (bgra_rows source row_pitch cw ch)) else Err InvalidFrame).
Proof.
  unfold uint, copy_bgra_rows, texture_fits, bgra_rows. intros Haw Hah Hcw Hch Hp Hl.
  destruct (_ || _) eqn:E; [by rewrite bool_decide_false by lia|].
  unfold checked_mul at 1 2 3 4, checked_add. assert (usize_max = 2 ^ 64 - 1) as Hm by done.
  rewrite (proj2 (Z.leb_le (aw * 4) _)) by lia. cbn [ok_or mbind result_bind].
  destruct (Z.ltb_spec row_pitch (aw * 4)); [by rewrite bool_decide_false by lia|].
  rewrite (proj2 (Z.leb_le (cw * 4) _)) by lia. cbn [ok_or mbind result_bind].
  destruct (Z.leb_spec ((ch - 1) * row_pitch) usize_max); cbn [ok_or mbind result_bind];
    [|by rewrite bool_decide_false by lia].
  destruct (Z.leb_spec ((ch - 1) * row_pitch + cw * 4) usize_max); cbn [ok_or mbind result_bind];
    [|by rewrite bool_decide_false by lia].
  destruct (Z.ltb_spec (len source) ((ch - 1) * row_pitch + cw * 4));
    [by rewrite bool_decide_false by lia|].
  destruct (Z.leb_spec (cw * 4 * ch) usize_max); cbn [ok_or mbind result_bind];
    [|by rewrite bool_decide_false by lia].
  rewrite bool_decide_true by lia. replace (cw * 4) with (4 * cw) by lia.
  rewrite copy_rows_loop; [done|lia| |done]. apply Forall_seq. intros row Hrow. nia.
Qed.

(** Mapped memory covers all rows of the texture, as the native API has it. *)
Definition texture_whole (texture : Texture) : Prop :=
  uint 32 (tx_width texture) ∧ uint 32 (tx_height texture) ∧
  ∀ memory row_pitch, tx_map texture = Ok (Some memory, row_pitch) →
    uint 32 row_pitch ∧ row_pitch * tx_height texture ≤ len memory ≤ usize_max.

Lemma length_bgra_rows source row_pitch width height :
  0 ≤ row_pitch → 0 < height → 0 ≤ width → 4 * width ≤ row_pitch →
  (height - 1) * row_pitch + 4 * width ≤ len source →
  len (concat (bgra_rows source row_pitch width height)) = width * height * 4.
Proof.
  intros Hp Hh Hw Hwp Hl. unfold bgra_rows, len.
  assert (length (concat ((λ row, take (Z.to_nat (4 * width)) (drop (row * Z.to_nat row_pitch) source)) <$>
    seq 0 (Z.to_nat height))) = Z.to_nat height * Z.to_nat (4 * width))%nat as ->; [|lia].
  assert (Forall (λ row, row * Z.to_nat row_pitch + Z.to_nat (4 * width) ≤ length source)%nat
    (seq 0 (Z.to_nat height))) as Hf.
  { apply Forall_seq. intros row Hrow. unfold len in Hl. nia. }
  transitivity (length (seq 0 (Z.to_nat height)) * Z.to_nat (4 * width))%nat; [|by rewrite length_seq].
  induction Hf as [|row rows Hrow Hf IH]; [done|]. cbn [fmap list_fmap concat length].
  rewrite length_app, length_take, length_drop, IH. lia.
Qed.

Lemma bgra_rows_prefix memory n row_pitch width height :
  0 ≤ row_pitch → 0 ≤ width → (height - 1) * row_pitch + 4 * width ≤ n →
  bgra_rows (take (Z.to_nat n) memory) row_pitch width height = bgra_rows memory row_pitch width height.
Proof.
  intros Hp Hw Hn. unfold bgra_rows. apply list_fmap_ext. intros i row Hi.
  apply lookup_seq in Hi as [-> Hi]. rewrite !take_drop_commute, take_take.
  do 2 f_equal. nia.
Qed.

Lemma mapped_texture_bytes_cases texture memory row_pitch cw ch :
  texture_whole texture → uint 32 cw → uint 32 ch → tx_map texture = Ok (Some memory, row_pitch) →
  mapped_texture_bytes (Some memory, row_pitch) (tx_width texture) (tx_height texture) cw ch =
    Some (if bool_decide (texture_fits (tx_width texture) (tx_height texture) cw ch row_pitch)
          then Ok (concat (bgra_rows memory row_pitch cw ch)) else Err InvalidFrame).
Proof.
  intros (Hw & Hh & Hm) Hcw Hch Em. destruct (Hm _ _ Em) as [Hp [Hl Hu]].
  assert (usize_max = 2 ^ 64 - 1) as Hmax by done. unfold uint in *. unfold mapped_texture_bytes.
  destruct (_ || _) eqn:E; [by rewrite bool_decide_false by (unfold texture_fits; lia)|].
  unfold checked_mul, checked_add.
  rewrite (proj2 (Z.leb_le (cw * 4) _)) by lia. cbn [ok_or mbind result_bind].
  rewrite (proj2 (Z.leb_le (tx_width texture * 4) _)) by lia. cbn [ok_or mbind result_bind].
  destruct (Z.ltb_spec row_pitch (tx_width texture * 4));
    [by rewrite bool_decide_false by (unfold texture_fits; lia)|].
  assert (texture_fits (tx_width texture) (tx_height texture) cw ch row_pitch) as Hfit
    by (unfold texture_fits; lia).
  assert (cw * 4 * ch ≤ row_pitch * ch) by (apply Z.mul_le_mono_nonneg_r; lia).
  assert (row_pitch * ch ≤ row_pitch * tx_height texture) by (apply Z.mul_le_mono_nonneg_l; lia).
  assert ((ch - 1) * row_pitch + cw * 4 ≤ row_pitch * ch) by lia.
  assert (0 ≤ (ch - 1) * row_pitch) by (apply Z.mul_nonneg_nonneg; lia).
  rewrite (proj2 (Z.leb_le ((ch - 1) * row_pitch) _)) by lia. cbn [ok_or mbind option_bind].
  rewrite (proj2 (Z.leb_le ((ch - 1) * row_pitch + _) _)) by lia. cbn [ok_or].
  unfold slice_at. rewrite (proj2 (Nat.leb_le _ _)) by (unfold len in *; lia).
  cbn [mbind option_bind]. rewrite drop_0, copy_bgra_rows_cases;
    [|unfold uint; lia..|unfold len; rewrite length_take; lia].
  rewrite bgra_rows_prefix by lia.
  rewrite !bool_decide_true; [done|done|]. unfold len in *. rewrite length_take. split; [done|lia].
Qed.

(** A texture is copied without a panic, whatever its size, its pitch and the size
    of its content: exactly when it has the expected format, the native calls succeed and
    the content lies within the texture, the result is a valid frame of the content's size
    whose bytes are the rows of the content without padding. *)
Theorem copy_texture_spec texture frame_id timestamp_us cw ch :
  texture_whole texture → uint 32 cw → uint 32 ch →
  ∃ r, copy_texture texture frame_id timestamp_us (Some (cw, ch)) = Some r ∧
    ∀ frame, r = Ok frame ↔
      ∃ memory row_pitch, tx_bgra texture = true ∧ tx_staging texture = Ok true ∧
        tx_map texture = Ok (Some memory, row_pitch) ∧
        texture_fits (tx_width texture) (tx_height texture) cw ch row_pitch ∧
        frame = mkCapturedFrame frame_id timestamp_us cw ch Pixel_Bgra8
          (concat (bgra_rows memory row_pitch cw ch)) ∧
        CapturedFrame_validate frame = Ok tt.
Proof.
  intros Ht Hcw Hch. unfold copy_texture. cbn [from_option id].
  destruct (_ || _) eqn:E0.
  { eexists. split; [done|]. intros frame. split; [done|].
    intros (m & p & Hb & _ & _ & (? & ? & ?) & _). rewrite Hb in E0. lia. }
  destruct (tx_staging texture) as [[]|] eqn:Es; cbn [native mbind result_bind negb].
  2,3: eexists; split; [done|]; intros frame; split; [done|]; by intros (m & p & _ & ? & _).
  destruct (tx_map texture) as [[[m|] p]|] eqn:Em; cbn [native].
  2,3: eexists; split; [done|]; intros frame; split; [done|]; by intros (? & ? & _ & _ & ? & _).
  rewrite (mapped_texture_bytes_cases texture m p cw ch Ht Hcw Hch Em). cbn [mbind option_bind].
  destruct Ht as (? & ? & Hm). destruct (Hm _ _ Em) as [Hp [Hl Hu]].
  case_bool_decide as Hfit; cbn [mbind result_bind].
  2: { eexists. split; [done|]. intros frame. split; [done|]. by intros (? & ? & _ & _ & [= <- <-] & ? & _). }
  set (frame := mkCapturedFrame _ _ _ _ _ _). assert (CapturedFrame_validate frame = Ok tt) as Hv.
  { destruct Hfit as (? & ? & ?). unfold uint in *.
    assert (len (concat (bgra_rows m p cw ch)) = cw * ch * 4) as El by (apply length_bgra_rows; nia).
    assert (cw * ch * 4 ≤ p * tx_height texture) by nia.
    unfold CapturedFrame_validate, expected_bgra_len, checked_mul. cbn [fr_width fr_height fr_format fr_data frame].
    rewrite (proj2 (Z.eqb_neq cw 0)), (proj2 (Z.eqb_neq ch 0)) by lia. cbn [orb].
    rewrite (proj2 (Z.leb_le (cw * ch) _)) by lia. cbn [ok_or mbind result_bind option_bind].
    rewrite (proj2 (Z.leb_le (cw * ch * 4) _)) by lia. cbn [ok_or mbind result_bind option_bind].
    by rewrite El, Z.eqb_refl. }
  rewrite Hv. eexists. split; [done|]. intros f. split.
  - intros [= <-]. exists m, p. split_and!; [|done..]. destruct (tx_bgra texture); [done|].
    by rewrite !orb_true_r in E0.
  - intros (? & ? & _ & _ & [= <- <-] & _ & -> & _). done.
Qed.

Definition small_texture : Texture :=
  mkTexture 2 2 true (Ok true) (Ok (Some (replicate 24 x07), 12)).
Lemma small_texture_whole : texture_whole small_texture.
Proof. split_and!; [done..|]. intros m p [= <- <-]. vm_compute. split; [split|split]; done. Qed.
Lemma copy_texture_spec_witness :
  texture_whole small_texture ∧
  ∃ r, copy_texture small_texture 1 5 (Some (1, 2)) = Some r ∧
    ∀ frame, r = Ok frame ↔
      ∃ memory row_pitch, tx_bgra small_texture = true ∧ tx_staging small_texture = Ok true ∧
        tx_map small_texture = Ok (Some memory, row_pitch) ∧
        texture_fits 2 2 1 2 row_pitch ∧
        frame = mkCapturedFrame 1 5 1 2 Pixel_Bgra8 (concat (bgra_rows memory row_pitch 1 2)) ∧
        CapturedFrame_validate frame = Ok tt.
Proof.
  split; [exact small_texture_whole|].
  apply (copy_texture_spec small_texture 1 5 1 2); [exact small_texture_whole|done..].
Defined.

(** ** Every frame of the pool is closed *)

Section drain_lemmas.
Context {A : Type} (discard : A → BackendResult unit).

Definition answered_frames (pool : list (BackendResult (option A))) : list A :=
  omap (λ a, match a with Ok f => f | Err _ => None end) pool.

Lemma drain_newest_loop_spec newest closed pool r closed' rest :
  drain_newest_loop discard newest closed pool = (r, closed', rest) →
  ∃ taken, pool = taken ++ rest ∧
    closed' ++ (match r with Ok f => [f] | Err _ => [] end) =
      closed ++ option_list newest ++ answered_frames taken.
Proof.
  revert newest closed. induction pool as [|a pool IH]; intros newest closed; cbn [drain_newest_loop].
  { intros [= <- <- <-]. exists []. cbn. split; [done|].
    destruct newest; cbn; by rewrite ?app_nil_r. }
  destruct a as [[frame|]|e].
  - destruct newest as [stale|].
    + destruct (discard stale) as [u|e].
      * intros E. destruct (IH _ _ E) as (taken & -> & Ht). exists (Ok (Some frame) :: taken).
        split; [done|]. rewrite Ht. cbn. by rewrite <-!app_assoc.
      * intros [= <- <- <-]. exists [Ok (Some frame)]. split; [done|]. cbn. by rewrite app_nil_r.
    + intros E. destruct (IH _ _ E) as (taken & -> & Ht). exists (Ok (Some frame) :: taken).
      split; [done|]. by rewrite Ht.
  - intros [= <- <- <-]. exists [Ok None]. split; [done|]. cbn.
    destruct newest; cbn; by rewrite ?app_nil_r.
  - intros [= <- <- <-]. exists [Err e]. split; [done|]. cbn. by rewrite !app_nil_r.
Qed.
End drain_lemmas.

Definition pool_frames (pool : list (result Z WgcFrame)) : list WgcFrame :=
  omap (λ a, match a with Ok f => Some f | Err _ => None end) pool.
Definition pooled (evs : list WgcEvent) : list (result Z WgcFrame) :=
  omap (λ ev, match ev with Wgc_Pooled a => Some a | _ => None end) evs.
Definition turn_events (turn : WgcTurn) : list WgcEvent :=
  tn_waiting turn ++ tn_counting turn ++ tn_draining turn.

Lemma pool_frames_app p q : pool_frames (p ++ q) = pool_frames p ++ pool_frames q.
Proof. apply omap_app. Qed.
Lemma pooled_app p q : pooled (p ++ q) = pooled p ++ pooled q.
Proof. apply omap_app. Qed.
Lemma answered_pool closed pool : answered_frames (wgc_next closed <$> pool) = pool_frames pool.
Proof.
  induction pool as [|[f|code] pool IH]; [done|..]; unfold pool_frames in *; cbn; [by rewrite <-IH|].
  rewrite <-IH. destruct (is_wgc_pool_empty_error_code code); [done|]. by destruct closed.
Qed.
Lemma wgc_events_pool s evs : wg_pool (wgc_events s evs) = wg_pool s ++ pooled evs.
Proof.
  revert s. induction evs as [|ev evs IH]; intros s; cbn; [by rewrite app_nil_r|].
  unfold wgc_events in *. rewrite IH. destruct ev; cbn; by rewrite <-?app_assoc.
Qed.

Lemma turn_pool s turn :
  wg_pool (wgc_events (wg_take_count (wgc_events (wg_take_token (wgc_events s (tn_waiting turn)))
    (tn_counting turn))) (tn_draining turn)) = wg_pool s ++ pooled (turn_events turn).
Proof.
  rewrite wgc_events_pool. cbn [wg_pool wg_take_count]. rewrite wgc_events_pool.
  cbn [wg_pool wg_take_token]. rewrite wgc_events_pool.
  unfold turn_events. by rewrite !pooled_app, <-!app_assoc.
Qed.

Lemma drain_pool_spec discard notifications closed_flag pool r closed rest :
  drain_newest_available_frame discard notifications (wgc_next closed_flag <$> pool) = (r, closed, rest) →
  closed ++ (match r with Ok f => [f] | Err _ => [] end) ++
    pool_frames (drop (length pool - length rest) pool) = pool_frames pool.
Proof.
  unfold drain_newest_available_frame. destruct (_ =? _).
  - intros [= <- <- <-]. rewrite length_fmap, Nat.sub_diag. done.
  - intros E. apply drain_newest_loop_spec in E as (taken & Ep & Ht). cbn in Ht.
    rewrite app_assoc, Ht. apply fmap_app_inv in Ep as (p1 & p2 & -> & -> & ->).
    rewrite answered_pool, length_fmap, length_app, Nat.add_sub.
    by rewrite drop_app_length, pool_frames_app.
Qed.

Lemma wgc_copy_frame_pool s frame size r s' :
  wgc_copy_frame s frame size = Some (r, s') → wg_pool s' = wg_pool s.
Proof.
  unfold wgc_copy_frame. destruct (_ ← native _ _; _) as [[ts tx]|]; [|by intros [= <- <-]].
  destruct (_ || _); [by intros [= <- <-]|]. intros E. apply bind_Some in E as (? & _ & [= _ <-]). done.
Qed.

Lemma wgc_turn_frames s turn answer closed s' :
  wgc_turn s turn = Some (answer, closed, s') →
  ∃ evs, (evs = turn_events turn ∨ (evs = tn_waiting turn ∧ answer ≠ Turn_Continue)) ∧
    closed ++ pool_frames (wg_pool s') = pool_frames (wg_pool s ++ pooled evs).
Proof.
  unfold wgc_turn. set (s1 := wgc_events s (tn_waiting turn)).
  destruct (negb (wg_frame_ready s1)).
  { intros [= <- <- <-]. exists (tn_waiting turn). split; [by right|]. unfold s1. by rewrite wgc_events_pool. }
  destruct (wg_closed (wg_take_token s1)).
  { intros [= <- <- <-]. exists (tn_waiting turn). split; [by right|]. unfold s1. cbn.
    by rewrite wgc_events_pool. }
  set (s2 := wgc_events (wg_take_token s1) (tn_counting turn)).
  set (s3 := wgc_events (wg_take_count s2) (tn_draining turn)).
  assert (wg_pool s3 = wg_pool s ++ pooled (turn_events turn)) as Ep by apply turn_pool.
  destruct (drain_newest_available_frame _ _ _) as [[newest closed0] rest] eqn:Ed.
  apply drain_pool_spec in Ed. rewrite Ep in *. set (pool' := drop _ _) in *.
  assert (∀ (b : bool) f, newest = Ok f →
    (closed0 ++ [f]) ++ pool_frames pool' = pool_frames (wg_pool s ++ pooled (turn_events turn))) as Hf.
  { intros _ f ->. by rewrite <-app_assoc. }
  intros E. exists (turn_events turn). split; [by left|].
  destruct newest as [frame|e]; [specialize (Hf true frame eq_refl)|].
  - destruct (_ ← native _ (wf_content_size frame); _) as [size|e].
    + destruct (negb _).
      * destruct (close_wgc_frame frame (Ok tt) closed0) as [[?|e] c] eqn:Ec;
          unfold close_wgc_frame in Ec; injection Ec as _ <-; [|by injection E as <- <- <-].
        destruct (native DeviceLost _); by injection E as <- <- <-.
      * apply bind_Some in E as ([r s4] & Ec & E). apply wgc_copy_frame_pool in Ec.
        cbn in E. injection E as <- <- <-. by rewrite Ec.
    + cbn in E. by injection E as <- <- <-.
  - cbn in Ed. destruct e; by injection E as <- <- <-.
Qed.

(** No frame of the capture pool is leaked or closed twice: for every interleaving
    of arrivals, notifications, size changes, closings and failures with the turns of the
    acquisition, the frames closed, in order, followed by those still in the pool are the
    frames that were or became available; an acquired frame is closed whether copying it
    succeeded or not. *)
Theorem wgc_frames_closed s turns r closed s' :
  wgc_acquire_frame s turns = Some (r, closed, s') →
  ∃ evs, evs `prefix_of` concat (turn_events <$> turns) ∧
    closed ++ pool_frames (wg_pool s') = pool_frames (wg_pool s ++ pooled evs).
Proof.
  revert s r closed s'. induction turns as [|turn turns IH]; intros s r closed s'; cbn [wgc_acquire_frame].
  { intros [= <- <- <-]. exists []. split; [done|]. cbn. by rewrite app_nil_r. }
  intros E. apply bind_Some in E as ([[answer closed0] s1] & Et & E).
  destruct (wgc_turn_frames _ _ _ _ _ Et) as (evs & Hevs & Hc). cbn [fmap list_fmap concat].
  destruct answer as [ret|].
  - injection E as <- <- <-. exists evs. split; [|done].
    destruct Hevs as [->|[-> _]]; [by apply prefix_app_r|].
    unfold turn_events. rewrite <-!app_assoc. by apply prefix_app_r.
  - destruct Hevs as [->|[_ []]]; [|done].
    apply bind_Some in E as ([[r1 closed1] s2] & Ea & [= <- <- <-]).
    destruct (IH _ _ _ _ Ea) as (evs & Hp & Hc'). exists (turn_events turn ++ evs).
    split; [by apply prefix_app|]. rewrite <-app_assoc, Hc', pool_frames_app, app_assoc, Hc.
    by rewrite pooled_app, <-!pool_frames_app, <-!app_assoc.
Qed.

Definition wgc_quiet : WgcTurn := mkWgcTurn [] [] [] (Ok tt).
Lemma wgc_frames_closed_witness :
  let s := mkWgcSession [] false 0 false (mkSizeInt32 1 2) 0 false in
  let frame := mkWgcFrame (Ok (mkSizeInt32 1 2)) (Ok 50) (Ok small_texture) (Ok tt) in
  let turns := [mkWgcTurn [Wgc_Pooled (Ok frame); Wgc_FrameArrived; Wgc_Pooled (Ok frame)] [] []
    (Ok tt)] in
  ∃ r closed s', wgc_acquire_frame s turns = Some (r, closed, s') ∧ length closed = 2%nat ∧
  ∃ evs, evs `prefix_of` concat (turn_events <$> turns) ∧
    closed ++ pool_frames (wg_pool s') = pool_frames (wg_pool s ++ pooled evs).
Proof.
  intros s frame turns. do 3 eexists. split; [vm_compute; reflexivity|]. split; [reflexivity|].
  eapply (wgc_frames_closed s turns). vm_compute. reflexivity.
Defined.

(** ** An acquisition answers *)

(** A frame whose native answers have the types and the memory they promise. *)
Definition frame_whole (f : WgcFrame) : Prop :=
  (∀ texture, wf_texture f = Ok texture → texture_whole texture) ∧
  (∀ size, wf_content_size f = Ok size → sz_width size < 2 ^ 31 ∧ sz_height size < 2 ^ 31).

Lemma wgc_copy_frame_total s frame size :
  frame_whole frame → 0 < sz_width size < 2 ^ 31 → 0 < sz_height size < 2 ^ 31 →
  is_Some (wgc_copy_frame s frame size).
Proof.
  intros [Ht _] Hw Hh. unfold wgc_copy_frame.
  destruct (wf_time frame) as [d|]; [|done]. cbn. destruct (_ <? _); [done|].
  destruct (wf_texture frame) as [tx|]; [|done]. cbn. destruct (_ || _); [done|].
  destruct (copy_texture_spec tx (saturating_add u64_max (wg_frame_id s) 1) (Z.quot d 10)
    (sz_width size) (sz_height size)) as (r & -> & _); [by apply Ht|unfold uint; lia..|]. done.
Qed.

Lemma drain_newest_loop_from {A} discard newest closed pool (f : A) closed' rest :
  drain_newest_loop discard newest closed pool = (Ok f, closed', rest) →
  newest = Some f ∨ Ok (Some f) ∈ pool.
Proof.
  revert newest closed. induction pool as [|[[a|]|e] pool IH]; intros newest closed; cbn [drain_newest_loop].
  - destruct newest; cbn; intros [=]; subst; by left.
  - destruct newest as [stale|].
    + destruct (discard stale); [|done]. intros E. right.
      destruct (IH _ _ E) as [[= ->]|?]; [by left|by right].
    + intros E. right. destruct (IH _ _ E) as [[= ->]|?]; [by left|by right].
  - destruct newest; cbn; intros [=]; subst; by left.
  - done.
Qed.

Lemma drained_frame_pool discard n c pool f closed rest :
  drain_newest_available_frame discard n (wgc_next c <$> pool) = (Ok f, closed, rest) →
  f ∈ pool_frames pool.
Proof.
  unfold drain_newest_available_frame. destruct (_ =? _); [done|]. intros E.
  apply drain_newest_loop_from in E as [?|E]; [done|]. apply list_elem_of_fmap in E as ([g|code] & E & Hin).
  - injection E as ->. unfold pool_frames. apply list_elem_of_omap. by exists (Ok g).
  - cbn in E. destruct (is_wgc_pool_empty_error_code code); [done|]. by destruct c.
Qed.

Lemma wgc_turn_total s turn :
  Forall frame_whole (pool_frames (wg_pool s ++ pooled (turn_events turn))) →
  is_Some (wgc_turn s turn).
Proof.
  intros Hw. unfold wgc_turn. set (s1 := wgc_events s (tn_waiting turn)).
  destruct (negb (wg_frame_ready s1)); [done|]. destruct (wg_closed (wg_take_token s1)); [done|].
  set (s2 := wgc_events (wg_take_token s1) (tn_counting turn)).
  set (s3 := wgc_events (wg_take_count s2) (tn_draining turn)).
  assert (wg_pool s3 = wg_pool s ++ pooled (turn_events turn)) as Ep by apply turn_pool.
  destruct (drain_newest_available_frame _ _ _) as [[newest closed0] rest] eqn:Ed.
  destruct newest as [frame|e]; [|by destruct e].
  apply drained_frame_pool in Ed. rewrite Ep in Ed.
  pose proof (proj1 (Forall_forall _ _) Hw _ Ed) as Hf.
  destruct (wf_content_size frame) as [size|] eqn:Es; [|done]. cbn [native mbind result_bind].
  unfold validate_pool_size. destruct (_ || _) eqn:E0; [done|]. cbn [mbind result_bind].
  destruct (negb _).
  - unfold close_wgc_frame. destruct (finish_acquired_frame _ _); [|done]. by destruct (native _ _).
  - destruct (proj2 Hf _ Es). edestruct (wgc_copy_frame_total (wg_set_pool s3 (drop
      (length (wg_pool s3) - length rest) (wg_pool s3))) frame size Hf) as [[r s4] ->]; [lia..|]. done.
Qed.

Lemma quiet_turn_token s answer closed s' :
  wgc_turn s wgc_quiet = Some (answer, closed, s') → wg_frame_ready s' = false ∨ ∃ r, answer = Turn_Return r.
Proof.
  unfold wgc_turn. cbn [wgc_quiet tn_waiting tn_counting tn_draining wgc_events foldl tn_recreate].
  destruct (negb (wg_frame_ready s)); [intros [= <- _ _]; eauto|].
  destruct (wg_closed _); [intros [= <- _ _]; eauto|].
  destruct (drain_newest_available_frame _ _ _) as [[newest closed0] rest].
  destruct newest as [frame|e]; [|destruct e; intros [= <- _ <-]; eauto].
  destruct (_ ← native _ (wf_content_size frame); _) as [size|e];
    [|cbn; intros [= <- _ _]; eauto].
  destruct (negb _).
  - destruct (close_wgc_frame _ _ _) as [[?|e] c]; [|intros [= <- _ _]; eauto].
    destruct (native _ _); intros [= <- _ <-]; eauto.
  - intros E. apply bind_Some in E as ([r s4] & _ & [= <- _ _]). eauto.
Qed.

Lemma wgc_acquire_app s turns turns' :
  wgc_acquire_frame s (turns ++ turns') =
    '(r, closed, s1) ← wgc_acquire_frame s turns;
    match r with
    | Some _ => Some (r, closed, s1)
    | None => '(r, closed', s2) ← wgc_acquire_frame s1 turns'; Some (r, closed ++ closed', s2)
    end.
Proof.
  revert s. induction turns as [|turn turns IH]; intros s; cbn [app wgc_acquire_frame mbind option_bind].
  { by destruct (wgc_acquire_frame s turns') as [[[r c] s']|]. }
  destruct (wgc_turn s turn) as [[[answer closed] s1]|]; [|done]. cbn [mbind option_bind].
  destruct answer; [done|]. rewrite IH.
  destruct (wgc_acquire_frame s1 turns) as [[[r c] s2]|]; [|done]. cbn [mbind option_bind].
  destruct r; [done|]. destruct (wgc_acquire_frame s2 turns') as [[[r' c'] s3]|]; [|done].
  cbn [mbind option_bind]. by rewrite app_assoc.
Qed.

Lemma prefix_pool_whole pool evs evs' :
  evs `prefix_of` evs' → Forall frame_whole (pool_frames (pool ++ pooled evs')) →
  Forall frame_whole (pool_frames (pool ++ pooled evs)).
Proof.
  intros [k ->]. rewrite pooled_app, app_assoc, pool_frames_app, Forall_app. tauto.
Qed.

Lemma wgc_turn_keeps_whole s turn answer closed s' evs :
  wgc_turn s turn = Some (answer, closed, s') →
  Forall frame_whole (pool_frames (wg_pool s ++ pooled (turn_events turn ++ evs))) →
  answer = Turn_Continue → Forall frame_whole (pool_frames (wg_pool s' ++ pooled evs)).
Proof.
  intros Et Hw Ha. destruct (wgc_turn_frames _ _ _ _ _ Et) as (evs0 & [->|[_ []]] & Hc); [|done].
  rewrite pooled_app, app_assoc, pool_frames_app, <-Hc, <-app_assoc, Forall_app in Hw.
  rewrite pool_frames_app. tauto.
Qed.

Lemma wgc_acquire_total turns : ∀ s,
  Forall frame_whole (pool_frames (wg_pool s ++ pooled (concat (turn_events <$> turns)))) →
  is_Some (wgc_acquire_frame s turns).
Proof.
  induction turns as [|turn turns IH]; intros s Hw; [done|]. cbn [wgc_acquire_frame].
  cbn [fmap list_fmap concat] in Hw.
  destruct (wgc_turn_total s turn) as [[[answer closed] s1] E].
  { eapply prefix_pool_whole; [|exact Hw]. by apply prefix_app_r. }
  rewrite E. cbn [mbind option_bind]. destruct answer; [done|].
  destruct (IH s1) as [[[r c] s2] ->]; [|done]. by eapply wgc_turn_keeps_whole.
Qed.

(** An acquisition answers: after any activity beside the worker, at most two more
    turns without activity (so two more timeouts) bring its answer, a frame or an error;
    it neither panics nor loops on notifications it has already counted or on changes of
    size. *)
Theorem wgc_acquire_answers s turns :
  Forall frame_whole (pool_frames (wg_pool s ++ pooled (concat (turn_events <$> turns)))) →
  ∃ r closed s', wgc_acquire_frame s (turns ++ [wgc_quiet; wgc_quiet]) = Some (Some r, closed, s').
Proof.
  intros Hw. destruct (wgc_acquire_total (turns ++ [wgc_quiet; wgc_quiet]) s) as [[[r c] s'] E].
  { rewrite fmap_app, concat_app.
    change (concat (turn_events <$> [wgc_quiet; wgc_quiet])) with (@nil WgcEvent). by rewrite app_nil_r. }
  exists (default (Err Stopped) r), c, s'. rewrite E. destruct r as [r|]; [done|exfalso].
  rewrite wgc_acquire_app in E. apply bind_Some in E as ([[[r1|] c1] s1] & _ & E); [done|].
  apply bind_Some in E as ([[r2 c2] s2] & E & [= -> _ _]). cbn [wgc_acquire_frame] in E.
  apply bind_Some in E as ([[a1 c3] s3] & E1 & E). destruct a1; [done|].
  apply bind_Some in E as ([[a2 c4] s4] & E2 & [= -> _ _]).
  apply bind_Some in E2 as ([[a3 c5] s5] & E2 & E3).
  destruct (quiet_turn_token _ _ _ _ E1) as [Ht|[? ?]]; [|done].
  unfold wgc_turn in E2. cbn [wgc_quiet tn_waiting wgc_events foldl] in E2. rewrite Ht in E2.
  injection E2 as <- _ _. done.
Qed.

Lemma wgc_acquire_answers_witness :
  let s := mkWgcSession [] false 0 false (mkSizeInt32 2 2) 0 false in
  let frame := mkWgcFrame (Ok (mkSizeInt32 1 2)) (Ok 50) (Ok small_texture) (Ok tt) in
  let turns := [mkWgcTurn [Wgc_Pooled (Ok frame); Wgc_FrameArrived] [] [Wgc_FrameArrived] (Ok tt)] in
  ∃ r closed s', wgc_acquire_frame s (turns ++ [wgc_quiet; wgc_quiet]) = Some (Some r, closed, s').
Proof.
  intros s frame turns. apply (wgc_acquire_answers s turns). constructor; [|constructor]. split.
  - intros tx [= <-]. exact small_texture_whole.
  - intros size [= <-]. cbn. lia.
Defined.

(** ** The worker is stopped once and joined *)

Inductive CaptureStep :=
  | Step_Worker | Step_Reaper | Step_Next (n : nat) (spawned : bool)
  | Step_Stop (n m : nat) (in_time spawned : bool) | Step_Drop (spawned : bool).

Section discipline.
Context {S : Type} `{CaptureSession S}.
Abbreviation system := (CaptureSystem S).

Definition capture_step (s : system) (step : CaptureStep) : system :=
  match step with
  | Step_Worker => capture_worker_step s
  | Step_Reaper => reaper_step s
  | Step_Next n spawned => snd (source_next_frame n spawned s)
  | Step_Stop n m in_time spawned => snd (capture_stop n m in_time spawned s)
  | Step_Drop spawned => capture_drop spawned s
  end.
Definition capture_started (api : CaptureApi) (session : S) : system :=
  mkCaptureSystem (Capture_Running api) true true [] [] (Worker_Loop session) WorkerLifecycle_new 0.

Lemma capture_start_started {F} `{CaptureFactory F S} config (factory factory' : F) spawned com in_time s late :
  capture_start config factory spawned com in_time = (Ok s, late, factory') →
  late = None ∧ ∃ api session, s = capture_started api session.
Proof.
  unfold capture_start. destruct spawned; cbn [negb]; [|done].
  destruct (match com with Ok _ => _ | Err _ => _ end) as [[[api session]|] f]; [|done].
  destruct in_time; [|done]. intros [= <- <- _]. split; [done|]. by exists api, session.
Qed.

Definition worker_stops (w : CaptureWorker S) : Z := match w with Worker_Returned _ => 1 | _ => 0 end.

Record lifecycle_inv (s : system) : Prop := {
  li_joined : wl_worker (ca_lifecycle s) = Handle_Joined → worker_ended s = true;
  li_reaping : wl_reaping (ca_lifecycle s) = true → wl_worker (ca_lifecycle s) ≠ Handle_Held
}.
(** The channels hold at most one message between them, so that no send of the worker
    waits. *)
Record capture_core (s : system) : Prop := {
  ci_stops : ca_stops s = worker_stops (ca_worker s);
  ci_channels : (length (ca_commands s) + length (ca_responses s) ≤ 1)%nat;
  ci_lifecycle : lifecycle_inv s
}.
Record capture_inv (s : system) : Prop := {
  ci_core : capture_core s;
  ci_live : ca_state s ≠ Capture_Stopped →
    ca_sender s = true ∧ ca_receiver s = true ∧ ca_commands s = [] ∧ ca_responses s = [] ∧
    worker_stops (ca_worker s) = 0;
  ci_stopped : ca_state s = Capture_Stopped → ca_sender s = false
}.

Lemma worker_steps_still n s : capture_worker_step s = s → capture_worker_steps n s = s.
Proof. intros E. unfold capture_worker_steps. induction n as [|n IH]; [done|]. by rewrite Nat.iter_succ, IH. Qed.
Lemma worker_ended_still s : worker_ended s = true → capture_worker_step s = s.
Proof. unfold worker_ended, capture_worker_step. by destruct (ca_worker s). Qed.
Lemma worker_waits s : ca_commands s = [] → ca_sender s = true → capture_worker_step s = s.
Proof. intros Ec Es. unfold capture_worker_step. destruct (ca_worker s); [by rewrite Ec, Es|done..]. Qed.

(** The worker only empties channels, and changes nothing of the source. *)
Lemma capture_worker_step_lifecycle s : lifecycle_inv s → lifecycle_inv (capture_worker_step s).
Proof.
  intros [Hj Hr]. unfold capture_worker_step. destruct (ca_worker s) eqn:Ew; [|by split..].
  assert (wl_worker (ca_lifecycle s) ≠ Handle_Joined) as Hn
    by (intros Ej; specialize (Hj Ej); unfold worker_ended in Hj; by rewrite Ew in Hj).
  destruct (ca_commands s) as [|[] q].
  - destruct (ca_sender s); split; done.
  - destruct (session_next_frame session) as [[r session']|]; [destruct (ca_receiver s)|]; split; done.
  - destruct (session_stop session). split; done.
Qed.

Lemma capture_worker_step_core s : capture_core s → capture_core (capture_worker_step s).
Proof.
  intros Hi. pose proof (capture_worker_step_lifecycle s (ci_lifecycle s Hi)) as Hl.
  destruct Hi as [Hs Hc _]. revert Hl. unfold capture_worker_step.
  destruct (ca_worker s) as [session|session|] eqn:Ew; cbn in Hs;
    [|intros Hl; split; rewrite ?Ew; done..].
  destruct (ca_commands s) as [|[] q] eqn:Ec; cbn in Hc.
  - destruct (ca_sender s); intros Hl; [split; rewrite ?Ew, ?Ec; done|].
    split; cbn; [lia|lia|done].
  - destruct (session_next_frame session) as [[r session']|]; [destruct (ca_receiver s)|];
      intros Hl; split; cbn; rewrite ?length_app; cbn; try done; lia.
  - destruct (session_stop session) as [r session']. intros Hl.
    split; cbn; [lia|destruct (ca_receiver s); rewrite ?length_app; cbn; lia|done].
Qed.
Lemma worker_steps_core n s : capture_core s → capture_core (capture_worker_steps n s).
Proof.
  intros Hi. unfold capture_worker_steps. induction n; [done|]. rewrite Nat.iter_succ. by apply capture_worker_step_core.
Qed.
Lemma capture_worker_step_source s :
  ca_state (capture_worker_step s) = ca_state s ∧ ca_sender (capture_worker_step s) = ca_sender s ∧
  ca_receiver (capture_worker_step s) = ca_receiver s.
Proof.
  unfold capture_worker_step. destruct (ca_worker s); [|done..]. destruct (ca_commands s) as [|[] q].
  - by destruct (ca_sender s) eqn:E; rewrite ?E.
  - destruct (session_next_frame session) as [[r session']|]; [destruct (ca_receiver s) eqn:E|]; cbn;
      by rewrite ?E.
  - by destruct (session_stop session).
Qed.
Lemma worker_steps_source n s :
  ca_state (capture_worker_steps n s) = ca_state s ∧ ca_sender (capture_worker_steps n s) = ca_sender s.
Proof.
  unfold capture_worker_steps. induction n as [|n (IH1 & IH2)]; [done|]. rewrite Nat.iter_succ.
  destruct (capture_worker_step_source (Nat.iter n capture_worker_step s)) as (-> & -> & _). done.
Qed.
Lemma capture_worker_step_inv s : capture_inv s → capture_inv (capture_worker_step s).
Proof.
  intros Hi. destruct (decide (ca_state s = Capture_Stopped)) as [E|E].
  - destruct (capture_worker_step_source s) as (Es & Er & _).
    split; [by apply capture_worker_step_core, Hi|by rewrite Es|]. rewrite Er. intros _. by apply Hi.
  - destruct (ci_live s Hi E) as (? & ? & ? & _). by rewrite worker_waits.
Qed.

Lemma reap_lifecycle spawned (s s' : system) :
  lifecycle_inv s → ca_worker s' = ca_worker s →
  ca_lifecycle s' = reap_in_background spawned (ca_lifecycle s) → lifecycle_inv s'.
Proof.
  intros [Hj Hr] Ew El. assert (worker_ended s' = worker_ended s) as Ee
    by (unfold worker_ended; by rewrite Ew).
  split; rewrite El; unfold reap_in_background; rewrite ?Ee.
  - destruct (wl_reaping (ca_lifecycle s)); [done|]. destruct spawned; [|done].
    cbn. destruct (wl_worker (ca_lifecycle s)) eqn:E; [done|done|]. intros _. by apply Hj.
  - destruct (wl_reaping (ca_lifecycle s)) eqn:E; [intros _; by apply Hr|]. destruct spawned; [|done].
    cbn. by destruct (wl_worker (ca_lifecycle s)).
Qed.

Lemma reap_reaping l : wl_reaping (reap_in_background true l) = true.
Proof. unfold reap_in_background. by destruct (wl_reaping l) eqn:E. Qed.

Lemma reaper_step_inv s : capture_inv s → capture_inv (reaper_step s).
Proof.
  intros [[Hs Hc [Hj Hr]] Hlive Hst]. unfold reaper_step.
  assert (capture_inv s) as Hi by by split.
  destruct (wl_worker (ca_lifecycle s)) eqn:Ew; [done| |].
  - destruct (worker_ended s) eqn:Ee; [|done]. split; cbn; [|done..]. by split.
  - destruct (wl_reaping _) eqn:Er; [|done]. split; cbn; [|done..]. split; cbn; [done..|].
    split; [|done]. intros _. by apply Hj.
Qed.

Lemma stopping_inv spawned s : capture_core s → capture_inv (transition_to_stopped spawned s).
Proof. intros [Hs Hc Hl]. split; [split|done|done]; cbn; [done..|]. by eapply reap_lifecycle. Qed.

(** The worker meets the command the source has just sent. *)
Definition commanded (s : system) (c : CaptureCommand) : system :=
  ca_with s (ca_state s) (ca_sender s) (ca_receiver s) [c] (ca_responses s) (ca_lifecycle s).
Lemma live_try_send s c :
  capture_inv s → ca_state s ≠ Capture_Stopped →
  (ca_worker s = Worker_Panicked ∧ try_send s c = (Send_Disconnected, s)) ∨
  ∃ session, ca_worker s = Worker_Loop session ∧ try_send s c = (Send_Ok, commanded s c).
Proof.
  intros Hi Hn. destruct (ci_live s Hi Hn) as (_ & _ & Ec & _ & Hw). unfold try_send, worker_ended.
  destruct (ca_worker s); cbn in Hw; [right; rewrite Ec; by eexists|lia|by left].
Qed.
Lemma commanded_core s c :
  capture_inv s → ca_state s ≠ Capture_Stopped → capture_core (commanded s c).
Proof.
  intros Hi Hn. destruct (ci_live s Hi Hn) as (_ & _ & _ & Er & _). destruct (ci_core s Hi) as [Hs Hc Hl].
  split; cbn; [done|rewrite Er; cbn; lia|]. by destruct Hl.
Qed.

Lemma next_frame_steps n s session :
  capture_inv s → ca_state s ≠ Capture_Stopped → ca_worker s = Worker_Loop session →
  let s1 := commanded s Command_NextFrame in
  capture_worker_steps n s1 = s1 ∨ capture_worker_steps n s1 = ca_worked s1 [] [] Worker_Panicked 0 ∨
  ∃ r session', session_next_frame session = Some (r, session') ∧
    capture_worker_steps n s1 = ca_worked s1 []
      [Response_Frame (frame ← r; validated_frame frame)] (Worker_Loop session') 0.
Proof.
  intros Hi Hn Ew s1. destruct (ci_live s Hi Hn) as (Es & Er & Ec & Ep & _).
  destruct n as [|n]; [by left|]. right. unfold capture_worker_steps. rewrite Nat.iter_succ_r.
  assert (capture_worker_step s1 = match session_next_frame session with
    | None => ca_worked s1 [] [] Worker_Panicked 0
    | Some (r, session') => ca_worked s1 [] [Response_Frame (frame ← r; validated_frame frame)]
        (Worker_Loop session') 0 end) as ->.
  { unfold capture_worker_step. cbn. rewrite Ew, Er, Ep. by destruct (session_next_frame session) as [[]|]. }
  destruct (session_next_frame session) as [[r session']|].
  - right. exists r, session'. split; [done|]. apply worker_steps_still, worker_waits; [done|]. by cbn.
  - left. by apply worker_steps_still, worker_ended_still.
Qed.

Lemma live_inv (s s' : system) :
  capture_inv s → ca_state s ≠ Capture_Stopped → ca_state s' ≠ Capture_Stopped →
  ca_sender s' = ca_sender s → ca_receiver s' = ca_receiver s → ca_commands s' = [] →
  ca_responses s' = [] → ca_stops s' = 0 → worker_stops (ca_worker s') = 0 → lifecycle_inv s' →
  capture_inv s'.
Proof.
  intros Hi Hn Hn' Es Er Ec Ep Est Hw Hl. destruct (ci_live s Hi Hn) as (? & ? & _).
  split; [split|..]; [congruence|rewrite Ec, Ep; cbn; lia|done| |by intros].
  intros _. split_and!; congruence.
Qed.

(** What a call of [next_frame] may do in each state. *)
Definition next_frame_outcome (s : system) (r : BackendResult CapturedFrame) (s' : system) : Prop :=
  match ca_state s with
  | Capture_Running api =>
      match r with
      | Ok frame => CapturedFrame_validate frame = Ok tt ∧ ca_state s' = Capture_Running api
      | Err DeviceLost => ca_state s' = Capture_RecoverableLoss
      | Err _ => ca_state s' = Capture_Running api ∨ ca_state s' = Capture_Stopped ∧ ca_sender s' = false
      end
  | Capture_RecoverableLoss => r = Err DeviceLost ∧ s' = s
  | Capture_Stopped => r = Err Stopped ∧ s' = s
  end.

Lemma validated_frame_Ok frame f : validated_frame frame = Ok f → CapturedFrame_validate f = Ok tt.
Proof.
  unfold validated_frame. destruct (CapturedFrame_validate frame) as [[]|] eqn:E; [|done].
  by intros [= <-].
Qed.

Lemma source_next_frame_spec n spawned s :
  capture_inv s →
  capture_inv (snd (source_next_frame n spawned s)) ∧
  next_frame_outcome s (fst (source_next_frame n spawned s)) (snd (source_next_frame n spawned s)).
Proof.
  intros Hi. unfold source_next_frame, next_frame_outcome.
  destruct (ca_state s) as [api| |] eqn:Est; [|by split..].
  assert (ca_state s ≠ Capture_Stopped) as Hn by by rewrite Est.
  destruct (ci_live s Hi Hn) as (Es & Er & Ec & Ep & Hw). rewrite Es. cbn [negb].
  destruct (live_try_send s Command_NextFrame Hi Hn) as [[Ew ->]|(session & Ew & ->)].
  { split; [apply stopping_inv, Hi|]. by right. }
  pose proof (commanded_core s Command_NextFrame Hi Hn) as Hcore.
  destruct (next_frame_steps n s session Hi Hn Ew) as [->|[->|(r & session' & _ & ->)]].
  - unfold recv_timeout, worker_ended. cbn [ca_responses commanded ca_with ca_worker]. rewrite Ep, Ew.
    split; [by apply stopping_inv|]. by right.
  - cbn. split; [|by right].
    apply (stopping_inv spawned (ca_worked (commanded s Command_NextFrame) [] [] Worker_Panicked 0)).
    destruct Hcore as [Hs Hc [Hj Hr]]. cbn in *. rewrite Ew in Hs.
    split; cbn; [cbn in Hs; lia|lia|]. split; [done|done].
  - cbn. set (s2 := ca_with (ca_worked _ _ _ _ _) _ _ _ _ _ _).
    destruct (ci_core s Hi) as [Hst _ [Hj Hr]]. rewrite Ew in Hst.
    assert (∀ state, state ≠ Capture_Stopped → capture_inv (ca_with s2 state (ca_sender s2) (ca_receiver s2)
      (ca_commands s2) (ca_responses s2) (ca_lifecycle s2))) as Hlive.
    { intros state Hstate. apply (live_inv s); [done..| |done|].
      - cbn in *. rewrite Hst. lia.
      - split; [|done]. cbn. intros Ej. specialize (Hj Ej). unfold worker_ended in Hj. by rewrite Ew in Hj. }
    assert (ca_state s2 = Capture_Running api) as Es2 by done.
    pose proof (Hlive (ca_state s2) ltac:(by rewrite Es2)) as Hsame.
    destruct (r ≫= validated_frame) as [f|e] eqn:Ef.
    + split; [exact Hsame|]. split; [|done]. destruct r as [f0|]; [|done]. by eapply validated_frame_Ok.
    + destruct e; (split; [first [exact Hsame | by apply Hlive]|]; first [done | by left]).
Qed.

(** A source that changes no channel and forgets its sender. *)
Lemma forget_core (s s' : system) :
  capture_core s → ca_worker s' = ca_worker s → ca_stops s' = ca_stops s →
  ca_lifecycle s' = ca_lifecycle s →
  (length (ca_commands s') + length (ca_responses s') ≤
   length (ca_commands s) + length (ca_responses s))%nat → capture_core s'.
Proof.
  intros [Hs Hc [Hj Hr]] Ew Est El Hlen. split; [congruence|lia|].
  split; rewrite El; [|done]. unfold worker_ended. rewrite Ew. exact Hj.
Qed.

Lemma request_stop_core n in_time s :
  capture_inv s → ca_state s ≠ Capture_Stopped →
  capture_core (snd (request_stop n in_time s)) ∧ ca_sender (snd (request_stop n in_time s)) = false.
Proof.
  intros Hi Hn. unfold request_stop. destruct (ci_live s Hi Hn) as (-> & _). cbn [negb].
  destruct (live_try_send s Command_Stop Hi Hn) as [[_ ->]|(session & _ & ->)].
  { split; [|done]. by eapply forget_core; [apply (ci_core s Hi)|..]. }
  pose proof (worker_steps_core n _ (commanded_core s Command_Stop Hi Hn)) as Hc.
  destruct in_time; cbn [negb]; [|split; [|done]; by eapply forget_core].
  unfold recv_timeout. destruct (ca_responses (capture_worker_steps n (commanded s Command_Stop))) as [|resp q] eqn:Ep.
  - destruct (worker_ended _); (split; [|done]; by eapply forget_core; [exact Hc|..]; rewrite ?Ep).
  - destruct resp; (split; [|done]; eapply forget_core; [exact Hc|done..|cbn; rewrite Ep; cbn; lia]).
Qed.

Lemma join_before_core spawned (s : system) : capture_core s → capture_core (snd (join_before spawned s)).
Proof.
  intros Hi. unfold join_before. destruct (wl_worker (ca_lifecycle s)) eqn:Eh; [|done..].
  destruct Hi as [Hs Hc Hl]. destruct (ca_worker s) eqn:Ew; (split; cbn; [by rewrite Ew|done|]).
  - by eapply reap_lifecycle.
  - split; [|done]. intros _. unfold worker_ended. cbn. by rewrite Ew.
  - split; [|done]. intros _. unfold worker_ended. cbn. by rewrite Ew.
Qed.
Lemma join_before_source spawned (s : system) :
  ca_state (snd (join_before spawned s)) = ca_state s ∧
  ca_sender (snd (join_before spawned s)) = ca_sender s.
Proof. unfold join_before. destruct (wl_worker _); [|done..]. by destruct (ca_worker s). Qed.

Lemma capture_stop_inv n m in_time spawned s :
  capture_inv s → capture_inv (snd (capture_stop n m in_time spawned s)) ∧
    ca_state (snd (capture_stop n m in_time spawned s)) = Capture_Stopped.
Proof.
  intros Hi. unfold capture_stop. case_bool_decide as Hst; [done|].
  destruct (request_stop_core n in_time s Hi Hst) as [Hc Es].
  destruct (request_stop n in_time s) as [r s1]. cbn [snd] in Hc, Es.
  set (s2 := ca_with s1 _ _ _ _ _ _). assert (capture_core s2) as Hc2 by by eapply forget_core.
  pose proof (join_before_core spawned _ (worker_steps_core m s2 Hc2)) as Hc3.
  destruct (join_before_source spawned (capture_worker_steps m s2)) as [Ej1 Ej2].
  destruct (worker_steps_source m s2) as [Ew1 Ew2]. rewrite Ew1 in Ej1. rewrite Ew2 in Ej2.
  destruct (join_before spawned (capture_worker_steps m s2)) as [jr s3]. cbn [snd] in *.
  split; [|exact Ej1]. split; [done|by rewrite Ej1|]. intros _. by rewrite Ej2.
Qed.

Lemma try_send_core s c :
  capture_inv s → ca_state s ≠ Capture_Stopped → capture_core (snd (try_send s c)).
Proof.
  intros Hi Hn. destruct (live_try_send s c Hi Hn) as [[_ ->]|(session & _ & ->)]; [apply Hi|].
  by apply commanded_core.
Qed.
Lemma capture_drop_inv spawned s : capture_inv s → capture_inv (capture_drop spawned s).
Proof.
  intros Hi. unfold capture_drop.
  set (s1 := if bool_decide _ then s else _).
  assert (capture_core s1 ∧ ca_sender s1 = false) as [Hc Es].
  { unfold s1. case_bool_decide as Hst; [split; [apply Hi|by apply Hi]|].
    destruct (ci_live s Hi Hst) as (-> & _). split; [|done].
    eapply forget_core; [by apply (try_send_core s Command_Stop)|done..]. }
  clearbody s1. destruct Hc as [Hs Hc Hl]. split; [split|done|done]; cbn; [done|lia|].
  by eapply reap_lifecycle.
Qed.

Lemma capture_step_inv s step : capture_inv s → capture_inv (capture_step s step).
Proof.
  intros Hi. destruct step; cbn [capture_step].
  - by apply capture_worker_step_inv.
  - by apply reaper_step_inv.
  - by apply source_next_frame_spec.
  - by apply capture_stop_inv.
  - by apply capture_drop_inv.
Qed.
Lemma capture_run_inv api session steps :
  capture_inv (foldl capture_step (capture_started api session) steps).
Proof.
  assert (capture_inv (capture_started api session)) as H0.
  { split; [split|..]; cbn; [done|lia|by split|done|done]. }
  revert H0. generalize (capture_started api session). induction steps as [|step steps IH];
    intros s Hs; [done|]. cbn. by apply IH, capture_step_inv.
Qed.

(** The capture source and its worker, over every interleaving of frames, stops,
    drops, timeouts, failed thread starts and panics with the moves of the worker and the
    reaper: the session is stopped at most once, exactly when the worker returned, and
    never while the source still runs; no send of the worker waits; the thread is joined
    only after it ended; and a next call of [next_frame] answers as its state demands: a
    lost device is answered without asking the worker again, a stopped source stays
    stopped, and every frame is valid. *)
Theorem capture_worker_discipline api session steps :
  let s := foldl capture_step (capture_started api session) steps in
  0 ≤ ca_stops s ≤ 1 ∧
  (ca_stops s = 1 ↔ ∃ final, ca_worker s = Worker_Returned final) ∧
  (ca_state s ≠ Capture_Stopped → ca_stops s = 0) ∧
  (length (ca_commands s) + length (ca_responses s) ≤ 1)%nat ∧
  (wl_worker (ca_lifecycle s) = Handle_Joined → worker_ended s = true) ∧
  ∀ n spawned, let '(r, s') := source_next_frame n spawned s in next_frame_outcome s r s'.
Proof.
  intros s. pose proof (capture_run_inv api session steps) as Hi. fold s in Hi.
  destruct (ci_core s Hi) as [Hs Hc [Hj _]].
  split_and!; [rewrite Hs; by destruct (ca_worker s)..| | |done|done|].
  - rewrite Hs. split; [|by intros [? ->]]. destruct (ca_worker s); [done| |done]. eauto.
  - intros Hn. rewrite Hs. by apply Hi.
  - intros n spawned. destruct (source_next_frame_spec n spawned s Hi) as [_ Ho].
    by destruct (source_next_frame n spawned s).
Qed.

(** Dropping the source releases everything, whatever happened before (a worker that
    still works on a frame, a lost device, a stop that timed out): one more move of the
    worker ends it, with its session stopped exactly once unless it panicked; and the
    reaper then joins the thread. *)
Theorem capture_teardown api session steps :
  let s := foldl capture_step (capture_started api session) steps in
  let s' := reaper_step (capture_worker_step (capture_drop true s)) in
  worker_ended s' = true ∧ wl_worker (ca_lifecycle s') = Handle_Joined ∧
  wl_finished (ca_lifecycle s') = true ∧
  (ca_worker s' = Worker_Panicked ∨ ca_stops s' = 1).
Proof.
  intros s. pose proof (capture_run_inv api session steps) as Hi. fold s in Hi.
  set (s1 := capture_drop true s). cbv zeta.
  pose proof (capture_drop_inv true s Hi) as Hi1. fold s1 in Hi1.
  assert (ca_sender s1 = false) as Es by by apply Hi1.
  assert (ca_receiver s1 = false) as Er by done.
  assert (wl_reaping (ca_lifecycle s1) = true) as Hr.
  { unfold s1, capture_drop. cbn [ca_lifecycle ca_with]. apply reap_reaping. }
  set (s2 := capture_worker_step s1).
  assert (worker_ended s2 = true) as He.
  { unfold s2, capture_worker_step. destruct (ca_worker s1) eqn:Ew; [|unfold worker_ended; by rewrite Ew..].
    destruct (ca_commands s1) as [|[] q]; rewrite ?Es, ?Er; [done| |by destruct (session_stop _)].
    by destruct (session_next_frame _) as [[]|]. }
  assert (ca_lifecycle s2 = ca_lifecycle s1) as El.
  { unfold s2, capture_worker_step. destruct (ca_worker s1) eqn:Ew; [|done..].
    destruct (ca_commands s1) as [|[] q]; rewrite ?Es, ?Er; [done| |by destruct (session_stop _)].
    by destruct (session_next_frame _) as [[]|]. }
  pose proof (capture_worker_step_inv s1 Hi1) as Hi2. fold s2 in Hi2.
  destruct (ci_core s2 Hi2) as [Hs _ [_ Hheld]]. rewrite El in Hheld. specialize (Hheld Hr).
  unfold reaper_step. rewrite El, Hr. destruct (wl_worker (ca_lifecycle s1)) eqn:Eh; [done|..];
    rewrite ?He; (split_and!; [by unfold worker_ended in *|done..|]); cbn;
    rewrite Hs; unfold worker_ended in He; destruct (ca_worker s2); [done|by right|by left..|done|by right|by left].
Qed.
End discipline.
