(* ===== verification/HostWorker.v ===== *)
(** * The host worker and the stream it makes (apps/nexus-desktop-host/src/worker.rs)

    The worker's loop over the streamer, with the moments at which it is stopped and at
    which the receiver of its datagrams goes away as data; and the whole stream of
    datagrams against the client's receiver. *)

From S2P Require Import Prelude VideoPacket Crypto VideoTransport VideoRoundtrip VideoSafety Capture Streamer Control ClientReceiver EndToEnd Input.

Open Scope Z_scope.

(** ** The worker *)

Record DesktopHostWorker := mkDesktopHostWorker {
  hw_session_id : string; hw_input_handler : HostInputHandler; hw_running : bool
}.
Definition DesktopHostWorker_new (session_id : string) : DesktopHostWorker :=
  mkDesktopHostWorker session_id HostInputHandler_new false.
Definition hw_set_running (w : DesktopHostWorker) (running : bool) : DesktopHostWorker :=
  mkDesktopHostWorker (hw_session_id w) (hw_input_handler w) running.
Definition DesktopHostWorker_stop (w : DesktopHostWorker) : DesktopHostWorker := hw_set_running w false.

(** The sends of one frame: [room] is how many more datagrams find a receiver, [None] if
    it stays.  What was sent, the room left, and whether a send failed. *)
Fixpoint send_datagrams (room : option nat) (datagrams : list bytes) : list bytes * option nat * bool :=
  match datagrams with
  | [] => ([], room, false)
  | dg :: datagrams =>
      match room with
      | Some O => ([], room, true)
      | _ => let '(sent, room, failed) := send_datagrams (pred <$> room) datagrams in
             (dg :: sent, room, failed)
      end
  end.

Section worker.
Context `{Aead}.
Abbreviation streamer := (HostVideoStreamer SyntheticCaptureSource).

(** The loop: for each turn, whether [stop] was called before its test.  The answer, [None]
    while it still runs at the end of the turns; the datagrams sent; the panic is the
    outer [None]. *)
Fixpoint stream_loop (bld : build) (w : DesktopHostWorker) (s : streamer) (room : option nat)
    (stops : list bool) :
    option (option (result StreamerError unit) * list bytes * DesktopHostWorker) :=
  match stops with
  | [] => Some (None, [], w)
  | stopped :: stops =>
      let w := if stopped : bool then DesktopHostWorker_stop w else w in
      if negb (hw_running w) then Some (Some (Ok tt), [], w) else
      match process_next_frame (E := Empty_set) (λ e, match e with end) bld s with
      | (None, _) => None
      | (Some (Err e), _) => Some (Some (Err e), [], w)
      | (Some (Ok datagrams), s) =>
          let '(sent, room, failed) := send_datagrams room datagrams in
          let w := if failed : bool then DesktopHostWorker_stop w else w in
          '(r, sent', w) ← stream_loop bld w s room stops;
          Some (r, sent ++ sent', w)
      end
  end.
Definition run_streamer (bld : build) (w : DesktopHostWorker) (aead_key : bytes) (width height : Z)
    (room : option nat) (stops : list bool) :
    option (option (result StreamerError unit) * list bytes * DesktopHostWorker) :=
  let w := hw_set_running w true in
  match HostVideoStreamer_new (SyntheticCaptureSource_new width height 30) aead_key width height with
  | Err e => Some (Some (Err e), [], w)
  | Ok s => stream_loop bld w s room stops
  end.
End worker.

(** ** A frame's datagrams at the receiver *)

Section frame.
Context (base : VideoPacketHeader) (payload : bytes).
Context (packets : list (VideoPacketHeader * bytes)).
Context (Hbase : header_ok base) (Hversion : hdr_version base = CURRENT_VERSION).
Context (Hfr : fragments base payload packets).

Lemma packet_frame_id p : p ∈ packets → hdr_frame_id p.1 = hdr_frame_id base.
Proof.
  destruct p as [h c]. intros Hp. apply list_elem_of_lookup in Hp as [i Hi].
  by destruct (fr_each _ _ _ Hfr _ _ _ Hi) as (_&_&_&_&_&_&?&_).
Qed.

(** A packet touches no frame but its own. *)
Lemma process_packet_ids r h c id :
  is_Some (ra_frames (process_packet r h c).2 !! id) →
  is_Some (ra_frames r !! id) ∨ id = hdr_frame_id h.
Proof.
  destruct (decide (id = hdr_frame_id h)) as [|Hne]; [by right|]. intros Hs. left. revert Hs.
  assert (is_Some (evict_for r (hdr_frame_id h) !! id) → is_Some (ra_frames r !! id)) as Hev.
  { intros [g Hg]. exists g. eapply lookup_weaken; [exact Hg|apply evict_for_subseteq]. }
  unfold process_packet. repeat (case_match; [done|]). repeat case_match; try done.
  unfold process_fragment, deliver_if_complete. repeat case_match; cbn;
    rewrite ?lookup_delete_ne, ?lookup_insert_ne by done; exact Hev.
Qed.

Lemma feed_ids ps r id :
  Forall (.∈ packets) ps → is_Some (ra_frames (feed r ps).2 !! id) →
  is_Some (ra_frames r !! id) ∨ id = hdr_frame_id base.
Proof.
  intros Hps. revert r. induction Hps as [|p ps Hp _ IH]; intros r; cbn; [by left|].
  pose proof (process_packet_ids r p.1 p.2 id) as Hi. destruct (process_packet r p.1 p.2) as [o r1].
  specialize (IH r1). destruct (feed r1 ps) as [os r2]. cbn in *. intros Hs.
  destruct (IH Hs) as [Hr|]; [|by right]. rewrite (packet_frame_id p Hp) in Hi. by apply Hi.
Qed.

Lemma feed_ok ps r : Forall (.∈ packets) ps → reassembler_ok r → reassembler_ok (feed r ps).2.
Proof.
  intros Hps. revert r. induction Hps as [|p ps Hp _ IH]; intros r Hr; cbn; [done|].
  destruct p as [h c]. pose proof (process_packet_ok r h c Hr (fragments_header_ok _ _ _ _ _ Hbase Hfr Hp)) as Hr1.
  cbn. destruct (process_packet r h c) as [o r1]. specialize (IH r1 Hr1).
  by destruct (feed r1 ps).
Qed.

Lemma feed_limits ps r :
  ra_max_frame_bytes (feed r ps).2 = ra_max_frame_bytes r.
Proof.
  revert r. induction ps as [|p ps IH]; intros r; cbn; [done|].
  destruct (process_packet_frames_only r p.1 p.2) as [F HF].
  destruct (process_packet r p.1 p.2) as [o r1]. cbn in HF. subst.
  specialize (IH (with_frames r F)). by destruct (feed _ ps).
Qed.

(** Nothing is delivered while a packet is missing. *)
Lemma feed_incomplete r ps p :
  reassembler_ok r → len payload ≤ ra_max_frame_bytes r →
  above (ra_last_authenticated_frame_id r) (hdr_frame_id base) →
  ra_frames r !! hdr_frame_id base = None →
  Forall (.∈ packets) ps → p ∈ packets → p ∉ ps →
  (feed r ps).1 = replicate (length ps) (Ok None).
Proof.
  intros Hr Hmax Habove Hnone Hps Hp Hnew.
  set (rest := filter (λ q, q ≠ p) packets).
  destruct (reassemble_fragments base payload packets r (ps ++ rest) p) as (f & Hfeed & _);
    [done..|by apply above_spec|done| |done| | |].
  - apply Forall_app. split; [done|]. apply Forall_in. intros q Hq.
    by apply list_elem_of_filter in Hq as [_ ?].
  - unfold rest; rewrite elem_of_app, list_elem_of_filter. naive_solver.
  - intros q Hq. destruct (decide (q = p)); [by left|right].
    unfold rest; rewrite elem_of_app, list_elem_of_filter. by right.
  - rewrite <-app_assoc, feed_app in Hfeed. cbn [fst] in Hfeed.
    rewrite length_app, replicate_add, <-app_assoc in Hfeed.
    by apply app_inj_1 in Hfeed as [? _]; [|rewrite length_feed, length_replicate].
Qed.

(** A packet of a frame that is not new changes nothing. *)
Lemma stale_packet r h c l :
  ra_last_authenticated_frame_id r = Some l → hdr_frame_id h ≤ l →
  ∃ o, process_packet r h c = (o, r) ∧ ∀ f, o ≠ Ok (Some f).
Proof.
  intros El Hle. unfold process_packet. rewrite El. cbn.
  rewrite (proj2 (Z.leb_le (hdr_frame_id h) l)) by done. repeat case_match; by eexists.
Qed.

Context `{Aead}.
Lemma receive_stale rx ps l :
  ra_last_authenticated_frame_id (rx_reassembler rx) = Some l → hdr_frame_id base ≤ l →
  Forall (.∈ packets) ps → receive_all rx (wire <$> ps) = rx.
Proof.
  intros El Hle Hps. induction Hps as [|p ps Hp _ IH]; [done|].
  change (receive_all rx (wire <$> p :: ps)) with (receive_all (accept_datagram rx (wire p)).2 (wire <$> ps)).
  rewrite (accept_wire base payload packets) by done.
  destruct (stale_packet (rx_reassembler rx) p.1 p.2 l) as (o & -> & Ho);
    [done|by rewrite packet_frame_id|].
  assert (rx_with rx (rx_reassembler rx) (rx_nonce_replay_window rx) (rx_latest_frame rx) = rx) as E
    by by destruct rx.
  destruct o as [[f|]|e]; [by destruct (Ho f)|cbn; rewrite E..]; done.
Qed.
End frame.

(** The moment at which a list of arrivals completes a frame. *)
Lemma complete_split {A} `{EqDecision A} (packets ps : list A) :
  packets ≠ [] → Forall (.∈ ps) packets →
  ∃ before p after, ps = before ++ p :: after ∧ p ∈ packets ∧ (p ∉ before) ∧
    ∀ q, q ∈ packets → q = p ∨ q ∈ before.
Proof.
  intros Hne. induction ps as [|x ps IH] using rev_ind; intros Hall.
  { destruct packets as [|q qs]; [done|]. apply Forall_cons_1 in Hall as [Hq _]. by apply not_elem_of_nil in Hq. }
  destruct (decide (Forall (.∈ ps) packets)) as [Hps|Hps].
  - destruct (IH Hps) as (before & p & after & -> & Hrest). exists before, p, (after ++ [x]).
    by rewrite <-app_assoc.
  - apply not_Forall_Exists in Hps; [|intros; apply _]. apply Exists_exists in Hps as (q & Hq & Hqps).
    rewrite Forall_in in Hall. assert (q = x) as ->.
    { apply Hall in Hq. apply elem_of_app in Hq as [?|Hq]; [done|]. by apply list_elem_of_singleton in Hq. }
    exists ps, x, []. split_and!; [done..|]. intros r Hr. apply Hall in Hr.
    apply elem_of_app in Hr as [?|Hr]; [by right|left]. by apply list_elem_of_singleton in Hr.
Qed.

(** ** The receiver between frames *)

(** A receiver ready for the frames from [next] on, sealed with nonces from [nonce] on. *)
Record listening (key : bytes) (domain : Z) (rx : ClientReceiver) (log : list Z)
    (next nonce : Z) : Prop := {
  ls_ok : receiver_ok rx log;
  ls_key : rx_frame_key rx = key;
  ls_domain : rx_nonce_domain rx = domain;
  ls_limit : ra_max_frame_bytes (rx_reassembler rx) = MAX_FRAME_PAYLOAD_SIZE;
  ls_ids : ∀ id, is_Some (ra_frames (rx_reassembler rx) !! id) → id < next;
  ls_last : above (ra_last_authenticated_frame_id (rx_reassembler rx)) next;
  ls_log : ∀ a, a ∈ log → a < nonce
}.

Lemma listening_fresh key domain rx log next nonce :
  listening key domain rx log next nonce → window_fresh log nonce.
Proof.
  intros Hl. split.
  - intros Hin. apply (ls_log _ _ _ _ _ _ Hl) in Hin. lia.
  - intros a Ha. apply (ls_log _ _ _ _ _ _ Hl) in Ha. unfold NONCE_REPLAY_WINDOW. lia.
Qed.

Section delivery.
Context `{AeadLaws}.
Context (key : bytes) (domain : Z).
Context (base : VideoPacketHeader) (ciphertext data : bytes).
Context (packets : list (VideoPacketHeader * bytes)).
Context (Hbase : header_ok base) (Hversion : hdr_version base = CURRENT_VERSION).
Context (Hfr : fragments base ciphertext packets).
Context (Hsize : len ciphertext ≤ MAX_FRAME_PAYLOAD_SIZE).
Context (Henc : aead_encrypt key (nonce_from_sequence domain (hdr_nonce_sequence base))
  (EncodedFrameMetadata_aad (frame_metadata base CODEC_CONFIG_ID)) data = Some ciphertext).

Definition base_job : DecodedFrameJob :=
  mkDecodedFrameJob (hdr_frame_id base) (hdr_timestamp_us base)
    (negb (Z.land (hdr_flags base) KEYFRAME =? 0)) data.
Abbreviation id := (hdr_frame_id base).
Abbreviation nonce := (hdr_nonce_sequence base).

Lemma listening_none rx log :
  listening key domain rx log id nonce → ra_frames (rx_reassembler rx) !! id = None.
Proof.
  intros Hl. destruct (ra_frames (rx_reassembler rx) !! id) eqn:E; [|done].
  assert (id < id) by (apply (ls_ids _ _ _ _ _ _ Hl); by rewrite E). lia.
Qed.

(** An incomplete frame leaves the receiver ready for the next one. *)
Lemma receive_incomplete rx log ps p :
  listening key domain rx log id nonce → Forall (.∈ packets) ps → p ∈ packets → p ∉ ps →
  listening key domain (receive_all rx (wire <$> ps)) log (id + 1) (nonce + 1) ∧
  rx_latest_frame (receive_all rx (wire <$> ps)) = rx_latest_frame rx.
Proof.
  intros Hl Hps Hp Hnew. destruct Hl as [[Hr Hw] Hk Hd Hm Hids Hlast Hlog] eqn:El.
  assert (listening key domain rx log id nonce) as Hl0 by (subst; done).
  rewrite (receive_pending base ciphertext packets); [|done..|].
  2: { apply (feed_incomplete base ciphertext packets Hbase Hfr) with p; [done|by rewrite Hm|done| |done..].
       by eapply listening_none. }
  split; [|done]. split; cbn.
  - split; [by apply (feed_ok base ciphertext packets)|done].
  - done.
  - done.
  - by rewrite feed_limits.
  - intros i Hi. apply (feed_ids base ciphertext packets Hfr) in Hi as [Hi| ->]; [|lia|done].
    apply Hids in Hi. lia.
  - rewrite feed_watermark. intros l El0. apply Hlast in El0. lia.
  - intros a Ha. apply Hlog in Ha. lia.
Qed.

(** The state after the frame is opened and committed. *)
Lemma accept_delivered rx r log f :
  rx_frame_key rx = key → rx_nonce_domain rx = domain →
  window_ok (rx_nonce_replay_window rx) log → window_fresh log nonce →
  above (ra_last_authenticated_frame_id r) id → delivers base ciphertext f →
  (accept_assembled rx r f).2 =
    rx_with rx (commit_authenticated_frame r id).2
      (commit_authenticated (rx_nonce_replay_window rx) nonce).2 (Some base_job).
Proof.
  intros Hk Hdom Hw Hfresh Habove Hd. unfold accept_assembled.
  rewrite (open_delivered rx key CODEC_CONFIG_ID base ciphertext data f); [|done..|by rewrite Hdom].
  destruct Hd as (_ & Hm & Hn & _). specialize (Hm 0). unfold frame_metadata in Hm.
  injection Hm as _ _ Hid Hts Hkf. rewrite Hn, Hid, Hts, Hkf.
  destruct (commit_authenticated_ok _ _ nonce Hw) as [Hc _].
  destruct (commit_authenticated _ nonce) as [b w]. cbn in Hc. destruct Hc as [_ ->]; [|done].
  cbn. unfold commit_authenticated_frame. apply above_spec in Habove. by rewrite Habove.
Qed.

(** The reassembler when the last missing packet has arrived. *)
Lemma feed_complete rx log before p :
  listening key domain rx log id nonce → Forall (.∈ packets) before → p ∈ packets →
  p ∉ before → (∀ q, q ∈ packets → q = p ∨ q ∈ before) →
  ∃ f r, delivers base ciphertext f ∧ reassembler_ok r ∧
    (∀ i, is_Some (ra_frames r !! i) → i ≤ id) ∧
    ra_last_authenticated_frame_id r = ra_last_authenticated_frame_id (rx_reassembler rx) ∧
    ra_max_frame_bytes r = MAX_FRAME_PAYLOAD_SIZE ∧
    receive_all rx (wire <$> before ++ [p]) =
      (accept_assembled (receive_all rx (wire <$> before)) r f).2 ∧
    ∃ r1, receive_all rx (wire <$> before) =
      rx_with rx r1 (rx_nonce_replay_window rx) (rx_latest_frame rx).
Proof.
  intros Hl Hbefore Hp Hnew Hcov. pose proof Hl as [[Hr Hw] Hk Hd Hm Hids Hlast Hlog].
  destruct (reassemble_fragments base ciphertext packets (rx_reassembler rx) before p)
    as (f & Hfeed & Hdel); [done|done|done|by rewrite Hm|by apply above_spec|by eapply listening_none|done|done|done|done|].
  rewrite feed_app in Hfeed. cbn [fst] in Hfeed.
  apply app_inj_1 in Hfeed as [Hpend Hlst]; [|by rewrite length_feed, length_replicate].
  pose proof (receive_pending base ciphertext packets Hbase Hversion Hfr rx before Hbefore Hpend) as Hrecv.
  pose proof (feed_ok base ciphertext packets Hbase Hfr before (rx_reassembler rx) Hbefore Hr) as Hr1.
  pose proof (feed_limits before (rx_reassembler rx)) as Hm1.
  pose proof (feed_watermark (rx_reassembler rx) before) as Hl1.
  pose proof (λ i, feed_ids base ciphertext packets Hfr before (rx_reassembler rx) i Hbefore) as Hids1.
  revert Hrecv Hlst Hr1 Hm1 Hl1 Hids1. generalize (feed (rx_reassembler rx) before).2.
  intros r1 Hrecv Hlst Hr1 Hm1 Hl1 Hids1.
  cbn [feed] in Hlst. destruct (process_packet r1 p.1 p.2) as [o r2] eqn:Eo. cbn in Hlst.
  injection Hlst as ->. exists f, r2.
  destruct (process_packet_frames_only r1 p.1 p.2) as [F HF]. rewrite Eo in HF. cbn in HF.
  split_and!; [done| | |by rewrite HF|by rewrite HF; cbn; rewrite Hm1| |by eexists].
  - destruct p as [h c]. pose proof (process_packet_ok r1 h c Hr1) as Hok. cbn in Eo. rewrite Eo in Hok.
    apply Hok. by eapply fragments_header_ok.
  - intros i Hi. pose proof (process_packet_ids r1 p.1 p.2 i) as Hpi. rewrite Eo in Hpi.
    apply Hpi in Hi as [Hi| ->]; [|by rewrite (packet_frame_id base ciphertext packets)].
    apply Hids1 in Hi as [Hi| ->]; [apply Hids in Hi; lia|lia].
  - rewrite fmap_app. unfold receive_all at 1. rewrite fold_left_app.
    fold (receive_all rx (wire <$> before)). cbn [fmap list_fmap fold_left]. rewrite Hrecv.
    rewrite (accept_wire base ciphertext packets) by done. cbn [rx_reassembler rx_with]. by rewrite Eo.
Qed.

Lemma commit_frame_state r i :
  above (ra_last_authenticated_frame_id r) i →
  ra_last_authenticated_frame_id (commit_authenticated_frame r i).2 = Some i ∧
  ra_max_frame_bytes (commit_authenticated_frame r i).2 = ra_max_frame_bytes r ∧
  ∀ j, is_Some (ra_frames (commit_authenticated_frame r i).2 !! j) → is_Some (ra_frames r !! j).
Proof.
  intros Ha. apply above_spec in Ha. unfold commit_authenticated_frame. rewrite Ha. cbn.
  split_and!; [done..|]. intros j [f Hf]. apply map_lookup_filter_Some in Hf as [Hf _]. by exists f.
Qed.

(** A complete frame is published, in whatever order and however often its datagrams
    arrive. *)
Lemma receive_complete rx log ps :
  listening key domain rx log id nonce → Forall (.∈ packets) ps → Forall (.∈ ps) packets →
  listening key domain (receive_all rx (wire <$> ps)) (log ++ [nonce]) (id + 1) (nonce + 1) ∧
  rx_latest_frame (receive_all rx (wire <$> ps)) = Some base_job.
Proof.
  intros Hl Hps Hall. assert (packets ≠ []) as Hne.
  { intros E. pose proof (fr_some _ _ _ Hfr) as Hs. rewrite E in Hs. unfold len in Hs. cbn in Hs. lia. }
  destruct (complete_split packets ps Hne Hall) as (before & p & after & -> & Hp & Hnew & Hcov).
  apply Forall_app in Hps as [Hbefore Hafter]. apply Forall_cons_1 in Hafter as [_ Hafter].
  pose proof Hl as [[Hr Hw] Hk Hd Hm Hids Hlast Hlog]. pose proof (listening_fresh _ _ _ _ _ _ Hl) as Hfresh.
  destruct (feed_complete rx log before p Hl Hbefore Hp Hnew Hcov)
    as (f & r & Hdel & Hr2 & Hids2 & Hl2 & Hm2 & Hrecv & r1 & Hrx1).
  rewrite Hrx1 in Hrecv. rewrite (accept_delivered _ r log f) in Hrecv;
    [|done|done|done|done|by rewrite Hl2|done].
  assert (above (ra_last_authenticated_frame_id r) id) as Ha by by rewrite Hl2.
  destruct (commit_frame_state r id Ha) as (Hc1 & Hc2 & Hc3).
  assert (receive_all rx (wire <$> before ++ p :: after) = receive_all rx (wire <$> before ++ [p])) as ->.
  { rewrite cons_middle, app_assoc, fmap_app. unfold receive_all at 1. rewrite fold_left_app.
    fold (receive_all rx (wire <$> before ++ [p])).
    apply (receive_stale base ciphertext packets Hbase Hversion Hfr) with id; [by rewrite Hrecv|done|done]. }
  rewrite Hrecv. split; [|done]. split; cbn.
  - split; cbn; [by apply commit_ok|]. destruct (commit_authenticated_ok _ _ nonce Hw) as [Hc Hw'].
    by rewrite (proj2 Hc Hfresh) in Hw'.
  - done.
  - done.
  - by rewrite Hc2.
  - intros i Hi. apply Hc3, Hids2 in Hi. lia.
  - rewrite Hc1. intros l [= <-]. lia.
  - intros a Ha'. apply elem_of_app in Ha' as [Ha'|Ha']; [apply Hlog in Ha'; lia|].
    apply list_elem_of_singleton in Ha'. lia.
Qed.
End delivery.

(** ** The frames of the worker *)

Section stream.
Context (key : bytes) (width height : Z).

Definition stream_config : EncoderConfig := mkEncoderConfig Codec_H264 width height 30 4000000.
(** The [i]th encoded frame, from zero. *)
Definition stream_encoded (i : Z) : EncodedFrame :=
  let keyframe := i mod DEFAULT_KEYFRAME_INTERVAL =? 0 in
  mkEncodedFrame (i + 1) (i * 1000000 / 30) keyframe
    (build_annex_b_payload stream_config keyframe
       (generate_bgra_pattern (mkSyntheticCaptureSource width height 30 (i + 1)) (i + 1))).
(** The streamer after [i] frames. *)
Definition stream_state (i : Z) : HostVideoStreamer SyntheticCaptureSource :=
  mkHostVideoStreamer (mkSyntheticCaptureSource width height 30 i)
    (mkSoftwareFallbackEncoder (Some stream_config) DEFAULT_KEYFRAME_INTERVAL i (i =? 0))
    LatestFrameQueue_new key (mkNonceSequence 1 i false) 1 1.
Definition encoded_job (e : EncodedFrame) : DecodedFrameJob :=
  mkDecodedFrameJob (enc_frame_id e) (enc_timestamp_us e) (enc_keyframe e) (enc_data e).

Context `{Aead}.

Lemma run_streamer_start bld w room stops :
  0 < width → 0 < height →
  run_streamer bld w key width height room stops =
    stream_loop bld (hw_set_running w true) (stream_state 0) room stops.
Proof.
  intros Hw Hh. unfold run_streamer, HostVideoStreamer_new. cbn. unfold software_configure, EncoderConfig_validate.
  cbn. rewrite (proj2 (Z.eqb_neq width 0)), (proj2 (Z.eqb_neq height 0)) by lia. done.
Qed.

(** A turn of the streamer on the synthetic source. *)
Lemma process_stream bld i :
  0 ≤ i → process_next_frame (E := Empty_set) (λ e, match e with end) bld (stream_state i) =
  packetize_encoded_frame bld
    (mkHostVideoStreamer (mkSyntheticCaptureSource width height 30 (i + 1))
      (mkSoftwareFallbackEncoder (Some stream_config) DEFAULT_KEYFRAME_INTERVAL (i + 1) false)
      LatestFrameQueue_new key (mkNonceSequence 1 i false) 1 1) (stream_encoded i).
Proof.
  intros Hi. unfold process_next_frame, stream_state. cbn -[generate_bgra_pattern packetize_encoded_frame].
  unfold software_encode. cbn -[generate_bgra_pattern packetize_encoded_frame].
  rewrite !Z.eqb_refl. cbn -[generate_bgra_pattern packetize_encoded_frame].
  unfold stream_encoded. cbn [packetize_encode_result].
  assert ((i =? 0) || (i mod DEFAULT_KEYFRAME_INTERVAL =? 0) = (i mod DEFAULT_KEYFRAME_INTERVAL =? 0)) as Ek.
  { unfold DEFAULT_KEYFRAME_INTERVAL. destruct (Z.eqb_spec i 0) as [->|]; done. }
  rewrite Ek. unfold saturating_sub. replace (Z.max 0 (i + 1 - 1)) with i by lia. done.
Qed.

Lemma packetize_encoded_nonce {C} bld (s : HostVideoStreamer C) e ds s' :
  packetize_encoded_frame bld s e = (Some (Ok ds), s') →
  enc_frame_id e ≤ 4294967295 ∧ s' = hs_with_nonce s (next_nonce (hs_nonce_seq s)).2.
Proof.
  unfold packetize_encoded_frame, seal_video_frame, seal_encoded_frame.
  destruct (Z.leb_spec (enc_frame_id e) 4294967295); cbn [negb]; [|done].
  destruct (next_nonce (hs_nonce_seq s)) as [[n|] seq]; [|done].
  destruct (seal_session_payload _ _ _ _); cbn -[packetize_video_frame]; [|done].
  destruct (packetize_video_frame _ _ _); [|done]. by intros [= _ <-].
Qed.
Lemma packetize_encoded_total {C} bld (s : HostVideoStreamer C) e :
  streamer_ok s → encoded_ok e → is_Some (packetize_encoded_frame bld s e).1.
Proof.
  intros Hs He. unfold packetize_encoded_frame.
  destruct (Z.leb_spec (enc_frame_id e) 4294967295) as [Hle|]; cbn [negb]; [|done].
  destruct (seal_video_frame _ _ _ _ _) as [[f|] seq'] eqn:Eseal; [|done].
  apply seal_inv in Eseal as [En _]. rewrite En, nonce_sequence_suffix by apply Hs.
  change (base_header (hs_with_nonce s seq') e) with (base_header s e).
  destruct (packetize_video_frame _ _ _) as [packets|] eqn:Ep; [|done].
  pose proof (base_header_ok s e _ Hs He Hle (so_next _ Hs)) as Hb.
  pose proof (packetize_fragments _ _ 1200 _ Hb ltac:(done) Ep) as Hfr. cbn.
  by rewrite (encode_datagrams_wire _ _ packets Hb eq_refl Hfr) by (by apply Forall_in).
Qed.

(** What a turn makes: datagrams of the next frame, or an error, and never a panic. *)
Definition turn_datagrams (i : Z) (datagrams : list bytes) : Prop :=
  ∃ base ciphertext packets,
    header_ok base ∧ hdr_version base = CURRENT_VERSION ∧ fragments base ciphertext packets ∧
    datagrams = wire <$> packets ∧ len ciphertext ≤ MAX_FRAME_PAYLOAD_SIZE ∧
    hdr_frame_id base = i + 1 ∧ hdr_nonce_sequence base = i ∧
    base_job base (enc_data (stream_encoded i)) = encoded_job (stream_encoded i) ∧
    aead_encrypt key (nonce_from_sequence 1 (hdr_nonce_sequence base))
      (EncodedFrameMetadata_aad (frame_metadata base CODEC_CONFIG_ID)) (enc_data (stream_encoded i)) =
      Some ciphertext.
Lemma stream_turn bld i :
  0 ≤ i ≤ 4294967295 →
  ∃ r s', process_next_frame (E := Empty_set) (λ e, match e with end) bld (stream_state i) = (Some r, s') ∧
  ∀ datagrams, r = Ok datagrams →
    s' = stream_state (i + 1) ∧ i + 1 ≤ 4294967295 ∧ turn_datagrams i datagrams.
Proof.
  intros Hi. rewrite process_stream by lia. set (s := mkHostVideoStreamer _ _ _ _ _ _ _).
  assert (encoded_ok (stream_encoded i)) as He.
  { split; cbn; [lia|]. unfold uint. split; [apply Z.div_pos; lia|apply Z.div_lt_upper_bound; lia]. }
  assert (streamer_ok s) as Hs by (split; cbn; unfold uint; lia).
  destruct (packetize_encoded_total bld s _ Hs He) as [r Er].
  destruct (packetize_encoded_frame bld s (stream_encoded i)) as [o s'] eqn:E. cbn in Er. subst o.
  exists r, s'. split; [done|]. intros ds ->.
  destruct (packetize_encoded_inv bld s _ ds s' Hs He E) as (ct & packets & Hb & Hfr & -> & Hct & Henc).
  destruct (packetize_encoded_nonce _ _ _ _ _ E) as [Hid ->]. cbv zeta in *. cbn in Hid.
  split_and!; [|done|].
  - unfold next_nonce, stream_state, hs_with_nonce, s. cbn.
    rewrite (proj2 (Z.eqb_neq i u64_max)) by (unfold u64_max; lia).
    by rewrite (proj2 (Z.eqb_neq (i + 1) 0)) by lia.
  - exists (base_header s (stream_encoded i) i), ct, packets.
    split_and!; [done..| |done]. unfold base_job, encoded_job. cbn.
    by destruct (i mod DEFAULT_KEYFRAME_INTERVAL =? 0).
Qed.

Lemma send_datagrams_spec room ds sent room' failed :
  send_datagrams room ds = (sent, room', failed) →
  sent `prefix_of` ds ∧ (failed = false → sent = ds) ∧ (room = None → failed = false ∧ room' = None) ∧
  (∀ n, room = Some n → (length sent ≤ n)%nat ∧ room' = Some (n - length sent)%nat).
Proof.
  revert room sent room' failed. induction ds as [|d ds IH]; intros room sent room' failed; cbn.
  { intros [= <- <- <-]. split_and!; [done..|]. intros n ->. cbn. split; [lia|]. by rewrite Nat.sub_0_r. }
  destruct room as [[|n]|]; cbn [fmap option_fmap option_map].
  - intros [= <- <- <-]. split_and!; [apply prefix_nil|done..|]. by intros n [= <-].
  - destruct (send_datagrams (Some (pred (S n))) ds) as [[s r] f] eqn:E. intros [= <- <- <-].
    destruct (IH _ _ _ _ E) as (Hp & Hf & _ & Hn). split_and!; [by apply prefix_cons|by intros ->%Hf|done|].
    intros m [= <-]. destruct (Hn n eq_refl) as [? ->]. cbn. split; [lia|done].
  - destruct (send_datagrams None ds) as [[s r] f] eqn:E. intros [= <- <- <-].
    destruct (IH _ _ _ _ E) as (Hp & Hf & Hn & _). split_and!; [by apply prefix_cons|by intros ->%Hf|done|done].
Qed.

(** The frames of a run, from the [i]th on. *)
Fixpoint turn_frames (i : Z) (frames : list (list bytes)) : Prop :=
  match frames with
  | [] => True
  | datagrams :: frames => turn_datagrams i datagrams ∧ turn_frames (i + 1) frames
  end.

Lemma stream_loop_spec bld stops : ∀ w i room,
  0 ≤ i ≤ 4294967295 →
  ∃ r sent w' frames, stream_loop bld w (stream_state i) room stops = Some (r, sent, w') ∧
    turn_frames i frames ∧ sent `prefix_of` concat frames ∧ (length frames ≤ length stops)%nat ∧
    (room = None → sent = concat frames) ∧ (∀ n, room = Some n → (length sent ≤ n)%nat) ∧
    (r = None → Forall (.= false) stops ∧ length frames = length stops) ∧
    (hw_running w = false → frames = []).
Proof.
  induction stops as [|stopped stops IH]; intros w i room Hi; cbn [stream_loop].
  { exists None, [], w, []. split_and!; done || (intros; cbn; lia) || constructor. }
  set (w1 := if stopped then _ else w).
  destruct (hw_running w1) eqn:Er; cbn [negb].
  2: { exists (Some (Ok tt)), [], w1, []. split_and!; done || (intros; cbn; lia). }
  assert (stopped = false) as -> by (unfold w1 in Er; by destruct stopped).
  destruct (stream_turn bld i Hi) as (r & s' & -> & Hr). destruct r as [ds|e].
  2: { exists (Some (Err e)), [], w1, []. split_and!; done || (intros; cbn; lia). }
  destruct (Hr ds eq_refl) as (-> & Hid & Hds).
  destruct (send_datagrams room ds) as [[sent room'] failed] eqn:Es.
  destruct (send_datagrams_spec _ _ _ _ _ Es) as (Hpre & Hfail & Hnone & Hroom).
  destruct (IH (if failed then DesktopHostWorker_stop w1 else w1) (i + 1) room' ltac:(lia))
    as (r & sent' & w' & frames & -> & Hfr & Hpre' & Hlen & Hn' & Hroom' & Hrun & Hstop).
  exists r, (sent ++ sent'), w', (ds :: frames). cbn [mbind option_bind concat length turn_frames].
  split_and!; [done|done|done| |lia| | | |].
  - destruct failed; [|rewrite Hfail by done; by apply prefix_app].
    rewrite (Hstop eq_refl) in *. cbn in Hpre'. apply prefix_nil_inv in Hpre' as ->.
    cbn. by rewrite !app_nil_r.
  - intros Hno. destruct (Hnone Hno) as [Hf Hr']. rewrite (Hfail Hf). f_equal. by apply Hn'.
  - intros n Hn. destruct (Hroom n Hn) as [Hle Er']. specialize (Hroom' _ Er'). rewrite length_app. lia.
  - intros Hnr. destruct (Hrun Hnr) as [Hf Hl]. split; [by constructor|lia].
  - intros Hrw. unfold w1 in Er. congruence.
Qed.
End stream.

(** ** The stream at the client *)

(** The newest frame of which every datagram arrived. *)
Fixpoint newest_complete (width height i : Z) (frames arrivals : list (list bytes))
    (latest : option DecodedFrameJob) : option DecodedFrameJob :=
  match frames, arrivals with
  | datagrams :: frames, arrived :: arrivals =>
      newest_complete width height (i + 1) frames arrivals
        (if bool_decide (Forall (.∈ arrived) datagrams)
         then Some (encoded_job (stream_encoded width height i)) else latest)
  | _, _ => latest
  end.

Section client.
Context `{AeadLaws}.

Lemma frame_received key width height rx log i datagrams arrived :
  listening key 1 rx log (i + 1) i → turn_datagrams key width height i datagrams →
  Forall (.∈ datagrams) arrived →
  ∃ log', listening key 1 (receive_all rx arrived) log' (i + 1 + 1) (i + 1) ∧
    rx_latest_frame (receive_all rx arrived) =
      if bool_decide (Forall (.∈ arrived) datagrams)
      then Some (encoded_job (stream_encoded width height i)) else rx_latest_frame rx.
Proof.
  intros Hl (base & ct & packets & Hb & Hv & Hfr & -> & Hct & Hid & Hn & Hjob & Henc) Harr.
  destruct (arrivals_packets _ _ Harr) as (ps & -> & Hps). rewrite <-Hid, <-Hn in Hl.
  assert (bool_decide (Forall (.∈ wire <$> ps) (wire <$> packets)) = bool_decide (Forall (.∈ ps) packets)) as ->.
  { apply bool_decide_ext. rewrite !Forall_in. split.
    - intros Hall q Hq. assert (wire q ∈ wire <$> ps) as Hin by (apply Hall; by apply list_elem_of_fmap_2).
      apply list_elem_of_fmap in Hin as (q' & E & Hq'). rewrite Forall_in in Hps.
      by rewrite (wire_inj base ct packets Hb Hv Hfr q q' Hq (Hps q' Hq') E).
    - intros Hall x Hx. apply list_elem_of_fmap in Hx as (q & -> & Hq).
      by apply list_elem_of_fmap_2, Hall. }
  case_bool_decide as Hc.
  - destruct (receive_complete key 1 base ct (enc_data (stream_encoded width height i)) packets Hb Hv Hfr
      Hct Henc rx log ps Hl Hps Hc) as [Hl' Hlatest].
    exists (log ++ [hdr_nonce_sequence base]). rewrite Hid, Hn, Hjob in *. done.
  - apply not_Forall_Exists in Hc; [|intros; apply _]. apply Exists_exists in Hc as (p & Hp & Hnew).
    destruct (receive_incomplete key 1 base ct (enc_data (stream_encoded width height i)) packets Hb Hv Hfr
      Hct Henc rx log ps p Hl Hps Hp Hnew)
      as [Hl' Hlatest].
    exists log. rewrite Hid, Hn in *. done.
Qed.

Lemma frames_received key width height frames : ∀ arrivals rx log i,
  listening key 1 rx log (i + 1) i → turn_frames key width height i frames →
  Forall2 (λ arrived datagrams, Forall (.∈ datagrams) arrived) arrivals frames →
  rx_latest_frame (receive_all rx (concat arrivals)) =
    newest_complete width height i frames arrivals (rx_latest_frame rx).
Proof.
  induction frames as [|ds frames IH]; intros arrivals rx log i Hl Hfr Har; inversion Har as [|arrived ds' arrivals' ? Ha Har']; subst; [done|].
  destruct Hfr as [Hds Hfr]. destruct (frame_received key width height rx log i ds arrived Hl Hds Ha)
    as (log' & Hl' & Hlatest).
  cbn [concat newest_complete]. unfold receive_all. rewrite fold_left_app.
  fold (receive_all rx arrived). rewrite <-Hlatest. by eapply IH.
Qed.

(** The stream against a receiver that has seen nothing. *)
Lemma stream_received key width height frames arrivals :
  turn_frames key width height 0 frames →
  Forall2 (λ arrived datagrams, Forall (.∈ datagrams) arrived) arrivals frames →
  rx_latest_frame (receive_all (ClientReceiver_new key 1) (concat arrivals)) =
    newest_complete width height 0 frames arrivals None.
Proof.
  intros Hfr Har. apply (frames_received key width height frames arrivals (ClientReceiver_new key 1) [] 0); [|done|done].
  split; cbn; try done; [apply receiver_new_ok|..].
  - intros id [f Hf]. by rewrite lookup_empty in Hf.
  - intros a Ha. by apply not_elem_of_nil in Ha.
Qed.

(** The host worker's stream at the client, over a network that loses, repeats and
    reorders the datagrams of a frame: the worker never panics; what it sends is a prefix
    of the datagrams of its frames, all of them while the channel has a receiver; it still
    runs only if it was never stopped; and whatever part of each frame arrives, the
    client that holds the key shows the newest frame all of whose datagrams arrived, with
    the identifier, the timestamp, the keyframe mark and the encoded picture of the
    synthetic source, as if the incomplete frames had never been sent. *)
Theorem worker_stream_reaches_client bld w key width height room stops :
  0 < width → 0 < height →
  ∃ r sent w' frames,
    run_streamer bld w key width height room stops = Some (r, sent, w') ∧
    sent `prefix_of` concat frames ∧ (room = None → sent = concat frames) ∧
    (r = None → Forall (.= false) stops ∧ length frames = length stops) ∧
    ∀ arrivals,
      Forall2 (λ arrived datagrams, Forall (.∈ datagrams) arrived) arrivals frames →
      rx_latest_frame (receive_all (ClientReceiver_new key 1) (concat arrivals)) =
        newest_complete width height 0 frames arrivals None.
Proof.
  intros Hw Hh. rewrite run_streamer_start by done.
  destruct (stream_loop_spec key width height bld stops (hw_set_running w true) 0 room ltac:(lia))
    as (r & sent & w' & frames & E & Hfr & Hpre & _ & Hall & _ & Hrun & _).
  exists r, sent, w', frames. split_and!; [done..|].
  intros arrivals. by apply stream_received.
Qed.
End client.

(** Two frames of one pixel, and then a stop. *)
Definition small_worker : DesktopHostWorker := DesktopHostWorker_new "session-1".
Lemma worker_stream_reaches_client_witness :
  match @run_streamer toy_aead Release small_worker [x09] 1 1 None [false; false; true] with
  | Some (r, sent, w) => r = Some (Ok tt) ∧ length sent = 2%nat ∧ hw_running w = false
  | None => False
  end ∧
  ∃ r sent w' frames,
    @run_streamer toy_aead Release small_worker [x09] 1 1 None [false; false; true] = Some (r, sent, w') ∧
    sent `prefix_of` concat frames ∧ ((None : option nat) = None → sent = concat frames) ∧
    (r = None → Forall (.= false) [false; false; true] ∧ length frames = 3%nat) ∧
    ∀ arrivals,
      Forall2 (λ arrived datagrams, Forall (.∈ datagrams) arrived) arrivals frames →
      rx_latest_frame (@receive_all toy_aead (ClientReceiver_new [x09] 1) (concat arrivals)) =
        newest_complete 1 1 0 frames arrivals None.
Proof.
  split; [vm_compute; split_and!; reflexivity|].
  apply (@worker_stream_reaches_client toy_aead toy_aead_laws Release small_worker [x09] 1 1 None
    [false; false; true]); lia.
Defined.
