(* ===== verification/AgentIdentity.v ===== *)
(** * The agent's identity and its enrollment (apps/nexus-agent/src/identity.rs, enroll.rs)

    The identity file with the failures of the file system as arguments, the enrollment
    client with the answer of the control plane as an argument, and both against the
    control plane's handler. *)

From S2P Require Import Prelude RustStr Common Crypto Protocol Enrollment AuditLog Storage ControlPlane Authorization.

Open Scope string_scope.
Open Scope list_scope.
Open Scope Z_scope.

(** ** The identity file *)

Inductive IdentityError :=
  | Identity_Io | Identity_Serialization (message : string) | Identity_InvalidKey (message : string)
  | Identity_NotEnrolled.
Record StoredIdentity := mkStoredIdentity {
  si_device_private_key : bytes; si_credential : option DeviceCredential
}.
Record AgentIdentity := mkAgentIdentity {
  ai_storage_path : string; ai_signing_key : bytes; ai_credential : option DeviceCredential
}.

(** The files by path, and which of the calls of an operation fail; a failed write leaves
    the file with the given content. *)
Abbreviation Files := (gmap string bytes).
Record IoFaults := mkIoFaults {
  io_read : bool; io_create_dir : bool; io_write : option (option bytes)
}.
Definition io_works : IoFaults := mkIoFaults false false None.

Section identity.
Context `{SerdeJson StoredIdentity, SerdeJsonDe StoredIdentity}.

(** [save] *)
Definition AgentIdentity_save (i : AgentIdentity) (faults : IoFaults) (files : Files) :
    result IdentityError unit * Files :=
  if io_create_dir faults then (Err Identity_Io, files) else
  match json_to_vec (mkStoredIdentity (ai_signing_key i) (ai_credential i)) with
  | Err message => (Err (Identity_Serialization message), files)
  | Ok data =>
      match io_write faults with
      | Some (Some torn) => (Err Identity_Io, <[ai_storage_path i := torn]> files)
      | Some None => (Err Identity_Io, files)
      | None => (Ok tt, <[ai_storage_path i := data]> files)
      end
  end.

(** The key made of the nanoseconds since the epoch, a [u128]. *)
Definition clock_key (nanos : Z) : bytes := to_be_bytes 16 nanos ++ rev (to_be_bytes 16 nanos).

(** [load_or_generate]; the clock is [None] before the epoch, and unwrapping it panics. *)
Definition load_or_generate (storage_path : string) (nanos : option Z) (faults : IoFaults)
    (files : Files) : option (result IdentityError AgentIdentity * Files) :=
  match files !! storage_path with
  | Some data =>
      Some (if io_read faults then Err Identity_Io else
        match json_from_slice data with
        | Err message => Err (Identity_Serialization message)
        | Ok stored =>
            if negb (len (si_device_private_key stored) =? 32)
            then Err (Identity_InvalidKey "private key must be 32 bytes")
            else Ok (mkAgentIdentity storage_path (si_device_private_key stored) (si_credential stored))
        end, files)
  | None =>
      seed ← nanos;
      let identity := mkAgentIdentity storage_path (clock_key seed) None in
      match AgentIdentity_save identity faults files with
      | (Err e, files) => Some (Err e, files)
      | (Ok _, files) => Some (Ok identity, files)
      end
  end.

Definition from_signing_key (signing_key : bytes) (storage_path : string) : AgentIdentity :=
  mkAgentIdentity storage_path signing_key None.

Definition set_credential (i : AgentIdentity) (credential : DeviceCredential) (faults : IoFaults)
    (files : Files) : result IdentityError unit * AgentIdentity * Files :=
  let i := mkAgentIdentity (ai_storage_path i) (ai_signing_key i) (Some credential) in
  let '(r, files) := AgentIdentity_save i faults files in (r, i, files).

(** ** The enrollment client *)

Inductive EnrollmentClientError :=
  | Client_Identity (e : IdentityError) | Client_Http (message : string)
  | Client_Rejected (status : Z) (message : string) | Client_Serialization (message : string).

(** What a request is answered with: no answer, a status that is no success with its body,
    or a success with its body parsed. *)
Inductive EnrollResponse :=
  | Enroll_Unreachable (message : string) | Enroll_Rejected (status : Z) (body : string)
  | Enroll_Answered (credential : result string DeviceCredential).

Context `{Ed25519}.

Definition registration_request (i : AgentIdentity) (enrollment_token : EnrollmentToken)
    (hostname os architecture agent_version : string) (now : Z) : DeviceRegistrationRequest :=
  sign_proof (mkDeviceRegistrationRequest enrollment_token (ed_public (ai_signing_key i)) os
    architecture hostname agent_version now []) (ai_signing_key i).

Definition enroll (i : AgentIdentity) (enrollment_token : EnrollmentToken)
    (hostname os architecture agent_version : string) (now : Z)
    (post : DeviceRegistrationRequest → EnrollResponse) (faults : IoFaults) (files : Files) :
    result EnrollmentClientError DeviceCredential * AgentIdentity * Files :=
  match post (registration_request i enrollment_token hostname os architecture agent_version now) with
  | Enroll_Unreachable message => (Err (Client_Http message), i, files)
  | Enroll_Rejected status body => (Err (Client_Rejected status body), i, files)
  | Enroll_Answered (Err message) => (Err (Client_Http message), i, files)
  | Enroll_Answered (Ok credential) =>
      match set_credential i credential faults files with
      | (Err e, i, files) => (Err (Client_Identity e), i, files)
      | (Ok _, i, files) => (Ok credential, i, files)
      end
  end.
End identity.

(** ** What is saved is loaded *)

Section roundtrip.
Context `{SerdeJsonDeLaws StoredIdentity}.

Lemma save_load i faults files files' nanos reading :
  AgentIdentity_save i faults files = (Ok tt, files') → len (ai_signing_key i) = 32 →
  io_read reading = false →
  load_or_generate (ai_storage_path i) nanos reading files' = Some (Ok i, files').
Proof.
  unfold AgentIdentity_save. destruct (io_create_dir faults); [done|].
  destruct (json_to_vec _) as [data|] eqn:E; [|done]. apply json_from_to in E.
  destruct (io_write faults) as [[torn|]|]; [done..|]. intros [= <-] Hk Hr.
  unfold load_or_generate. rewrite lookup_insert_eq, Hr, E. cbn. rewrite Hk. by destruct i.
Qed.

Lemma length_clock_key nanos : len (clock_key nanos) = 32.
Proof. unfold clock_key. rewrite len_app. unfold len. by rewrite length_rev, !length_to_be_bytes. Qed.

(** The key of a loaded or generated identity has 32 bytes, so it can be saved again. *)
Lemma loaded_key path nanos faults files i files' :
  load_or_generate path nanos faults files = Some (Ok i, files') →
  len (ai_signing_key i) = 32 ∧ ai_storage_path i = path.
Proof.
  unfold load_or_generate. destruct (files !! path) as [data|].
  - destruct (io_read faults); [done|]. destruct (json_from_slice data) as [stored|]; [|done].
    destruct (Z.eqb_spec (len (si_device_private_key stored)) 32); [|done]. by intros [= <- _].
  - destruct nanos as [seed|]; [|done]. cbn. destruct (AgentIdentity_save _ _ _) as [[?|] ?]; [|done].
    intros [= <- _]. cbn. split; [apply length_clock_key|done].
Qed.
End roundtrip.

(** ** Enrollment with the control plane *)

Section enrollment.
Context {Value Sink : Type} (Null : Value) (json_object : list (string * string) → Value).
Context `{Ed25519Laws, Blake3}.
Context `{!SerdeJson CanonicalEnrollmentPayload, !SerdeJson CanonicalCredentialPayload}.
Context `{!SerdeJson EnrollmentToken, !SerdeJsonDe EnrollmentToken}.
Context `{!SerdeJson DeviceCredential, !SerdeJsonDe DeviceCredential, !SerdeJsonDeLaws DeviceCredential}.
Context `{!SerdeJson (list string), !SerdeJson (AuditEvent Value)}.
Context `{!AuditSink (ChainedAuditEvent Value) Sink}.
Context `{!SerdeJson StoredIdentity, !SerdeJsonDe StoredIdentity, !SerdeJsonDeLaws StoredIdentity}.
Context (dalek_error : string) (body_text : ApiError → string) (bld : build).

(** The control plane's answer; the body of a success is the credential's JSON. *)
Definition control_plane (st : AppState Value Sink) (now : Z) (f1 f2 : db_fault)
    (req : DeviceRegistrationRequest) : EnrollResponse :=
  match enroll_device_handler Null json_object dalek_error bld st req now f1 f2 with
  | None => Enroll_Unreachable "connection closed"
  | Some (Err (status, e), _) => Enroll_Rejected status (body_text e)
  | Some (Ok credential, _) =>
      Enroll_Answered (data ← json_to_vec credential; json_from_slice data)
  end.

Lemma registration_request_proved i tok hostname os arch version now :
  verify_proof dalek_error (registration_request i tok hostname os arch version now) = Ok tt.
Proof. by apply verify_proof_sign_proof. Qed.

(** The one refusal of the handler that concerns the proof of possession. *)
Definition proof_refused (e : ApiError) : bool :=
  match e with Api_InvalidProof _ => true | _ => false end.

Lemma issue_credential_no_proof (st : AppState Value Sink) req now status e :
  issue_credential bld st req now = Some (Err (status, e)) → proof_refused e = false.
Proof.
  unfold issue_credential. destruct (token_prefix _); [|done]. cbn.
  destruct (Id_new _); [|by intros [= <- <-]]. destruct (plain _ _ _); [|done]. cbn.
  repeat case_match; try done; by intros [= <- <-].
Qed.

Lemma enroll_refusal_no_proof (st st' : AppState Value Sink) req now f1 f2 status e :
  verify_proof dalek_error req = Ok tt →
  enroll_device_handler Null json_object dalek_error bld st req now f1 f2 =
    Some (Err (status, e), st') → proof_refused e = false.
Proof.
  intros Hp. unfold enroll_device_handler. rewrite Hp.
  destruct (EnrollmentToken_verify _ _ _ _); [|by intros [= <- <- _]].
  destruct (issue_credential _ _ _ _) as [[c|[s1 e1]]|] eqn:Ei; [| |done];
    cbn [mbind option_bind].
  - destruct (enroll_device _ _ _ _ _) as [[token|e1] db].
    + destruct (audit_built _ _ _ _) as [r st1] eqn:Ea.
      destruct r as [|[s1 e1]]; [done|]. cbn. intros [= <- <- _].
      unfold audit_built in Ea. destruct (AuditEventBuilder_build _ _); [|done].
      destruct (record_audit _ _ _) as [[|e2] st2]; [done|]. by injection Ea as <- <- _.
    + intros [= E _]. destruct e1; by injection E as <- <-.
  - intros [= <- <- _]. by eapply issue_credential_no_proof.
Qed.

Lemma control_plane_granted (st st' : AppState Value Sink) req now f1 f2 cred :
  enroll_device_handler Null json_object dalek_error bld st req now f1 f2 = Some (Ok cred, st') →
  control_plane st now f1 f2 req = Enroll_Answered (Ok cred).
Proof.
  intros E. unfold control_plane. rewrite E. f_equal. revert E. unfold enroll_device_handler.
  destruct (EnrollmentToken_verify _ _ _ _); [|done]. destruct (verify_proof _ _); [|done].
  destruct (issue_credential _ _ _ _) as [[c|]|]; [|done..]. cbn [mbind option_bind].
  destruct (enroll_device _ _ _ _ _) as [[token|] db] eqn:Ed; [|done].
  destruct (audit_built _ _ _ _) as [[]]; [|done]. cbn. intros [= <- _].
  apply enroll_device_ok in Ed as (_ & _ & _ & _ & _ & _ & _ & db1 & _ & _ & Hreg).
  unfold register_device in Hreg. cbn in Hreg.
  destruct (json_to_vec c) as [data|] eqn:Ej; [|done]. cbn. by apply json_from_to.
Qed.

(** C32. Enrollment, from the agent's key to its file.  The proof of possession the agent
    makes with its key verifies, and is never what the control plane refuses, whatever
    token, state, time or database fault.  What the agent enrolls with is what the control
    plane granted, and every grant that the agent can save enrolls it: the credential
    names the agent's own public key, the token's organization and device type, and
    verifies from then on for exactly a year; the control plane has registered that
    device; and the identity the agent loads after a restart is the one it enrolled with,
    the key and the credential. *)
Theorem agent_enrollment_end_to_end (st : AppState Value Sink) i tok hostname os arch version
    requested_at now f1 f2 faults files nanos reading :
  len (ai_signing_key i) = 32 → io_read reading = false →
  Id_new (tok_organization_id tok) = Ok (tok_organization_id tok) →
  0 ≤ now → uint 64 (now + 365 * 24 * 3600) →
  let req := registration_request i tok hostname os arch version requested_at in
  let answer := enroll_device_handler Null json_object dalek_error bld st req now f1 f2 in
  let outcome := enroll i tok hostname os arch version requested_at
    (control_plane st now f1 f2) faults files in
  verify_proof dalek_error req = Ok tt ∧
  (∀ status e st', answer = Some (Err (status, e), st') → ∀ why, e ≠ Api_InvalidProof why) ∧
  (∀ cred st', answer = Some (Ok cred, st') →
    let i' := mkAgentIdentity (ai_storage_path i) (ai_signing_key i) (Some cred) in
    cred_public_key cred = ed_public (ai_signing_key i) ∧
    cred_organization_id cred = tok_organization_id tok ∧
    cred_device_type cred = tok_device_type tok ∧
    (∀ t, DeviceCredential_verify dalek_error cred (ed_public (st_signing_key st)) t = Ok tt ↔
       now ≤ t ≤ now + 365 * 24 * 3600) ∧
    get_device (st_storage st') (cred_device_id cred) Db_works =
      Ok (Some (mkRegisteredDevice cred hostname version now true)) ∧
    (∀ files', AgentIdentity_save i' faults files = (Ok tt, files') →
       outcome = (Ok cred, i', files') ∧
       load_or_generate (ai_storage_path i) nanos reading files' = Some (Ok i', files'))) ∧
  (∀ cred i' files', outcome = (Ok cred, i', files') →
    i' = mkAgentIdentity (ai_storage_path i) (ai_signing_key i) (Some cred) ∧
    (∃ st', answer = Some (Ok cred, st')) ∧ AgentIdentity_save i' faults files = (Ok tt, files')).
Proof.
  intros Hkey Hread Horg Hnow Hexp req answer outcome.
  assert (verify_proof dalek_error req = Ok tt) as Hp by apply registration_request_proved.
  split; [exact Hp|]. split; [|split].
  - intros status e st' Ea why ->. by apply enroll_refusal_no_proof in Ea.
  - intros cred st' Ea i'.
    destruct (enrollment_handler_sound Null json_object dalek_error bld st st' req now f1 f2 cred
      Horg Hnow Hexp Ea) as (_ & _ & _ & Ho & Ht & Hk & Hv & _ & Hg).
    split_and!; [done..|]. intros files' Es. split; [|by apply (save_load i' faults files)].
    unfold outcome, enroll. fold req. rewrite (control_plane_granted st st' req now f1 f2 cred Ea).
    unfold set_credential. fold i'. by rewrite Es.
  - intros cred i' files'. unfold outcome, enroll. fold req.
    destruct (control_plane st now f1 f2 req) as [|status body|[c|]] eqn:Ec; [done..| |done].
    unfold set_credential. destruct (AgentIdentity_save _ _ _) as [[[]|] files1] eqn:Es; [|done].
    intros [= -> <- ->]. split; [done|]. split; [|done].
    unfold control_plane in Ec. fold answer in Ec.
    destruct answer as [[[c'|[status e]] st']|] eqn:Eh; [|done..].
    pose proof (control_plane_granted st st' req now f1 f2 c' Eh) as Eg. unfold control_plane in Eg.
    fold answer in Eg. rewrite Eh in Eg. exists st'. congruence.
Qed.
End enrollment.

(** ** Generated keys *)

(** A generated key is a function of the clock: whoever knows the second in which an
    agent made its identity has it among a thousand million candidates, and two agents
    that start at the same nanosecond have the same key. *)
Theorem generated_key_from_clock `{SerdeJson StoredIdentity, SerdeJsonDe StoredIdentity}
    path nanos faults files i files' second :
  files !! path = None → load_or_generate path (Some nanos) faults files = Some (Ok i, files') →
  second * 1000000000 ≤ nanos < (second + 1) * 1000000000 →
  ai_signing_key i ∈ clock_key <$> seqZ (second * 1000000000) 1000000000.
Proof.
  intros Hnew E Hs. unfold load_or_generate in E. rewrite Hnew in E. cbn in E.
  destruct (AgentIdentity_save _ _ _) as [[?|] ?]; [|done]. injection E as <- _. cbn.
  apply list_elem_of_fmap_2. apply elem_of_seqZ. lia.
Qed.

#[global] Instance StoredIdentity_eq_dec : EqDecision StoredIdentity.
Proof. solve_decision. Defined.
#[global] Program Instance StoredIdentity_countable : Countable StoredIdentity :=
  inj_countable' (λ s, (of_byte <$> si_device_private_key s, si_credential s))
    (λ p, mkStoredIdentity (to_byte <$> p.1) p.2) _.
Next Obligation. intros []. cbn. by rewrite to_of_bytes. Qed.

Definition host_identity : AgentIdentity := from_signing_key (replicate 32 x01) "identity.json".
Definition toy_agent_enroll (post : DeviceRegistrationRequest → EnrollResponse) :=
  @enroll (countable_json StoredIdentity) toy_ed25519 host_identity fleet_token "host-a" "windows"
    "x86_64" "0.1.0" 15 post io_works ∅.
Definition toy_control_plane : DeviceRegistrationRequest → EnrollResponse :=
  @control_plane unit _ tt (λ _, tt) toy_ed25519 toy_blake3 (countable_json _) toy_json_credential
    (countable_json_de _) (countable_json _) (countable_json_de _) (countable_json _)
    (countable_json _) _ "signature error" (λ _, "") Debug fleet_state 16 Db_works Db_works.
Lemma agent_enrollment_end_to_end_witness :
  ∃ cred i' files', toy_agent_enroll toy_control_plane = (Ok cred, i', files') ∧
    cred_public_key cred = @ed_public toy_ed25519 (replicate 32 x01) ∧
    @load_or_generate (countable_json StoredIdentity) (countable_json_de StoredIdentity)
      "identity.json" None io_works files' = Some (Ok i', files').
Proof.
  assert (match (toy_agent_enroll toy_control_plane).1.1 with Ok _ => true | Err _ => false end = true)
    as Hok by (vm_compute; reflexivity).
  destruct (toy_agent_enroll toy_control_plane) as [[[cred|] i'] files'] eqn:E; [|discriminate Hok].
  exists cred, i', files'. split; [reflexivity|].
  pose proof (@agent_enrollment_end_to_end unit _ tt (λ _, tt) toy_ed25519 toy_ed25519_laws toy_blake3
    (countable_json _) toy_json_credential (countable_json _) (countable_json_de _) (countable_json _)
    (countable_json_de _) (countable_json_de_laws _) (countable_json _) (countable_json _) _
    (countable_json _) (countable_json_de _) (countable_json_de_laws _) "signature error" (λ _, "")
    Debug fleet_state host_identity fleet_token "host-a" "windows" "x86_64" "0.1.0" 15 16 Db_works
    Db_works io_works ∅ None io_works) as Hx.
  destruct Hx as (_ & _ & Hgrant & Hback);
    [reflexivity|reflexivity|reflexivity|lia|cbv; intuition discriminate|].
  destruct (Hback cred i' files' E) as (-> & (st' & Ea) & Es).
  destruct (Hgrant cred st' Ea) as (Hk & _ & _ & _ & _ & Hsave).
  split; [exact Hk|]. apply (Hsave files' Es).
Defined.

Definition toy_generate :=
  @load_or_generate (countable_json StoredIdentity) (countable_json_de StoredIdentity)
    "identity.json" (Some 1750000000123456789) io_works ∅.
Lemma generated_key_from_clock_witness :
  ∃ i files', toy_generate = Some (Ok i, files') ∧
    ai_signing_key i ∈ clock_key <$> seqZ (1750000000 * 1000000000) 1000000000.
Proof.
  assert (match toy_generate with Some (Ok _, _) => true | _ => false end = true) as Hok
    by (vm_compute; reflexivity).
  destruct toy_generate as [[[i|e] files']|] eqn:E; [|discriminate Hok..].
  exists i, files'. split; [reflexivity|].
  apply (@generated_key_from_clock (countable_json StoredIdentity) (countable_json_de StoredIdentity)
    "identity.json" 1750000000123456789 io_works ∅ i files' 1750000000);
    [reflexivity|exact E|lia].
Defined.
