(* ===== verification/Devices.v ===== *)
(** * Listing devices, and the configuration of the store (apps/nexusd/src/storage/device.rs,
    routes.rs, config.rs, storage/mod.rs)

    The reads of the device table, the handler that lists an organization's devices, and
    the validation of the database's configuration. *)

From stdpp Require Import sorting.
From S2P Require Import Prelude RustStr Common Crypto Protocol Enrollment Storage ControlPlane.

Open Scope string_scope.
Open Scope list_scope.
Open Scope Z_scope.

(** ** The configuration *)

Inductive DatabaseDriver := Sqlite | Postgres.
Record DatabaseConfig := mkDatabaseConfig {
  dc_driver : DatabaseDriver; dc_url : string; dc_max_connections : Z
}.
Definition DatabaseConfig_sqlite (url : string) : DatabaseConfig := mkDatabaseConfig Sqlite url 4.
Definition DatabaseConfig_validate (c : DatabaseConfig) : result StorageError unit :=
  if dc_max_connections c =? 0 then Err (Storage_InvalidConfig "max_connections must be positive") else
  if str_eqb (trim (dc_url c)) "" then Err (Storage_InvalidConfig "url must not be empty") else Ok tt.
(** [SqliteStorage::connect], with the answers of opening the pool and of the migration. *)
Definition SqliteStorage_connect (c : DatabaseConfig) (opened migrated : bool) : result StorageError unit :=
  _ ← DatabaseConfig_validate c;
  match dc_driver c with
  | Postgres => Err (Storage_UnsupportedDriver "postgres")
  | Sqlite =>
      if negb opened then Err Storage_Database else
      if negb migrated then Err Storage_Migration else Ok tt
  end.

(** ** The list of devices *)

Definition id_le (r s : string * (DeviceRow * CredentialRow)) : Prop := String.leb r.1 s.1 = true.
#[global] Instance id_le_dec : RelDecision id_le.
Proof. intros r s. unfold id_le. apply _. Defined.

Section devices.
Context `{SerdeJsonDe DeviceCredential}.

(** The joined rows of an organization, ordered by the bytes of the identifier. *)
Definition device_rows (db : Db) (organization_id : string) : list (string * (DeviceRow * CredentialRow)) :=
  merge_sort id_le (filter (λ r, dr_organization_id r.2.1 = organization_id)
    (omap (λ r, c ← db_credentials db !! r.1; Some (r.1, (r.2, c))) (map_to_list (db_devices db)))).
Definition list_devices (db : Db) (organization_id : string) (fault : db_fault) :
    result StorageError (list RegisteredDevice) :=
  _ ← check_fault fault Db_fails_at_start Storage_Database;
  mapM (λ r, device_from_row r.1 r.2.1 r.2.2) (device_rows db organization_id).
Definition count_devices (db : Db) (fault : db_fault) : result StorageError Z :=
  _ ← check_fault fault Db_fails_at_start Storage_Database;
  Ok (Z.of_nat (size (db_devices db))).

(** [list_devices_handler]: the organization asked for, if any. *)
Definition listed_organization (organization_id : option string) : string :=
  match Id_new (default "default" organization_id) with
  | Ok id => id
  | Err _ => "org-default"
  end.
Definition list_devices_handler (db : Db) (organization_id : option string) (fault : db_fault) :
    api (list RegisteredDevice) :=
  match list_devices db (listed_organization organization_id) fault with
  | Ok l => Ok l
  | Err e => Err (storage_error_response (State_Storage e))
  end.
End devices.

Section listing.
Context `{SerdeJsonDe DeviceCredential}.

Lemma device_rows_spec db org id d c :
  (id, (d, c)) ∈ device_rows db org ↔
  db_devices db !! id = Some d ∧ db_credentials db !! id = Some c ∧ dr_organization_id d = org.
Proof.
  unfold device_rows. rewrite merge_sort_Permutation, list_elem_of_filter, list_elem_of_omap. cbn. split.
  - intros (Ho & [id' d'] & Hin & E). apply elem_of_map_to_list in Hin.
    apply bind_Some in E as (c' & Ec & [= <- <- <-]). done.
  - intros (Ed & Ec & Ho). split; [done|]. exists (id, d). split; [by apply elem_of_map_to_list|].
    cbn. by rewrite Ec.
Qed.

Lemma device_from_row_id id d c dev :
  device_from_row id d c = Ok dev → cred_device_id (rd_credential dev) = id.
Proof.
  unfold device_from_row. rewrite result_bind_ok. intros (i & Hi & E).
  apply map_err_ok in Hi. unfold Id_new in Hi. apply result_bind_ok in Hi as (? & _ & [= <-]).
  apply result_bind_ok in E as (o & _ & E). apply result_bind_ok in E as (cred & _ & E).
  destruct (str_eqb (cred_device_id cred) id) eqn:Ei; cbn [negb] in E; [|done].
  apply bool_decide_eq_true in Ei.
  destruct (negb _); [done|]. apply result_bind_ok in E as (? & _ & E).
  apply result_bind_ok in E as (? & _ & [= <-]). exact Ei.
Qed.

Lemma mapM_ok {E A B} (f : A → result E B) l k :
  mapM f l = Ok k → Forall2 (λ a b, f a = Ok b) l k.
Proof.
  revert k. induction l as [|a l IH]; intros k E0; cbn in E0; [by injection E0 as <-|].
  apply result_bind_ok in E0 as (b & Hb & E0). apply result_bind_ok in E0 as (k' & Hk & [= <-]).
  constructor; [done|by apply IH].
Qed.

Lemma joined_ids_NoDup org (creds : gmap string CredentialRow) (rows : list (string * DeviceRow)) :
  NoDup rows.*1 →
  NoDup (filter (λ r : string * (DeviceRow * CredentialRow), dr_organization_id r.2.1 = org)
    (omap (λ r, c ← creds !! r.1; Some (r.1, (r.2, c))) rows)).*1.
Proof.
  induction rows as [|[id d] rows IH]; intros Hn; [constructor|]. inversion Hn as [|? ? Hid Hn']; subst.
  cbn. destruct (creds !! id) as [c|]; cbn; [|by apply IH].
  case_decide; cbn; [|by apply IH]. constructor; [|by apply IH].
  intros Hin. apply Hid. apply list_elem_of_fmap in Hin as ([id' [d' c']] & -> & Hin).
  apply list_elem_of_filter in Hin as [_ Hin]. apply list_elem_of_omap in Hin as ([id2 d2] & Hin & E).
  cbn in E. apply bind_Some in E as (? & _ & [= <- <- <-]). apply list_elem_of_fmap. by exists (id2, d2).
Qed.

#[local] Instance id_le_total : Total id_le.
Proof. intros r s. unfold id_le. apply String.leb_total. Qed.

(** The list of an organization's devices: when the rows can be read, it holds exactly
    the devices that reading each of its identifiers one by one gives, each once, in the
    order of the identifiers. *)
Theorem list_devices_agrees db org l :
  list_devices db org Db_works = Ok l →
  (∀ dev, dev ∈ l ↔ ∃ id d, db_devices db !! id = Some d ∧ dr_organization_id d = org ∧
     get_device db id Db_works = Ok (Some dev)) ∧
  NoDup (cred_device_id ∘ rd_credential <$> l) ∧
  Sorted (λ a b, String.leb (cred_device_id (rd_credential a)) (cred_device_id (rd_credential b)) = true) l.
Proof.
  intros E. cbn in E. apply mapM_ok in E.
  assert (cred_device_id ∘ rd_credential <$> l = (device_rows db org).*1) as Eids.
  { induction E as [|[id [d c]] dev rows l Hdev _ IH]; [done|]. cbn. rewrite IH. f_equal.
    by eapply device_from_row_id. }
  split_and!.
  - intros dev. split.
    + intros Hin. apply list_elem_of_lookup in Hin as [k Hk].
      destruct (Forall2_lookup_r _ _ _ _ _ E Hk) as ([id [d c]] & Hrow & Hdev).
      apply list_elem_of_lookup_2, device_rows_spec in Hrow as (Ed & Ec & Ho).
      exists id, d. split_and!; [done..|]. unfold get_device. cbn in *. by rewrite Ed, Ec, Hdev.
    + intros (id & d & Ed & Ho & Hg). unfold get_device in Hg. cbn in Hg. rewrite Ed in Hg.
      destruct (db_credentials db !! id) as [c|] eqn:Ec; [|done].
      destruct (device_from_row id d c) as [dev'|] eqn:Edev; [|done]. injection Hg as ->.
      assert ((id, (d, c)) ∈ device_rows db org) as Hrow by by apply device_rows_spec.
      apply list_elem_of_lookup in Hrow as [k Hk].
      destruct (Forall2_lookup_l _ _ _ _ _ E Hk) as (dev' & Hl & Hdev'). cbn in Hdev'.
      assert (dev' = dev) as -> by congruence. by eapply list_elem_of_lookup_2.
  - rewrite Eids. unfold device_rows. rewrite merge_sort_Permutation. apply joined_ids_NoDup.
    apply NoDup_fst_map_to_list.
  - assert (Sorted id_le (device_rows db org)) as Hs by apply (Sorted_merge_sort _). clear Eids.
    revert Hs. induction E as [|[id [d c]] dev rows l Hdev E IH]; intros Hs; [constructor|].
    inversion Hs as [|? ? Hs' Hd]; subst. constructor; [by apply IH|].
    destruct E as [|[id' [d' c']] dev' rows l Hdev' _]; constructor. inversion Hd as [|? ? Hle]; subst.
    apply device_from_row_id in Hdev, Hdev'. cbn in Hdev, Hdev'. by rewrite Hdev, Hdev'.
Qed.
End listing.

Definition enrolled_db (org : string) : Db :=
  let cred := mkDeviceCredential "dev-1" org [x01] Device_Host "windows" "x86_64" [] 10 100 [] in
  mkDb ∅ ∅
    (<["dev-1" := mkDeviceRow org "host-a" "windows" "" "x86_64" "0.1.0" [x01] "active" [] 15]> ∅)
    (<["dev-1" := mkCredentialRow org (match countable_json _ cred with Ok t => t | Err _ => [] end)
                    10 100 [x01]]> ∅) ∅ ∅.
Definition toy_device_list (db : Db) (org : string) :=
  @list_devices (countable_json_de DeviceCredential) db org Db_works.

Lemma list_devices_agrees_witness :
  ∃ l, toy_device_list (enrolled_db "org-1") "org-1" = Ok l ∧ length l = 1%nat ∧
    NoDup (cred_device_id ∘ rd_credential <$> l).
Proof.
  assert (match toy_device_list (enrolled_db "org-1") "org-1" with Ok l => Nat.eqb (length l) 1 | Err _ => false end = true)
    as Hok by (vm_compute; reflexivity).
  destruct (toy_device_list (enrolled_db "org-1") "org-1") as [l|e] eqn:E; [|discriminate Hok].
  exists l. split; [reflexivity|]. split; [by apply Nat.eqb_eq|].
  exact (proj1 (proj2 (@list_devices_agrees (countable_json_de _) (enrolled_db "org-1") "org-1" l E))).
Defined.

(** A request with an identifier no organization can have, here the empty one, is answered
    with the devices of another one. *)
Example malformed_organization_lists_default :
  match @list_devices_handler (countable_json_de DeviceCredential) (enrolled_db "org-default")
      (Some "") Db_works with
  | Ok l => length l | Err _ => O
  end = 1%nat.
Proof. vm_compute. reflexivity. Qed.
