(* ===== verification/NativeWorker.v ===== *)
(** * Ownership of a native worker (apps/nexus-client/src/native_worker.rs)

    [WorkerLifecycle] of the client, and the one of the encoder
    (platform/windows/src/codec.rs), whose reaper also stores [finished].  The owner, the
    reapers it spawns and the worker are threads, interleaved at the granularity of their
    accesses to the slot and the flags; the handle of the worker is a token that is in
    the slot, with a thread, joined, or dropped.  No critical section panics, so the lock
    is never poisoned. *)

From S2P Require Import Prelude Surface.

Open Scope Z_scope.

Inductive OwnerCall := Call_JoinBefore (deadline : Z) | Call_Reap.

(** What the owner does next.  It holds the handle in [Owner_Poll], [Owner_Clock],
    [Owner_PutBack] and [Owner_Join]. *)
Inductive OwnerPc :=
  | Owner_Next
  | Owner_Take (deadline : Z)
  | Owner_Poll (deadline : Z)
  | Owner_Clock (deadline : Z)
  | Owner_PutBack
  | Owner_Join
  | Owner_Swap
  | Owner_Spawn
  | Owner_Restore
  | Owner_Gone.
#[global] Instance OwnerPc_eq_dec : EqDecision OwnerPc.
Proof. solve_decision. Defined.
Inductive ReaperPc := Reaper_Take | Reaper_Join | Reaper_Store | Reaper_Gone.

Record Lifecycle := mkLifecycle {
  nw_worker : bool;        (** the slot holds the handle *)
  nw_reaping : bool;
  nw_finished : bool;
  nw_owner : OwnerPc;
  nw_program : list OwnerCall;   (** the calls the owner has yet to make *)
  nw_reapers : list ReaperPc;
  nw_exited : bool;        (** the worker thread has returned *)
  nw_now : Z;
  nw_joined : bool;
  nw_detached : bool       (** the handle was dropped *)
}.

(** [WorkerLifecycle::new], with an owner that is going to make the calls of [program]. *)
Definition lifecycle_new (program : list OwnerCall) (now : Z) : Lifecycle :=
  mkLifecycle true false false Owner_Next program [] false now false false.

Definition nw_set_owner (s : Lifecycle) (pc : OwnerPc) : Lifecycle :=
  mkLifecycle (nw_worker s) (nw_reaping s) (nw_finished s) pc (nw_program s) (nw_reapers s)
    (nw_exited s) (nw_now s) (nw_joined s) (nw_detached s).
Definition nw_set_slot (s : Lifecycle) (worker : bool) : Lifecycle :=
  mkLifecycle worker (nw_reaping s) (nw_finished s) (nw_owner s) (nw_program s) (nw_reapers s)
    (nw_exited s) (nw_now s) (nw_joined s) (nw_detached s).
Definition nw_set_reaping (s : Lifecycle) (reaping : bool) : Lifecycle :=
  mkLifecycle (nw_worker s) reaping (nw_finished s) (nw_owner s) (nw_program s) (nw_reapers s)
    (nw_exited s) (nw_now s) (nw_joined s) (nw_detached s).
Definition nw_set_reapers (s : Lifecycle) (reapers : list ReaperPc) : Lifecycle :=
  mkLifecycle (nw_worker s) (nw_reaping s) (nw_finished s) (nw_owner s) (nw_program s) reapers
    (nw_exited s) (nw_now s) (nw_joined s) (nw_detached s).
Definition nw_set_joined (s : Lifecycle) : Lifecycle :=
  mkLifecycle (nw_worker s) (nw_reaping s) (nw_finished s) (nw_owner s) (nw_program s)
    (nw_reapers s) (nw_exited s) (nw_now s) true (nw_detached s).
Definition nw_set_finished (s : Lifecycle) : Lifecycle :=
  mkLifecycle (nw_worker s) (nw_reaping s) true (nw_owner s) (nw_program s) (nw_reapers s)
    (nw_exited s) (nw_now s) (nw_joined s) (nw_detached s).

Definition is_gone (r : ReaperPc) : bool := match r with Reaper_Gone => true | _ => false end.

(** The last reference to the lifecycle drops what the slot holds. *)
Definition nw_release (s : Lifecycle) : Lifecycle :=
  match nw_owner s with
  | Owner_Gone =>
      if forallb is_gone (nw_reapers s) && nw_worker s
      then mkLifecycle false (nw_reaping s) (nw_finished s) Owner_Gone (nw_program s)
             (nw_reapers s) (nw_exited s) (nw_now s) (nw_joined s) true
      else s
  | _ => s
  end.

(** The owner starts its next call, or drops its reference after the last one. *)
Definition owner_next (s : Lifecycle) : Lifecycle :=
  match nw_program s with
  | [] => nw_release (nw_set_owner s Owner_Gone)
  | call :: program =>
      mkLifecycle (nw_worker s) (nw_reaping s) (nw_finished s)
        (match call with Call_JoinBefore deadline => Owner_Take deadline | Call_Reap => Owner_Swap end)
        program (nw_reapers s) (nw_exited s) (nw_now s) (nw_joined s) (nw_detached s)
  end.

(** One step of [join_before]; [None] is a join that waits. *)
Definition join_before_step (s : Lifecycle) : option Lifecycle :=
  match nw_owner s with
  | Owner_Take deadline =>
      Some (if nw_worker s then nw_set_slot (nw_set_owner s (Owner_Poll deadline)) false
            else nw_set_owner s Owner_Next)
  | Owner_Poll deadline =>
      Some (nw_set_owner s (if nw_exited s then Owner_Join else Owner_Clock deadline))
  | Owner_Clock deadline =>
      Some (nw_set_owner s (if deadline <=? nw_now s then Owner_PutBack else Owner_Poll deadline))
  | Owner_PutBack => Some (nw_set_slot (nw_set_owner s Owner_Swap) true)
  | Owner_Join => if nw_exited s then Some (nw_set_joined (nw_set_owner s Owner_Next)) else None
  | _ => None
  end.

(** One step of [reap_in_background]; [spawned] says whether the thread could be made. *)
Definition reap_in_background_step (spawned : bool) (s : Lifecycle) : option Lifecycle :=
  match nw_owner s with
  | Owner_Swap =>
      Some (nw_set_owner (nw_set_reaping s true) (if nw_reaping s then Owner_Next else Owner_Spawn))
  | Owner_Spawn =>
      Some (if spawned then nw_set_owner (nw_set_reapers s (nw_reapers s ++ [Reaper_Take])) Owner_Next
            else nw_set_owner s Owner_Restore)
  | Owner_Restore => Some (nw_set_owner (nw_set_reaping s false) Owner_Next)
  | _ => None
  end.

Definition owner_step (spawned : bool) (s : Lifecycle) : option Lifecycle :=
  match nw_owner s with
  | Owner_Gone => None
  | Owner_Next => Some (owner_next s)
  | Owner_Swap | Owner_Spawn | Owner_Restore => reap_in_background_step spawned s
  | _ => join_before_step s
  end.

(** One step of the [j]-th reaper; [stores] says whether this kind of lifecycle stores
    [finished]. *)
Definition reaper_after_join (stores : bool) : ReaperPc := if stores then Reaper_Store else Reaper_Gone.
Definition reap_step (stores : bool) (j : nat) (s : Lifecycle) : option Lifecycle :=
  pc ← nw_reapers s !! j;
  let set s pc := nw_set_reapers s (<[j := pc]> (nw_reapers s)) in
  match pc with
  | Reaper_Take =>
      Some (if nw_worker s then set (nw_set_slot s false) Reaper_Join
            else nw_release (set s (reaper_after_join stores)))
  | Reaper_Join =>
      if nw_exited s then Some (nw_release (nw_set_joined (set s (reaper_after_join stores)))) else None
  | Reaper_Store => Some (nw_release (nw_set_finished (set s Reaper_Gone)))
  | Reaper_Gone => None
  end.

Inductive LifecycleStep :=
  | Life_Tick | Life_WorkerExits | Life_Owner (spawned : bool) | Life_Reaper (j : nat).
Definition lifecycle_step (stores : bool) (s : Lifecycle) (step : LifecycleStep) : option Lifecycle :=
  match step with
  | Life_Tick =>
      Some (mkLifecycle (nw_worker s) (nw_reaping s) (nw_finished s) (nw_owner s) (nw_program s)
        (nw_reapers s) (nw_exited s) (nw_now s + 1) (nw_joined s) (nw_detached s))
  | Life_WorkerExits =>
      Some (mkLifecycle (nw_worker s) (nw_reaping s) (nw_finished s) (nw_owner s) (nw_program s)
        (nw_reapers s) true (nw_now s) (nw_joined s) (nw_detached s))
  | Life_Owner spawned => owner_step spawned s
  | Life_Reaper j => reap_step stores j s
  end.
(** The lifecycle of the client's threads, and that of the encoder. *)
Definition client_lifecycle_step : Lifecycle → LifecycleStep → option Lifecycle := lifecycle_step false.
Definition encoder_lifecycle_step : Lifecycle → LifecycleStep → option Lifecycle := lifecycle_step true.
Definition lifecycle_run (stores : bool) (steps : list LifecycleStep) (s : Lifecycle) : option Lifecycle :=
  for_each steps (lifecycle_step stores) s.

(** ** The handle is in one place *)

Definition b2n (b : bool) : nat := if b then 1%nat else 0%nat.
Definition owner_holds (pc : OwnerPc) : bool :=
  match pc with Owner_Poll _ | Owner_Clock _ | Owner_PutBack | Owner_Join => true | _ => false end.
Definition reaper_holds (pc : ReaperPc) : bool := match pc with Reaper_Join => true | _ => false end.
Fixpoint reapers_holding (l : list ReaperPc) : nat :=
  match l with [] => 0%nat | r :: l => (b2n (reaper_holds r) + reapers_holding l)%nat end.
Definition handle_places (s : Lifecycle) : nat :=
  (b2n (nw_worker s) + b2n (owner_holds (nw_owner s)) + reapers_holding (nw_reapers s) +
   b2n (nw_joined s) + b2n (nw_detached s))%nat.

Lemma reapers_holding_insert l j pc pc' : l !! j = Some pc →
  (reapers_holding (<[j := pc']> l) + b2n (reaper_holds pc) =
   reapers_holding l + b2n (reaper_holds pc'))%nat.
Proof.
  revert j. induction l as [|r l IH]; intros [|j] Hj; simpl in *; try done.
  - injection Hj as ->. lia.
  - specialize (IH _ Hj). lia.
Qed.
Lemma reapers_holding_snoc l pc :
  reapers_holding (l ++ [pc]) = (reapers_holding l + b2n (reaper_holds pc))%nat.
Proof. induction l; cbn in *; lia. Qed.

Lemma release_places s : handle_places s = 1%nat → handle_places (nw_release s) = 1%nat.
Proof.
  unfold nw_release. destruct (nw_owner s) eqn:Eo; try done.
  destruct (forallb _ _); cbn; [|done]. destruct (nw_worker s) eqn:Ew; [|done].
  unfold handle_places. cbn. rewrite Eo, Ew. cbn. destruct (nw_detached s); cbn; lia.
Qed.

Lemma owner_step_places spawned s s' :
  owner_step spawned s = Some s' → handle_places s = 1%nat → handle_places s' = 1%nat.
Proof.
  unfold owner_step, join_before_step, reap_in_background_step, owner_next.
  destruct (nw_owner s) eqn:Eo; intros E Hp; simplify_eq.
  - destruct (nw_program s) as [|[] ?]; [apply release_places|..];
      unfold handle_places in *; cbn; rewrite Eo in Hp; exact Hp.
  - destruct (nw_worker s) eqn:Ew; unfold handle_places in *; cbn; rewrite Eo in Hp; rewrite ?Ew in *; done.
  - destruct (nw_exited s); unfold handle_places in *; cbn; rewrite Eo in Hp; exact Hp.
  - destruct (_ <=? _); unfold handle_places in *; cbn; rewrite Eo in Hp; exact Hp.
  - unfold handle_places in *; cbn; rewrite Eo in Hp; cbn in Hp. lia.
  - destruct (nw_exited s); simplify_eq. unfold handle_places in *; cbn; rewrite Eo in Hp; cbn in Hp.
    destruct (nw_joined s); cbn in *; lia.
  - destruct (nw_reaping s); unfold handle_places in *; cbn; rewrite Eo in Hp; exact Hp.
  - destruct spawned; unfold handle_places in *; cbn; rewrite Eo in Hp; [|exact Hp].
    rewrite reapers_holding_snoc. cbn in *. lia.
  - unfold handle_places in *; cbn; rewrite Eo in Hp; exact Hp.
Qed.

Lemma reap_step_places stores j s s' :
  reap_step stores j s = Some s' → handle_places s = 1%nat → handle_places s' = 1%nat.
Proof.
  unfold reap_step. destruct (nw_reapers s !! j) as [pc|] eqn:Ej; cbn; [|done].
  intros E Hp. destruct pc; simplify_eq.
  - destruct (nw_worker s) eqn:Ew; [|apply release_places];
      unfold handle_places in *; cbn; rewrite Ew in *; cbn in *.
    + pose proof (reapers_holding_insert _ _ _ Reaper_Join Ej). cbn in *. lia.
    + pose proof (reapers_holding_insert _ _ _ (reaper_after_join stores) Ej) as Hi.
      destruct stores; cbn in *; lia.
  - destruct (nw_exited s); simplify_eq. apply release_places. unfold handle_places in *; cbn.
    pose proof (reapers_holding_insert _ _ _ (reaper_after_join stores) Ej) as Hi.
    destruct stores, (nw_joined s); cbn in *; lia.
  - apply release_places. unfold handle_places in *; cbn.
    pose proof (reapers_holding_insert _ _ _ Reaper_Gone Ej) as Hi. cbn in *; lia.
Qed.

Lemma lifecycle_step_places stores s step s' :
  lifecycle_step stores s step = Some s' → handle_places s = 1%nat → handle_places s' = 1%nat.
Proof.
  destruct step; cbn [lifecycle_step]; [by intros [= <-]..| |].
  - apply owner_step_places.
  - apply reap_step_places.
Qed.

(** An invariant of the steps holds along a run. *)
Lemma lifecycle_run_invariant stores (P : Lifecycle → Prop) steps : ∀ s s',
  (∀ s step s', lifecycle_step stores s step = Some s' → P s → P s') →
  P s → lifecycle_run stores steps s = Some s' → P s'.
Proof.
  induction steps as [|step steps IH]; intros s s' Hstep Hs; cbn.
  { by intros [= <-]. }
  intros (s1 & E1 & E)%bind_Some. eapply IH; [done| |exact E]. by eapply Hstep.
Qed.

(** The handle of the worker is never duplicated or lost: after every interleaving of the
    owner's calls, of the reapers and of the worker it is in the slot, with one thread,
    joined or dropped, and in one of these places only. *)
Theorem handle_in_one_place stores program now steps s :
  lifecycle_run stores steps (lifecycle_new program now) = Some s → handle_places s = 1%nat.
Proof.
  apply (lifecycle_run_invariant stores (λ s, handle_places s = 1%nat)); [|done].
  intros ? ? ?. apply lifecycle_step_places.
Qed.

(** ** The worker is joined *)

Definition is_reap (c : OwnerCall) : bool := match c with Call_Reap => true | _ => false end.
(** [join_before] is at most the first call, as in every user of a lifecycle: the encoder
    and a failed start only reap, the decoder and the renderer only join when they are
    dropped, and capture joins before it reaps. *)
Definition joins_first (program : list OwnerCall) : bool :=
  match program with
  | Call_JoinBefore _ :: program => forallb is_reap program
  | program => forallb is_reap program
  end.

Definition no_reaper (s : Lifecycle) : Prop :=
  nw_reaping s = false ∧ nw_reapers s = [] ∧ nw_finished s = false.
Definition one_reaper (s : Lifecycle) : Prop :=
  nw_reaping s = true ∧ ∃ r, nw_reapers s = [r] ∧
    (nw_worker s = true → r = Reaper_Take) ∧
    (r = Reaper_Store ∨ r = Reaper_Gone → nw_joined s = true) ∧
    (nw_finished s = true → r = Reaper_Gone).

(** The facts of each program point of the owner. *)
Definition owner_inv (s : Lifecycle) : Prop :=
  match nw_owner s with
  | Owner_Take _ | Owner_Poll _ | Owner_Clock _ | Owner_PutBack =>
      forallb is_reap (nw_program s) = true ∧ nw_detached s = false ∧ no_reaper s
  | Owner_Join =>
      forallb is_reap (nw_program s) = true ∧ nw_detached s = false ∧ no_reaper s ∧ nw_exited s = true
  | Owner_Spawn | Owner_Restore =>
      forallb is_reap (nw_program s) = true ∧ nw_detached s = false ∧
      nw_reaping s = true ∧ nw_reapers s = [] ∧ nw_finished s = false
  | Owner_Swap =>
      forallb is_reap (nw_program s) = true ∧ nw_detached s = false ∧ (no_reaper s ∨ one_reaper s)
  | Owner_Next =>
      nw_detached s = false ∧
      (joins_first (nw_program s) = true ∧ no_reaper s ∨
       forallb is_reap (nw_program s) = true ∧ one_reaper s)
  | Owner_Gone =>
      no_reaper s ∧ nw_worker s = false ∨ one_reaper s ∧ nw_detached s = false
  end.
Record lifecycle_inv (s : Lifecycle) : Prop := {
  lci_places : handle_places s = 1%nat;
  lci_joined : nw_joined s = true → nw_exited s = true;
  lci_owner : owner_inv s
}.

Lemma joins_first_reaps program : forallb is_reap program = true → joins_first program = true.
Proof. by destruct program as [|[] ?]. Qed.
Lemma joins_first_tail c program : joins_first (c :: program) = true → forallb is_reap program = true.
Proof. destruct c; cbn; done. Qed.

Ltac lifecycle_cases :=
  repeat match goal with
  | H : _ ∧ _ |- _ => destruct H
  | H : ∃ _, _ |- _ => destruct H
  | H : no_reaper _ |- _ => destruct H as (? & ? & ?)
  | H : one_reaper _ |- _ => destruct H as (? & ? & ? & ? & ? & ?)
  end.

Lemma owner_step_inv spawned s s' :
  owner_step spawned s = Some s' → lifecycle_inv s → owner_inv s'.
Proof.
  intros E [Hp Hj Ho]. destruct s as [slot reaping finished pc program reapers exited now joined detached].
  unfold owner_step, join_before_step, reap_in_background_step, owner_next, nw_release in E.
  unfold owner_inv in Ho. unfold handle_places in Hp. cbn in *.
  destruct pc; cbn in *; simplify_eq.
  - destruct Ho as [-> [[Hf Hn]|[Hf Hn]]]; destruct program as [|c program]; cbn in *.
    + lifecycle_cases; cbn in *; subst. destruct slot; left; by repeat split.
    + apply joins_first_tail in Hf. destruct c; cbn; unfold owner_inv; cbn; auto.
    + destruct Hn as (? & r & ? & Hs & ? & ?). cbn in *; subst. destruct slot.
      * rewrite (Hs eq_refl) in *. right. split; [|done]. split; [done|].
        exists Reaper_Take. auto.
      * rewrite andb_false_r. right. split; [|done]. split; [done|]. exists r. auto.
    + apply andb_prop in Hf as [Hc Hf]. destruct c; [done|]. unfold owner_inv; cbn. auto.
  - destruct slot; unfold owner_inv; cbn; [tauto|]. lifecycle_cases. split; [done|]. left.
    split; [by apply joins_first_reaps|]. by repeat split.
  - destruct exited; unfold owner_inv; cbn; tauto.
  - destruct (_ <=? _); unfold owner_inv; cbn; tauto.
  - unfold owner_inv; cbn. destruct Ho as (? & ? & ?). auto.
  - destruct exited; simplify_eq. unfold owner_inv; cbn. lifecycle_cases. split; [done|]. left.
    split; [by apply joins_first_reaps|]. by repeat split.
  - destruct Ho as (? & ? & [Hn|Hn]); unfold owner_inv; lifecycle_cases; cbn in *; subst; cbn.
    + by repeat split.
    + split; [done|]. right. split; [done|]. split; [done|]. eexists. split; [done|]. cbn. auto.
  - destruct Ho as (? & ? & ? & ? & ?). subst. unfold owner_inv. destruct spawned; cbn; [|by repeat split].
    split; [done|]. right. split; [done|]. split; [done|]. eexists. split; [done|]. cbn.
    split; [done|]. split; [by intros [|]|done].
  - destruct Ho as (? & ? & ? & ? & ?). subst. unfold owner_inv. cbn. split; [done|]. left.
    split; [by apply joins_first_reaps|]. by repeat split.
Qed.

(** A reaper that steps is the one reaper. *)
Lemma owner_inv_reaper s j pc :
  lifecycle_inv s → nw_reapers s !! j = Some pc →
  one_reaper s ∧ j = 0%nat ∧ nw_reapers s = [pc] ∧ nw_detached s = false ∧
  owner_holds (nw_owner s) = false.
Proof.
  intros [Hp Hj Ho] Ej.
  assert (nw_reapers s ≠ []) as Hne by (intros E0; by rewrite E0 in Ej).
  assert (one_reaper s ∧ nw_detached s = false ∧ owner_holds (nw_owner s) = false) as (H1 & Hd & Hh).
  { unfold owner_inv in Ho. destruct (nw_owner s); lifecycle_cases; try congruence; cbn.
    - destruct H0 as [[_ (_ & E & _)]|[_ ?]]; [congruence|done].
    - destruct H1 as [(_ & E & _)|?]; [congruence|done].
    - destruct Ho as [[(_ & E & _) _]|[? ?]]; [congruence|done]. }
  split; [done|]. destruct H1 as (_ & r & Er & _). rewrite Er in *.
  destruct j as [|j]; [|done]. by injection Ej as ->.
Qed.

Lemma owner_inv_reaping s :
  lifecycle_inv s → one_reaper s →
  match nw_owner s with
  | Owner_Next | Owner_Swap => forallb is_reap (nw_program s) = true
  | Owner_Gone => True | _ => False end.
Proof.
  intros [_ _ Ho] (Hr & r & Er & _). unfold owner_inv in Ho.
  destruct (nw_owner s); lifecycle_cases; try congruence.
  - destruct H0 as [[_ (E & _)]|[? _]]; [congruence|done].
  - done.
Qed.

(** The facts about the owner do not depend on how far the reaper is. *)
Lemma owner_inv_move s s' :
  lifecycle_inv s → one_reaper s → one_reaper s' → nw_owner s' = nw_owner s →
  nw_program s' = nw_program s → nw_detached s = false → nw_detached s' = false → owner_inv s'.
Proof.
  intros Hi H1 H1' Eo Ep Hd Hd'. pose proof (owner_inv_reaping s Hi H1) as Hm.
  unfold owner_inv. rewrite Eo, Ep. destruct (nw_owner s); try done; auto.
Qed.

Lemma release_kept s : one_reaper s → nw_owner s ≠ Owner_Gone ∨ nw_worker s = false → nw_release s = s.
Proof.
  intros _ H. unfold nw_release. destruct (nw_owner s); try done.
  destruct H as [?|H0]; [done|]. rewrite H0, andb_false_r. done.
Qed.

Lemma reap_step_inv stores j s s' :
  reap_step stores j s = Some s' → lifecycle_inv s → owner_inv s'.
Proof.
  intros E Hi. unfold reap_step in E. destruct (nw_reapers s !! j) as [pc|] eqn:Ej; [|done].
  destruct (owner_inv_reaper _ _ _ Hi Ej) as (H1 & -> & Er & Hd & Hh). cbn [mbind option_bind] in E.
  pose proof (lci_places _ Hi) as Hp. unfold handle_places in Hp. rewrite Hh, Er, Hd in Hp.
  pose proof H1 as (Hr & r & Er' & Hs & Hg & Hf). rewrite Er in Er'. injection Er' as <-.
  destruct pc; cbn in *.
  - injection E as <-. destruct (nw_worker s) eqn:Ew.
    + apply (owner_inv_move s); cbn; auto. split; [done|]. exists Reaper_Join. cbn. rewrite Er.
      repeat split; try done; [by intros [|]|]. intros H. specialize (Hf H). done.
    + assert (nw_joined s = true) as Hj by (destruct (nw_joined s); [done|cbn in Hp; lia]).
      assert (one_reaper (nw_set_reapers s (<[0%nat:=reaper_after_join stores]> (nw_reapers s)))) as H2.
      { split; [done|]. exists (reaper_after_join stores). cbn. rewrite Er, Ew. repeat split; try done.
        intros H. specialize (Hf H). done. }
      rewrite release_kept by (cbn; auto). by apply (owner_inv_move s).
  - destruct (nw_exited s); [injection E as <-|done].
    assert (nw_worker s = false) as Ew by (destruct (nw_worker s); [cbn in Hp; lia|done]).
    assert (one_reaper (nw_set_joined (nw_set_reapers s (<[0%nat:=reaper_after_join stores]> (nw_reapers s))))) as H2.
    { split; [done|]. exists (reaper_after_join stores). cbn. rewrite Er, Ew. repeat split; try done.
      intros H. specialize (Hf H). done. }
    rewrite release_kept by (cbn; auto). by apply (owner_inv_move s).
  - injection E as <-.
    assert (nw_worker s = false) as Ew by (destruct (nw_worker s); [by specialize (Hs eq_refl)|done]).
    assert (one_reaper (nw_set_finished (nw_set_reapers s (<[0%nat:=Reaper_Gone]> (nw_reapers s))))) as H2.
    { split; [done|]. exists Reaper_Gone. cbn. rewrite Er, Ew. repeat split; try done. auto. }
    rewrite release_kept by (cbn; auto). by apply (owner_inv_move s).
  - done.
Qed.

Lemma release_exited s : nw_exited (nw_release s) = nw_exited s ∧ nw_joined (nw_release s) = nw_joined s.
Proof. unfold nw_release. destruct (nw_owner s); try done. by destruct (_ && _). Qed.

Lemma lifecycle_step_exited stores s step s' :
  lifecycle_step stores s step = Some s' →
  (nw_exited s = true → nw_exited s' = true) ∧
  (nw_joined s' = true → nw_joined s = true ∨ nw_exited s = true).
Proof.
  destruct step; cbn [lifecycle_step]; [intros [= <-]; auto..| |].
  - unfold owner_step, join_before_step, reap_in_background_step, owner_next.
    destruct (nw_owner s); intros E; simplify_eq; repeat case_match; simplify_eq;
      rewrite ?(proj1 (release_exited _)), ?(proj2 (release_exited _)); cbn; intuition congruence.
  - unfold reap_step. destruct (nw_reapers s !! j) as [[]|]; cbn; intros E; simplify_eq;
      repeat case_match; simplify_eq; rewrite ?(proj1 (release_exited _)), ?(proj2 (release_exited _)); cbn; intuition congruence.
Qed.

Lemma lifecycle_step_inv stores s step s' :
  lifecycle_step stores s step = Some s' → lifecycle_inv s → lifecycle_inv s'.
Proof.
  intros E Hi. destruct (lifecycle_step_exited _ _ _ _ E) as [He Hj]. split.
  - eapply lifecycle_step_places; [done|]. by destruct Hi.
  - intros [H|H]%Hj; apply He; [by apply Hi|done].
  - destruct step; cbn [lifecycle_step] in E.
    + injection E as <-. exact (lci_owner _ Hi).
    + injection E as <-. destruct Hi as [_ _ Ho]. unfold owner_inv in *. destruct (nw_owner s); try exact Ho.
      cbn. destruct Ho as (? & ? & ? & ?). auto.
    + by eapply owner_step_inv.
    + by eapply reap_step_inv.
Qed.

Lemma lifecycle_new_inv program now : joins_first program = true → lifecycle_inv (lifecycle_new program now).
Proof. intros H. split; [done..|]. split; [done|]. left. by repeat split. Qed.

(** ** Teardown ends *)

Definition owner_cost (pc : OwnerPc) : nat :=
  match pc with
  | Owner_Gone => 0 | Owner_Next => 1 | Owner_Restore => 2 | Owner_Join => 2 | Owner_Poll _ => 3
  | Owner_Take _ => 4 | Owner_Spawn => 5 | Owner_Swap => 6 | Owner_PutBack => 7 | Owner_Clock _ => 8
  end.
Definition reaper_cost (pc : ReaperPc) : nat :=
  match pc with Reaper_Gone => 0 | Reaper_Store => 1 | Reaper_Join => 2 | Reaper_Take => 3 end.
Fixpoint reapers_cost (l : list ReaperPc) : nat :=
  match l with [] => 0%nat | r :: l => (reaper_cost r + reapers_cost l)%nat end.
(** The steps that are left once the worker has returned. *)
Definition teardown_cost (s : Lifecycle) : nat :=
  (6 * length (nw_program s) + owner_cost (nw_owner s) + reapers_cost (nw_reapers s))%nat.
Definition is_thread_step (step : LifecycleStep) : bool :=
  match step with Life_Owner _ | Life_Reaper _ => true | _ => false end.
Definition thread_steps (steps : list LifecycleStep) : nat := length (List.filter is_thread_step steps).

Lemma reapers_cost_insert l j pc pc' : l !! j = Some pc →
  (reapers_cost (<[j := pc']> l) + reaper_cost pc = reapers_cost l + reaper_cost pc')%nat.
Proof.
  revert j. induction l as [|r l IH]; intros [|j] Hj; simpl in *; try done.
  - injection Hj as ->. lia.
  - specialize (IH _ Hj). lia.
Qed.
Lemma reapers_cost_snoc l pc : reapers_cost (l ++ [pc]) = (reapers_cost l + reaper_cost pc)%nat.
Proof. induction l; cbn in *; lia. Qed.
Lemma release_cost s : teardown_cost (nw_release s) = teardown_cost s.
Proof.
  unfold nw_release. destruct (nw_owner s) eqn:E; try done. destruct (_ && _); [|done].
  unfold teardown_cost. cbn. by rewrite E.
Qed.

Lemma thread_step_cost stores s step s' :
  lifecycle_step stores s step = Some s' → nw_exited s = true →
  (teardown_cost s' + b2n (is_thread_step step) ≤ teardown_cost s)%nat.
Proof.
  intros E He. destruct step; cbn [lifecycle_step is_thread_step b2n] in *.
  - injection E as <-. unfold teardown_cost. cbn. lia.
  - injection E as <-. unfold teardown_cost. cbn. lia.
  - unfold owner_step, join_before_step, reap_in_background_step, owner_next in E. rewrite He in E.
    destruct (nw_owner s) eqn:Eo; simplify_eq; repeat case_match; simplify_eq;
      rewrite ?release_cost; unfold teardown_cost; cbn -[Nat.mul]; rewrite ?Eo, ?reapers_cost_snoc;
      cbn -[Nat.mul]; try lia;
      match goal with H : nw_program s = _ |- _ => rewrite H; cbn -[Nat.mul]; lia end.
  - unfold reap_step in E. destruct (nw_reapers s !! j) as [pc|] eqn:Ej; [|done]. cbn in E.
    rewrite He in E. pose proof (reapers_cost_insert _ _ _ Reaper_Join Ej) as H1.
    pose proof (reapers_cost_insert _ _ _ (reaper_after_join stores) Ej) as H2.
    pose proof (reapers_cost_insert _ _ _ Reaper_Gone Ej) as H3.
    destruct pc; simplify_eq; repeat case_match; simplify_eq; rewrite ?release_cost;
      unfold teardown_cost; cbn -[Nat.mul] in *; destruct stores; cbn -[Nat.mul] in *; lia.
Qed.

Lemma teardown_bounded stores steps : ∀ s s',
  lifecycle_run stores steps s = Some s' → nw_exited s = true →
  (teardown_cost s' + thread_steps steps ≤ teardown_cost s)%nat ∧ nw_exited s' = true.
Proof.
  induction steps as [|step steps IH]; intros s s'; cbn.
  { intros [= <-]. unfold thread_steps. cbn. split; [lia|done]. }
  intros (s1 & E1 & E)%bind_Some He. pose proof (thread_step_cost _ _ _ _ E1 He).
  destruct (IH _ _ E) as [? ?]; [by apply (lifecycle_step_exited _ _ _ _ E1)|].
  unfold thread_steps in *. cbn. split; [|done]. destruct (is_thread_step step); cbn in *; lia.
Qed.

(** No thread can move. *)
Definition at_rest (stores : bool) (s : Lifecycle) : Prop :=
  ∀ step, is_thread_step step = true → lifecycle_step stores s step = None.

Lemma owner_moves spawned s : lifecycle_inv s → nw_owner s ≠ Owner_Gone → is_Some (owner_step spawned s).
Proof.
  intros [_ _ Ho] Hg. unfold owner_step, join_before_step, reap_in_background_step.
  unfold owner_inv in Ho. destruct (nw_owner s); try done; repeat case_match; try done.
  lifecycle_cases. congruence.
Qed.

Lemma at_rest_joined stores s :
  lifecycle_inv s → nw_exited s = true → at_rest stores s →
  nw_owner s = Owner_Gone ∧ (nw_joined s = true ∨ nw_detached s = true ∧ nw_reaping s = false).
Proof.
  intros Hi He Hr. assert (nw_owner s = Owner_Gone) as Eo.
  { destruct (nw_owner s) eqn:E; [..|done];
      destruct (owner_moves true s Hi) as [s' Es]; rewrite ?E; try done;
      specialize (Hr (Life_Owner true) eq_refl); cbn [lifecycle_step] in Hr; congruence. }
  split; [done|]. destruct Hi as [Hp _ Ho]. unfold owner_inv in Ho. unfold handle_places in Hp.
  rewrite Eo in *. cbn in Hp. destruct Ho as [[(Hre & Er & _) Hw]|[(Hre & r & Er & Hw & Hg & _) Hd]].
  - rewrite Er, Hw in Hp. cbn in Hp. destruct (nw_joined s); [by left|]. right.
    destruct (nw_detached s); [done|cbn in Hp; lia].
  - left. specialize (Hr (Life_Reaper 0) eq_refl). cbn in Hr. unfold reap_step in Hr. rewrite Er, He in Hr.
    cbn in Hr. destruct r; try done. auto.
Qed.

(** An attempt to start a reaper that failed. *)
Definition spawn_failed (stores : bool) (steps : list LifecycleStep) (s0 : Lifecycle) : Prop :=
  ∃ pre post s1, steps = pre ++ Life_Owner false :: post ∧ lifecycle_run stores pre s0 = Some s1 ∧
    nw_owner s1 = Owner_Spawn.

(** Without such a failure an owner that has made a call leaves a reaper or a joined
    worker. *)
Definition cared_for (program : list OwnerCall) (s : Lifecycle) : Prop :=
  match nw_owner s with
  | Owner_Next => nw_reapers s ≠ [] ∨ nw_joined s = true ∨ nw_program s = program
  | Owner_Gone => nw_reapers s ≠ [] ∨ nw_joined s = true ∨ program = []
  | Owner_Restore => False
  | _ => True
  end.
Lemma cared_for_owner program spawned s s' :
  lifecycle_inv s → owner_step spawned s = Some s' → ¬ (spawned = false ∧ nw_owner s = Owner_Spawn) →
  cared_for program s → cared_for program s'.
Proof.
  intros [Hp _ Ho] E Hs Hc. destruct s as [slot reaping finished pc prog reapers exited now joined detached].
  unfold owner_step, join_before_step, reap_in_background_step, owner_next, nw_release in E.
  unfold cared_for, owner_inv, handle_places in *. cbn in *. destruct pc; cbn in *; simplify_eq.
  - destruct prog as [|[] prog]; cbn; [|done..]. destruct (forallb _ _ && _); cbn; naive_solver.
  - destruct slot; cbn; [done|]. lifecycle_cases. cbn in *. subst. right. left. destruct joined; [done|]. cbn in Hp. lia.
  - by destruct exited.
  - by destruct (_ <=? _).
  - done.
  - destruct exited; simplify_eq. cbn. auto.
  - destruct Ho as (_ & _ & [Hn|Hn]); lifecycle_cases; cbn in *; subst; cbn; [done|]. by left.
  - destruct spawned; [cbn; left; by destruct reapers|]. naive_solver.
  - done.
Qed.
Lemma cared_for_reaper program stores j s s' :
  reap_step stores j s = Some s' → lifecycle_inv s → cared_for program s → cared_for program s'.
Proof.
  intros E Hi Hc. unfold reap_step in E. destruct (nw_reapers s !! j) as [pc|] eqn:Ej; [|done].
  destruct (owner_inv_reaper _ _ _ Hi Ej) as (_ & -> & Er & _). cbn [mbind option_bind] in E.
  assert (∀ s0, nw_owner s0 = nw_owner s → nw_reapers s0 ≠ [] →
    cared_for program s0 ∧ cared_for program (nw_release s0)) as Hk.
  { intros s0 Eo Hne. unfold cared_for in Hc. destruct s0. cbn in Eo, Hne. subst.
    unfold cared_for, nw_release. cbn. destruct (nw_owner s); cbn; auto. destruct (_ && _); cbn; auto. }
  destruct pc; cbn in E; repeat case_match; simplify_eq; (apply Hk; cbn; [done|by rewrite Er]).
Qed.
Lemma run_cared_for stores program steps : ∀ s s',
  lifecycle_inv s → cared_for program s → lifecycle_run stores steps s = Some s' →
  cared_for program s' ∨ spawn_failed stores steps s.
Proof.
  induction steps as [|step steps IH]; intros s s' Hi Hc; cbn; [intros [= <-]; by left|].
  intros (s1 & E1 & E)%bind_Some.
  assert (cared_for program s1 ∨ step = Life_Owner false ∧ nw_owner s = Owner_Spawn) as [Hc1|[-> Ho]].
  { destruct step as [| |spawned|j]; cbn in E1; [injection E1 as <-; left; exact Hc..| |left; by eapply cared_for_reaper].
    destruct spawned; [left; eapply cared_for_owner; naive_solver|].
    destruct (decide (nw_owner s = Owner_Spawn)) as [|Hne]; [by right|]. left. eapply cared_for_owner; naive_solver. }
  - destruct (IH s1 s' (lifecycle_step_inv _ _ _ _ E1 Hi) Hc1 E) as [?|(pre & post & s2 & -> & Hr & Ho)]; [by left|].
    right. exists (step :: pre), post, s2. split_and!; [done| |done]. unfold lifecycle_run. cbn. by rewrite E1.
  - right. by exists [], steps, s.
Qed.

(** C27. A native worker is torn down whatever its owner, its reapers and the driver do, for
    the owners of the program (which join first or only reap): the owner never waits for
    the worker; once the worker has returned the threads make at most [teardown_cost]
    further steps, and when none can move the handle has been joined, unless the owner
    made no call at all or an attempt to start a reaper failed, in which case the handle is
    dropped with the lifecycle; and a stored [finished] means that it was joined. *)
Theorem native_worker_joined stores program now steps s :
  joins_first program = true →
  lifecycle_run stores steps (lifecycle_new program now) = Some s →
  (nw_owner s ≠ Owner_Gone → ∀ spawned, is_Some (owner_step spawned s)) ∧
  (nw_finished s = true → nw_joined s = true) ∧
  (nw_exited s = true →
     (∀ more s', lifecycle_run stores more s = Some s' → (thread_steps more ≤ teardown_cost s)%nat) ∧
     (at_rest stores s →
        nw_joined s = true ∨
        nw_detached s = true ∧ (program = [] ∨ spawn_failed stores steps (lifecycle_new program now)))).
Proof.
  intros Hf E.
  assert (lifecycle_inv s) as Hi.
  { eapply (lifecycle_run_invariant stores lifecycle_inv); [|by apply lifecycle_new_inv|exact E].
    intros ? ? ?. apply lifecycle_step_inv. }
  split; [by intros; apply owner_moves|]. split.
  - intros Hfin. assert (one_reaper s) as (_ & r & _ & _ & Hg & Hr).
    { pose proof (lci_owner _ Hi) as Ho. unfold owner_inv in Ho.
      destruct (nw_owner s); lifecycle_cases; try congruence.
      - destruct H0 as [[_ (_ & _ & ?)]|[_ ?]]; [congruence|done].
      - destruct H1 as [(_ & _ & ?)|?]; [congruence|done].
      - destruct Ho as [[(_ & _ & ?) _]|[? _]]; [congruence|done]. }
    apply Hg. auto.
  - intros He. split.
    + intros more s' Em. destruct (teardown_bounded _ _ _ _ Em He). lia.
    + intros Hr. destruct (at_rest_joined _ _ Hi He Hr) as [Hg [Hj|[Hd Hre]]]; [by left|].
      destruct (nw_joined s) eqn:Ej; [by left|right]. split; [done|].
      destruct (run_cared_for stores program steps (lifecycle_new program now) s) as [Hc|Hs];
        [by apply lifecycle_new_inv|cbn; auto|done| |by right].
      left. unfold cared_for in Hc. rewrite Hg in Hc. destruct Hc as [Hc|[Hc|Hc]]; [|congruence|done].
      exfalso. destruct (nw_reapers s) as [|r l] eqn:Er; [done|].
      destruct (owner_inv_reaper s 0 r Hi) as (_ & _ & _ & Hd' & _); [by rewrite Er|congruence].
Qed.

(** A client worker that outlives the deadline of its owner: the reaper joins it. *)
Definition late_worker_steps : list LifecycleStep :=
  [Life_Owner true; Life_Owner true; Life_Owner true; Life_Tick; Life_Owner true; Life_Owner true;
   Life_Owner true; Life_Owner true; Life_Owner true; Life_Reaper 0; Life_WorkerExits; Life_Reaper 0].
Lemma native_worker_joined_witness :
  let s := lifecycle_run false late_worker_steps (lifecycle_new [Call_JoinBefore 1] 0) in
  nw_owner <$> s = Some Owner_Gone ∧
  match s with
  | Some s => nw_joined s = true ∧ (nw_exited s = true →
      (∀ more s', lifecycle_run false more s = Some s' → (thread_steps more ≤ teardown_cost s)%nat))
  | None => False
  end.
Proof.
  intros s. split; [vm_compute; reflexivity|]. destruct s as [s0|] eqn:E; [|vm_compute in E; discriminate E].
  destruct (native_worker_joined false [Call_JoinBefore 1] 0 late_worker_steps s0 eq_refl E) as (_ & _ & H).
  split; [|apply H]. vm_compute in E. injection E as <-. reflexivity.
Defined.

(** ** [join_before] returns *)

(** The steps the owner has left in a call whose deadline has passed. *)
Definition late_cost (now : Z) (pc : OwnerPc) : option nat :=
  match pc with
  | Owner_Gone => Some 0%nat | Owner_Next => Some 1%nat | Owner_Restore => Some 2%nat
  | Owner_Join => Some 2%nat | Owner_Spawn => Some 3%nat | Owner_Swap => Some 4%nat
  | Owner_PutBack => Some 5%nat
  | Owner_Clock d => if d <=? now then Some 6%nat else None
  | Owner_Poll d => if d <=? now then Some 7%nat else None
  | Owner_Take d => if d <=? now then Some 8%nat else None
  end.
Definition is_owner_step (step : LifecycleStep) : bool :=
  match step with Life_Owner _ => true | _ => false end.
Definition owner_steps (steps : list LifecycleStep) : nat := length (List.filter is_owner_step steps).

Lemma release_fixed s :
  nw_owner (nw_release s) = nw_owner s ∧ nw_program (nw_release s) = nw_program s ∧
  nw_now (nw_release s) = nw_now s.
Proof. unfold nw_release. destruct (nw_owner s) eqn:E; try done. by destruct (_ && _). Qed.

Lemma late_step stores s step s' n :
  lifecycle_step stores s step = Some s' → nw_program s = [] → late_cost (nw_now s) (nw_owner s) = Some n →
  nw_program s' = [] ∧
  ∃ n', late_cost (nw_now s') (nw_owner s') = Some n' ∧ (n' + b2n (is_owner_step step) ≤ n)%nat.
Proof.
  intros E Hp Hc. destruct step; cbn [lifecycle_step is_owner_step b2n] in *.
  - injection E as <-. cbn. split; [done|]. destruct (nw_owner s); cbn in *; simplify_eq; eauto with lia;
      destruct (_ <=? nw_now s) eqn:El; simplify_eq; rewrite (proj2 (Z.leb_le _ _)) by lia; eauto with lia.
  - injection E as <-. cbn. eauto with lia.
  - unfold owner_step, join_before_step, reap_in_background_step, owner_next in E. rewrite Hp in E.
    destruct (nw_owner s) eqn:Eo; cbn [late_cost] in Hc; repeat case_match; simplify_eq;
      rewrite ?(proj1 (release_fixed _)), ?(proj1 (proj2 (release_fixed _))), ?(proj2 (proj2 (release_fixed _)));
      cbn; split; try done; repeat match goal with H : (_ <=? _) = _ |- _ => rewrite H end; eauto with lia.
  - unfold reap_step in E. destruct (nw_reapers s !! j) as [[]|]; cbn in E; repeat case_match; simplify_eq;
      rewrite ?(proj1 (release_fixed _)), ?(proj1 (proj2 (release_fixed _))), ?(proj2 (proj2 (release_fixed _)));
      cbn; eauto with lia.
Qed.

Lemma late_run stores steps : ∀ s s' n,
  lifecycle_run stores steps s = Some s' → nw_program s = [] →
  late_cost (nw_now s) (nw_owner s) = Some n → (owner_steps steps ≤ n)%nat.
Proof.
  induction steps as [|step steps IH]; intros s s' n; cbn; [unfold owner_steps; cbn; lia|].
  intros (s1 & E1 & E)%bind_Some Hp Hc. destruct (late_step _ _ _ _ _ E1 Hp Hc) as (Hp1 & n1 & Hc1 & Hle).
  specialize (IH _ _ _ E Hp1 Hc1). unfold owner_steps in *. cbn. destruct (is_owner_step step); cbn in *; lia.
Qed.

(** [join_before] is bounded by its deadline: an owner whose last call it is never waits
    (each of its steps is possible in every interleaving, the worker still running
    included), and from the deadline on it is gone after at most eight of its own steps. *)
Theorem join_before_bounded stores program now deadline steps s :
  joins_first program = true →
  lifecycle_run stores steps (lifecycle_new program now) = Some s →
  (nw_owner s ≠ Owner_Gone → ∀ spawned, is_Some (owner_step spawned s)) ∧
  (nw_program s = [] → deadline ≤ nw_now s →
   nw_owner s = Owner_Take deadline ∨ nw_owner s = Owner_Poll deadline ∨ nw_owner s = Owner_Clock deadline →
   ∀ more s', lifecycle_run stores more s = Some s' → (owner_steps more ≤ 8)%nat).
Proof.
  intros Hf E. split.
  - intros Hg spawned. apply owner_moves; [|done].
    eapply (lifecycle_run_invariant stores lifecycle_inv); [|by apply lifecycle_new_inv|exact E].
    intros ? ? ?. apply lifecycle_step_inv.
  - intros Hp Hd Ho more s' Em.
    assert (∃ n, late_cost (nw_now s) (nw_owner s) = Some n ∧ (n ≤ 8)%nat) as (n & Hn & Hle).
    { destruct Ho as [->|[-> | ->]]; cbn; rewrite (proj2 (Z.leb_le _ _)) by done; eauto with lia. }
    pose proof (late_run _ _ _ _ _ Em Hp Hn). lia.
Qed.

(** A join after a reaper was started can strand the handle: the reaper finds the slot
    empty and returns, the owner puts the handle back at its deadline, and no second
    reaper is started because [reaping] stays set. *)
Definition stranding_steps : list LifecycleStep :=
  [Life_Owner true; Life_Owner true; Life_Owner true; Life_Owner true; Life_Owner true; Life_Reaper 0;
   Life_Owner true; Life_Owner true; Life_Owner true; Life_Owner true; Life_Owner true].
Example reap_then_join_strands :
  match lifecycle_run false stranding_steps (lifecycle_new [Call_Reap; Call_JoinBefore 0] 0) with
  | Some s => nw_detached s = true ∧ nw_reaping s = true ∧ nw_exited s = false ∧ nw_owner s = Owner_Gone
  | None => False
  end.
Proof. vm_compute. auto. Qed.

(** ** The pipeline's worker (apps/nexus-client/src/runtime.rs)

    [NativePipeline::shutdown] joins its worker before a deadline, else hands the handle
    to a reaper, and joins it itself when no reaper can be started. *)

Inductive HandleFate := Fate_None | Fate_Joined | Fate_Reaper | Fate_JoinedLate.

(** The wait: at each turn whether the worker has finished and whether the deadline is
    still ahead; the worker is looked at once more after it. *)
Fixpoint wait_finished (turns : list (bool * bool)) : option bool :=
  match turns with
  | [] => None
  | (finished, ahead) :: turns =>
      if finished then Some true else if ahead : bool then wait_finished turns else Some false
  end.

(** [None] is a wait that the list of turns does not end; [late] says whether the worker
    finishes between the wait and the last look. *)
Definition pipeline_shutdown (worker finished : bool) (turns : list (bool * bool)) (late spawned : bool) :
    option (bool * HandleFate) :=
  if negb worker then Some (true, Fate_None) else
  if finished : bool then Some (true, Fate_Joined) else
  done ← wait_finished turns;
  if done || late then Some (true, Fate_Joined) else
  Some (false, if spawned : bool then Fate_Reaper else Fate_JoinedLate).

(** A deadline ends the wait; the pipeline says it stopped exactly when it joined in time
    or had nothing to join, and otherwise the worker is with a reaper, or joined by the
    owner because there is none. *)
Lemma pipeline_shutdown_spec worker finished turns late spawned :
  existsb (λ t, negb (snd t)) turns = true →
  ∃ r fate, pipeline_shutdown worker finished turns late spawned = Some (r, fate) ∧
    (r = true ↔ fate = Fate_None ∨ fate = Fate_Joined) ∧ (fate = Fate_None ↔ worker = false) ∧
    (r = false → if spawned then fate = Fate_Reaper else fate = Fate_JoinedLate).
Proof.
  intros Ht. assert (is_Some (wait_finished turns)) as [b Eb].
  { induction turns as [|[f a] turns IH]; [done|]. cbn in *. destruct f; [done|]. destruct a; [by apply IH|done]. }
  unfold pipeline_shutdown. destruct worker, finished; cbn; rewrite ?Eb; cbn;
    [| |by eexists _, _; split_and!; [done|naive_solver..]|by eexists _, _; split_and!; [done|naive_solver..]].
  - eexists _, _; split_and!; [done|naive_solver..].
  - destruct b, late, spawned; cbn; eexists _, _; split_and!; [done|naive_solver..].
Qed.
