(* ===== verification/NativeCalls.v ===== *)
(** * Native set-up of the codec and renderer threads

    The calls into COM, Media Foundation and Direct3D by which the decoder
    (apps/nexus-client/src/decoder.rs), the renderer (renderer.rs) and the encoder
    (platform/windows/src/codec.rs) find a transform, describe media types and make a
    device.  What a call answers comes from a list of answers (a call past its end
    succeeds), and every call that acquires or releases something is logged. *)

From S2P Require Import Prelude Capture Surface Renderer WinCodec.

Open Scope Z_scope.

#[global] Instance Hresult_eq_dec : EqDecision Hresult.
Proof. solve_decision. Defined.

(** ** Calls and their answers *)

Inductive NativeCall :=
  | Native_CoInitializeEx (ok : bool)
  | Native_CoUninitialize (alive : bool)   (** [alive]: objects of the thread are still held *)
  | Native_MFStartup (ok : bool)
  | Native_MFShutdown (alive : bool)
  | Native_MFTEnumEx (ok : bool)
  | Native_ReleaseActivation (index : nat)
  | Native_CoTaskMemFree
  | Native_ActivateObject (index : nat) (ok : bool)
  | Native_Negotiate (ok : bool)           (** a call that sets the transform up *)
  | Native_Serve                           (** a command at work on the transform *)
  | Native_Flush
  | Native_TransformShutdown
  | Native_ReleaseTransform.

Record Os := mkOs { os_answers : list (option Hresult); os_calls : list NativeCall }.

(** Fallible code: the answer [Err] is an early return. *)
Definition OsM (E A : Type) : Type := Os → result E A * Os.
#[global] Instance OsM_ret {E} : MRet (OsM E) := λ A a os, (Ok a, os).
#[global] Instance OsM_bind {E} : MBind (OsM E) := λ A B f m os,
  match m os with
  | (Ok a, os) => f a os
  | (Err e, os) => (Err e, os)
  end.

(** [None] is success. *)
Definition next_answer (os : Os) : option Hresult * Os :=
  (mjoin (head (os_answers os)), mkOs (tail (os_answers os)) (os_calls os)).
Definition log_call (c : NativeCall) (os : Os) : Os := mkOs (os_answers os) (os_calls os ++ [c]).
(** A call that cannot fail, and one that can, with the error it is mapped to. *)
Definition emit {E} (c : NativeCall) : OsM E unit := λ os, (Ok tt, log_call c os).
Definition ask {E} : OsM E bool := λ os,
  let '(h, os) := next_answer os in (Ok (bool_decide (h = None)), os).
Definition attempt {E} (c : bool → NativeCall) (f : Hresult → E) : OsM E unit := λ os,
  match next_answer os with
  | (None, os) => (Ok tt, log_call (c true) os)
  | (Some h, os) => (Err (f h), log_call (c false) os)
  end.
(** A call that only answers. *)
Definition attempt_quiet {E} (f : Hresult → E) : OsM E unit := λ os,
  match next_answer os with (None, os) => (Ok tt, os) | (Some h, os) => (Err (f h), os) end.
Definition throw {E A} (e : E) : OsM E A := λ os, (Err e, os).

(** ** Enumerating transforms *)

(** The block [MFTEnumEx] returned: a null pointer, or its entries, each an activation or
    a null. *)
Abbreviation ActivationBlock := (option (list bool)).

(** The loop that takes every entry out of the block, keeping the first activation and
    releasing the others. *)
Fixpoint take_activations {E} (index : nat) (items : list bool) (selected : option nat) :
    OsM E (option nat) :=
  match items with
  | [] => mret selected
  | present :: items =>
      match selected with
      | None => take_activations (S index) items (if present then Some index else None)
      | Some _ =>
          _ ← (if present then emit (Native_ReleaseActivation index) else mret tt);
          take_activations (S index) items selected
      end
  end.

(** What [select_h264_decoder] and [select_hardware_h264_transform] share: they differ in
    the types they ask for and in the error type. *)
Definition activate {E} (unavailable : E) (index : nat) : OsM E unit := λ os,
  let '(r, os) := attempt (Native_ActivateObject index) (λ _, unavailable) os in
  (* the activation is dropped when the function returns, activated or not *)
  (r, log_call (Native_ReleaseActivation index) os).
Definition select_transform {E} (unavailable : E) (block : ActivationBlock) : OsM E unit :=
  _ ← attempt Native_MFTEnumEx (λ _, unavailable);
  match block with
  | None => throw unavailable
  | Some [] => _ ← emit Native_CoTaskMemFree; throw unavailable
  | Some items =>
      selected ← take_activations 0 items None;
      _ ← emit Native_CoTaskMemFree;
      match selected with
      | None => throw unavailable
      | Some index => activate unavailable index
      end
  end.

Definition select_h264_decoder (block : ActivationBlock) : OsM DecoderError unit :=
  select_transform Decoder_BackendUnavailable block.
Definition select_hardware_h264_transform (block : ActivationBlock) : OsM CodecError unit :=
  select_transform Codec_BackendUnavailable block.

(** ** Media types *)

Inductive MediaAttribute :=
  | MF_MT_MAJOR_TYPE | MF_MT_SUBTYPE | MF_MT_FRAME_SIZE | MF_MT_FRAME_RATE
  | MF_MT_PIXEL_ASPECT_RATIO | MF_MT_INTERLACE_MODE | MF_MT_AVG_BITRATE | MF_MT_MPEG2_PROFILE.
Inductive MediaValue :=
  | MFMediaType_Video | MFVideoFormat_H264 | MFVideoFormat_NV12
  | MFVideoInterlace_Progressive | ConstrainedBase | Uint64 (z : Z) | Uint32 (z : Z).
Abbreviation MediaType := (list (MediaAttribute * MediaValue)).

(** Each attribute is set by a call that can fail. *)
Fixpoint set_attributes {E} (f : Hresult → E) (attributes : MediaType) (set : MediaType) : OsM E MediaType :=
  match attributes with
  | [] => mret set
  | a :: attributes => _ ← attempt_quiet f; set_attributes f attributes (set ++ [a])
  end.

(** A ratio or a size in one 64-bit attribute. *)
Definition pack_u32 (high low : Z) : Z := Z.lor (Z.shiftl high 32) low.
Definition unpack_u32 (packed : Z) : Z * Z := (Z.shiftr packed 32, Z.land packed (2 ^ 32 - 1)).

(** [video_type] of the decoder *)
Definition decoder_attributes (width height : Z) (subtype : MediaValue) : MediaType :=
  [(MF_MT_MAJOR_TYPE, MFMediaType_Video);
   (MF_MT_SUBTYPE, subtype);
   (MF_MT_FRAME_SIZE, Uint64 (pack_u32 width height));
   (MF_MT_PIXEL_ASPECT_RATIO, Uint64 (Z.shiftl 1 32));
   (MF_MT_INTERLACE_MODE, MFVideoInterlace_Progressive)].
Definition video_type (width height : Z) (subtype : MediaValue) : OsM DecoderError MediaType :=
  _ ← attempt_quiet (λ _, Decoder_BackendUnavailable);
  set_attributes (λ _, Decoder_BackendUnavailable) (decoder_attributes width height subtype) [].

(** [create_video_type] of the encoder *)
Definition encoder_attributes (config : EncoderConfig) (subtype : MediaValue) (compressed : bool) : MediaType :=
  [(MF_MT_MAJOR_TYPE, MFMediaType_Video);
   (MF_MT_SUBTYPE, subtype);
   (MF_MT_FRAME_SIZE, Uint64 (pack_u32 (ec_width config) (ec_height config)));
   (MF_MT_FRAME_RATE, Uint64 (pack_u32 (ec_max_fps config) 1));
   (MF_MT_PIXEL_ASPECT_RATIO, Uint64 (pack_u32 1 1));
   (MF_MT_INTERLACE_MODE, MFVideoInterlace_Progressive)] ++
  (if compressed
   then [(MF_MT_AVG_BITRATE, Uint32 (ec_bitrate_bps config)); (MF_MT_MPEG2_PROFILE, ConstrainedBase)]
   else []).
Definition create_video_type (config : EncoderConfig) (subtype : MediaValue) (compressed : bool) :
    OsM CodecError MediaType :=
  _ ← attempt_quiet classify_hresult;
  set_attributes classify_hresult (encoder_attributes config subtype compressed) [].

(** ** The video processor of the encoder *)

Inductive TextureUsage := Usage_Default | Usage_Staging.
Record D3dTextureDesc := mkD3dTextureDesc {
  dt_width : Z; dt_height : Z; dt_mip_levels : Z; dt_array_size : Z; dt_format : TextureFormat;
  dt_sample_count : Z; dt_usage : TextureUsage; dt_render_target : bool; dt_cpu_read : bool
}.
Definition texture_desc (width height : Z) (format : TextureFormat) (usage : TextureUsage)
    (render_target cpu_read : bool) : D3dTextureDesc :=
  mkD3dTextureDesc width height 1 1 format 1 usage render_target cpu_read.
(** The call, then the out-parameter, which a successful call may have left empty. *)
Definition create_texture (desc : D3dTextureDesc) : OsM unit D3dTextureDesc :=
  _ ← attempt_quiet (λ _, tt);
  _ ← attempt_quiet (λ _, tt);
  mret desc.

Record ContentDesc := mkContentDesc {
  cd_input_rate : Z * Z; cd_input_size : Z * Z; cd_output_rate : Z * Z; cd_output_size : Z * Z
}.
Record D3d11Nv12Converter := mkD3d11Nv12Converter {
  dc_content : ContentDesc;
  dc_input_texture : D3dTextureDesc; dc_output_texture : D3dTextureDesc;
  dc_staging_texture : D3dTextureDesc;
  dc_width : Z; dc_height : Z
}.

(** [D3d11Nv12Converter::new]; [input_support] and [output_support] are the formats'
    support bits that it tests. *)
Definition D3d11Nv12Converter_new (width height max_fps : Z) (input_support output_support : bool) :
    OsM unit D3d11Nv12Converter :=
  _ ← attempt_quiet (λ _, tt);                    (* D3D11CreateDevice *)
  _ ← attempt_quiet (λ _, tt);                    (* the device *)
  _ ← attempt_quiet (λ _, tt);                    (* the immediate context *)
  _ ← attempt_quiet (λ _, tt);                    (* its video device *)
  _ ← attempt_quiet (λ _, tt);                    (* its video context *)
  let content := mkContentDesc (max_fps, 1) (width, height) (max_fps, 1) (width, height) in
  _ ← attempt_quiet (λ _, tt);                    (* CreateVideoProcessorEnumerator *)
  _ ← attempt_quiet (λ _, tt);                    (* CheckVideoProcessorFormat, twice *)
  _ ← attempt_quiet (λ _, tt);
  if negb input_support || negb output_support then throw tt else
  _ ← attempt_quiet (λ _, tt);                    (* CreateVideoProcessor *)
  input_texture ← create_texture (texture_desc width height B8G8R8A8 Usage_Default false false);
  output_texture ← create_texture (texture_desc width height TextureNv12 Usage_Default true false);
  staging_texture ← create_texture (texture_desc width height TextureNv12 Usage_Staging false true);
  _ ← attempt_quiet (λ _, tt);                    (* CreateVideoProcessorInputView *)
  _ ← attempt_quiet (λ _, tt);                    (* CreateVideoProcessorOutputView *)
  _ ← attempt_quiet (λ _, tt);                    (* the two views *)
  _ ← attempt_quiet (λ _, tt);
  mret (mkD3d11Nv12Converter content input_texture output_texture staging_texture width height).

(** [Nv12Converter::new] falls back to the processor. *)
Definition Nv12Converter_new (config : EncoderConfig) (input_support output_support : bool) (os : Os) :
    Nv12Converter * Os :=
  match D3d11Nv12Converter_new (ec_width config) (ec_height config) (ec_max_fps config)
          input_support output_support os with
  | (Ok c, os) => (Converter_D3d11 (dc_width c) (dc_height c), os)
  | (Err _, os) => (Converter_Cpu, os)
  end.

(** ** Reading a buffer of the transform *)

(** What [Lock] gives: a failed call, a null pointer or the bytes; and whether [Unlock]
    succeeds. *)
Record LockedBuffer := mkLockedBuffer {
  lb_length : result Hresult Z; lb_lock : result Hresult (option bytes); lb_unlock : option Hresult
}.
(** The bytes and how often the buffer was locked and unlocked; [None] is a read outside
    the buffer. *)
Definition copy_buffer (b : LockedBuffer) : option (result CodecError bytes * Z * Z) :=
  match lb_length b with
  | Err h => Some (Err (classify_hresult h), 0, 0)
  | Ok length =>
  match lb_lock b with
  | Err h => Some (Err (classify_hresult h), 0, 0)
  | Ok None => Some (Err Codec_BackendLost, 1, 1)
  | Ok (Some source) =>
      if len source <? length then None else
      match lb_unlock b with
      | Some h => Some (Err (classify_hresult h), 1, 1)
      | None => Some (Ok (take (Z.to_nat length) source), 1, 1)
      end
  end end.

(** ** What the media types say *)

Lemma unpack_pack high low : uint 32 high → uint 32 low → unpack_u32 (pack_u32 high low) = (high, low).
Proof.
  unfold uint, unpack_u32, pack_u32. intros Hh Hl. f_equal.
  - rewrite Z.shiftr_lor, Z.shiftr_shiftl_l, Z.sub_diag, Z.shiftl_0_r by lia.
    by rewrite (Z.shiftr_div_pow2 low), Z.div_small, Z.lor_0_r by lia.
  - rewrite <-(Z.ones_equiv 32 : Z.ones 32 = 2 ^ 32 - 1) || change (2 ^ 32 - 1) with (Z.ones 32).
    rewrite Z.land_ones by lia. rewrite <-(Z.land_ones _ 32), Z.land_lor_distr_l, !Z.land_ones by lia.
    rewrite Z.shiftl_mul_pow2, Z.mod_mul, Z.lor_0_l by lia. by apply Z.mod_small.
Qed.

Definition attribute_of (a : MediaAttribute) (m : MediaType) : option MediaValue :=
  snd <$> List.find (λ x, match fst x, a with
    | MF_MT_MAJOR_TYPE, MF_MT_MAJOR_TYPE | MF_MT_SUBTYPE, MF_MT_SUBTYPE | MF_MT_FRAME_SIZE, MF_MT_FRAME_SIZE
    | MF_MT_FRAME_RATE, MF_MT_FRAME_RATE | MF_MT_PIXEL_ASPECT_RATIO, MF_MT_PIXEL_ASPECT_RATIO
    | MF_MT_INTERLACE_MODE, MF_MT_INTERLACE_MODE | MF_MT_AVG_BITRATE, MF_MT_AVG_BITRATE
    | MF_MT_MPEG2_PROFILE, MF_MT_MPEG2_PROFILE => true
    | _, _ => false end) m.
(** The pair an attribute carries. *)
Definition ratio_of (a : MediaAttribute) (m : MediaType) : option (Z * Z) :=
  match attribute_of a m with Some (Uint64 z) => Some (unpack_u32 z) | _ => None end.

Lemma set_attributes_Ok {E} (f : Hresult → E) attributes : ∀ set os m os',
  set_attributes f attributes set os = (Ok m, os') → m = set ++ attributes.
Proof.
  induction attributes as [|a attributes IH]; intros set os m os'; cbn.
  { intros [= <- _]. by rewrite app_nil_r. }
  unfold mbind, OsM_bind, attempt_quiet. destruct (next_answer os) as [[h|] os1]; [done|].
  intros E1. apply IH in E1 as ->. by rewrite <-app_assoc.
Qed.

(** A media type that the encoder could make describes its configuration: the size, the
    rate and square pixels can be read back from it, and the compressed one carries the
    bit rate. *)
Theorem encoder_media_type_describes config subtype compressed os m os' :
  uint 32 (ec_width config) → uint 32 (ec_height config) → uint 32 (ec_max_fps config) →
  create_video_type config subtype compressed os = (Ok m, os') →
  ratio_of MF_MT_FRAME_SIZE m = Some (ec_width config, ec_height config) ∧
  ratio_of MF_MT_FRAME_RATE m = Some (ec_max_fps config, 1) ∧
  ratio_of MF_MT_PIXEL_ASPECT_RATIO m = Some (1, 1) ∧
  attribute_of MF_MT_SUBTYPE m = Some subtype ∧
  attribute_of MF_MT_AVG_BITRATE m = if compressed then Some (Uint32 (ec_bitrate_bps config)) else None.
Proof.
  intros Hw Hh Hf. unfold create_video_type, mbind, OsM_bind.
  destruct (attempt_quiet _ os) as [[?|] os1]; [|done]. intros E%set_attributes_Ok. cbn [app] in E. subst m.
  unfold ratio_of. cbn -[pack_u32 unpack_u32]. rewrite !unpack_pack by (done || unfold uint; lia).
  by destruct compressed.
Qed.

(** The decoder's media types carry the size, and a pixel aspect ratio of one to zero. *)
Theorem decoder_media_type_describes width height subtype os m os' :
  uint 32 width → uint 32 height → video_type width height subtype os = (Ok m, os') →
  ratio_of MF_MT_FRAME_SIZE m = Some (width, height) ∧ ratio_of MF_MT_PIXEL_ASPECT_RATIO m = Some (1, 0).
Proof.
  intros Hw Hh. unfold video_type, mbind, OsM_bind.
  destruct (attempt_quiet _ os) as [[?|] os1]; [|done]. intros E%set_attributes_Ok. cbn [app] in E. subst m.
  unfold ratio_of. cbn -[pack_u32 unpack_u32 Z.shiftl]. by rewrite !unpack_pack.
Qed.

(** ** The converter of a configuration *)

(** The encoder converts on the device exactly when every native object could be made and
    both formats are supported; the device's textures then have the size of the
    configuration, the staging texture alone is readable, and its format is the one the
    frames are copied out in. *)
Theorem Nv12Converter_new_spec config input_support output_support os :
  match D3d11Nv12Converter_new (ec_width config) (ec_height config) (ec_max_fps config)
          input_support output_support os with
  | (Ok c, os') =>
      Nv12Converter_new config input_support output_support os =
        (Converter_D3d11 (ec_width config) (ec_height config), os') ∧
      input_support = true ∧ output_support = true ∧
      Forall (λ t, dt_width t = ec_width config ∧ dt_height t = ec_height config)
        [dc_input_texture c; dc_output_texture c; dc_staging_texture c] ∧
      dt_format (dc_staging_texture c) = dt_format (dc_output_texture c) ∧
      dt_cpu_read (dc_staging_texture c) = true
  | (Err _, os') => Nv12Converter_new config input_support output_support os = (Converter_Cpu, os')
  end.
Proof.
  unfold Nv12Converter_new. destruct (D3d11Nv12Converter_new _ _ _ _ _ os) as [[c|] os'] eqn:E; [|done].
  revert E. unfold D3d11Nv12Converter_new, create_texture, mbind, OsM_bind.
  repeat (match goal with
    | |- context [attempt_quiet ?f ?o] => destruct (attempt_quiet f o) as [[?|] ?]; [|done]
    | |- context [if ?b then throw tt else _] => destruct b eqn:?; [done|]
    end; cbn [mret OsM_ret]).
  intros [= <- <-]. apply orb_false_iff in Heqb as [Hi Ho].
  apply negb_false_iff in Hi, Ho. subst. split_and!; try done. repeat constructor.
Qed.
