(* ===== verification/NativeThreads.v ===== *)
(** * The native threads of the client and the host

    [decoder_main] (apps/nexus-client/src/decoder.rs), [renderer_main] (renderer.rs) and
    [worker_main] (platform/windows/src/codec.rs): set-up, the command loop over the
    operations of [Decoder], [Renderer] and [WinCodec], and the release of what was
    acquired; and the calls their owners make on the lifecycle of [NativeWorker].  The
    commands a thread receives are an argument; the end of the list is a disconnected
    channel.  [Err tt] of a thread is a panic. *)

From S2P Require Import Prelude Capture ClientReceiver VideoTransport Window Surface Decoder Renderer CommandChannel Pipeline Nv12 WinCodec NativeWorker NativeCalls.

Open Scope Z_scope.

(** Running fallible code whose error is handled. *)
Definition handle {E F A} (m : OsM E A) : OsM F (result E A) := λ os,
  let '(r, os) := m os in (Ok r, os).
Definition of_option {A} (o : option A) : OsM unit A := λ os, (ok_or o tt, os).

(** ** The decoder thread *)

Section decoder_thread.
Context {T : Type} `{DecoderTransform T}.

Record DecoderThread := mkDecoderThread { th_decoder : NativeDecoder T; th_started : bool }.

(** The four calls that configure the transform. *)
Definition configure_decoder (width height : Z) : OsM DecoderError unit :=
  _ ← video_type width height MFVideoFormat_H264;
  _ ← video_type width height MFVideoFormat_NV12;
  _ ← attempt Native_Negotiate (λ _, Decoder_BackendUnavailable);
  _ ← attempt Native_Negotiate (λ _, Decoder_BackendUnavailable);
  _ ← attempt Native_Negotiate (λ _, Decoder_BackendUnavailable);
  attempt Native_Negotiate (λ _, Decoder_BackendUnavailable).

(** [IMFShutdown], when the transform has it. *)
Definition shutdown_transform {E} : OsM E unit :=
  cast ← ask;
  if cast : bool then emit Native_TransformShutdown else mret tt.

Definition native_decoder_start (block : ActivationBlock) (t : T) (width height : Z) :
    OsM DecoderError DecoderThread :=
  _ ← (λ os, (validated_nv12_len width height, os)) : OsM DecoderError Z;
  _ ← attempt Native_MFStartup (λ _, Decoder_BackendUnavailable);
  selected ← handle (select_h264_decoder block);
  match selected with
  | Err e => _ ← emit (Native_MFShutdown false); throw e
  | Ok _ =>
      configured ← handle (configure_decoder width height);
      match configured with
      | Err e =>
          _ ← shutdown_transform;
          _ ← emit (Native_MFShutdown true);
          _ ← emit Native_ReleaseTransform;
          throw e
      | Ok _ => mret (mkDecoderThread (mkNativeDecoder t width height false [] []) true)
      end
  end.

(** [NativeDecoder::shutdown]: the transform stays with the decoder. *)
Definition decoder_shutdown (s : DecoderThread) : OsM unit DecoderThread :=
  _ ← emit Native_Flush;
  _ ← shutdown_transform;
  if th_started s
  then _ ← emit (Native_MFShutdown true); mret (mkDecoderThread (th_decoder s) false)
  else mret s.

Inductive DecoderTurn := DecoderTurn_Command (c : DecoderCommand) | DecoderTurn_Shutdown.

(** The loop, with the replies it sent. *)
Fixpoint decoder_loop (turns : list DecoderTurn) (s : DecoderThread) (replies : list DecoderReply) :
    OsM unit (DecoderThread * list DecoderReply) :=
  match turns with
  | [] => mret (s, replies)
  | DecoderTurn_Command c :: turns =>
      _ ← emit Native_Serve;
      '(reply, d) ← of_option (decoder_main_command (th_decoder s) c);
      decoder_loop turns (mkDecoderThread d (th_started s)) (replies ++ [reply])
  | DecoderTurn_Shutdown :: _ => s ← decoder_shutdown s; mret (s, replies)
  end.

(** What the thread sent as its start-up answer, and its replies. *)
Definition decoder_main (block : ActivationBlock) (t : T) (width height : Z) (turns : list DecoderTurn) :
    OsM unit (result DecoderError unit * list DecoderReply) :=
  initialized ← handle (attempt Native_CoInitializeEx (λ _, tt));
  match initialized with
  | Err _ => mret (Err Decoder_BackendUnavailable, [])
  | Ok _ =>
      started ← handle (native_decoder_start block t width height);
      match started with
      | Err e => _ ← emit (Native_CoUninitialize false); mret (Err e, [])
      | Ok s =>
          '(s, replies) ← decoder_loop turns s [];
          (* [drop(decoder)]: its [Drop], then its fields *)
          _ ← decoder_shutdown s;
          _ ← emit Native_ReleaseTransform;
          _ ← emit (Native_CoUninitialize false);
          mret (Ok tt, replies)
      end
  end.
End decoder_thread.
Arguments DecoderThread T : clear implicits.

(** ** The encoder thread *)

Section encoder_thread.
Context {T : Type} `{EncoderMft T}.

Record EncoderThread := mkEncoderThread { et_encoder : NativeEncoder T; et_started : bool }.

(** The Media Foundation and Direct3D objects the encoder still holds. *)
Definition holds_objects (e : NativeEncoder T) : bool :=
  bool_decide (is_Some (ne_transform e)) || ne_event_generator e ||
  bool_decide (is_Some (ne_converter e)) ||
  bool_decide (as_queued_inputs (ne_async_inputs e) ≠ []).

(** [NativeEncoder::start] *)
Definition native_encoder_start (block : ActivationBlock) (t : T) : OsM CodecError EncoderThread :=
  _ ← attempt Native_MFStartup (λ _, Codec_BackendUnavailable);
  selected ← handle (select_hardware_h264_transform block);
  match selected with
  | Ok _ =>
      event_generator ← ask;
      mret (mkEncoderThread (NativeEncoder_start t event_generator) true)
  | Err e => _ ← emit (Native_MFShutdown false); throw e
  end.

(** [NativeEncoder::shutdown] *)
Definition encoder_shutdown (s : EncoderThread) (polls : list (Events * bool)) : OsM unit EncoderThread :=
  let e := et_encoder s in
  _ ← (if bool_decide (is_Some (ne_config e)) then emit Native_Serve else mret tt);
  after ← of_option (NativeEncoder_shutdown e polls);
  _ ← (if bool_decide (is_Some (ne_transform e))
       then _ ← shutdown_transform; emit Native_ReleaseTransform else mret tt);
  if et_started s
  then _ ← emit (Native_MFShutdown (holds_objects after)); mret (mkEncoderThread after false)
  else mret (mkEncoderThread after false).

Inductive EncoderTurn :=
  | Turn_Configure (config : EncoderConfig)
  | Turn_Encode (frame : CapturedFrame) (force_keyframe : bool) (before after : Events)
  | Turn_Drain (polls : list (Events * bool))
  | Turn_Shutdown (polls : list (Events * bool))
  | Turn_Timeout (before after : Events).
Inductive EncoderReply :=
  | Reply_Unit (r : result CodecError unit)
  | Reply_Frame (r : result CodecError EncodedFrame)
  | Reply_Stopped.

Definition set_encoder (s : EncoderThread) (e : NativeEncoder T) : EncoderThread :=
  mkEncoderThread e (et_started s).

Fixpoint encoder_loop (turns : list EncoderTurn) (s : EncoderThread) (replies : list EncoderReply) :
    OsM unit (EncoderThread * list EncoderReply) :=
  match turns with
  | [] => mret (s, replies)
  | Turn_Configure config :: turns =>
      _ ← emit Native_Serve;
      let '(r, e) := NativeEncoder_configure (et_encoder s) config in
      encoder_loop turns (set_encoder s e) (replies ++ [Reply_Unit r])
  | Turn_Encode frame force before after :: turns =>
      _ ← emit Native_Serve;
      '(r, e) ← of_option (NativeEncoder_encode (et_encoder s) frame force before after);
      encoder_loop turns (set_encoder s e) (replies ++ [Reply_Frame r])
  | Turn_Drain polls :: turns =>
      _ ← emit Native_Serve;
      '(r, e) ← of_option (NativeEncoder_drain (et_encoder s) polls);
      encoder_loop turns (set_encoder s e) (replies ++ [Reply_Unit r])
  | Turn_Shutdown polls :: _ =>
      s ← encoder_shutdown s polls;
      mret (s, replies ++ [Reply_Stopped])
  | Turn_Timeout before after :: turns =>
      _ ← emit Native_Serve;
      let '(r, e) := NativeEncoder_pump (et_encoder s) before after in
      match r with
      | Err _ => mret (set_encoder s e, replies)
      | Ok _ => encoder_loop turns (set_encoder s e) replies
      end
  end.

(** [listening]: the constructor still waits for the start-up answer; [polls] is what
    the polls of the final shutdown find. *)
Definition encoder_main (block : ActivationBlock) (t : T) (listening : bool)
    (turns : list EncoderTurn) (polls : list (Events * bool)) :
    OsM unit (result CodecError unit * list EncoderReply) :=
  initialized ← handle (attempt Native_CoInitializeEx (λ _, Codec_BackendUnavailable));
  match initialized with
  | Err e => mret (Err e, [])
  | Ok _ =>
      started ← handle (native_encoder_start block t);
      match started with
      | Err e => _ ← emit (Native_CoUninitialize false); mret (Err e, [])
      | Ok s =>
          '(s, replies) ← (if listening : bool then encoder_loop turns s [] else mret (s, []));
          s ← encoder_shutdown s polls;
          _ ← emit (Native_CoUninitialize (holds_objects (et_encoder s)));
          (* the [Drop] of the encoder comes last *)
          _ ← encoder_shutdown s [];
          mret (Ok tt, replies)
      end
  end.
End encoder_thread.
Arguments EncoderThread T : clear implicits.

(** ** What a thread holds *)

Record Held := mkHeld {
  h_com : bool; h_mf : bool; h_block : bool; h_activations : list nat; h_transform : bool
}.
Definition nothing_held : Held := mkHeld false false false [] false.

Fixpoint present_from (index : nat) (items : list bool) : list nat :=
  match items with
  | [] => []
  | present :: items => (if present then [index] else []) ++ present_from (S index) items
  end.

Section discipline.
(** The enumeration's block; [strict] also asks that the transform is used and released
    before Media Foundation is shut down. *)
Context (strict : bool) (block : ActivationBlock).

Definition idle_but_com (h : Held) : bool :=
  h_com h && negb (h_block h) && bool_decide (h_activations h = []) && (negb strict || negb (h_transform h)).

(** A call that is allowed, and what is held after it. *)
Definition native_step (h : Held) (c : NativeCall) : option Held :=
  match c with
  | Native_CoInitializeEx ok =>
      if bool_decide (h_com h = false) then Some (mkHeld ok (h_mf h) (h_block h) (h_activations h) (h_transform h))
      else None
  | Native_CoUninitialize alive =>
      if idle_but_com h && negb (h_mf h) && negb (h_transform h) && negb alive
      then Some (mkHeld false false false [] false) else None
  | Native_MFStartup ok =>
      if h_com h && negb (h_mf h)
      then Some (mkHeld true ok (h_block h) (h_activations h) (h_transform h)) else None
  | Native_MFShutdown alive =>
      if idle_but_com h && h_mf h && (negb strict || negb alive)
      then Some (mkHeld true false false [] (h_transform h)) else None
  | Native_MFTEnumEx ok =>
      if h_mf h && negb (h_block h) && bool_decide (h_activations h = [])
      then Some (if ok then mkHeld (h_com h) true (bool_decide (is_Some block))
                   (present_from 0 (default [] block)) (h_transform h) else h)
      else None
  | Native_ReleaseActivation index =>
      if h_mf h && bool_decide (index ∈ h_activations h)
      then Some (mkHeld (h_com h) true (h_block h) (List.remove Nat.eq_dec index (h_activations h)) (h_transform h))
      else None
  | Native_CoTaskMemFree =>
      if h_block h && (Nat.leb (length (h_activations h)) 1)
      then Some (mkHeld (h_com h) (h_mf h) false (h_activations h) (h_transform h)) else None
  | Native_ActivateObject index ok =>
      if h_mf h && bool_decide (index ∈ h_activations h) && negb (h_transform h)
      then Some (mkHeld (h_com h) true (h_block h) (h_activations h) ok) else None
  | Native_Negotiate _ | Native_Serve | Native_Flush | Native_TransformShutdown =>
      if h_transform h && (negb strict || h_mf h) then Some h else None
  | Native_ReleaseTransform =>
      if h_transform h && (negb strict || h_mf h)
      then Some (mkHeld (h_com h) (h_mf h) (h_block h) (h_activations h) false) else None
  end.
Definition held (os : Os) : option Held :=
  foldl (λ h c, h ≫= λ h, native_step h c) (Some nothing_held) (os_calls os).

(** What code does to what is held. *)
Definition moves {E A} (h : Held) (m : OsM E A) (Q : result E A → Held → Prop) : Prop :=
  ∀ os, held os = Some h → ∃ h', held (snd (m os)) = Some h' ∧ Q (fst (m os)) h'.

Lemma held_log c os h : held os = Some h → held (log_call c os) = native_step h c.
Proof. unfold held. cbn. rewrite foldl_app. cbn. by intros ->. Qed.
Lemma held_next os : held (snd (next_answer os)) = held os.
Proof. done. Qed.

Lemma moves_ret {E A} h (a : A) (Q : result E A → Held → Prop) : Q (Ok a) h → moves h (mret a) Q.
Proof. intros HQ os Ho. by exists h. Qed.
Lemma moves_throw {E A} h (e : E) (Q : result E A → Held → Prop) : Q (Err e) h → moves h (throw e) Q.
Proof. intros HQ os Ho. by exists h. Qed.
Lemma moves_bind {E A B} h (m : OsM E A) (f : A → OsM E B) (Q : result E B → Held → Prop) R :
  moves h m R → (∀ a h', R (Ok a) h' → moves h' (f a) Q) → (∀ e h', R (Err e) h' → Q (Err e) h') →
  moves h (m ≫= f) Q.
Proof.
  intros Hm Hf He os Ho. destruct (Hm os Ho) as (h' & E1 & HR). unfold mbind, OsM_bind.
  destruct (m os) as [[a|e] os1]; cbn in *; [by apply (Hf a h')|]. exists h'. auto.
Qed.
Lemma moves_emit {E} h h' c (Q : result E unit → Held → Prop) :
  native_step h c = Some h' → Q (Ok tt) h' → moves h (emit c) Q.
Proof. intros Es HQ os Ho. exists h'. split; [|done]. exact (eq_trans (held_log c os h Ho) Es). Qed.
Lemma moves_attempt {E} h (c : bool → NativeCall) (f : Hresult → E) (Q : result E unit → Held → Prop) h1 h2 :
  native_step h (c true) = Some h1 → native_step h (c false) = Some h2 →
  Q (Ok tt) h1 → (∀ e, Q (Err (f e)) h2) → moves h (attempt c f) Q.
Proof.
  intros E1 E2 Q1 Q2 os Ho. unfold attempt. pose proof (held_next os) as Hn.
  destruct (next_answer os) as [[e|] os1]; cbn [fst snd] in *; rewrite (held_log _ os1 h) by congruence; eauto.
Qed.
Lemma moves_quiet {E} h (f : Hresult → E) (Q : result E unit → Held → Prop) :
  Q (Ok tt) h → (∀ e, Q (Err (f e)) h) → moves h (attempt_quiet f) Q.
Proof.
  intros Q1 Q2 os Ho. unfold attempt_quiet. pose proof (held_next os) as Hn.
  destruct (next_answer os) as [[e|] os1]; cbn in *; exists h; rewrite Hn; auto.
Qed.
Lemma moves_ask {E} h (Q : result E bool → Held → Prop) : (∀ b, Q (Ok b) h) → moves h ask Q.
Proof.
  intros HQ os Ho. unfold ask. pose proof (held_next os) as Hn.
  destruct (next_answer os) as [e os1]; cbn in *. exists h. by rewrite Hn.
Qed.
Lemma moves_handle {E F A} h (m : OsM E A) (Q : result F (result E A) → Held → Prop) :
  moves h m (λ r, Q (Ok r)) → moves h (handle m) Q.
Proof. intros Hm os Ho. destruct (Hm os Ho) as (h' & ? & ?). unfold handle. destruct (m os). by exists h'. Qed.
Lemma moves_of_option {A} h (o : option A) (Q : result unit A → Held → Prop) :
  Q (ok_or o tt) h → moves h (of_option o) Q.
Proof. intros HQ os Ho. by exists h. Qed.
Lemma moves_weaken {E A} h (m : OsM E A) (Q R : result E A → Held → Prop) :
  moves h m R → (∀ r h', R r h' → Q r h') → moves h m Q.
Proof. intros Hm HR os Ho. destruct (Hm os Ho) as (h' & ? & ?). eauto. Qed.

(** ** Enumeration releases what it does not select *)

Lemma remove_present index items n : (n < index)%nat →
  List.remove Nat.eq_dec n (present_from index items) = present_from index items.
Proof.
  revert index. induction items as [|present items IH]; intros index Hn; cbn; [done|].
  destruct present; cbn; [destruct (Nat.eq_dec n index); [lia|]; f_equal|]; apply IH; lia.
Qed.

Definition selecting (h : Held) (activations : list nat) : Held :=
  mkHeld (h_com h) true true activations (h_transform h).

Lemma take_activations_moves {E} items : ∀ index selected h,
  (∀ s, selected = Some s → (s < index)%nat) →
  moves (E := E) (selecting h (option_list selected ++ present_from index items))
    (take_activations index items selected)
    (λ r h', ∃ selected', r = Ok selected' ∧ h' = selecting h (option_list selected')).
Proof.
  induction items as [|present items IH]; intros index selected h Hs; cbn [take_activations present_from].
  { apply moves_ret. exists selected. by rewrite app_nil_r. }
  destruct selected as [s|].
  - specialize (Hs s eq_refl). eapply moves_bind with (R := λ r h', r = Ok tt ∧
      h' = selecting h (option_list (Some s) ++ present_from (S index) items)).
    + destruct present.
      * eapply moves_emit; [|done]. cbn. rewrite bool_decide_eq_true_2 by (cbn; set_solver). cbn.
        destruct (Nat.eq_dec index s); [lia|]. destruct (Nat.eq_dec index index); [|done].
        by rewrite remove_present by lia.
      * by apply moves_ret.
    + intros ? ? [_ ->]. apply IH. intros ? [= <-]. lia.
    + intros ? ? [[=] _].
  - destruct present.
    + apply (IH (S index) (Some index) h). intros ? [= <-]. lia.
    + by apply (IH (S index) None h).
Qed.

Definition mf_running (com transform : bool) : Held := mkHeld com true false [] transform.

Lemma select_transform_moves {E} (unavailable : E) com :
  moves (mf_running com false) (select_transform unavailable block)
    (λ r h', h' = mf_running com (is_ok r)).
Proof.
  unfold select_transform. eapply moves_bind with (R := λ r h', match r with
    | Ok _ => h' = mkHeld com true (bool_decide (is_Some block)) (present_from 0 (default [] block)) false
    | Err _ => h' = mf_running com false end); [|intros _ h' ->|by intros ? ? ->].
  { eapply moves_attempt; done. }
  destruct block as [[|present items]|]; cbn [default].
  - eapply moves_bind with (R := λ r h', r = Ok tt ∧ h' = mf_running com false).
    + by eapply moves_emit.
    + intros ? ? [_ ->]. by apply moves_throw.
    + intros ? ? [[=] _].
  - eapply moves_bind with (R := λ r h', ∃ selected, r = Ok selected ∧
      h' = selecting (mf_running com false) (option_list selected)).
    + apply (take_activations_moves (present :: items) 0 None (mf_running com false)). done.
    + intros selected h' (? & [= <-] & ->). eapply moves_bind with (R := λ r h', r = Ok tt ∧
        h' = mkHeld com true false (option_list selected) false).
      * eapply moves_emit; [|done]. cbn. by destruct selected.
      * intros ? ? [_ ->]. destruct selected as [index|]; [|by apply moves_throw]. intros os Ho.
        destruct (moves_attempt (mkHeld com true false [index] false) (Native_ActivateObject index)
          (λ _, unavailable) (λ r h', h' = mkHeld com true false [index] (is_ok r))
          (mkHeld com true false [index] true) (mkHeld com true false [index] false)) with (os := os)
          as (h1 & E1 & ->); try done.
        { cbn. by rewrite bool_decide_eq_true_2 by set_solver. }
        { cbn. by rewrite bool_decide_eq_true_2 by set_solver. }
        unfold activate. destruct (attempt _ _ os) as [r os1]. cbn [fst snd] in *.
        exists (mf_running com (is_ok r)). split; [|done]. rewrite (held_log _ _ _ E1). cbn.
        rewrite bool_decide_eq_true_2 by set_solver. by destruct (Nat.eq_dec index index).
      * intros ? ? [[=] _].
    + intros ? ? (? & [=] & _).
  - by apply moves_throw.
Qed.

Lemma shutdown_transform_moves {E} h :
  h_transform h = true → negb strict || h_mf h = true →
  moves (E := E) h shutdown_transform (λ r h', r = Ok tt ∧ h' = h).
Proof.
  intros Ht Hm. unfold shutdown_transform. eapply moves_bind with (R := λ r h', (∃ b, r = Ok b) ∧ h' = h).
  - apply moves_ask. eauto.
  - intros b h' [_ ->]. destruct b; [|by apply moves_ret]. eapply moves_emit; [|done]. cbn. by rewrite Ht, Hm.
  - intros ? ? [[? [=]] _].
Qed.

(** What holds when code returns; a panic is only safe up to where it happens. *)
Abbreviation safely Q := (λ r h', match r with Ok a => Q a h' | Err _ => True end).

(** ** The encoder thread releases what it acquired *)

Section encoder_discipline.
Context {T : Type} `{EncoderMft T}.
Abbreviation encoder := (NativeEncoder T).

Record encoder_live (e : encoder) : Prop := {
  el_transform : is_Some (ne_transform e);
  el_bounds : queues_bounded e;
  el_idle : ne_config e = None → as_queued_inputs (ne_async_inputs e) = []
}.
Definition encoder_gone (e : encoder) : Prop :=
  holds_objects e = false ∧ ne_config e = None.

Lemma encoder_live_flows extra (e e' : encoder) :
  encoder_live e → flows extra e e' → queues_bounded e' → is_Some (ne_config e) → encoder_live e'.
Proof.
  intros [_ _ _] (_ & Ec & _ & Ht & _) Hq Hc. split; [done..|]. rewrite Ec. intros E. by rewrite E in Hc; destruct Hc.
Qed.

Lemma encoder_live_encode e frame force before after r e' :
  encoder_live e → NativeEncoder_encode e frame force before after = Some (r, e') → encoder_live e'.
Proof.
  intros Hl E. destruct (ne_config e) as [c|] eqn:Ec.
  2:{ unfold NativeEncoder_encode in E. rewrite Ec in E. by injection E as <- <-. }
  destruct (NativeEncoder_encode_cases _ _ _ _ _ _ _ E) as [(? & _ & ->)|(sample & input & _ & _ & Hs)]; [done|].
  destruct (submit_frame_keeps e sample input before after (el_transform _ Hl) (el_bounds _ Hl)) as [Hf Hq].
  assert (encoder_live (snd (submit_frame e sample input before after))) as Hl1.
  { eapply encoder_live_flows; [done..|]. by rewrite Ec. }
  destruct (submit_frame _ _ _ _ _) as [[?|err] e1]; cbn [snd] in Hl1; [|by destruct Hs as [_ ->]].
  unfold take_pending_output in Hs. destruct (ne_pending_outputs e1) as [|o os] eqn:Eo; injection Hs as -> ->; [done|].
  destruct Hl1 as [Ht [Qi Qo Qq] Hi]. split; [done| |done]. split; [done| |done]. cbn in *. rewrite Eo, len_cons in Qo. lia.
Qed.

Lemma encoder_live_pump e before after :
  encoder_live e → encoder_live (snd (NativeEncoder_pump e before after)).
Proof.
  intros Hl. destruct (ne_config e) as [c|] eqn:Ec.
  - destruct (NativeEncoder_pump_keeps e before after (el_transform _ Hl) (el_bounds _ Hl)).
    eapply encoder_live_flows; [done..|]. by rewrite Ec.
  - unfold NativeEncoder_pump. rewrite Ec. by destruct (ne_is_async e).
Qed.

Lemma encoder_live_configure e config :
  encoder_live e → encoder_live (snd (NativeEncoder_configure e config)).
Proof.
  intros Hl. unfold NativeEncoder_configure. destruct (_ || _); [done|].
  pose proof Hl as [Ht Hq Hi]. destruct (ne_transform e) as [t|]; [|done].
  destruct (mft_negotiate t config) as [n t'].
  assert (encoder_live (ne_set_transform e t')) as Hs.
  { split; [done| |done]. destruct Hq. by split. }
  destruct (ng_attributes n); [done|]. destruct (_ && _); [done|]. destruct (ng_types n); [done|].
  destruct (sequence_header_from_type _); [|done]. split; cbn; [done| |done]. by split.
Qed.

Lemma wait_for_drain_transform polls : ∀ e r e',
  is_Some (ne_transform e) → queues_bounded e → wait_for_drain_complete e polls = Some (r, e') →
  is_Some (ne_transform e').
Proof.
  induction polls as [|[events expired] polls IH]; intros e r e' Ht Hq; cbn; [done|].
  destruct (poll_async_events_keeps events e Ht Hq) as [(_ & _ & _ & Ht1 & _) Hq1].
  destruct (poll_async_events e events) as [[?|err] e1]; cbn in *; [|by intros [= <- <-]].
  destruct (ap_drain_complete _); [by intros [= <- <-]|]. destruct expired; [by intros [= <- <-]|].
  apply IH; [done|]. destruct Hq1. by split.
Qed.

Lemma encoder_live_drain e polls r e' :
  encoder_live e → NativeEncoder_drain e polls = Some (r, e') →
  encoder_live e' ∧ ne_config e' = None ∧ as_queued_inputs (ne_async_inputs e') = [].
Proof.
  intros Hl. unfold NativeEncoder_drain. pose proof Hl as [Ht Hq Hi]. destruct (ne_config e) as [c|] eqn:Ec.
  2:{ intros [= <- <-]. auto. }
  destruct (ne_transform e) as [t|] eqn:Et; [|by destruct Ht].
  intros ([r1 e1] & E1 & [= <- <-])%bind_Some. assert (is_Some (ne_transform e1)) as Ht1.
  { unfold drain_messages in E1. rewrite Et in E1. destruct (mft_end_stream t) as [t1|]; [|injection E1 as _ <-; by rewrite Et].
    apply bind_Some in E1 as ([r2 e2] & E2 & E1). assert (is_Some (ne_transform e2)) as Ht2.
    { assert (queues_bounded (ne_set_transform e t1)) as Hq1 by (destruct Hq; by split).
      cbn [ne_is_async ne_set_transform] in E2. destruct (ne_is_async e).
      - by eapply wait_for_drain_transform in E2.
      - destruct (collect_synchronous_output_keeps (ne_set_transform e t1)) as [(_ & _ & _ & Hk & _) _]; [done..|].
        by injection E2 as E2; rewrite E2 in Hk. }
    destruct r2; [|by injection E1 as _ <-]. destruct (ne_transform e2) as [t2|] eqn:Et2; [|by destruct Ht2].
    destruct (mft_flush t2); injection E1 as _ <-; [by eexists|by rewrite Et2]. }
  split; [|done]. split; [done| |done]. by split.
Qed.

Lemma encoder_shutdown_gone e polls e' :
  encoder_live e → NativeEncoder_shutdown e polls = Some e' → encoder_gone e'.
Proof.
  intros Hl ([r e1] & E & [= <-])%bind_Some. destruct (encoder_live_drain _ _ _ _ Hl E) as (_ & _ & Eq).
  split; [|done]. unfold holds_objects. cbn. by rewrite Eq.
Qed.

(** The thread between two commands: running, or shut down by a command. *)
Definition com_only : Held := mkHeld true false false [] false.
Definition thread_at (s : EncoderThread T) (h : Held) : Prop :=
  (encoder_live (et_encoder s) ∧ et_started s = true ∧ h = mf_running true true) ∨
  (encoder_gone (et_encoder s) ∧ et_started s = false ∧ h = com_only).

Lemma holds_objects_transform (e : encoder) : holds_objects e = false → ne_transform e = None.
Proof. unfold holds_objects. by destruct (ne_transform e). Qed.

Lemma serve_moves {E} : moves (E := E) (mf_running true true) (emit Native_Serve)
  (λ r h', r = Ok tt ∧ h' = mf_running true true).
Proof. eapply moves_emit; [|done]. cbn. by rewrite orb_true_r. Qed.

Lemma encoder_shutdown_moves s polls h :
  thread_at s h →
  moves h (encoder_shutdown s polls)
    (safely (λ s' h', encoder_gone (et_encoder s') ∧ et_started s' = false ∧ h' = com_only)).
Proof.
  intros [(Hl & Hs & ->)|([Hh Hc] & Hs & ->)]; unfold encoder_shutdown; rewrite Hs.
  - eapply moves_bind with (R := λ r h', r = Ok tt ∧ h' = mf_running true true); [|intros ? ? [_ ->]|done].
    { destruct (bool_decide _); [apply serve_moves|by apply moves_ret]. }
    eapply moves_bind with (R := λ r h', h' = mf_running true true ∧
      r = ok_or (NativeEncoder_shutdown (et_encoder s) polls) tt); [by apply moves_of_option| |done].
    intros after ? [-> Ea]. destruct (NativeEncoder_shutdown _ _) as [after'|] eqn:Es; [|done].
    injection Ea as <-. pose proof (encoder_shutdown_gone _ _ _ Hl Es) as [Hh Hc].
    rewrite bool_decide_eq_true_2 by apply Hl.
    eapply moves_bind with (R := λ r h', r = Ok tt ∧ h' = mf_running true false); [|intros ? ? [_ ->]|done].
    { eapply moves_bind; [apply shutdown_transform_moves; [done|by rewrite orb_true_r]| |by intros ? ? [[=] _]].
      intros ? ? [_ ->]. eapply moves_emit; [|done]. cbn. by rewrite orb_true_r. }
    eapply moves_bind with (R := λ r h', r = Ok tt ∧ h' = com_only); [|intros ? ? [_ ->]; by apply moves_ret|done].
    eapply moves_emit; [|done]. cbn. rewrite Hh. by rewrite !orb_true_r.
  - rewrite Hc, (holds_objects_transform _ Hh). rewrite !bool_decide_eq_false_2 by (by intros [? [=]]).
    eapply moves_bind with (R := λ r h', r = Ok tt ∧ h' = com_only); [by apply moves_ret|intros ? ? [_ ->]|done].
    eapply moves_bind with (R := λ r h', h' = com_only ∧
      r = ok_or (NativeEncoder_shutdown (et_encoder s) polls) tt); [by apply moves_of_option| |done].
    intros after ? [-> Ea]. unfold NativeEncoder_shutdown, NativeEncoder_drain in Ea. rewrite Hc in Ea.
    injection Ea as ->.
    eapply moves_bind with (R := λ r h', r = Ok tt ∧ h' = com_only); [by apply moves_ret|intros ? ? [_ ->]|done].
    apply moves_ret. split_and!; [|done..]. split; [|done]. unfold holds_objects in *. cbn.
    by destruct (ne_transform _), (ne_event_generator _), (ne_converter _).
Qed.

Lemma encoder_loop_moves turns : ∀ s replies,
  encoder_live (et_encoder s) → et_started s = true →
  moves (mf_running true true) (encoder_loop turns s replies) (safely (λ r h', thread_at (fst r) h')).
Proof.
  induction turns as [|turn turns IH]; intros s replies Hl Hs; cbn [encoder_loop].
  { apply moves_ret. by left. }
  destruct turn.
  - eapply moves_bind; [apply serve_moves|intros ? ? [_ ->]|done].
    pose proof (encoder_live_configure _ config Hl) as Hl'.
    destruct (NativeEncoder_configure _ _) as [r e]. by apply IH.
  - eapply moves_bind; [apply serve_moves|intros ? ? [_ ->]|done].
    eapply moves_bind with (R := λ r h', h' = mf_running true true ∧ r = ok_or (NativeEncoder_encode
      (et_encoder s) frame force_keyframe before after) tt); [by apply moves_of_option| |done].
    intros [r e] ? [-> E]. destruct (NativeEncoder_encode _ _ _ _ _) as [[r' e']|] eqn:Ee; [|done].
    injection E as <- <-. apply IH; [|done]. by eapply encoder_live_encode.
  - eapply moves_bind; [apply serve_moves|intros ? ? [_ ->]|done].
    eapply moves_bind with (R := λ r h', h' = mf_running true true ∧
      r = ok_or (NativeEncoder_drain (et_encoder s) polls) tt); [by apply moves_of_option| |done].
    intros [r e] ? [-> E]. destruct (NativeEncoder_drain _ _) as [[r' e']|] eqn:Ee; [|done].
    injection E as <- <-. apply IH; [|done]. by eapply encoder_live_drain in Ee as [? _].
  - eapply moves_bind; [apply encoder_shutdown_moves; by left| |done].
    intros s' ? (? & ? & ->). apply moves_ret. by right.
  - eapply moves_bind; [apply serve_moves|intros ? ? [_ ->]|done].
    pose proof (encoder_live_pump _ before after Hl) as Hl'.
    destruct (NativeEncoder_pump _ _ _) as [[?|] e]; [by apply IH|]. apply moves_ret. by left.
Qed.

Definition start_result (r : result CodecError (EncoderThread T)) (h : Held) : Prop :=
  match r with
  | Ok s => encoder_live (et_encoder s) ∧ et_started s = true ∧ h = mf_running true true
  | Err _ => h = com_only
  end.
Lemma native_encoder_start_moves t : moves com_only (native_encoder_start block t) start_result.
Proof.
  unfold native_encoder_start. eapply moves_bind with (R := λ r h', match r with
    | Ok _ => h' = mf_running true false | Err _ => h' = com_only end).
  { by eapply moves_attempt. }
  2:{ by intros ? ? ->. }
  intros ? ? ->. eapply moves_bind with (R := λ r h', ∃ r0, r = Ok r0 ∧ h' = mf_running true (is_ok r0)).
  - apply moves_handle. eapply moves_weaken; [apply select_transform_moves|]. eauto.
  - intros selected h' (? & [= <-] & ->). destruct selected as [?|e]; cbn [is_ok].
    + eapply moves_bind with (R := λ r h', (∃ b, r = Ok b) ∧ h' = mf_running true true).
      * apply moves_ask. eauto.
      * intros b ? [_ ->]. apply moves_ret. split_and!; [|done..]. by split; cbn.
      * by intros ? ? [[? [=]] _].
    + eapply moves_bind with (R := λ r h', r = Ok tt ∧ h' = com_only).
      * eapply moves_emit; [|done]. cbn. by rewrite !orb_true_r.
      * intros ? ? [_ ->]. by apply moves_throw.
      * by intros ? ? [[=] _].
  - by intros ? ? (? & [=] & _).
Qed.

Lemma uninitialize_moves {E} : moves (E := E) com_only (emit (Native_CoUninitialize false))
  (λ r h', r = Ok tt ∧ h' = nothing_held).
Proof. eapply moves_emit; [|done]. cbn. by rewrite orb_true_r. Qed.

Lemma encoder_main_moves t listening turns polls :
  moves nothing_held (encoder_main block t listening turns polls) (safely (λ _ h', h' = nothing_held)).
Proof.
  unfold encoder_main. eapply moves_bind with (R := λ r h', ∃ r0, r = Ok r0 ∧
    h' = if is_ok r0 then com_only else nothing_held).
  { apply moves_handle. eapply moves_attempt; [done..| |]; eauto. }
  2:{ by intros ? ? (? & [=] & _). }
  intros initialized h' (? & [= <-] & ->). destruct initialized; [|by apply moves_ret]. cbn [is_ok].
  eapply moves_bind with (R := λ r h', ∃ r0, r = Ok r0 ∧ start_result r0 h').
  { apply moves_handle. eapply moves_weaken; [apply native_encoder_start_moves|]. eauto. }
  2:{ by intros ? ? (? & [=] & _). }
  intros started ? (? & [= <-] & Hs). destruct started as [s|e]; cbn [start_result] in Hs.
  2:{ subst. eapply moves_bind; [apply uninitialize_moves|intros ? ? [_ ->]; by apply moves_ret|done]. }
  destruct Hs as (Hl & Hs & ->).
  eapply moves_bind with (R := safely (λ r h', thread_at (fst r) h')); [|intros [s' replies] h' Ht|done].
  { destruct listening; [by apply encoder_loop_moves|]. apply moves_ret. by left. }
  eapply moves_bind; [by apply encoder_shutdown_moves| |done].
  intros s2 ? (Hg & Hs2 & ->). rewrite (proj1 Hg).
  eapply moves_bind; [apply uninitialize_moves|intros ? ? [_ ->]|done].
  intros os Ho. exists nothing_held. destruct Hg as [Hh Hc].
  unfold encoder_shutdown, mbind, OsM_bind, of_option, NativeEncoder_shutdown, NativeEncoder_drain.
  rewrite Hs2, Hc, (holds_objects_transform _ Hh). rewrite !bool_decide_eq_false_2 by (by intros [? [=]]).
  done.
Qed.
End encoder_discipline.

(** ** The decoder thread, without the order of Media Foundation's shutdown *)

Section decoder_discipline.
Context {T : Type} `{DecoderTransform T}.
Hypothesis lax : strict = false.

(** The decoder holds its transform until its last fields are dropped. *)
Definition decoder_at (s : DecoderThread T) (h : Held) : Prop := h = mkHeld true (th_started s) false [] true.

Lemma transform_call_moves {E} c h :
  c = Native_Serve ∨ c = Native_Flush → h_transform h = true →
  moves (E := E) h (emit c) (λ r h', r = Ok tt ∧ h' = h).
Proof. intros [-> | ->] Ht; (eapply moves_emit; [|done]); cbn; by rewrite Ht, lax. Qed.

Lemma decoder_shutdown_moves s h :
  decoder_at s h → moves h (decoder_shutdown s) (safely (λ s' h', decoder_at s' h' ∧ th_started s' = false)).
Proof.
  intros ->. unfold decoder_shutdown.
  eapply moves_bind; [apply transform_call_moves; auto|intros ? ? [_ ->]|done].
  eapply moves_bind; [apply shutdown_transform_moves; [done|by rewrite lax]|intros ? ? [_ ->]|done].
  destruct (th_started s) eqn:Es.
  - eapply moves_bind with (R := λ r h', r = Ok tt ∧ h' = mkHeld true false false [] true);
      [|intros ? ? [_ ->]; by apply moves_ret|done].
    eapply moves_emit; [|done]. cbn. by rewrite lax.
  - apply moves_ret. split; [|done]. unfold decoder_at. by rewrite Es.
Qed.

Lemma decoder_loop_moves turns : ∀ s h replies,
  decoder_at s h → moves h (decoder_loop turns s replies) (safely (λ r h', decoder_at (fst r) h')).
Proof.
  induction turns as [|[c|] turns IH]; intros s h replies Hs; cbn [decoder_loop].
  - by apply moves_ret.
  - eapply moves_bind; [apply transform_call_moves; [auto|by rewrite Hs]|intros ? ? [_ ->]|done].
    eapply moves_bind with (R := λ r h', h' = h); [by apply moves_of_option| |done].
    intros [reply d] ? ->. by apply IH.
  - eapply moves_bind; [by apply decoder_shutdown_moves| |done]. intros s' h' [? _]. by apply moves_ret.
Qed.

Lemma set_attributes_moves {E} (f : Hresult → E) attributes : ∀ set h,
  moves h (set_attributes f attributes set) (λ r h', h' = h).
Proof.
  induction attributes as [|a attributes IH]; intros set h; cbn [set_attributes]; [by apply moves_ret|].
  eapply moves_bind with (R := λ r h', h' = h); [by apply moves_quiet|by intros ? ? ->|done].
Qed.
Lemma video_type_moves width height subtype h :
  moves h (video_type width height subtype) (λ r h', h' = h).
Proof.
  eapply moves_bind with (R := λ r h', h' = h); [by apply moves_quiet|intros ? ? ->|done].
  apply set_attributes_moves.
Qed.
Lemma configure_decoder_moves width height h :
  h_transform h = true → moves h (configure_decoder width height) (λ r h', h' = h).
Proof.
  intros Ht. unfold configure_decoder.
  assert (∀ b, native_step h (Native_Negotiate b) = Some h) as Hn by (intros; cbn; by rewrite Ht, lax).
  do 2 (eapply moves_bind; [apply video_type_moves|intros ? ? ->|done]).
  do 3 (eapply moves_bind with (R := λ r h', h' = h); [by eapply moves_attempt|intros ? ? ->|done]).
  by eapply moves_attempt.
Qed.

Lemma native_decoder_start_moves t width height :
  moves com_only (native_decoder_start block t width height)
    (λ r h', match r with Ok s => decoder_at s h' | Err _ => h' = com_only end).
Proof.
  unfold native_decoder_start. eapply moves_bind with (R := λ r h', h' = com_only); [|intros ? ? ->|done].
  { intros os Ho. by exists com_only. }
  eapply moves_bind with (R := λ r h', match r with
    | Ok _ => h' = mf_running true false | Err _ => h' = com_only end); [by eapply moves_attempt| |done].
  intros ? ? ->. eapply moves_bind with (R := λ r h', ∃ r0, r = Ok r0 ∧ h' = mf_running true (is_ok r0));
    [| |by intros ? ? (? & [=] & _)].
  { apply moves_handle. eapply moves_weaken; [apply select_transform_moves|]. eauto. }
  intros selected h' (? & [= <-] & ->). destruct selected as [?|e]; cbn [is_ok].
  2:{ eapply moves_bind with (R := λ r h', r = Ok tt ∧ h' = com_only); [|intros ? ? [_ ->]; by apply moves_throw|by intros ? ? [[=] _]].
      eapply moves_emit; [|done]. cbn. by rewrite lax. }
  eapply moves_bind with (R := λ r h', h' = mf_running true true ∧ ∃ r0, r = Ok r0); [| |by intros ? ? [_ [? [=]]]].
  { apply moves_handle. eapply moves_weaken; [by apply configure_decoder_moves|]. eauto. }
  intros configured ? [-> _]. destruct configured as [?|e]; [by apply moves_ret|].
  eapply moves_bind; [apply shutdown_transform_moves; [done|by rewrite lax]|intros ? ? [_ ->]|by intros ? ? [[=] _]].
  eapply moves_bind with (R := λ r h', r = Ok tt ∧ h' = mkHeld true false false [] true); [|intros ? ? [_ ->]|by intros ? ? [[=] _]].
  { eapply moves_emit; [|done]. cbn. by rewrite lax. }
  eapply moves_bind with (R := λ r h', r = Ok tt ∧ h' = com_only); [|intros ? ? [_ ->]; by apply moves_throw|by intros ? ? [[=] _]].
  eapply moves_emit; [|done]. cbn. by rewrite lax.
Qed.

Lemma decoder_main_moves t width height turns :
  moves nothing_held (decoder_main block t width height turns) (safely (λ _ h', h' = nothing_held)).
Proof.
  unfold decoder_main. eapply moves_bind with (R := λ r h', ∃ r0, r = Ok r0 ∧
    h' = if is_ok r0 then com_only else nothing_held); [| |by intros ? ? (? & [=] & _)].
  { apply moves_handle. eapply moves_attempt; [done..| |]; eauto. }
  intros initialized h' (? & [= <-] & ->). destruct initialized; [|by apply moves_ret]. cbn [is_ok].
  eapply moves_bind with (R := λ r h', ∃ r0, r = Ok r0 ∧
    match r0 with Ok s => decoder_at s h' | Err _ => h' = com_only end); [| |by intros ? ? (? & [=] & _)].
  { apply moves_handle. eapply moves_weaken; [apply native_decoder_start_moves|]. eauto. }
  intros started ? (? & [= <-] & Hs). destruct started as [s|e].
  2:{ subst. eapply moves_bind; [apply uninitialize_moves|intros ? ? [_ ->]; by apply moves_ret|done]. }
  eapply moves_bind; [by apply decoder_loop_moves|intros [s' replies] h1 Ht|done].
  eapply moves_bind; [by apply decoder_shutdown_moves|intros s2 h2 [-> Hs2]|done]. rewrite Hs2.
  eapply moves_bind with (R := λ r h', r = Ok tt ∧ h' = com_only); [|intros ? ? [_ ->]|done].
  { eapply moves_emit; [|done]. cbn. by rewrite lax. }
  eapply moves_bind; [apply uninitialize_moves|intros ? ? [_ ->]; by apply moves_ret|done].
Qed.
End decoder_discipline.
End discipline.

(** ** The encoder thread returns *)

Section encoder_returns.
Context {T : Type} `{EncoderMft T}.
Abbreviation encoder := (NativeEncoder T).

Definition paced (e : encoder) : Prop := ∀ c, ne_config e = Some c → ec_max_fps c ≠ 0.
(** Configurations have been validated, frames have 32-bit sizes, and the wait of a drain
    comes to its deadline. *)
Definition turn_ok (turn : EncoderTurn) : Prop :=
  match turn with
  | Turn_Configure config => ec_max_fps config ≠ 0
  | Turn_Encode frame _ _ _ => uint 32 (fr_width frame) ∧ uint 32 (fr_height frame)
  | Turn_Drain polls | Turn_Shutdown polls => existsb snd polls = true
  | Turn_Timeout _ _ => True
  end.

Lemma wait_for_drain_returns polls : ∀ e : encoder,
  existsb snd polls = true → is_Some (wait_for_drain_complete e polls).
Proof.
  induction polls as [|[events expired] polls IH]; intros e Hp; cbn in *; [done|].
  destruct (poll_async_events e events) as [[?|err] e1]; [|by eexists].
  destruct (ap_drain_complete _); [by eexists|]. destruct expired; [by eexists|]. by apply IH.
Qed.

Lemma drain_returns (e : encoder) polls : existsb snd polls = true → is_Some (NativeEncoder_drain e polls).
Proof.
  intros Hp. unfold NativeEncoder_drain. destruct (ne_config e); [|by eexists].
  destruct (ne_transform e) as [t|] eqn:Et; [|by eexists].
  assert (is_Some (drain_messages e polls)) as [[r e'] ->]; [|by eexists].
  unfold drain_messages. rewrite Et. destruct (mft_end_stream t) as [t1|]; [|by eexists].
  cbn [ne_is_async ne_set_transform].
  assert (is_Some (if ne_is_async e then wait_for_drain_complete (ne_set_transform e t1) polls
    else Some (collect_synchronous_output (ne_set_transform e t1)))) as [[[?|] e'] ->].
  - destruct (ne_is_async e); [by apply wait_for_drain_returns|by eexists].
  - cbn. destruct (ne_transform e') as [t2|]; [|by eexists]. destruct (mft_flush t2); by eexists.
  - by eexists.
Qed.

Lemma shutdown_transform_returns {E} os : ∃ os', shutdown_transform (E := E) os = (Ok tt, os').
Proof.
  unfold shutdown_transform, mbind, OsM_bind, ask. destruct (next_answer os) as [h os1].
  destruct (bool_decide (h = None)); by eexists.
Qed.

Lemma encoder_shutdown_returns (s : EncoderThread T) polls os :
  existsb snd polls = true ∨ ne_config (et_encoder s) = None →
  ∃ s' os', encoder_shutdown s polls os = (Ok s', os') ∧ ne_config (et_encoder s') = None.
Proof.
  intros Hp. assert (∃ e', NativeEncoder_shutdown (et_encoder s) polls = Some e' ∧ ne_config e' = None)
    as (e' & Ee & Ec).
  { unfold NativeEncoder_shutdown. destruct Hp as [Hp|Hc].
    - destruct (drain_returns (et_encoder s) polls Hp) as [[r e'] ->]. by eexists.
    - unfold NativeEncoder_drain. rewrite Hc. by eexists. }
  unfold encoder_shutdown, mbind, OsM_bind, of_option. rewrite Ee.
  destruct (bool_decide (is_Some (ne_config _))); cbn [emit mret OsM_ret ok_or];
    (destruct (bool_decide (is_Some (ne_transform _))); cbn [mret OsM_ret];
      [match goal with |- context [shutdown_transform ?o] =>
         destruct (shutdown_transform_returns (E := unit) o) as [o' ->] end|]);
    cbn [emit]; destruct (et_started s); by repeat eexists.
Qed.

Lemma encode_paced (e : encoder) frame force before after r e' :
  encoder_live e → paced e → NativeEncoder_encode e frame force before after = Some (r, e') → paced e'.
Proof.
  intros Hl Hp E. destruct (NativeEncoder_encode_cases _ _ _ _ _ _ _ E) as [(? & _ & ->)|(sample & input & _ & _ & Hs)]; [done|].
  destruct (submit_frame_keeps e sample input before after (el_transform _ Hl) (el_bounds _ Hl)) as [(_ & Ec & _) _].
  destruct (submit_frame _ _ _ _ _) as [[?|err] e1]; cbn [snd] in Ec; unfold paced in *.
  - unfold take_pending_output in Hs. destruct (ne_pending_outputs e1); injection Hs as _ ->; cbn; by rewrite Ec.
  - destruct Hs as [_ ->]. by rewrite Ec.
Qed.
Lemma configure_paced (e : encoder) config :
  ec_max_fps config ≠ 0 → paced e → paced (snd (NativeEncoder_configure e config)).
Proof.
  intros Hc Hp. unfold NativeEncoder_configure. destruct (_ || _); [done|].
  destruct (ne_transform e) as [t|]; [|done]. destruct (mft_negotiate t config) as [n t'].
  destruct (ng_attributes n); [done|]. destruct (_ && _); [done|]. destruct (ng_types n); [done|].
  destruct (sequence_header_from_type _); [|done]. by intros c [= <-].
Qed.

Lemma encoder_loop_returns turns : ∀ s replies os,
  mapped_textures_whole (T := T) → Forall turn_ok turns →
  encoder_live (et_encoder s) → paced (et_encoder s) →
  ∃ s' replies' os', encoder_loop turns s replies os = (Ok (s', replies'), os').
Proof.
  induction turns as [|turn turns IH]; intros s replies os Hm Ht Hl Hp; cbn [encoder_loop]; [by repeat eexists|].
  inversion Ht as [|? ? Hturn Hturns]; subst. destruct turn; cbn in Hturn;
    unfold mbind, OsM_bind, of_option; cbn [emit].
  - pose proof (encoder_live_configure _ config Hl). pose proof (configure_paced _ _ Hturn Hp).
    destruct (NativeEncoder_configure _ _) as [r e]. by apply IH.
  - destruct (NativeEncoder_encode_total (et_encoder s) frame force_keyframe before after Hm) as [[r e] E];
      [by destruct Hturn..|done|]. rewrite E. cbn [ok_or].
    apply IH; [done..|by eapply encoder_live_encode|by eapply encode_paced].
  - destruct (drain_returns (et_encoder s) polls Hturn) as [[r e] E]. rewrite E. cbn [ok_or].
    destruct (encoder_live_drain _ _ _ _ Hl E) as (? & Ec & _). apply IH; [done..|]. intros c. cbn. by rewrite Ec.
  - destruct (encoder_shutdown_returns s polls os) as (s' & os' & -> & _); [by left|]. by repeat eexists.
  - pose proof (encoder_live_pump _ before after Hl).
    assert (paced (snd (NativeEncoder_pump (et_encoder s) before after))) as Hp'.
    { destruct (NativeEncoder_pump_keeps _ before after (el_transform _ Hl) (el_bounds _ Hl)) as [(_ & Ec & _) _].
      intros c. rewrite Ec. apply Hp. }
    destruct (NativeEncoder_pump _ _ _) as [[?|] e]; [by apply IH|by repeat eexists].
Qed.

Lemma encoder_main_returns block t listening turns polls os :
  mapped_textures_whole (T := T) → Forall turn_ok turns → existsb snd polls = true →
  ∃ r os', encoder_main block t listening turns polls os = (Ok r, os').
Proof.
  intros Hm Ht Hp. unfold encoder_main, mbind, OsM_bind, handle.
  destruct (attempt _ _ os) as [[?|e] os1]; [|by repeat eexists].
  assert (∀ s os', native_encoder_start block t os1 = (Ok s, os') → et_encoder s = NativeEncoder_start t
    (ne_event_generator (et_encoder s))) as Hstart.
  { intros s os'. unfold native_encoder_start, mbind, OsM_bind, handle.
    destruct (attempt _ _ os1) as [[?|e] os2]; [|done]. destruct (select_hardware_h264_transform _ os2) as [[?|e] os3]; [|done].
    unfold ask. destruct (next_answer os3) as [h os4]. by intros [= <- <-]. }
  destruct (native_encoder_start block t os1) as [[s|e] os2]; [|by repeat eexists].
  specialize (Hstart s os2 eq_refl).
  assert (∃ r os3, (if listening then encoder_loop turns s [] else mret (s, [])) os2 = (Ok r, os3)) as ([s3 r3] & os3 & ->).
  { destruct listening; [|by repeat eexists].
    destruct (encoder_loop_returns turns s [] os2) as (? & ? & ? & ?); [done..| |by intros ?; rewrite Hstart|eauto].
    rewrite Hstart. by split; cbn. }
  destruct (encoder_shutdown_returns s3 polls os3) as (s4 & os4 & -> & Ec); [by left|]. cbn [emit].
  destruct (encoder_shutdown_returns s4 [] (log_call (Native_CoUninitialize (holds_objects (et_encoder s4))) os4))
    as (s5 & os5 & -> & _); [by right|]. by repeat eexists.
Qed.

(** C26. The encoder thread returns and has released what it acquired, whatever the operating
    system answers to each call and whatever commands and events come: COM and Media
    Foundation are left as often as they were entered, innermost first; the block of an
    enumeration is freed once, with every activation in it taken out and released; the
    transform is used only between its activation and its release; and every transform,
    event generator, converter and queued sample is gone before Media Foundation and COM
    are shut down. *)
Theorem encoder_thread_releases block t listening turns polls answers :
  mapped_textures_whole (T := T) → Forall turn_ok turns → existsb snd polls = true →
  ∃ r os, encoder_main block t listening turns polls (mkOs answers []) = (Ok r, os) ∧
    held true block os = Some nothing_held.
Proof.
  intros Hm Ht Hp.
  destruct (encoder_main_returns block t listening turns polls (mkOs answers []) Hm Ht Hp) as (r & os & E).
  exists r, os. split; [done|].
  destruct (encoder_main_moves true block t listening turns polls (mkOs answers []) eq_refl) as (h & Eh & HQ).
  rewrite E in Eh, HQ. cbn in Eh, HQ. by subst.
Qed.
End encoder_returns.

Definition sample_turns : list EncoderTurn :=
  [Turn_Configure fifo_config; Turn_Encode (fifo_frame 1) true [] []; Turn_Timeout [] [];
   Turn_Shutdown [([], true)]].
(** Three activations, the first entry of the block empty. *)
Definition sample_block : ActivationBlock := Some [false; true; true].
Lemma encoder_thread_releases_witness :
  let main := encoder_main sample_block (mkFifoMft false [] false) true sample_turns [([], true)] (mkOs [] []) in
  os_calls (snd main) =
    [Native_CoInitializeEx true; Native_MFStartup true; Native_MFTEnumEx true; Native_ReleaseActivation 2;
     Native_CoTaskMemFree; Native_ActivateObject 1 true; Native_ReleaseActivation 1; Native_Serve; Native_Serve;
     Native_Serve; Native_Serve; Native_TransformShutdown; Native_ReleaseTransform; Native_MFShutdown false;
     Native_CoUninitialize false] ∧
  ∃ r os, main = (Ok r, os) ∧ held true sample_block os = Some nothing_held.
Proof.
  intros main. split; [vm_compute; reflexivity|].
  apply (encoder_thread_releases sample_block (mkFifoMft false [] false) true sample_turns [([], true)] []).
  - exact fifo_textures.
  - repeat constructor; cbn; lia.
  - reflexivity.
Defined.

(** ** The decoder thread *)

Section decoder_returns.
Context {T : Type} `{DecoderTransform T}.
Context (transform_wf : ∀ t b1 b2 s buffer t',
  Decoder.mft_process_output t = (Output_Ok b1 b2 (Some s), t') → sample_buffer s = Some buffer →
  buffer_wf buffer).
Context (width height : Z) (Hw : uint 32 width) (Hh : uint 32 height).

Definition decoder_wf (d : NativeDecoder T) : Prop :=
  ∃ js out, trace_wf width height (mkDecoderTrace js out d).

Lemma decoder_main_command_wf d c :
  decoder_wf d → ∃ reply d', decoder_main_command d c = Some (reply, d') ∧ decoder_wf d'.
Proof.
  intros (js & out & Ht). destruct c as [job|].
  - destruct (decoder_op_wf transform_wf width height _ (Decoder_Decode job) Hw Hh Ht) as (t' & Et & Ht').
    cbn in *. destruct (NativeDecoder_decode d job) as [[r d']|]; [|done]. cbn in *. injection Et as <-.
    eexists _, _. split; [done|]. by eexists _, _.
  - destruct (decoder_op_wf transform_wf width height _ Decoder_Reset Hw Hh Ht) as (t' & Et & Ht').
    cbn in *. destruct (NativeDecoder_reset d) as [[?|] d']; injection Et as <-;
      (eexists _, _; split; [done|]; by eexists _, _).
Qed.

Lemma decoder_shutdown_returns (s : DecoderThread T) os :
  ∃ s' os', decoder_shutdown s os = (Ok s', os').
Proof.
  unfold decoder_shutdown, mbind, OsM_bind. cbn [emit].
  destruct (shutdown_transform_returns (E := unit) (log_call Native_Flush os)) as [os' ->].
  destruct (th_started s); by repeat eexists.
Qed.

Lemma decoder_loop_returns turns : ∀ s replies os,
  decoder_wf (th_decoder s) →
  ∃ r os', decoder_loop turns s replies os = (Ok r, os').
Proof.
  induction turns as [|[c|] turns IH]; intros s replies os Hd; cbn [decoder_loop]; [by repeat eexists|..];
    unfold mbind, OsM_bind, of_option; cbn [emit].
  - destruct (decoder_main_command_wf (th_decoder s) c Hd) as (reply & d' & -> & Hd'). cbn [ok_or].
    by apply IH.
  - destruct (decoder_shutdown_returns s os) as (s' & os' & ->). by repeat eexists.
Qed.

Lemma decoder_main_returns block t turns os :
  ∃ r os', decoder_main block t width height turns os = (Ok r, os').
Proof.
  unfold decoder_main, mbind, OsM_bind, handle.
  destruct (attempt _ _ os) as [[?|e] os1]; [|by repeat eexists].
  assert (∀ s os', native_decoder_start block t width height os1 = (Ok s, os') → decoder_wf (th_decoder s)) as Hstart.
  { intros s os'. unfold native_decoder_start, mbind, OsM_bind, handle.
    destruct (validated_nv12_len width height) eqn:Ev; [|done].
    destruct (attempt _ _ os1) as [[?|e] os2]; [|done]. destruct (select_h264_decoder _ os2) as [[?|e] os3]; [|done].
    destruct (configure_decoder _ _ os3) as [[?|e] os4].
    - intros [= <- _]. exists [], []. split; [by split|..]; cbn; [constructor|constructor|by split|done].
    - destruct (shutdown_transform_returns (E := DecoderError) os4) as [os5 ->]. done. }
  destruct (native_decoder_start block t width height os1) as [[s|e] os2]; [|by repeat eexists].
  destruct (decoder_loop_returns turns s [] os2 (Hstart s os2 eq_refl)) as ([s3 replies] & os3 & ->).
  destruct (decoder_shutdown_returns s3 os3) as (s4 & os4 & ->). by repeat eexists.
Qed.

(** The decoder thread returns, and has left COM and Media Foundation as often as it
    entered them and released the block, every activation and the transform, whatever the
    operating system answers and whatever commands come. *)
Theorem decoder_thread_releases block t turns answers :
  ∃ r os, decoder_main block t width height turns (mkOs answers []) = (Ok r, os) ∧
    held false block os = Some nothing_held.
Proof.
  destruct (decoder_main_returns block t turns (mkOs answers [])) as (r & os & E). exists r, os. split; [done|].
  destruct (decoder_main_moves false block eq_refl t width height turns (mkOs answers []) eq_refl)
    as (h & Eh & HQ). rewrite E in Eh, HQ. cbn in Eh, HQ. by subst.
Qed.
End decoder_returns.

(** The decoder does not keep the order of the encoder: asked to shut down, it flushes the
    transform and shuts it down again, and releases it, after Media Foundation was shut
    down. *)
Example decoder_uses_transform_after_shutdown :
  let '(_, os) := decoder_main (H := echo_transform) sample_block [] 2 2 [DecoderTurn_Shutdown] (mkOs [] []) in
  drop 11 (os_calls os) =
    [Native_Flush; Native_TransformShutdown; Native_MFShutdown true; Native_Flush; Native_TransformShutdown;
     Native_ReleaseTransform; Native_CoUninitialize false] ∧
  held true sample_block os = None ∧ held false sample_block os = Some nothing_held.
Proof. vm_compute. auto. Qed.

(** ** The owner of the encoder thread *)

Section encoder_owner.
Context {T : Type} `{EncoderMft T}.
Abbreviation transform := (MediaFoundationTransform T).

(** [MediaFoundationTransform::start]: whether the thread could be spawned, the start-up
    answer it sent before the deadline if it did, and the calls made on the lifecycle. *)
Definition MediaFoundationTransform_start (spawned : bool) (startup : option (result CodecError unit))
    (e : NativeEncoder T) (schedule : list RequestEnv) : result CodecError transform * list OwnerCall :=
  if negb spawned then (Err Codec_BackendUnavailable, []) else
  match startup with
  | Some (Ok _) => (Ok (mkMediaFoundationTransform true true e schedule), [])
  | Some (Err err) => (Err err, [Call_Reap])
  | None => (Err Codec_BackendUnavailable, [Call_Reap])
  end.

(** [stop_worker]: the command is sent when the worker is there; whether its answer comes
    in time does not matter. *)
Definition stop_worker (m : transform) : option (transform * list OwnerCall) :=
  m ← (if mt_commands m && mt_alive m
       then let env := default quiet_env (head (mt_schedule m)) in
            let '(alive, worker) := idle_pumps (mt_worker m) (re_idle env) in
            worker ← NativeEncoder_shutdown worker (re_drain env);
            Some (mt_with m false false worker)
       else Some (mkMediaFoundationTransform false (mt_alive m) (mt_worker m) (mt_schedule m)));
  Some (m, [Call_Reap]).

(** The [Drop] of the encoder, then that of its transform. *)
Definition windows_drop (e : WindowsH264Encoder transform) : option (transform * list OwnerCall) :=
  m ← (if bool_decide (is_Some (we_config e))
       then snd <$> transform_drain (we_transform e) else Some (we_transform e));
  '(m, calls) ← stop_worker m;
  '(m, calls') ← stop_worker m;
  Some (m, calls ++ calls').

Lemma stop_worker_spec m m' calls :
  stop_worker m = Some (m', calls) → mt_commands m' = false ∧ calls = [Call_Reap].
Proof.
  unfold stop_worker. intros (m1 & E & [= <- <-])%bind_Some. split; [|done].
  destruct (_ && _); [|by injection E as <-]. destruct (idle_pumps _ _) as [alive w].
  by apply bind_Some in E as (w' & _ & [= <-]).
Qed.

(** The encoder only ever reaps, twice when it is dropped, and no command follows. *)
Lemma windows_drop_reaps e m calls :
  windows_drop e = Some (m, calls) →
  mt_commands m = false ∧ calls = [Call_Reap; Call_Reap] ∧ joins_first calls = true.
Proof.
  unfold windows_drop. intros (m0 & _ & E)%bind_Some. apply bind_Some in E as ([m1 c1] & E1 & E).
  apply bind_Some in E as ([m2 c2] & E2 & [= <- <-]).
  destruct (stop_worker_spec _ _ _ E1) as [_ ->]. by destruct (stop_worker_spec _ _ _ E2) as [? ->].
Qed.

Lemma MediaFoundationTransform_start_spec spawned startup e schedule r calls :
  MediaFoundationTransform_start spawned startup e schedule = (r, calls) →
  joins_first calls = true ∧ (is_ok r = false ↔ spawned = false ∨ startup ≠ Some (Ok tt)) ∧
  (is_ok r = false → calls = if spawned then [Call_Reap] else []).
Proof.
  unfold MediaFoundationTransform_start. destruct spawned, startup as [[[]|]|]; cbn; intros [= <- <-];
    (split; [done|]; split; [split; naive_solver|done]).
Qed.
End encoder_owner.

(** ** The owner of the decoder thread *)

Section decoder_owner.
Context {T : Type} `{DecoderTransform T}.
Abbreviation decoder := (MediaFoundationDecoder T).

Definition REQUEST_TIMEOUT_MS : Z := 250.

(** The outcome of the constructor, and the calls made on the lifecycle: [startup] is
    the answer of the thread if it came before the deadline. *)
Definition decoder_constructor (width height : Z) (spawned : bool) (startup : option (result DecoderError unit))
    (d : NativeDecoder T) (schedule : list Pace) : result DecoderError decoder * list OwnerCall :=
  match validated_nv12_len width height with
  | Err e => (Err e, [])
  | Ok _ =>
      if negb spawned then (Err Decoder_BackendUnavailable, []) else
      match startup with
      | Some (Ok _) => (Ok (mkMediaFoundationDecoder false (front_new d schedule)), [])
      | Some (Err e) => (Err e, [Call_Reap])
      | None => (Err Decoder_BackendUnavailable, [Call_Reap])
      end
  end.

(** [stop], on drop: the sender is gone whether or not the command could be sent. *)
Definition MediaFoundationDecoder_stop (m : decoder) (now : Z) : decoder * list OwnerCall :=
  let f := mf_front m in
  (mkMediaFoundationDecoder (mf_gate m)
     (mkCommandFront false (cf_worker f) (cf_held f) (cf_queued f) (cf_schedule f)),
   [Call_JoinBefore (now + REQUEST_TIMEOUT_MS)]).

(** A decoder that was constructed is one the pipeline can use, and the owner's calls on
    the lifecycle keep its order. *)
Lemma decoder_constructor_spec width height spawned startup d schedule r calls :
  decoder_constructor width height spawned startup d schedule = (r, calls) →
  joins_first calls = true ∧
  ∀ m now, r = Ok m → calls = [] ∧ cf_commands (mf_front m) = true ∧ channel_idle (mf_front m) = true ∧
    joins_first (calls ++ snd (MediaFoundationDecoder_stop m now)) = true.
Proof.
  unfold decoder_constructor. destruct (validated_nv12_len width height); [|by intros [= <- <-]].
  destruct spawned, startup as [[[]|]|]; cbn; intros [= <- <-]; (split; [done|]); intros m now [=]; by subst.
Qed.
End decoder_owner.
