(* ===== verification/RendererThread.v ===== *)
(** * The renderer thread and its command channel (apps/nexus-client/src/renderer.rs)

    [renderer_main] with the creation of the device, and [D3D11Renderer], its owner, over the
    channel of [CommandChannel].  [None] is a panic. *)

From S2P Require Import Prelude ClientReceiver VideoTransport Window Surface Decoder Renderer CommandChannel NativeWorker.

Open Scope Z_scope.

(** ** The renderer thread *)

(** What the creation of the device answered: the call, and its out-parameters. *)
Record RendererInit := mkRendererInit {
  ri_created : bool; ri_device : bool; ri_context : bool; ri_swap_chain : bool
}.
(** The fields of the swap chain's descriptor that are not the default. *)
Record SwapChainDesc := mkSwapChainDesc {
  sc_size : Z * Z; sc_refresh : Z * Z; sc_format : TextureFormat; sc_samples : Z; sc_buffers : Z; sc_windowed : bool
}.
Definition swap_chain_descriptor : SwapChainDesc := mkSwapChainDesc (0, 0) (0, 1) B8G8R8A8 1 2 true.
(** The set-up of [renderer_main]: whether there is a swap chain. *)
Definition renderer_init (hwnd : bool) (init : RendererInit) : result DecoderError bool :=
  if negb (ri_created init) then Err Decoder_BackendUnavailable else
  if ri_device init && ri_context init then Ok (hwnd && ri_swap_chain init)
  else Err Decoder_BackendUnavailable.

Inductive RendererCommand := Renderer_Present (surface : DecodedSurface) | Renderer_Shutdown.
Inductive RendererReply := Reply_Present (r : result DecoderError unit) | Reply_Shutdown.

Section renderer_thread.
Context {D : Type} `{Direct3D D}.

(** [rw_running]: the loop still receives; a command after the end is never received. *)
Record RendererWorker := mkRendererWorker {
  rw_state : RendererState D; rw_swap_chain : bool; rw_running : bool
}.
(** One command of [renderer_main]; the context it clears on shutdown is not part of the state. *)
Definition renderer_main_command (w : RendererWorker) (c : RendererCommand) :
    option (option RendererReply * RendererWorker) :=
  if negb (rw_running w) then Some (None, w) else
  match c with
  | Renderer_Present surface =>
      '(r, state) ← upload_surface (rw_state w) (rw_swap_chain w) surface;
      Some (Some (Reply_Present r), mkRendererWorker state (rw_swap_chain w) true)
  | Renderer_Shutdown => Some (Some Reply_Shutdown, mkRendererWorker (rw_state w) (rw_swap_chain w) false)
  end.

Abbreviation front := (CommandFront RendererWorker RendererCommand).

Definition COMMAND_TIMEOUT_MS : Z := 250.

(** [start_inner]: whether the thread could be spawned and whether it answered in time;
    with the calls made on the lifecycle. *)
Definition D3D11Renderer_start (hwnd spawned answered : bool) (init : RendererInit) (device : D)
    (schedule : list Pace) : result DecoderError front * list OwnerCall :=
  if negb spawned then (Err Decoder_BackendUnavailable, []) else
  if negb answered then (Err Decoder_BackendUnavailable, [Call_Reap]) else
  match renderer_init hwnd init with
  | Err e => (Err e, [Call_Reap])
  | Ok swap_chain =>
      (Ok (front_new (mkRendererWorker (mkRendererState device None []) swap_chain true) schedule), [])
  end.

(** What [present] returns: a refused and a late request, like a reply dropped with the
    channel, are [BackendLost]. *)
Definition present_result (o : Outcome (option RendererReply)) : result DecoderError unit :=
  match o with Answered (Some (Reply_Present r)) => r | _ => Err Decoder_BackendLost end.
Definition D3D11Renderer_present (m : front) (surface : DecodedSurface) :
    option (result DecoderError unit * front) :=
  '(o, m) ← front_send renderer_main_command m (Renderer_Present surface);
  Some (present_result o, m).

(** [stop], on drop. *)
Definition D3D11Renderer_stop (m : front) (now : Z) : option (front * list OwnerCall) :=
  m ← (if cf_commands m
       then '(_, m) ← front_send renderer_main_command m Renderer_Shutdown;
            Some (mkCommandFront false (cf_worker m) (cf_held m) (cf_queued m) (cf_schedule m))
       else Some m);
  Some (m, [Call_JoinBefore (now + COMMAND_TIMEOUT_MS)]).

(** ** What reaches the device *)

Definition sized (s : DecodedSurface) : Prop := 0 ≤ ds_width s ∧ 0 ≤ ds_height s.
Definition command_ok (c : RendererCommand) : Prop :=
  match c with Renderer_Present s => sized s | Renderer_Shutdown => False end.
Definition worker_safe (swap_chain : bool) (w : RendererWorker) : Prop :=
  rw_swap_chain w = swap_chain ∧ rw_running w = true.

(** A surface the worker has presented: its result and the calls made for it. *)
Record Presented := mkPresented {
  pr_surface : DecodedSurface; pr_result : result DecoderError unit; pr_calls : list RenderCall
}.
Definition request_of (p : Presented) : RendererCommand * option RendererReply :=
  (Renderer_Present (pr_surface p), Some (Reply_Present (pr_result p))).

Lemma renderer_command_safe swap_chain w c :
  worker_safe swap_chain w → command_ok c →
  ∃ reply w', renderer_main_command w c = Some (reply, w') ∧ worker_safe swap_chain w'.
Proof.
  intros [Es Er] Hc. destruct c as [s|]; [|done]. destruct Hc as [Hw Hh].
  unfold renderer_main_command. rewrite Er. cbn [negb].
  destruct (upload_surface_safe (rw_state w) (rw_swap_chain w) s Hw Hh) as (res & r' & calls & E & _).
  rewrite E. by repeat eexists.
Qed.

Lemma renderer_command_presents swap_chain w s reply w' :
  worker_safe swap_chain w → sized s →
  renderer_main_command w (Renderer_Present s) = Some (reply, w') →
  ∃ p, request_of p = (Renderer_Present s, reply) ∧ worker_safe swap_chain w' ∧
    rs_log (rw_state w') = rs_log (rw_state w) ++ pr_calls p ∧
    surface_calls swap_chain (pr_surface p) (pr_result p) (pr_calls p) ∧ Forall call_ok (pr_calls p).
Proof.
  intros [Es Er] [Hw Hh]. unfold renderer_main_command. rewrite Er. cbn [negb].
  destruct (upload_surface_safe (rw_state w) (rw_swap_chain w) s Hw Hh) as (res & r' & calls & E & El & Hc & Hok).
  rewrite E. cbn. intros [= <- <-]. exists (mkPresented s res calls). cbn. rewrite <-Es. by split_and!.
Qed.

(** The worker's log is the calls of the surfaces it worked off, one after the other. *)
Lemma worked_off_presents swap_chain worked w w' :
  worker_safe swap_chain w → Forall (command_ok ∘ fst) worked →
  worked_off renderer_main_command w worked w' →
  ∃ ps, worked = request_of <$> ps ∧
    rs_log (rw_state w') = rs_log (rw_state w) ++ concat (pr_calls <$> ps) ∧
    Forall (λ p, surface_calls swap_chain (pr_surface p) (pr_result p) (pr_calls p)) ps ∧
    Forall call_ok (concat (pr_calls <$> ps)).
Proof.
  revert w. induction worked as [|[c reply] worked IH]; intros w Hw Hok; cbn.
  { intros ->. exists []. cbn. rewrite app_nil_r. by split_and!. }
  inversion Hok as [|? ? Hc Hl]; subst. cbn in Hc. destruct c as [s|]; [|done]. intros (w1 & E & Hoff).
  destruct (renderer_command_presents swap_chain w s reply w1 Hw Hc E) as (p & Ep & Hw1 & El & Hcalls & Hcok).
  destruct (IH w1 Hw1 Hl Hoff) as (ps & -> & El' & Hps & Hpok). exists (p :: ps). cbn. rewrite Ep.
  split_and!; [done|by rewrite El', El, <-app_assoc|by constructor|by apply Forall_app].
Qed.

(** The owner's presents one after the other, with what each returned. *)
Fixpoint present_all (surfaces : list DecodedSurface) (m : front) (results : list (result DecoderError unit)) :
    option (list (result DecoderError unit) * front) :=
  match surfaces with
  | [] => Some (results, m)
  | s :: surfaces => '(r, m) ← D3D11Renderer_present m s; present_all surfaces m (results ++ [r])
  end.
Lemma present_all_run surfaces m outcomes outcomes' m' :
  front_run renderer_main_command (Renderer_Present <$> surfaces) m outcomes = Some (outcomes', m') →
  present_all surfaces m (present_result <$> outcomes.*2) = Some (present_result <$> outcomes'.*2, m').
Proof.
  revert m outcomes. induction surfaces as [|s l IH]; intros m outcomes; cbn; [by intros [= <- <-]|].
  unfold D3D11Renderer_present. intros ([o m1] & E1 & E)%bind_Some. rewrite E1. cbn.
  apply IH in E. by rewrite !fmap_app in E.
Qed.

End renderer_thread.
Arguments RendererWorker D : clear implicits.

(** A renderer that is late with the first two of five surfaces: the third is refused, and
    the others are shown in order. *)
Definition numbered_surface (id : Z) : DecodedSurface :=
  mkDecodedSurface id 2 true 2 2 Nv12 (to_byte <$> [16; 235; 16; 235 - id; 128; 128]).
Definition late_schedule : list Pace := [mkPace 0 1; mkPace 0 0; mkPace 0 0; prompt; prompt].
Definition late_renderer : CommandFront (RendererWorker (Z * Z)) RendererCommand :=
  front_new (mkRendererWorker (mkRendererState (640, 480) None []) true true) late_schedule.

(** ** The owners keep the order of the lifecycle *)

(** The calls of an owner from its start to its drop: a start that fails reaps, the
    renderer and the decoder join when they are dropped, the encoder reaps. *)
Definition renderer_program (started : bool) (now : Z) : list OwnerCall :=
  if started then [Call_JoinBefore (now + COMMAND_TIMEOUT_MS)] else [Call_Reap].

Lemma renderer_start_program {D} `{Direct3D D} hwnd spawned answered init (device : D) schedule r calls :
  D3D11Renderer_start hwnd spawned answered init device schedule = (r, calls) →
  joins_first calls = true ∧ (spawned = true → is_ok r = false → calls = renderer_program false 0).
Proof.
  unfold D3D11Renderer_start. destruct spawned, answered; cbn; try by intros [= <- <-].
  destruct (renderer_init hwnd init); by intros [= <- <-].
Qed.
Lemma renderer_stop_program {D} `{Direct3D D} (m : CommandFront (RendererWorker D) RendererCommand) now m' calls :
  D3D11Renderer_stop m now = Some (m', calls) →
  cf_commands m' = false ∧ calls = renderer_program true now ∧ joins_first calls = true.
Proof.
  unfold D3D11Renderer_stop. intros (m1 & E & [= <- <-])%bind_Some. split_and!; [|done..].
  destruct (cf_commands m) eqn:Ec; [|by injection E as <-].
  by apply bind_Some in E as ([r m2] & _ & [= <-]).
Qed.
