(* ===== verification/Quic.v ===== *)
(** * QUIC endpoints (crates/nexus-transport/src/quic.rs)

    The set-up of the loopback endpoints: certificates, TLS configurations, transport
    limits and the errors of each step.  What rcgen, rustls, quinn and the sockets answer
    is a parameter. *)

From S2P Require Import Prelude Common.

Open Scope Z_scope.

Inductive TransportError :=
  | CertificateGeneration | ServerTlsConfig | ServerBind | RootStore | ClientTlsConfig | ClientBind.

(** The libraries: a certificate with its key for the names given, whether a server
    configuration accepts the pair, whether a root store takes a certificate, whether a
    client configuration has an initial cipher suite, and whether a socket binds. *)
Class QuicStack := {
  generate_self_signed : list string → option (bytes * bytes);
  server_config_accepts : bytes → bytes → bool;
  root_store_accepts : bytes → bool;
  client_config_accepts : list bytes → bool;
  server_binds : string → bool;
  client_binds : string → bool
}.

(** The limits that are set; [None] is the library's default. *)
Record TransportConfig := mkTransportConfig {
  tc_max_idle_timeout : option Z;              (** milliseconds *)
  tc_datagram_receive_buffer_size : option Z   (** bytes *)
}.
Definition varint_max : Z := 2 ^ 62 - 1.
(** [try_into] a variable-length integer, whose failure panics. *)
Definition idle_timeout_of (d : Z) : option Z :=
  let ms := d / 1000000 in if ms <=? varint_max then Some ms else None.
Definition transport_config : option TransportConfig :=
  t ← idle_timeout_of (Duration_from_secs 30);
  Some (mkTransportConfig (Some t) (Some (64 * 1024))).

(** [ep_identity] is the certificate a server presents, [ep_roots] what a client trusts,
    [ep_client_auth] whether it presents a certificate of its own. *)
Record Endpoint := mkEndpoint {
  ep_addr : string;
  ep_identity : option bytes;
  ep_roots : list bytes;
  ep_client_auth : bool;
  ep_transport : TransportConfig
}.
Record ServerEndpoint := mkServerEndpoint { se_endpoint : Endpoint; se_cert_der : bytes }.

Section endpoints.
Context `{QuicStack}.

(** [None] is a panic. *)
Definition make_server_endpoint (bind_addr : string) : option (result TransportError ServerEndpoint) :=
  match generate_self_signed ["localhost"] with
  | None => Some (Err CertificateGeneration)
  | Some (cert_der, key_der) =>
      if negb (server_config_accepts cert_der key_der) then Some (Err ServerTlsConfig) else
      config ← transport_config;
      Some (if server_binds bind_addr
            then Ok (mkServerEndpoint (mkEndpoint bind_addr (Some cert_der) [] false config) cert_der)
            else Err ServerBind)
  end.

Definition make_client_endpoint (bind_addr : string) (server_cert : bytes) :
    option (result TransportError Endpoint) :=
  if negb (root_store_accepts server_cert) then Some (Err RootStore) else
  let roots := [server_cert] in
  if negb (client_config_accepts roots) then Some (Err ClientTlsConfig) else
  config ← transport_config;
  Some (if client_binds bind_addr then Ok (mkEndpoint bind_addr None roots false config) else Err ClientBind).

(** The client verifies the certificate the server presents against its roots. *)
Definition trusts (client server : Endpoint) : bool :=
  is_some_and (ep_identity server) (λ c, bool_decide (c ∈ ep_roots client)).
Definition is_retryable (e : TransportError) : bool :=
  match e with ServerBind | ClientBind => true | _ => false end.

Lemma pinned_trusts client cert server :
  ep_roots client = [cert] → trusts client server = true ↔ ep_identity server = Some cert.
Proof.
  intros Hr. unfold trusts. rewrite Hr. destruct (ep_identity server) as [c|]; cbn; [|done].
  rewrite bool_decide_eq_true, list_elem_of_singleton. naive_solver.
Qed.

Lemma transport_config_set : transport_config = Some (mkTransportConfig (Some 30000) (Some 65536)).
Proof. reflexivity. Qed.

(** Endpoints are set up without a panic; a client trusts exactly the server whose
    certificate it was given; both ends bound the datagrams they queue and give up an idle
    connection after the same thirty seconds; and only binding fails in a way that a retry
    can change: every other error depends on the certificate alone. *)
Theorem endpoints_pinned server_addr client_addr server_cert :
  ∃ rs rc, make_server_endpoint server_addr = Some rs ∧ make_client_endpoint client_addr server_cert = Some rc ∧
    (∀ s c, rs = Ok s → rc = Ok c →
       (trusts c (se_endpoint s) = true ↔ se_cert_der s = server_cert) ∧
       ep_transport c = ep_transport (se_endpoint s) ∧
       ep_transport c = mkTransportConfig (Some 30000) (Some 65536)) ∧
    (∀ e other, rc = Err e → is_retryable e = false → make_client_endpoint other server_cert = Some rc).
Proof.
  unfold make_server_endpoint, make_client_endpoint. rewrite transport_config_set. cbn [mbind option_bind].
  assert (∃ rs, match generate_self_signed ["localhost"] with
    | Some (cert_der, key_der) =>
        if negb (server_config_accepts cert_der key_der) then Some (Err ServerTlsConfig)
        else Some (if server_binds server_addr
          then Ok (mkServerEndpoint (mkEndpoint server_addr (Some cert_der) [] false
                 (mkTransportConfig (Some 30000) (Some 65536))) cert_der) else Err ServerBind)
    | None => Some (Err CertificateGeneration) end = Some rs ∧
    ∀ s, rs = Ok s → ep_identity (se_endpoint s) = Some (se_cert_der s) ∧
      ep_transport (se_endpoint s) = mkTransportConfig (Some 30000) (Some 65536)) as (rs & Ers & Hrs).
  { destruct (generate_self_signed _) as [[cert key]|]; [|by eexists].
    destruct (negb _); [by eexists|]. destruct (server_binds _); eexists; (split; [done|]); by intros ? [= <-]. }
  rewrite Ers. destruct (root_store_accepts server_cert); cbn [negb]; [|by repeat eexists].
  destruct (client_config_accepts _); cbn [negb]; [|by repeat eexists].
  destruct (client_binds client_addr).
  - eexists _, _. split_and!; [done|done| |done]. intros s c Hs [= <-]. destruct (Hrs s Hs) as [Hi ->].
    split_and!; [|done|done]. unfold trusts. rewrite Hi. cbn. rewrite bool_decide_eq_true. set_solver.
  - eexists _, _. split_and!; [done|done|done|]. by intros e other [= <-].
Qed.
End endpoints.
