(* ===== verification/Bootstrap.v ===== *)
(** * Starting the client from its environment (apps/nexus-client/src/runtime.rs)

    [ClientConfiguration::from_env], the bootstrap values a client reads from the
    environment, and [run_configured_with_cancellation], which checks them, connects and
    runs.  Socket addresses are parsed as the standard library does. *)

From S2P Require Import Prelude RustStr Crypto Common Protocol Control SessionState Replay Verifier Relay VideoPacket VideoTransport ClientReceiver ClientSession Input Window Surface Decoder Pipeline ControlPlane Runtime Quic.

Open Scope Z_scope.

(** ** Socket addresses *)

Inductive SocketAddr := SocketV4 (ip port : Z) | SocketV6 (ip scope_id port : Z).

(** A number of any length. *)
Definition read_decimal (max : Z) : reader Z := λ s, read_number 10 (String.length s) true max s.
Definition read_port : reader Z := λ s, '(_, s) ← read_given_char ":" s; read_decimal 65535 s.
Definition read_scope_id : reader Z := λ s, '(_, s) ← read_given_char "%" s; read_decimal 4294967295 s.
Definition read_socket_addr_v4 : reader SocketAddr := λ s,
  '(ip, s) ← read_ipv4_addr s;
  '(port, s) ← read_port s;
  Some (SocketV4 ip port, s).
Definition read_socket_addr_v6 : reader SocketAddr := λ s,
  '(_, s) ← read_given_char "[" s;
  '(ip, s) ← read_ipv6_addr s;
  let '(scope_id, s) := default (0, s) (read_scope_id s) in
  '(_, s) ← read_given_char "]" s;
  '(port, s) ← read_port s;
  Some (SocketV6 ip scope_id port, s).
Definition parse_socket_addr (s : string) : option SocketAddr :=
  match (match read_socket_addr_v4 s with Some r => Some r | None => read_socket_addr_v6 s end) with
  | Some (addr, "") => Some addr
  | _ => None
  end.

Example parse_socket_addr_examples :
  parse_socket_addr "127.0.0.1:4433" = Some (SocketV4 2130706433 4433) ∧
  parse_socket_addr "[::1]:4433" = Some (SocketV6 1 0 4433) ∧
  parse_socket_addr "[fe80::1%7]:04433" = Some (SocketV6 338288524927261089654018896841347694593 7 4433) ∧
  parse_socket_addr "127.0.0.1" = None ∧ parse_socket_addr "127.0.0.1:65536" = None ∧
  parse_socket_addr "localhost:4433" = None ∧ parse_socket_addr "::1:4433" = None.
Proof. vm_compute. auto 10. Qed.

(** ** The environment *)

(** [env::var] fails on a variable that is not Unicode; [env::var_os] does not. *)
Inductive EnvValue := Env_Unset | Env_NotUnicode | Env_Text (s : string).
Abbreviation Environment := (string → EnvValue).
Definition env_var (env : Environment) (name : string) : option string :=
  match env name with Env_Text s => Some s | _ => None end.
Definition env_is_set (env : Environment) (name : string) : bool :=
  match env name with Env_Unset => false | _ => true end.

Inductive ClientConfigurationError := Config_MissingServer | Config_InvalidServer | Config_InvalidServerName.
Record ClientConfiguration := mkClientConfiguration { cf_server : SocketAddr; cf_server_name : string }.
Definition ClientConfiguration_from_env (env : Environment) :
    result ClientConfigurationError ClientConfiguration :=
  server ← ok_or (env_var env "NEXUS_CLIENT_SERVER") Config_MissingServer;
  server ← ok_or (parse_socket_addr server) Config_InvalidServer;
  let server_name := default "localhost" (env_var env "NEXUS_CLIENT_SERVER_NAME") in
  guard! str_is_empty server_name || (253 <? str_len server_name) else Config_InvalidServerName ;;
  Ok (mkClientConfiguration server server_name).

(** The errors of the bootstrap, with the variable they are about. *)
Inductive BootstrapReason :=
  | Reason_Missing | Reason_Hex (e : HexError) | Reason_Length (actual : Z) | Reason_Key
  | Reason_Int (e : IntErrorKind).
Inductive BootstrapError :=
  | Boot_SessionBootstrapRequired
  | Boot_Invalid (name : string) (reason : BootstrapReason)
  | Boot_Endpoint (e : TransportError)
  | Boot_Capability
  | Boot_Policy (e : SessionPolicyError)
  | Boot_Runtime (e : ClientRuntimeError).

Section environment.
Context (env : Environment).

Definition required_env (name : string) : result BootstrapError string :=
  ok_or (env_var env name) (Boot_Invalid name Reason_Missing).
Definition parse_env (max : Z) (name : string) : result BootstrapError Z :=
  value ← required_env name;
  map_err (λ e, Boot_Invalid name (Reason_Int e)) (parse_uint max value).
Definition read_hex_env (name : string) : result BootstrapError bytes :=
  value ← required_env name;
  map_err (λ e, Boot_Invalid name (Reason_Hex e)) (decode_hex value).
Definition read_fixed_hex_env (n : Z) (name : string) : result BootstrapError bytes :=
  b ← read_hex_env name;
  guard! negb (len b =? n) else Boot_Invalid name (Reason_Length (len b)) ;;
  Ok b.
Definition verifying_key_env `{Ed25519} (name : string) : result BootstrapError bytes :=
  b ← read_fixed_hex_env 32 name;
  guard! negb (ed_key_valid b) else Boot_Invalid name Reason_Key ;;
  Ok b.
End environment.

Definition bootstrap_names : list string :=
  ["NEXUS_CLIENT_SERVER_CERT_DER"; "NEXUS_CLIENT_CAPABILITY_HEX"; "NEXUS_CLIENT_CAPABILITY_VERIFYING_KEY_HEX";
   "NEXUS_CLIENT_RELAY_ID"; "NEXUS_CLIENT_RELAY_SESSION_ID"; "NEXUS_CLIENT_RELAY_CLIENT_DEVICE_ID";
   "NEXUS_CLIENT_RELAY_TARGET_DEVICE_ID"; "NEXUS_CLIENT_RELAY_EXPIRES_AT"; "NEXUS_CLIENT_RELAY_SIGNATURE_HEX";
   "NEXUS_CLIENT_RELAY_VERIFYING_KEY_HEX"; "NEXUS_CLIENT_FRAME_KEY_HEX"; "NEXUS_CLIENT_NONCE_DOMAIN";
   "NEXUS_CLIENT_MONITOR_WIDTH"; "NEXUS_CLIENT_MONITOR_HEIGHT"; "NEXUS_CLIENT_STREAM_WIDTH";
   "NEXUS_CLIENT_STREAM_HEIGHT"].

(** What the bootstrap hands to [connect_with_cancellation]. *)
Record Bootstrap := mkBootstrap {
  bs_endpoint : Endpoint;
  bs_session : ClientSession;
  bs_config : ClientConnectConfig;
  bs_frame_key : bytes;
  bs_nonce_domain : Z
}.

(** 1.0 as an [f32]. *)
Definition f32_one : Z := 1065353216.

Section bootstrap.
Context {D : Type} `{Ed25519} `{Prost SessionCapability} `{Aead} `{InputProst}
  `{Prost CursorPosition, Prost CursorShape} `{QuicStack}.

(** The capability, the relay token, the policy and the keys of the session, read in the
    order of the source. *)
Definition bootstrap_session (env : Environment) :
    result BootstrapError (SessionCapability * RelayTokenMetadata * SessionPolicy * ClientVerification) :=
  capability_bytes ← read_hex_env env "NEXUS_CLIENT_CAPABILITY_HEX";
  capability ← ok_or (prost_decode capability_bytes) Boot_Capability;
  relay_id ← required_env env "NEXUS_CLIENT_RELAY_ID";
  session_id ← required_env env "NEXUS_CLIENT_RELAY_SESSION_ID";
  client_device_id ← required_env env "NEXUS_CLIENT_RELAY_CLIENT_DEVICE_ID";
  target_device_id ← required_env env "NEXUS_CLIENT_RELAY_TARGET_DEVICE_ID";
  expires_at ← parse_env env u64_max "NEXUS_CLIENT_RELAY_EXPIRES_AT";
  signature ← read_hex_env env "NEXUS_CLIENT_RELAY_SIGNATURE_HEX";
  let relay_token :=
    mkRelayTokenMetadata relay_id session_id client_device_id target_device_id expires_at signature in
  capability_key ← verifying_key_env env "NEXUS_CLIENT_CAPABILITY_VERIFYING_KEY_HEX";
  relay_key ← verifying_key_env env "NEXUS_CLIENT_RELAY_VERIFYING_KEY_HEX";
  let verification := mkClientVerification capability_key relay_key relay_id in
  policy ← map_err Boot_Policy (SessionPolicy_new DEFAULT_MAX_SESSION_DURATION (Duration_from_secs 60));
  Ok (capability, relay_token, policy, verification).

(** The monitor, the stream, the frame key and the nonce domain. *)
Definition bootstrap_media (env : Environment) : result BootstrapError (ClientConnectConfig * bytes * Z) :=
  monitor_width ← parse_env env (umax 32) "NEXUS_CLIENT_MONITOR_WIDTH";
  monitor_height ← parse_env env (umax 32) "NEXUS_CLIENT_MONITOR_HEIGHT";
  let monitor := mkMonitorInfo 0 0 0 monitor_width monitor_height f32_one in
  stream_width ← parse_env env (umax 32) "NEXUS_CLIENT_STREAM_WIDTH";
  stream_height ← parse_env env (umax 32) "NEXUS_CLIENT_STREAM_HEIGHT";
  stream ← map_err Boot_Runtime (VideoStreamConfig_new stream_width stream_height);
  frame_key ← read_fixed_hex_env env 32 "NEXUS_CLIENT_FRAME_KEY_HEX";
  nonce_domain ← parse_env env (umax 32) "NEXUS_CLIENT_NONCE_DOMAIN";
  Ok (mkClientConnectConfig monitor stream, frame_key, nonce_domain).

(** [None] is a panic. *)
Definition bootstrap (env : Environment) : option (result BootstrapError Bootstrap) :=
  match read_hex_env env "NEXUS_CLIENT_SERVER_CERT_DER" with
  | Err e => Some (Err e)
  | Ok server_certificate =>
  endpoint ← make_client_endpoint "0.0.0.0:0" server_certificate;
  match endpoint with
  | Err e => Some (Err (Boot_Endpoint e))
  | Ok endpoint =>
  match bootstrap_session env with
  | Err e => Some (Err e)
  | Ok (capability, relay_token, policy, verification) =>
      session ← ClientSession_new capability relay_token policy verification;
      Some ('(config, frame_key, nonce_domain) ← bootstrap_media env;
            Ok (mkBootstrap endpoint session config frame_key nonce_domain))
  end end end.

(** [run_configured_with_cancellation], with the endpoint that [connect] was called on and
    the peer it was called for, if it was.  The attempt, the rounds and the rest are those of the operations of
    [Runtime]. *)
Definition run_configured (env : Environment) (configuration : ClientConfiguration) (cancelled : bool)
    (a : ConnectAttempt) (cancelled_after : bool) (hwnd : Z) (d : result DecoderError D)
    (rounds : list (list RuntimeEvent * list ConnectAttempt)) (stopped : bool) :
    option (result BootstrapError RuntimeSummary * option (Endpoint * ClientConfiguration)) :=
  if cancelled then Some (Err (Boot_Runtime Runtime_Shutdown), None) else
  if negb (existsb (env_is_set env) bootstrap_names) then Some (Err Boot_SessionBootstrapRequired, None) else
  b ← bootstrap env;
  match b with
  | Err e => Some (Err e, None)
  | Ok b =>
      let '(connected, called) :=
        connect_with_cancellation (bs_config b) (bs_session b) (bs_frame_key b) (bs_nonce_domain b)
          a cancelled_after hwnd d in
      let call := if called : bool then Some (bs_endpoint b, configuration) else None in
      match connected with
      | Err e => Some (Err (Boot_Runtime e), call)
      | Ok rt =>
          '(r, _) ← run_configured_loop rt rounds stopped;
          Some (map_err Boot_Runtime r, call)
      end
  end.

(** ** What a complete bootstrap is *)

Lemma required_env_Ok env name s : required_env env name = Ok s ↔ env_var env name = Some s.
Proof. unfold required_env. apply ok_or_ok. Qed.
Lemma parse_env_Ok env max name n :
  parse_env env max name = Ok n ↔ ∃ s, env_var env name = Some s ∧ parse_uint max s = Ok n.
Proof.
  unfold parse_env. rewrite result_bind_ok. setoid_rewrite required_env_Ok. by setoid_rewrite map_err_ok.
Qed.
Lemma read_hex_env_Ok env name b :
  read_hex_env env name = Ok b ↔ ∃ s, env_var env name = Some s ∧ decode_hex s = Ok b.
Proof.
  unfold read_hex_env. rewrite result_bind_ok. setoid_rewrite required_env_Ok. by setoid_rewrite map_err_ok.
Qed.
Lemma read_fixed_hex_env_Ok env n name b :
  read_fixed_hex_env env n name = Ok b ↔ read_hex_env env name = Ok b ∧ len b = n.
Proof.
  unfold read_fixed_hex_env. rewrite result_bind_ok. split.
  - intros (x & Ex & E). destruct (Z.eqb_spec (len x) n); [|done]. injection E as ->. done.
  - intros [E <-]. exists b. split; [done|]. by rewrite Z.eqb_refl.
Qed.
Lemma verifying_key_env_Ok env name b :
  verifying_key_env env name = Ok b ↔ read_hex_env env name = Ok b ∧ len b = 32 ∧ ed_key_valid b = true.
Proof.
  unfold verifying_key_env. rewrite result_bind_ok. setoid_rewrite read_fixed_hex_env_Ok. split.
  - intros (x & [Ex El] & E). destruct (ed_key_valid x) eqn:Ev; [|done]. injection E as ->. done.
  - intros (E & El & Ev). exists b. by rewrite Ev.
Qed.

(** The values the environment carries for a bootstrap. *)
Record bootstrap_of (env : Environment) (b : Bootstrap) : Prop := {
  bo_certificate : ∃ cert, read_hex_env env "NEXUS_CLIENT_SERVER_CERT_DER" = Ok cert ∧
    ep_roots (bs_endpoint b) = [cert];
  bo_capability : ∃ bs, read_hex_env env "NEXUS_CLIENT_CAPABILITY_HEX" = Ok bs ∧
    prost_decode bs = Some (cs_capability (bs_session b));
  bo_keys : verifying_key_env env "NEXUS_CLIENT_CAPABILITY_VERIFYING_KEY_HEX" =
      Ok (ver_capability_key (cs_verification (bs_session b))) ∧
    verifying_key_env env "NEXUS_CLIENT_RELAY_VERIFYING_KEY_HEX" =
      Ok (ver_relay_key (cs_verification (bs_session b)));
  bo_relay : env_var env "NEXUS_CLIENT_RELAY_ID" = Some (ver_relay_id (cs_verification (bs_session b))) ∧
    env_var env "NEXUS_CLIENT_RELAY_ID" = Some (rmd_relay_id (cs_relay_token (bs_session b))) ∧
    env_var env "NEXUS_CLIENT_RELAY_SESSION_ID" = Some (rmd_session_id (cs_relay_token (bs_session b))) ∧
    env_var env "NEXUS_CLIENT_RELAY_CLIENT_DEVICE_ID" = Some (rmd_client_device_id (cs_relay_token (bs_session b))) ∧
    env_var env "NEXUS_CLIENT_RELAY_TARGET_DEVICE_ID" = Some (rmd_target_device_id (cs_relay_token (bs_session b))) ∧
    parse_env env u64_max "NEXUS_CLIENT_RELAY_EXPIRES_AT" = Ok (rmd_expires_at (cs_relay_token (bs_session b))) ∧
    read_hex_env env "NEXUS_CLIENT_RELAY_SIGNATURE_HEX" = Ok (rmd_signature (cs_relay_token (bs_session b)));
  bo_state : cs_state (bs_session b) = Client_Disconnected;
  bo_media : parse_env env (umax 32) "NEXUS_CLIENT_MONITOR_WIDTH" = Ok (mi_width (cc_monitor (bs_config b))) ∧
    parse_env env (umax 32) "NEXUS_CLIENT_MONITOR_HEIGHT" = Ok (mi_height (cc_monitor (bs_config b))) ∧
    parse_env env (umax 32) "NEXUS_CLIENT_STREAM_WIDTH" = Ok (vs_width (cc_stream (bs_config b))) ∧
    parse_env env (umax 32) "NEXUS_CLIENT_STREAM_HEIGHT" = Ok (vs_height (cc_stream (bs_config b))) ∧
    VideoStreamConfig_validate (cc_stream (bs_config b)) = Ok tt;
  bo_frame_key : read_hex_env env "NEXUS_CLIENT_FRAME_KEY_HEX" = Ok (bs_frame_key b) ∧ len (bs_frame_key b) = 32;
  bo_nonce_domain : parse_env env (umax 32) "NEXUS_CLIENT_NONCE_DOMAIN" = Ok (bs_nonce_domain b)
}.

Ltac binds H := repeat (apply result_bind_ok in H as (? & ? & H)).

Lemma bootstrap_session_Ok env capability relay_token policy verification :
  bootstrap_session env = Ok (capability, relay_token, policy, verification) →
  SessionPolicy_new DEFAULT_MAX_SESSION_DURATION (Duration_from_secs 60) = Ok policy ∧
  (∃ bs, read_hex_env env "NEXUS_CLIENT_CAPABILITY_HEX" = Ok bs ∧ prost_decode bs = Some capability) ∧
  verifying_key_env env "NEXUS_CLIENT_CAPABILITY_VERIFYING_KEY_HEX" = Ok (ver_capability_key verification) ∧
  verifying_key_env env "NEXUS_CLIENT_RELAY_VERIFYING_KEY_HEX" = Ok (ver_relay_key verification) ∧
  env_var env "NEXUS_CLIENT_RELAY_ID" = Some (ver_relay_id verification) ∧
  env_var env "NEXUS_CLIENT_RELAY_ID" = Some (rmd_relay_id relay_token) ∧
  env_var env "NEXUS_CLIENT_RELAY_SESSION_ID" = Some (rmd_session_id relay_token) ∧
  env_var env "NEXUS_CLIENT_RELAY_CLIENT_DEVICE_ID" = Some (rmd_client_device_id relay_token) ∧
  env_var env "NEXUS_CLIENT_RELAY_TARGET_DEVICE_ID" = Some (rmd_target_device_id relay_token) ∧
  parse_env env u64_max "NEXUS_CLIENT_RELAY_EXPIRES_AT" = Ok (rmd_expires_at relay_token) ∧
  read_hex_env env "NEXUS_CLIENT_RELAY_SIGNATURE_HEX" = Ok (rmd_signature relay_token).
Proof.
  unfold bootstrap_session. intros E. binds E. injection E as <- <- <- <-.
  repeat match goal with
  | H : required_env _ _ = Ok _ |- _ => apply required_env_Ok in H
  | H : ok_or _ _ = Ok _ |- _ => apply ok_or_ok in H
  | H : map_err _ _ = Ok _ |- _ => apply map_err_ok in H
  end.
  split_and!; try done. eauto.
Qed.

Lemma bootstrap_media_Ok env config frame_key nonce_domain :
  bootstrap_media env = Ok (config, frame_key, nonce_domain) →
  parse_env env (umax 32) "NEXUS_CLIENT_MONITOR_WIDTH" = Ok (mi_width (cc_monitor config)) ∧
  parse_env env (umax 32) "NEXUS_CLIENT_MONITOR_HEIGHT" = Ok (mi_height (cc_monitor config)) ∧
  parse_env env (umax 32) "NEXUS_CLIENT_STREAM_WIDTH" = Ok (vs_width (cc_stream config)) ∧
  parse_env env (umax 32) "NEXUS_CLIENT_STREAM_HEIGHT" = Ok (vs_height (cc_stream config)) ∧
  VideoStreamConfig_validate (cc_stream config) = Ok tt ∧
  read_fixed_hex_env env 32 "NEXUS_CLIENT_FRAME_KEY_HEX" = Ok frame_key ∧
  parse_env env (umax 32) "NEXUS_CLIENT_NONCE_DOMAIN" = Ok nonce_domain.
Proof.
  unfold bootstrap_media. intros E. binds E. injection E as <- <- <-.
  match goal with H : map_err _ (VideoStreamConfig_new _ _) = Ok _ |- _ =>
    apply map_err_ok in H; unfold VideoStreamConfig_new in H; apply result_bind_ok in H as ([] & ? & [= <-]) end.
  cbn. split_and!; done.
Qed.

Lemma make_client_endpoint_total addr cert :
  ∃ r, make_client_endpoint addr cert = Some r ∧ ∀ ep, r = Ok ep → ep_roots ep = [cert].
Proof.
  unfold make_client_endpoint. rewrite transport_config_set. cbn [mbind option_bind].
  destruct (negb _); [by eexists|]. destruct (negb _); [by eexists|].
  destruct (client_binds addr); eexists; (split; [done|]); by intros ? [= <-].
Qed.

Lemma bootstrap_total env : ∃ r, bootstrap env = Some r ∧ ∀ b, r = Ok b → bootstrap_of env b.
Proof.
  unfold bootstrap. destruct (read_hex_env env "NEXUS_CLIENT_SERVER_CERT_DER") as [cert|] eqn:Ec; [|by eexists].
  destruct (make_client_endpoint_total "0.0.0.0:0" cert) as (rep & -> & Hroots). cbn [mbind option_bind].
  destruct rep as [ep|]; [|by eexists]. specialize (Hroots ep eq_refl).
  destruct (bootstrap_session env) as [[[[capability relay_token] policy] verification]|] eqn:Es; [|by eexists].
  apply bootstrap_session_Ok in Es as (Hp & Hcap & Hk1 & Hk2 & Hr).
  injection Hp as <-. cbn [mbind option_bind ClientSession_new].
  eexists. split; [reflexivity|]. intros b Eb. apply result_bind_ok in Eb as ([[config fk] nd] & Em & [= <-]).
  apply bootstrap_media_Ok in Em as (? & ? & ? & ? & ? & Hfk & ?). apply read_fixed_hex_env_Ok in Hfk as [? ?].
  split; cbn; eauto 10.
Qed.

(** A variable that the bootstrap read was set. *)
Lemma bootstrap_of_set env b : bootstrap_of env b → Forall (λ name, is_Some (env_var env name)) bootstrap_names.
Proof.
  intros [(c & Hc & _) (cb & Hcb & _) [Hk1 Hk2] (? & ? & ? & ? & ? & He & Hs) _ (Hmw & Hmh & Hsw & Hsh & _) [Hf _] Hn].
  apply verifying_key_env_Ok in Hk1 as (Hk1 & _), Hk2 as (Hk2 & _).
  repeat match goal with
  | H : read_hex_env _ _ = Ok _ |- _ => apply read_hex_env_Ok in H as (? & ? & _)
  | H : parse_env _ _ _ = Ok _ |- _ => apply parse_env_Ok in H as (? & ? & _)
  end.
  repeat (apply Forall_cons; split; [by eexists|]). constructor.
Qed.

Lemma configured_client_connects env configuration cancelled a cancelled_after hwnd
    (d : result DecoderError D) rounds stopped r endpoint peer :
  run_configured env configuration cancelled a cancelled_after hwnd d rounds stopped = Some (r, Some (endpoint, peer)) →
  peer = configuration ∧ cancelled = false ∧
  Forall (λ name, is_Some (env_var env name)) bootstrap_names ∧
  ∃ b, bootstrap env = Some (Ok b) ∧ bs_endpoint b = endpoint ∧ bootstrap_of env b ∧
    can_view (bs_session b) = true ∧ validate_claims (bs_session b) (at_now a) = Ok tt.
Proof.
  unfold run_configured. destruct cancelled; [done|]. destruct (negb _); [done|].
  destruct (bootstrap_total env) as (rb & -> & Hb). cbn [mbind option_bind]. destruct rb as [b|]; [|done].
  specialize (Hb b eq_refl).
  destruct (connect_requires_viewer (bs_config b) (bs_session b) (bs_frame_key b) (bs_nonce_domain b) a
    cancelled_after hwnd d) as [Hv _].
  destruct (connect_with_cancellation _ _ _ _ _ _ _ _) as [connected called]. cbn in Hv.
  intros E. assert (called = true ∧ peer = configuration ∧ endpoint = bs_endpoint b) as (-> & -> & ->).
  { destruct connected as [rt|e]; [apply bind_Some in E as ([? ?] & _ & E)|]; destruct called; by injection E. }
  destruct (Hv eq_refl) as (? & ? & ?). split_and!; [done|done|by eapply bootstrap_of_set|]. by exists b.
Qed.
(** A run that ends well has called the peer, and a run panics only in its loop. *)
Lemma run_configured_outcome env configuration cancelled a cancelled_after hwnd (d : result DecoderError D) rounds stopped :
  match run_configured env configuration cancelled a cancelled_after hwnd d rounds stopped with
  | Some (Ok _, call) => is_Some call
  | Some (Err _, _) => True
  | None => ∃ rt, run_configured_loop rt rounds stopped = None
  end.
Proof.
  unfold run_configured. destruct cancelled; [done|]. destruct (negb _); [done|].
  destruct (bootstrap_total env) as (rb & -> & _). cbn [mbind option_bind]. destruct rb as [b|]; [|done].
  destruct (connect_requires_viewer (bs_config b) (bs_session b) (bs_frame_key b) (bs_nonce_domain b) a
    cancelled_after hwnd d) as [_ Hok].
  destruct (connect_with_cancellation _ _ _ _ _ _ _ _) as [[rt|e] called]; [|done]. cbn in Hok.
  destruct (Hok rt eq_refl) as [-> _]. destruct (run_configured_loop rt rounds stopped) as [[[r|e] ?]|] eqn:E; cbn; eauto.
Qed.

(** C21. A configured client never panics in its bootstrap and fails closed: it opens a
    transport, and so can end well, only when it was not cancelled and every one of the
    sixteen variables is set and well-formed; then to the configured peer, on an endpoint
    that trusts the certificate of the environment and no other, with 32-byte valid keys
    and the session that its bootstrap makes, which is exactly the one the environment
    describes, whose capability carries the view permission and whose signed claims
    validate at the clock read. *)
Theorem configured_client_authenticated env configuration cancelled a cancelled_after hwnd
    (d : result DecoderError D) rounds stopped :
  let run := run_configured env configuration cancelled a cancelled_after hwnd d rounds stopped in
  bootstrap env ≠ None ∧ (run = None → ∃ rt, run_configured_loop rt rounds stopped = None) ∧
  (∀ summary call, run = Some (Ok summary, call) → is_Some call) ∧
  ∀ r endpoint peer, run = Some (r, Some (endpoint, peer)) →
    peer = configuration ∧ cancelled = false ∧
    Forall (λ name, is_Some (env_var env name)) bootstrap_names ∧
    (∃ cert, read_hex_env env "NEXUS_CLIENT_SERVER_CERT_DER" = Ok cert ∧
       ∀ server, trusts endpoint server = true ↔ ep_identity server = Some cert) ∧
    ∃ b, bootstrap env = Some (Ok b) ∧ bs_endpoint b = endpoint ∧ bootstrap_of env b ∧
      can_view (bs_session b) = true ∧ validate_claims (bs_session b) (at_now a) = Ok tt.
Proof.
  intros run. pose proof (run_configured_outcome env configuration cancelled a cancelled_after hwnd d rounds stopped) as Ho.
  fold run in Ho. split_and!.
  - by destruct (bootstrap_total env) as (? & -> & _).
  - intros E. by rewrite E in Ho.
  - intros summary call E. by rewrite E in Ho.
  - intros r endpoint peer (-> & -> & Hset & b & Hb & <- & Hbo & ?)%configured_client_connects.
    split_and!; [done|done|done| |by exists b]. destruct (bo_certificate _ _ Hbo) as (cert & Hcert & Hroots).
    exists cert. split; [done|]. intros server. apply pinned_trusts, Hroots.
Qed.

(** Without a bootstrap variable, or cancelled before it starts, the client ends at once. *)
Lemma unconfigured_client_refuses env configuration a cancelled_after hwnd (d : result DecoderError D) rounds stopped :
  (∀ name, env name = Env_Unset) →
  run_configured env configuration false a cancelled_after hwnd d rounds stopped =
    Some (Err Boot_SessionBootstrapRequired, None).
Proof.
  intros Hu. unfold run_configured. assert (existsb (env_is_set env) bootstrap_names = false) as ->; [|done].
  apply not_true_is_false. intros (x & _ & Hx)%existsb_exists. unfold env_is_set in Hx. by rewrite Hu in Hx.
Qed.

(** ** The entry point *)

(** [main]: the errors it prints; [cancelled] is whether an interrupt came first. *)
Inductive MainError := Main_Configuration (e : ClientConfigurationError) | Main_Runtime (e : BootstrapError).
Definition client_main (env : Environment) (cancelled : bool) (a : ConnectAttempt) (cancelled_after : bool)
    (hwnd : Z) (d : result DecoderError D) (rounds : list (list RuntimeEvent * list ConnectAttempt))
    (stopped : bool) : option (result MainError unit * option (Endpoint * ClientConfiguration)) :=
  match ClientConfiguration_from_env env with
  | Err e => Some (Err (Main_Configuration e), None)
  | Ok configuration =>
      '(r, call) ← run_configured env configuration cancelled a cancelled_after hwnd d rounds stopped;
      Some (match r with Ok _ => Ok tt | Err e => Err (Main_Runtime e) end, call)
  end.

(** A peer that the client connects to was configured: its address parsed and its name
    fits a certificate's. *)
Lemma client_main_peer env cancelled a cancelled_after hwnd (d : result DecoderError D) rounds stopped r endpoint peer :
  client_main env cancelled a cancelled_after hwnd d rounds stopped = Some (r, Some (endpoint, peer)) →
  (∃ s, env_var env "NEXUS_CLIENT_SERVER" = Some s ∧ parse_socket_addr s = Some (cf_server peer)) ∧
  1 ≤ str_len (cf_server_name peer) ≤ 253 ∧
  Forall (λ name, is_Some (env_var env name)) bootstrap_names.
Proof.
  unfold client_main. destruct (ClientConfiguration_from_env env) as [configuration|] eqn:Ec; [|done].
  intros ([r0 p0] & E & [= <- ->])%bind_Some.
  pose proof E as (-> & -> & Hset & _)%configured_client_connects. split_and!; [| | |done].
  all: unfold ClientConfiguration_from_env in Ec; apply result_bind_ok in Ec as (s & Es%ok_or_ok & Ec);
    apply result_bind_ok in Ec as (addr & Ea%ok_or_ok & Ec);
    destruct (_ || _) eqn:Eg; [done|]; injection Ec as <-.
  - cbn. eauto.
  - cbn. apply orb_false_iff in Eg as [Eg _]. unfold str_is_empty, str_len in *. destruct (default _ _); [done|].
    cbn. lia.
  - cbn. apply orb_false_iff in Eg as [_ Eg]. apply Z.ltb_ge in Eg. exact Eg.
Qed.
End bootstrap.

(** ** What a control plane writes is read back *)

Fixpoint to_hex (b : bytes) : string :=
  match b with [] => "" | x :: b => (hex_byte x +:+ to_hex b)%string end.

Lemma hex_value_digit n : 0 ≤ n < 16 → ∃ c, as_bytes (String (hex_digit n) "") = [c] ∧
  of_byte c < 128 ∧ of_byte c ≠ 43 ∧ hex_value c = Some n.
Proof.
  intros Hn. assert (Forall (λ n, ∃ c, as_bytes (String (hex_digit n) "") = [c] ∧
    of_byte c < 128 ∧ of_byte c ≠ 43 ∧ hex_value c = Some n) (seqZ 0 16)) as Hall.
  { repeat (apply Forall_cons; split; [by eexists|]). constructor. }
  rewrite Forall_forall in Hall. apply Hall. apply elem_of_seqZ. lia.
Qed.

Lemma decode_to_hex b : decode_hex (to_hex b) = Ok b.
Proof.
  apply decode_hex_spec. induction b as [|x b (IH1 & IH2 & IH3)]; cbn [to_hex].
  { split_and!; [constructor|done|constructor]. }
  pose proof (of_byte_range x) as Hx.
  destruct (hex_value_digit (of_byte x / 16)) as (c1 & E1 & L1 & P1 & V1);
    [split; [apply Z.div_pos|apply Z.div_lt_upper_bound]; lia|].
  destruct (hex_value_digit (of_byte x mod 16)) as (c2 & E2 & L2 & P2 & V2); [apply Z.mod_pos_bound; lia|].
  assert (as_bytes (hex_byte x +:+ to_hex b)%string = c1 :: c2 :: as_bytes (to_hex b)) as Eb.
  { transitivity (as_bytes (String (hex_digit (of_byte x / 16)) "") ++
      as_bytes (String (hex_digit (of_byte x mod 16)) "") ++ as_bytes (to_hex b)); [done|]. by rewrite E1, E2. }
  rewrite Eb, (chunks_step 2) by (lia || done). cbn [take drop]. split_and!.
  - by repeat constructor.
  - unfold str_len in *. change (String.length (hex_byte x +:+ to_hex b)) with (S (S (String.length (to_hex b)))).
    rewrite !Nat2Z.inj_succ, <-(Z.mod_add _ (-1) 2) by lia. rewrite <-IH2. f_equal. lia.
  - constructor; [|done]. cbn. rewrite (proj2 (Z.eqb_neq _ _)) by done. rewrite V1, V2. cbn.
    f_equal. rewrite <-(to_of_byte x) at 3. f_equal. pose proof (Z.div_mod (of_byte x) 16). lia.
Qed.

(** The values of a bootstrap, and the environment that carries them. *)
Record BootstrapValues := mkBootstrapValues {
  bv_certificate : bytes; bv_capability : SessionCapability; bv_relay_token : RelayTokenMetadata;
  bv_capability_key : bytes; bv_relay_key : bytes;
  bv_monitor_width : Z; bv_monitor_height : Z; bv_stream : VideoStreamConfig;
  bv_frame_key : bytes; bv_nonce_domain : Z
}.
Definition env_of_list (l : list (string * string)) : Environment := λ name,
  match List.find (λ x, String.eqb (fst x) name) l with Some (_, s) => Env_Text s | None => Env_Unset end.

Section round_trip.
Context `{Ed25519} `{Prost SessionCapability} `{!ProstLaws SessionCapability} `{QuicStack}.

Definition environment_of (v : BootstrapValues) : Environment := env_of_list
  [("NEXUS_CLIENT_SERVER_CERT_DER", to_hex (bv_certificate v));
   ("NEXUS_CLIENT_CAPABILITY_HEX", to_hex (prost_encode (bv_capability v)));
   ("NEXUS_CLIENT_CAPABILITY_VERIFYING_KEY_HEX", to_hex (bv_capability_key v));
   ("NEXUS_CLIENT_RELAY_ID", rmd_relay_id (bv_relay_token v));
   ("NEXUS_CLIENT_RELAY_SESSION_ID", rmd_session_id (bv_relay_token v));
   ("NEXUS_CLIENT_RELAY_CLIENT_DEVICE_ID", rmd_client_device_id (bv_relay_token v));
   ("NEXUS_CLIENT_RELAY_TARGET_DEVICE_ID", rmd_target_device_id (bv_relay_token v));
   ("NEXUS_CLIENT_RELAY_EXPIRES_AT", to_dec (rmd_expires_at (bv_relay_token v)));
   ("NEXUS_CLIENT_RELAY_SIGNATURE_HEX", to_hex (rmd_signature (bv_relay_token v)));
   ("NEXUS_CLIENT_RELAY_VERIFYING_KEY_HEX", to_hex (bv_relay_key v));
   ("NEXUS_CLIENT_FRAME_KEY_HEX", to_hex (bv_frame_key v));
   ("NEXUS_CLIENT_NONCE_DOMAIN", to_dec (bv_nonce_domain v));
   ("NEXUS_CLIENT_MONITOR_WIDTH", to_dec (bv_monitor_width v));
   ("NEXUS_CLIENT_MONITOR_HEIGHT", to_dec (bv_monitor_height v));
   ("NEXUS_CLIENT_STREAM_WIDTH", to_dec (vs_width (bv_stream v)));
   ("NEXUS_CLIENT_STREAM_HEIGHT", to_dec (vs_height (bv_stream v)))].

Record values_ok (v : BootstrapValues) : Prop := {
  vo_keys : Forall (λ k, len k = 32 ∧ ed_key_valid k = true) [bv_capability_key v; bv_relay_key v];
  vo_frame_key : len (bv_frame_key v) = 32;
  vo_expires : uint 64 (rmd_expires_at (bv_relay_token v));
  vo_numbers : Forall (uint 32)
    [bv_nonce_domain v; bv_monitor_width v; bv_monitor_height v; vs_width (bv_stream v); vs_height (bv_stream v)];
  vo_stream : VideoStreamConfig_validate (bv_stream v) = Ok tt
}.

Lemma hex_env_of env name b : env_var env name = Some (to_hex b) → read_hex_env env name = Ok b.
Proof. intros E. apply read_hex_env_Ok. eexists. split; [exact E|]. apply decode_to_hex. Qed.
Lemma dec_env_of env max name n : env_var env name = Some (to_dec n) → 0 ≤ n ≤ max → parse_env env max name = Ok n.
Proof. intros E Hn. apply parse_env_Ok. eexists. split; [exact E|]. by apply parse_to_dec. Qed.

(** An environment written from valid values (bytes in lower-case hexadecimal, numbers in
    decimal, the capability in its encoding) is read back as those values: the session is
    the one of the capability and the relay token, with the keys given. *)
Theorem bootstrap_round_trip v endpoint :
  values_ok v → make_client_endpoint "0.0.0.0:0" (bv_certificate v) = Some (Ok endpoint) →
  bootstrap (environment_of v) = Some (Ok (mkBootstrap endpoint
    (mkClientSession (bv_capability v) (bv_relay_token v) Client_Disconnected None None
       DEFAULT_MAX_SESSION_DURATION (Duration_from_secs 60)
       (mkClientVerification (bv_capability_key v) (bv_relay_key v) (rmd_relay_id (bv_relay_token v))))
    (mkClientConnectConfig (mkMonitorInfo 0 0 0 (bv_monitor_width v) (bv_monitor_height v) f32_one) (bv_stream v))
    (bv_frame_key v) (bv_nonce_domain v))).
Proof.
  intros [Hk Hf He Hn Hs] Hep. set (env := environment_of v).
  apply Forall_cons in Hk as [[Hc1 Hc2] Hk]. apply Forall_singleton in Hk as [Hr1 Hr2].
  repeat (apply Forall_cons in Hn as [? Hn]). unfold uint in *.
  assert (bootstrap_session env = Ok (bv_capability v, bv_relay_token v,
    mkSessionPolicy DEFAULT_MAX_SESSION_DURATION (Duration_from_secs 60),
    mkClientVerification (bv_capability_key v) (bv_relay_key v) (rmd_relay_id (bv_relay_token v)))) as Hsession.
  { unfold bootstrap_session. rewrite (hex_env_of env "NEXUS_CLIENT_CAPABILITY_HEX" (prost_encode (bv_capability v))) by reflexivity. cbn [mbind result_bind].
    rewrite prost_decode_encode. cbn [ok_or].
    rewrite (proj2 (required_env_Ok env "NEXUS_CLIENT_RELAY_ID" _) eq_refl).
    rewrite (proj2 (required_env_Ok env "NEXUS_CLIENT_RELAY_SESSION_ID" _) eq_refl).
    rewrite (proj2 (required_env_Ok env "NEXUS_CLIENT_RELAY_CLIENT_DEVICE_ID" _) eq_refl).
    rewrite (proj2 (required_env_Ok env "NEXUS_CLIENT_RELAY_TARGET_DEVICE_ID" _) eq_refl).
    rewrite (dec_env_of env u64_max "NEXUS_CLIENT_RELAY_EXPIRES_AT" (rmd_expires_at (bv_relay_token v))) by (reflexivity || unfold u64_max; lia).
    rewrite (hex_env_of env "NEXUS_CLIENT_RELAY_SIGNATURE_HEX" (rmd_signature (bv_relay_token v))) by reflexivity.
    rewrite (proj2 (verifying_key_env_Ok env "NEXUS_CLIENT_CAPABILITY_VERIFYING_KEY_HEX" (bv_capability_key v))) by (split_and!; [apply hex_env_of; reflexivity|done..]).
    rewrite (proj2 (verifying_key_env_Ok env "NEXUS_CLIENT_RELAY_VERIFYING_KEY_HEX" (bv_relay_key v))) by (split_and!; [apply hex_env_of; reflexivity|done..]).
    cbn. by destruct (bv_relay_token v). }
  assert (bootstrap_media env = Ok (mkClientConnectConfig (mkMonitorInfo 0 0 0 (bv_monitor_width v)
    (bv_monitor_height v) f32_one) (bv_stream v), bv_frame_key v, bv_nonce_domain v)) as Hmedia.
  { unfold bootstrap_media, umax.
    rewrite (dec_env_of env _ "NEXUS_CLIENT_MONITOR_WIDTH" (bv_monitor_width v)) by (reflexivity || lia). cbn [mbind result_bind].
    rewrite (dec_env_of env _ "NEXUS_CLIENT_MONITOR_HEIGHT" (bv_monitor_height v)) by (reflexivity || lia).
    rewrite (dec_env_of env _ "NEXUS_CLIENT_STREAM_WIDTH" (vs_width (bv_stream v))) by (reflexivity || lia).
    rewrite (dec_env_of env _ "NEXUS_CLIENT_STREAM_HEIGHT" (vs_height (bv_stream v))) by (reflexivity || lia).
    cbn [mbind result_bind].
    assert (VideoStreamConfig_new (vs_width (bv_stream v)) (vs_height (bv_stream v)) = Ok (bv_stream v)) as ->.
    { unfold VideoStreamConfig_new. destruct (bv_stream v) as [w h]. cbn [vs_width vs_height]. by rewrite Hs. }
    cbn [mbind result_bind map_err].
    rewrite (proj2 (read_fixed_hex_env_Ok env 32 "NEXUS_CLIENT_FRAME_KEY_HEX" (bv_frame_key v))) by (split; [apply hex_env_of; reflexivity|done]).
    by rewrite (dec_env_of env _ "NEXUS_CLIENT_NONCE_DOMAIN" (bv_nonce_domain v)) by (reflexivity || lia). }
  unfold bootstrap. rewrite (hex_env_of env "NEXUS_CLIENT_SERVER_CERT_DER" (bv_certificate v)) by reflexivity. rewrite Hep. cbn [mbind option_bind].
  rewrite Hsession. cbn [mbind option_bind ClientSession_new]. rewrite Hmedia. reflexivity.
Qed.
End round_trip.

(** ** A concrete bootstrap *)

#[local] Existing Instance toy_ed25519.
#[local] Existing Instance toy_aead.
#[local] Existing Instance countable_input.
#[local] Instance boot_capability_prost : Prost SessionCapability := countable_prost _.
#[local] Instance boot_cursor_prost : Prost CursorPosition := {|
  prost_encode _ := []; prost_decode _ := None |}.
#[local] Instance boot_shape_prost : Prost CursorShape := {|
  prost_encode _ := []; prost_decode _ := None |}.
#[local] Instance toy_quic : QuicStack := {|
  generate_self_signed _ := Some ([x01], [x02]);
  server_config_accepts _ _ := true; root_store_accepts c := negb (len c =? 0);
  client_config_accepts _ := true; server_binds _ := true; client_binds _ := true
|}.

Definition sample_values : BootstrapValues :=
  mkBootstrapValues [x30; x82]
    (mkSessionCapability 1 "cp" "s1" "alice" "client-1" "agent-1" ["desktop.view"] [] 100 220 [x07] 1 1 [] good_sig)
    sample_client_token (replicate 32 x09) (replicate 32 x09) 1920 1080 (mkVideoStreamConfig 1280 720)
    (replicate 32 x01) 7.
Definition sample_configuration : ClientConfiguration :=
  mkClientConfiguration (SocketV4 2130706433 4433) "localhost".

Lemma bootstrap_round_trip_witness :
  ∃ b, bootstrap (environment_of sample_values) = Some (Ok b) ∧ bs_frame_key b = replicate 32 x01 ∧
    cs_capability (bs_session b) = bv_capability sample_values.
Proof.
  eexists. split.
  - eapply (@bootstrap_round_trip toy_ed25519 boot_capability_prost (countable_prost_laws _) toy_quic sample_values).
    + split; [repeat constructor; reflexivity|reflexivity|vm_compute; split; congruence| |reflexivity].
      repeat constructor; vm_compute; congruence.
    + reflexivity.
  - split; reflexivity.
Defined.

Definition sample_attempt : ConnectAttempt :=
  mkConnectAttempt false 150 (Connect_Failed Conn_TimedOut) 151 false.
Lemma configured_client_authenticated_witness :
  ∃ endpoint, run_configured (D := unit) (environment_of sample_values) sample_configuration false sample_attempt
    false 7 (Ok tt) [] true =
    Some (Err (Boot_Runtime (Runtime_Transport Conn_TimedOut)), Some (endpoint, sample_configuration)) ∧
  ep_roots endpoint = [bv_certificate sample_values] ∧
  ∃ b, bootstrap (environment_of sample_values) = Some (Ok b) ∧ can_view (bs_session b) = true ∧
    validate_claims (bs_session b) (at_now sample_attempt) = Ok tt.
Proof.
  eexists. split; [vm_compute; reflexivity|]. split; [reflexivity|].
  destruct (configured_client_authenticated (D := unit) (environment_of sample_values) sample_configuration false
    sample_attempt false 7 (Ok tt) [] true) as (_ & _ & _ & H).
  destruct (H _ _ _ ltac:(vm_compute; reflexivity)) as (_ & _ & _ & _ & b & H1 & _ & _ & H2 & H3).
  exists b. exact (conj H1 (conj H2 H3)).
Defined.
