(* ===== verification/Launch.v ===== *)
(** * From the control plane's answer to a connected client

    The composition of the control plane's session request (Authorization), the client's
    bootstrap environment (Bootstrap) and its connection (Runtime): an environment written
    from the answer of the control plane starts a client that connects. *)

From S2P Require Import Prelude RustStr Crypto Common Protocol Control PolicyModel PolicyEngine SessionState AuditLog Enrollment Relay VideoPacket VideoTransport ClientReceiver ClientSession Input Window Surface Decoder Pipeline Storage ControlPlane Authorization Runtime Quic Bootstrap.

Open Scope Z_scope.

(** The token a client is handed, as the metadata its session keeps. *)
Definition token_metadata (t : RelayToken) : RelayTokenMetadata :=
  mkRelayTokenMetadata (rt_relay_id t) (rt_session_id t) (rt_client_device_id t) (rt_target_device_id t)
    (rt_expires_at t) (rt_signature t).

(** What the launcher of a client knows besides the answer: the certificate of the server,
    the screen, the stream, and the frame key and nonce domain agreed with the host. *)
Record LaunchSetup := mkLaunchSetup {
  ls_certificate : bytes; ls_monitor_width : Z; ls_monitor_height : Z; ls_stream : VideoStreamConfig;
  ls_frame_key : bytes; ls_nonce_domain : Z
}.
Record setup_ok (l : LaunchSetup) : Prop := {
  lo_frame_key : len (ls_frame_key l) = 32;
  lo_nonce_domain : uint 32 (ls_nonce_domain l);
  lo_width : uint 32 (ls_monitor_width l);
  lo_height : uint 32 (ls_monitor_height l);
  lo_stream_width : uint 32 (vs_width (ls_stream l));
  lo_stream_height : uint 32 (vs_height (ls_stream l));
  lo_stream : VideoStreamConfig_validate (ls_stream l) = Ok tt
}.
Definition ls_monitor (l : LaunchSetup) : MonitorInfo :=
  mkMonitorInfo 0 0 0 (ls_monitor_width l) (ls_monitor_height l) f32_one.
Definition launch_values (key : bytes) (cap : SessionCapability) (t : RelayToken) (l : LaunchSetup) : BootstrapValues :=
  mkBootstrapValues (ls_certificate l) cap (token_metadata t) key key (ls_monitor_width l) (ls_monitor_height l)
    (ls_stream l) (ls_frame_key l) (ls_nonce_domain l).

Section launch.
Context {D Value Sink : Type} (Null : Value) (json_object : list (string * string) → Value).
Context `{Ed25519Laws, !Prost SessionCapability, !ProstLaws SessionCapability, Blake3, !SerdeJson DeviceCredential,
  !SerdeJsonDe DeviceCredential, !SerdeJson (list string), !SerdeJsonDe (list string),
  !SerdeJson (AuditEvent Value), !AuditSink (ChainedAuditEvent Value) Sink}.
Context `{Aead} `{InputProst} `{Prost CursorPosition, Prost CursorShape} `{QuicStack}.

Lemma launch_values_ok sk cap t l :
  setup_ok l → uint 64 (rt_expires_at t) → values_ok (launch_values (ed_public sk) cap t l).
Proof.
  intros [] Ht. split; [|done|done| |done].
  - assert (len (ed_public sk) = 32) by (unfold len; by rewrite ed_public_length).
    repeat (apply Forall_cons; split; [split; [done|apply ed_public_valid]|]). constructor.
  - repeat (apply Forall_cons; split; [done|]). constructor.
Qed.

Lemma environment_of_set v : existsb (env_is_set (environment_of v)) bootstrap_names = true.
Proof. reflexivity. Qed.
Lemma run_configured_connects env configuration a cancelled_after hwnd (d : result DecoderError D) rounds stopped b r :
  existsb (env_is_set env) bootstrap_names = true → bootstrap env = Some (Ok b) →
  connect_with_cancellation (bs_config b) (bs_session b) (bs_frame_key b) (bs_nonce_domain b) a cancelled_after hwnd d =
    (r, true) →
  run_configured env configuration false a cancelled_after hwnd d rounds stopped =
    match r with
    | Err e => Some (Err (Boot_Runtime e), Some (bs_endpoint b, configuration))
    | Ok rt => '(r, _) ← run_configured_loop rt rounds stopped;
               Some (map_err Boot_Runtime r, Some (bs_endpoint b, configuration))
    end.
Proof. intros Hs Hb Hc. unfold run_configured. rewrite Hs, Hb. cbn [negb mbind option_bind]. by rewrite Hc. Qed.

(** A new session whose claims validate and that may view calls the peer. *)
Lemma fresh_session_calls cap tok max window ver config fk nd now e then' c cancelled_after hwnd
    (d : result DecoderError D) :
  let session := mkClientSession cap tok Client_Disconnected None None max window ver in
  can_view session = true → validate_claims session now = Ok tt →
  VideoStreamConfig_validate (cc_stream config) = Ok tt →
  connect_with_cancellation config session fk nd (mkConnectAttempt false now (Connect_Failed e) then' c)
    cancelled_after hwnd d = (Err (Runtime_Transport e), true).
Proof.
  intros session Hv Hc Hst. unfold connect_with_cancellation. cbn [at_cancelled at_now at_outcome at_then].
  rewrite Hst. assert (require_view session = Ok tt) as -> by (unfold require_view; by rewrite Hv).
  assert (begin_connect session now = (Ok tt, cs_set_state session Client_Connecting)) as ->; [|done].
  unfold begin_connect. by rewrite Hc.
Qed.

(** A new session whose claims validate at both clocks, and that may view, connects. *)
Lemma fresh_session_connects cap tok max window ver config fk nd id now then' c hwnd (dec : D) :
  let session := mkClientSession cap tok Client_Disconnected None None max window ver in
  can_view session = true → validate_claims session now = Ok tt → validate_claims session then' = Ok tt →
  VideoStreamConfig_validate (cc_stream config) = Ok tt → MonitorInfo_validate (cc_monitor config) = Ok tt →
  hwnd ≠ 0 →
  ∃ rt, connect_with_cancellation config session fk nd (mkConnectAttempt false now (Connect_Ok id) then' c) false hwnd
          (Ok dec) = (Ok rt, true) ∧
    rt_session rt = mkClientSession cap tok Client_Connected None (Some then') max window ver.
Proof.
  intros session Hv Hc1 Hc2 Hst Hm Hh. unfold connect_with_cancellation. cbn [at_cancelled at_now at_outcome at_then].
  rewrite Hst. assert (require_view session = Ok tt) as -> by (unfold require_view; by rewrite Hv).
  assert (begin_connect session now = (Ok tt, cs_set_state session Client_Connecting)) as ->.
  { unfold begin_connect. by rewrite Hc1. }
  assert (connected (cs_set_state session Client_Connecting) then' =
    (Ok tt, cs_set session Client_Connected None (Some then'))) as ->.
  { unfold connected.
    change (validate_claims (cs_set_state session Client_Connecting) then') with (validate_claims session then').
    by rewrite Hc2. }
  unfold ClientRuntime_build, set_cursor_monitor, InputController_new, InputController_with_limits. rewrite Hm.
  assert (WindowController_start WindowConfig_default =
    Ok (mkWindowShared WindowConfig_default [] [] [] RenderQueue_new 0 false true)) as -> by reflexivity.
  cbn. unfold native_handle. cbn. rewrite (proj2 (Z.eqb_neq hwnd 0)) by done. by eexists.
Qed.

(** C16. From the control plane's answer to a running client.  When a session request is
    answered, and a client is started within the next 120 seconds with the environment
    that carries the answer (its capability, its client token, the control plane's public
    key) and a launch setup the client can use, the bootstrap succeeds, the client opens a
    transport to the configured peer on an endpoint that trusts the given certificate and no
    other and, when the transport connects in time, its session is connected under the
    capability issued.  The libraries take the certificate and the socket binds. *)
Theorem authorised_client_connects bld (st st' : AppState Value Sink) p now uuid nonce f1 f2 f3 resp l
    configuration t id t' c hwnd (dec : D) :
  st_policy_engine st = default_engine → 1 ≤ str_len (st_control_plane_id st) ≤ 128 →
  payload_ok p → uint 64 (now + 120) → len nonce = 16 →
  request_session_handler Null json_object bld st p now uuid nonce f1 f2 f3 = Some (Ok resp, st') →
  setup_ok l → MonitorInfo_validate (ls_monitor l) = Ok tt →
  root_store_accepts (ls_certificate l) = true → client_config_accepts [ls_certificate l] = true →
  client_binds "0.0.0.0:0" = true →
  now ≤ t < now + 120 → now ≤ t' < now + 120 → hwnd ≠ 0 →
  ∃ cap, prost_decode (sa_capability_bytes resp) = Some cap ∧ cap_session_id cap = sa_session_id resp ∧
  let env := environment_of
    (launch_values (ed_public (st_signing_key st)) cap (sa_client_relay_token resp) l) in
  ∃ b, bootstrap env = Some (Ok b) ∧
    (∀ server, trusts (bs_endpoint b) server = true ↔ ep_identity server = Some (ls_certificate l)) ∧
    (∀ e, run_configured (D := D) env configuration false (mkConnectAttempt false t (Connect_Failed e) t' c) false
       hwnd (Ok dec) [] false =
       Some (Err (Boot_Runtime (Runtime_Transport e)), Some (bs_endpoint b, configuration))) ∧
    ∃ rt, connect_with_cancellation (bs_config b) (bs_session b) (bs_frame_key b) (bs_nonce_domain b)
        (mkConnectAttempt false t (Connect_Ok id) t' c) false hwnd (Ok dec) = (Ok rt, true) ∧
      cs_state (rt_session rt) = Client_Connected ∧ cs_established_at (rt_session rt) = Some t' ∧
      cs_capability (rt_session rt) = cap ∧
      ∀ rounds stopped, run_configured env configuration false (mkConnectAttempt false t (Connect_Ok id) t' c)
        false hwnd (Ok dec) rounds stopped =
        ('(r, _) ← run_configured_loop rt rounds stopped;
         Some (map_err Boot_Runtime r, Some (bs_endpoint b, configuration))).
Proof.
  intros Heng Hid Hp Hnow Hn Hok Hl Hm Hrs Hcc Hcb Ht Ht' Hh. apply answered_session_issued in Hok
    as (_ & granted & _ & _ & Hg & [Hsid Hcap [Hrid _] [Hc _] _] & _); [|exact Heng|exact Hnow].
  rewrite Hcap. eexists. split; [apply prost_decode_encode|]. split; [reflexivity|].
  set (cap := cap_signed _ _). intros env.
  set (tok := sa_client_relay_token resp) in *.
  set (session := mkClientSession cap (token_metadata tok) Client_Disconnected None None DEFAULT_MAX_SESSION_DURATION
    (Duration_from_secs 60) (mkClientVerification (ed_public (st_signing_key st)) (ed_public (st_signing_key st))
      (rt_relay_id tok))).
  set (config := mkClientConnectConfig (ls_monitor l) (ls_stream l)).
  destruct (make_client_endpoint_total "0.0.0.0:0" (ls_certificate l)) as (rep & Hep & Hroots).
  destruct rep as [endpoint|]; cycle 1.
  { unfold make_client_endpoint in Hep. rewrite Hrs, Hcc, Hcb in Hep. discriminate Hep. }
  specialize (Hroots endpoint eq_refl).
  assert (bootstrap env = Some (Ok (mkBootstrap endpoint session config (ls_frame_key l) (ls_nonce_domain l)))) as Hb.
  { apply (bootstrap_round_trip (launch_values (ed_public (st_signing_key st)) cap tok l)); [|exact Hep].
    apply launch_values_ok; [done|]. by rewrite Hc. }
  assert (∀ t, now ≤ t < now + 120 → validate_claims session t = Ok tt) as Hclaims.
  { intros t0 Ht0. unfold session, token_metadata. rewrite Hc. by apply issued_claims_valid. }
  assert (can_view session = true) as Hview.
  { unfold can_view, has_permission. cbn [session cs_capability cap cap_signed cap_permissions build_capability].
    by rewrite Hg. }
  eexists. split; [exact Hb|]. split; [by intros server; apply pinned_trusts|]. split.
  - intros e. rewrite (run_configured_connects _ _ _ _ _ _ _ _ _ _ (environment_of_set _) Hb
      (fresh_session_calls _ _ _ _ _ config _ _ _ _ _ _ _ _ _ Hview (Hclaims t Ht) (lo_stream _ Hl))). done.
  - destruct (fresh_session_connects _ _ _ _ _ config (ls_frame_key l) (ls_nonce_domain l) id t t' c hwnd dec Hview
      (Hclaims t Ht) (Hclaims t' Ht') (lo_stream _ Hl) Hm Hh) as (rt & Hrt & Es).
    exists rt. rewrite Es. do 4 (split; [done|]). intros rounds stopped.
    by rewrite (run_configured_connects _ _ _ _ _ _ _ _ _ _ (environment_of_set _) Hb Hrt).
Qed.
End launch.

(** ** A concrete launch *)

#[local] Existing Instance toy_ed25519.
#[local] Existing Instance toy_aead.
#[local] Existing Instance countable_input.
#[local] Instance launch_cursor_prost : Prost CursorPosition := {|
  prost_encode _ := []; prost_decode _ := None |}.
#[local] Instance launch_shape_prost : Prost CursorShape := {|
  prost_encode _ := []; prost_decode _ := None |}.
#[local] Existing Instance toy_quic.

Definition sample_setup : LaunchSetup :=
  mkLaunchSetup [x30; x82] 1920 1080 (mkVideoStreamConfig 1280 720) (replicate 32 x01) 7.

#[local] Instance launch_capability_prost : Prost SessionCapability := countable_prost _.
Lemma authorised_client_connects_witness :
  ∃ resp st' cap endpoint, toy_request = Some (Ok resp, st') ∧ prost_decode (sa_capability_bytes resp) = Some cap ∧
    run_configured (D := unit)
      (environment_of (launch_values (ed_public [x09]) cap (sa_client_relay_token resp) sample_setup))
      sample_configuration false (mkConnectAttempt false 20 (Connect_Failed Conn_TimedOut) 21 false) false 7 (Ok tt) []
      false = Some (Err (Boot_Runtime (Runtime_Transport Conn_TimedOut)),
        Some (endpoint, sample_configuration)) ∧
    ∀ server, trusts endpoint server = true ↔ ep_identity server = Some [x30; x82].
Proof.
  assert (match toy_request with Some (Ok _, _) => true | _ => false end = true) as Hok
    by (vm_compute; reflexivity).
  destruct toy_request as [[[resp|] st']|] eqn:E; try discriminate Hok.
  destruct (@authorised_client_connects unit unit _ tt (λ _, tt) toy_ed25519 toy_ed25519_laws
    launch_capability_prost (countable_prost_laws _) toy_blake3 (countable_json_de _) (countable_json _)
    (countable_json _) _ toy_aead countable_input launch_cursor_prost launch_shape_prost toy_quic Debug sample_state st'
    sample_request 16 (replicate 16 x0a) (replicate 16 x0b) Db_works Db_works Db_works resp sample_setup
    sample_configuration 20 1 21 false 7 tt ltac:(reflexivity) ltac:(cbv; intuition discriminate)
    ltac:(split; cbv; intuition discriminate) ltac:(cbv; intuition discriminate) ltac:(reflexivity) E
    ltac:(split; cbv; intuition discriminate) ltac:(reflexivity) ltac:(reflexivity) ltac:(reflexivity) ltac:(reflexivity) ltac:(lia) ltac:(lia) ltac:(lia))
    as (cap & H1 & H2 & b & H3 & H4 & H5 & H6).
  exists resp, st', cap, (bs_endpoint b). split; [reflexivity|].
  exact (conj H1 (conj (H5 Conn_TimedOut) H4)).
Defined.
