(* ===== verification/RelayStreams.v ===== *)
(** * The traffic of a relayed session (apps/nexus-relay/src/forwarder.rs)

    [forward_session] runs two tasks over one shared session: [forward_streams], whose two
    accept loops open a stream on the other connection for every stream they accept and
    spawn a bridge for the pair, and [forward_datagrams], whose two loops forward
    datagrams.  Bridges are tasks of their own that outlive the loops.  The tasks
    interleave; a step takes one of them from an await to the next. *)

From S2P Require Import Prelude Common Crypto Relay RelayForward.

Open Scope Z_scope.

(** Where an accept loop stands: waiting for a stream, waiting for the stream it opens on
    the other connection, or ended. *)
Inductive AcceptLoop := Loop_Accepting | Loop_Opening (accepted : RecvStream) | Loop_Ended.

(** A spawned bridge, with the streams it reads. *)
Record BridgeTask := mkBridgeTask { bt_accepted : RecvStream; bt_opened : RecvStream; bt_bridge : Bridge }.

(** [fw_datagrams] is whether the datagram loop from an endpoint runs; [fw_read] and
    [fw_sent] are the datagrams read and sent on, by the endpoint they come from. *)
Record Forwarding := mkForwarding {
  fw_session : RelaySession;
  fw_loop : EndpointRole → AcceptLoop;
  fw_bridges : list BridgeTask;
  fw_datagrams : EndpointRole → bool;
  fw_read : EndpointRole → list bytes;
  fw_sent : EndpointRole → list bytes;
  fw_closed : bool
}.
Definition at_role {A} (r : EndpointRole) (x : A) (f : EndpointRole → A) : EndpointRole → A := λ r',
  if decide (r' = r) then x else f r'.

Definition Forwarding_new (session : RelaySession) : Forwarding :=
  mkForwarding session (λ _, Loop_Accepting) [] (λ _, true) (λ _, []) (λ _, []) false.

Definition fw_set_loop (f : Forwarding) (r : EndpointRole) (l : AcceptLoop) : Forwarding :=
  mkForwarding (fw_session f) (at_role r l (fw_loop f)) (fw_bridges f) (fw_datagrams f) (fw_read f) (fw_sent f)
    (fw_closed f).

(** A loop accepts a stream ([None]: an error), opens its counterpart ([None]: an error);
    a copy of a bridge takes a turn; a datagram is read and sent, or reading fails; a
    connection is closed. *)
Inductive ForwardStep :=
  | Fwd_Accept (role : EndpointRole) (stream : option RecvStream)
  | Fwd_Open (role : EndpointRole) (stream : option RecvStream)
  | Fwd_Copy (i : nat) (turn : BridgeTurn)
  | Fwd_Datagram (role : EndpointRole) (dgram : bytes) (send : SendDatagram)
  | Fwd_DatagramsEnd (role : EndpointRole)
  | Fwd_Closed.

(** [forward_streams]: an accept loop. *)
Definition forward_streams (f : Forwarding) (role : EndpointRole) (stream : option RecvStream) : option Forwarding :=
  match fw_loop f role with
  | Loop_Accepting =>
      Some (fw_set_loop f role (match stream with Some s => Loop_Opening s | None => Loop_Ended end))
  | Loop_Opening accepted =>
      match stream with
      | Some opened =>
          let task := mkBridgeTask accepted opened (bridge_bistreams accepted opened (fw_session f) role) in
          let f := fw_set_loop f role Loop_Accepting in
          Some (mkForwarding (fw_session f) (fw_loop f) (fw_bridges f ++ [task]) (fw_datagrams f) (fw_read f)
                  (fw_sent f) (fw_closed f))
      | None => Some (fw_set_loop f role Loop_Ended)
      end
  | Loop_Ended => None
  end.

(** [forward_datagrams]: one turn of a loop. *)
Definition forward_datagrams (f : Forwarding) (role : EndpointRole) (dgram : bytes) (send : SendDatagram) :
    option Forwarding :=
  if negb (fw_datagrams f role) then None else
  let '(session, sent, continue) := forward_datagram role (fw_session f) dgram send in
  Some (mkForwarding session (fw_loop f) (fw_bridges f) (at_role role continue (fw_datagrams f))
    (at_role role (fw_read f role ++ [dgram]) (fw_read f))
    (at_role role (fw_sent f role ++ match sent with Some b => [b] | None => [] end) (fw_sent f)) (fw_closed f)).

(** A bridge works on the session all tasks share. *)
Definition bridge_shared (session : RelaySession) (b : Bridge) (turn : BridgeTurn) : Bridge :=
  bridge_step (mkBridge session (br_initiator b) (br_to_peer b) (br_to_client b)) turn.

Definition forward_step (f : Forwarding) (step : ForwardStep) : option Forwarding :=
  match step with
  | Fwd_Accept role stream =>
      match fw_loop f role with Loop_Accepting => forward_streams f role stream | _ => None end
  | Fwd_Open role stream =>
      match fw_loop f role with Loop_Opening _ => forward_streams f role stream | _ => None end
  | Fwd_Copy i turn =>
      task ← fw_bridges f !! i;
      let b := bridge_shared (fw_session f) (bt_bridge task) turn in
      Some (mkForwarding (br_session b) (fw_loop f)
        (<[i := mkBridgeTask (bt_accepted task) (bt_opened task) b]> (fw_bridges f)) (fw_datagrams f) (fw_read f)
        (fw_sent f) (fw_closed f))
  | Fwd_Datagram role dgram send => forward_datagrams f role dgram send
  | Fwd_DatagramsEnd role =>
      if fw_datagrams f role
      then Some (mkForwarding (fw_session f) (fw_loop f) (fw_bridges f) (at_role role false (fw_datagrams f)) (fw_read f)
                   (fw_sent f) (fw_closed f))
      else None
  | Fwd_Closed =>
      if fw_closed f then None else
      Some (mkForwarding (RelaySession_terminate (fw_session f)) (λ _, Loop_Ended) (fw_bridges f) (λ _, false) (fw_read f)
              (fw_sent f) true)
  end.
Fixpoint forward_run (f : Forwarding) (steps : list ForwardStep) : option Forwarding :=
  match steps with
  | [] => Some f
  | step :: steps => f ← forward_step f step; forward_run f steps
  end.

(** ** What is forwarded *)

(** The direction of a bridge that carries what [role] sends. *)
Definition sent_by (role : EndpointRole) (b : Bridge) : Direction :=
  if decide (role = br_initiator b) then br_to_peer b else br_to_client b.
Definition stream_bytes (role : EndpointRole) (tasks : list BridgeTask) : Z :=
  foldr (λ t n, counted (sent_by role (bt_bridge t)) + n) 0 tasks.
Definition datagram_bytes (l : list bytes) : Z := foldr (λ b n, len b + n) 0 l.

#[local] Arguments datagram_bytes : simpl never.
#[local] Arguments stream_bytes : simpl never.

Lemma foldr_sum_app {A} (g : A → Z) l1 l2 :
  foldr (λ t n, g t + n) 0 (l1 ++ l2) = foldr (λ t n, g t + n) 0 l1 + foldr (λ t n, g t + n) 0 l2.
Proof. induction l1 as [|x l1 IH]; cbn; lia. Qed.
Lemma foldr_sum_insert {A} (g : A → Z) l i x y :
  l !! i = Some x →
  foldr (λ t n, g t + n) 0 (<[i := y]> l) = foldr (λ t n, g t + n) 0 l + (g y - g x).
Proof.
  revert i. induction l as [|z l IH]; intros [|i] E; simplify_eq/=; [lia|]. rewrite (IH _ E). lia.
Qed.

(** One turn of a bridge, with what it adds to the counters of the shared session. *)
Lemma bridge_shared_spec accepted opened session b turn :
  copied accepted (br_to_peer b) → copied opened (br_to_client b) →
  (∀ r, 0 ≤ forwarded_bytes session r < 2 ^ 64) →
  let b' := bridge_shared session b turn in
  copied accepted (br_to_peer b') ∧ copied opened (br_to_client b') ∧ br_initiator b' = br_initiator b ∧
  ∀ r, forwarded_bytes (br_session b') r =
    wrap 64 (forwarded_bytes session r + (counted (sent_by r b') - counted (sent_by r b))).
Proof.
  intros Ha Ho Hs. assert (∀ r n, forwarded_bytes session r = wrap 64 (forwarded_bytes session r - n + n)) as Hw.
  { intros r n. rewrite Z.sub_add. unfold wrap. by rewrite Z.mod_small. }
  assert (∀ r, wrap 64 (forwarded_bytes session r + 0) = forwarded_bytes session r) as H0.
  { intros r. rewrite Z.add_0_r. unfold wrap. by rewrite Z.mod_small. }
  unfold bridge_shared. destruct turn as [w|w]; cbn [bridge_step br_initiator br_session br_to_peer br_to_client].
  - destruct (copy_step _ _ _ _) as [s' d'] eqn:E.
    destruct (copy_step_spec _ _ _ _ _ _ _ _ Ha (Hw _ (counted (br_to_peer b))) E) as (Hd & Fd & Fo & _).
    split_and!; [done..|]. intros r. unfold sent_by. cbn. destruct (decide (r = br_initiator b)) as [->|Hr].
    + rewrite Fd. f_equal. lia.
    + replace r with (EndpointRole_peer (br_initiator b)) by (by destruct r, (br_initiator b)).
      by rewrite Fo, Z.sub_diag, H0.
  - destruct (copy_step _ _ _ _) as [s' d'] eqn:E.
    destruct (copy_step_spec _ _ _ _ _ _ _ _ Ho (Hw _ (counted (br_to_client b))) E) as (Hd & Fd & Fo & _).
    split_and!; [done..|]. intros r. unfold sent_by. cbn. destruct (decide (r = br_initiator b)) as [->|Hr].
    + rewrite EndpointRole_peer_involutive in Fo. by rewrite Fo, Z.sub_diag, H0.
    + replace r with (EndpointRole_peer (br_initiator b)) by (by destruct r, (br_initiator b)).
      rewrite Fd. f_equal. lia.
Qed.

(** ** The invariant *)

Record forwarding_ok (s : RelaySession) (f : Forwarding) : Prop := {
  fo_copied : Forall (λ t, copied (bt_accepted t) (br_to_peer (bt_bridge t)) ∧
    copied (bt_opened t) (br_to_client (bt_bridge t))) (fw_bridges f);
  fo_bytes : ∀ r, forwarded_bytes (fw_session f) r =
    wrap 64 (forwarded_bytes s r + stream_bytes r (fw_bridges f) + datagram_bytes (fw_read f r));
  fo_datagrams : ∀ r, fw_sent f r `sublist_of` fw_read f r;
  fo_closed : fw_closed f = true → rs_terminated (fw_session f) = true ∧
    ∀ r, fw_loop f r = Loop_Ended ∧ fw_datagrams f r = false
}.

Lemma wrap_range n : 0 ≤ wrap 64 n < 2 ^ 64.
Proof. unfold wrap. apply Z.mod_pos_bound. lia. Qed.
Lemma wrap_add a b : wrap 64 (wrap 64 a + b) = wrap 64 (a + b).
Proof. unfold wrap. by rewrite Z.add_mod_idemp_l by lia. Qed.
Lemma record_forward_bytes s role n r :
  (∀ r, 0 ≤ forwarded_bytes s r < 2 ^ 64) →
  forwarded_bytes (RelaySession_record_forward s role n) r =
    wrap 64 (forwarded_bytes s r + if decide (r = role) then n else 0).
Proof.
  intros Hs. destruct (record_forwarded s role n) as [E1 E2]. case_decide as E; [by subst|].
  replace r with (EndpointRole_peer role) by (by destruct r, role). rewrite E2, Z.add_0_r. unfold wrap. by rewrite Z.mod_small.
Qed.
Lemma bridge_shared_terminated session b turn : rs_terminated (br_session (bridge_shared session b turn)) = rs_terminated session.
Proof.
  unfold bridge_shared. destruct turn; cbn; destruct (copy_step _ _ _ _) as [s' d'] eqn:E; cbn;
    revert E; unfold copy_step; repeat case_match; intros; simplify_eq; done.
Qed.

Lemma fw_set_loop_ok s f r l : fw_closed f = false → forwarding_ok s f → forwarding_ok s (fw_set_loop f r l).
Proof. intros Hc [Hb Hy Hd _]. split; cbn; [done..|]. by rewrite Hc. Qed.
Lemma loop_open s f r : forwarding_ok s f → fw_loop f r ≠ Loop_Ended → fw_closed f = false.
Proof. intros [_ _ _ Hc] Hl. destruct (fw_closed f); [|done]. destruct (Hc eq_refl) as [_ H]. by destruct (H r). Qed.

Lemma forward_streams_ok s f role stream f' :
  forwarding_ok s f → forward_streams f role stream = Some f' → forwarding_ok s f'.
Proof.
  intros Hf. unfold forward_streams. destruct (fw_loop f role) as [|accepted|] eqn:El; [| |done].
  - intros [= <-]. apply fw_set_loop_ok; [|done]. eapply loop_open; [done|by rewrite El].
  - pose proof (loop_open s f role Hf) as Hc. rewrite El in Hc. specialize (Hc ltac:(done)).
    destruct stream as [opened|]; intros [= <-]; [|by apply fw_set_loop_ok].
    destruct Hf as [Hb Hy Hd _]. split; cbn; [|intros r|done|by rewrite Hc].
    + apply Forall_app. split; [done|]. apply Forall_singleton. by split.
    + assert (counted (sent_by r (bridge_bistreams accepted opened (fw_session f) role)) = 0) as E0.
      { unfold sent_by. by case_decide. }
      rewrite Hy. f_equal. unfold stream_bytes, datagram_bytes. rewrite foldr_sum_app. cbn [foldr bt_bridge]. rewrite E0. lia.
Qed.

Lemma forward_datagrams_ok s f role dgram send f' :
  forwarding_ok s f → forward_datagrams f role dgram send = Some f' → forwarding_ok s f'.
Proof.
  intros [Hb Hy Hd Hc]. unfold forward_datagrams. destruct (fw_datagrams f role) eqn:Ed; [|done]. intros [= <-].
  split; cbn; [done|intros r|intros r|].
  - rewrite record_forward_bytes by (intros r'; rewrite Hy; apply wrap_range). rewrite Hy, wrap_add. f_equal.
    unfold at_role, datagram_bytes. case_decide as Er; [subst|lia]. rewrite foldr_sum_app. cbn. lia.
  - unfold at_role. case_decide as Er; [subst|done]. destruct send; cbn; rewrite ?app_nil_r;
      [by apply sublist_app|by apply sublist_inserts_r..].
  - intros E. destruct (Hc E) as [_ H]. destruct (H role). congruence.
Qed.

Lemma forward_copy_ok s f i turn f' :
  forwarding_ok s f → forward_step f (Fwd_Copy i turn) = Some f' → forwarding_ok s f'.
Proof.
  intros [Hb Hy Hd Hc] (task & Et & [= <-])%bind_Some.
  pose proof (proj1 (Forall_lookup _ _) Hb i task Et) as [Ha Ho].
  destruct (bridge_shared_spec _ _ (fw_session f) (bt_bridge task) turn Ha Ho) as (Ha' & Ho' & _ & F).
  { intros r. rewrite Hy. apply wrap_range. }
  split; cbn; [|intros r|done|].
  - apply Forall_insert; [done|by split].
  - rewrite F, Hy, wrap_add. f_equal. unfold stream_bytes.
    rewrite (foldr_sum_insert (λ t, counted (sent_by r (bt_bridge t))) _ _ _ _ Et). cbn. lia.
  - intros E. destruct (Hc E) as [? ?]. by rewrite bridge_shared_terminated.
Qed.

Lemma forward_step_ok s f step f' : forwarding_ok s f → forward_step f step = Some f' → forwarding_ok s f'.
Proof.
  intros Hf. destruct step as [role stream|role stream|i turn|role dgram send|role|];
    [cbn; destruct (fw_loop f role); try done; by apply forward_streams_ok..|by apply forward_copy_ok
    |by apply forward_datagrams_ok| |]; cbn.
  - destruct (fw_datagrams f role) eqn:Ed; [|done]. intros [= <-]. destruct Hf as [Hb Hy Hd Hc]. split; cbn; try done.
    intros E. destruct (Hc E) as [_ H]. destruct (H role). congruence.
  - destruct (fw_closed f); [done|]. intros [= <-]. by destruct Hf as [Hb Hy Hd _].
Qed.
Lemma forward_run_ok s steps f f' : forwarding_ok s f → forward_run f steps = Some f' → forwarding_ok s f'.
Proof.
  revert f. induction steps as [|step steps IH]; intros f Hf; cbn; [by intros [= <-]|].
  intros (f1 & E & H)%bind_Some. eapply IH; [|done]. by eapply forward_step_ok.
Qed.

Lemma forwarding_new_ok s : (∀ r, 0 ≤ forwarded_bytes s r < 2 ^ 64) → forwarding_ok s (Forwarding_new s).
Proof.
  intros Hs. split; cbn; [constructor|intros r|done|done]. unfold stream_bytes, datagram_bytes. cbn.
  rewrite !Z.add_0_r. unfold wrap. by rewrite Z.mod_small.
Qed.

(** C13. The traffic of a paired session, for every interleaving of its accept loops, its
    bridges and its datagram loops.  Over every bridged stream, what a side was sent is the
    beginning of what the other side sent, and a finished copy has sent all of it, whatever
    the other streams do; the datagrams sent on are among those read, in order and
    unaltered.  The byte counters of the session, which all the tasks share, hold exactly
    the bytes of the completed writes of the bridges and of the datagrams read from each
    endpoint.  Once a connection was closed the session is terminated, and only the bridges
    still running can move: no stream, no datagram is taken any more. *)
Theorem relay_traffic s steps f :
  (∀ r, 0 ≤ forwarded_bytes s r < 2 ^ 64) → forward_run (Forwarding_new s) steps = Some f →
  Forall (λ t, copied (bt_accepted t) (br_to_peer (bt_bridge t)) ∧ copied (bt_opened t) (br_to_client (bt_bridge t)))
    (fw_bridges f) ∧
  (∀ r, fw_sent f r `sublist_of` fw_read f r ∧ forwarded_bytes (fw_session f) r =
     wrap 64 (forwarded_bytes s r + stream_bytes r (fw_bridges f) + datagram_bytes (fw_read f r))) ∧
  (fw_closed f = true → rs_terminated (fw_session f) = true ∧
     ∀ step f', forward_step f step = Some f' → ∃ i turn, step = Fwd_Copy i turn).
Proof.
  intros Hs Hrun. apply (forward_run_ok s) in Hrun as [Hb Hy Hd Hc]; [|by apply forwarding_new_ok].
  split_and!; [done|by intros; split|]. intros E. destruct (Hc E) as [Ht Hl]. split; [done|].
  intros [role stream|role stream|i turn|role dgram send|role|] f'; cbn; unfold forward_datagrams;
    try (destruct (Hl role) as [Hr1 Hr2]; rewrite ?Hr1, ?Hr2; done); [eauto|by rewrite E].
Qed.

(** Both endpoints open a stream, the host sends two datagrams of which one is dropped, and
    the client leaves. *)
Definition sample_forward_steps : list ForwardStep :=
  [Fwd_Accept Role_Client (Some (mkRecvStream [[x01; x02]; [x03]] End_Finished));
   Fwd_Accept Role_Host (Some (mkRecvStream [[x07]] End_Finished));
   Fwd_Open Role_Host (Some (mkRecvStream [] End_Finished));
   Fwd_Open Role_Client (Some (mkRecvStream [[x04]; [x05; x06]] End_Finished));
   Fwd_Copy 1 (Turn_ToPeer None); Fwd_Copy 0 (Turn_ToPeer None); Fwd_Datagram Role_Host [x08; x09] Datagram_Sent;
   Fwd_Copy 1 (Turn_ToClient None); Fwd_Copy 1 (Turn_ToPeer None); Fwd_Datagram Role_Host [x0a] Datagram_Dropped;
   Fwd_Copy 1 (Turn_ToPeer None); Fwd_Closed; Fwd_Copy 1 (Turn_ToClient (Some 1%nat))].
Lemma relay_traffic_witness :
  ∃ f, forward_run (Forwarding_new sample_relay_session) sample_forward_steps = Some f ∧
    rs_terminated (fw_session f) = true ∧ fw_sent f Role_Host = [[x08; x09]] ∧
    forwarded_bytes (fw_session f) Role_Client = 3 ∧ forwarded_bytes (fw_session f) Role_Host = 1 + 1 + 3.
Proof.
  destruct (forward_run (Forwarding_new sample_relay_session) sample_forward_steps) as [f|] eqn:E;
    [|vm_compute in E; discriminate E].
  destruct (relay_traffic sample_relay_session sample_forward_steps f) as (_ & H2 & H3);
    [intros []; cbn; lia|exact E|].
  exists f. split; [reflexivity|]. split; [|split; [|split]].
  - apply H3. vm_compute in E. injection E as <-. reflexivity.
  - vm_compute in E. injection E as <-. reflexivity.
  - rewrite (proj2 (H2 Role_Client)). vm_compute in E. injection E as <-. reflexivity.
  - rewrite (proj2 (H2 Role_Host)). vm_compute in E. injection E as <-. reflexivity.
Defined.
