(* ===== verification/RelayRun.v ===== *)
(** * Running the relay (apps/nexus-relay/src/server.rs)

    The TLS and transport configurations of the relay and its clients, binding, the accept
    loop of [run], and [shutdown].  What rcgen, rustls, quinn and the sockets answer is the
    parameter of Quic; the connection tasks are those of RelayServer. *)

From S2P Require Import Prelude Common Protocol Enrollment Storage Crypto Relay RelayForward RelayServer Quic.

Open Scope Z_scope.

(** ** Endpoints *)

(** [datagram_send_buffer_size] is set besides what the transport of Quic sets. *)
Record RelayTransport := mkRelayTransport { rl_limits : TransportConfig; rl_datagram_send_buffer_size : Z }.
Definition default_transport_config : option RelayTransport :=
  t ← idle_timeout_of (Duration_from_secs 30);
  Some (mkRelayTransport (mkTransportConfig (Some t) (Some (64 * 1024))) (64 * 1024)).

Record ServerConfig := mkServerConfig { sc_cert_chain : list bytes; sc_key : bytes; sc_transport : RelayTransport }.
Record ClientConfig := mkClientConfig { cl_roots : list bytes; cl_client_auth : bool; cl_transport : RelayTransport }.
Record RelayEndpoint := mkRelayEndpoint {
  re_addr : string; re_server : option ServerConfig; re_client : option ClientConfig
}.

(** The texts of the libraries' errors. *)
Class QuicTexts := {
  certificate_text : string; server_tls_text : string; root_text : string; client_tls_text : string;
  bind_text : string
}.

Section endpoints.
Context `{QuicStack, QuicTexts}.

(** [None] is a panic. *)
Definition generate_self_signed_server_config (subject_alt_names : list string) :
    option (result RelayServerError (ServerConfig * bytes)) :=
  let san := match subject_alt_names with [] => ["localhost"] | l => l end in
  match generate_self_signed san with
  | None => Some (Err (Server_Certificate certificate_text))
  | Some (cert_der, key_der) =>
      if negb (server_config_accepts cert_der key_der) then Some (Err (Server_Tls server_tls_text)) else
      transport ← default_transport_config;
      Some (Ok (mkServerConfig [cert_der] key_der transport, cert_der))
  end.

Definition make_client_config (server_cert : bytes) : option (result RelayServerError ClientConfig) :=
  if negb (root_store_accepts server_cert) then Some (Err (Server_Tls root_text)) else
  let roots := [server_cert] in
  if negb (client_config_accepts roots) then Some (Err (Server_Tls client_tls_text)) else
  transport ← default_transport_config;
  Some (Ok (mkClientConfig roots false transport)).

Definition relay_client_endpoint (bind_addr : string) (server_cert : bytes) :
    option (result RelayServerError RelayEndpoint) :=
  client_config ← make_client_config server_cert;
  Some (client_config ← client_config;
        if negb (client_binds bind_addr) then Err (Server_Io bind_text) else
        Ok (mkRelayEndpoint bind_addr None (Some client_config))).

(** A bound server: its endpoint, the verifier of its tokens, the certificate it made. *)
Record BoundRelay := mkBoundRelay {
  bo_endpoint : RelayEndpoint; bo_verifier : RelayTokenVerifier; bo_cert_der : option bytes;
  bo_server : RelayServer
}.
Definition with_server_config (bind_addr : string) (verifier : RelayTokenVerifier) (server_config : ServerConfig)
    (cert_der : option bytes) : result RelayServerError BoundRelay :=
  if negb (server_binds bind_addr) then Err (Server_Io bind_text) else
  Ok (mkBoundRelay (mkRelayEndpoint bind_addr (Some server_config) None) verifier cert_der RelayServer_new).
Definition RelayServer_bind (bind_addr : string) (verifier : RelayTokenVerifier) :
    option (result RelayServerError BoundRelay) :=
  generated ← generate_self_signed_server_config ["localhost"];
  Some ('(server_config, cert_der) ← generated;
        with_server_config bind_addr verifier server_config (Some cert_der)).

(** A relay that binds presents the certificate it hands out, and an endpoint made from
    that certificate trusts it and nothing else; neither call panics. *)
Theorem relay_endpoints_pinned bind_addr verifier client_addr :
  ∃ r, RelayServer_bind bind_addr verifier = Some r ∧
  ∀ relay, r = Ok relay →
    bo_server relay = RelayServer_new ∧ bo_verifier relay = verifier ∧
    ∃ cert config, bo_cert_der relay = Some cert ∧ re_server (bo_endpoint relay) = Some config ∧
      sc_cert_chain config = [cert] ∧ rl_datagram_send_buffer_size (sc_transport config) = 65536 ∧
      ∃ c, relay_client_endpoint client_addr cert = Some c ∧
      ∀ endpoint, c = Ok endpoint → ∃ client, re_client endpoint = Some client ∧ cl_roots client = [cert] ∧
        cl_client_auth client = false ∧ cl_transport client = sc_transport config.
Proof.
  unfold RelayServer_bind, generate_self_signed_server_config.
  destruct (generate_self_signed _) as [[cert key]|]; [|eexists; split; [reflexivity|done]].
  destruct (server_config_accepts cert key); [|eexists; split; [reflexivity|done]]. cbn.
  eexists. split; [reflexivity|]. unfold with_server_config. destruct (server_binds bind_addr); [|done].
  intros relay [= <-]. cbn. split_and!; [done..|]. eexists _, _. split_and!; [done..|].
  unfold relay_client_endpoint, make_client_config.
  destruct (root_store_accepts cert); [|eexists; split; [reflexivity|done]].
  destruct (client_config_accepts [cert]); [|eexists; split; [reflexivity|done]]. cbn.
  eexists. split; [reflexivity|]. intros endpoint. destruct (client_binds client_addr); [|done].
  intros [= <-]. by eexists.
Qed.
End endpoints.

(** ** The accept loop *)

(** Where [run] stands. *)
Inductive RunState := Run_Idle | Run_Looping | Run_Returned (r : result RelayServerError unit).

(** [rr_incoming]: the connections whose QUIC handshake is under way; [rr_closed]: the
    endpoint was closed; [rr_woken]: the notification of [shutdown] reached the waiting
    loop.  [notify_waiters] wakes a loop that is waiting and is not kept for one that will. *)
Record RelayRun := mkRelayRun {
  rr_server : RelayServer; rr_main : RunState; rr_incoming : gset nat; rr_closed : bool; rr_woken : bool
}.
Definition RelayRun_new : RelayRun := mkRelayRun RelayServer_new Run_Idle ∅ false false.

(** [run] is called, with what [local_addr] answers; a connection comes in; [accept]
    answers that the endpoint is closed; the notification is seen; the handshake of a
    connection succeeds or fails; a connection is lost; a task moves; [shutdown]. *)
Inductive RunStep :=
  | Rr_Run (local_addr : result string string)
  | Rr_Incoming (c : nat)
  | Rr_AcceptNone
  | Rr_Notified
  | Rr_Established (c : nat) (ok : bool)
  | Rr_Lost (c : nat)
  | Rr_Task (c : nat) (i : TaskInput)
  | Rr_Shutdown.

(** Closing the endpoint closes all its connections. *)
Definition close_all (sv : RelayServer) : RelayServer :=
  mkRelayServer (sv_table sv) (sv_log sv) (sv_waiting sv) (sv_channels sv) (dom (sv_tasks sv) ∪ sv_closed sv)
    (sv_tasks sv) (sv_presented sv) (sv_responses sv) (sv_delivered sv).

Section run.
Context `{QuinnText, Ed25519}.
Context `{SerdeJsonDe RelayHandshakeRequest, SerdeJsonDe RelayToken}.
Variable verifier : RelayTokenVerifier.

Definition rr_with (r : RelayRun) (sv : RelayServer) : RelayRun :=
  mkRelayRun sv (rr_main r) (rr_incoming r) (rr_closed r) (rr_woken r).
Definition rr_return (r : RelayRun) (x : result RelayServerError unit) : RelayRun :=
  mkRelayRun (rr_server r) (Run_Returned x) (rr_incoming r) (rr_closed r) (rr_woken r).

Definition relay_shutdown (r : RelayRun) : RelayRun :=
  mkRelayRun (close_all (rr_server r)) (rr_main r) (rr_incoming r) true
    (rr_woken r || match rr_main r with Run_Looping => true | _ => false end).

(** On a closed endpoint no connection comes in and no handshake succeeds. *)
Definition relay_run_step (r : RelayRun) (step : RunStep) : option RelayRun :=
  match step, rr_main r with
  | Rr_Run (Ok _), Run_Idle => Some (mkRelayRun (rr_server r) Run_Looping (rr_incoming r) (rr_closed r) (rr_woken r))
  | Rr_Run (Err text), Run_Idle => Some (rr_return r (Err (Server_Io text)))
  | Rr_Incoming c, Run_Looping =>
      if rr_closed r || bool_decide (c ∈ rr_incoming r) || bool_decide (is_Some (sv_tasks (rr_server r) !! c))
      then None
      else Some (mkRelayRun (rr_server r) Run_Looping ({[c]} ∪ rr_incoming r) (rr_closed r) (rr_woken r))
  | Rr_AcceptNone, Run_Looping => if rr_closed r then Some (rr_return r (Ok tt)) else None
  | Rr_Notified, Run_Looping => if rr_woken r then Some (rr_return r (Ok tt)) else None
  | Rr_Established c ok, _ =>
      if negb (bool_decide (c ∈ rr_incoming r)) || (ok && rr_closed r) then None else
      let r := mkRelayRun (rr_server r) (rr_main r) (rr_incoming r ∖ {[c]}) (rr_closed r) (rr_woken r) in
      if ok then rr_with r <$> server_step verifier (rr_server r) (Step_Accept c) else Some r
  | Rr_Lost c, _ => rr_with r <$> server_step verifier (rr_server r) (Step_Lost c)
  | Rr_Task c i, _ => rr_with r <$> server_step verifier (rr_server r) (Step_Task c i)
  | Rr_Shutdown, _ => Some (relay_shutdown r)
  | _, _ => None
  end.
Fixpoint relay_run (r : RelayRun) (steps : list RunStep) : option RelayRun :=
  match steps with
  | [] => Some r
  | step :: steps => r ← relay_run_step r step; relay_run r steps
  end.
End run.

(** ** Winding up *)

Definition phase_rank (p : Phase) : nat :=
  match p with
  | Phase_Accepting => 6 | Phase_Registered _ _ _ => 5 | Phase_Responding _ _ _ => 4
  | Phase_Waiting _ _ | Phase_Notifying _ => 3
  | Phase_Leaving _ | Phase_Handing _ _ | Phase_Forwarding _ _ _ _ _ _ => 2
  | Phase_Removing _ | Phase_Abandoning _ | Phase_Parked => 1
  | Phase_Done => 0
  end.
Definition carries_data (i : TaskInput) : bool :=
  match i with In_Datagram _ _ _ | In_Copied _ _ => true | _ => false end.
(** The steps that wind the relay up: all of a task's but the forwarding of data, the end
    of the loop, and the end of a handshake. *)
Definition winds_up (step : RunStep) : bool :=
  match step with
  | Rr_AcceptNone | Rr_Notified | Rr_Established _ _ => true
  | Rr_Task _ i => negb (carries_data i)
  | _ => false
  end.
(** A task that forwards does so for its own connection. *)
Definition own_forward (c : nat) (p : Phase) : Prop :=
  match p with Phase_Forwarding client host _ _ _ _ => c = client ∨ c = host | _ => True end.

Definition tasks_work (tasks : gmap nat Phase) : nat := map_fold (λ _ p n, phase_rank p + n)%nat 0%nat tasks.
Definition work (r : RelayRun) : nat :=
  (tasks_work (sv_tasks (rr_server r)) + size (rr_incoming r) +
   match rr_main r with Run_Returned _ => 0 | _ => 1 end)%nat.

Lemma tasks_work_delete tasks c p :
  tasks !! c = Some p → tasks_work tasks = (phase_rank p + tasks_work (delete c tasks))%nat.
Proof. intros E. unfold tasks_work. rewrite (map_fold_delete_L _ _ c p tasks); [done|intros; lia|done]. Qed.
Lemma tasks_work_insert tasks c p p' :
  tasks !! c = Some p →
  (tasks_work (<[c := p']> tasks) + phase_rank p = tasks_work tasks + phase_rank p')%nat.
Proof.
  intros E. rewrite (tasks_work_delete tasks c p E).
  rewrite (tasks_work_delete (<[c := p']> tasks) c p') by apply lookup_insert_eq. rewrite delete_insert_eq. lia.
Qed.

Section drain.
Context `{QuinnText, Ed25519}.
Context `{SerdeJsonDe RelayHandshakeRequest, SerdeJsonDe RelayToken}.
Variable verifier : RelayTokenVerifier.

(** A step of a task changes its own phase only, and moves it towards its end. *)
Lemma handle_connection_winds sv c phase input sv' :
  handle_connection verifier sv c phase input = Some sv' →
  ∃ phase', sv_tasks sv' = <[c := phase']> (sv_tasks sv) ∧ sv_closed sv ⊆ sv_closed sv' ∧
    (if carries_data input then phase_rank phase' = phase_rank phase else phase_rank phase' < phase_rank phase)%nat ∧
    (own_forward c phase → own_forward c phase').
Proof.
  destruct phase, input; cbn [handle_connection forward_session]; try done.
  all: intros E; repeat case_match; simplify_eq.
  all: try (apply bind_Some in E as ([? ?] & _ & E); repeat case_match; simplify_eq).
  all: try (eexists; split; [reflexivity|]; split; [cbn; set_solver|]; split; [cbn; lia|]; cbn; intuition; fail).
Qed.

(** A task of a closed connection can always go on. *)
Definition closing_input (p : Phase) : TaskInput :=
  match p with
  | Phase_Accepting => In_NoStream
  | Phase_Responding _ _ _ => In_Response false
  | Phase_Waiting _ _ | Phase_Parked | Phase_Forwarding _ _ _ _ _ _ => In_Closed
  | _ => In_Run
  end.
Lemma closing_enabled sv c p :
  c ∈ sv_closed sv → own_forward c p → p ≠ Phase_Done → is_Some (handle_connection verifier sv c p (closing_input p)).
Proof.
  intros Hc Ho Hp. destruct p as [|? ? paired| | | | | | | |client host ? ? ? ?| |]; [..|done]; cbn; try (by eexists); [by destruct paired; eexists|..].
  - rewrite bool_decide_true by done. by eexists.
  - case_match; [case_match|]; by eexists.
  - repeat case_match; by eexists.
  - destruct Ho as [<- | <-]; rewrite (bool_decide_true (c ∈ _)) by done; rewrite ?orb_true_r; by eexists.
  - rewrite bool_decide_true by done. by eexists.
Qed.

Record run_inv (r : RelayRun) : Prop := {
  ri_own : ∀ c p, sv_tasks (rr_server r) !! c = Some p → own_forward c p;
  ri_closed : rr_closed r = true → dom (sv_tasks (rr_server r)) ⊆ sv_closed (rr_server r)
}.

(** Once the endpoint is closed: no task starts, and the work left shrinks. *)
Definition draining (r r' : RelayRun) (step : RunStep) : Prop :=
  rr_closed r = true → rr_closed r' = true ∧ dom (sv_tasks (rr_server r')) = dom (sv_tasks (rr_server r)) ∧
    (if winds_up step then work r' < work r else work r' ≤ work r)%nat.

Lemma task_draining r c i sv' :
  run_inv r → server_step verifier (rr_server r) (Step_Task c i) = Some sv' →
  run_inv (rr_with r sv') ∧ draining r (rr_with r sv') (Rr_Task c i).
Proof.
  intros [Ho Hc] (p & Ep & (p' & Et & Hsub & Hr & Hown)%handle_connection_winds)%bind_Some.
  assert (dom (sv_tasks sv') = dom (sv_tasks (rr_server r))) as Hdom.
  { rewrite Et, dom_insert_L. apply elem_of_dom_2 in Ep. set_solver. }
  split; [split|]; cbn.
  - intros x q. rewrite Et. destruct (decide (c = x)) as [<-|Hx].
    + rewrite lookup_insert_eq. intros [= <-]. apply Hown, Ho, Ep.
    + rewrite lookup_insert_ne by done. apply Ho.
  - intros E. rewrite Hdom. etrans; [by apply Hc|done].
  - intros E. split_and!; [done..|]. unfold work. cbn. rewrite Et.
    pose proof (tasks_work_insert _ c p p' Ep). destruct (carries_data i); cbn; lia.
Qed.

Lemma run_step_draining r step r' :
  run_inv r → relay_run_step verifier r step = Some r' → run_inv r' ∧ draining r r' step.
Proof.
  intros Hinv. destruct step as [[a|a]|c| | |c ok|c|c i|]; cbn [relay_run_step].
  - destruct (rr_main r) eqn:Em; [|done..]. intros [= <-]. split; [by destruct Hinv|].
    intros E. split_and!; [done..|]. unfold work. cbn. rewrite Em. lia.
  - destruct (rr_main r) eqn:Em; [|done..]. intros [= <-]. split; [by destruct Hinv|].
    intros E. split_and!; [done..|]. unfold work. cbn. lia.
  - destruct (rr_main r) eqn:Em; [done| |done]. destruct (rr_closed r) eqn:Ec; [done|]. cbn.
    repeat case_match; [done|]. intros [= <-]. split; [by destruct Hinv|]. unfold draining. by rewrite Ec.
  - destruct (rr_main r) eqn:Em; [done| |done]. destruct (rr_closed r) eqn:Ec; [|done]. intros [= <-].
    split; [by destruct Hinv|]. intros E. split_and!; [done..|]. unfold work. cbn. rewrite Em. lia.
  - destruct (rr_main r) eqn:Em; [done| |done]. destruct (rr_woken r); [|done]. intros [= <-].
    split; [by destruct Hinv|]. intros E. split_and!; [done..|]. unfold work. cbn. rewrite Em. lia.
  - destruct (bool_decide_reflect (c ∈ rr_incoming r)) as [Hin|]; [|done]. cbn [negb orb].
    destruct ok; cbn [andb].
    + destruct (rr_closed r) eqn:Ec; [done|]. cbn [server_step rr_server].
      destruct (sv_tasks (rr_server r) !! c) eqn:Et; [done|]. intros [= <-]. split; [|unfold draining; by rewrite Ec].
      destruct Hinv as [Ho _]. split; cbn; [|done]. intros x q. destruct (decide (c = x)) as [<-|Hx].
      * rewrite lookup_insert_eq. by intros [= <-].
      * rewrite lookup_insert_ne by done. apply Ho.
    + intros [= <-]. split; [by destruct Hinv|]. intros E. split_and!; [done..|]. unfold work. cbn.
      assert ({[c]} ⊆ rr_incoming r) as Hs by set_solver. pose proof (subseteq_size _ _ Hs) as Hle.
      rewrite size_difference by done. rewrite size_singleton in *. lia.
  - intros [= <-]. destruct Hinv as [Ho Hc]. split; [split; cbn; [done|set_solver]|]. intros E. split_and!; [done..|].
    unfold work. cbn. lia.
  - intros (sv' & E & ->)%fmap_Some. by apply task_draining.
  - intros [= <-]. destruct Hinv as [Ho Hc]. split; [split; cbn; [done|set_solver]|]. intros E. split_and!; [done..|].
    unfold work. cbn. lia.
Qed.

Lemma run_draining steps r r' :
  run_inv r → relay_run verifier r steps = Some r' → run_inv r' ∧
  (rr_closed r = true → rr_closed r' = true ∧ dom (sv_tasks (rr_server r')) = dom (sv_tasks (rr_server r)) ∧
     (length (filter (λ s, winds_up s = true) steps) + work r' ≤ work r)%nat).
Proof.
  revert r. induction steps as [|step steps IH]; intros r Hr; cbn [relay_run].
  { intros [= <-]. split; [done|]. intros ->. split_and!; [done..|]. cbn. lia. }
  intros (r1 & E & H')%bind_Some. apply run_step_draining in E as [Hr1 Hd]; [|done].
  destruct (IH r1 Hr1 H') as [Hr' Hd']. split; [done|]. intros Ec. destruct (Hd Ec) as (Ec1 & D1 & W1).
  destruct (Hd' Ec1) as (Ec2 & D2 & W2). split_and!; [done|congruence|]. rewrite filter_cons.
  destruct (winds_up step); case_decide; try done; cbn [length]; lia.
Qed.
End drain.

Section shutdown.
Context `{QuinnText, Ed25519}.
Context `{SerdeJsonDe RelayHandshakeRequest, SerdeJsonDe RelayToken}.
Variable verifier : RelayTokenVerifier.

(** C14. Shutting the relay down.  Whenever [shutdown] was called, be it before [run] waits
    for the notification, which is then lost, no task starts any more, and whatever the
    tasks and the network do, only a bounded number of steps other than the forwarding of
    data is left; and when none of these can be taken, [run] is not looping, no handshake
    is under way and every connection task has ended. *)
Theorem relay_shutdown_drains steps r more r' :
  relay_run verifier RelayRun_new steps = Some r → rr_closed r = true → relay_run verifier r more = Some r' →
  dom (sv_tasks (rr_server r')) = dom (sv_tasks (rr_server r)) ∧
  (length (filter (λ s, winds_up s = true) more) ≤ work r)%nat ∧
  ((∀ step, winds_up step = true → relay_run_step verifier r' step = None) →
   rr_main r' ≠ Run_Looping ∧ rr_incoming r' = ∅ ∧
   ∀ c p, sv_tasks (rr_server r') !! c = Some p → p = Phase_Done).
Proof.
  intros E1 Ec E2. apply run_draining in E1 as [Hr _]; [|by split].
  apply run_draining in E2 as [[Ho Hc] Hd]; [|done]. destruct (Hd Ec) as (Ec' & Hdom & Hw).
  split_and!; [done|lia|]. intros Hstuck. split_and!.
  - intros Em. specialize (Hstuck Rr_AcceptNone eq_refl). cbn in Hstuck. by rewrite Em, Ec' in Hstuck.
  - apply set_eq. intros c. split; [|set_solver]. intros Hin. specialize (Hstuck (Rr_Established c false) eq_refl).
    cbn in Hstuck. by rewrite bool_decide_true in Hstuck.
  - intros c p Ep. destruct (decide (phase_rank p = 0%nat)) as [E0|E0]; [by destruct p|].
    assert (c ∈ sv_closed (rr_server r')) as Hcl by (apply (Hc Ec'), elem_of_dom; by eexists).
    destruct (closing_enabled verifier (rr_server r') c p Hcl (Ho c p Ep)) as [sv' Es]; [by intros ->|].
    specialize (Hstuck (Rr_Task c (closing_input p))). cbn [relay_run_step server_step winds_up] in Hstuck.
    rewrite Ep in Hstuck. cbn [mbind option_bind] in Hstuck. rewrite Es in Hstuck.
    by destruct p; specialize (Hstuck eq_refl).
Qed.

(** Every state of the running relay is one of the server's, so that what holds of those
    (pairing, authorisation) holds of the relay at any time. *)
Lemma close_run cs sv :
  server_run verifier sv (Step_Lost <$> cs) =
    Some (mkRelayServer (sv_table sv) (sv_log sv) (sv_waiting sv) (sv_channels sv) (list_to_set cs ∪ sv_closed sv)
      (sv_tasks sv) (sv_presented sv) (sv_responses sv) (sv_delivered sv)).
Proof.
  revert sv. induction cs as [|c cs IH]; intros sv; cbn.
  - destruct sv. cbn. by rewrite (left_id_L ∅ (∪)).
  - rewrite IH. cbn. do 2 f_equal. set_solver.
Qed.
Lemma server_run_app steps1 : ∀ sv steps2,
  server_run verifier sv (steps1 ++ steps2) = (sv ← server_run verifier sv steps1; server_run verifier sv steps2).
Proof.
  induction steps1 as [|step steps1 IH]; intros sv steps2; cbn; [done|]. destruct (server_step _ _ _); [apply IH|done].
Qed.
Theorem relay_run_refines steps r :
  relay_run verifier RelayRun_new steps = Some r →
  ∃ server_steps, server_run verifier RelayServer_new server_steps = Some (rr_server r).
Proof.
  assert (∀ steps r0, (∃ ss, server_run verifier RelayServer_new ss = Some (rr_server r0)) →
    relay_run verifier r0 steps = Some r → ∃ ss, server_run verifier RelayServer_new ss = Some (rr_server r)) as Hall.
  { clear steps. induction steps as [|step steps IH]; intros r0 [ss Hss]; cbn [relay_run]; [intros [= <-]; eauto|].
    intros (r1 & E & Hrest)%bind_Some. eapply IH; [|done].
    assert (∀ step sv', server_step verifier (rr_server r0) step = Some sv' →
      ∃ ss, server_run verifier RelayServer_new ss = Some sv') as Hone.
    { intros st sv' Es. exists (ss ++ [st]). rewrite server_run_app, Hss. cbn. by rewrite Es. }
    destruct step as [[a|a]|c| | |c ok|c|c i|]; cbn [relay_run_step] in E; repeat case_match; simplify_eq; cbn; eauto.
    all: try (apply fmap_Some in E as (sv' & Es & ->); cbn; by eapply Hone).
    exists (ss ++ (Step_Lost <$> elements (dom (sv_tasks (rr_server r0))))).
    rewrite server_run_app, Hss. cbn [mbind option_bind]. rewrite close_run. unfold close_all. by rewrite list_to_set_elements_L. }
  intros E. eapply Hall; [|done]. by exists [].
Qed.
End shutdown.

(** ** A concrete run *)

(** Two endpoints are paired and forward a datagram; a third one is in its handshake when
    the relay is shut down. *)
Definition sample_run_steps : list RunStep :=
  let task c i := Rr_Task c i in
  [Rr_Run (Ok "0.0.0.0:4433"); Rr_Incoming 0; Rr_Established 0 true; task 0%nat (In_Stream (toy_stream Role_Host) 10);
   task 0%nat In_Run; Rr_Incoming 1; task 0%nat (In_Response true); Rr_Established 1 true;
   task 1%nat (In_Stream (toy_stream Role_Client) 11); task 1%nat In_Run; task 1%nat (In_Response true);
   task 1%nat In_Run; task 1%nat In_Run; task 0%nat In_Received; Rr_Incoming 2;
   task 0%nat (In_Datagram Role_Client [x2a] Datagram_Sent); Rr_Shutdown].
Definition sample_drain_steps : list RunStep :=
  [Rr_Task 1 In_Closed; Rr_AcceptNone; Rr_Task 0 In_Closed; Rr_Established 2 false; Rr_Task 0 In_Run].

Lemma relay_shutdown_drains_witness :
  ∃ r r', @relay_run sample_quinn toy_ed25519 request_json_de token_json_de sample_relay_verifier RelayRun_new
      sample_run_steps = Some r ∧ rr_closed r = true ∧
    @relay_run sample_quinn toy_ed25519 request_json_de token_json_de sample_relay_verifier r sample_drain_steps =
      Some r' ∧
    (length (filter (λ s, winds_up s = true) sample_drain_steps) ≤ work r)%nat ∧
    dom (sv_tasks (rr_server r')) = dom (sv_tasks (rr_server r)) ∧
    sv_tasks (rr_server r') !! 0%nat = Some Phase_Done ∧ rr_main r' = Run_Returned (Ok tt).
Proof.
  destruct (@relay_run sample_quinn toy_ed25519 request_json_de token_json_de sample_relay_verifier RelayRun_new
    sample_run_steps) as [r|] eqn:E; [|vm_compute in E; discriminate E].
  assert (rr_closed r = true) as Hc by (vm_compute in E; injection E as <-; reflexivity).
  destruct (@relay_run sample_quinn toy_ed25519 request_json_de token_json_de sample_relay_verifier r
    sample_drain_steps) as [r'|] eqn:E'.
  2: { exfalso. vm_compute in E. injection E as <-. vm_compute in E'. discriminate E'. }
  destruct (@relay_shutdown_drains sample_quinn toy_ed25519 request_json_de token_json_de sample_relay_verifier
    sample_run_steps r sample_drain_steps r' E Hc E') as (H1 & H2 & _).
  exists r, r'. split; [reflexivity|]. split; [exact Hc|]. split; [exact E'|]. split; [exact H2|]. split; [exact H1|].
  vm_compute in E. injection E as <-. vm_compute in E'. injection E' as <-. split; reflexivity.
Defined.
