(* ===== verification/AuditSinks.v ===== *)
(** * Shared audit sinks and event builders (crates/nexus-audit/src/sink.rs, event.rs, chain.rs)

    Sinks are shared: a [MemoryAuditSink] is a handle to one list behind an [Arc], its
    clones are the same list, and a [BroadcastAuditSink] holds [Arc]s of sinks of any kind,
    broadcasts included.  Here a sink is a reference into a store; AuditLog has the sinks by
    value.  Then the two ways to make an event, and the accessors of a chain. *)

From S2P Require Import Prelude RustStr Common Crypto Enrollment AuditLog.

Open Scope Z_scope.

(** ** References to sinks *)

(** [Ref_Other] is a sink of another implementation. *)
Inductive SinkRef := Ref_Memory (a : nat) | Ref_Other (o : nat) | Ref_Broadcast (sinks : list SinkRef).

Section sinks.
Context {Event S : Type} `{AuditSink Event S}.

Record SinkStore := mkSinkStore { ss_memory : gmap nat (list Event); ss_others : gmap nat S }.

Definition memory_at (st : SinkStore) (a : nat) : list Event := default [] (ss_memory st !! a).
Definition set_memory (st : SinkStore) (a : nat) (l : list Event) : SinkStore :=
  mkSinkStore (<[a := l]> (ss_memory st)) (ss_others st).

(** [MemoryAuditSink::new] and the methods of its handles. *)
Definition memory_sink_new (st : SinkStore) (a : nat) : SinkStore := set_memory st a [].
Definition memory_events (st : SinkStore) (a : nat) : list Event := memory_at st a.
Definition memory_len (st : SinkStore) (a : nat) : Z := len (memory_events st a).
Definition memory_is_empty (st : SinkStore) (a : nat) : bool := memory_len st a =? 0.
Definition memory_clear (st : SinkStore) (a : nat) : SinkStore := set_memory st a [].

(** What [record] and [flush] do to a single sink. *)
Inductive SinkOp := Op_Record (e : Event) | Op_Flush.
Definition memory_op (st : SinkStore) (a : nat) (op : SinkOp) : result SinkError unit * SinkStore :=
  match op with
  | Op_Record e => (Ok tt, set_memory st a (memory_at st a ++ [e]))
  | Op_Flush => (Ok tt, st)
  end.
Definition other_op (st : SinkStore) (o : nat) (op : SinkOp) : result SinkError unit * SinkStore :=
  match ss_others st !! o with
  | None => (Ok tt, st)
  | Some s =>
      let (r, s) := match op with Op_Record e => sink_record s e | Op_Flush => sink_flush (Event := Event) s end in
      (r, mkSinkStore (ss_memory st) (<[o := s]> (ss_others st)))
  end.

Definition keep_first (first_error : option SinkError) (r : result SinkError unit) : option SinkError :=
  match first_error, r with None, Err err => Some err | _, _ => first_error end.
Definition first_result (first_error : option SinkError) : result SinkError unit :=
  match first_error with Some err => Err err | None => Ok tt end.

(** [AuditSink::record] and [flush] of any sink. *)
Fixpoint sink_ref_op (r : SinkRef) (op : SinkOp) (st : SinkStore) : result SinkError unit * SinkStore :=
  match r with
  | Ref_Memory a => memory_op st a op
  | Ref_Other o => other_op st o op
  | Ref_Broadcast sinks =>
      (fix go (sinks : list SinkRef) (first_error : option SinkError) (st : SinkStore) :=
         match sinks with
         | [] => (first_result first_error, st)
         | sink :: sinks =>
             let (r, st) := sink_ref_op sink op st in go sinks (keep_first first_error r) st
         end) sinks None st
  end.
#[global] Instance sink_ref_sink (r : SinkRef) : AuditSink Event SinkStore := {
  sink_record st e := sink_ref_op r (Op_Record e) st;
  sink_flush st := sink_ref_op r Op_Flush st
}.

(** ** The single sinks behind a reference *)

Inductive Leaf := Leaf_Memory (a : nat) | Leaf_Other (o : nat).
#[global] Instance Leaf_eq_dec : EqDecision Leaf.
Proof. solve_decision. Defined.
Fixpoint leaves (r : SinkRef) : list Leaf :=
  match r with
  | Ref_Memory a => [Leaf_Memory a]
  | Ref_Other o => [Leaf_Other o]
  | Ref_Broadcast sinks => (fix go l := match l with [] => [] | r :: l => leaves r ++ go l end) sinks
  end.
Definition leaf_op (l : Leaf) (op : SinkOp) (st : SinkStore) : result SinkError unit * SinkStore :=
  match l with Leaf_Memory a => memory_op st a op | Leaf_Other o => other_op st o op end.
(** The leaves one after the other, keeping the first error. *)
Fixpoint leaves_op (ls : list Leaf) (op : SinkOp) (first_error : option SinkError) (st : SinkStore) :
    option SinkError * SinkStore :=
  match ls with
  | [] => (first_error, st)
  | l :: ls => let (r, st) := leaf_op l op st in leaves_op ls op (keep_first first_error r) st
  end.

Lemma leaves_op_app l1 l2 op fe st :
  leaves_op (l1 ++ l2) op fe st = let (fe, st) := leaves_op l1 op fe st in leaves_op l2 op fe st.
Proof.
  revert fe st. induction l1 as [|l l1 IH]; intros fe st; cbn; [done|]. destruct (leaf_op l op st). apply IH.
Qed.
Lemma leaves_op_first ls op fe st :
  leaves_op ls op fe st = (match fe with Some _ => fe | None => (leaves_op ls op None st).1 end,
                           (leaves_op ls op None st).2).
Proof.
  revert fe st. induction ls as [|l ls IH]; intros fe st; cbn; [by destruct fe|].
  destruct (leaf_op l op st) as [r st']. rewrite IH, (IH (keep_first None r)). by destruct fe, r.
Qed.

(** Induction over references, with the children of a broadcast. *)
Lemma SinkRef_nested_ind (P : SinkRef → Prop) :
  (∀ a, P (Ref_Memory a)) → (∀ o, P (Ref_Other o)) → (∀ l, Forall P l → P (Ref_Broadcast l)) → ∀ r, P r.
Proof.
  intros Hm Ho Hb. fix IH 1. intros [a|o|l]; [apply Hm|apply Ho|]. apply Hb.
  induction l as [|r l IHl]; constructor; [apply IH|exact IHl].
Qed.

Lemma sink_ref_op_leaves r op st :
  sink_ref_op r op st =
    let (fe, st) := leaves_op (leaves r) op None st in (first_result fe, st).
Proof.
  revert st. induction r as [a|o|l IH] using SinkRef_nested_ind; intros st.
  - cbn. by destruct op.
  - cbn. unfold other_op. destruct (ss_others st !! o) as [s|]; [|done].
    destruct (match op with Op_Record e => sink_record s e | Op_Flush => sink_flush s end) as [[[]|e] s'];
      reflexivity.
  - cbn [sink_ref_op leaves]. generalize (@None SinkError) as fe. revert st.
    induction l as [|r l IHl]; intros st fe; cbn; [done|].
    apply Forall_cons in IH as [Hr IH]. rewrite Hr. rewrite leaves_op_app.
    rewrite (leaves_op_first (leaves r) op fe). destruct (leaves_op (leaves r) op None st) as [fe' st'].
    cbn [fst snd]. rewrite (IHl IH). do 2 f_equal. by destruct fe, fe'.
Qed.

(** ** What a record does *)

Definition occurrences (a : nat) (ls : list Leaf) : nat := length (filter (λ l, l = Leaf_Memory a) ls).

#[local] Arguments occurrences : simpl never.

Lemma leaves_op_memory ls e fe st a :
  memory_at (leaves_op ls (Op_Record e) fe st).2 a = memory_at st a ++ replicate (occurrences a ls) e.
Proof.
  revert fe st. induction ls as [|l ls IH]; intros fe st; cbn; [by rewrite app_nil_r|].
  destruct (leaf_op l (Op_Record e) st) as [r st'] eqn:E. rewrite IH. unfold occurrences. rewrite filter_cons.
  destruct l as [a'|o]; cbn in E.
  - injection E as <- <-. unfold memory_at at 1. cbn. destruct (decide (a' = a)) as [->|Hne].
    + rewrite lookup_insert_eq. cbn. rewrite decide_True by done. cbn. by rewrite <-app_assoc.
    + rewrite lookup_insert_ne by done. rewrite decide_False by congruence. done.
  - rewrite decide_False by done. f_equal. revert E. unfold other_op. destruct (ss_others st !! o); [|by intros [= <- <-]].
    destruct (sink_record _ _). by intros [= <- <-].
Qed.

(** Recording over shared sinks.  An event that is recorded to a sink, however broadcasts
    are nested, is appended once per handle to every memory sink behind it, and is then
    seen through every clone of that sink; a memory sink that is not behind it keeps its
    events; and the call is what recording to the single sinks one after the other is, all
    of them, with the error of the first that fails. *)
Theorem record_reaches_leaves r e st :
  (∀ a, memory_events (sink_ref_op r (Op_Record e) st).2 a =
     memory_events st a ++ replicate (occurrences a (leaves r)) e) ∧
  sink_ref_op r (Op_Record e) st =
    let (fe, st) := leaves_op (leaves r) (Op_Record e) None st in (first_result fe, st).
Proof.
  split; [|apply sink_ref_op_leaves]. intros a. rewrite sink_ref_op_leaves.
  unfold memory_events. rewrite <-(leaves_op_memory _ _ None). by destruct (leaves_op _ _ _ _).
Qed.

(** Clearing through one handle clears for all, and touches no other sink. *)
Lemma memory_clear_shared st a b :
  memory_events (memory_clear st a) b = if decide (a = b) then [] else memory_events st b.
Proof.
  unfold memory_events, memory_clear, memory_at. cbn. case_decide as E; [subst|].
  - by rewrite lookup_insert_eq.
  - by rewrite lookup_insert_ne.
Qed.
End sinks.
Arguments SinkStore : clear implicits.

(** One memory sink behind two handles, one of them in a nested broadcast: it gets the
    event twice. *)
Example shared_sink_records_twice :
  let st : SinkStore nat (MemoryAuditSink nat) := mkSinkStore (<[0%nat := [7%nat]]> ∅) ∅ in
  memory_events (sink_ref_op (Ref_Broadcast [Ref_Memory 0; Ref_Broadcast [Ref_Memory 0]]) (Op_Record 9%nat) st).2 0%nat =
    [7%nat; 9%nat; 9%nat].
Proof. reflexivity. Qed.

(** ** Making an event *)

Section builders.
Context {Value : Type} (Null : Value).

Definition with_user_id (e : AuditEvent Value) (v : option string) : AuditEvent Value :=
  mkAuditEvent (ev_event_id e) (ev_timestamp e) (ev_organization_id e) v (ev_device_id e) (ev_session_id e)
    (ev_event_type e) (ev_metadata e).
Definition with_device_id (e : AuditEvent Value) (v : option string) : AuditEvent Value :=
  mkAuditEvent (ev_event_id e) (ev_timestamp e) (ev_organization_id e) (ev_user_id e) v (ev_session_id e)
    (ev_event_type e) (ev_metadata e).
Definition with_session_id (e : AuditEvent Value) (v : option string) : AuditEvent Value :=
  mkAuditEvent (ev_event_id e) (ev_timestamp e) (ev_organization_id e) (ev_user_id e) (ev_device_id e) v
    (ev_event_type e) (ev_metadata e).
Definition with_metadata (e : AuditEvent Value) (v : Value) : AuditEvent Value :=
  mkAuditEvent (ev_event_id e) (ev_timestamp e) (ev_organization_id e) (ev_user_id e) (ev_device_id e)
    (ev_session_id e) (ev_event_type e) v.

(** The setters of [AuditEventBuilder]. *)
Inductive BuilderField :=
  | Field_EventId (v : string) | Field_Timestamp (v : Z) | Field_OrganizationId (v : string)
  | Field_UserId (v : option string) | Field_DeviceId (v : option string) | Field_SessionId (v : option string)
  | Field_EventType (v : AuditEventType) | Field_Metadata (v : Value).
Definition AuditEventBuilder_new : AuditEventBuilder Value := mkAuditEventBuilder None None None None None None None None.
Definition AuditEventBuilder_set (b : AuditEventBuilder Value) (f : BuilderField) : AuditEventBuilder Value :=
  let 'mkAuditEventBuilder i t o u d s y m := b in
  match f with
  | Field_EventId v => mkAuditEventBuilder (Some v) t o u d s y m
  | Field_Timestamp v => mkAuditEventBuilder i (Some v) o u d s y m
  | Field_OrganizationId v => mkAuditEventBuilder i t (Some v) u d s y m
  | Field_UserId v => mkAuditEventBuilder i t o v d s y m
  | Field_DeviceId v => mkAuditEventBuilder i t o u v s y m
  | Field_SessionId v => mkAuditEventBuilder i t o u d v y m
  | Field_EventType v => mkAuditEventBuilder i t o u d s (Some v) m
  | Field_Metadata v => mkAuditEventBuilder i t o u d s y (Some v)
  end.
Definition AuditEventBuilder_sets (fs : list BuilderField) : AuditEventBuilder Value :=
  fold_left AuditEventBuilder_set fs AuditEventBuilder_new.

(** The last value a list of setters gives a field. *)
Definition last_set {A} (f : BuilderField → option A) (fs : list BuilderField) : option A := last (omap f fs).
Lemma last_set_snoc {A} (f : BuilderField → option A) fs x :
  last_set f (fs ++ [x]) = match f x with Some v => Some v | None => last_set f fs end.
Proof. unfold last_set. rewrite omap_app. cbn. destruct (f x); [by rewrite last_snoc|by rewrite app_nil_r]. Qed.

Definition set_event_id f := match f with Field_EventId v => Some v | _ => None end.
Definition set_timestamp f := match f with Field_Timestamp v => Some v | _ => None end.
Definition set_organization_id f := match f with Field_OrganizationId v => Some v | _ => None end.
Definition set_user_id f := match f with Field_UserId v => Some v | _ => None end.
Definition set_device_id f := match f with Field_DeviceId v => Some v | _ => None end.
Definition set_session_id f := match f with Field_SessionId v => Some v | _ => None end.
Definition set_event_type f := match f with Field_EventType v => Some v | _ => None end.
Definition set_metadata f := match f with Field_Metadata v => Some v | _ => None end.

Lemma builder_sets_spec fs :
  AuditEventBuilder_sets fs =
    mkAuditEventBuilder (last_set set_event_id fs) (last_set set_timestamp fs) (last_set set_organization_id fs)
      (mjoin (last_set set_user_id fs)) (mjoin (last_set set_device_id fs)) (mjoin (last_set set_session_id fs))
      (last_set set_event_type fs) (last_set set_metadata fs).
Proof.
  unfold AuditEventBuilder_sets. induction fs as [|f fs IH] using rev_ind; [done|].
  rewrite fold_left_app, IH. cbn. rewrite !last_set_snoc. by destruct f.
Qed.

(** The two ways to make an event agree: the setters of the builder, in any order and with
    the last value of a field winning, build exactly what [AuditEvent::new] and the [with]
    methods make of those values, and fail, naming the first of them, exactly when one of
    the four required fields was never set. *)
Theorem builder_agrees_with_new fs :
  AuditEventBuilder_build Null (AuditEventBuilder_sets fs) =
    (event_id ← ok_or (last_set set_event_id fs) "event_id";
     timestamp ← ok_or (last_set set_timestamp fs) "timestamp";
     organization_id ← ok_or (last_set set_organization_id fs) "organization_id";
     event_type ← ok_or (last_set set_event_type fs) "event_type";
     Ok (with_metadata (with_session_id (with_device_id (with_user_id
           (AuditEvent_new Null event_id timestamp organization_id event_type)
           (mjoin (last_set set_user_id fs))) (mjoin (last_set set_device_id fs)))
           (mjoin (last_set set_session_id fs))) (default Null (last_set set_metadata fs)))).
Proof. rewrite builder_sets_spec. reflexivity. Qed.
End builders.
