(* ===== verification/Cancellation.v ===== *)
(** * Cancelling the client (apps/nexus-client/src/runtime.rs)

    [RuntimeCancellation] is a flag and a [tokio::sync::Notify].  [cancel], called through
    any clone of the handle, stores the flag and then notifies; the runtime looks at the
    flag at the start of its operations and waits in [select!]s of which one branch is the
    notification.  The steps of both interleave. *)

From S2P Require Import Prelude.

(** ** The notification *)

(** The future of [notified()]: not polled yet, waiting, or woken by [notify_one]. *)
Inductive Waiter := Waiter_None | Waiter_Registered | Waiter_Notified.
#[global] Instance Waiter_eq_dec : EqDecision Waiter.
Proof. solve_decision. Defined.
Record RuntimeCancellation := mkRuntimeCancellation { rc_cancelled : bool; rc_permit : bool; rc_waiter : Waiter }.
Definition RuntimeCancellation_new : RuntimeCancellation := mkRuntimeCancellation false false Waiter_None.

(** [notify_one] wakes the waiter or, without one, keeps a permit. *)
Definition notify_one (c : RuntimeCancellation) : RuntimeCancellation :=
  match rc_waiter c with
  | Waiter_Registered => mkRuntimeCancellation (rc_cancelled c) (rc_permit c) Waiter_Notified
  | _ => mkRuntimeCancellation (rc_cancelled c) true (rc_waiter c)
  end.
(** The two parts of [cancel]. *)
Definition cancel_store (c : RuntimeCancellation) : RuntimeCancellation :=
  mkRuntimeCancellation true (rc_permit c) (rc_waiter c).
Definition cancel_notify : RuntimeCancellation → RuntimeCancellation := notify_one.
Definition is_cancelled (c : RuntimeCancellation) : bool := rc_cancelled c.

(** Polling the future takes the permit or the wake-up, else it registers. *)
Definition poll_notified (c : RuntimeCancellation) : bool * RuntimeCancellation :=
  match rc_waiter c with
  | Waiter_Notified => (true, mkRuntimeCancellation (rc_cancelled c) (rc_permit c) Waiter_None)
  | _ =>
      if rc_permit c then (true, mkRuntimeCancellation (rc_cancelled c) false Waiter_None)
      else (false, mkRuntimeCancellation (rc_cancelled c) (rc_permit c) Waiter_Registered)
  end.
(** Dropping a future that was woken passes its wake-up on. *)
Definition drop_notified (c : RuntimeCancellation) : RuntimeCancellation :=
  let c' := mkRuntimeCancellation (rc_cancelled c) (rc_permit c) Waiter_None in
  match rc_waiter c with Waiter_Notified => notify_one c' | _ => c' end.

(** ** The runtime and its cancellers *)

(** The runtime is about to look at the flag, about to enter a [select!], waits in one, or
    has seen the cancellation. *)
Inductive RuntimePoint := Point_Check | Point_Select | Point_Waiting | Point_Stopped.
(** [cx_storing] counts the calls of [cancel] between their two parts, [cx_returned] those
    that have returned. *)
Record CancelSystem := mkCancelSystem {
  cx_cancellation : RuntimeCancellation; cx_point : RuntimePoint; cx_storing : nat; cx_returned : nat
}.
Definition CancelSystem_new : CancelSystem := mkCancelSystem RuntimeCancellation_new Point_Check 0 0.

(** [other] says whether another branch of the [select!] is ready, [cancel_first] which of
    the two is polled first, and [again] whether the runtime goes on to another [select!]
    or to look at the flag. *)
Inductive CancelStep :=
  | Cancel_Store
  | Cancel_Notify
  | Runtime_Check
  | Runtime_Poll (other cancel_first again : bool).

(** The branches of a [select!] that is polled: the cancellation, another one, neither. *)
Definition select_poll (c : RuntimeCancellation) (other cancel_first again : bool) : RuntimePoint * RuntimeCancellation :=
  let next := if again then Point_Select else Point_Check in
  if other && negb cancel_first then (next, drop_notified c) else
  let (ready, c) := poll_notified c in
  if ready then (Point_Stopped, c) else if other then (next, drop_notified c) else (Point_Waiting, c).

Definition cancel_step (s : CancelSystem) (step : CancelStep) : option CancelSystem :=
  let c := cx_cancellation s in
  match step with
  | Cancel_Store => Some (mkCancelSystem (cancel_store c) (cx_point s) (S (cx_storing s)) (cx_returned s))
  | Cancel_Notify =>
      match cx_storing s with
      | O => None
      | S n => Some (mkCancelSystem (cancel_notify c) (cx_point s) n (S (cx_returned s)))
      end
  | Runtime_Check =>
      match cx_point s with
      | Point_Check =>
          Some (mkCancelSystem c (if is_cancelled c then Point_Stopped else Point_Select) (cx_storing s) (cx_returned s))
      | _ => None
      end
  | Runtime_Poll other cancel_first again =>
      let polled :=
        let (p, c) := select_poll c other cancel_first again in Some (mkCancelSystem c p (cx_storing s) (cx_returned s)) in
      match cx_point s with
      | Point_Select => polled
      | Point_Waiting => if other || bool_decide (rc_waiter c = Waiter_Notified) then polled else None
      | _ => None
      end
  end.
Fixpoint cancel_run (s : CancelSystem) (steps : list CancelStep) : option CancelSystem :=
  match steps with
  | [] => Some s
  | step :: steps => s ← cancel_step s step; cancel_run s steps
  end.

(** ** Nothing is lost *)

Definition signalled (c : RuntimeCancellation) : Prop := rc_permit c = true ∨ rc_waiter c = Waiter_Notified.

Record cancel_inv (s : CancelSystem) : Prop := {
  ci_waiter : cx_point s ≠ Point_Waiting → rc_waiter (cx_cancellation s) = Waiter_None;
  ci_registered : cx_point s = Point_Waiting → rc_waiter (cx_cancellation s) ≠ Waiter_None ∧
    (rc_waiter (cx_cancellation s) = Waiter_Registered → rc_permit (cx_cancellation s) = false);
  ci_sound : signalled (cx_cancellation s) ∨ cx_point s = Point_Stopped ∨ (0 < cx_storing s)%nat →
    rc_cancelled (cx_cancellation s) = true;
  ci_kept : (0 < cx_returned s)%nat → rc_cancelled (cx_cancellation s) = true ∧
    (cx_point s = Point_Stopped ∨ signalled (cx_cancellation s))
}.

Lemma cancel_step_inv s step s' : cancel_inv s → cancel_step s step = Some s' → cancel_inv s'.
Proof.
  destruct s as [[flag permit waiter] point storing returned]. intros [Hw Hr Hs Hk]. unfold signalled in *. cbn in *.
  destruct step as [| | |other cancel_first again]; cbn.
  - intros [= <-]. split; unfold signalled; cbn; naive_solver.
  - destruct storing as [|n]; [done|]. assert (flag = true) as -> by (apply Hs; right; right; lia).
    intros [= <-]. unfold cancel_notify, notify_one. cbn.
    destruct point, waiter; split; unfold signalled; cbn; naive_solver.
  - destruct point; [|done..]. intros [= <-]. specialize (Hw ltac:(done)) as ->.
    destruct flag; split; unfold signalled; cbn; try naive_solver lia.
  - destruct point; [done| | |done].
    + specialize (Hw ltac:(done)) as ->.
      destruct other, cancel_first, again, permit; intros [= <-]; split; unfold signalled; cbn; naive_solver.
    + destruct (Hr eq_refl) as [Hn Hp].
      destruct waiter; [done| |]; destruct other, cancel_first, again, permit; cbn; intros [= <-];
        split; unfold signalled; cbn; naive_solver.
Qed.
Lemma cancel_run_inv steps s s' : cancel_inv s → cancel_run s steps = Some s' → cancel_inv s'.
Proof.
  revert s. induction steps as [|step steps IH]; intros s Hs; cbn; [by intros [= <-]|].
  intros (s1 & E & H)%bind_Some. eapply IH; [|done]. by eapply cancel_step_inv.
Qed.

(** A cancellation is never lost and never made up.  However the calls of [cancel], through
    any number of handles, interleave with the runtime (also between its look at the flag
    and its wait), the runtime stops only when a call has begun; and once a call has
    returned the runtime has stopped, or it will: if it is about to look at the flag it
    stops there, if it is about to enter a [select!] the cancellation is ready whenever it
    is polled, if it waits in one it is awake, and a [select!] that takes another branch
    keeps the cancellation for the next. *)
Theorem cancellation_not_lost steps s :
  cancel_run CancelSystem_new steps = Some s →
  (cx_point s = Point_Stopped → rc_cancelled (cx_cancellation s) = true) ∧
  ((0 < cx_returned s)%nat → cx_point s = Point_Stopped ∨
     match cx_point s with
     | Point_Check => ∃ s', cancel_step s Runtime_Check = Some s' ∧ cx_point s' = Point_Stopped
     | _ => ∀ other again,
         (∃ s', cancel_step s (Runtime_Poll other true again) = Some s' ∧ cx_point s' = Point_Stopped) ∧
         (∃ s', cancel_step s (Runtime_Poll other false again) = Some s' ∧
            if other then signalled (cx_cancellation s') else cx_point s' = Point_Stopped)
     end).
Proof.
  intros Hrun. apply cancel_run_inv in Hrun as [Hw Hr Hs Hk]; [|split; unfold signalled; cbn; naive_solver lia].
  split; [auto|]. intros H0. destruct (Hk H0) as [Hc [->|Hsig]]; [by left|].
  destruct s as [[flag permit waiter] point storing returned]; unfold signalled in *; cbn in *; subst flag.
  destruct point.
  - right. by eexists.
  - right. specialize (Hw ltac:(done)) as ->. destruct Hsig as [->|]; [|done].
    intros [] []; cbn; split; eexists; split; cbn; auto.
  - right. destruct (Hr eq_refl) as [Hn Hp]. destruct waiter; [done| |].
    + destruct Hsig as [->|]; [|done]. by specialize (Hp eq_refl).
    + intros [] []; cbn; split; eexists; split; cbn; auto.
  - by left.
Qed.

(** The flag alone would not do: a runtime that has looked at it and then waits for a
    notification without a permit would sleep through a cancellation in between.  With the
    permit it wakes. *)
Example cancel_between_check_and_wait :
  ∃ s, cancel_run CancelSystem_new [Runtime_Check; Cancel_Store; Cancel_Notify; Runtime_Poll false false true] = Some s ∧
    cx_point s = Point_Stopped.
Proof. eexists. split; reflexivity. Qed.
