(* ===== verification/ControlServer.v ===== *)
(** * The control plane server (apps/nexusd/src/server.rs, main.rs, routes.rs)

    The router over the request handlers, the start of the process, and the life of the
    HTTP server with its shutdown signal.  How axum extracts the parts of a request is a
    parameter. *)

From S2P Require Import Prelude RustStr Common Crypto Protocol Replay Verifier Enrollment AuditLog PolicyModel Relay Storage ControlPlane Authorization AuditTrail Devices.

Open Scope string_scope.
Open Scope list_scope.
Open Scope Z_scope.

(** ** The router *)

Inductive HttpMethod := Http_GET | Http_HEAD | Http_POST | Http_Other (name : string).
Record HttpRequest := mkHttpRequest { hr_method : HttpMethod; hr_path : string; hr_rest : bytes }.

(** The extractors of axum: the value, or the status of the rejection. *)
Class HttpExtract := {
  extract_registration : HttpRequest → result Z DeviceRegistrationRequest;
  extract_session_request : HttpRequest → result Z SessionRequestPayload;
  extract_organization : HttpRequest → result Z (option string)
}.

Record HealthResponse := mkHealthResponse { he_status : string; he_version : string; he_control_plane_id : string }.
Inductive HttpResponse :=
  | Http_Health (h : HealthResponse)
  | Http_Devices (l : list RegisteredDevice)
  | Http_Answer (a : cp_answer)
  | Http_Error (e : Z * ApiError)
  | Http_Status (status : Z).

(** What a request meets: the clock, the random bytes, the failures of the store. *)
Record HttpEnv := mkHttpEnv {
  qe_now : Z; qe_uuid : bytes; qe_nonce : bytes; qe_fault1 : db_fault; qe_fault2 : db_fault; qe_fault3 : db_fault
}.

Inductive Route := Route_Health | Route_Enroll | Route_Devices | Route_Session.
(** The paths of [create_router], with the method of each; [get] also answers [HEAD]. *)
Definition route_of (path : string) : option Route :=
  if str_eqb path "/healthz" then Some Route_Health else
  if str_eqb path "/api/v1/devices/enroll" then Some Route_Enroll else
  if str_eqb path "/api/v1/devices" then Some Route_Devices else
  if str_eqb path "/api/v1/sessions/request" then Some Route_Session else None.
Definition method_allowed (r : Route) (m : HttpMethod) : bool :=
  match r, m with
  | (Route_Health | Route_Devices), (Http_GET | Http_HEAD) => true
  | (Route_Enroll | Route_Session), Http_POST => true
  | _, _ => false
  end.

Section router.
Context {Value Sink : Type} (Null : Value) (json_object : list (string * string) → Value).
Context `{Ed25519, Prost SessionCapability, Blake3}.
Context `{SerdeJson CanonicalEnrollmentPayload, SerdeJson CanonicalCredentialPayload}.
Context `{SerdeJson EnrollmentToken, SerdeJsonDe EnrollmentToken}.
Context `{SerdeJson DeviceCredential, SerdeJsonDe DeviceCredential}.
Context `{SerdeJson (list string), SerdeJsonDe (list string)}.
Context `{SerdeJson (AuditEvent Value), AuditSink (ChainedAuditEvent Value) Sink}.
Context `{HttpExtract}.
Context (dalek_error : string) (bld : build).
Abbreviation state := (AppState Value Sink).

Definition healthz_handler (st : state) : HealthResponse := mkHealthResponse "ok" "0.1.0" (st_control_plane_id st).

(** [create_router]; [None] when a handler panics. *)
Definition create_router (st : state) (req : HttpRequest) (e : HttpEnv) : option (HttpResponse * state) :=
  let serve call := '(a, st) ← cp_serve Null json_object dalek_error bld st call; Some (Http_Answer a, st) in
  match route_of (hr_path req) with
  | None => Some (Http_Status 404, st)
  | Some route =>
      if negb (method_allowed route (hr_method req)) then Some (Http_Status 405, st) else
      match route with
      | Route_Health => Some (Http_Health (healthz_handler st), st)
      | Route_Devices =>
          match extract_organization req with
          | Err status => Some (Http_Status status, st)
          | Ok organization =>
              Some (match list_devices_handler (st_storage st) organization (qe_fault1 e) with
                    | Ok l => Http_Devices l | Err e => Http_Error e end, st)
          end
      | Route_Enroll =>
          match extract_registration req with
          | Err status => Some (Http_Status status, st)
          | Ok r => serve (Call_Enroll r (qe_now e) (qe_fault1 e) (qe_fault2 e))
          end
      | Route_Session =>
          match extract_session_request req with
          | Err status => Some (Http_Status status, st)
          | Ok p =>
              serve (Call_Request p (qe_now e) (qe_uuid e) (qe_nonce e) (qe_fault1 e) (qe_fault2 e) (qe_fault3 e))
          end
      end
  end.
Fixpoint serve_requests (st : state) (reqs : list (HttpRequest * HttpEnv)) : option (list HttpResponse * state) :=
  match reqs with
  | [] => Some ([], st)
  | (req, e) :: reqs =>
      '(resp, st) ← create_router st req e;
      '(resps, st) ← serve_requests st reqs;
      Some (resp :: resps, st)
  end.

(** A request is a call of a handler or changes nothing. *)
Lemma create_router_step st req e resp st' :
  0 ≤ qe_now e → create_router st req e = Some (resp, st') →
  st' = st ∨ (cp_step Null json_object dalek_error bld st st' ∧ hr_method req = Http_POST).
Proof.
  intros Hnow. unfold create_router. destruct (route_of (hr_path req)) as [route|]; [|naive_solver].
  destruct (method_allowed route (hr_method req)) eqn:Em; cbn [negb]; [|naive_solver].
  destruct route; cbn in Em.
  - naive_solver.
  - destruct (extract_registration req) as [r|]; [|naive_solver]. intros ([a st1] & E & [= <- <-])%bind_Some.
    right. split; [|by destruct (hr_method req)]. eapply cp_served; [|exact E]. exact Hnow.
  - destruct (extract_organization req); naive_solver.
  - destruct (extract_session_request req) as [p|]; [|naive_solver]. intros ([a st1] & E & [= <- <-])%bind_Some.
    right. split; [|by destruct (hr_method req)]. eapply cp_served; [|exact E]. exact Hnow.
Qed.

(** Requests of any other method than [POST] are always answered, and only read: whatever
    they ask for, the state stays as it is. *)
Theorem safe_methods_read_only st req e :
  hr_method req ≠ Http_POST → ∃ resp, create_router st req e = Some (resp, st).
Proof.
  intros Hm. unfold create_router. destruct (route_of (hr_path req)) as [[]|]; [..|by eexists].
  all: destruct (hr_method req); cbn; try done; try (by eexists).
  all: destruct (extract_organization req); by eexists.
Qed.

Lemma serve_requests_run st reqs resps st' :
  Forall (λ r, 0 ≤ qe_now r.2) reqs → serve_requests st reqs = Some (resps, st') →
  rtc (cp_step Null json_object dalek_error bld) st st' ∧ length resps = length reqs.
Proof.
  revert st resps. induction reqs as [|[req e] reqs IH]; intros st resps Hn; cbn; [by intros [= <- <-]|].
  apply Forall_cons in Hn as [Hn Hns].
  intros ([resp st1] & E1 & ([rs st2] & E2 & [= <- <-])%bind_Some)%bind_Some.
  destruct (IH _ _ Hns E2) as [Hr Hl]. split; [|cbn; by rewrite Hl].
  apply create_router_step in E1 as [->|[Hs _]]; [done|by eapply rtc_l|done].
Qed.

(** Whatever is sent to the HTTP interface of a control plane that starts on a store
    without audit events, the hash chain verifies and the audit table holds exactly its
    events. *)
Theorem http_audit_trail key cp_id db (sink : Sink) reqs resps st :
  db_audit_events db = ∅ → Forall (λ r, 0 ≤ qe_now r.2) reqs →
  serve_requests (with_audit_sink (AppState_new key cp_id db) sink) reqs = Some (resps, st) →
  verify_chain (trail st) None = Ok tt ∧ db_audit_events (st_storage st) = audit_table (trail st) ∧
  length resps = length reqs.
Proof.
  intros Hdb Hn [Hrun Hl]%serve_requests_run; [|done].
  assert (trail_ok st) as [Hc Hg _ Hs].
  { eapply run_trail_ok; [exact Hrun|]. split; [apply chain_new_ok|done|constructor|done]. }
  split_and!; [|done|done]. apply verify_from_spec. cbn. rewrite <-Hg. apply Hc.
Qed.
End router.

(** ** The process *)

(** [main]: the key, the URL of the database from the environment, the answers of opening
    and migrating it and of binding the address. *)
Inductive DaemonError := Daemon_Storage (e : StorageError) | Daemon_Io.
Definition daemon_signing_key : bytes := replicate 32 x64.
Definition daemon_database_url (env : option string) : string := default "sqlite://nexus.db?mode=rwc" env.
Definition daemon_state {Value} (db : Db) : AppState Value (MemoryAuditSink (ChainedAuditEvent Value)) :=
  AppState_new daemon_signing_key "nexus-control-plane-primary" db.
Definition nexusd_main {Value} (env : option string) (opened migrated bound : bool) (db : Db) :
    result DaemonError (AppState Value (MemoryAuditSink (ChainedAuditEvent Value))) :=
  _ ← map_err Daemon_Storage (SqliteStorage_connect (DatabaseConfig_sqlite (daemon_database_url env)) opened migrated);
  let state := daemon_state db in
  if bound then Ok state else Err Daemon_Io.

(** The key that signs every capability is a constant of the program.  Who knows the
    program can sign the capability of a session that was never requested: every agent
    that trusts a running control plane accepts it, exactly as one it issued. *)
Definition forged_capability `{Ed25519, Prost SessionCapability} (p : SessionRequestPayload) (sid : string)
    (now : Z) (nonce : bytes) : SessionCapability :=
  let raw := mkSessionCapability 1 "nexus-control-plane-primary" sid (sq_subject_user_id p) (sq_client_device_id p)
    (sq_target_device_id p) (Action_as_str <$> Action_ALL) [] now (now + 120) nonce 1 1
    (sq_client_ephemeral_public_key p) [] in
  cap_signed raw (ed_sign daemon_signing_key (prost_encode raw)).

Theorem forged_capability_accepted `{Ed25519Laws, !Prost SessionCapability} (Value : Type) env db
    (st : AppState Value (MemoryAuditSink (ChainedAuditEvent Value))) p sid now nonce dalek_error agent t instant :
  nexusd_main env true true true db = Ok st →
  payload_ok p → 1 ≤ str_len sid ≤ 128 → len nonce = 16 →
  cv_verifying_key agent = ed_public (st_signing_key st) →
  cv_target_device_id agent = Some (sq_target_device_id p) → now ≤ t ≤ now + 120 →
  (CapabilityVerifier_verify dalek_error agent (forged_capability p sid now nonce) 1 t instant).1 = Ok tt ↔
  (NonceReplayCache_accept (cv_replay_cache agent) nonce instant).1 = true.
Proof.
  intros Hmain Hp Hs Hn Hk Ht Hnow.
  unfold nexusd_main in Hmain. apply result_bind_ok in Hmain as (? & _ & [= <-]).
  assert (ActionSet_iter ActionSet_all = Action_ALL) as Hall by (vm_compute; reflexivity).
  pose proof (issued_accepted (daemon_state db : AppState Value _) p sid ActionSet_all now nonce Hp
    ltac:(cbv; intuition discriminate) Hs Hall Hn dalek_error agent t instant Hk Ht) as Hacc.
  unfold build_capability in Hacc. rewrite Hall in Hacc. split; [intros Hv; by apply Hacc in Hv as [_ ?]|].
  intros Ha. by apply Hacc.
Qed.

(** A restart opens the store again and starts a new chain: the events recorded before and
    after it have the same sequence numbers, and the log that is read back, although nobody
    touched it, does not verify. *)
Definition restarted (st : toy_state) : toy_state :=
  AppState_new (st_signing_key st) (st_control_plane_id st) (st_storage st).
Definition restart_log : toy_state :=
  let record st e := (@record_audit unit _ toy_blake3 (countable_json _) _ st e Db_works).2 in
  record (restarted (record (record sample_state (sample_event "first")) (sample_event "second")))
    (sample_event "third").
Example restart_breaks_audit_chain :
  (match toy_list (st_storage restart_log) (ev_organization_id (sample_event "first")) Db_works with
   | Ok events => Some (ch_sequence <$> events,
       is_ok (@verify_chain unit toy_blake3 (countable_json _) events None))
   | Err _ => None
   end) = Some ([1; 1; 2], false).
Proof. vm_compute. reflexivity. Qed.

(** ** The server and its shutdown *)

(** [shutdown] borrows the server and [run] consumes it; the handle to the notification is
    private and the server is not cloned: [lf_owned] is whether somebody has the server to
    call a method on.  [lf_waiting] and [lf_woken] are the state of the future of
    [notified()], which is polled by the serving loop. *)
Inductive ServeState := Serve_NotStarted | Serve_Running | Serve_Returned.
Record ServerLife := mkServerLife { lf_owned : bool; lf_serving : ServeState; lf_waiting : bool; lf_woken : bool }.
Definition ControlPlaneServer_bind (bound : bool) : option ServerLife :=
  if bound then Some (mkServerLife true Serve_NotStarted false false) else None.

(** [notify_waiters] wakes the waiters there are and leaves nothing behind. *)
Definition notify_waiters (l : ServerLife) : ServerLife :=
  mkServerLife (lf_owned l) (lf_serving l) (lf_waiting l) (lf_woken l || lf_waiting l).

Inductive LifeStep := Life_Shutdown | Life_Run | Life_Poll | Life_ListenerFails.
Definition server_life_step (l : ServerLife) (step : LifeStep) : option ServerLife :=
  match step with
  | Life_Shutdown => if lf_owned l then Some (notify_waiters l) else None
  | Life_Run => if lf_owned l then Some (mkServerLife false Serve_Running false false) else None
  | Life_Poll =>
      match lf_serving l with
      | Serve_Running => Some (mkServerLife (lf_owned l) (if lf_woken l then Serve_Returned else Serve_Running) true (lf_woken l))
      | _ => None
      end
  | Life_ListenerFails =>
      match lf_serving l with
      | Serve_Running => Some (mkServerLife (lf_owned l) Serve_Returned (lf_waiting l) (lf_woken l))
      | _ => None
      end
  end.
Fixpoint server_life (l : ServerLife) (steps : list LifeStep) : option ServerLife :=
  match steps with [] => Some l | step :: steps => l ← server_life_step l step; server_life l steps end.

(** Who has the server has it before it serves. *)
Definition life_ok (l : ServerLife) : Prop :=
  (lf_owned l = true → lf_serving l = Serve_NotStarted ∧ lf_waiting l = false) ∧ lf_woken l = false.
Lemma life_step_ok l step l' :
  life_ok l → server_life_step l step = Some l' →
  life_ok l' ∧ (lf_serving l' = Serve_Returned → lf_serving l = Serve_Returned ∨ step = Life_ListenerFails).
Proof.
  destruct l as [o sv w k]. unfold life_ok. cbn. intros [Ho ->] E. destruct step; cbn in E.
  - destruct o; [|done]. destruct (Ho eq_refl) as [-> ->]. injection E as <-. cbn. naive_solver.
  - destruct o; [|done]. injection E as <-. cbn. naive_solver.
  - destruct sv; [done| |done]. injection E as <-. destruct o; [by destruct (Ho eq_refl)|]. cbn. naive_solver.
  - destruct sv; [done| |done]. injection E as <-. destruct o; [by destruct (Ho eq_refl)|]. cbn. naive_solver.
Qed.
Lemma server_life_ok steps l l' :
  life_ok l → server_life l steps = Some l' →
  life_ok l' ∧ (lf_serving l' = Serve_Returned → lf_serving l = Serve_Returned ∨ Life_ListenerFails ∈ steps).
Proof.
  revert l. induction steps as [|step steps IH]; intros l Hl; cbn; [intros [= <-]; auto|].
  intros (l1 & E & Hrest)%bind_Some. apply life_step_ok in E as [Hl1 Hr1]; [|done].
  destruct (IH l1 Hl1 Hrest) as [Hl' Hr']. split; [done|]. set_solver.
Qed.

(** The shutdown signal cannot take effect: called before [run] it wakes nobody and is not
    kept, and once [run] has begun there is no server left to call it on.  Only the failure
    of the listener ends [run]. *)
Theorem graceful_shutdown_never_happens start steps l :
  ControlPlaneServer_bind true = Some start → server_life start steps = Some l →
  lf_woken l = false ∧ (lf_serving l = Serve_Returned → Life_ListenerFails ∈ steps).
Proof.
  intros [= <-] [[_ Hk] Hr]%server_life_ok; [|by split]. split; [done|]. intros E. by destruct (Hr E).
Qed.
