(* ===== verification/WindowThread.v ===== *)
(** * The life of the native window (apps/nexus-client/src/window.rs)

    [native::run] boxes the [State] that the window procedure reaches through the window's
    user data, gives the raw pointer to [CreateWindowExW], and takes the box back when the
    creation fails or when [WM_QUIT] is read.  The thread's steps interleave with the
    controller's; the windowing system is what decides which messages are sent.  The handle
    of the thread is joined by [shutdown] before its deadline or goes to a reaper.

    What is used of the system: a window whose creation succeeds has seen [WM_NCCREATE];
    [DestroyWindow] of a window sends it [WM_DESTROY] and then [WM_NCDESTROY], after which it
    gets no message; [PeekMessageW] answers [WM_QUIT] only after [PostQuitMessage], and then
    does not say that there is no message. *)

From S2P Require Import Prelude Unicode VideoTransport ClientReceiver Input Window NativeWorker.

Open Scope Z_scope.

(** ** The thread *)

Inductive ThreadPoint := Thread_Creating | Thread_Flag | Thread_Commands | Thread_Messages | Thread_Returned.
Inductive Hwnd := Hwnd_None | Hwnd_Alive | Hwnd_Destroyed.
#[global] Instance ThreadPoint_eq_dec : EqDecision ThreadPoint.
Proof. solve_decision. Defined.
#[global] Instance Hwnd_eq_dec : EqDecision Hwnd.
Proof. solve_decision. Defined.

(** [wt_freed] counts the times the boxed state was freed, [wt_misused] is set when the
    window procedure follows the user data to a freed state, [wt_quit] when [WM_QUIT] is
    posted, and [wt_started] is what the thread reported. *)
Record WindowThread := mkWindowThread {
  wt_native : NativeWindow;
  wt_point : ThreadPoint;
  wt_hwnd : Hwnd;
  wt_quit : bool;
  wt_freed : nat;
  wt_misused : bool;
  wt_started : option (result WindowError unit)
}.
Definition WindowThread_new (w : WindowShared) : WindowThread :=
  mkWindowThread (mkNativeWindow w None false) Thread_Creating Hwnd_None false 0 false None.

Definition wt_at (t : WindowThread) (p : ThreadPoint) : WindowThread :=
  mkWindowThread (wt_native t) p (wt_hwnd t) (wt_quit t) (wt_freed t) (wt_misused t) (wt_started t).
Definition wt_with_native (t : WindowThread) (n : NativeWindow) : WindowThread :=
  mkWindowThread n (wt_point t) (wt_hwnd t) (wt_quit t) (wt_freed t) (wt_misused t) (wt_started t).
Definition nw_with_shared (n : NativeWindow) (w : WindowShared) : NativeWindow :=
  mkNativeWindow w (nw_pending_high_surrogate n) (nw_attached n).
Definition wt_shared (t : WindowThread) : WindowShared := nw_shared (wt_native t).

Definition is_nccreate (m : Message) : bool := match m with WM_NCCREATE => true | _ => false end.
(** Messages the window procedure does not answer with a call of its own. *)
Definition is_plain (m : Message) : bool :=
  match m with WM_NCCREATE | WM_CLOSE | WM_DESTROY => false | _ => true end.
Definition posts_quit (calls : list NativeCall) : bool :=
  existsb (λ c, match c with Call_PostQuitMessage => true | _ => false end) calls.
Definition destroys (calls : list NativeCall) : bool :=
  existsb (λ c, match c with Call_DestroyWindow => true | _ => false end) calls.

Section thread.
Context (gks : VirtualKey → Z).

(** The window procedure, reached through the user data. *)
Definition deliver_message (t : WindowThread) (m : Message) : WindowThread :=
  let '(calls, n) := window_proc gks (wt_native t) m in
  mkWindowThread n (wt_point t) (wt_hwnd t) (wt_quit t || posts_quit calls) (wt_freed t)
    (wt_misused t || nw_attached (wt_native t) && negb (is_nccreate m) && (0 <? wt_freed t)%nat) (wt_started t).

(** [WM_NCDESTROY] *)
Definition WM_NCDESTROY : Message := WM_OTHER 130.
(** [DestroyWindow], which the system may accompany by plain messages, such as the loss of
    the focus; of a window that is gone it fails, and the code ignores that. *)
Definition DestroyWindow (during : list Message) (t : WindowThread) : WindowThread :=
  match wt_hwnd t with
  | Hwnd_Alive =>
      let t := deliver_message (deliver_message (foldl deliver_message t during) WM_DESTROY) WM_NCDESTROY in
      mkWindowThread (wt_native t) (wt_point t) Hwnd_Destroyed (wt_quit t) (wt_freed t) (wt_misused t) (wt_started t)
  | _ => t
  end.
Definition destroy_if (b : bool) (during : list Message) (t : WindowThread) : WindowThread :=
  if b then DestroyWindow during t else t.

(** The end of the thread: the box is freed, the ends of the channels are dropped. *)
Definition thread_return (t : WindowThread) (handle : Z) (started : option (result WindowError unit)) : WindowThread :=
  let w := wt_shared t in
  mkWindowThread (nw_with_shared (wt_native t)
      (ws_with w (ws_commands w) (ws_control w) (ws_normal w) (ws_render w) handle false))
    Thread_Returned (wt_hwnd t) (wt_quit t) (S (wt_freed t)) (wt_misused t) started.
Definition create_failed (t : WindowThread) : WindowThread :=
  thread_return t (ws_native_handle (wt_shared t)) (Some (Err Window_ThreadStart)).
Definition native_created (t : WindowThread) (hwnd : Z) : WindowThread :=
  let w := wt_shared t in
  mkWindowThread (nw_with_shared (wt_native t)
      (ws_with w (ws_commands w) (ControlEventQueue_push (ws_control w) (Window_FocusChanged false)) (ws_normal w)
         (ws_render w) hwnd (ws_running w)))
    Thread_Flag Hwnd_Alive (wt_quit t) (wt_freed t) (wt_misused t) (Some (Ok tt)).

Inductive ControllerOp :=
  | Controller_Send (c : WindowCommand)
  | Controller_NextEvent
  | Controller_RenderLatest (f : DecodedFrameJob)
  | Controller_RequestShutdown.
Definition controller_op (w : WindowShared) (op : ControllerOp) : WindowShared :=
  match op with
  | Controller_Send c => snd (WindowController_try_send w c)
  | Controller_NextEvent => snd (try_next_event w)
  | Controller_RenderLatest f => snd (render_latest w f)
  | Controller_RequestShutdown => request_shutdown w
  end.

(** [Wt_Create] has the messages sent by [CreateWindowExW] and its answer, [Some 0] being an
    invalid handle.  [disconnected] says whether the empty channel is disconnected. *)
Inductive ThreadStep :=
  | Wt_Create (sent : list Message) (hwnd : option Z)
  | Wt_Flag (during : list Message)
  | Wt_Command (disconnected : bool) (during : list Message)
  | Wt_Dispatch (m : Message) (during : list Message)
  | Wt_NoMessage
  | Wt_Quit
  | Wt_Controller (op : ControllerOp).

Definition step_during (step : ThreadStep) : list Message :=
  match step with Wt_Flag during | Wt_Command _ during | Wt_Dispatch _ during => during | _ => [] end.

Definition native_run_step (t : WindowThread) (step : ThreadStep) : option WindowThread :=
  if negb (forallb is_plain (step_during step)) then None else
  match step, wt_point t with
  | Wt_Create sent hwnd, Thread_Creating =>
      let t' := foldl deliver_message t sent in
      match hwnd with
      | None => Some (create_failed t')
      | Some hwnd =>
          if hwnd =? 0 then Some (create_failed t')
          else if existsb is_nccreate sent && forallb (λ m, is_nccreate m || is_plain m) sent
          then Some (native_created t' hwnd) else None
      end
  | Wt_Flag during, Thread_Flag =>
      Some (wt_at (destroy_if (ws_shutdown_requested (wt_shared t)) during t) Thread_Commands)
  | Wt_Command disconnected during, Thread_Commands =>
      let w := wt_shared t in
      match ws_commands w with
      | c :: commands =>
          let '(calls, w) := native_command
            (ws_with w commands (ws_control w) (ws_normal w) (ws_render w) (ws_native_handle w) (ws_running w)) c in
          Some (destroy_if (destroys calls) during (wt_with_native t (nw_with_shared (wt_native t) w)))
      | [] => Some (wt_at (destroy_if disconnected during t) Thread_Messages)
      end
  | Wt_Dispatch m during, Thread_Messages =>
      match wt_hwnd t with
      | Hwnd_Alive =>
          if is_nccreate m || match m with WM_DESTROY => true | _ => false end then None
          else Some (destroy_if (destroys (fst (window_proc gks (wt_native t) m))) during (deliver_message t m))
      | _ => None
      end
  | Wt_NoMessage, Thread_Messages => if wt_quit t then None else Some (wt_at t Thread_Flag)
  | Wt_Quit, Thread_Messages => if wt_quit t then Some (thread_return t 0 (wt_started t)) else None
  | Wt_Controller op, _ =>
      Some (wt_with_native t (nw_with_shared (wt_native t) (controller_op (wt_shared t) op)))
  | _, _ => None
  end.
Fixpoint native_run (t : WindowThread) (steps : list ThreadStep) : option WindowThread :=
  match steps with [] => Some t | step :: steps => t ← native_run_step t step; native_run t steps end.

(** ** What a message leaves alone *)

Record same_window (w w' : WindowShared) : Prop := {
  sw_handle : ws_native_handle w' = ws_native_handle w;
  sw_running : ws_running w' = ws_running w;
  sw_shutdown : ws_shutdown_requested w' = ws_shutdown_requested w
}.
#[local] Instance same_window_preorder : PreOrder same_window.
Proof. split; [by split|]. intros ??? [] []. split; congruence. Qed.

Lemma window_proc_frame n m :
  let '(calls, n') := window_proc gks n m in
  same_window (nw_shared n) (nw_shared n') ∧ nw_attached n' = nw_attached n || is_nccreate m ∧
  posts_quit calls = nw_attached n && match m with WM_DESTROY => true | _ => false end ∧
  destroys calls = nw_attached n && match m with WM_CLOSE => true | _ => false end.
Proof.
  destruct n as [w pending [|]]; [|by destruct m]. destruct m; try by repeat split.
  all: cbn; unfold nw_send_input; repeat case_match; simplify_eq/=; by repeat split.
Qed.
Lemma controller_op_frame w op : window_wf w →
  window_wf (controller_op w op) ∧ ws_native_handle (controller_op w op) = ws_native_handle w ∧
  ws_running (controller_op w op) = ws_running w ∧
  (ws_shutdown_requested w = true → ws_shutdown_requested (controller_op w op) = true).
Proof.
  intros Hw. destruct op; cbn.
  - split; [by apply try_send_wf|]. unfold WindowController_try_send. by repeat case_match.
  - split; [by apply try_next_event_wf|]. unfold try_next_event. by repeat case_match.
  - split; [by apply render_latest_wf|]. unfold render_latest. by repeat case_match.
  - split; [by apply request_shutdown_wf|]. unfold request_shutdown, WindowController_try_send.
    cbn. by repeat case_match.
Qed.
Lemma native_command_frame w c calls w' : native_command w c = (calls, w') → same_window w w'.
Proof. destruct c; cbn; repeat case_match; intros [= <- <-]; by split. Qed.

(** What deliveries to a window that has its state keep. *)
Record delivered (t t' : WindowThread) : Prop := {
  de_same : same_window (wt_shared t) (wt_shared t');
  de_wf : window_wf (wt_shared t');
  de_attached : nw_attached (wt_native t) = true → nw_attached (wt_native t') = true;
  de_point : wt_point t' = wt_point t;
  de_hwnd : wt_hwnd t' = wt_hwnd t;
  de_freed : wt_freed t' = wt_freed t;
  de_misused : wt_freed t = 0%nat → wt_misused t' = wt_misused t;
  de_started : wt_started t' = wt_started t
}.
Lemma delivered_refl t : window_wf (wt_shared t) → delivered t t.
Proof. intros. by split. Qed.
Lemma delivered_trans t1 t2 t3 : delivered t1 t2 → delivered t2 t3 → delivered t1 t3.
Proof.
  intros [S1 ? A1 P1 H1 F1 M1 E1] [S2 ? A2 P2 H2 F2 M2 E2]. split; [by etrans|done|auto|by etrans..|by etrans| |by etrans].
  intros F. rewrite M2 by (by rewrite F1). auto.
Qed.

Lemma deliver_ok t m : window_wf (wt_shared t) →
  delivered t (deliver_message t m) ∧
  nw_attached (wt_native (deliver_message t m)) = nw_attached (wt_native t) || is_nccreate m ∧
  wt_quit (deliver_message t m) = wt_quit t || nw_attached (wt_native t) && match m with WM_DESTROY => true | _ => false end.
Proof.
  intros Hw. unfold deliver_message. pose proof (window_proc_frame (wt_native t) m) as Hf.
  pose proof (step_message gks (wt_native t) m) as Hs. apply window_step_wf in Hs; [|exact Hw].
  destruct (window_proc gks (wt_native t) m) as [calls n]. destruct Hf as (Hsame & Ha & Hq & _).
  split; [|cbn; by rewrite Hq]. split; cbn; try done.
  - rewrite Ha. by intros ->.
  - intros ->. by rewrite andb_false_r, orb_false_r.
Qed.
Lemma deliver_all_ok ms : ∀ t, window_wf (wt_shared t) →
  delivered t (foldl deliver_message t ms) ∧
  nw_attached (wt_native (foldl deliver_message t ms)) = nw_attached (wt_native t) || existsb is_nccreate ms ∧
  (forallb (λ m, is_nccreate m || is_plain m) ms = true → wt_quit (foldl deliver_message t ms) = wt_quit t).
Proof.
  induction ms as [|m ms IH]; intros t Hw; cbn.
  - split_and!; [by apply delivered_refl|by rewrite orb_false_r|done].
  - destruct (deliver_ok t m Hw) as (Hd & Ha & Hq). destruct (IH (deliver_message t m)) as (Hd' & Ha' & Hq'); [apply Hd|].
    split_and!; [by eapply delivered_trans|by rewrite Ha', Ha, orb_assoc|].
    intros [Hm ?]%andb_true_iff. rewrite Hq', Hq by done. destruct m; cbn in *; by rewrite ?andb_false_r, ?orb_false_r.
Qed.

(** Destroying a window that has its state sends [Closed] and posts [WM_QUIT]. *)
Lemma DestroyWindow_ok during t :
  window_wf (wt_shared t) → nw_attached (wt_native t) = true → wt_hwnd t = Hwnd_Alive →
  let t' := DestroyWindow during t in
  wt_hwnd t' = Hwnd_Destroyed ∧ wt_quit t' = true ∧ nw_attached (wt_native t') = true ∧
  Window_Closed ∈ ws_control (wt_shared t') ∧ window_wf (wt_shared t') ∧
  same_window (wt_shared t) (wt_shared t') ∧ wt_point t' = wt_point t ∧ wt_freed t' = wt_freed t ∧
  wt_started t' = wt_started t ∧ (wt_freed t = 0%nat → wt_misused t' = wt_misused t).
Proof.
  intros Hw Ha Hh. unfold DestroyWindow. rewrite Hh.
  destruct (deliver_all_ok during t Hw) as (Hd1 & Ha1 & _). set (t1 := foldl deliver_message t during) in *.
  rewrite Ha in Ha1. cbn in Ha1.
  destruct (deliver_ok t1 WM_DESTROY) as (Hd2 & Ha2 & Hq2); [apply Hd1|].
  assert (Window_Closed ∈ ws_control (wt_shared (deliver_message t1 WM_DESTROY))) as Hin.
  { unfold deliver_message, wt_shared. cbn. rewrite Ha1. cbn.
    destruct (push_closed (ws_control (nw_shared (wt_native t1)))) as (a & b & -> & _);
      [apply (wf_control _ (de_wf _ _ Hd1))|set_solver]. }
  set (t2 := deliver_message t1 WM_DESTROY) in *. rewrite Ha1 in Ha2, Hq2. cbn in Ha2, Hq2.
  destruct (deliver_ok t2 WM_NCDESTROY) as (Hd3 & Ha3 & Hq3); [apply Hd2|].
  assert (wt_shared (deliver_message t2 WM_NCDESTROY) = wt_shared t2) as Hs3.
  { unfold deliver_message, wt_shared. cbn. by rewrite Ha2. }
  pose proof (delivered_trans _ _ _ Hd1 (delivered_trans _ _ _ Hd2 Hd3)) as [].
  cbn. unfold wt_shared in *. cbn. rewrite Hs3 in *. split_and!; try done.
  - rewrite Hq3, Hq2. by rewrite !orb_true_r.
  - by rewrite Ha3, Ha2.
Qed.

(** ** The invariant of the thread *)

Definition in_loop (p : ThreadPoint) : bool :=
  match p with Thread_Creating | Thread_Returned => false | _ => true end.
Definition loop_inv (t : WindowThread) : Prop :=
  wt_freed t = 0%nat ∧ nw_attached (wt_native t) = true ∧
  (wt_hwnd t = Hwnd_Alive ∧ wt_quit t = false ∨ wt_hwnd t = Hwnd_Destroyed ∧ wt_quit t = true) ∧
  ws_native_handle (wt_shared t) ≠ 0 ∧ ws_running (wt_shared t) = true ∧ wt_started t = Some (Ok tt).
Record thread_inv (t : WindowThread) : Prop := {
  ti_wf : window_wf (wt_shared t);
  ti_misused : wt_misused t = false;
  ti_point :
    match wt_point t with
    | Thread_Creating => wt_freed t = 0%nat ∧ nw_attached (wt_native t) = false ∧ wt_hwnd t = Hwnd_None ∧
        wt_quit t = false ∧ ws_native_handle (wt_shared t) = 0 ∧ ws_running (wt_shared t) = true
    | Thread_Returned => wt_freed t = 1%nat ∧ wt_hwnd t ≠ Hwnd_Alive ∧ ws_native_handle (wt_shared t) = 0 ∧
        ws_running (wt_shared t) = false ∧ is_Some (wt_started t)
    | _ => loop_inv t
    end
}.

Lemma in_loop_inv t : in_loop (wt_point t) = true →
  (thread_inv t ↔ window_wf (wt_shared t) ∧ wt_misused t = false ∧ loop_inv t).
Proof.
  intros Hl. split; [intros [? ? Hp]|intros (? & ? & ?); split; try done]; destruct (wt_point t); naive_solver.
Qed.
Lemma destroy_if_inv b during t : in_loop (wt_point t) = true → thread_inv t →
  thread_inv (destroy_if b during t) ∧ wt_point (destroy_if b during t) = wt_point t ∧
  same_window (wt_shared t) (wt_shared (destroy_if b during t)) ∧
  (b = true → wt_quit (destroy_if b during t) = true) ∧
  (wt_quit t = true → wt_quit (destroy_if b during t) = true).
Proof.
  intros Hl Hi. pose proof Hi as (Hw & Hm & Hf & Ha & Hh & Hn & Hr & Hs)%in_loop_inv; [|done].
  destruct b; cbn [destroy_if]; [|done]. destruct Hh as [[Hh Hq]|[Hh Hq]].
  - destruct (DestroyWindow_ok during t Hw Ha Hh) as (Hh' & Hq' & Ha' & _ & Hw' & [] & Hp & Hf' & Hs' & Hm').
    split_and!; [|done..]. apply in_loop_inv; [by rewrite Hp|]. split; [done|]. split; [by rewrite Hm'|].
    repeat split; try congruence. by right.
  - unfold DestroyWindow. by rewrite Hh.
Qed.
Lemma loop_move t t' p :
  in_loop (wt_point t) = true → in_loop p = true → thread_inv t → window_wf (wt_shared t') →
  same_window (wt_shared t) (wt_shared t') → nw_attached (wt_native t') = true → wt_point t' = p →
  wt_hwnd t' = wt_hwnd t → wt_quit t' = wt_quit t → wt_freed t' = wt_freed t → wt_misused t' = wt_misused t →
  wt_started t' = wt_started t → thread_inv t'.
Proof.
  intros Hl Hl' (Hw & Hm & Hf & Ha & Hh & Hn & Hr & Hs)%in_loop_inv; [|done].
  intros Hw' [] Ha' Hp Eh Eq Ef Em Es. apply in_loop_inv; [by rewrite Hp|].
  split; [done|]. split; [by rewrite Em|]. repeat split; congruence.
Qed.
Lemma command_step_inv t disconnected during t' :
  wt_point t = Thread_Commands → thread_inv t →
  native_run_step t (Wt_Command disconnected during) = Some t' →
  thread_inv t' ∧ (wt_quit t = true → wt_quit t' = true) ∧ same_window (wt_shared t) (wt_shared t').
Proof.
  intros Hp Hi. unfold native_run_step. destruct (negb _); [done|]. rewrite Hp.
  assert (in_loop (wt_point t) = true) as Hl by by rewrite Hp.
  destruct (ws_commands (wt_shared t)) as [|c commands] eqn:Ec.
  - intros [= <-]. destruct (destroy_if_inv disconnected during t Hl Hi) as (Hi' & Hp' & Hs' & _ & Hq).
    split_and!; [|done..]. assert (in_loop (wt_point (destroy_if disconnected during t)) = true) as Hl' by by rewrite Hp'.
    eapply (loop_move (destroy_if disconnected during t) _ Thread_Messages); try done; try apply Hi'; try by split.
    by apply in_loop_inv in Hi' as (_ & _ & _ & ? & _).
  - pose proof Hi as (Hw & _ & _ & Ha & _)%in_loop_inv; [|done].
    set (w := ws_with _ _ _ _ _ _ _). destruct (native_command w c) as [calls w'] eqn:En. intros [= <-].
    assert (window_wf w) as Hww.
    { destruct Hw. rewrite Ec in *. split; cbn; try done; [rewrite len_cons in *; lia|by inv wf_commands_valid]. }
    pose proof (native_command_wf w c Hww) as Hw'. rewrite En in Hw'. apply native_command_frame in En.
    assert (same_window (wt_shared t) w') as Hs by (etrans; [|exact En]; by split).
    set (t1 := wt_with_native t _). assert (thread_inv t1) as Hi1.
    { eapply (loop_move t t1 Thread_Commands); try done. }
    destruct (destroy_if_inv (destroys calls) during t1) as (Hi' & _ & Hs' & _ & Hq); [by cbn; rewrite Hp|done|].
    split_and!; [done|exact Hq|]. by etrans.
Qed.
Lemma create_step_inv t sent hwnd t' :
  wt_point t = Thread_Creating → thread_inv t → native_run_step t (Wt_Create sent hwnd) = Some t' → thread_inv t'.
Proof.
  intros Hp [Hw Hm Hpt]. rewrite Hp in Hpt. destruct Hpt as (Hf & Ha & Hh & Hq & Hn & Hr).
  unfold native_run_step. rewrite Hp. cbn [step_during forallb negb].
  destruct (deliver_all_ok sent t Hw) as ([[Hdh Hdr Hds] Hdw _ Hdp Hdw' Hdf Hdm Hde] & Ha' & Hq').
  rewrite Ha in Ha'. cbn in Ha'. set (t1 := foldl deliver_message t sent) in *.
  assert (thread_inv (create_failed t1)) as Hfail.
  { split; cbn; [destruct Hdw; by split|by rewrite Hdm|]. unfold wt_shared in *. cbn. rewrite Hdf, Hf, Hdw', Hh, Hdh. by eauto. }
  destruct hwnd as [hwnd|]; [|by intros [= <-]]. destruct (Z.eqb_spec hwnd 0); [by intros [= <-]|].
  destruct (existsb _ _); [|done]. destruct (forallb _ _); [|done]. intros [= <-].
  apply in_loop_inv; [done|]. cbn. split; [|split; [by rewrite Hdm|]].
  - unfold wt_shared. cbn. apply control_push_wf; [exact Hdw|done|]. destruct Hdw. by split.
  - repeat split; cbn; try done; unfold wt_shared in *; cbn; try congruence. left. by rewrite Hq'.
Qed.
Lemma dispatch_step_inv t m during t' :
  wt_point t = Thread_Messages → thread_inv t → native_run_step t (Wt_Dispatch m during) = Some t' →
  thread_inv t' ∧ (wt_quit t = true → wt_quit t' = true) ∧ same_window (wt_shared t) (wt_shared t').
Proof.
  intros Hp Hi. unfold native_run_step. destruct (negb _); [done|]. rewrite Hp.
  assert (in_loop (wt_point t) = true) as Hl by by rewrite Hp.
  pose proof Hi as (Hw & _ & Hf & Ha & _)%in_loop_inv; [|done].
  destruct (wt_hwnd t); try done. destruct (is_nccreate m || _) eqn:Em; [done|]. intros [= <-].
  apply orb_false_elim in Em as [Em Ed].
  destruct (deliver_ok t m Hw) as (Hd & Ha' & Hq). rewrite Ha in Ha', Hq. cbn in Ha', Hq. rewrite Ed, orb_false_r in Hq.
  pose proof Hd as [Hds Hdw _ Hdp Hdh Hdf Hdm Hde].
  assert (thread_inv (deliver_message t m)) as Hi1.
  { eapply (loop_move t _ Thread_Messages); try done; [congruence|auto]. }
  destruct (destroy_if_inv (destroys (window_proc gks (wt_native t) m).1) during (deliver_message t m))
    as (Hi' & _ & Hs' & _ & Hq'); [by rewrite Hdp|done|].
  split_and!; [done| |by etrans]. intros. apply Hq'. congruence.
Qed.
Lemma controller_step_inv t op t' :
  thread_inv t → native_run_step t (Wt_Controller op) = Some t' →
  thread_inv t' ∧ wt_quit t' = wt_quit t ∧ wt_point t' = wt_point t ∧
  (ws_shutdown_requested (wt_shared t) = true → ws_shutdown_requested (wt_shared t') = true).
Proof.
  intros [Hw Hm Hp] E. destruct (controller_op_frame (wt_shared t) op Hw) as (Hw' & Hh & Hr & Hs).
  assert (t' = wt_with_native t (nw_with_shared (wt_native t) (controller_op (wt_shared t) op))) as ->.
  { cbn in E. destruct (wt_point t); by injection E. }
  split_and!; [|done..]. split; [done..|]. cbn [wt_point wt_with_native].
  destruct (wt_point t); unfold loop_inv, wt_shared in *; cbn; by rewrite Hh, Hr.
Qed.
Lemma thread_step_inv t step t' : thread_inv t → native_run_step t step = Some t' → thread_inv t'.
Proof.
  intros Hi E. destruct step as [sent hwnd|during|disconnected during|m during| | |op]; [..|by eapply controller_step_inv in E as []].
  all: destruct (wt_point t) eqn:Hp; try (unfold native_run_step in E; rewrite Hp in E; destruct (negb _); done).
  - by eapply create_step_inv.
  - unfold native_run_step in E. rewrite Hp in E. destruct (negb _); [done|]. injection E as <-.
    destruct (destroy_if_inv (ws_shutdown_requested (wt_shared t)) during t) as (Hi' & Hp' & _); [by rewrite Hp|done|].
    set (t1 := destroy_if _ _ _) in *. assert (in_loop (wt_point t1) = true) as Hl by by rewrite Hp', Hp.
    eapply (loop_move t1 _ Thread_Commands); try done; try apply Hi'; try by split.
    by apply in_loop_inv in Hi' as (_ & _ & _ & ? & _).
  - by eapply command_step_inv in E as (? & _).
  - by eapply dispatch_step_inv in E as (? & _).
  - unfold native_run_step in E. rewrite Hp in E. cbn in E. destruct (wt_quit t); [done|]. injection E as <-.
    pose proof Hi as (Hw & _ & _ & Ha & _)%in_loop_inv; [|by rewrite Hp].
    eapply (loop_move t _ Thread_Flag); try done; by rewrite Hp.
  - unfold native_run_step in E. rewrite Hp in E. cbn in E. destruct (wt_quit t) eqn:Hq; [|done]. injection E as <-.
    apply in_loop_inv in Hi as (Hw & Hm & Hf & Ha & Hh & Hn & Hr & Hs); [|by rewrite Hp].
    split; cbn; [destruct Hw; by split|done|]. rewrite Hf, Hs. split_and!; try done.
    destruct Hh as [[_ ?]|[-> _]]; congruence.
Qed.
Lemma native_run_inv steps : ∀ t t', thread_inv t → native_run t steps = Some t' → thread_inv t'.
Proof.
  induction steps as [|step steps IH]; intros t t' Ht; cbn; [by intros [= <-]|].
  intros (t1 & E & H)%bind_Some. eapply IH; [|done]. by eapply thread_step_inv.
Qed.
Lemma window_start_inv config w :
  WindowConfig_typed config → WindowController_start config = Ok w → thread_inv (WindowThread_new w).
Proof.
  intros Ht Hw. unfold WindowController_start in Hw. destruct (validate_config config) as [[]|] eqn:Ec; [|done].
  injection Hw as <-. split; [|done|by repeat split]. unfold WindowConfig_typed, uint in Ht.
  split; cbn; rewrite ?len_nil; try done; lia.
Qed.

(** ** Ownership of the state, and the end of the thread *)

(** C39. Ownership of the window's state, for every interleaving of the thread, the controller
    and the windowing system.  The boxed state is freed exactly once, when the thread
    returns, whether the window could be created or not; no message finds it freed; and a
    window that exists has it.  The handle of the window is published exactly while the
    thread is in its loop, a thread that returned has reported how it started, and commands
    sent to it are refused. *)
Theorem window_state_owned config w steps t :
  WindowConfig_typed config → WindowController_start config = Ok w →
  native_run (WindowThread_new w) steps = Some t →
  wt_misused t = false ∧ wt_freed t = (if decide (wt_point t = Thread_Returned) then 1 else 0)%nat ∧
  (wt_hwnd t = Hwnd_Alive → wt_freed t = 0%nat ∧ nw_attached (wt_native t) = true) ∧
  (is_Some (native_handle (wt_shared t)) ↔ in_loop (wt_point t) = true) ∧
  (wt_point t = Thread_Returned → is_Some (wt_started t) ∧
     ∀ c, is_ok (fst (WindowController_try_send (wt_shared t) c)) = false).
Proof.
  intros Ht Hw Hrun. apply native_run_inv in Hrun as [Hwf Hm Hp]; [|by eapply window_start_inv].
  split; [done|]. assert (is_Some (native_handle (wt_shared t)) ↔ ws_native_handle (wt_shared t) ≠ 0) as ->.
  { unfold native_handle. destruct (Z.eqb_spec (ws_native_handle (wt_shared t)) 0);
      split; first [by intros [] | done | by eauto]. }
  assert (∀ p, wt_point t = p → in_loop p = true → loop_inv t) as Hloop.
  { intros p <-. by destruct (wt_point t). }
  destruct (decide (wt_point t = Thread_Returned)) as [Ep|Ep]; [rewrite Ep in Hp|destruct (in_loop (wt_point t)) eqn:El].
  - destruct Hp as (Hf & Hh & Hn & Hr & Hs). rewrite Hn, Ep. split_and!; try done. intros _. split; [done|].
    intros c. unfold WindowController_try_send. rewrite Hr. by destruct (validate_command _ _).
  - destruct (Hloop _ eq_refl El) as (Hf & Ha & _ & Hn & _). by split_and!.
  - destruct (wt_point t); try done. destruct Hp as (Hf & _ & Hh & _ & Hn & _). rewrite Hh, Hn. by split_and!.
Qed.

(** A thread that is to stop does.  [wind_down] counts the steps, other than the dispatch of
    messages, that are left once the flag is set. *)
Definition wind_down (t : WindowThread) : nat :=
  let commands := length (ws_commands (wt_shared t)) in
  match wt_point t with
  | Thread_Creating => commands + 4
  | Thread_Flag => commands + 3
  | Thread_Commands => commands + (if wt_quit t then 2 else 5)
  | Thread_Messages => if wt_quit t then 1 else commands + 4
  | Thread_Returned => 0
  end%nat.
Definition own_step (step : ThreadStep) : bool :=
  match step with Wt_Dispatch _ _ | Wt_Controller _ => false | _ => true end.
(** The controller may still read events and hand over frames. *)
Definition no_command (step : ThreadStep) : bool :=
  match step with Wt_Controller (Controller_Send _ | Controller_RequestShutdown) => false | _ => true end.

Lemma deliver_commands t m : ws_commands (wt_shared (deliver_message t m)) = ws_commands (wt_shared t).
Proof.
  unfold deliver_message, wt_shared. destruct (wt_native t) as [w pending [|]]; [|by destruct m].
  destruct m; try done; cbn; unfold nw_send_input; by repeat case_match.
Qed.
Lemma destroy_commands b during t : ws_commands (wt_shared (destroy_if b during t)) = ws_commands (wt_shared t).
Proof.
  destruct b; [|done]. cbn. unfold DestroyWindow. destruct (wt_hwnd t); [done| |done]. unfold wt_shared at 1. cbn.
  change (ws_commands (wt_shared (deliver_message (deliver_message (foldl deliver_message t during) WM_DESTROY) WM_NCDESTROY)) = ws_commands (wt_shared t)).
  rewrite !deliver_commands. revert t. induction during as [|m during IH]; intros t; cbn; [done|].
  by rewrite IH, deliver_commands.
Qed.
Lemma native_command_commands w c calls w' : native_command w c = (calls, w') → ws_commands w' = ws_commands w.
Proof. destruct c; cbn; repeat case_match; by intros [= <- <-]. Qed.
Lemma deliver_all_commands ms t : ws_commands (wt_shared (foldl deliver_message t ms)) = ws_commands (wt_shared t).
Proof. revert t. induction ms as [|m ms IH]; intros t; cbn; [done|]. by rewrite IH, deliver_commands. Qed.

Lemma deliver_point t m : wt_point (deliver_message t m) = wt_point t.
Proof. unfold deliver_message. by destruct (window_proc gks (wt_native t) m). Qed.
Lemma destroy_point b during t : wt_point (destroy_if b during t) = wt_point t.
Proof.
  destruct b; [|done]. cbn. unfold DestroyWindow. destruct (wt_hwnd t); [done| |done]. cbn. rewrite !deliver_point.
  revert t. induction during as [|m during IH]; intros t; cbn; [done|]. by rewrite IH, deliver_point.
Qed.

(** One step costs at least what it counts for. *)
Definition winds (step : ThreadStep) (t t' : WindowThread) : Prop :=
  ws_shutdown_requested (wt_shared t') = true ∧ (wind_down t' + (if own_step step then 1 else 0) ≤ wind_down t)%nat.
Lemma create_winds t sent hwnd t' :
  wt_point t = Thread_Creating → thread_inv t → ws_shutdown_requested (wt_shared t) = true →
  native_run_step t (Wt_Create sent hwnd) = Some t' → winds (Wt_Create sent hwnd) t t'.
Proof.
  intros Hp Hi Hs E. destruct (deliver_all_ok sent t (ti_wf _ Hi)) as ([[_ _ Hds] _ _ _ _ _ _ _] & _).
  pose proof (deliver_all_commands sent t) as Hc. rewrite Hs in Hds.
  unfold native_run_step in E. rewrite Hp in E. cbn [step_during forallb negb] in E.
  set (t1 := foldl deliver_message t sent) in *. unfold winds, wind_down. rewrite Hp. cbn [own_step].
  assert (t' = create_failed t1 ∨ ∃ h, t' = native_created t1 h) as [-> | [h ->]].
  { destruct hwnd as [hwnd|]; [|injection E as <-; auto]. destruct (hwnd =? 0); [injection E as <-; auto|].
    destruct (_ && _); [|done]. injection E as <-. eauto. }
  all: rewrite <-Hc; split; [exact Hds|unfold wt_shared; cbn; unfold wt_shared; lia].
Qed.
Lemma flag_winds t during t' :
  wt_point t = Thread_Flag → thread_inv t → ws_shutdown_requested (wt_shared t) = true →
  native_run_step t (Wt_Flag during) = Some t' → winds (Wt_Flag during) t t'.
Proof.
  intros Hp Hi Hs E. unfold native_run_step in E. rewrite Hp in E. destruct (negb _); [done|]. injection E as <-.
  destruct (destroy_if_inv (ws_shutdown_requested (wt_shared t)) during t) as (_ & _ & [_ _ Hs'] & Hq & _); [by rewrite Hp|done|].
  pose proof (destroy_commands (ws_shutdown_requested (wt_shared t)) during t) as Hc.
  set (t1 := destroy_if _ _ _) in *. rewrite Hs in Hs'. unfold winds, wind_down, wt_shared in *. cbn.
  rewrite Hp, Hc, Hq by done. split; [exact Hs'|lia].
Qed.
Lemma command_winds t disconnected during t' :
  wt_point t = Thread_Commands → thread_inv t → ws_shutdown_requested (wt_shared t) = true →
  native_run_step t (Wt_Command disconnected during) = Some t' → winds (Wt_Command disconnected during) t t'.
Proof.
  intros Hp Hi Hs E. pose proof E as (_ & Hq & [_ _ Hs'])%command_step_inv; [|done..]. rewrite Hs in Hs'. split; [done|].
  unfold native_run_step in E. rewrite Hp in E. destruct (negb _); [done|]. unfold wind_down. rewrite Hp.
  destruct (ws_commands (wt_shared t)) as [|c commands] eqn:Ec.
  - injection E as <-. change (wt_shared (wt_at ?t _)) with (wt_shared t) in *. rewrite destroy_commands, Ec. cbn in *.
    destruct (wt_quit (destroy_if _ _ _)), (wt_quit t); lia || by discriminate Hq.
  - destruct (native_command _ c) as [calls w'] eqn:En. apply native_command_commands in En. cbn in En. injection E as <-.
    rewrite destroy_point, destroy_commands. unfold wt_shared. cbn. rewrite Hp, En. cbn.
    destruct (wt_quit (destroy_if _ _ _)), (wt_quit t); lia || by discriminate Hq.
Qed.
Lemma dispatch_winds t m during t' :
  wt_point t = Thread_Messages → thread_inv t → ws_shutdown_requested (wt_shared t) = true →
  native_run_step t (Wt_Dispatch m during) = Some t' → winds (Wt_Dispatch m during) t t'.
Proof.
  intros Hp Hi Hs E. pose proof E as (_ & Hq & [_ _ Hs'])%dispatch_step_inv; [|done..]. rewrite Hs in Hs'. split; [done|].
  unfold native_run_step in E. rewrite Hp in E. destruct (negb _); [done|]. destruct (wt_hwnd t); [done| |done].
  destruct (_ || _); [done|]. injection E as <-. unfold wind_down.
  rewrite destroy_point, destroy_commands, deliver_point, deliver_commands, Hp. cbn.
  destruct (wt_quit (destroy_if _ _ _)), (wt_quit t); lia || by discriminate Hq.
Qed.
Lemma controller_winds t op t' :
  thread_inv t → ws_shutdown_requested (wt_shared t) = true → no_command (Wt_Controller op) = true →
  native_run_step t (Wt_Controller op) = Some t' → winds (Wt_Controller op) t t'.
Proof.
  intros Hi Hs Hn E. pose proof E as (_ & Hq & Hp & Hs')%controller_step_inv; [|done]. split; [auto|].
  assert (ws_commands (wt_shared t') = ws_commands (wt_shared t)) as Hc.
  { cbn in E. destruct op; try done; destruct (wt_point t); injection E as <-; unfold wt_shared; cbn;
      unfold try_next_event, render_latest; repeat case_match; done. }
  unfold wind_down. rewrite Hq, Hp, Hc. cbn. lia.
Qed.
Lemma wind_down_step t step t' :
  thread_inv t → ws_shutdown_requested (wt_shared t) = true → no_command step = true →
  native_run_step t step = Some t' → winds step t t'.
Proof.
  intros Hi Hs Hn E. destruct step as [sent hwnd|during|disconnected during|m during| | |op]; [..|by apply controller_winds].
  all: destruct (wt_point t) eqn:Hp; try (unfold native_run_step in E; rewrite Hp in E; destruct (negb _); done).
  1: by apply create_winds. 1: by apply flag_winds. 1: by apply command_winds. 1: by apply dispatch_winds.
  all: unfold native_run_step in E; rewrite Hp in E; cbn in E; destruct (wt_quit t) eqn:Hq; try done.
  all: injection E as <-; split; [done|]; unfold wind_down; rewrite Hp, Hq; unfold wt_shared; cbn; lia.
Qed.

(** Stopping the window.  Once shutdown is requested, also while the window is still being
    created, and whatever the system and the controller do short of sending further
    commands, at most [wind_down] steps other than dispatches are left to the thread; and
    it is only at rest when it has returned, with the state freed and the handle cleared. *)
Theorem window_thread_winds_down config w steps t more t' :
  WindowConfig_typed config → WindowController_start config = Ok w →
  native_run (WindowThread_new w) steps = Some t → ws_shutdown_requested (wt_shared t) = true →
  forallb no_command more = true → native_run t more = Some t' →
  (length (List.filter own_step more) ≤ wind_down t)%nat ∧
  ((∀ step, own_step step = true → native_run_step t' step = None) →
   wt_point t' = Thread_Returned ∧ wt_freed t' = 1%nat ∧ native_handle (wt_shared t') = None).
Proof.
  intros Ht Hw Hrun Hs Hn Hmore. apply native_run_inv in Hrun as Hi; [|by eapply window_start_inv].
  clear Hrun. assert (thread_inv t') as Hi' by by eapply native_run_inv. split.
  - clear Hi'. revert t Hi Hs Hmore. induction more as [|step more IH]; intros t Hi Hs; cbn in *; [lia|].
    apply andb_true_iff in Hn as [Hn1 Hn2]. intros (t1 & E & Hrest)%bind_Some.
    destruct (wind_down_step t step t1 Hi Hs Hn1 E) as [Hs1 Hle].
    specialize (IH Hn2 t1 (thread_step_inv _ _ _ Hi E) Hs1 Hrest). destruct (own_step step); cbn; lia.
  - intros Hrest. assert (wt_point t' = Thread_Returned) as Hp.
    { destruct (wt_point t') eqn:Hp; [..|done]; exfalso.
      - specialize (Hrest (Wt_Create [] None) eq_refl). unfold native_run_step in Hrest. by rewrite Hp in Hrest.
      - specialize (Hrest (Wt_Flag []) eq_refl). unfold native_run_step in Hrest. by rewrite Hp in Hrest.
      - specialize (Hrest (Wt_Command false []) eq_refl). unfold native_run_step in Hrest. rewrite Hp in Hrest. cbn in Hrest.
        destruct (ws_commands _); [done|]. by destruct (native_command _ _).
      - destruct (wt_quit t') eqn:Hq.
        + specialize (Hrest Wt_Quit eq_refl). unfold native_run_step in Hrest. by rewrite Hp, Hq in Hrest.
        + specialize (Hrest Wt_NoMessage eq_refl). unfold native_run_step in Hrest. by rewrite Hp, Hq in Hrest. }
    destruct Hi' as [_ _ Hpt]. rewrite Hp in Hpt. destruct Hpt as (Hf & _ & Hh & _). unfold native_handle. by rewrite Hh.
Qed.
End thread.

(** A window that is shown, gets a close message and is torn down. *)
Definition sample_window_steps : list ThreadStep :=
  [Wt_Create [WM_NCCREATE; WM_SIZE 13107400] (Some 7); Wt_Controller (Controller_Send Command_RequestFocus); Wt_Flag [];
   Wt_Command false []; Wt_Command false []; Wt_Dispatch (WM_CHAR 65) []; Wt_Dispatch WM_CLOSE [WM_KILLFOCUS]; Wt_Quit].
Lemma window_state_owned_witness :
  ∃ w t, WindowController_start WindowConfig_default = Ok w ∧
    native_run (λ _, 0) (WindowThread_new w) sample_window_steps = Some t ∧
    wt_point t = Thread_Returned ∧ wt_misused t = false ∧ wt_freed t = 1%nat ∧ is_Some (wt_started t).
Proof.
  eexists _, _. split; [reflexivity|]. split; [vm_compute; reflexivity|]. split; [reflexivity|].
  destruct (window_state_owned (λ _, 0) WindowConfig_default _ sample_window_steps _
    ltac:(vm_compute; repeat split; discriminate) eq_refl ltac:(vm_compute; reflexivity)) as (H1 & H2 & _ & _ & H5).
  split; [exact H1|]. split; [exact H2|]. apply H5. reflexivity.
Defined.

(** ** The handle of the thread *)

(** [reap_window_worker] gives the handle to a reaper, or joins it when none can be made. *)
Definition reap_window_worker (spawned : bool) : HandleFate := if spawned then Fate_Reaper else Fate_JoinedLate.

(** [WindowController::start] after the spawn of the thread: what the thread reported within
    the two seconds, if anything.  The flag that is set at a timeout ends the thread. *)
Definition window_start (config : WindowConfig) (spawned : bool) (report : option (result WindowError unit))
    (reaper : bool) : result WindowError WindowShared * HandleFate * bool :=
  match WindowController_start config with
  | Err e => (Err e, Fate_None, false)
  | Ok w =>
      if negb spawned then (Err Window_ThreadStart, Fate_None, false) else
      match report with
      | Some (Ok _) => (Ok w, Fate_None, false)
      | Some (Err e) => (Err e, Fate_Joined, false)
      | None => (Err Window_StartupTimeout, reap_window_worker reaper, true)
      end
  end.

(** [WindowController::shutdown] after the request; [worker] says whether the controller
    still has the handle, [panicked] how the thread ended. *)
Definition window_shutdown (worker : bool) (deadline : Z) (polls : list (bool * Z)) (panicked reaper : bool) :
    option (result WindowError unit * HandleFate) :=
  if negb worker then Some (Ok tt, Fate_None) else
  match shutdown_wait deadline polls with
  | None => None
  | Some (Ok _) => Some (if panicked then Err Window_ThreadStart else Ok tt, Fate_Joined)
  | Some (Err e) => Some (Err e, reap_window_worker reaper)
  end.

(** The thread is never detached: whatever [start] and [shutdown] answer, a spawned thread is
    with the controller, joined, or with a reaper that joins it; and a shutdown that answers
    [Ok] has joined a thread that returned. *)
Lemma window_handle_kept config report reaper deadline polls panicked r fate flag :
  window_start config true report reaper = (r, fate, flag) →
  (is_ok r = true → fate = Fate_None ∧ report = Some (Ok tt)) ∧
  (is_ok (WindowController_start config) = true → is_ok r = false → fate ≠ Fate_None) ∧
  (fate = Fate_Reaper ∨ fate = Fate_JoinedLate → flag = true) ∧
  (Exists (λ p : bool * Z, p.1 = true ∨ deadline ≤ p.2) polls →
   ∃ r fate, window_shutdown true deadline polls panicked reaper = Some (r, fate) ∧ fate ≠ Fate_None ∧
     (is_ok r = true → fate = Fate_Joined ∧ panicked = false ∧ ∃ now, (true, now) ∈ polls)).
Proof.
  unfold window_start. intros E. split_and!.
  1-3: destruct (WindowController_start config); destruct report as [[[]|]|], reaper; cbn in E; simplify_eq/=; naive_solver.
  intros Hx. unfold window_shutdown. cbn. induction Hx as [[f now] polls Hf|[f now] polls Hx IH]; cbn in *.
  - destruct f; [|destruct Hf as [|Hf]; [done|]; rewrite (proj2 (Z.leb_le _ _) Hf)].
    + destruct panicked; eexists _, _; split_and!; try done. intros _. split_and!; [done..|]. exists now. set_solver.
    + destruct reaper; by eexists _, _; split_and!.
  - destruct f; [|destruct (deadline <=? now)].
    + destruct panicked; eexists _, _; split_and!; try done. intros _. split_and!; [done..|]. exists now. set_solver.
    + destruct reaper; by eexists _, _; split_and!.
    + destruct IH as (r' & fate' & -> & Hn & Hok). eexists _, _. split_and!; [done..|]. intros Hr.
      destruct (Hok Hr) as (-> & -> & now' & Hin). split_and!; [done..|]. exists now'. set_solver.
Qed.
