(* ===== verification/CursorHandles.v ===== *)
(** * The handles of a cursor snapshot (platform/windows/src/cursor.rs)

    WinInput.v says which snapshot the native calls give.  Here the same code is followed
    call by call: [GetIconInfo] hands over two bitmaps that [IconBitmaps] deletes when it is
    dropped, and [ScreenDc] releases the device context of the screen.  A machine that
    knows which handles are held runs the calls and fails at a use of a handle that is not
    held. *)

From S2P Require Import Prelude VideoTransport Input WinInput.

Open Scope Z_scope.

Inductive GdiCall :=
  | Gdi_GetIconInfo (color mask : bool)    (** the bitmaps that were handed over *)
  | Gdi_GetObject
  | Gdi_GetDC
  | Gdi_GetDIBits
  | Gdi_ReleaseDC
  | Gdi_DeleteColor
  | Gdi_DeleteMask.
Record GdiHandles := mkGdiHandles { gh_color : bool; gh_mask : bool; gh_dc : bool }.
Definition no_handles : GdiHandles := mkGdiHandles false false false.

Definition gdi_call (h : GdiHandles) (c : GdiCall) : option GdiHandles :=
  match c with
  | Gdi_GetIconInfo color mask =>
      if gh_color h || gh_mask h then None else Some (mkGdiHandles color mask (gh_dc h))
  | Gdi_GetObject => if gh_color h then Some h else None
  | Gdi_GetDC => if gh_dc h then None else Some (mkGdiHandles (gh_color h) (gh_mask h) true)
  | Gdi_GetDIBits => if gh_color h && gh_dc h then Some h else None
  | Gdi_ReleaseDC => if gh_dc h then Some (mkGdiHandles (gh_color h) (gh_mask h) false) else None
  | Gdi_DeleteColor => if gh_color h then Some (mkGdiHandles false (gh_mask h) (gh_dc h)) else None
  | Gdi_DeleteMask => if gh_mask h then Some (mkGdiHandles (gh_color h) false (gh_dc h)) else None
  end.
Fixpoint gdi_run (calls : list GdiCall) (h : GdiHandles) : option GdiHandles :=
  match calls with [] => Some h | c :: calls => h ← gdi_call h c; gdi_run calls h end.

Section calls.
Context `{CursorApi}.
Context (GetIconInfo_mask : bool).   (** whether the mask that [GetIconInfo] gives is valid *)

(** [ScreenDc::acquire], the read of the bitmap and the drop of the context. *)
Definition screen_dc_calls (height : Z) : list GdiCall * BackendResult (nat → byte) :=
  if negb GetDC then ([], Err NativeFailure) else
  let '(copied_rows, buffer) := GetDIBits height in
  ([Gdi_GetDC; Gdi_GetDIBits; Gdi_ReleaseDC],
   if negb (copied_rows =? height) then Err NativeFailure else Ok buffer).

Definition rgba_calls (valid : bool) : list GdiCall * BackendResult (Z * Z * bytes) :=
  if negb valid then ([], Err NativeFailure) else
  let checked :=
    size ← ok_or GetObjectW NativeFailure;
    width ← u32_try_from (fst size) InvalidCursorDimensions;
    height ← u32_try_from (snd size) InvalidCursorDimensions;
    guard! (width =? 0) || (height =? 0) || (MAX_DIMENSION <? width) || (MAX_DIMENSION <? height)
      else InvalidCursorDimensions ;;
    bytes ← ok_or (pixels ← checked_mul usize_max width height;
                   b ← checked_mul usize_max pixels 4;
                   if b <=? MAX_RGBA_BYTES then Some b else None) CursorPayloadLength;
    Ok (width, height, bytes) in
  match checked with
  | Err e => ([Gdi_GetObject], Err e)
  | Ok (width, height, bytes) =>
      let '(calls, r) := screen_dc_calls height in
      (Gdi_GetObject :: calls,
       buffer ← r; Ok (width, height, swap_pixels (buffer <$> seq 0 (Z.to_nat bytes))))
  end.

(** The drop of [IconBitmaps]. *)
Definition icon_bitmaps_drop (color mask : bool) : list GdiCall :=
  (if color then [Gdi_DeleteColor] else []) ++ (if mask then [Gdi_DeleteMask] else []).

Definition cursor_calls : list GdiCall * BackendResult CursorSnapshot :=
  match GetCursorInfo with
  | None => ([], Err NativeFailure)
  | Some (showing, x, y) =>
      if negb showing then ([], Ok (mkCursorSnapshot false x y 0 0 0 0 [])) else
      match GetIconInfo with
      | None => ([], Err NativeFailure)
      | Some (xHotspot, yHotspot, color) =>
          let '(calls, r) := rgba_calls color in
          (Gdi_GetIconInfo color GetIconInfo_mask :: calls ++ icon_bitmaps_drop color GetIconInfo_mask,
           '(width, height, rgba) ← r; Ok (mkCursorSnapshot true x y width height xHotspot yHotspot rgba))
      end
  end.

(** The calls of a read leave the handles as they found them. *)
Lemma gdi_run_app calls1 calls2 h : gdi_run (calls1 ++ calls2) h = (h ← gdi_run calls1 h; gdi_run calls2 h).
Proof.
  revert h. induction calls1 as [|c calls1 IH]; intros h; cbn; [done|]. destruct (gdi_call h c); [apply IH|done].
Qed.
Lemma screen_dc_calls_held height mask : gdi_run (screen_dc_calls height).1 (mkGdiHandles true mask false) = Some (mkGdiHandles true mask false).
Proof. unfold screen_dc_calls. destruct (negb GetDC); [done|]. by destruct (GetDIBits height). Qed.
Lemma rgba_calls_held color mask :
  gdi_run (rgba_calls color).1 (mkGdiHandles color mask false) = Some (mkGdiHandles color mask false).
Proof.
  unfold rgba_calls. destruct color; cbn [negb]; [|done].
  match goal with |- context [match ?r with Ok _ => _ | Err _ => _ end] => destruct r as [[[width height] bytes]|]; [|done] end.
  pose proof (screen_dc_calls_held height mask) as Hd. by destruct (screen_dc_calls height).
Qed.
Lemma rgba_calls_result color : (rgba_calls color).2 = rgba_from_color_bitmap color.
Proof.
  unfold rgba_calls, rgba_from_color_bitmap. destruct color; cbn [negb]; [|done].
  destruct (ok_or GetObjectW NativeFailure) as [[w h]|]; [|done]. cbn [mbind result_bind fst snd].
  destruct (u32_try_from w InvalidCursorDimensions) as [width|]; [|done]. cbn [mbind result_bind].
  destruct (u32_try_from h InvalidCursorDimensions) as [height|]; [|done]. cbn [mbind result_bind].
  destruct (_ || _); [done|]. destruct (ok_or _ CursorPayloadLength) as [bytes|]; [|done]. cbn [mbind result_bind].
  unfold screen_dc_calls. destruct (negb GetDC); [done|]. destruct (GetDIBits height) as [rows buffer].
  by destruct (negb (rows =? height)).
Qed.

(** The handles of a snapshot, whatever the native calls answer: no bitmap and no device
    context is used before it was obtained or after it was given back, each is given back
    exactly once, on every path, and none is left at the end; and the calls give the
    snapshot, or the error, of the specification. *)
Theorem cursor_handles_released :
  gdi_run cursor_calls.1 no_handles = Some no_handles ∧ cursor_calls.2 = WindowsCursorApi_snapshot.
Proof.
  unfold cursor_calls, WindowsCursorApi_snapshot. destruct GetCursorInfo as [[[showing x] y]|]; [|done].
  cbn [ok_or mbind result_bind]. destruct showing; cbn [negb]; [|done].
  destruct GetIconInfo as [[[hx hy] color]|]; [|done]. cbn [ok_or mbind result_bind].
  pose proof (rgba_calls_held color GetIconInfo_mask) as Hh. rewrite <-rgba_calls_result.
  destruct (rgba_calls color) as [calls r]. cbn [fst snd] in *. split; [|done].
  change (gdi_run (calls ++ icon_bitmaps_drop color GetIconInfo_mask) (mkGdiHandles color GetIconInfo_mask false) = Some no_handles).
  rewrite gdi_run_app, Hh. by destruct color, GetIconInfo_mask.
Qed.
End calls.
