(* ===== verification/RelayedStream.v ===== *)
(** * The host's stream through the relay

    The host worker's datagrams (HostWorker.v) reach the client over a relay: the network
    between host and relay loses, repeats and reorders datagrams, the relay forwards those
    it reads while its tasks interleave (RelayStreams.v) and may fail to send some, and the
    network between relay and client is no better. *)

From S2P Require Import Prelude Common VideoPacket Crypto VideoTransport Capture Streamer ClientReceiver EndToEnd HostWorker Relay RelayForward RelayStreams.

Open Scope Z_scope.

(** What is left of a sequence of groups are groups of what is left. *)
Lemma sublist_concat {A} (groups : list (list A)) : ∀ l,
  l `sublist_of` concat groups → ∃ groups', l = concat groups' ∧ Forall2 sublist groups' groups.
Proof.
  induction groups as [|g groups IH]; intros l Hl; cbn in Hl.
  - apply sublist_nil_r in Hl as ->. by exists [].
  - apply sublist_app_r in Hl as (l1 & l2 & -> & H1 & H2). destruct (IH l2 H2) as (groups' & -> & Hg).
    exists (l1 :: groups'). by split; [|constructor].
Qed.
(** Two lossy networks in a row are one. *)
Definition drawn_from (arrived datagrams : list bytes) : Prop := Forall (.∈ datagrams) arrived.
Lemma drawn_trans a b c : drawn_from a b → drawn_from b c → drawn_from a c.
Proof. unfold drawn_from. rewrite !Forall_in. auto. Qed.
Lemma drawn_sublist a b : a `sublist_of` b → drawn_from a b.
Proof. intros H. apply Forall_in. intros x Hx. by eapply sublist_subseteq. Qed.

Lemma Forall2_trans_with {A B C} (P : A → B → Prop) (Q : B → C → Prop) (R : A → C → Prop) l k m :
  (∀ x y z, P x y → Q y z → R x z) → Forall2 P l k → Forall2 Q k m → Forall2 R l m.
Proof.
  intros HR Hl. revert m. induction Hl as [|x y l k Hxy Hl IH]; intros m Hm; inv Hm; constructor; eauto.
Qed.

Section relayed.
Context `{AeadLaws}.

(** C24. The stream through the relay.  The host worker never panics, what it sends is a
    prefix of the datagrams of its frames, all of them while the channel has a receiver, and
    it still runs only if it was never stopped.  Whatever part of the host's frames reaches the relay,
    however the relay's tasks interleave and whichever datagrams it fails to send on, and
    whatever part of those reaches the client: the relay sends on datagrams of the host,
    frame by frame, unaltered and in the order in which it read them; and the client shows
    the newest frame all of whose datagrams came through both networks, as the host
    encoded it. *)
Theorem relayed_stream_shown bld w key width height room stops s :
  0 < width → 0 < height → (∀ r, 0 ≤ forwarded_bytes s r < 2 ^ 64) →
  ∃ r sent w' frames,
    run_streamer bld w key width height room stops = Some (r, sent, w') ∧
    sent `prefix_of` concat frames ∧ (room = None → sent = concat frames) ∧
    (r = None → Forall (.= false) stops ∧ length frames = length stops) ∧
    ∀ arrivals steps f,
      Forall2 drawn_from arrivals frames →
      forward_run (Forwarding_new s) steps = Some f → fw_read f Role_Host = concat arrivals →
      ∃ forwarded, fw_sent f Role_Host = concat forwarded ∧ Forall2 sublist forwarded arrivals ∧
        ∀ shown, Forall2 drawn_from shown forwarded →
          rx_latest_frame (receive_all (ClientReceiver_new key 1) (concat shown)) =
            newest_complete width height 0 frames shown None.
Proof.
  intros Hw Hh Hs. rewrite run_streamer_start by done.
  destruct (stream_loop_spec key width height bld stops (hw_set_running w true) 0 room ltac:(lia))
    as (r & sent & w' & frames & E & Hfr & Hpre & _ & Hall & _ & Hstop & _).
  exists r, sent, w', frames. split_and!; [done..|]. intros arrivals steps f Har Hrun Hread.
  apply (forward_run_ok s) in Hrun as [_ _ Hd _]; [|by apply forwarding_new_ok].
  specialize (Hd Role_Host). rewrite Hread in Hd. apply sublist_concat in Hd as (forwarded & Hsent & Hsub).
  exists forwarded. split_and!; [done..|]. intros shown Hshown. apply stream_received; [done|].
  eapply Forall2_trans_with; [exact drawn_trans|exact Hshown|].
  eapply Forall2_trans_with; [|exact Hsub|exact Har]. intros ??? ?%drawn_sublist. by apply drawn_trans.
Qed.
End relayed.

(** Two frames of one pixel, through a relay that fails to send the second. *)
Definition small_relay (datagrams : list bytes) : list ForwardStep :=
  match datagrams with
  | d1 :: d2 :: _ =>
      [Fwd_Accept Role_Host None; Fwd_Datagram Role_Host d1 Datagram_Sent; Fwd_Datagram Role_Host d2 Datagram_Dropped]
  | _ => []
  end.
Lemma relayed_stream_shown_witness :
  match @run_streamer toy_aead Release small_worker [x09] 1 1 None [false; false; true] with
  | Some (_, sent, _) =>
      match forward_run (Forwarding_new sample_relay_session) (small_relay sent) with
      | Some f => fw_read f Role_Host = sent ∧ length sent = 2%nat ∧ length (fw_sent f Role_Host) = 1%nat
      | None => False
      end
  | None => False
  end ∧
  ∃ r sent w' frames,
    @run_streamer toy_aead Release small_worker [x09] 1 1 None [false; false; true] = Some (r, sent, w') ∧
    sent `prefix_of` concat frames ∧ ((None : option nat) = None → sent = concat frames) ∧
    (r = None → Forall (.= false) [false; false; true] ∧ length frames = 3%nat) ∧
    ∀ arrivals steps f,
      Forall2 drawn_from arrivals frames →
      forward_run (Forwarding_new sample_relay_session) steps = Some f → fw_read f Role_Host = concat arrivals →
      ∃ forwarded, fw_sent f Role_Host = concat forwarded ∧ Forall2 sublist forwarded arrivals ∧
        ∀ shown, Forall2 drawn_from shown forwarded →
          rx_latest_frame (@receive_all toy_aead (ClientReceiver_new [x09] 1) (concat shown)) =
            newest_complete 1 1 0 frames shown None.
Proof.
  split; [vm_compute; split_and!; reflexivity|].
  apply (@relayed_stream_shown toy_aead toy_aead_laws Release small_worker [x09] 1 1 None [false; false; true]
    sample_relay_session); [lia|lia|intros []; cbn; lia].
Defined.
