(* ===== verification/ConcurrentRequests.v ===== *)
(** * Requests served at the same time (apps/nexusd/src/routes.rs, state.rs)

    The server runs every request as a task of its own over the shared [AppState].  A task
    is followed from one access to the shared state to the next: a transaction of the
    store, the lock of the audit chain, the sink.  Tasks interleave in any order; a client
    that goes away makes the server drop its task where it waits.  Run alone, a task is the
    handler of ControlPlane.v. *)

From S2P Require Import Prelude RustStr Common Crypto Protocol Enrollment AuditLog PolicyModel PolicyEngine Relay Storage ControlPlane Authorization AuditTrail.

Open Scope string_scope.
Open Scope list_scope.
Open Scope Z_scope.

Section tasks.
Context {Value Sink : Type} (Null : Value) (json_object : list (string * string) → Value).
Context `{Ed25519, Prost SessionCapability, Blake3}.
Context `{SerdeJson CanonicalEnrollmentPayload, SerdeJson CanonicalCredentialPayload}.
Context `{SerdeJson EnrollmentToken, SerdeJsonDe EnrollmentToken}.
Context `{SerdeJson DeviceCredential, SerdeJsonDe DeviceCredential}.
Context `{SerdeJson (list string), SerdeJsonDe (list string)}.
Context `{SerdeJson (AuditEvent Value), AuditSink (ChainedAuditEvent Value) Sink}.
Context (dalek_error : string) (bld : build).

Abbreviation state := (AppState Value Sink).

(** ** A request as a task *)

Inductive Request :=
  | Req_Enroll (req : DeviceRegistrationRequest) (now : Z)
  | Req_Session (p : SessionRequestPayload) (now : Z) (uuid nonce : bytes).

(** What a task does next.  The answer a task carries is the one it gives when its event is
    recorded. *)
Inductive Task :=
  | Task_Start
  | Task_Authorize (granted : ActionSet)
  | Task_Append (event : AuditEvent Value) (answer : cp_answer)
  | Task_Insert (previous : AuditChain Value) (chained : ChainedAuditEvent Value) (answer : cp_answer)
  | Task_Restore (previous : AuditChain Value) (e : StateError)
  | Task_Record (chained : ChainedAuditEvent Value) (answer : cp_answer)
  | Task_Answered (answer : cp_answer)
  | Task_Dropped
  | Task_Panicked.

Definition st_with_db (st : state) (db : Db) : state := st_with st db (st_audit_chain st) (st_audit_sink st).
Definition refuse (e : Z * ApiError) : Task := Task_Answered (Answer_Error e).

(** [if let Ok(audit_evt) = builder.build()]: on to the audit log, or to the answer. *)
Definition audit_next (b : AuditEventBuilder Value) (answer : cp_answer) : Task :=
  match AuditEventBuilder_build Null b with
  | Err _ => Task_Answered answer
  | Ok event => Task_Append event answer
  end.

(** The handlers up to their transaction, with it. *)
Definition enroll_start (st : state) (req : DeviceRegistrationRequest) (now : Z) (fault : db_fault) : Task * state :=
  let tok := req_enrollment_token req in
  match EnrollmentToken_verify dalek_error tok (ed_public (st_signing_key st)) now with
  | Err e => (refuse (401, Api_EnrollmentTokenInvalid e), st)
  | Ok _ =>
      match verify_proof dalek_error req with
      | Err e => (refuse (400, Api_InvalidProof e), st)
      | Ok _ =>
          match issue_credential bld st req now with
          | None => (Task_Panicked, st)
          | Some (Err e) => (refuse e, st)
          | Some (Ok credential) =>
              match enroll_device (st_storage st) (tok_token_id tok) now
                      (mkRegisteredDevice credential (req_hostname req) (req_agent_version req) now true) fault with
              | (Err e, db) => (refuse (enrollment_error_response (StateError_from e)), st_with_db st db)
              | (Ok _, db) =>
                  (audit_next (enroll_audit json_object req now credential) (Answer_Credential credential), st_with_db st db)
              end
          end
      end
  end.

Definition session_start (st : state) (p : SessionRequestPayload) (now : Z) (fault : db_fault) : Task :=
  match get_device (st_storage st) (sq_target_device_id p) fault with
  | Err e => refuse (storage_error_response (State_Storage e))
  | Ok None => refuse (404, Api_TargetNotFound (sq_target_device_id p))
  | Ok (Some target_device) =>
      if negb (rd_is_active target_device) then refuse (403, Api_TargetNotActive) else
      match evaluate (st_policy_engine st) (session_subject p) (session_resource p) DesktopView with
      | Allowed granted _ _ => Task_Authorize granted
      | Denied reason => audit_next (deny_audit json_object p now reason) (Answer_Error (403, Api_Denied reason))
      end
  end.

Definition session_authorize (st : state) (p : SessionRequestPayload) (granted : ActionSet) (now : Z)
    (uuid nonce : bytes) (fault : db_fault) : Task * state :=
  match Id_new ("sess-" +:+ uuid_simple uuid) with
  | Err e => (refuse (500, Api_SessionId e), st)
  | Ok session_id =>
      match plain bld 64 (now + 120) with
      | None => (Task_Panicked, st)
      | Some expires_at =>
          let capability := build_capability st p session_id granted now expires_at nonce in
          let sig := ed_sign (st_signing_key st) (prost_encode capability) in
          match issue_relay_token st p session_id Role_Client expires_at with
          | Err e => (refuse e, st)
          | Ok client_relay_token =>
              match issue_relay_token st p session_id Role_Host expires_at with
              | Err e => (refuse e, st)
              | Ok host_relay_token =>
                  match insert_authorized_session (st_storage st) (mkAuthorizedSessionRecord session_id
                          (sq_organization_id p) (sq_subject_user_id p) (sq_client_device_id p) (sq_target_device_id p)
                          (st_default_relay_id st) (cap_permissions capability) now "authorized") fault with
                  | (Err e, db) => (refuse (storage_error_response (State_Storage e)), st_with_db st db)
                  | (Ok _, db) =>
                      (audit_next (session_audit json_object p now session_id (st_default_relay_id st))
                         (Answer_Session (mkSessionAuthorizationResponse session_id
                            (prost_encode (cap_signed capability sig)) (st_default_relay_id st) client_relay_token
                            host_relay_token expires_at)), st_with_db st db)
                  end
              end
          end
      end
  end.

(** The next access of a task to the shared state; [None]: the task has ended. *)
Definition request_step (st : state) (q : Request) (t : Task) (fault : db_fault) : option (Task * state) :=
  match t with
  | Task_Start =>
      match q with
      | Req_Enroll req now => Some (enroll_start st req now fault)
      | Req_Session p now _ _ => Some (session_start st p now fault, st)
      end
  | Task_Authorize granted =>
      match q with
      | Req_Enroll _ _ => None
      | Req_Session p now uuid nonce => Some (session_authorize st p granted now uuid nonce fault)
      end
  | Task_Append event answer =>
      Some (match record_append st event with
            | (Err e, st) => (refuse (storage_error_response e), st)
            | (Ok (previous, chained), st) => (Task_Insert previous chained answer, st)
            end)
  | Task_Insert previous chained answer =>
      Some (match insert_audit_event (st_storage st) chained fault with
            | (Err e, db) => (Task_Restore previous (State_Storage e), st_with_db st db)
            | (Ok _, db) => (Task_Record chained answer, st_with_db st db)
            end)
  | Task_Restore previous e =>
      Some (refuse (storage_error_response e), st_with st (st_storage st) previous (st_audit_sink st))
  | Task_Record chained answer =>
      let (r, sink) := sink_record (st_audit_sink st) chained in
      Some (match r with
            | Ok _ => Task_Answered answer
            | Err e => refuse (storage_error_response (State_AuditSink e))
            end, st_with st (st_storage st) (st_audit_chain st) sink)
  | Task_Answered _ | Task_Dropped | Task_Panicked => None
  end.

(** ** The server *)

(** [sg_inserted] are the events inserted into the store, and [sg_lost] says that the insert
    of an event failed or that its task was dropped before it. *)
Record Serving := mkServing {
  sg_state : state;
  sg_tasks : gmap nat (Request * Task);
  sg_inserted : list (ChainedAuditEvent Value);
  sg_lost : bool
}.
Definition Serving_new (st : state) : Serving := mkServing st ∅ [] false.

Inductive ServeStep :=
  | Serve_Arrive (c : nat) (q : Request)
  | Serve_Run (c : nat) (fault : db_fault)
  | Serve_Drop (c : nat)
  | Serve_StoreToken (token : EnrollmentToken) (fault : db_fault).

Definition inserted_by (t t' : Task) : list (ChainedAuditEvent Value) :=
  match t, t' with Task_Insert _ chained _, Task_Record _ _ => [chained] | _, _ => [] end.
Definition loses (t t' : Task) : bool :=
  match t, t' with Task_Insert _ _ _, (Task_Restore _ _ | Task_Dropped) => true | _, _ => false end.
Definition sg_move (s : Serving) (c : nat) (q : Request) (t t' : Task) (st : state) : Serving :=
  mkServing st (<[c := (q, t')]> (sg_tasks s)) (sg_inserted s ++ inserted_by t t') (sg_lost s || loses t t').

Definition serve_step (s : Serving) (step : ServeStep) : option Serving :=
  match step with
  | Serve_Arrive c q =>
      match sg_tasks s !! c with
      | Some _ => None
      | None => Some (mkServing (sg_state s) (<[c := (q, Task_Start)]> (sg_tasks s)) (sg_inserted s) (sg_lost s))
      end
  | Serve_Run c fault =>
      '(q, t) ← sg_tasks s !! c;
      '(t', st) ← request_step (sg_state s) q t fault;
      Some (sg_move s c q t t' st)
  | Serve_Drop c =>
      '(q, t) ← sg_tasks s !! c;
      match t with
      | Task_Answered _ | Task_Dropped | Task_Panicked => None
      | _ => Some (sg_move s c q t Task_Dropped (sg_state s))
      end
  | Serve_StoreToken token fault =>
      let (_, db) := store_enrollment_token (st_storage (sg_state s)) token fault in
      Some (mkServing (st_with_db (sg_state s) db) (sg_tasks s) (sg_inserted s) (sg_lost s))
  end.
Fixpoint serve_run (s : Serving) (steps : list ServeStep) : option Serving :=
  match steps with [] => Some s | step :: steps => s ← serve_step s step; serve_run s steps end.

(** ** A task that runs alone *)

Fixpoint run_alone (fuel : nat) (st : state) (q : Request) (t : Task) (faults : Task → db_fault) : Task * state :=
  match fuel with
  | O => (t, st)
  | S fuel =>
      match request_step st q t (faults t) with
      | None => (t, st)
      | Some (t', st') => run_alone fuel st' q t' faults
      end
  end.
(** The faults of the three transactions of a handler. *)
Definition handler_faults (q : Request) (get_fault fault audit_fault : db_fault) (t : Task) : db_fault :=
  match t, q with
  | Task_Start, Req_Session _ _ _ _ => get_fault
  | (Task_Start | Task_Authorize _), _ => fault
  | _, _ => audit_fault
  end.
Definition call_of (q : Request) (get_fault fault audit_fault : db_fault) : cp_call :=
  match q with
  | Req_Enroll req now => Call_Enroll req now fault audit_fault
  | Req_Session p now uuid nonce => Call_Request p now uuid nonce get_fault fault audit_fault
  end.

Lemma run_alone_ended n st q t faults :
  match t with Task_Answered _ | Task_Dropped | Task_Panicked => True | _ => False end →
  run_alone n st q t faults = (t, st).
Proof. destruct n; [done|]. by destruct t. Qed.
Lemma audit_alone n st q b answer gf f af :
  run_alone (3 + n) st q (audit_next b answer) (handler_faults q gf f af) =
    let (r, st') := audit_built Null st b af in
    (Task_Answered (match r with Ok _ => answer | Err e => Answer_Error e end), st').
Proof.
  unfold audit_next, audit_built. destruct (AuditEventBuilder_build Null b) as [event|]; [|by apply run_alone_ended].
  unfold record_audit. cbn [Nat.add run_alone request_step handler_faults].
  destruct (record_append st event) as [[[previous chained]|e] st1]; [|done].
  unfold record_insert. cbn [run_alone request_step handler_faults].
  destruct (insert_audit_event _ _ af) as [[[]|e] db]; cbn [run_alone request_step handler_faults].
  - change (st_audit_sink (st_with_db st1 db)) with (st_audit_sink st1).
    destruct (sink_record (st_audit_sink st1) chained) as [[[]|e] sink]; by destruct n.
  - by destruct n.
Qed.

Lemma audit_built_relay st b fault r st' :
  audit_built Null st b fault = (r, st') → st_default_relay_id st' = st_default_relay_id st.
Proof.
  unfold audit_built, record_audit, record_append, record_insert. repeat case_match; intros; simplify_eq; done.
Qed.
Lemma run_alone_S n st q t faults :
  run_alone (S n) st q t faults =
    match request_step st q t (faults t) with None => (t, st) | Some (t', st') => run_alone n st' q t' faults end.
Proof. done. Qed.

(** A task that is not interrupted is the handler. *)
Theorem task_alone_serves st q gf f af :
  cp_serve Null json_object dalek_error bld st (call_of q gf f af) =
    match run_alone 5 st q Task_Start (handler_faults q gf f af) with
    | (Task_Answered answer, st') => Some (answer, st')
    | _ => None
    end.
Proof.
  destruct q as [req now|p now uuid nonce]; cbn [call_of cp_serve].
  - rewrite run_alone_S. cbn [request_step handler_faults]. unfold enroll_device_handler, enroll_start.
    destruct (EnrollmentToken_verify _ _ _ _) as [[]|]; [|done]. destruct (verify_proof _ _) as [[]|]; [|done].
    destruct (issue_credential _ _ _ _) as [[cred|e]|]; [|done..]. cbn [mbind option_bind].
    destruct (enroll_device _ _ _ _ _) as [[token|e] db]; [|done]. fold (st_with_db st db).
    rewrite (audit_alone 1). destruct (audit_built _ _ _ _) as [[[]|e] st']; done.
  - rewrite run_alone_S. cbn [request_step handler_faults]. unfold request_session_handler, session_start.
    destruct (get_device _ _ _) as [[d|]|]; [|done..]. destruct (negb _); [done|].
    destruct (evaluate _ _ _ _) as [granted ? ?|reason]; cycle 1.
    { unfold deny_session. rewrite (audit_alone 1). cbn [mbind option_bind].
      destruct (audit_built _ _ _ _) as [[[]|e] st']; done. }
    rewrite run_alone_S. cbn [request_step handler_faults]. unfold authorize_session, session_authorize.
    destruct (Id_new _) as [sid|]; [|done]. destruct (plain _ _ _) as [expires|]; [|done]. cbn [mbind option_bind].
    destruct (issue_relay_token _ _ _ Role_Client _) as [ct|e]; [|done].
    destruct (issue_relay_token _ _ _ Role_Host _) as [ht|e]; [|done].
    destruct (insert_authorized_session _ _ _) as [[[]|e] db]; [|done]. fold (st_with_db st db).
    rewrite (audit_alone 0). change (st_default_relay_id st) with (st_default_relay_id (st_with_db st db)).
    destruct (audit_built _ _ _ _) as [[[]|e] st'] eqn:Eb; [|done]. cbn. by rewrite (audit_built_relay _ _ _ _ _ Eb).
Qed.

(** ** The invariant of the server *)

Definition stored (db : Db) : Prop := ∃ log, rtc (store_step (Value := Value)) (Db_empty, []) (db, log).
(** What an answer promises of the store. *)
Definition granted_in (db : Db) (answer : cp_answer) : Prop :=
  match answer with
  | Answer_Credential c => is_Some (db_devices db !! cred_device_id c)
  | Answer_Session r => is_Some (db_sessions db !! sa_session_id r)
  | _ => True
  end.
Definition recorded_as (q : Request) (answer : cp_answer) (e : AuditEvent Value) : Prop :=
  is_recorded answer = true → on_record (call_of q Db_works Db_works Db_works) answer e.

Definition task_answer (t : Task) : option cp_answer :=
  match t with Task_Append _ a | Task_Insert _ _ a | Task_Record _ a | Task_Answered a => Some a | _ => None end.
(** The chain a task may put back. *)
Definition task_previous (t : Task) : option (AuditChain Value) :=
  match t with Task_Insert previous _ _ | Task_Restore previous _ => Some previous | _ => None end.
(** What is on record of a task while nothing was lost. *)
Definition task_recorded (inserted : list (ChainedAuditEvent Value)) (q : Request) (t : Task) : Prop :=
  match t with
  | Task_Append event a => recorded_as q a event
  | Task_Insert _ chained a => recorded_as q a (ch_event chained)
  | Task_Record chained a => chained ∈ inserted ∧ recorded_as q a (ch_event chained)
  | Task_Answered a => is_recorded a = true → ∃ chained, chained ∈ inserted ∧ recorded_as q a (ch_event chained)
  | Task_Restore _ _ => False
  | _ => True
  end.
Definition in_flight (tasks : gmap nat (Request * Task)) (chained : ChainedAuditEvent Value) : Prop :=
  ∃ c q previous a, tasks !! c = Some (q, Task_Insert previous chained a).
Definition genuine (chain : AuditChain Value) : Prop := chain_ok chain ∧ ac_genesis_seed chain = GENESIS_HASH.

Record serving_inv (s : Serving) : Prop := {
  iv_chain : genuine (st_audit_chain (sg_state s));
  iv_previous : map_Forall (λ _ '(_, t), from_option genuine True (task_previous t)) (sg_tasks s);
  iv_stored : stored (st_storage (sg_state s));
  iv_granted : map_Forall (λ _ '(_, t), from_option (granted_in (st_storage (sg_state s))) True (task_answer t)) (sg_tasks s);
  iv_ids : NoDup (event_id <$> sg_inserted s);
  iv_table : db_audit_events (st_storage (sg_state s)) = audit_table (sg_inserted s);
  iv_kept : sg_lost s = false →
    (∀ e, e ∈ trail (sg_state s) ↔ e ∈ sg_inserted s ∨ in_flight (sg_tasks s) e) ∧
    map_Forall (λ _ '(q, t), task_recorded (sg_inserted s) q t) (sg_tasks s)
}.

(** A transition of the store, as the store's own theorem sees it. *)
Definition store_moves (db db' : Db) : Prop := ∀ log, ∃ log', rtc (store_step (Value := Value)) (db, log) (db', log').
Lemma store_moves_refl db : store_moves db db.
Proof. intros log. by exists log. Qed.
Lemma stored_moves db db' : store_moves db db' → stored db → stored db'.
Proof. intros Hm [log Hl]. destruct (Hm log) as [log' Hl']. exists log'. by etrans. Qed.
Lemma moves_grow db db' : store_moves db db' → grows db db'.
Proof.
  intros Hm. destruct (Hm []) as [log' Hl]. change (grows (db, @nil enrollment_event).1 (db', log').1).
  revert Hl. generalize (db, @nil enrollment_event), (db', log'). intros x y.
  induction 1 as [|x y z Hxy _ IH]; [done|]. etrans; [by apply store_step_grows|done].
Qed.
Lemma granted_moves db db' a : store_moves db db' → granted_in db a → granted_in db' a.
Proof.
  intros [Hd Hs]%moves_grow. destruct a; cbn; try done; intros [x Hx]; eexists; by eapply lookup_weaken.
Qed.

Lemma insert_session_moves db r fault x db' : insert_authorized_session db r fault = (x, db') → store_moves db db'.
Proof. intros E log. eexists. apply rtc_once. by eapply store_session. Qed.
Lemma enroll_moves db id now d fault x db' : enroll_device db id now d fault = (x, db') → store_moves db db'.
Proof. intros E log. eexists. apply rtc_once. by eapply store_enroll. Qed.
Lemma insert_audit_moves db (e : ChainedAuditEvent Value) fault x db' : insert_audit_event db e fault = (x, db') → store_moves db db'.
Proof. intros E log. eexists. apply rtc_once. by eapply store_audit. Qed.

(** The steps before the audit log. *)
Record before_audit (st : state) (q : Request) (t' : Task) (st' : state) : Prop := {
  ba_moves : store_moves (st_storage st) (st_storage st');
  ba_table : db_audit_events (st_storage st') = db_audit_events (st_storage st);
  ba_chain : st_audit_chain st' = st_audit_chain st;
  ba_task : match t' with
    | Task_Append event a => granted_in (st_storage st') a ∧ recorded_as q a event
    | Task_Answered a => is_recorded a = false
    | Task_Authorize _ | Task_Panicked => True
    | _ => False
    end
}.
Lemma before_refused st q t' : 
  match t' with Task_Answered a => is_recorded a = false | Task_Authorize _ | Task_Panicked => True | _ => False end →
  before_audit st q t' st.
Proof. intros Ht. split; [apply store_moves_refl|done..|]. by destruct t'. Qed.

Lemma enroll_start_before st req now fault t' st' :
  enroll_start st req now fault = (t', st') → before_audit st (Req_Enroll req now) t' st'.
Proof.
  unfold enroll_start. destruct (EnrollmentToken_verify _ _ _ _) as [[]|]; [|intros [= <- <-]; by apply before_refused].
  destruct (verify_proof _ _) as [[]|]; [|intros [= <- <-]; by apply before_refused].
  destruct (issue_credential _ _ _ _) as [[cred|e]|] eqn:Ei; [| |intros [= <- <-]; by apply before_refused]; cycle 1.
  { intros [= <- <-]. apply before_refused. by apply issue_credential_err in Ei. }
  destruct (enroll_device _ _ _ _ _) as [[token|e] db] eqn:Ed; intros [= <- <-];
    (split; [by eapply enroll_moves|by apply enroll_device_audit in Ed|done|]); [|by destruct e].
  apply enroll_device_ok in Ed as (_ & _ & _ & _ & _ & _ & _ & db1 & _ & _ & Hreg).
  apply register_device_ok in Hreg as (_ & _ & _ & _ & _ & j & caps & _ & Ed & _).
  split; [|done]. unfold granted_in. cbn in *. rewrite Ed. by rewrite lookup_insert_eq.
Qed.
Lemma session_start_before st p now uuid nonce fault :
  before_audit st (Req_Session p now uuid nonce) (session_start st p now fault) st.
Proof.
  unfold session_start. destruct (get_device _ _ _) as [[d|]|]; [|by apply before_refused..].
  destruct (negb _); [by apply before_refused|]. destruct (evaluate _ _ _ _); [by apply before_refused|].
  split; [apply store_moves_refl|done..].
Qed.
Lemma session_authorize_before st p granted now uuid nonce fault t' st' :
  session_authorize st p granted now uuid nonce fault = (t', st') → before_audit st (Req_Session p now uuid nonce) t' st'.
Proof.
  unfold session_authorize. destruct (Id_new _) as [sid|]; [|intros [= <- <-]; by apply before_refused].
  destruct (plain _ _ _) as [expires|]; [|intros [= <- <-]; by apply before_refused].
  destruct (issue_relay_token _ _ _ Role_Client _) as [ct|e] eqn:Ec; cycle 1.
  { intros [= <- <-]. apply before_refused. by apply issue_relay_token_err in Ec. }
  destruct (issue_relay_token _ _ _ Role_Host _) as [ht|e] eqn:Eh; cycle 1.
  { intros [= <- <-]. apply before_refused. by apply issue_relay_token_err in Eh. }
  destruct (insert_authorized_session _ _ _) as [[[]|e] db] eqn:Ed; intros [= <- <-];
    (split; [by eapply insert_session_moves|by apply session_frame in Ed as (_ & _ & ?)|done|]); [|done].
  apply session_ok in Ed as (_ & Hs & _). by split.
Qed.

(** ** Every step keeps it *)

Definition flying (t : Task) (e : ChainedAuditEvent Value) : Prop := ∃ previous a, t = Task_Insert previous e a.
Lemma in_flight_move tasks c q t t' e :
  tasks !! c = Some (q, t) →
  (in_flight (<[c := (q, t')]> tasks) e → flying t' e ∨ in_flight tasks e) ∧
  (in_flight tasks e → flying t e ∨ in_flight (<[c := (q, t')]> tasks) e) ∧
  (flying t' e → in_flight (<[c := (q, t')]> tasks) e) ∧ (flying t e → in_flight tasks e).
Proof.
  intros Hc. unfold in_flight, flying. split_and!.
  - intros (c' & q' & previous & a & E). destruct (decide (c' = c)) as [->|Hne];
      [rewrite lookup_insert_eq in E; simplify_eq; eauto|rewrite lookup_insert_ne in E by done; eauto 10].
  - intros (c' & q' & previous & a & E). destruct (decide (c' = c)) as [->|Hne]; [simplify_eq; eauto|].
    right. exists c', q', previous, a. by rewrite lookup_insert_ne.
  - intros (previous & a & ->). exists c, q, previous, a. by rewrite lookup_insert_eq.
  - intros (previous & a & ->). eauto 10.
Qed.
Lemma in_flight_other tasks c q t t' e :
  tasks !! c = Some (q, t) → (∀ e, ¬ flying t e) → (∀ e, ¬ flying t' e) →
  in_flight (<[c := (q, t')]> tasks) e ↔ in_flight tasks e.
Proof. intros Hc Ht Ht'. destruct (in_flight_move tasks c q t t' e Hc) as (H1' & H2' & _). naive_solver. Qed.

Lemma task_recorded_mono inserted more q t : task_recorded inserted q t → task_recorded (inserted ++ more) q t.
Proof.
  destruct t; cbn; try done; [intros []; split; [set_solver|done]|].
  intros Ha Hr. destruct (Ha Hr) as (e & He & ?). exists e. split; [set_solver|done].
Qed.

Lemma sg_move_inv s c q t t' st' :
  serving_inv s → sg_tasks s !! c = Some (q, t) →
  genuine (st_audit_chain st') → from_option genuine True (task_previous t') →
  store_moves (st_storage (sg_state s)) (st_storage st') →
  from_option (granted_in (st_storage st')) True (task_answer t') →
  NoDup (event_id <$> sg_inserted s ++ inserted_by t t') →
  db_audit_events (st_storage st') = audit_table (sg_inserted s ++ inserted_by t t') →
  (sg_lost s || loses t t' = false →
     (∀ e, e ∈ trail st' ↔ e ∈ sg_inserted s ++ inserted_by t t' ∨ in_flight (<[c := (q, t')]> (sg_tasks s)) e) ∧
     task_recorded (sg_inserted s ++ inserted_by t t') q t') →
  serving_inv (sg_move s c q t t' st').
Proof.
  intros [Hc Hp Hst Hg Hi Htb Hk] Et Hc' Hp' Hm Hg' Hi' Htb' Hk'. split; cbn; try done.
  - by apply map_Forall_insert_2.
  - by eapply stored_moves.
  - apply map_Forall_insert_2; [done|]. intros c' [q1 t1] E. specialize (Hg c' _ E). cbn in Hg.
    destruct (task_answer t1); [|done]. by eapply granted_moves.
  - intros Hl. destruct (Hk' Hl) as [Htr Hr]. split; [done|].
    apply orb_false_elim in Hl as [Hl _]. destruct (Hk Hl) as [_ Hrec].
    apply map_Forall_insert_2; [done|]. intros c' [q1 t1] E. by apply task_recorded_mono, (Hrec c' _ E).
Qed.

(** A step that neither appends nor inserts an event. *)
Lemma sg_move_plain s c q t t' st' :
  serving_inv s → sg_tasks s !! c = Some (q, t) → (∀ e, ¬ flying t e) → (∀ e, ¬ flying t' e) → task_previous t' = None →
  store_moves (st_storage (sg_state s)) (st_storage st') →
  db_audit_events (st_storage st') = db_audit_events (st_storage (sg_state s)) →
  st_audit_chain st' = st_audit_chain (sg_state s) →
  from_option (granted_in (st_storage st')) True (task_answer t') →
  (sg_lost s = false → task_recorded (sg_inserted s) q t') →
  serving_inv (sg_move s c q t t' st').
Proof.
  intros Hi Et Hf Hf' Hp' Hm Htb Hc Hg Hr. pose proof Hi as [Hc0 _ _ _ Hid Htb0 Hk].
  assert (inserted_by t t' = []) as Eins by (destruct t; try done; exfalso; eapply Hf; by eexists _, _).
  apply sg_move_inv; rewrite ?Eins, ?app_nil_r, ?Hp', ?Hc; try done; [by rewrite Htb|].
  intros [Hl _]%orb_false_elim. destruct (Hk Hl) as [Htr _]. split; [|by apply Hr].
  intros e. unfold trail. rewrite Hc, (in_flight_other _ _ _ _ _ _ Et Hf Hf'). apply Htr.
Qed.

Lemma not_recorded_granted db a : is_recorded a = false → granted_in db a.
Proof. by destruct a. Qed.
Lemma before_audit_step s c q t t' st' :
  serving_inv s → sg_tasks s !! c = Some (q, t) → match t with Task_Start | Task_Authorize _ => True | _ => False end →
  before_audit (sg_state s) q t' st' → serving_inv (sg_move s c q t t' st').
Proof.
  intros Hi Et Ht [Hm Htb Hc Hta]. apply sg_move_plain; try done.
  - intros e (previous & a & ->). done.
  - intros e (previous & a & ->). done.
  - by destruct t'.
  - destruct t'; try done; cbn in *; [by destruct Hta|by apply not_recorded_granted].
  - intros _. destruct t'; try done; cbn in *; [by destruct Hta|]. by rewrite Hta.
Qed.

Lemma append_step s c q event a t' st' fault :
  serving_inv s → sg_tasks s !! c = Some (q, Task_Append event a) →
  request_step (sg_state s) q (Task_Append event a) fault = Some (t', st') →
  serving_inv (sg_move s c q (Task_Append event a) t' st').
Proof.
  intros Hi Et. pose proof Hi as [[Hc Hgen] _ _ Hg Hid Htb Hk]. cbn [request_step]. unfold record_append.
  pose proof (chain_append_ok _ event Hc) as Hc'.
  destruct (AuditChain_append (st_audit_chain (sg_state s)) event) as [[chained|e] chain] eqn:Ea; intros [= <- <-]; cycle 1.
  { apply sg_move_plain; try done; [by intros e0 (? & ? & ?)..|apply store_moves_refl]. }
  unfold AuditChain_append in Ea. destruct (compute_event_hash _ _ _) as [h|]; [|done]. injection Ea as <- <-. cbn in Hc'.
  specialize (Hg c _ Et). cbn in Hg.
  apply sg_move_inv; try done; cbn [inserted_by]; rewrite ?app_nil_r; try done; [apply store_moves_refl|].
  intros [Hl _]%orb_false_elim. destruct (Hk Hl) as [Htr Hrec]. specialize (Hrec c _ Et). cbn in Hrec. split; [|done].
  set (chained := mkChainedAuditEvent _ _ _ _). intros e. unfold trail. cbn. rewrite elem_of_app, list_elem_of_singleton.
  destruct (in_flight_move (sg_tasks s) c q (Task_Append event a) (Task_Insert (st_audit_chain (sg_state s)) chained a) e Et)
    as (F1 & F2 & F3 & _). fold (trail (sg_state s)). rewrite Htr. split.
  - intros [[?|?]| ->]; [by left|right..].
    + destruct F2 as [(? & ? & ?)|?]; done.
    + apply F3. by eexists _, _.
  - intros [?|[(? & ? & [= _ <- _])|?]%F1]; auto.
Qed.

Lemma insert_step s c q previous chained a t' st' fault :
  serving_inv s → sg_tasks s !! c = Some (q, Task_Insert previous chained a) →
  request_step (sg_state s) q (Task_Insert previous chained a) fault = Some (t', st') →
  serving_inv (sg_move s c q (Task_Insert previous chained a) t' st').
Proof.
  intros Hi Et. pose proof Hi as [Hc Hp _ Hg Hid Htb Hk]. cbn [request_step].
  specialize (Hp c _ Et). specialize (Hg c _ Et). cbn in Hp, Hg.
  destruct (insert_audit_event _ chained fault) as [[[]|e] db] eqn:Ei; intros [= <- <-];
    pose proof (insert_audit_moves _ _ _ _ _ Ei) as Hm.
  - apply insert_audit_event_ok in Ei as [Hnew Hdb]. rewrite Htb in Hnew, Hdb. apply audit_table_lookup in Hnew.
    apply sg_move_inv; try done; cbn [inserted_by].
    + cbn. by eapply granted_moves.
    + rewrite fmap_app. apply NoDup_app. split; [done|]. split; [|apply NoDup_singleton].
      intros x Hx. cbn. rewrite list_elem_of_singleton. by intros ->.
    + cbn. rewrite Hdb. symmetry. by apply audit_table_snoc.
    + intros [Hl _]%orb_false_elim. destruct (Hk Hl) as [Htr Hrec]. specialize (Hrec c _ Et). cbn in Hrec.
      split; [|split; [set_solver|done]]. intros e. change (trail (st_with_db (sg_state s) db)) with (trail (sg_state s)).
      rewrite Htr, elem_of_app, list_elem_of_singleton.
      destruct (in_flight_move (sg_tasks s) c q (Task_Insert previous chained a) (Task_Record chained a) e Et)
        as (F1 & F2 & _ & F4). split.
      * intros [?|[(? & ? & [= _ -> _])|?]%F2]; auto.
      * intros [[?| ->]|[(? & ? & ?)|?]%F1]; [by left|right|done|by right]. apply F4. by eexists _, _.
  - apply transaction_err in Ei as [_ ->].
    apply sg_move_inv; try done; cbn [inserted_by loses]; rewrite ?app_nil_r; try done.
    by rewrite orb_true_r.
Qed.

Lemma restore_step s c q previous e t' st' fault :
  serving_inv s → sg_tasks s !! c = Some (q, Task_Restore previous e) →
  request_step (sg_state s) q (Task_Restore previous e) fault = Some (t', st') →
  serving_inv (sg_move s c q (Task_Restore previous e) t' st').
Proof.
  intros Hi Et [= <- <-]. pose proof Hi as [_ Hp _ _ Hid Htb Hk]. specialize (Hp c _ Et). cbn in Hp.
  apply sg_move_inv; try done; cbn [inserted_by]; rewrite ?app_nil_r; try done; [apply store_moves_refl|].
  intros [Hl _]%orb_false_elim. destruct (Hk Hl) as [_ Hrec]. by specialize (Hrec c _ Et).
Qed.

Lemma record_step s c q chained a t' st' fault :
  serving_inv s → sg_tasks s !! c = Some (q, Task_Record chained a) →
  request_step (sg_state s) q (Task_Record chained a) fault = Some (t', st') →
  serving_inv (sg_move s c q (Task_Record chained a) t' st').
Proof.
  intros Hi Et. cbn [request_step]. destruct (sink_record _ chained) as [r sink]. intros [= <- <-].
  pose proof Hi as [_ _ _ Hg _ _ Hk]. specialize (Hg c _ Et). cbn in Hg.
  apply sg_move_plain; try done; try (by destruct r; intros ? (? & ? & ?)); [by destruct r|apply store_moves_refl|by destruct r|].
  intros Hl. destruct (Hk Hl) as [_ Hrec]. specialize (Hrec c _ Et). cbn in Hrec. destruct r; [|done].
  intros _. exists chained. done.
Qed.

Lemma drop_step s c q t :
  serving_inv s → sg_tasks s !! c = Some (q, t) → serving_inv (sg_move s c q t Task_Dropped (sg_state s)).
Proof.
  intros Hi Et. destruct t as [| | |previous chained a| | | | |].
  4: { pose proof Hi as [Hc _ _ _ Hid Htb _].
       apply sg_move_inv; try done; cbn [inserted_by loses]; rewrite ?app_nil_r; try done; [apply store_moves_refl|].
       by rewrite orb_true_r. }
  all: apply sg_move_plain; try done; try (by intros e0 (? & ? & ?)); apply store_moves_refl.
Qed.

Definition step_typed (step : ServeStep) : Prop :=
  match step with Serve_StoreToken token _ => uint 32 (tok_max_uses token) | _ => True end.
Lemma serve_step_inv s step s' : serving_inv s → step_typed step → serve_step s step = Some s' → serving_inv s'.
Proof.
  intros Hi Hty. destruct step as [c q|c fault|c|token fault]; cbn [serve_step].
  - destruct (sg_tasks s !! c) eqn:Ec; [done|]. intros [= <-]. destruct Hi as [? ? ? ? ? ? Hk].
    split; cbn; try done; [by apply map_Forall_insert_2..|]. intros Hl. destruct (Hk Hl) as [Htr Hrec].
    split; [|by apply map_Forall_insert_2]. intros e. rewrite Htr. apply or_iff_compat_l. unfold in_flight. split.
    + intros (c' & q' & previous & a & E). exists c', q', previous, a. rewrite lookup_insert_ne; [done|]. congruence.
    + intros (c' & q' & previous & a & E). apply lookup_insert_Some in E as [[_ ?]|[_ ?]]; [done|eauto 10].
  - intros ([q t] & Et & ([t' st'] & Es & [= <-])%bind_Some)%bind_Some.
    destruct t as [|granted| | | | | | |]; try done; [..|by eapply append_step|by eapply insert_step|by eapply restore_step|by eapply record_step].
    all: destruct q as [req now|p now uuid nonce]; cbn in Es; try done; apply before_audit_step; try done.
    + injection Es as Es. by eapply enroll_start_before.
    + injection Es as <- <-. apply session_start_before.
    + injection Es as Es. by eapply session_authorize_before.
  - intros ([q t] & Et & E)%bind_Some. destruct t; try done; injection E as <-; by apply drop_step.
  - destruct (store_enrollment_token _ token fault) as [r db] eqn:E. intros [= <-]. destruct Hi as [? ? Hst Hg ? Htb Hk].
    assert (store_moves (st_storage (sg_state s)) db) as Hm by (intros log; eexists; apply rtc_once; by eapply store_token).
    assert (db_audit_events db = db_audit_events (st_storage (sg_state s))) as Ea.
    { destruct r as [[]|]; [by apply store_enrollment_token_ok in E as (_ & _ & _ & _ & ?)|by apply transaction_err in E as [_ ->]]. }
    split; cbn; try done; [by eapply stored_moves| |by rewrite Ea].
    intros c' [q1 t1] E1. specialize (Hg c' _ E1). cbn in Hg. destruct (task_answer t1); [|done]. by eapply granted_moves.
Qed.
Lemma serve_run_inv steps s s' :
  serving_inv s → Forall step_typed steps → serve_run s steps = Some s' → serving_inv s'.
Proof.
  revert s. induction steps as [|step steps IH]; intros s Hi; cbn; [by intros _ [= <-]|].
  intros [Hty Htys]%Forall_cons (s1 & E & Hrest)%bind_Some. eapply IH; [|done..]. by eapply serve_step_inv.
Qed.

(** ** Chain and store *)

Lemma valid_from_distinct i prev (es : list (ChainedAuditEvent Value)) :
  valid_from i prev es → NoDup es ∧ Forall (λ e, i < ch_sequence e) es.
Proof.
  induction 1 as [i prev|i prev e h es _ _ [IH1 IH2]]; [by split; constructor|]. split.
  - apply NoDup_cons. split; [|done]. intros Hin. rewrite Forall_in in IH2. specialize (IH2 _ Hin). cbn in IH2. lia.
  - constructor; [cbn; lia|]. eapply Forall_impl; [exact IH2|]. intros x Hx. cbn in *. lia.
Qed.
Lemma audit_table_perm (l k : list (ChainedAuditEvent Value)) :
  NoDup (event_id <$> l) → l ≡ₚ k → NoDup (event_id <$> k) ∧ audit_table l = audit_table k.
Proof.
  intros Hn Hp. split; [by rewrite <-Hp|]. unfold audit_table. apply list_to_map_proper; [|by rewrite Hp].
  by rewrite <-list_fmap_compose.
Qed.

(** No insert is under way. *)
Definition idle (tasks : gmap nat (Request * Task)) : bool :=
  forallb (λ '(_, (_, t)), match t with Task_Insert _ _ _ => false | _ => true end) (map_to_list tasks).
Lemma idle_spec tasks e : idle tasks = true → ¬ in_flight tasks e.
Proof.
  unfold idle. rewrite forallb_forall. intros Hall (c & q & previous & a & E).
  apply elem_of_map_to_list, list_elem_of_In in E. by specialize (Hall _ E).
Qed.

(** C18. Requests served at the same time.  However the tasks of the control plane interleave,
    whatever fails in the store and the sink and whichever clients go away: the hash chain
    verifies, no enrollment token is used more often than allowed, and a credential or a
    session that was answered is in the store.  As long as no insert into the audit table
    failed and no task was dropped before its insert, every grant and every denial that was
    answered is on record, and whenever no insert is under way the table holds exactly the
    events of the chain. *)
Theorem concurrent_requests_safe key cp_id db log (sink : Sink) steps s :
  rtc (store_step (Value := Value)) (Db_empty, []) (db, log) → db_audit_events db = ∅ → Forall step_typed steps →
  serve_run (Serving_new (with_audit_sink (AppState_new key cp_id db) sink)) steps = Some s →
  let st := sg_state s in
  verify_chain (trail st) None = Ok tt ∧
  (∀ id row, db_tokens (st_storage st) !! id = Some row → tr_uses_count row ≤ tr_max_uses row) ∧
  (∀ c q a, sg_tasks s !! c = Some (q, Task_Answered a) →
     granted_in (st_storage st) a ∧
     (sg_lost s = false → is_recorded a = true →
        ∃ e, e ∈ trail st ∧ on_record (call_of q Db_works Db_works Db_works) a (ch_event e))) ∧
  (sg_lost s = false → idle (sg_tasks s) = true →
     NoDup (event_id <$> trail st) ∧ db_audit_events (st_storage st) = audit_table (trail st)).
Proof.
  intros Hdb He Hty Hrun. cbv zeta. apply serve_run_inv in Hrun as [[Hc Hgen] _ [log' Hst] Hg Hid Htb Hk]; [| |done]; cycle 1.
  { split; cbn; try done; [|by exists log|apply NoDup_nil_2|]; [by split; [apply chain_new_ok|]|].
    intros _. split; [|done]. intros e. split; [by intros ?%not_elem_of_nil|].
    intros [?%not_elem_of_nil|(? & ? & ? & ? & E)]; [done|by rewrite lookup_empty in E]. }
  assert (valid_from 0 GENESIS_HASH (trail (sg_state s))) as Hv by (rewrite <-Hgen; apply Hc).
  split_and!.
  - by apply verify_from_spec.
  - intros id row E. by apply (so_budget _ _ (store_run_ok _ _ Hst) id row).
  - intros c q a E. split; [by specialize (Hg c _ E)|]. intros Hl Hr. destruct (Hk Hl) as [Htr Hrec].
    specialize (Hrec c _ E). cbn in Hrec. destruct (Hrec Hr) as (e & Hin & Hon). exists e.
    split; [apply Htr; by left|by apply Hon].
  - intros Hl Hq. destruct (Hk Hl) as [Htr _]. rewrite Htb. apply audit_table_perm; [done|].
    apply NoDup_Permutation; [by eapply NoDup_fmap_1|by eapply valid_from_distinct|].
    intros e. rewrite Htr. pose proof (idle_spec _ e Hq). naive_solver.
Qed.
End tasks.

(** ** Runs *)

Abbreviation toy_serving := (@Serving unit (MemoryAuditSink (ChainedAuditEvent unit))).
Definition toy_serve_run : toy_serving → list ServeStep → option toy_serving :=
  @serve_run unit _ tt (λ _, tt) toy_ed25519 (countable_prost _) toy_blake3 (countable_json _) toy_json_credential
    (countable_json _) (countable_json_de _) (countable_json _) (countable_json_de _) (countable_json _) (countable_json _) _
    "signature error" Debug.
Definition empty_plane : toy_serving :=
  Serving_new (with_audit_sink (AppState_new [x09] "cp-1" Db_empty) (mkMemoryAuditSink [])).
Definition session_of (user : string) (seed : byte) : Request :=
  Req_Session (mkSessionRequestPayload "org-1" user "client-1" "dev-host-tok-flee" ["desktop.view"] [x07]) 16
    (replicate 16 seed) (replicate 16 x0b).

(** A device enrolls, and two users ask for it before its event is inserted. *)
Definition busy_steps : list ServeStep :=
  let run c := Serve_Run c Db_works in
  [Serve_StoreToken fleet_token Db_works; Serve_Arrive 1 (Req_Enroll (fleet_request [x01] "host-a") 16); run 1%nat;
   Serve_Arrive 2 (session_of "alice" x0a); run 2%nat; run 1%nat; Serve_Arrive 3 (session_of "bob" x0c); run 3%nat; run 2%nat;
   run 3%nat; run 3%nat; run 2%nat; run 2%nat; run 1%nat; run 3%nat; run 3%nat; run 2%nat; run 1%nat].
Definition busy_result (s : toy_serving) : bool :=
  negb (sg_lost s) && idle (sg_tasks s) && bool_decide (ch_sequence <$> sg_inserted s = [3; 1; 2]%Z) &&
  forallb (λ '(_, (_, t)), match t with Task_Answered a => is_recorded a | _ => false end) (map_to_list (sg_tasks s)).
Lemma concurrent_requests_safe_witness :
  ∃ s, toy_serve_run empty_plane busy_steps = Some s ∧ busy_result s = true ∧
    @verify_chain unit toy_blake3 (countable_json _) (trail (sg_state s)) None = Ok tt ∧
    db_audit_events (st_storage (sg_state s)) = @audit_table unit (countable_json _) (trail (sg_state s)).
Proof.
  assert (match toy_serve_run empty_plane busy_steps with Some s => busy_result s | None => false end = true) as Hok
    by (vm_compute; reflexivity).
  destruct (toy_serve_run empty_plane busy_steps) as [s|] eqn:E; [|discriminate Hok].
  exists s. split; [reflexivity|]. split; [exact Hok|].
  destruct (@concurrent_requests_safe unit _ tt (λ _, tt) toy_ed25519 (countable_prost _) toy_blake3 (countable_json _)
    toy_json_credential (countable_json _) (countable_json_de _) (countable_json _) (countable_json_de _)
    (countable_json _) (countable_json _) _ "signature error" Debug [x09] "cp-1" Db_empty []
    (mkMemoryAuditSink []) busy_steps s (rtc_refl _ _) eq_refl
    ltac:(repeat constructor; vm_compute; intuition discriminate) E) as (H1 & _ & _ & H4).
  split; [exact H1|]. unfold busy_result in Hok. repeat apply andb_true_iff in Hok as [Hok ?].
  apply H4; [by apply negb_true_iff|done].
Defined.

(** A client that goes away while the event of its session is appended but not yet inserted:
    the chain goes on after an event that is not in the store, and the log that is read back
    does not verify, although no operation failed. *)
Definition dropped_steps : list ServeStep :=
  let run c := Serve_Run c Db_works in
  [Serve_StoreToken fleet_token Db_works; Serve_Arrive 1 (Req_Enroll (fleet_request [x01] "host-a") 16);
   run 1%nat; run 1%nat; run 1%nat; run 1%nat; Serve_Arrive 2 (session_of "alice" x0a); run 2%nat; run 2%nat; run 2%nat;
   Serve_Drop 2; Serve_Arrive 3 (session_of "bob" x0c); run 3%nat; run 3%nat; run 3%nat; run 3%nat; run 3%nat].
Example dropped_request_leaves_gap :
  (s ← toy_serve_run empty_plane dropped_steps;
   match toy_list (st_storage (sg_state s)) "org-1" Db_works with
   | Ok events => Some (ch_sequence <$> trail (sg_state s), ch_sequence <$> events,
       is_ok (@verify_chain unit toy_blake3 (countable_json _) events None))
   | Err _ => None
   end) = Some ([1; 2; 3], [1; 3], false).
Proof. vm_compute. reflexivity. Qed.
