(* ===== verification/RelayReconnect.v ===== *)
(** * Sessions that meet again through the relay (apps/nexus-relay/src/server.rs, session.rs)

    The life of a session at the relay, from the arrival of its two endpoints to its end,
    and the same session again: endpoints that lost their connection come back with new
    connections and tokens that are still valid.  The steps of the pair are interleaved
    with any steps of other connections that present no token of the session. *)

From S2P Require Import Prelude Common Protocol Enrollment Storage Crypto Relay RelayForward RelayServer RelayRun.

Open Scope string_scope.
Open Scope list_scope.
Open Scope Z_scope.

Section meetings.
Context `{QuinnText, Ed25519}.
Context `{SerdeJsonDe RelayHandshakeRequest, SerdeJsonDe RelayToken}.
Variable verifier : RelayTokenVerifier.
Abbreviation run := (server_run verifier).
Abbreviation verified t now := (RelayTokenVerifier_verify verifier t now = Ok tt).

Definition reached (sv : RelayServer) : Prop := ∃ steps, run RelayServer_new steps = Some sv.
Lemma reached_run sv steps sv' : reached sv → run sv steps = Some sv' → reached sv'.
Proof. intros [s0 Hs0] Hr. exists (s0 ++ steps). by rewrite server_run_app, Hs0. Qed.
Lemma reached_table sv : reached sv → table_ok (sv_table sv) (sv_log sv).
Proof.
  intros [steps Hr]. pose proof (server_run_inv _ _ _ _ (server_new_inv verifier) Hr) as Hi.
  apply relay_reachable_ok, (si_table _ _ Hi).
Qed.
Lemma reached_inv sv : reached sv → server_inv verifier sv.
Proof. intros [steps Hr]. exact (server_run_inv _ _ _ _ (server_new_inv verifier) Hr). Qed.
Lemma verified_in_time t now : verified t now → now < rt_expires_at t.
Proof.
  unfold RelayTokenVerifier_verify. destruct (negb _); [done|].
  destruct (Z.leb_spec (rt_expires_at t) now); [done|lia].
Qed.

(** A step of a connection leaves the tasks of the others alone. *)
Definition step_connection (step : ServerStep) : nat :=
  match step with Step_Accept c | Step_Lost c | Step_Task c _ => c end.
Lemma handle_connection_task sv c phase i sv' x :
  handle_connection verifier sv c phase i = Some sv' → x ≠ c → sv_tasks sv' !! x = sv_tasks sv !! x.
Proof.
  intros Hh Hx. unfold handle_connection, forward_session in Hh.
  repeat (case_match || (apply bind_Some in Hh as ([] & _ & Hh))); simplify_eq/=;
    by rewrite ?lookup_insert_ne by done.
Qed.
Lemma server_run_task steps x : ∀ sv sv',
  run sv steps = Some sv' → x ∉ (step_connection <$> steps) → sv_tasks sv' !! x = sv_tasks sv !! x.
Proof.
  induction steps as [|step steps IH]; intros sv sv'; cbn; [by intros [= ->]|].
  intros (sv1 & Es & Hr)%bind_Some [Hx Hn]%not_elem_of_cons. rewrite (IH _ _ Hr Hn).
  destruct step as [c|c|c i]; cbn in Es, Hx.
  - case_match; [done|]. simplify_eq/=. by rewrite lookup_insert_ne.
  - by simplify_eq/=.
  - apply bind_Some in Es as (phase & _ & Es). eauto using handle_connection_task.
Qed.

(** ** What a step of another connection leaves alone *)

(** No task of the session is at work, [conns] aside. *)
Definition clear_but (sid : string) (conns : list nat) (sv : RelayServer) : Prop :=
  ∀ c phase t now, c ∉ conns → sv_tasks sv !! c = Some phase →
    sv_presented sv !! c = Some (t, now) → rt_session_id t = sid →
    phase = Phase_Parked ∨ phase = Phase_Done.
Definition clear (sid : string) (sv : RelayServer) : Prop := clear_but sid [] sv.

(** A step of another connection, which presents no token of the session. *)
Definition strange (sid : string) (conns : list nat) (step : ServerStep) : Prop :=
  (step_connection step ∉ conns) ∧
  match step with
  | Step_Task _ (In_Stream s _) => ∀ t, read_handshake_token s = Some (Ok t) → rt_session_id t ≠ sid
  | _ => True
  end.

Definition own_responses (conns : list nat) (sv : RelayServer) : list (nat * RelayHandshakeResponse) :=
  filter (λ r, fst r ∈ conns) (sv_responses sv).

(** Sessions are never dropped from the heap, and stay terminated. *)
Definition heap_keeps (tb tb' : RelaySessionTable) : Prop :=
  ∀ h s, tb_heap tb !! h = Some s →
    ∃ s', tb_heap tb' !! h = Some s' ∧ (rs_terminated s = true → rs_terminated s' = true).

Record same_view (sid : string) (conns : list nat) (sv sv' : RelayServer) : Prop := {
  vw_tasks c : c ∈ conns → sv_tasks sv' !! c = sv_tasks sv !! c;
  vw_presented c : c ∈ conns → sv_presented sv' !! c = sv_presented sv !! c;
  vw_channels c : c ∈ conns → sv_channels sv' !! c = sv_channels sv !! c;
  vw_waiting : sv_waiting sv' !! sid = sv_waiting sv !! sid;
  vw_joins : joins sid (sv_log sv') = joins sid (sv_log sv);
  vw_responses : own_responses conns sv' = own_responses conns sv
}.

Lemma heap_keeps_refl tb : heap_keeps tb tb.
Proof. intros h s E. by exists s. Qed.
Lemma heap_keeps_alter tb h f :
  (∀ s, rs_terminated s = true → rs_terminated (f s) = true) → heap_keeps tb (with_handle tb h f).
Proof.
  intros Hf h' s E. cbn. destruct (decide (h = h')) as [->|Hne].
  - rewrite list_lookup_alter_eq, E. exists (f s). eauto.
  - rewrite list_lookup_alter_ne by done. by exists s.
Qed.
Lemma heap_keeps_join tb t now r tb' : register_or_join tb t now = (r, tb') → heap_keeps tb tb'.
Proof.
  unfold register_or_join. destruct (_ <=? _); [intros [= _ <-]; apply heap_keeps_refl|].
  destruct (entry_or_insert tb t) as [h tb1] eqn:Ee.
  assert (heap_keeps tb tb1) as Hk.
  { unfold entry_or_insert in Ee. destruct (_ !! _); simplify_eq; [apply heap_keeps_refl|].
    intros h' s E. exists s. cbn. by rewrite lookup_app_l by (by eapply lookup_lt_Some). }
  destruct (_ || _); [by intros [= _ <-]|]. destruct (slot _ _); [by intros [= _ <-]|].
  intros [= _ <-] h' s (s1 & E1 & Ht1)%Hk.
  destruct (heap_keeps_alter tb1 h (fill_slot (rt_role t)) (λ s Hs, Hs) h' s1 E1) as (s2 & ? & ?). eauto.
Qed.
Lemma handshake_heap tb s now r tb' : handshake verifier tb s now = Some (r, tb') → heap_keeps tb tb'.
Proof.
  unfold handshake. intros (token & _ & E)%bind_Some. destruct token as [t|]; [|simplify_eq; apply heap_keeps_refl].
  destruct (RelayTokenVerifier_verify _ _ _); [|simplify_eq; apply heap_keeps_refl].
  destruct (register_or_join tb t now) as [[[h p]|] tb1] eqn:Ej; simplify_eq; by eapply heap_keeps_join.
Qed.

Lemma handle_connection_heap sv c phase i sv' :
  handle_connection verifier sv c phase i = Some sv' → heap_keeps (sv_table sv) (sv_table sv').
Proof.
  destruct phase, i; cbn; try done; unfold forward_session; cbn.
  2:{ intros ([[] tb] & E%handshake_heap & [= <-])%bind_Some; exact E. }
  all: repeat (case_match; try done); intros; simplify_eq/=; try (by intros ? s ?; exists s); by apply heap_keeps_alter.
Qed.
Lemma server_step_heap sv step sv' :
  server_step verifier sv step = Some sv' → heap_keeps (sv_table sv) (sv_table sv').
Proof.
  destruct step as [c|c|c i]; cbn; [case_match; [done|]| |]; intros E; simplify_eq/=;
    [apply heap_keeps_refl..|]. apply bind_Some in E as (phase & _ & E). by eapply handle_connection_heap.
Qed.
Lemma server_step_closed sv step sv' :
  server_step verifier sv step = Some sv' → sv_closed sv ⊆ sv_closed sv'.
Proof.
  destruct step as [c|c|c i]; cbn; [case_match; [done|]| |]; intros E; simplify_eq/=; [done|set_solver|].
  apply bind_Some in E as (phase & _ & E). unfold handle_connection, forward_session in E.
  destruct phase, i; cbn in E; try done;
    repeat (case_match || (apply bind_Some in E as ([] & _ & E))); simplify_eq/=; set_solver.
Qed.

(** The token of a task at work, and the tokens presented by [conns]. *)
Definition spoken_for (sid : string) (conns : list nat) (sv : RelayServer) : Prop :=
  ∀ c t now, c ∈ conns → sv_presented sv !! c = Some (t, now) → rt_session_id t = sid.

Lemma drop_waiting_view sid conns sv t :
  server_inv verifier sv → spoken_for sid conns sv → rt_session_id t ≠ sid →
  ∀ c, c ∈ conns →
    drop_waiting (sv_waiting sv) (rt_session_id t) (sv_channels sv) !! c = sv_channels sv !! c.
Proof.
  intros Hi Hs Ht c Hc. unfold drop_waiting. destruct (sv_waiting sv !! rt_session_id t) as [[r p]|] eqn:Ew; [|done].
  apply (si_waiting _ _ Hi) in Ew as (_ & tp & [now Ep] & Es). apply lookup_alter_ne. intros ->.
  apply Ht. rewrite <-Es. eauto.
Qed.

Lemma live_token sid conns sv c phase t :
  server_inv verifier sv → clear_but sid conns sv → c ∉ conns → sv_tasks sv !! c = Some phase →
  phase ≠ Phase_Parked → phase ≠ Phase_Done → speaks (sv_presented sv) c t → rt_session_id t ≠ sid.
Proof. intros Hi Hc Hn Hp H3 H4 [now Es] E. destruct (Hc _ _ _ _ Hn Hp Es E); done. Qed.

Lemma same_view_refl sid conns sv : same_view sid conns sv sv.
Proof. by split. Qed.

(** The view after a step of [c] is the old one if its parts are. *)
Lemma same_view_update sid conns sv c phase tb log w ch cl pr rs dl :
  c ∉ conns → (∀ x, x ∈ conns → pr !! x = sv_presented sv !! x) →
  (∀ x, x ∈ conns → ch !! x = sv_channels sv !! x) →
  w !! sid = sv_waiting sv !! sid → joins sid log = joins sid (sv_log sv) →
  (∃ new, rs = sv_responses sv ++ new ∧ Forall (λ r, r.1 = c) new) →
  same_view sid conns sv (mkRelayServer tb log w ch cl (<[c := phase]> (sv_tasks sv)) pr rs dl).
Proof.
  intros Hc Hpr Hch Hw Hj (new & -> & Hnew). split; cbn; [|done..|].
  - intros x Hx. apply lookup_insert_ne. by intros ->.
  - unfold own_responses. cbn. rewrite filter_app.
    assert (filter (λ r : nat * RelayHandshakeResponse, r.1 ∈ conns) new = []) as ->; [|by rewrite app_nil_r].
    induction Hnew as [|r new <- _ IH]; [done|]. by rewrite filter_cons_False.
Qed.
Lemma clear_update sid conns sv c phase tb log w ch cl pr rs dl :
  clear_but sid conns sv → (∀ x, x ≠ c → pr !! x = sv_presented sv !! x) →
  (∀ t now, pr !! c = Some (t, now) → rt_session_id t = sid → phase = Phase_Parked ∨ phase = Phase_Done) →
  clear_but sid conns (mkRelayServer tb log w ch cl (<[c := phase]> (sv_tasks sv)) pr rs dl).
Proof.
  intros Hc Hpr Hn x ph t now Hx. cbn. destruct (decide (x = c)) as [->|Hne].
  - rewrite lookup_insert_eq. intros [= <-]. apply Hn.
  - rewrite lookup_insert_ne, Hpr by done. by apply Hc.
Qed.
Lemma server_step_other sv step sv' x :
  server_step verifier sv step = Some sv' → x ≠ step_connection step →
  sv_tasks sv' !! x = sv_tasks sv !! x ∧ sv_presented sv' !! x = sv_presented sv !! x.
Proof.
  destruct step as [c|c|c i]; cbn; [case_match; [done|]| |]; intros E Hx; simplify_eq/=.
  - by rewrite lookup_insert_ne.
  - done.
  - apply bind_Some in E as (phase & _ & E). split; [by eapply handle_connection_task|].
    unfold handle_connection, forward_session in E. destruct phase, i; cbn in E; try done;
      repeat (case_match || (apply bind_Some in E as ([] & _ & E))); simplify_eq/=; by rewrite ?lookup_insert_ne.
Qed.
Lemma own_step_clear sid conns sv step sv' :
  server_step verifier sv step = Some sv' → step_connection step ∈ conns →
  clear_but sid conns sv → clear_but sid conns sv'.
Proof.
  intros E Hin Hc x phase t now Hx. assert (x ≠ step_connection step) as Hne by (by intros ->).
  destruct (server_step_other _ _ _ _ E Hne) as [-> ->]. by apply Hc.
Qed.
Lemma strange_mono sid conns conns' step : conns ⊆ conns' → strange sid conns' step → strange sid conns step.
Proof. intros Hs [Hn Ht]. split; [set_solver|done]. Qed.

Lemma handshake_view sid tb s now r tb' :
  (∀ t, read_handshake_token s = Some (Ok t) → rt_session_id t ≠ sid) →
  handshake verifier tb s now = Some (r, tb') →
  match r with Handshake_Registered t _ _ => rt_session_id t ≠ sid | _ => True end.
Proof.
  intros Hs. unfold handshake. intros (token & Et & E)%bind_Some.
  repeat case_match; simplify_eq; eauto.
Qed.

Ltac view_update :=
  unfold sv_phase, sv_close, sv_respond, sv_set_table, sv_set_waiting, sv_present, sv_deliver, sv_remove_session; cbn;
  split; [apply same_view_update|apply clear_update]; try done;
  try (exists []; rewrite app_nil_r; by split);
  try (eexists; by split; [done|apply Forall_singleton]).

Lemma stranger_task_view sid conns sv c phase i sv' :
  server_inv verifier sv → clear_but sid conns sv → spoken_for sid conns sv →
  strange sid conns (Step_Task c i) → sv_tasks sv !! c = Some phase →
  handle_connection verifier sv c phase i = Some sv' →
  same_view sid conns sv sv' ∧ clear_but sid conns sv'.
Proof.
  intros Hi Hclear Hspoken [Hc Hs] Et E. cbn in Hc.
  pose proof (si_tasks _ _ Hi _ _ Et) as Hp.
  assert (∀ t now, sv_presented sv !! c = Some (t, now) → rt_session_id t = sid →
    phase = Phase_Parked ∨ phase = Phase_Done) as Hown by (intros; by eapply Hclear).
  destruct phase, i; cbn in E; try done.
  all: try (assert (rt_session_id t ≠ sid) as Ht by (eapply (live_token sid conns sv c); try done; apply Hp)).
  all: try (repeat (case_match; try done); simplify_eq/=; view_update; intros; exfalso; naive_solver).
  - apply bind_Some in E as ([result tb] & Eh & [= <-]). apply (handshake_view sid) in Eh; [|done].
    destruct result as [response|t h paired]; view_update.
    + by right.
    + intros x Hx. rewrite lookup_insert_ne by congruence. done.
    + cbn. unfold str_eqb. by rewrite bool_decide_false.
    + intros x Hx. by rewrite lookup_insert_ne.
    + intros t0 now0. rewrite lookup_insert_eq. intros [= <- _]. done.
  - destruct paired; simplify_eq/=; view_update; try (intros; exfalso; naive_solver).
    + intros x Hx. rewrite lookup_insert_ne by congruence. by apply (drop_waiting_view sid conns).
    + by rewrite lookup_insert_ne.
  - destruct written; simplify_eq/=; view_update; try (by intros; auto).
    + intros; exfalso; naive_solver.
    + intros x Hx. apply lookup_alter_ne. congruence.
  - case_bool_decide; [|done]. simplify_eq/=. view_update; [|intros; exfalso; naive_solver].
    intros x Hx. apply lookup_alter_ne. congruence.
  - simplify_eq/=. view_update; [by apply (drop_waiting_view sid conns)|by rewrite lookup_delete_ne|].
    intros; exfalso; naive_solver.
  - simplify_eq/=. view_update; [cbn; unfold str_eqb; by rewrite bool_decide_false|by right].
  - destruct (sv_waiting sv !! rt_session_id t) as [[r peer]|]; simplify_eq/=; view_update;
      try (by rewrite lookup_delete_ne); intros; exfalso; naive_solver.
  - destruct Hp as (_ & _ & _ & tp & [np Ep] & Es).
    destruct (sv_channels sv !! peer) as [[]|]; simplify_eq/=; view_update; try (intros; exfalso; naive_solver).
    intros x Hx. apply lookup_insert_ne. intros <-. apply Ht. rewrite <-Es. eauto.
  - simplify_eq/=. view_update; [cbn; unfold str_eqb; by rewrite bool_decide_false|by right].
  - case_bool_decide; [|done]. simplify_eq/=. view_update. by right.
Qed.

Lemma stranger_view sid conns sv step sv' :
  server_inv verifier sv → clear_but sid conns sv → spoken_for sid conns sv →
  strange sid conns step → server_step verifier sv step = Some sv' →
  same_view sid conns sv sv' ∧ clear_but sid conns sv' ∧ spoken_for sid conns sv'.
Proof.
  intros Hi Hclear Hspoken Hs E.
  assert (same_view sid conns sv sv' ∧ clear_but sid conns sv') as [Hv Hc'].
  { destruct step as [c|c|c i].
    - destruct Hs as [Hc _]. cbn in Hc, E. destruct (sv_tasks sv !! c) eqn:Et; [done|]. simplify_eq.
      destruct (si_fresh _ _ Hi _ Et) as [Ep _]. view_update. rewrite Ep. done.
    - cbn in E. simplify_eq. by split; [split|].
    - cbn in E. apply bind_Some in E as (phase & Et & E). by eapply stranger_task_view. }
  split_and!; [done..|]. intros c t now Hc. rewrite (vw_presented _ _ _ _ Hv c Hc). by apply Hspoken.
Qed.

(** ** Two endpoints *)

(** The first endpoint of a session that is not in the table. *)
Lemma first_join tb log t now :
  table_ok tb log → get_session tb (rt_session_id t) = None → now < rt_expires_at t →
  ∃ h tb', register_or_join tb t now = (Ok (h, false), tb').
Proof.
  intros Hok Hn He. pose proof (register_or_join_verdict tb t now) as Hv.
  unfold joinable in Hv. unfold get_session in Hn. rewrite Hn in Hv.
  unfold pairing_verdict in Hv. rewrite (proj2 (Z.leb_gt _ _) He), bool_decide_true in Hv by done.
  destruct (register_or_join tb t now) as [[[h p]|e] tb']; cbn in Hv; [|by destruct (rt_role t)].
  replace p with false by (destruct (rt_role t); by injection Hv). eauto.
Qed.

Lemma no_joins tb log sid : table_ok tb log → joins sid log = [] → get_session tb sid = None.
Proof.
  intros Hok Hj. specialize (Hok sid). unfold get_session. destruct (tb_sessions tb !! sid); [|done].
  destruct Hok as (s & _ & Hp). by destruct (po_nonempty _ _ _ Hp).
Qed.

(** While both endpoints of a session are there, nobody else joins it. *)
Lemma full_session_refuses tb log t1 t2 s now t :
  table_ok tb log → joins (rt_session_id t) log = [t2; t1] → rt_role t2 = EndpointRole_peer (rt_role t1) →
  read_handshake_token s = Some (Ok t) →
  ∃ response, handshake verifier tb s now = Some (Handshake_Refused response, tb).
Proof.
  intros Hok Hj Hr Hs. unfold handshake. rewrite Hs. cbn [mbind option_bind].
  destruct (RelayTokenVerifier_verify verifier t now); [|by eexists].
  pose proof (register_or_join_verdict tb t now) as Hv.
  destruct (register_or_join tb t now) as [[[h p]|e] tb'] eqn:Ej; cbn in Hv;
    [|rewrite (register_or_join_refused _ _ _ _ _ _ Hok Ej); by eexists].
  exfalso. destruct (joinable_ok tb log t Hok) as [[Hn _]|[_ _ _ _ Hsl]]; [congruence|].
  unfold pairing_verdict in Hv. destruct (_ <=? _); [done|]. case_bool_decide; [|done].
  rewrite (proj2 (Hsl (rt_role t))) in Hv; [done|].
  rewrite Hj. cbn. rewrite Hr, !elem_of_cons. destruct (rt_role t), (rt_role t1); cbn; auto.
Qed.

(** ** Meetings *)

(** A connection, the token it presents, its handshake stream and the time it arrives. *)
Record Endpoint := mkEndpoint { ep_conn : nat; ep_token : RelayToken; ep_stream : RecvStream; ep_now : Z }.
(** The two endpoints in the order they arrive, and the connection that is lost in the end. *)
Record Meeting := mkMeeting { mt_first : Endpoint; mt_second : Endpoint; mt_lost : nat }.

Definition endpoint_ok (sid : string) (e : Endpoint) : Prop :=
  read_handshake_token (ep_stream e) = Some (Ok (ep_token e)) ∧ verified (ep_token e) (ep_now e) ∧
  rt_session_id (ep_token e) = sid.
Definition meeting_ok (sid : string) (m : Meeting) : Prop :=
  let t1 := ep_token (mt_first m) in let t2 := ep_token (mt_second m) in
  endpoint_ok sid (mt_first m) ∧ endpoint_ok sid (mt_second m) ∧ rt_role t2 = EndpointRole_peer (rt_role t1) ∧
  rt_client_device_id t2 = rt_client_device_id t1 ∧ rt_target_device_id t2 = rt_target_device_id t1 ∧
  (mt_lost m = ep_conn (mt_first m) ∨ mt_lost m = ep_conn (mt_second m)).
Definition connections (m : Meeting) : list nat := [ep_conn (mt_first m); ep_conn (mt_second m)].

Definition meeting_steps (m : Meeting) : list ServerStep :=
  let a := ep_conn (mt_first m) in
  let b := ep_conn (mt_second m) in
  [Step_Accept a; Step_Task a (In_Stream (ep_stream (mt_first m)) (ep_now (mt_first m)));
   Step_Task a In_Run; Step_Task a (In_Response true); Step_Accept b] ++
  joining_steps a b (ep_stream (mt_second m)) (ep_now (mt_second m)).
Definition parting_steps (m : Meeting) : list ServerStep :=
  let a := ep_conn (mt_first m) in [Step_Lost (mt_lost m); Step_Task a In_Closed; Step_Task a In_Run].

(** A run in which the pair takes the given steps of its own, in order, and otherwise only
    other steps happen. *)
Definition woven (own : ServerStep → Prop) `{∀ x, Decision (own x)} (other : ServerStep → Prop)
    (steps run : list ServerStep) : Prop :=
  filter own run = steps ∧ Forall (λ x, own x ∨ other x) run.
Definition of_pair (m : Meeting) (step : ServerStep) : Prop := step_connection step ∈ connections m.
(** The steps that end a meeting, and what else may become of the pair until then: data is
    forwarded, the other connection is lost too, the second task sees it. *)
Definition ends (m : Meeting) (step : ServerStep) : Prop :=
  match step with
  | Step_Lost c => c = mt_lost m
  | Step_Task c (In_Closed | In_Run) => c = ep_conn (mt_first m)
  | _ => False
  end.
Definition incidental (m : Meeting) (step : ServerStep) : Prop :=
  match step with
  | Step_Lost c => c ∈ connections m
  | Step_Task c (In_Datagram _ _ _ | In_Copied _ _) => c = ep_conn (mt_first m)
  | Step_Task c In_Closed => c = ep_conn (mt_second m)
  | _ => False
  end.
#[local] Instance of_pair_dec m x : Decision (of_pair m x).
Proof. unfold of_pair. apply _. Defined.
#[local] Instance ends_dec m x : Decision (ends m x).
Proof. destruct x as [|c|c []]; cbn; apply _. Defined.

Section pair.
Context (sid : string) (m : Meeting) (start : RelayServer).
Let a := ep_conn (mt_first m).
Let b := ep_conn (mt_second m).
Let ta := ep_token (mt_first m).
Let tb := ep_token (mt_second m).
Context (Hm : meeting_ok sid m) (Hne : a ≠ b).

Definition forwarding (co ho : bool) (h : nat) : Phase :=
  let '(client, host) := sides (rt_role ta) a b in Phase_Forwarding client host co ho ta h.

(** Where the pair stands after [k] of the eleven steps to their meeting, with the handles
    they hold. *)
Definition first_phase (h k : nat) : option Phase :=
  match k with
  | 0 => None | 1 => Some Phase_Accepting | 2 => Some (Phase_Registered ta h false)
  | 3 => Some (Phase_Responding ta h false) | 11 => Some (forwarding true true h)
  | _ => Some (Phase_Waiting ta h)
  end%nat.
Definition second_phase (h k : nat) : option Phase :=
  match k with
  | 5 => Some Phase_Accepting | 6 => Some (Phase_Registered tb h true)
  | 7 => Some (Phase_Responding tb h true) | 8 => Some (Phase_Notifying tb)
  | 9 => Some (Phase_Handing tb a) | 10 | 11 => Some Phase_Parked | _ => None
  end%nat.
Definition told : list (nat * RelayHandshakeResponse) :=
  [(a, success_response ta false); (b, success_response tb true)].

Record stage (h h' k : nat) (sv : RelayServer) : Prop := {
  sg_first : sv_tasks sv !! a = first_phase h k;
  sg_second : sv_tasks sv !! b = second_phase h' k;
  sg_spoken_first : sv_presented sv !! a = if Nat.ltb k 2 then None else Some (ta, ep_now (mt_first m));
  sg_spoken_second : sv_presented sv !! b = if Nat.ltb k 6 then None else Some (tb, ep_now (mt_second m));
  sg_joins : joins sid (sv_log sv) = drop (if Nat.ltb k 2 then 2 else if Nat.ltb k 6 then 1 else 0)%nat [tb; ta];
  sg_channel : (3 ≤ k)%nat → sv_channels sv !! a =
    Some (if Nat.ltb k 10 then Chan_Open else Chan_Sent (rt_role tb) b);
  sg_waiting : (3 ≤ k < 9)%nat → sv_waiting sv !! sid = Some (rt_role ta, a);
  sg_heap : (2 ≤ k)%nat → is_Some (tb_heap (sv_table sv) !! h);
  sg_responses : own_responses (connections m) sv = own_responses (connections m) start ++
    take (if Nat.ltb k 4 then 0 else if Nat.ltb k 8 then 1 else 2)%nat told
}.

Lemma stage_view h h' k sv sv' :
  stage h h' k sv → same_view sid (connections m) sv sv' → heap_keeps (sv_table sv) (sv_table sv') →
  stage h h' k sv'.
Proof.
  intros [S1 S2 S3 S4 S5 S6 S7 S8 S9] [V1 V2 V3 V4 V5 V6] Hh.
  assert (a ∈ connections m) as Ha by (unfold connections; set_solver).
  assert (b ∈ connections m) as Hb by (unfold connections; set_solver).
  split; rewrite ?V1, ?V2, ?V3, ?V4, ?V5, ?V6 by done; try done.
  intros Hk. destruct (S8 Hk) as [s Es]. destruct (Hh _ _ Es) as (s' & -> & _). by eexists.
Qed.

Lemma stage_spoken h h' k sv : stage h h' k sv → spoken_for sid (connections m) sv.
Proof.
  intros Hs c t now [->|[->|[]%not_elem_of_nil]%elem_of_cons]%elem_of_cons E;
    destruct Hm as ((_ & _ & Ia) & (_ & _ & Ib) & _).
  - fold a in E. rewrite (sg_spoken_first _ _ _ _ Hs) in E. case_match; by simplify_eq.
  - fold b in E. rewrite (sg_spoken_second _ _ _ _ Hs) in E. case_match; by simplify_eq.
Qed.

Lemma own_snoc sv c r :
  c ∈ connections m →
  filter (λ r, r.1 ∈ connections m) (sv_responses sv ++ [(c, r)]) = own_responses (connections m) sv ++ [(c, r)].
Proof. intros Hc. unfold own_responses. rewrite filter_app. f_equal. by rewrite filter_cons_True. Qed.

Lemma stage_step h h' k sv step :
  reached sv → stage h h' k sv → meeting_steps m !! k = Some step →
  ∃ h1 h1' sv', server_step verifier sv step = Some sv' ∧ stage h1 h1' (S k) sv'.
Proof.
  intros Hr Hs Estep. pose proof (reached_table _ Hr) as Hok.
  assert (a ∈ connections m) as Ha by (unfold connections; set_solver).
  assert (b ∈ connections m) as Hb by (unfold connections; set_solver).
  destruct Hm as ((Sa & Va & Ia) & (Sb & Vb & Ib) & Hro & Hc & Hd & _). fold ta tb in Va, Vb, Ia, Ib, Hro, Hc, Hd.
  destruct Hs as [S1 S2 S3 S4 S5 S6 S7 S8 S9].
  destruct k as [|[|[|[|[|[|[|[|[|[|[|k]]]]]]]]]]]; cbn in *; [..|done]; injection Estep as <-; fold a b; cbn [server_step].
  - rewrite S1. eexists h, h', _. split; [done|]. split; cbn; rewrite ?lookup_insert_eq, ?lookup_insert_ne by done; try done; lia.
  - rewrite S1. cbn [mbind option_bind handle_connection]. unfold handshake. rewrite Sa. cbn [mbind option_bind].
    fold ta. rewrite Va. rewrite <-Ia in S5.
    destruct (first_join _ _ _ _ Hok (no_joins _ _ _ Hok S5) (verified_in_time _ _ Va)) as (h1 & tbl & Ej).
    destruct (register_or_join_effect _ _ _ _ _ _ _ Hok Ej) as (_ & Eh & _).
    rewrite Ej. eexists h1, h', _. split; [done|]. split; cbn; rewrite ?lookup_insert_eq, ?lookup_insert_ne by done; try done; try lia.
    unfold str_eqb. rewrite bool_decide_true by done. by rewrite <-Ia, S5.
  - rewrite S1. eexists h, h', _. split; [done|]. rewrite Ia.
    split; cbn; rewrite ?lookup_insert_eq, ?lookup_insert_ne by done; try done; try lia. intros; apply S8; lia.
  - rewrite S1. eexists h, h', _. split; [done|].
    split; cbn; rewrite ?lookup_insert_eq, ?lookup_insert_ne by done; try done; try (intros; first [apply S6|apply S7|apply S8]; lia).
    etransitivity; [by apply own_snoc|]. by rewrite S9, app_nil_r.
  - rewrite S2. eexists h, h', _. split; [done|].
    split; cbn; rewrite ?lookup_insert_eq, ?lookup_insert_ne by done; try done; try (intros; first [apply S6|apply S7|apply S8]; lia).
  - rewrite S2. cbn [mbind option_bind handle_connection]. unfold handshake. rewrite Sb. cbn [mbind option_bind].
    fold tb. rewrite Vb. rewrite <-Ib in S5.
    destruct (peer_join _ _ ta _ _ Hok S5 Hro Hc Hd (verified_in_time _ _ Vb)) as (h1 & tbl & Ej).
    pose proof (heap_keeps_join _ _ _ _ _ Ej) as Hh.
    rewrite Ej. eexists h, h1, _. split; [done|].
    split; cbn; rewrite ?lookup_insert_eq, ?lookup_insert_ne by done; try done; try (intros; first [apply S6|apply S7]; lia).
    + unfold str_eqb. rewrite bool_decide_true by done. by rewrite <-Ib, S5.
    + intros _. destruct S8 as [x Ex]; [lia|]. destruct (Hh _ _ Ex) as (x' & -> & _). by eexists.
  - rewrite S2. eexists h, h', _. split; [done|].
    split; cbn; rewrite ?lookup_insert_eq, ?lookup_insert_ne by done; try done; try (intros; first [apply S6|apply S7|apply S8]; lia).
  - rewrite S2. eexists h, h', _. split; [done|].
    split; cbn; rewrite ?lookup_insert_eq, ?lookup_insert_ne by done; try done; try (intros; first [apply S6|apply S7|apply S8]; lia).
    etransitivity; [by apply own_snoc|]. by rewrite S9, <-app_assoc.
  - rewrite S2. cbn [mbind option_bind handle_connection]. rewrite Ib, S7 by lia. eexists h, h', _. split; [done|].
    split; cbn; rewrite ?lookup_insert_eq, ?lookup_insert_ne by done; try done; try (intros; first [apply S6|apply S8]; lia).
    intros; lia.
  - rewrite S2. cbn [mbind option_bind handle_connection]. rewrite S6 by lia. eexists h, h', _. split; [done|].
    split; cbn; rewrite ?lookup_insert_eq, ?lookup_insert_ne by done; try done; try (intros; apply S8; lia). intros; lia.
  - rewrite S1. cbn [mbind option_bind handle_connection]. rewrite S6 by lia.
    exists h, h', (sv_phase sv a (forwarding true true h)).
    split; [unfold forwarding, sides; by destruct (rt_role ta)|].
    split; cbn; rewrite ?lookup_insert_eq, ?lookup_insert_ne by done; try done;
      intros; first [lia|apply S6; lia|apply S8; lia].
Qed.

(** However the first steps of the pair are interleaved with steps of others, the pair is
    at that stage; and from there it can take the rest. *)
Lemma woven_stage conns k steps s : ∀ h h' sv mid,
  connections m ⊆ conns → reached sv → stage h h' k sv → clear_but sid (connections m) sv →
  woven (of_pair m) (strange sid conns) steps s → steps `prefix_of` drop k (meeting_steps m) →
  run sv s = Some mid →
  ∃ h h', reached mid ∧ stage h h' (k + length steps) mid ∧ clear_but sid (connections m) mid.
Proof.
  intros h h' sv mid Hconns. revert k steps h h' sv. induction s as [|x s IH]; intros k steps h h' sv Hr Hs Hcl [Hf Ho] Hp; cbn.
  { intros [= <-]. cbn in Hf. subst. exists h, h'. by rewrite Nat.add_0_r. }
  intros (sv1 & Ex & Erun)%bind_Some. inversion Ho as [|? ? Hx Hos]; subst.
  assert (reached sv1) as Hr1 by (eapply (reached_run sv [x]); [done|cbn; by rewrite Ex]).
  rewrite filter_cons in Hp |- *. destruct (decide (of_pair m x)) as [Hmx|Hmx].
  - destruct (drop k (meeting_steps m)) as [|y rest] eqn:Ed; [by apply prefix_nil_inv in Hp|].
    apply prefix_cons_inv_1 in Hp as Exy. subst y. apply prefix_cons_inv_2 in Hp.
    assert (meeting_steps m !! k = Some x) as Ek by (rewrite <-(Nat.add_0_r k), <-lookup_drop, Ed; done).
    destruct (stage_step _ _ _ _ _ Hr Hs Ek) as (h1 & h1' & sv1' & Ex' & Hs1).
    rewrite Ex in Ex'. injection Ex' as <-.
    destruct (IH (S k) (filter (of_pair m) s) h1 h1' sv1 Hr1 Hs1) as (h2 & h2' & ? & Hs2 & ?); try done.
    + by eapply own_step_clear.
    + rewrite <-Nat.add_1_r, <-drop_drop, Ed. done.
    + exists h2, h2'. cbn [length]. by rewrite <-Nat.add_succ_comm.
  - destruct Hx as [|Hx]; [done|]. apply (strange_mono _ (connections m)) in Hx; [|done].
    destruct (stranger_view sid (connections m) sv x sv1) as (Hv & Hcl1 & _); try done.
    { by apply reached_inv. }
    { by eapply stage_spoken. }
    apply (IH k (filter (of_pair m) s) h h' sv1); try done. eapply stage_view; [done..|].
    by eapply server_step_heap.
Qed.

Lemma stage_rest k : ∀ h h' sv,
  reached sv → stage h h' k sv → clear_but sid (connections m) sv → (k ≤ 11)%nat →
  ∃ h h' sv', run sv (drop k (meeting_steps m)) = Some sv' ∧ reached sv' ∧ stage h h' 11 sv' ∧
    clear_but sid (connections m) sv'.
Proof.
  remember (11 - k)%nat as n eqn:En. revert k En. induction n as [|n IH]; intros k En h h' sv Hr Hs Hcl Hk.
  - assert (k = 11%nat) as -> by lia. by exists h, h', sv.
  - destruct (meeting_steps m !! k) as [x|] eqn:Ek; [|apply lookup_ge_None in Ek; cbn in Ek; lia].
    destruct (stage_step _ _ _ _ _ Hr Hs Ek) as (h1 & h1' & sv1 & Ex & Hs1).
    assert (reached sv1) as Hr1 by (eapply (reached_run sv [x]); [done|cbn; by rewrite Ex]).
    rewrite (drop_S _ x) by done. cbn [server_run]. rewrite Ex. cbn [mbind option_bind].
    apply (IH (S k)) with h1 h1'; [lia|done|done| |lia].
    eapply own_step_clear; [done| |done]. apply list_elem_of_lookup_2 in Ek. cbn in Ek.
    unfold connections. set_solver.
Qed.

(** Where the pair stands after [k] of the three steps that part it. *)
Record parting (h k : nat) (told : list (nat * RelayHandshakeResponse)) (sv : RelayServer) : Prop := {
  pt_first : match k with
    | 0 | 1 => ∃ co ho, sv_tasks sv !! a = Some (forwarding co ho h)
    | 2 => sv_tasks sv !! a = Some (Phase_Removing ta)
    | _ => sv_tasks sv !! a = Some Phase_Done end%nat;
  pt_second : sv_tasks sv !! b = Some Phase_Parked ∨ sv_tasks sv !! b = Some Phase_Done;
  pt_spoken_first : sv_presented sv !! a = Some (ta, ep_now (mt_first m));
  pt_spoken_second : sv_presented sv !! b = Some (tb, ep_now (mt_second m));
  pt_joins : joins sid (sv_log sv) = if Nat.ltb k 3 then [tb; ta] else [];
  pt_lost : (1 ≤ k)%nat → mt_lost m ∈ sv_closed sv;
  pt_closed : (2 ≤ k)%nat → a ∈ sv_closed sv ∧ b ∈ sv_closed sv;
  pt_heap : ∃ s, tb_heap (sv_table sv) !! h = Some s ∧ ((2 ≤ k)%nat → rs_terminated s = true);
  pt_responses : own_responses (connections m) sv = told
}.

Lemma stage_parting h h' sv : stage h h' 11 sv → parting h 0 (own_responses (connections m) sv) sv.
Proof.
  intros [S1 S2 S3 S4 S5 S6 S7 [s Es] S9]; [lia|]. split; cbn in *; eauto; try lia.
  exists s. split; [done|lia].
Qed.
Lemma parting_spoken h k told sv : parting h k told sv → spoken_for sid (connections m) sv.
Proof.
  intros Hs c t now [->|[->|[]%not_elem_of_nil]%elem_of_cons]%elem_of_cons E;
    destruct Hm as ((_ & _ & Ia) & (_ & _ & Ib) & _).
  - fold a in E. rewrite (pt_spoken_first _ _ _ _ Hs) in E. by simplify_eq.
  - fold b in E. rewrite (pt_spoken_second _ _ _ _ Hs) in E. by simplify_eq.
Qed.
Lemma parting_view h k told sv step sv' :
  parting h k told sv → server_step verifier sv step = Some sv' → same_view sid (connections m) sv sv' →
  parting h k told sv'.
Proof.
  intros [P1 P2 P3 P4 P5 P6 P7 (s & Es & Ht) P9] E [V1 V2 V3 V4 V5 V6].
  pose proof (server_step_closed _ _ _ E) as Hcl. destruct (server_step_heap _ _ _ E _ _ Es) as (s' & Es' & Ht').
  assert (a ∈ connections m) as Ha by (unfold connections; set_solver).
  assert (b ∈ connections m) as Hb by (unfold connections; set_solver).
  split; rewrite ?V1, ?V2, ?V3, ?V4, ?V5, ?V6 by done; try done; [set_solver..|]. eauto.
Qed.

Lemma parting_step h k told sv step :
  parting h k told sv → parting_steps m !! k = Some step →
  ∃ sv', server_step verifier sv step = Some sv' ∧ parting h (S k) told sv'.
Proof.
  intros [P1 P2 P3 P4 P5 P6 P7 (s & Es & Ht) P9] Ek.
  destruct Hm as ((_ & _ & Ia) & _ & _ & _ & _ & Hl). fold a b ta in Hl, Ia.
  destruct k as [|[|[|k]]]; cbn in *; [..|done]; injection Ek as <-; fold a; cbn [server_step].
  - eexists. split; [done|]. split; cbn; try done; [set_solver|lia|]. exists s. split; [done|lia].
  - destruct P1 as (co & ho & E1). rewrite E1. cbn [mbind option_bind].
    assert (∃ client host, sides (rt_role ta) a b = (client, host) ∧
      (client = a ∧ host = b ∨ client = b ∧ host = a)) as (client & host & Esides & Hch).
    { unfold sides. destruct (rt_role ta); eauto 10. }
    unfold forwarding. rewrite Esides. cbn [handle_connection forward_session].
    assert (bool_decide (client ∈ sv_closed sv) || bool_decide (host ∈ sv_closed sv) = true) as ->.
    { apply orb_true_iff. rewrite !bool_decide_eq_true. specialize (P6 ltac:(lia)).
      destruct Hl as [El|El], Hch as [[-> ->]|[-> ->]]; rewrite El in P6; auto. }
    eexists. split; [done|]. split; cbn; rewrite ?lookup_insert_eq, ?lookup_insert_ne by done; try done.
    + intros _. specialize (P6 ltac:(lia)). set_solver.
    + intros _. destruct Hch as [[-> ->]|[-> ->]]; set_solver.
    + exists (RelaySession_terminate s). by rewrite list_lookup_alter_eq, Es.
  - rewrite P1. cbn [mbind option_bind handle_connection]. eexists. split; [done|].
    split; cbn; rewrite ?lookup_insert_eq, ?lookup_insert_ne by done; try done.
    + unfold str_eqb. by rewrite bool_decide_true.
    + intros _. apply P6. lia.
    + intros _. apply P7. lia.
    + exists s. split; [done|]. intros _. apply Ht. lia.
Qed.

Lemma parting_incidental h k told sv step sv' :
  parting h k told sv → incidental m step → server_step verifier sv step = Some sv' → parting h k told sv'.
Proof.
  intros Hp Hi E. pose proof (server_step_closed _ _ _ E) as Hcl.
  destruct Hp as [P1 P2 P3 P4 P5 P6 P7 (s & Es & Ht) P9].
  destruct (server_step_heap _ _ _ E _ _ Es) as (s' & Es' & Ht').
  assert (∀ co ho co' ho' tbl dl, sv_tasks sv !! a = Some (forwarding co ho h) →
    sv' = sv_phase (sv_deliver (sv_set_table sv tbl (sv_log sv)) dl) a (forwarding co' ho' h) →
    parting h k told sv') as Hforward.
  { intros co ho co' ho' tbl dl E1 ->. split; cbn; rewrite ?lookup_insert_eq, ?lookup_insert_ne by done; try done; eauto.
    unfold forwarding, sides in *. destruct k as [|[|[|k]]]; [eauto..| |]; rewrite P1 in E1; by destruct (rt_role ta). }
  destruct step as [c|c|c i]; cbn in Hi, E; [done| |].
  - injection E as <-. split; cbn; try done; [set_solver..|]. eauto.
  - apply bind_Some in E as (phase & Ec & E).
    destruct i as [| | | | | |role d send|role d]; try done; subst c; fold a b in Ec, E.
    + destruct P2 as [P2|P2]; rewrite P2 in Ec; injection Ec as <-; cbn in E; [|done].
      case_bool_decide; [|done]. injection E as <-.
      split; cbn; rewrite ?lookup_insert_eq, ?lookup_insert_ne by done; eauto.
    + destruct k as [|[|[|k]]]; [| |rewrite P1 in Ec; by injection Ec as <-..];
        destruct P1 as (co & ho & P1); rewrite P1 in Ec; injection Ec as <-;
        unfold forwarding in E; destruct (sides (rt_role ta) a b) as [client host] eqn:Esd; cbn in E;
        (destruct (direction_open _ _ _); [|done]); cbn in E; injection E as <-;
        (destruct role; [eapply (Hforward co ho _ ho)|eapply (Hforward co ho co)]); try exact P1;
        unfold forwarding; rewrite Esd; reflexivity.
    + destruct k as [|[|[|k]]]; [| |rewrite P1 in Ec; by injection Ec as <-..];
        destruct P1 as (co & ho & P1); rewrite P1 in Ec; injection Ec as <-;
        unfold forwarding in E; destruct (sides (rt_role ta) a b) as [client host] eqn:Esd; cbn in E;
        injection E as <-; eapply (Hforward co ho co ho); try exact P1; unfold forwarding; rewrite Esd; reflexivity.
Qed.

Lemma woven_parting conns k steps s : ∀ h told sv e,
  connections m ⊆ conns → reached sv → parting h k told sv → clear_but sid (connections m) sv →
  woven (ends m) (λ x, strange sid conns x ∨ incidental m x) steps s →
  steps `prefix_of` drop k (parting_steps m) → run sv s = Some e →
  reached e ∧ parting h (k + length steps) told e ∧ clear_but sid (connections m) e.
Proof.
  intros h told sv e Hconns. revert k steps sv. induction s as [|x s IH]; intros k steps sv Hr Hs Hcl [Hf Ho] Hp; cbn.
  { intros [= <-]. cbn in Hf. subst. by rewrite Nat.add_0_r. }
  intros (sv1 & Ex & Erun)%bind_Some. inversion Ho as [|? ? Hx Hos]; subst.
  assert (reached sv1) as Hr1 by (eapply (reached_run sv [x]); [done|cbn; by rewrite Ex]).
  rewrite filter_cons in Hp |- *. destruct (decide (ends m x)) as [Hmx|Hmx].
  - destruct (drop k (parting_steps m)) as [|y rest] eqn:Ed; [by apply prefix_nil_inv in Hp|].
    apply prefix_cons_inv_1 in Hp as Exy. subst y. apply prefix_cons_inv_2 in Hp.
    assert (parting_steps m !! k = Some x) as Ek by (rewrite <-(Nat.add_0_r k), <-lookup_drop, Ed; done).
    destruct (parting_step _ _ _ _ _ Hs Ek) as (sv1' & Ex' & Hs1). rewrite Ex in Ex'. injection Ex' as <-.
    destruct (IH (S k) (filter (ends m) s) sv1 Hr1 Hs1) as (? & Hs2 & ?); try done.
    + eapply own_step_clear; [done| |done]. apply list_elem_of_lookup_2 in Ek. cbn in Ek.
      destruct Hm as (_ & _ & _ & _ & _ & Hl). unfold connections. set_solver.
    + rewrite <-Nat.add_1_r, <-drop_drop, Ed. done.
    + cbn [length]. by rewrite <-Nat.add_succ_comm.
  - destruct Hx as [|[Hx|Hx]]; [done|..].
    + apply (strange_mono _ (connections m)) in Hx; [|done].
      destruct (stranger_view sid (connections m) sv x sv1) as (Hv & Hcl1 & _); try done.
      { by apply reached_inv. }
      { by eapply parting_spoken. }
      apply (IH k (filter (ends m) s) sv1); try done. by eapply parting_view.
    + apply (IH k (filter (ends m) s) sv1); try done; [by eapply parting_incidental|].
      eapply own_step_clear; [done| |done]. unfold connections. destruct x as [c|c|c []]; cbn in Hx |- *; set_solver.
Qed.
Lemma parting_rest k : ∀ h told sv,
  reached sv → parting h k told sv → clear_but sid (connections m) sv → (k ≤ 3)%nat →
  ∃ sv', run sv (drop k (parting_steps m)) = Some sv' ∧ reached sv' ∧ parting h 3 told sv' ∧
    clear_but sid (connections m) sv'.
Proof.
  remember (3 - k)%nat as n eqn:En. revert k En. induction n as [|n IH]; intros k En h told sv Hr Hs Hcl Hk.
  - assert (k = 3%nat) as -> by lia. by exists sv.
  - destruct (parting_steps m !! k) as [x|] eqn:Ek; [|apply lookup_ge_None in Ek; cbn in Ek; lia].
    destruct (parting_step _ _ _ _ _ Hs Ek) as (sv1 & Ex & Hs1).
    assert (reached sv1) as Hr1 by (eapply (reached_run sv [x]); [done|cbn; by rewrite Ex]).
    rewrite (drop_S _ x) by done. cbn [server_run]. rewrite Ex. cbn [mbind option_bind].
    apply (IH (S k)); [lia|done|done| |lia].
    eapply own_step_clear; [done| |done]. apply list_elem_of_lookup_2 in Ek. cbn in Ek.
    destruct Hm as (_ & _ & _ & _ & _ & Hl). unfold connections. set_solver.
Qed.
End pair.

(** ** Meeting again *)

(** Whoever presents a token of the session is refused and changes nothing. *)
Definition refuses_others (sid : string) (sv : RelayServer) : Prop :=
  ∀ s t now, read_handshake_token s = Some (Ok t) → rt_session_id t = sid →
    ∃ response, handshake verifier (sv_table sv) s now = Some (Handshake_Refused response, sv_table sv).
(** Both endpoints are told that they met, and the task of the first forwards between the
    two, with the client's connection on the client's side. *)
Definition together (m : Meeting) (h : nat) (sv mid : RelayServer) : Prop :=
  let a := ep_conn (mt_first m) in let b := ep_conn (mt_second m) in
  let ta := ep_token (mt_first m) in let tb := ep_token (mt_second m) in
  own_responses (connections m) mid = own_responses (connections m) sv ++
    [(a, success_response ta false); (b, success_response tb true)] ∧
  sv_tasks mid !! a = Some (let '(client, host) := sides (rt_role ta) a b in
                            Phase_Forwarding client host true true ta h) ∧
  sv_tasks mid !! b = Some Phase_Parked.
(** Both connections are closed, the session is terminated and has left the table, and no
    task of it is at work. *)
Definition parted (sid : string) (m : Meeting) (h : nat) (sv : RelayServer) : Prop :=
  ep_conn (mt_first m) ∈ sv_closed sv ∧ ep_conn (mt_second m) ∈ sv_closed sv ∧
  get_session (sv_table sv) sid = None ∧
  (∃ s, tb_heap (sv_table sv) !! h = Some s ∧ rs_terminated s = true) ∧ clear sid sv.

(** Whatever else happens meanwhile: when the endpoints have taken some of the steps to
    their meeting, they can take the rest, and then they have met; until they part, others
    are refused; when they have taken some of the steps that part them, they can take the
    rest, and then they have parted, and they can meet again. *)
Fixpoint always_meet (sid : string) (sv : RelayServer) (ms : list Meeting) : Prop :=
  match ms with
  | [] => True
  | m :: rest =>
      let others := strange sid ((m :: rest) ≫= connections) in
      ∀ p q s mid, meeting_steps m = p ++ q → woven (of_pair m) others p s → run sv s = Some mid →
      ∃ mid' h, run mid q = Some mid' ∧ together m h sv mid' ∧
        ∀ p q s e, parting_steps m = p ++ q →
          woven (ends m) (λ x, others x ∨ incidental m x) p s → run mid' s = Some e →
          (q ≠ [] → refuses_others sid e) ∧
          ∃ sv', run e q = Some sv' ∧ parted sid m h sv' ∧ always_meet sid sv' rest
  end.

(** Connections that the steps do not touch. *)
Lemma untouched m (conns : list nat) steps sv sv' x :
  Forall (λ step, step_connection step ∈ connections m ∨ step_connection step ∉ conns) steps →
  x ∈ conns → x ∉ connections m → run sv steps = Some sv' → sv_tasks sv' !! x = sv_tasks sv !! x.
Proof.
  intros Hf Hx Hn Hr. apply (server_run_task steps); [done|].
  intros (step & -> & Hin)%list_elem_of_fmap. rewrite Forall_forall in Hf. by destruct (Hf _ Hin).
Qed.
Lemma woven_touches {own : ServerStep → Prop} `{∀ x, Decision (own x)} {other : ServerStep → Prop} m
    (conns : list nat) steps s :
  woven own other steps s →
  (∀ x, own x → step_connection x ∈ connections m) →
  (∀ x, other x → step_connection x ∈ connections m ∨ step_connection x ∉ conns) →
  Forall (λ step, step_connection step ∈ connections m ∨ step_connection step ∉ conns) s.
Proof. intros [_ Hf] Hown Hother. eapply Forall_impl; [exact Hf|]. intros x [?|?]; auto. Qed.
Lemma pair_touches m (conns : list nat) steps :
  (∀ x, x ∈ steps → step_connection x ∈ connections m) →
  Forall (λ step, step_connection step ∈ connections m ∨ step_connection step ∉ conns) steps.
Proof. intros Hs. apply Forall_forall. intros x Hx. left. by apply Hs. Qed.
Lemma meeting_steps_pair m x : x ∈ meeting_steps m → step_connection x ∈ connections m.
Proof. unfold connections. cbn. set_solver. Qed.
Lemma ends_pair sid m x : meeting_ok sid m → ends m x → step_connection x ∈ connections m.
Proof.
  intros (_ & _ & _ & _ & _ & Hl). unfold connections. destruct x as [c|c|c []]; cbn; set_solver.
Qed.
Lemma incidental_pair m x : incidental m x → step_connection x ∈ connections m.
Proof. unfold connections. destruct x as [c|c|c []]; cbn; set_solver. Qed.
Lemma parting_steps_pair sid m x : meeting_ok sid m → x ∈ parting_steps m → step_connection x ∈ connections m.
Proof.
  intros (_ & _ & _ & _ & _ & Hl). unfold connections. cbn.
  intros [->|[->|[->|[]%not_elem_of_nil]%elem_of_cons]%elem_of_cons]%elem_of_cons; cbn; set_solver.
Qed.

Lemma new_pair_stage sid m sv :
  reached sv → get_session (sv_table sv) sid = None → Forall (λ c, sv_tasks sv !! c = None) (connections m) →
  stage sid m sv 0 0 0 sv.
Proof.
  intros Hr Hg [Fa [Fb _]%Forall_cons]%Forall_cons. pose proof (reached_inv _ Hr) as Hi.
  destruct (si_fresh _ _ Hi _ Fa) as [Pa _]. destruct (si_fresh _ _ Hi _ Fb) as [Pb _].
  split; cbn; try done; try lia.
  - specialize (reached_table _ Hr sid). unfold get_session in Hg. by rewrite Hg.
  - by rewrite app_nil_r.
Qed.

Lemma parting_refuses sid m h k told sv :
  meeting_ok sid m → reached sv → parting sid m h k told sv → (k < 3)%nat → refuses_others sid sv.
Proof.
  intros (_ & _ & Hro & _) Hr Hp Hk s t now Hs Ht.
  eapply (full_session_refuses _ (sv_log sv) (ep_token (mt_first m)) (ep_token (mt_second m)));
    [by apply reached_table| |done..].
  rewrite Ht, (pt_joins _ _ _ _ _ _ Hp). by rewrite (proj2 (Nat.ltb_lt _ _) Hk).
Qed.

Lemma parting_parted sid m h told sv :
  reached sv → parting sid m h 3 told sv → clear_but sid (connections m) sv → parted sid m h sv.
Proof.
  intros Hr [P1 P2 P3 P4 P5 P6 P7 (s & Es & Ht) P9] Hc. cbn in *.
  split_and!; [by apply P7; lia..| | |].
  - by apply (no_joins _ (sv_log sv)); [apply reached_table|].
  - exists s. split; [done|]. apply Ht. lia.
  - intros c phase t now _ Ec Ep Et. destruct (decide (c ∈ connections m)) as [Hin|Hin]; [|by eapply Hc].
    apply elem_of_cons in Hin as [->|[->|[]%not_elem_of_nil]%elem_of_cons]; [by right; congruence|].
    destruct P2 as [P2|P2]; [left|right]; congruence.
Qed.

End meetings.

(** ** A run *)

(** The host and the client meet, the client's connection is lost, and they meet again, the
    client first. *)
Definition toy_endpoint (c : nat) (role : EndpointRole) (now : Z) : Endpoint :=
  mkEndpoint c (toy_token role) (toy_stream role) now.
Definition toy_meetings : list Meeting :=
  [mkMeeting (toy_endpoint 0 Role_Host 10) (toy_endpoint 1 Role_Client 11) 1;
   mkMeeting (toy_endpoint 2 Role_Client 20) (toy_endpoint 3 Role_Host 21) 3].
(** Another connection comes and goes while the first two endpoints meet. *)
Definition toy_stranger (s : list ServerStep) : list ServerStep :=
  match s with
  | x :: y :: s => x :: Step_Accept 9 :: y :: Step_Task 9 In_NoStream :: s
  | s => s
  end.
